(* ===== verification/_CoqProject ===== *)
-Q . S2P
Prelude.v
Interaction.v
Borsh.v
Solana.v
DemoRuntime.v
IntentProgram.v
Errors.v
WideMath.v
ConditionVerifier.v
Records.v
AccountDecode.v
SolendRaw.v
SolendBoundary.v
JupiterBoundary.v
JupiterBracket.v
Instruction.v
SolendCpi.v
Authority.v
Lifecycle.v
Entrypoint.v
Traces.v
Scenario.v
WatchRules.v
WatcherBase.v
RuleStore.v
RustText.v
Daemon.v
RuleWatcher.v
RuleExecutor.v
RuleDaemon.v
RuleSteps.v
RuleEvaluator.v
EvaluatorFacts.v
DaemonSafety.v
FundingStore.v
FundingSafety.v
Float64.v
PolicyEngine.v
Approval.v
ApprovalStore.v
ApprovalFacts.v
CanonicalIntent.v
DemoCommand.v
MarketReading.v
OrderDraft.v
FundingEvents.v
OrderCommand.v
ChatExecute.v
DraftFacts.v
OrderBridge.v
MarketFetch.v
AutoExecute.v
FundingFlow.v
FlowSafety.v
FundingFacts.v
FlowRuns.v
ChatFacts.v
OrderFacts.v
SdkTypes.v
ComputeBudget.v
SigningEvents.v
TxReview.v
WalletAdapters.v
Orchestrator.v
TxSummary.v
PolicyStores.v
SigningTool.v
SigningTasks.v
SigningLogic.v
SigningSafety.v
SigningRuns.v
TxLifecycle.v
TxTracker.v
TxTrackerFacts.v
LendingPolicy.v
SubmitStores.v
SubmitFlow.v
SubmitLogic.v
SubmitSafety.v
SubmitRuns.v
