(* ===== verification/Prelude.v ===== *)
(** * Solfrontier: delegated execution, on chain and off

    A model of the two on-chain programs of the repository, [clawsol-authority]
    (src/programs/clawsol-authority) and [clawsol-intent] (src/programs/clawsol-intent),
    of the daemon that watches rules and has them executed (the rule store,
    evaluator, watcher and executor under src/crates), of the conditional deposits a
    user orders in the chat, funds and has executed, of the path on which an
    agent's transaction is reviewed, approved, signed, sent and followed to its end,
    and of the one on which a Solend deposit or withdrawal is handed to a user's
    wallet, verified and broadcast, with the theorems that make them correct.

    ** The program

    A user signs an on-chain authorization: which executor may run which action
    (a Solend withdraw of the user's delegated wallet, or a Jupiter purchase),
    up to which amount, until which slot, paying which destination, under which
    rule hash.  The executor later sends one execution with a proof that the
    rule's conditions hold (Pyth prices, Solend supply rates) and a description
    of the surrounding transaction.  The program checks everything against the
    record and the clock, performs the Solend withdraw through three
    cross-program calls when the accounts for it are passed, and marks the
    record completed.  The user can revoke and, once revoked, completed or
    expired, close it.  Two further instructions bracket a swap with a balance
    checkpoint.

    The companion program [clawsol-intent] records, once and for good, that a user
    signed a transaction whose canonical intent has a given hash.

    Off chain, a user's watch rule (conditions, an action, a cap, an expiry) is
    stored in a table.  A watcher ticks: it expires rules, evaluates the
    conditions of active ones over oracle snapshots, simulates the execution and
    marks the rule [condition_met].  An executor leases such a rule by moving it
    to [executing], builds the request for the on-chain execution, sends it
    through an execution client and marks the rule completed or failed.  Users
    insert and revoke rules at any time; the parts run concurrently and meet
    only in the table, through guarded UPDATE statements.

    In the chat a user orders a conditional deposit, by a command or by confirming a
    draft, funds it with a transaction whose memo names the order, and the gateway
    executes it once when its condition is met.

    An agent proposes transactions of its own through a tool.  The gateway sets the
    compute budget, simulates, applies the rules of wallet, session and gateway, parks
    what needs human approval, and gives what passes to a local key or to an external
    wallet, whose answer it verifies before it broadcasts.  A tracker then polls the
    node, broadcasts dropped transactions again and has every change of state stored
    and announced.

    A Solend plan becomes a transaction that is parked for the user's wallet.  What the
    wallet returns is taken against the parked one, verified, and submitted with a few
    attempts; a tracker of its own follows it, and the session may ask what became of it.

    ** Files

    - [Prelude]: results, guards, integers at their width, bytes; the tactics
      [inv_ok] (take a successful run apart) and [b2p] (booleans to
      propositions).
    - [Borsh]: codecs with their round-trip laws; one combinator per shape the
      derive macro emits.  [try_from_slice_Some] is the law all decoding uses.
    - [Solana]: accounts, the shared store [Bank], the handler monad [M], the
      calls into the runtime ([Runtime]) and their documented behaviour
      ([RuntimeLaws]).
    - [DemoRuntime]: an executable runtime that satisfies the laws.
    - [IntentProgram]: the second on-chain program, [clawsol-intent]
      (src/programs/clawsol-intent), complete in one file; it shares the
      runtime model and nothing else.
    - [Errors] (error.rs): the ninety errors and their wire codes.
    - [WideMath], [ConditionVerifier] (condition_verifier.rs): the 256-bit
      multiply-divide, the Pyth and Solend condition verifiers, each against a
      reference over the integers and rationals.
    - [Records] (state.rs): the authorization record, its layout, its address.
    - [AccountDecode] (solend_account_decode.rs): the account decoders.
    - [SolendBoundary] (solend_boundary.rs), [JupiterBoundary]
      (jupiter_boundary.rs): the transaction-shape gates, each against a
      declarative description of the accepted instruction lists.
    - [JupiterBracket] (jupiter_bracket.rs): checkpoint, pre- and post-check.
    - [Instruction] (instruction.rs): wire format and builders.
    - [SolendCpi] (solend_cpi_builder.rs): instruction data and metas, account
      validation, the oracle allowlist, the three calls, the orchestrator.
    - [Authority] (lib.rs): the handlers; [process_execute_action] is composed
      of one definition per comment banner of the source.
    - [Scenario]: concrete accounts, arguments and worlds, and the properties of the
      program on them.
    - [Lifecycle]: for each handler, the exact condition of success and the
      exact state it leaves.
    - [Entrypoint]: the abstract transition of each instruction and that the
      entrypoint refines it.
    - [Traces]: the program and the rest of the chain as a labelled step
      relation; invariants by induction on traces.

    The off-chain part:
    - [WatchRules] (types/stage2_watch_rule.rs): rules, their canonical bytes and
      hash, validation; the class [Crates] of what the crates SHA-256, base58
      and JSON provide, with its laws.
    - [RuleStore] (state-store/stage2_watch_rules.rs): the table and every
      statement on it; [row_to_stored], the integrity checks on load.
    - [WatcherBase], [RuleWatcher] (gateway/stage2_watcher.rs): errors, contexts
      and seams; the tick and its handlers.
    - [RuleExecutor] (gateway/stage2_executor.rs): request building, lease,
      dispatch and write-back.
    - [RuleEvaluator] (gateway/stage2_evaluator.rs): the daemon's copy of the
      condition arithmetic, the fold over a rule's conditions, snapshot requests
      and the per-tick cache.
    - [Daemon]: handlers as programs ([Prog]) over events; what each event does to
      the shared state; programs run alone ([run]) and interleaved ([step]).
    - [RuleDaemon]: a program logic over [Prog] ([safe]: what a program may do
      given the history and the rules it has leased), the programs proved in
      it, and the invariant of a pool of them ([wf], [pool_ok]).
    - [RuleSteps]: the updates as a state machine on statuses; the effect of one
      handler run alone ([moves]).
    - [DaemonSafety]: the properties of the daemon, with their concrete runs.
    - [EvaluatorFacts]: the evaluator against the on-chain verifier; order
      independence; the cache.
    - [FundingStore] (state-store/stage2_w5h_funding.rs): the table of
      conditional deposit orders and its guarded transitions; [FundingSafety]:
      what holds after any sequence of calls, by an invariant that relates each
      row to the calls that took effect on it ([story]).
    - [SolendRaw] (gateway/integrations/solend/raw.rs): the daemon's decoders of
      obligations and reserves, with every slice that could panic: they never do,
      and they agree with [AccountDecode].
    - [PolicyEngine] (risk-engine/policy.rs and rules/, types/policy.rs,
      types/transaction.rs): the conditions of policy rules and the ordered
      evaluation on a proposed transaction, and what it decides.

    The chat's orders (file names under gateway/):
    - [Interaction]: handlers as programs over events, and the program logic
      they are verified in, with a second one for tasks that rely on what the others
      leave alone ([guards]); [RustText], [Float64]: the texts, JSON values, digits
      and floats the handlers read.
    - [DemoCommand] (stage2_demo_apr_bridge.rs), [OrderCommand]
      (stage2_w5h_chat.rs): the two command parsers, byte by byte; [OrderFacts]:
      the documented command is read back, the scan ends, what surprises.
    - [OrderDraft] (stage2_phase5c_draft.rs): drafts, their hash, their store;
      [DraftFacts]: confirmed once, bound by the hash.
    - [MarketReading], [MarketFetch] (stage2_demo_apr_bridge.rs): what is read
      of the market and how, and that the readings are consistent.
    - [FundingEvents] (stage2_w5h_funding_confirm.rs): the events of the handlers, the
      confirmation of a deposit and the parser of the fetched transaction;
      [FundingFacts]: what is accepted.
    - [OrderBridge] (stage2_demo_apr_bridge.rs, stage2_w5h_bridge.rs,
      runtime/stage2_w5h_intent_finalize_wiring.rs, runtime/chat_wiring.rs): a rule and
      an intent from a command or a confirmed draft, and the chat route as far as the
      two commands.
    - [ChatExecute] (stage2_chat_execute.rs): the orchestrator of an execution;
      [ChatFacts]; [AutoExecute] (stage2_w5i_auto_execute.rs): the loop's tick.
    - [FundingFlow]: all of these over one funding store, interleaved;
      [FlowSafety]: what the flow guarantees; [FlowRuns]: the flow on concrete
      orders, and single handlers run alone.
    - [CanonicalIntent] (types/canonical_intent.rs, gateway/canonical_intent_gate.rs):
      the intents whose hash the intent program records, and their expiry gate.

    The signing path (under src/crates/):
    - [Approval], [ApprovalStore] (types/approval.rs, gateway/approval_store.rs,
      approval_audit.rs, approval_routing.rs, daemon.rs [decide_inner]): staged
      workflows with quorums and leases, their store, audit and routing;
      [ApprovalFacts]: what an approval rests on.
    - [SdkTypes]: transactions and messages, and the class [Sdk] of what the solana
      crates provide, with its laws; [ComputeBudget] (solana-core/compute.rs).
    - [SigningEvents]: the events of the programs that follow.
    - [TxReview] (wallet-engine/pipeline.rs, solana-core/simulation.rs, fees.rs): fees,
      budget, simulation with its second pass, policy, signing of a keystore wallet.
    - [WalletAdapters], [Orchestrator] (gateway/orchestrator): who signs, what an
      external wallet may hand back, the pending requests.
    - [TxSummary], [SigningTool], [SigningTasks] (gateway/tools/signing.rs, daemon.rs):
      the summary shown to operators, the tool, the task that resumes a parked
      approval, the handler of a wallet's signature; and all of these interleaved over
      the shared stores.
    - [PolicyStores] (gateway/session_policy.rs, wallet_policy.rs, config.rs,
      daemon.rs, state-store/session_policy.rs): rules of wallets and sessions.
    - [SigningLogic], [SigningSafety]: the logic, the programs verified in it, and
      what the path guarantees; [SigningRuns]: a transaction crate and concrete runs.
    - [TxLifecycle] (solana-core/tx_lifecycle.rs): the state machine of a submitted
      transaction, against what a history of reports amounts to; [TxTracker]
      (solana-core/tracker.rs, gateway/lifecycle_persister.rs, state-store/tracking.rs,
      daemon.rs): polling, rebroadcast, persistence and recovery; [TxTrackerFacts]:
      the tasks interleaved, and concrete runs.
    - [LendingPolicy] (gateway/lending): the checks of a lending action and the
      decimal budget of deposits.

    The Solend submission (under src/crates/gateway/src/):
    - [SubmitStores] (integrations/solend_signing.rs, solend_submit.rs,
      solend_lifecycle.rs, solend_confirmation.rs, with the plans of solend_tx_plan.rs
      and solend_withdraw_tx_plan.rs): what is parked, recorded and tracked, and the
      verification of what the wallet returned, step by step.
    - [SubmitFlow] (the same files, runtime/solend_submit_wiring.rs): the handoffs, the
      submission with its attempts, what the API asks for, the rounds of the tracker
      and its recovery.
    - [SubmitLogic]: the shared history, the interleaving and the logic of the handlers;
      [SubmitSafety]: the logic of the tracker, the invariant and what it guarantees;
      [SubmitRuns]: a deposit from its plan to finality, and other concrete runs.

    ** State and effects

    The accounts of a transaction live in one finite map indexed by key, so an
    account passed twice is one account.  A handler is a function from a
    [World] (bank, clock, event log) to a result; [Err] rolls the transaction
    back, so no state is kept for it.  Integers are [Z] with their range in
    [well_typed]; checked operations are [checked_u]; what wraps is written out.
    The seeds, the rent, the system program and every invoked program are
    parameters ([Runtime]); what the proofs use of them is the class
    [RuntimeLaws], and nothing more.

    The daemon's handlers are asynchronous, so a handler is a tree of events
    (one per await, clock reading or in-flight operation), and the pool
    interleaves the trees at every event, lets any statement fail and any
    program stop anywhere.  The history of calls, newest first, is part of the
    shared state; the properties speak about it.  The orders, the signing path and
    the trackers are built the same way: [FundingFlow], [SigningTasks],
    [TxTrackerFacts] and [SubmitLogic] each have their state, their events' effects, and
    a step relation that spawns, runs and stops programs, and the trackers' restarts as
    well.

    ** What the theorems show

    - Authority: nothing is executed that its user did not authorize, at most
      once, never after a revocation; signed terms never change; spending stays
      within the cap ([Traces]).
    - Functional: each handler succeeds exactly when its gates hold and leaves
      exactly the described state; an execution is refused with the first error
      ([Lifecycle], [Entrypoint], [SolendCpi], [JupiterBracket]).
    - Funds: a withdraw moves the delegated wallet's own collateral to the signed
      destination under that wallet's signature only; a close conserves
      lamports; a bracket guarantees the balance gain it recorded.
    - Arithmetic: the wide multiply-divide is exact; the verifiers equal their
      references, over the integers and over fractions, on every well-typed input.
    - Wire formats: instructions, records and account prefixes decode from
      exactly their encodings; error codes are distinct.
    - Daemon: whatever is interleaved, a rule is dispatched at most once, only
      after it was inserted, found met, simulated and leased while open, with
      its own terms; a rule closed before its lease is never dispatched; every
      row stays readable ([DaemonSafety]).
    - Handlers: what the watcher and the executor do to one rule on every branch;
      a rule whose conditions hold runs to completion ([DaemonSafety]).
    - Both halves: the daemon's evaluator and the program's verifier decide each
      condition alike; when the program's gate accepts what the evaluator met,
      and where it does not ([EvaluatorFacts]).
    - Funding: an order's budget is spent or refunded, never both, never twice;
      leases are granted only on funded orders and within their expiry; which
      amounts read back ([FundingSafety]).
    - Orders: an order exists only because a session sent the command or confirmed the
      draft, with those terms and the wallet bound to that session; a budget is reserved only for a deposit that was verified; the
      deposit is sent at most once, only under a lease ([FlowSafety]); a draft is
      confirmed at most once and its hash binds its terms ([DraftFacts]);
      commands, amounts and rates are read exactly ([OrderFacts], [DraftFacts],
      [MarketFetch]).
    - Policy: the first matching rule decides, a failed simulation blocks, no
      match asks a human; session rules only go in front; where the two amount
      limits differ ([PolicyEngine]); a restart keeps of the rules of sessions exactly
      what the database took ([PolicyStores]).
    - Approvals: a parked transaction goes on only with every quorum of its own
      workflow, within its lease, and is told once ([ApprovalFacts]).
    - Signing: a local key signs, an external wallet is asked and bytes are sent only
      for a transaction that was simulated, judged by the rules of its own wallet and
      session, and approved where the verdict asks for it; only after a failed second
      simulation is it the one simulated first with a newer blockhash; the review changes
      only the compute budget ([SigningSafety]); what a wallet may hand back
      ([WalletAdapters]).
    - Tracking: the state kept for a transaction is what the node reported since its
      last broadcast; announcements rest on the node's word about that transaction;
      rebroadcasts are bounded; nothing is tracked without its row
      ([TxTrackerFacts]).
    - Solend submissions: what is broadcast is a parked plan signed by its wallet, in
      time, and a bounded number of times; a recorded outcome has its ground in what
      the node answered about that request, and only its session is told
      ([SubmitSafety]).
    - Lending: what passes, exactly; amounts that are shown read back
      ([LendingPolicy]).
    - Intents: a recording leaves exactly the described record, which is never
      changed afterwards; what the builder builds is accepted
      ([IntentProgram]).

    ** Bounds and fuel

    Recursion is structural: loops over lists recurse on the list, the
    256-step division on its bit counter, the power of ten on its exponent
    (at most eighteen by the gate before it), a program on its tree of events.
    Two loops have fuel: the scan of a command for an amount jumps over numbers, so
    it counts its rounds, one more than the bytes of the text, and
    [amount_scan_terminates] shows that these are enough to get a result; a batch of
    signatures is cut into chunks with as much fuel as there are signatures.  The
    attempts of a Solend submission are counted down from the four the code makes.  The
    schedules of the concrete runs bound the events of a program, with room to spare.

    ** Not modelled

    Compute limits, [RefCell] borrow failures, log texts and the runtime's own
    end-of-instruction checks (writable flags, lamport sums, rent).  Error
    messages of the programs are left out; their codes are kept (the daemon's
    messages are kept: they are stored in the rows).

    Off chain: SQLite beyond one statement at a time (a failing statement changes
    nothing; a statement whose answer is lost after it committed is not
    modelled), the RPC clients behind the evaluator's snapshots, the simulator
    and the execution client, which are parameters; the evaluator's lock is held
    for each step of its cache in turn by one caller.  Of the chat's orders: the
    live sender of deposits (transaction assembly, RPC and polling) is one event;
    the mutex of the draft store makes each call one step; the crates' JSON,
    base58, base64, SHA-256 and HTTP are parameters, as are the Unicode tables of
    debug output.

    Of the signing path: key files and signatures themselves, the RPC pool, the SQL
    rows of pending approvals and signatures (their writes are events, their recovery
    at startup is left out apart from the recovered workflow), the ages at which
    pending requests are reaped, metrics, logs and timestamps of rows.  The programs of
    the path are those of the signing tool.  The executor of Jupiter swaps
    (integrations/jupiter_production.rs, built in daemon.rs) has transactions of its own
    signed by the same orchestrator, with the same local key and the same map of pending
    requests, and what a wallet returns for them goes through the same handler: what
    [SigningSafety] says of keys, requests and broadcasts does not speak of these.  Of the
    tracker: the timers; an iteration over the records in memory may miss some.  Of the
    Solend submission: the secret half of the obligation's key, the clients behind the
    node's answers, the shutdown of the loop.  Of lending: the assembly of snapshots from accounts.

    The serde forms of policies, the spend tracker over its database, the
    language-model extractor, the rest of the chat (the approval command's branch and the
    conversation) and the agent runtime, the
    Solend and Jupiter clients (HTTP, RPC, the preflight and the assembly of plans), the
    preparation of parked plans, the API routes, channels, the frontend and the scripts are not part of this
    library. *)
From stdpp Require Export base numbers list gmap strings.
From coqutil Require LittleEndianList Byte.

(** ** Results

    [Result E A] is Rust's [Result<A, E>]; the [?] operator is the monadic
    bind, an early [return Err(e)] guarded by a condition is [throw_if]. *)
Inductive Result (E A : Type) : Type :=
| Ok (a : A)
| Err (e : E).
Arguments Ok {E A} a.
Arguments Err {E A} e.

#[export] Instance result_ret {E} : MRet (Result E) := λ A a, Ok a.
#[export] Instance result_bind {E} : MBind (Result E) := λ A B f m,
  match m with Ok a => f a | Err e => Err e end.
#[export] Instance result_fmap {E} : FMap (Result E) := λ A B f m,
  match m with Ok a => Ok (f a) | Err e => Err e end.

#[export] Instance result_eq_dec {E A} `{EqDecision E, EqDecision A} :
  EqDecision (Result E A).
Proof. solve_decision. Defined.

Definition throw_if {E} (b : bool) (e : E) : Result E unit :=
  if b then Err e else Ok tt.

(** What stops a function that can also panic. *)
Inductive Fault (E : Type) := Panic | Fails (e : E).
Arguments Panic {E}.
Arguments Fails {E} e.

(** [o.ok_or(e)] *)
Definition ok_or {E A} (o : option A) (e : E) : Result E A :=
  match o with Some a => Ok a | None => Err e end.

(** [r.map_err(f)] *)
Definition map_err {E F A} (f : E → F) (r : Result E A) : Result F A :=
  match r with Ok a => Ok a | Err e => Err (f e) end.

Section result_lemmas.
Context {E : Type}.

Lemma bind_Ok {A B} (f : A → Result E B) (m : Result E A) b :
  (m ≫= f) = Ok b ↔ ∃ a, m = Ok a ∧ f a = Ok b.
Proof. destruct m; simpl; naive_solver. Qed.

Lemma bind_Err {A B} (f : A → Result E B) (m : Result E A) e :
  (m ≫= f) = Err e ↔ m = Err e ∨ ∃ a, m = Ok a ∧ f a = Err e.
Proof. destruct m; simpl; naive_solver. Qed.

Lemma throw_if_Ok b (e : E) u : throw_if b e = Ok u ↔ b = false.
Proof. destruct b, u; simpl; naive_solver. Qed.

Lemma throw_if_Err b (e e' : E) : throw_if b e = Err e' ↔ b = true ∧ e' = e.
Proof. destruct b; simpl; naive_solver. Qed.

Lemma ok_or_Ok {A} (o : option A) (e : E) a : ok_or o e = Ok a ↔ o = Some a.
Proof. destruct o; simpl; naive_solver. Qed.

Lemma ok_or_Err {A} (o : option A) (e e' : E) :
  ok_or o e = Err e' ↔ o = None ∧ e' = e.
Proof. destruct o; simpl; naive_solver. Qed.

Lemma map_err_Ok {F A} (f : E → F) (r : Result E A) a :
  map_err f r = Ok a ↔ r = Ok a.
Proof. destruct r; simpl; naive_solver. Qed.

(** Steps of a computation whose guards are decided. *)
Lemma throw_if_true {B} b (e : E) (f : unit → Result E B) :
  b = true → (throw_if b e ≫= f) = Err e.
Proof. by intros ->. Qed.

Lemma throw_if_false {B} b (e : E) (f : unit → Result E B) :
  b = false → (throw_if b e ≫= f) = f tt.
Proof. by intros ->. Qed.

Lemma ok_or_step {A B} (o : option A) (e : E) (f : A → Result E B) a :
  o = Some a → (ok_or o e ≫= f) = f a.
Proof. by intros ->. Qed.
End result_lemmas.

(** ** Booleans of the source as propositions *)
Create Rewrite HintDb bool_prop.
#[export] Hint Rewrite
  bool_decide_eq_true bool_decide_eq_false negb_true_iff negb_false_iff
  andb_true_iff andb_false_iff orb_true_iff orb_false_iff
  Z.leb_le Z.leb_gt Z.ltb_lt Z.ltb_ge Z.eqb_eq Z.eqb_neq
  Z.geb_leb Z.gtb_ltb Nat.leb_le Nat.leb_gt Nat.ltb_lt Nat.ltb_ge : bool_prop.

(** A guard [x ≠ y] that did not fire. *)
Lemma neq_guard {A} `{EqDecision A} (x y : A) :
  bool_decide (x ≠ y) = false ↔ x = y.
Proof.
  rewrite bool_decide_eq_false. split; [apply dec_stable|naive_solver].
Qed.

(** Turn the boolean guards of the context and the goal into propositions. *)
Ltac b2p := try (rewrite ?neq_guard in *); autorewrite with bool_prop in *.

(** Take apart a successful computation: every [?] and every guard of
    [H : c = Ok _] becomes a hypothesis of its own. *)
Ltac inv_ok1 H :=
  match type of H with
  | (_ ≫= _) = Ok _ =>
      let a := fresh "a" in let H1 := fresh "Hok" in let H2 := fresh "Hok" in
      apply bind_Ok in H as (a & H1 & H2); inv_ok1 H1; inv_ok1 H2
  | throw_if _ _ = Ok _ => apply throw_if_Ok in H
  | ok_or _ _ = Ok _ => apply ok_or_Ok in H
  | map_err _ _ = Ok _ => apply map_err_Ok in H; inv_ok1 H
  | mret _ = Ok _ => injection H as H
  | Ok _ = Ok _ => injection H as H
  | Err _ = Ok _ => discriminate H
  | _ => idtac
  end.
Ltac inv_ok H := inv_ok1 H; simplify_eq.

(** ** Machine integers

    An unsigned [w]-bit integer is a [Z] in [[0, 2^w)], a signed one a [Z] in
    [[-2^(w-1), 2^(w-1))]; [checked_*] return [None] on overflow as in Rust,
    [wrap w] is the reduction of the wrapping operations and of [as] casts. *)
Open Scope Z_scope.

Definition is_u (w z : Z) : Prop := 0 ≤ z < 2 ^ w.
Definition is_i (w z : Z) : Prop := - 2 ^ (w - 1) ≤ z < 2 ^ (w - 1).

Definition fits_u (w z : Z) : bool := (0 <=? z) && (z <? 2 ^ w).
Definition fits_i (w z : Z) : bool :=
  (- 2 ^ (w - 1) <=? z) && (z <? 2 ^ (w - 1)).

Definition checked_u (w z : Z) : option Z := if fits_u w z then Some z else None.
Definition checked_i (w z : Z) : option Z := if fits_i w z then Some z else None.
Definition wrap (w z : Z) : Z := z mod 2 ^ w.

Lemma fits_u_spec w z : fits_u w z = true ↔ is_u w z.
Proof. unfold fits_u, is_u. b2p. lia. Qed.

Lemma fits_i_spec w z : fits_i w z = true ↔ is_i w z.
Proof. unfold fits_i, is_i. b2p. lia. Qed.

#[export] Instance is_u_dec w z : Decision (is_u w z).
Proof. unfold is_u. apply _. Defined.
#[export] Instance is_i_dec w z : Decision (is_i w z).
Proof. unfold is_i. apply _. Defined.

Lemma checked_u_Some w z r : checked_u w z = Some r ↔ r = z ∧ is_u w z.
Proof.
  unfold checked_u. destruct (fits_u w z) eqn:H.
  - apply fits_u_spec in H. naive_solver.
  - split; [done|]. intros [_ Hu]. apply fits_u_spec in Hu. congruence.
Qed.

Lemma checked_i_Some w z r : checked_i w z = Some r ↔ r = z ∧ is_i w z.
Proof.
  unfold checked_i. destruct (fits_i w z) eqn:H.
  - apply fits_i_spec in H. naive_solver.
  - split; [done|]. intros [_ Hu]. apply fits_i_spec in Hu. congruence.
Qed.

Lemma checked_u_ok w z : is_u w z → checked_u w z = Some z.
Proof. intros H. by apply checked_u_Some. Qed.

Lemma checked_i_ok w z : is_i w z → checked_i w z = Some z.
Proof. intros H. by apply checked_i_Some. Qed.

Lemma checked_u_None w z : checked_u w z = None ↔ ¬ is_u w z.
Proof.
  unfold checked_u. rewrite <- fits_u_spec. destruct (fits_u w z); naive_solver.
Qed.

Lemma wrap_small w z : is_u w z → wrap w z = z.
Proof. intros [??]. by apply Z.mod_small. Qed.

Lemma wrap_is_u w z : 0 ≤ w → is_u w (wrap w z).
Proof. intros. apply Z.mod_pos_bound. apply Z.pow_pos_nonneg; lia. Qed.

(** Powers of two at the widths of the program, as numerals for [lia]. *)
Ltac pow2_norm :=
  unfold is_u, is_i, wrap in *;
  change (2 ^ 8) with 256 in *; change (2 ^ 16) with 65536 in *;
  change (2 ^ 31) with 2147483648 in *; change (2 ^ (32 - 1)) with 2147483648 in *;
  change (2 ^ 32) with 4294967296 in *;
  change (2 ^ 63) with 9223372036854775808 in *;
  change (2 ^ (64 - 1)) with 9223372036854775808 in *;
  change (2 ^ 64) with 18446744073709551616 in *;
  change (2 ^ (128 - 1)) with 170141183460469231731687303715884105728 in *;
  change (2 ^ 127) with 170141183460469231731687303715884105728 in *;
  change (2 ^ 128) with 340282366920938463463374607431768211456 in *.

(** ** Bytes *)
Notation byte := Init.Byte.byte.

#[export] Instance byte_eq_dec : EqDecision byte := Byte.byte_eq_dec.
#[export] Instance byte_countable : Countable byte.
Proof.
  refine (inj_countable' Byte.to_N (λ n, default Byte.x00 (Byte.of_N n)) _).
  intros b. by rewrite Byte.of_to_N.
Defined.

Definition byte_val (b : byte) : Z := Z.of_N (Byte.to_N b).
(** [z as u8] *)
Definition byte_of (z : Z) : byte :=
  default Byte.x00 (Byte.of_N (Z.to_N (wrap 8 z))).

Lemma byte_val_range b : is_u 8 (byte_val b).
Proof. destruct (Byte.byte.unsigned_range b). by split. Qed.

Lemma byte_of_val b : byte_of (byte_val b) = b.
Proof.
  unfold byte_of. rewrite wrap_small by apply byte_val_range.
  unfold byte_val. by rewrite N2Z.id, Byte.of_to_N.
Qed.

Lemma byte_val_of z : is_u 8 z → byte_val (byte_of z) = z.
Proof.
  intros Hz. unfold byte_of. rewrite wrap_small by done.
  destruct (Byte.of_N (Z.to_N z)) as [b|] eqn:E; simpl.
  - apply Byte.to_of_N in E. unfold byte_val. rewrite E. pow2_norm. lia.
  - apply Byte.of_N_None_iff in E. pow2_norm. lia.
Qed.

Lemma byte_val_inj b1 b2 : byte_val b1 = byte_val b2 → b1 = b2.
Proof. intros H. rewrite <- (byte_of_val b1), H. apply byte_of_val. Qed.

(** [to_le_bytes] of an [8n]-bit integer and [from_le_bytes]. *)
Definition to_le (n : nat) (z : Z) : list byte := LittleEndianList.le_split n z.
Definition from_le (bs : list byte) : Z := LittleEndianList.le_combine bs.

Lemma length_to_le n z : length (to_le n z) = n.
Proof. apply LittleEndianList.length_le_split. Qed.

Lemma from_to_le n z : is_u (8 * Z.of_nat n) z → from_le (to_le n z) = z.
Proof.
  intros Hz. unfold from_le, to_le. rewrite LittleEndianList.le_combine_split.
  rewrite Z.mul_comm. by apply Z.mod_small.
Qed.

Lemma to_from_le n bs : length bs = n → to_le n (from_le bs) = bs.
Proof. apply LittleEndianList.split_le_combine'. Qed.

Lemma from_le_range bs : is_u (8 * Z.of_nat (length bs)) (from_le bs).
Proof. apply LittleEndianList.le_combine_bound. Qed.
