(* ===== verification/Interaction.v ===== *)
(** * Handlers as programs over events

    An asynchronous handler is a tree: it asks the outside one event at a time and
    goes on with the answer.  [E] are the events of a component and [Answer] the
    type of the answer to each; between two events anything may happen. *)
From S2P Require Import Prelude.

Inductive Prog {E : Type} (Answer : E → Type) (A : Type) :=
| Ret (a : A)
| Vis (e : E) (k : Answer e → Prog Answer A).
Arguments Ret {E Answer A} a.
Arguments Vis {E Answer A} e k.

Section programs.
Context {E : Type} {Answer : E → Type}.

Fixpoint prog_bind {A B} (f : A → Prog Answer B) (p : Prog Answer A) : Prog Answer B :=
  match p with
  | Ret a => f a
  | Vis e k => Vis e (λ a, prog_bind f (k a))
  end.
#[export] Instance prog_ret : MRet (Prog Answer) := @Ret E Answer.
#[export] Instance prog_mbind : MBind (Prog Answer) := @prog_bind.

(** One event, as a program. *)
Definition ask (e : E) : Prog Answer (Answer e) := Vis e Ret.
End programs.

(** ** A program logic

    Programs share a history, newest entry first, and each holds ghost state [G]
    of its own (the leases it has).  [pre] is what a program must know before an
    event, [told] what the answer tells it, [leases] the ghost state it is left
    with and [entries] what the event adds to the history. *)
Section logic.
Context {E : Type} {Answer : E → Type} {G K : Type}.
Context (pre : G → list K → E → Prop) (told : list K → ∀ e, Answer e → Prop).
Context (leases : G → ∀ e, Answer e → G) (entries : ∀ e, Answer e → list K).
Implicit Types (L : G) (l : list K).

(** [safe Q L l p]: holding [L] after the history [l], the program respects [pre]
    whatever the others do, and ends in [Q]. *)
Fixpoint safe {A : Type} (Q : A → G → list K → Prop) L l (p : Prog Answer A) : Prop :=
  match p with
  | Ret a => ∀ l', l `suffix_of` l' → Q a L l'
  | Vis e k => ∀ l', l `suffix_of` l' →
      pre L l' e ∧ ∀ a, told l' e a → safe Q (leases L e a) (entries e a ++ l') (k a)
  end.

Lemma safe_mono {A : Type} (Q : A → G → list K → Prop) L l l' p :
  l `suffix_of` l' → safe Q L l p → safe Q L l' p.
Proof. intros Hl Hs. destruct p; simpl in *; intros l'' ?; apply Hs; by etransitivity. Qed.

Lemma safe_bind {A B : Type} (Q : B → G → list K → Prop) L l
    (p : Prog Answer A) (f : A → Prog Answer B) :
  safe (λ a L' l', safe Q L' l' (f a)) L l p → safe Q L l (p ≫= f).
Proof.
  revert L l. induction p as [a|e k IH]; intros L l Hs; simpl in *; [by apply Hs|].
  intros l' Hl. destruct (Hs l' Hl) as [Hp Hk]. split; [done|]. intros a Ha. by apply IH, Hk.
Qed.

(** What holds at the end goes on holding. *)
Lemma safe_stable {A : Type} (Q : A → G → list K → Prop) L l p :
  safe Q L l p → safe (λ a L' l', ∀ l'', l' `suffix_of` l'' → Q a L' l'') L l p.
Proof.
  revert L l. induction p as [a|e k IH]; intros L l Hs; simpl in *.
  - intros l' Hl l'' Hl'. apply Hs. by etransitivity.
  - intros l' Hl. destruct (Hs l' Hl) as [Hp Hk]. split; [done|]. intros a Ha. by apply IH, Hk.
Qed.

Lemma safe_conseq {A : Type} (Q Q' : A → G → list K → Prop) L l p :
  (∀ a L' l', l `suffix_of` l' → Q a L' l' → Q' a L' l') → safe Q L l p → safe Q' L l p.
Proof.
  revert L l. induction p as [a|e k IH]; intros L l HQ Hs; simpl in *; [by auto|].
  intros l' Hl. destruct (Hs l' Hl) as [Hp Hk]. split; [done|]. intros x Hx.
  apply IH; [|by apply Hk]. intros b L' l'' Hl''. apply HQ.
  etransitivity; [done|]. etransitivity; [|done]. by apply suffix_app_r.
Qed.
End logic.

(** ** Results whatever is answered *)
Section always.
Context {E : Type} {Answer : E → Type}.

(** Every result the program can return satisfies [Q]. *)
Fixpoint always {A : Type} (Q : A → Prop) (p : Prog Answer A) : Prop :=
  match p with
  | Ret a => Q a
  | Vis e k => ∀ a, always Q (k a)
  end.

Lemma always_mono {A : Type} (P Q : A → Prop) (p : Prog Answer A) :
  (∀ a, P a → Q a) → always P p → always Q p.
Proof. intros HPQ. induction p as [a|e k IH]; simpl; [apply HPQ|]. intros Hp a. by apply IH. Qed.

Lemma always_seq {A B : Type} (P : A → Prop) (Q : B → Prop) (p : Prog Answer A)
    (f : A → Prog Answer B) :
  always P p → (∀ a, P a → always Q (f a)) → always Q (p ≫= f).
Proof.
  intros Hp Hf. induction p as [a|e k IH]; simpl in *; [by apply Hf|]. intros a. by apply IH.
Qed.

Lemma always_bind {A B : Type} (Q : B → Prop) (p : Prog Answer A) (f : A → Prog Answer B) :
  (∀ a, always Q (f a)) → always Q (p ≫= f).
Proof.
  intros Hf. apply (always_seq (λ _, True)); [|by intros a _]. clear Hf.
  induction p as [a|e k IH]; simpl; [done|]. intros a. apply IH.
Qed.
End always.

(** ** Histories whose entries are justified

    [justified l x] says what the history [l] must hold for [x] to be added to it. *)
Section histories.
Context {K : Type} (justified : list K → K → Prop).
Implicit Types (l : list K) (x : K).

Definition log_ok l : Prop := ∀ x l0, x :: l0 `suffix_of` l → justified l0 x.

Lemma log_ok_nil : log_ok [].
Proof. intros x l0 [k Hk]. by destruct k. Qed.
Lemma log_ok_cons x l : log_ok l → justified l x → log_ok (x :: l).
Proof. intros Hl Hx y l0 [[= -> ->]|Hs]%suffix_cons_inv; [done|by apply Hl]. Qed.
Lemma log_ok_head x l : log_ok (x :: l) → justified l x.
Proof. intros Hl. by apply Hl. Qed.
Lemma log_ok_suffix l l' : l `suffix_of` l' → log_ok l' → log_ok l.
Proof. intros Hs Hl x l0 Hx. apply Hl. by etransitivity. Qed.
Lemma log_ok_tail x l : log_ok (x :: l) → log_ok l.
Proof. apply log_ok_suffix. by exists [x]. Qed.
Lemma log_before l x : log_ok l → x ∈ l → ∃ l0, x :: l0 `suffix_of` l ∧ justified l0 x.
Proof.
  intros Hl (l2 & l0 & ->)%list_elem_of_split. exists l0.
  assert (x :: l0 `suffix_of` (l2 ++ x :: l0)%list) as Hs by (by exists l2). split; [done|by apply Hl].
Qed.
End histories.

(** ** Programs and what the others may do

    [guards rely Q l p]: after the history [l], and however the others extend it within
    [rely], the program asks for an event only where [pre] allows it and ends in
    [Q]; [told] relates an answer to the entries it leaves. *)
Section guarantees.
Context {E K : Type} {Answer : E → Type}.
Context (rely : list K → list K → Prop) `{!PreOrder rely}.
Context (pre : list K → E → Prop) (told : list K → ∀ e, Answer e → list K → Prop).

Fixpoint guards {A} (Q : A → list K → Prop) (l : list K) (p : Prog Answer A) : Prop :=
  match p with
  | Ret a => ∀ l', rely l l' → Q a l'
  | Vis e k => ∀ l', rely l l' →
      pre l' e ∧ ∀ a es, told l' e a es → guards Q (es ++ l') (k a)
  end.

Lemma guards_mono {A} (Q : A → list K → Prop) l l' p : rely l l' → guards Q l p → guards Q l' p.
Proof. intros Hl Hs. destruct p; simpl in *; intros l'' ?; apply Hs; by etransitivity. Qed.

Lemma guards_bind {A B} (Q : B → list K → Prop) l (p : Prog Answer A) (f : A → Prog Answer B) :
  guards (λ a l', guards Q l' (f a)) l p → guards Q l (p ≫= f).
Proof.
  revert l. induction p as [a|e k IH]; intros l Hs; simpl in *.
  - apply Hs. reflexivity.
  - intros l' Hl. destruct (Hs l' Hl) as [Hp Hk]. split; [done|]. intros a es Ha. by apply IH, Hk.
Qed.

Lemma guards_conseq {A} (Q Q' : A → list K → Prop) l p :
  (∀ a l', Q a l' → Q' a l') → guards Q l p → guards Q' l p.
Proof.
  intros HQ. revert l. induction p as [a|e k IH]; intros l Hs; simpl in *; [by auto|].
  intros l' Hl. destruct (Hs l' Hl) as [Hp Hk]. split; [done|]. intros a es Ha. by apply IH, Hk.
Qed.
End guarantees.
