(* ===== verification/Borsh.v ===== *)
(** * Borsh codecs

    Every account record and instruction of the two on-chain programs derives
    [BorshSerialize]/[BorshDeserialize].  The wire format is the one the
    sources pin (authority [lib.rs], "Borsh 1.x layout"; [state.rs], "Borsh
    wire shape"): declared field order, little-endian integers, fixed arrays
    raw, a [u32] length before a [Vec], a one-byte ordinal before an enum's
    body, a one-byte [0]/[1] tag for [bool] and [Option].

    A [Codec A] bundles the two directions with the values the Rust type can
    hold and the two laws of the format; the combinators below build a codec
    per declared type, so a derived type needs only the bijection between its
    constructor and the tuple of its fields. *)
From S2P Require Import Prelude.

Record Codec (A : Type) := MkCodec {
  enc : A → list byte;
  dec : list byte → option (A * list byte);
  valid : A → Prop;
  dec_enc : ∀ a rest, valid a → dec (enc a ++ rest) = Some (a, rest);
  enc_dec : ∀ bs a rest, dec bs = Some (a, rest) → bs = enc a ++ rest ∧ valid a
}.
Arguments MkCodec {A}.
Arguments enc {A}.
Arguments dec {A}.
Arguments valid {A}.
Arguments dec_enc {A}.
Arguments enc_dec {A}.

(** A type that derives the Borsh traits. *)
Class Borsh (A : Type) := borsh : Codec A.
#[global] Hint Mode Borsh ! : typeclass_instances.
Arguments borsh A {_}.

(** [borsh::to_vec] *)
Definition to_vec {A} `{Borsh A} (a : A) : list byte := enc (borsh A) a.
(** [T::try_from_slice]: the whole slice must be consumed. *)
Definition try_from_slice {A} `{Borsh A} (bs : list byte) : option A :=
  match dec (borsh A) bs with
  | Some (a, []) => Some a
  | _ => None
  end.
(** The values a Rust variable of the type can hold. *)
Definition well_typed {A} `{Borsh A} (a : A) : Prop := valid (borsh A) a.

Section borsh_laws.
Context {A : Type} `{Borsh A}.

Lemma try_from_slice_to_vec (a : A) :
  well_typed a → try_from_slice (to_vec a) = Some a.
Proof.
  intros Ha. unfold try_from_slice, to_vec.
  rewrite <- (app_nil_r (enc (borsh A) a)). by rewrite dec_enc.
Qed.

Lemma try_from_slice_Some bs (a : A) :
  try_from_slice bs = Some a ↔ bs = to_vec a ∧ well_typed a.
Proof.
  unfold try_from_slice. split.
  - destruct (dec (borsh A) bs) as [[a' [|b rest]]|] eqn:E; [|done..].
    intros [= ->]. apply enc_dec in E as [-> ?]. by rewrite app_nil_r.
  - intros [-> Ha]. by apply try_from_slice_to_vec in Ha.
Qed.

Lemma to_vec_inj (a b : A) :
  well_typed a → well_typed b → to_vec a = to_vec b → a = b.
Proof.
  intros Ha Hb E. apply try_from_slice_to_vec in Ha, Hb. congruence.
Qed.
End borsh_laws.

(** ** Fixed-width pieces *)

(** Split off the first [n] bytes. *)
Definition take_bytes (n : nat) (bs : list byte) : option (list byte * list byte) :=
  if decide (n ≤ length bs)%nat then Some (take n bs, drop n bs) else None.

Lemma take_bytes_app n (bs rest : list byte) :
  length bs = n → take_bytes n (bs ++ rest) = Some (bs, rest).
Proof.
  intros <-. unfold take_bytes. rewrite decide_True by (rewrite length_app; lia).
  by rewrite take_app_length, drop_app_length.
Qed.

Lemma take_bytes_Some n bs pre rest :
  take_bytes n bs = Some (pre, rest) → bs = pre ++ rest ∧ length pre = n.
Proof.
  unfold take_bytes. case_decide; [|done]. intros [= <- <-].
  rewrite take_drop, length_take. split; [done|lia].
Qed.

(** [[u8; n]] (and [Pubkey], which is [[u8; 32]]) *)
Definition c_array (n : nat) : Codec (list byte).
Proof.
  refine (MkCodec (λ l, l) (take_bytes n) (λ l, length l = n) _ _).
  - intros a rest Ha. by apply take_bytes_app.
  - intros bs a rest. apply take_bytes_Some.
Defined.

(** [u8]/[u16]/[u32]/[u64]/[u128] on [n] bytes *)
Definition c_uint (n : nat) : Codec Z.
Proof.
  refine (MkCodec (to_le n)
    (λ bs, '(pre, rest) ← take_bytes n bs; Some (from_le pre, rest))
    (is_u (8 * Z.of_nat n)) _ _).
  - intros a rest Ha. rewrite take_bytes_app by apply length_to_le. simpl.
    by rewrite from_to_le.
  - intros bs a rest H. destruct (take_bytes n bs) as [[pre r]|] eqn:E; [|done].
    injection H as <- <-. apply take_bytes_Some in E as [-> <-].
    rewrite to_from_le by done. split; [done|apply from_le_range].
Defined.

(** Two's complement on [8n] bits. *)
Definition to_signed (w u : Z) : Z := if u <? 2 ^ (w - 1) then u else u - 2 ^ w.

Lemma to_signed_range w u : 0 < w → is_u w u → is_i w (to_signed w u).
Proof.
  intros Hw [H1 H2]. unfold to_signed, is_i.
  assert (2 ^ w = 2 * 2 ^ (w - 1)) by (rewrite <- Z.pow_succ_r by lia; f_equal; lia).
  destruct (u <? _) eqn:E; b2p; lia.
Qed.

Lemma to_signed_wrap w z : 0 < w → is_i w z → to_signed w (wrap w z) = z.
Proof.
  intros Hw [H1 H2]. unfold to_signed, wrap.
  assert (2 ^ w = 2 * 2 ^ (w - 1)) as E by (rewrite <- Z.pow_succ_r by lia; f_equal; lia).
  assert (0 < 2 ^ (w - 1)) by (apply Z.pow_pos_nonneg; lia).
  destruct (decide (0 ≤ z)).
  - rewrite Z.mod_small by lia. destruct (_ <? _) eqn:F; b2p; lia.
  - rewrite <- (Z.mod_add z 1 (2 ^ w)) by lia. rewrite Z.mod_small by lia.
    destruct (_ <? _) eqn:F; b2p; lia.
Qed.

Lemma wrap_to_signed w u : 0 < w → is_u w u → wrap w (to_signed w u) = u.
Proof.
  intros Hw Hu. unfold to_signed, wrap. destruct (_ <? _) eqn:F.
  - by apply Z.mod_small.
  - destruct Hu. rewrite <- (Z.mod_add _ 1 (2 ^ w)) by lia.
    replace (u - 2 ^ w + 1 * 2 ^ w) with u by lia. by apply Z.mod_small.
Qed.

(** [i32]/[i64] on [n] bytes *)
Definition c_int (n : nat) (Hn : (0 < n)%nat) : Codec Z.
Proof.
  refine (MkCodec (λ z, to_le n (wrap (8 * Z.of_nat n) z))
    (λ bs, '(u, rest) ← dec (c_uint n) bs;
           Some (to_signed (8 * Z.of_nat n) u, rest))
    (is_i (8 * Z.of_nat n)) _ _).
  - intros a rest Ha.
    change (to_le n ?z) with (enc (c_uint n) z).
    rewrite (dec_enc (c_uint n)) by (apply wrap_is_u; lia). simpl.
    by rewrite to_signed_wrap by (done || lia).
  - intros bs a rest H.
    destruct (dec (c_uint n) bs) as [[u r]|] eqn:E; simpl in H; [|done].
    injection H as <- <-. apply enc_dec in E as [-> Hu]. cbn [valid c_uint enc] in *.
    rewrite wrap_to_signed by (done || lia).
    split; [done|]. apply to_signed_range; [lia|done].
Defined.

(** ** Enums with unit variants, and booleans

    [ord] is the ordinal of a variant, [of_ord] the inverse table. *)
Section c_enum.
Context {A : Type} (ord : A → Z) (of_ord : Z → option A).
Context (Hof : ∀ a, of_ord (ord a) = Some a).
Context (Hord : ∀ z a, of_ord z = Some a → z = ord a).
Context (Hrange : ∀ a, is_u 8 (ord a)).

Definition c_enum : Codec A.
Proof using All.
  refine (MkCodec (λ a, [byte_of (ord a)])
    (λ bs, match bs with
           | b :: rest => a ← of_ord (byte_val b); Some (a, rest)
           | [] => None
           end) (λ _, True) _ _).
  - intros a rest _. simpl. by rewrite byte_val_of, Hof by apply Hrange.
  - intros [|b bs] a rest H; [done|].
    destruct (of_ord (byte_val b)) as [a'|] eqn:E; simpl in H; [|done].
    injection H as <- <-. apply Hord in E. rewrite <- E, byte_of_val. done.
Defined.
End c_enum.

(** The side conditions of [c_enum] for a small table. *)
Ltac solve_enum :=
  first
    [ by intros []
    | let z := fresh "z" in let a := fresh "a" in let H := fresh "H" in
      intros z a H; destruct z as [|p|p]; simpl in H;
      repeat (case_match; simplify_eq/=; try done); by simplify_eq/=
    | intros []; by split ].

(** Borsh accepts only [0] and [1] for a [bool]. *)
Definition c_bool : Codec bool.
Proof.
  refine (c_enum Z.b2z
    (λ z, if z =? 0 then Some false else if z =? 1 then Some true else None) _ _ _).
  - by intros [].
  - intros z a. destruct (z =? 0) eqn:E0; [|destruct (z =? 1) eqn:E1]; b2p; naive_solver.
  - intros []; by split.
Defined.

(** ** Products, lists, options, tagged unions *)
Definition c_unit : Codec unit.
Proof.
  refine (MkCodec (λ _, []) (λ bs, Some (tt, bs)) (λ _, True) _ _).
  - by intros [].
  - by intros bs [] rest [= ->].
Defined.

Section combinators.
Context {A B : Type}.

Definition c_pair (ca : Codec A) (cb : Codec B) : Codec (A * B).
Proof.
  refine (MkCodec (λ ab, enc ca ab.1 ++ enc cb ab.2)
    (λ bs, '(a, r1) ← dec ca bs; '(b, r2) ← dec cb r1; Some ((a, b), r2))
    (λ ab, valid ca ab.1 ∧ valid cb ab.2) _ _).
  - intros [a b] rest [Ha Hb]. simpl in *. rewrite <- (assoc_L app), dec_enc by done.
    simpl. by rewrite dec_enc.
  - intros bs [a b] rest H.
    destruct (dec ca bs) as [[a' r1]|] eqn:E1; simpl in H; [|done].
    destruct (dec cb r1) as [[b' r2]|] eqn:E2; simpl in H; [|done].
    injection H as <- <- <-. apply enc_dec in E1 as [-> ?], E2 as [-> ?].
    simpl. by rewrite (assoc_L app).
Defined.

(** A struct, through the bijection with the tuple of its fields. *)
Definition c_iso (f : A → B) (g : B → A) (Hgf : ∀ b, f (g b) = b)
    (Hfg : ∀ a, g (f a) = a) (ca : Codec A) : Codec B.
Proof.
  refine (MkCodec (λ b, enc ca (g b))
    (λ bs, '(a, rest) ← dec ca bs; Some (f a, rest)) (λ b, valid ca (g b)) _ _).
  - intros b rest Hb. rewrite dec_enc by done. simpl. by rewrite Hgf.
  - intros bs b rest H. destruct (dec ca bs) as [[a r]|] eqn:E; simpl in H; [|done].
    injection H as <- <-. apply enc_dec in E as [-> ?]. by rewrite Hfg.
Defined.

Definition c_option (ca : Codec A) : Codec (option A).
Proof.
  refine (MkCodec
    (λ o, match o with None => [byte_of 0] | Some a => byte_of 1 :: enc ca a end)
    (λ bs, '(some, r) ← dec c_bool bs;
           if some : bool then '(a, r') ← dec ca r; Some (Some a, r')
           else Some (None, r))
    (λ o, match o with None => True | Some a => valid ca a end) _ _).
  - intros [a|] rest Ha; simpl; [|done]. by rewrite dec_enc.
  - intros bs o rest H.
    destruct (dec c_bool bs) as [[[] r]|] eqn:E; cbn [mbind option_bind] in H; [..|done];
      apply enc_dec in E as [-> _].
    + destruct (dec ca r) as [[a r']|] eqn:E; simpl in H; [|done].
      injection H as <- <-. by apply enc_dec in E as [-> ?].
    + by injection H as <- <-.
Defined.

Fixpoint dec_list (d : list byte → option (A * list byte)) (n : nat)
    (bs : list byte) : option (list A * list byte) :=
  match n with
  | O => Some ([], bs)
  | S n => '(a, r) ← d bs; '(l, r') ← dec_list d n r; Some (a :: l, r')
  end.

Lemma dec_list_enc (ca : Codec A) l rest :
  Forall (valid ca) l →
  dec_list (dec ca) (length l) (concat (map (enc ca) l) ++ rest) = Some (l, rest).
Proof.
  induction 1 as [|a l Ha Hl IH]; [done|]. simpl.
  rewrite <- (assoc_L app), dec_enc by done. simpl. by rewrite IH.
Qed.

Lemma dec_list_Some (ca : Codec A) n bs l rest :
  dec_list (dec ca) n bs = Some (l, rest) →
  bs = concat (map (enc ca) l) ++ rest ∧ length l = n ∧ Forall (valid ca) l.
Proof.
  revert bs l. induction n as [|n IH]; intros bs l H; simpl in H.
  - by injection H as <- <-.
  - destruct (dec ca bs) as [[a r]|] eqn:E; simpl in H; [|done].
    destruct (dec_list _ n r) as [[l' r']|] eqn:E'; simpl in H; [|done].
    injection H as <- <-. apply enc_dec in E as [-> ?].
    apply IH in E' as (-> & <- & ?). simpl. rewrite <- (assoc_L app). auto.
Qed.

(** [Vec<A>]: a [u32] length, then the elements. *)
Definition c_vec (ca : Codec A) : Codec (list A).
Proof.
  refine (MkCodec
    (λ l, enc (c_uint 4) (Z.of_nat (length l)) ++ concat (map (enc ca) l))
    (λ bs, '(n, r) ← dec (c_uint 4) bs; dec_list (dec ca) (Z.to_nat n) r)
    (λ l, is_u 32 (Z.of_nat (length l)) ∧ Forall (valid ca) l) _ _).
  - intros l rest [Hlen Hl]. rewrite <- (assoc_L app), dec_enc by done. simpl.
    rewrite Nat2Z.id. by apply dec_list_enc.
  - intros bs l rest H.
    destruct (dec (c_uint 4) bs) as [[n r]|] eqn:E; cbn [mbind option_bind] in H; [|done].
    apply enc_dec in E as [-> Hn]. apply dec_list_Some in H as (-> & Hlen & ?).
    assert (n = Z.of_nat (length l)) as -> by (destruct Hn; lia).
    by rewrite (assoc_L app).
Defined.
End combinators.

(** Enums with bodies: variant number [k], then the body.  A [Tagged k A] is a
    union of variants numbered from [k] on. *)
Record Tagged (k : Z) (A : Type) := MkTagged {
  t_tag : A → Z;
  t_enc : A → list byte;
  t_dec : Z → list byte → option (A * list byte);
  t_valid : A → Prop;
  t_tag_range : ∀ a, k ≤ t_tag a < 256;
  t_dec_enc : ∀ a rest, t_valid a → t_dec (t_tag a) (t_enc a ++ rest) = Some (a, rest);
  t_enc_dec : ∀ z bs a rest, t_dec z bs = Some (a, rest) →
    z = t_tag a ∧ bs = t_enc a ++ rest ∧ t_valid a
}.
Arguments t_tag {k A}.
Arguments t_enc {k A}.
Arguments t_dec {k A}.
Arguments t_valid {k A}.
Arguments t_tag_range {k A}.
Arguments t_dec_enc {k A}.
Arguments t_enc_dec {k A}.

Definition t_nil (k : Z) : Tagged k Empty_set.
Proof.
  refine (MkTagged k Empty_set (λ a, match a with end) (λ a, match a with end)
    (λ _ _, None) (λ a, match a with end) _ _ _); by intros [] || done.
Defined.

Section tagged.
Context {A B : Type}.

Definition t_cons (k : Z) (Hk : 0 ≤ k < 256) (ca : Codec A) (t : Tagged (k + 1) B) :
  Tagged k (A + B).
Proof.
  refine (MkTagged k (A + B)
    (λ ab, match ab with inl _ => k | inr b => t_tag t b end)
    (λ ab, match ab with inl a => enc ca a | inr b => t_enc t b end)
    (λ z bs, if z =? k then '(a, r) ← dec ca bs; Some (inl a, r)
             else '(b, r) ← t_dec t z bs; Some (inr b, r))
    (λ ab, match ab with inl a => valid ca a | inr b => t_valid t b end) _ _ _).
  - intros [a|b]; [lia|]. pose proof (t_tag_range t b). lia.
  - intros [a|b] rest Hv.
    + by rewrite Z.eqb_refl, dec_enc.
    + pose proof (t_tag_range t b). destruct (_ =? k) eqn:E; [b2p; lia|].
      by rewrite t_dec_enc.
  - intros z bs ab rest H. destruct (z =? k) eqn:E; b2p.
    + destruct (dec ca bs) as [[a r]|] eqn:Ed; simpl in H; [|done].
      injection H as <- <-. by apply enc_dec in Ed as [-> ?].
    + destruct (t_dec t z bs) as [[b r]|] eqn:Ed; simpl in H; [|done].
      injection H as <- <-. by apply t_enc_dec in Ed.
Defined.

Definition c_tagged (t : Tagged 0 A) : Codec A.
Proof.
  refine (MkCodec (λ a, byte_of (t_tag t a) :: t_enc t a)
    (λ bs, match bs with b :: r => t_dec t (byte_val b) r | [] => None end)
    (t_valid t) _ _).
  - intros a rest Ha. simpl. rewrite byte_val_of by apply (t_tag_range t a).
    by apply t_dec_enc.
  - intros [|b bs] a rest H; [done|]. apply t_enc_dec in H as (E & -> & ?).
    by rewrite <- E, byte_of_val.
Defined.
End tagged.

(** Field codecs by the Rust type's name. *)
Definition c_u8 : Codec Z := c_uint 1.
Definition c_u16 : Codec Z := c_uint 2.
Definition c_u32 : Codec Z := c_uint 4.
Definition c_u64 : Codec Z := c_uint 8.
Definition c_u128 : Codec Z := c_uint 16.
Definition c_i32 : Codec Z := c_int 4 ltac:(lia).
Definition c_i64 : Codec Z := c_int 8 ltac:(lia).
Definition c_pubkey : Codec (list byte) := c_array 32.

(** A [u8] kept as a byte, as in [Vec<u8>]. *)
Definition c_byte : Codec byte.
Proof.
  refine (MkCodec (λ b, [b])
    (λ bs, match bs with b :: r => Some (b, r) | [] => None end) (λ _, True) _ _).
  - done.
  - intros [|b bs] a rest H; [done|]. by injection H as <- <-.
Defined.

(** ** Fixed-size types: the length of the encoding is a constant *)
Class FixedLen {A} (c : Codec A) (n : nat) : Prop :=
  fixed_len : ∀ a, valid c a → length (enc c a) = n.

Section fixed_len.
Context {A B : Type}.

Lemma c_array_len n : FixedLen (c_array n) n.
Proof. by intros a. Qed.
Lemma c_uint_len n : FixedLen (c_uint n) n.
Proof. intros a _. apply length_to_le. Qed.
Lemma c_int_len n Hn : FixedLen (c_int n Hn) n.
Proof. intros a _. apply length_to_le. Qed.
Lemma c_enum_len (ord : A → Z) of_ord H1 H2 H3 :
  FixedLen (c_enum ord of_ord H1 H2 H3) 1.
Proof. by intros a. Qed.
Lemma c_pair_len (ca : Codec A) (cb : Codec B) n m :
  FixedLen ca n → FixedLen cb m → FixedLen (c_pair ca cb) (n + m).
Proof.
  intros Ha Hb [a b] [??]. simpl in *. by rewrite length_app, Ha, Hb.
Qed.
Lemma c_iso_len (f : A → B) g H1 H2 (ca : Codec A) n :
  FixedLen ca n → FixedLen (c_iso f g H1 H2 ca) n.
Proof. intros Ha b Hb. by apply Ha. Qed.
End fixed_len.

(** Sum the field widths of a struct of fixed-width fields. *)
Ltac solve_fixed_len :=
  lazymatch goal with
  | |- FixedLen ?c ?n =>
      let m := open_constr:(_ : nat) in
      let H := fresh "H" in
      assert (FixedLen c m) as H;
        [ repeat first
            [ apply c_iso_len | apply c_pair_len | apply c_array_len
            | apply c_uint_len | apply c_int_len | apply c_enum_len ]
        | exact H ]
  end.
