(* ===== verification/Solana.v ===== *)
(** * The Solana runtime as the programs see it

    The [solana_program] crate and the validator are not code of the
    repository.  What the programs use of them appears here in two forms: the
    data they exchange with the runtime (keys, accounts, instructions, error
    values) and, as the record [Runtime], the operations they call.  The
    documented behaviour the proofs rely on is the class [RuntimeLaws].

    Accounts live in one shared store, the [Bank], indexed by key, so that an
    account passed twice in an instruction's account list is one account, as
    the shared [RefCell]s of [AccountInfo] make it. *)
From S2P Require Import Prelude.

(** ** Keys, accounts, errors *)

(** [Pubkey]: 32 bytes. *)
Notation Pubkey := (list byte) (only parsing).

Inductive ProgramError :=
| Custom (code : Z)
| InvalidInstructionData
| InvalidAccountData
| IncorrectProgramId
| NotEnoughAccountKeys
| ArithmeticOverflow
| AccountBorrowFailed
(** any other error, as the runtime or an invoked program may return *)
| RuntimeError (code : Z).
#[export] Instance program_error_eq_dec : EqDecision ProgramError.
Proof. solve_decision. Defined.

Notation Res := (Result ProgramError).

(** One entry of the account list of an instruction. *)
Record AccountInfo := MkAccountInfo {
  key : Pubkey;
  is_signer : bool;
  is_writable : bool
}.

(** An [AccountInfo]'s key is a [Pubkey]. *)
Definition accounts_typed (accounts : list AccountInfo) : Prop :=
  Forall (λ a, length (key a) = 32%nat) accounts.

Record Account := MkAccount {
  lamports : Z;
  owner : Pubkey;
  data : list byte
}.
#[export] Instance account_eq_dec : EqDecision Account.
Proof. solve_decision. Defined.

Record AccountMeta := MkMeta {
  meta_key : Pubkey;
  meta_signer : bool;
  meta_writable : bool
}.
#[export] Instance account_meta_eq_dec : EqDecision AccountMeta.
Proof. solve_decision. Defined.
(** [AccountMeta::new] and [AccountMeta::new_readonly] *)
Definition meta_new (k : Pubkey) (signer : bool) := MkMeta k signer true.
Definition meta_new_readonly (k : Pubkey) (signer : bool) := MkMeta k signer false.

(** The account list a transaction hands the program for its metas. *)
Definition info_of_meta (m : AccountMeta) : AccountInfo :=
  MkAccountInfo (meta_key m) (meta_signer m) (meta_writable m).

Record Instruction := MkInstruction {
  ix_program_id : Pubkey;
  ix_accounts : list AccountMeta;
  ix_data : list byte
}.
#[export] Instance instruction_eq_dec : EqDecision Instruction.
Proof. solve_decision. Defined.

Notation Bank := (gmap (list byte) Account).

(** ** Base58 literals: the [pubkey!] macro *)
Definition b58_alphabet : string :=
  "123456789ABCDEFGHJKLMNPQRSTUVWXYZabcdefghijkmnopqrstuvwxyz".

Fixpoint b58_index (c : Ascii.ascii) (s : string) (i : Z) : Z :=
  match s with
  | EmptyString => -1
  | String c' s => if Ascii.eqb c c' then i else b58_index c s (i + 1)
  end.

Fixpoint b58_value (s : string) (acc : Z) : Z :=
  match s with
  | EmptyString => acc
  | String c s => b58_value s (58 * acc + b58_index c b58_alphabet 0)
  end.

Definition pubkey (s : string) : Pubkey := reverse (to_le 32 (b58_value s 0)).

Definition system_program_id : Pubkey :=
  Eval vm_compute in pubkey "11111111111111111111111111111111".
Definition sysvar_clock_id : Pubkey :=
  Eval vm_compute in pubkey "SysvarC1ock11111111111111111111111111111111".
Definition sysvar_rent_id : Pubkey :=
  Eval vm_compute in pubkey "SysvarRent111111111111111111111111111111111".

(** An account that does not exist reads as empty and system-owned. *)
Definition empty_account : Account := MkAccount 0 system_program_id [].
Definition acct (b : Bank) (k : Pubkey) : Account := default empty_account (b !! k).

Lemma acct_insert (b : Bank) k a : acct (<[k := a]> b) k = a.
Proof. unfold acct. by rewrite lookup_insert_eq. Qed.
Lemma acct_insert_ne (b : Bank) k k' a : k ≠ k' → acct (<[k := a]> b) k' = acct b k'.
Proof. intros. unfold acct. by rewrite lookup_insert_ne. Qed.

(** ** The state of one transaction *)
Record Clock := MkClock { slot : Z; unix_timestamp : Z }.

Record World := MkWorld {
  w_bank : Bank;
  w_clock : Clock;
  (** the [sol_log_data] events, latest first *)
  w_log : list (list (list byte))
}.

Definition with_bank (b : Bank) (w : World) : World :=
  MkWorld b (w_clock w) (w_log w).
Definition push_log (e : list (list byte)) (w : World) : World :=
  MkWorld (w_bank w) (w_clock w) (e :: w_log w).

(** Handlers: a transaction whose handler returns [Err] is rolled back by the
    runtime, so only a successful run yields a new state. *)
Definition M (A : Type) : Type := World → Res (A * World).
#[export] Instance M_ret : MRet M := λ A a w, Ok (a, w).
#[export] Instance M_bind : MBind M := λ A B f m w,
  match m w with Ok (a, w') => f a w' | Err e => Err e end.

Definition lift {A} (r : Res A) : M A := λ w,
  match r with Ok a => Ok (a, w) | Err e => Err e end.
Definition throw_ifM (b : bool) (e : ProgramError) : M unit := lift (throw_if b e).
Definition raise {A} (e : ProgramError) : M A := λ _, Err e.

Definition get_account (k : Pubkey) : M Account := λ w, Ok (acct (w_bank w) k, w).
Definition put_account (k : Pubkey) (a : Account) : M unit := λ w,
  Ok (tt, with_bank (<[k := a]> (w_bank w)) w).
(** [Clock::get()] *)
Definition clock_get : M Clock := λ w, Ok (w_clock w, w).
(** [sol_log_data] *)
Definition sol_log_data (e : list (list byte)) : M unit := λ w, Ok (tt, push_log e w).

(** [next_account_info(account_iter)?] *)
Definition next_account_info (it : list AccountInfo) :
    M (AccountInfo * list AccountInfo) :=
  match it with
  | a :: it => mret (a, it)
  | [] => raise NotEnoughAccountKeys
  end.

(** [**account.try_borrow_mut_lamports()? = l] *)
Definition set_lamports (k : Pubkey) (l : Z) : M unit :=
  a ← get_account k; put_account k (MkAccount l (owner a) (data a)).
(** [account.assign(&o)] *)
Definition assign (k o : Pubkey) : M unit :=
  a ← get_account k; put_account k (MkAccount (lamports a) o (data a)).
(** [account.realloc(0, false)] *)
Definition realloc_to_zero (k : Pubkey) : M unit :=
  a ← get_account k; put_account k (MkAccount (lamports a) (owner a) []).
(** [v.serialize(&mut &mut account.data.borrow_mut()[..])] followed by
    [.map_err(|_| InvalidAccountData)?]: the bytes overwrite a prefix of the
    buffer, and a buffer that is too short is an error. *)
Definition serialize_into (k : Pubkey) (bs : list byte) : M unit :=
  a ← get_account k;
  _ ← throw_ifM (length (data a) <? length bs)%nat InvalidAccountData;
  put_account k (MkAccount (lamports a) (owner a) (bs ++ drop (length bs) (data a))).

(** ** What the programs call *)
Record Runtime := MkRuntime {
  (** [Pubkey::find_program_address(seeds, program_id)] *)
  find_program_address : list (list byte) → Pubkey → Pubkey * Z;
  (** [rent.minimum_balance(len)] *)
  minimum_balance : Z → Z;
  (** [system_instruction::create_account(from, to, lamports, space, owner)] *)
  create_account_ix : Pubkey → Pubkey → Z → Z → Pubkey → Instruction;
  (** [invoke_signed(ix, account_infos, signer_seeds)] *)
  rt_invoke : Instruction → list AccountInfo → list (list (list byte)) →
              Bank → Res Bank;
  (** [solana_program::hash::hashv] *)
  hashv : list (list byte) → list byte
}.

Definition invoke_signed (rt : Runtime) (ix : Instruction)
    (infos : list AccountInfo) (seeds : list (list (list byte))) : M unit := λ w,
  match rt_invoke rt ix infos seeds (w_bank w) with
  | Ok b => Ok (tt, with_bank b w)
  | Err e => Err e
  end.
(** [invoke] is [invoke_signed] without signer seeds. *)
Definition invoke (rt : Runtime) (ix : Instruction) (infos : list AccountInfo) : M unit :=
  invoke_signed rt ix infos [].

(** An address [create_account] accepts: no lamports, no data, system-owned. *)
Definition unused (a : Account) : Prop :=
  lamports a = 0 ∧ owner a = system_program_id ∧ data a = [].
#[export] Instance unused_dec a : Decision (unused a).
Proof. unfold unused. apply _. Defined.

(** The bank after a successful [create_account]. *)
Definition created (b : Bank) (from to : Pubkey) (l space : Z) (o : Pubkey) : Bank :=
  <[to := MkAccount l o (replicate (Z.to_nat space) Byte.x00)]>
  (<[from := MkAccount (lamports (acct b from) - l) (owner (acct b from))
                       (data (acct b from))]> b).

(** The largest account the system program allocates: 10 MiB. *)
Definition MAX_PERMITTED_DATA_LENGTH : Z := 10485760.

(** Documented behaviour of the runtime while program [self] runs. *)
Class RuntimeLaws (rt : Runtime) (self : Pubkey) : Prop := {
  self_typed : length self = 32%nat;
  self_not_system : self ≠ system_program_id;
  (** A derived address is a [Pubkey], its bump a [u8]. *)
  find_pda_typed : ∀ seeds p, length (find_program_address rt seeds p).1 = 32%nat ∧
    is_u 8 (find_program_address rt seeds p).2;
  minimum_balance_typed : ∀ n, 0 ≤ n ≤ MAX_PERMITTED_DATA_LENGTH →
    is_u 64 (minimum_balance rt n);
  (** [create_account] refuses an address in use and a payer that cannot pay;
      otherwise it moves the lamports and allocates a zeroed, assigned buffer. *)
  create_account_sound : ∀ from to l space o infos seeds b b',
    is_u 64 l → 0 ≤ space ≤ MAX_PERMITTED_DATA_LENGTH → length o = 32%nat →
    rt_invoke rt (create_account_ix rt from to l space o) infos seeds b = Ok b' →
    unused (acct b to) ∧ from ≠ to ∧ l ≤ lamports (acct b from) ∧
    b' = created b from to l space o;
  (** It succeeds for a paying signer and an unused derived address whose seeds
      are passed. *)
  create_account_complete : ∀ from tacc sys l space o seeds b bump,
    is_u 64 l → 0 ≤ space ≤ MAX_PERMITTED_DATA_LENGTH → length o = 32%nat →
    find_program_address rt seeds self = (key tacc, bump) →
    key sys = system_program_id → is_signer from = true →
    is_writable from = true → is_writable tacc = true → key from ≠ key tacc →
    owner (acct b (key from)) = system_program_id → data (acct b (key from)) = [] →
    unused (acct b (key tacc)) → l ≤ lamports (acct b (key from)) →
    rt_invoke rt (create_account_ix rt (key from) (key tacc) l space o)
      [from; tacc; sys] [seeds ++ [[byte_of bump]]] b =
    Ok (created b (key from) (key tacc) l space o);
  (** An invoked program changes the data and the owner of accounts it owns
      only; a program is not re-entered. *)
  invoke_frame : ∀ ix infos b b' k,
    rt_invoke rt ix infos [] b = Ok b' → owner (acct b k) = self →
    ix_program_id ix ≠ self →
    owner (acct b' k) = self ∧ data (acct b' k) = data (acct b k);
  (** Only [self] signs for the addresses derived for it, so no other program
      gives it an account there. *)
  invoke_derived : ∀ ix infos b b' seeds,
    let k := (find_program_address rt seeds self).1 in
    rt_invoke rt ix infos [] b = Ok b' → ix_program_id ix ≠ self →
    Forall (λ a, is_signer a = true → key a ≠ k) infos →
    owner (acct b k) ≠ self → owner (acct b' k) ≠ self
}.

(** What a transaction cost its payer and gave the new account, with the new
    buffer written once. *)
Section create_laws.
Context (rt : Runtime) (self : Pubkey) `{!RuntimeLaws rt self}.

(** [create_account] for a program-owned buffer of [n] bytes. *)
Lemma create_own_sound from to n infos seeds b b' :
  Z.of_nat n ≤ MAX_PERMITTED_DATA_LENGTH →
  rt_invoke rt (create_account_ix rt from to (minimum_balance rt (Z.of_nat n))
    (Z.of_nat n) self) infos seeds b = Ok b' →
  unused (acct b to) ∧ from ≠ to ∧
  minimum_balance rt (Z.of_nat n) ≤ lamports (acct b from) ∧
  b' = created b from to (minimum_balance rt (Z.of_nat n)) (Z.of_nat n) self.
Proof using All.
  intros Hn H. eapply create_account_sound; [..|done]; [|lia|apply self_typed].
  apply minimum_balance_typed. lia.
Qed.
End create_laws.

(** ** Reading successful runs *)
Section M_lemmas.
Context {A B : Type}.

Lemma bindM_Ok (f : A → M B) (m : M A) w r :
  (m ≫= f) w = Ok r ↔ ∃ a w1, m w = Ok (a, w1) ∧ f a w1 = Ok r.
Proof.
  unfold mbind, M_bind. destruct (m w) as [[a w1]|e]; [naive_solver|].
  split; [done|]. naive_solver.
Qed.

Lemma bindM_step (f : A → M B) (m : M A) w a w1 :
  m w = Ok (a, w1) → (m ≫= f) w = f a w1.
Proof. intros H. unfold mbind, M_bind. by rewrite H. Qed.

Lemma bindM_err (f : A → M B) (m : M A) w e :
  m w = Err e → (m ≫= f) w = Err e.
Proof. intros H. unfold mbind, M_bind. by rewrite H. Qed.

Lemma liftM_Ok (r : Res A) w a w' : lift r w = Ok (a, w') ↔ r = Ok a ∧ w' = w.
Proof. unfold lift. destruct r; naive_solver. Qed.
End M_lemmas.

Lemma throw_ifM_Ok b e w u w' : throw_ifM b e w = Ok (u, w') ↔ b = false ∧ w' = w.
Proof. unfold throw_ifM. rewrite liftM_Ok, throw_if_Ok. done. Qed.

Lemma next_account_info_Ok it w a it' w' :
  next_account_info it w = Ok (a, it', w') ↔ it = a :: it' ∧ w' = w.
Proof. destruct it; simpl; unfold raise, mret, M_ret; naive_solver. Qed.

(** Running forward: one rewrite per operation. *)
Section M_steps.
Context {B : Type}.

Lemma next_step a it (f : _ → M B) w :
  (next_account_info (a :: it) ≫= f) w = f (a, it) w.
Proof. done. Qed.
Lemma get_step k (f : _ → M B) w :
  (get_account k ≫= f) w = f (acct (w_bank w) k) w.
Proof. done. Qed.
Lemma clock_step (f : _ → M B) w : (clock_get ≫= f) w = f (w_clock w) w.
Proof. done. Qed.
Lemma guard_step b e (f : _ → M B) w : b = false → (throw_ifM b e ≫= f) w = f tt w.
Proof. by intros ->. Qed.
Lemma guard_fires b e (f : _ → M B) w : b = true → (throw_ifM b e ≫= f) w = Err e.
Proof. by intros ->. Qed.
Lemma lift_step {A} (r : Res A) a (f : _ → M B) w : r = Ok a → (lift r ≫= f) w = f a w.
Proof. by intros ->. Qed.
Lemma lift_fails {A} (r : Res A) e (f : _ → M B) w : r = Err e → (lift r ≫= f) w = Err e.
Proof. by intros ->. Qed.
End M_steps.

Lemma serialize_into_Ok k bs w u w' :
  serialize_into k bs w = Ok (u, w') ↔
  (length bs ≤ length (data (acct (w_bank w) k)))%nat ∧
  w' = with_bank (<[k := MkAccount (lamports (acct (w_bank w) k))
         (owner (acct (w_bank w) k))
         (bs ++ drop (length bs) (data (acct (w_bank w) k)))]> (w_bank w)) w.
Proof.
  unfold serialize_into, mbind, M_bind, get_account, throw_ifM, lift, throw_if,
    put_account. destruct (_ <? _)%nat eqn:E; b2p; destruct u; naive_solver lia.
Qed.

(** The bank after [create_account] and the first write of the whole buffer. *)
Definition installed (b : Bank) (from to : Pubkey) (l : Z) (o : Pubkey) (bs : list byte) :
    Bank :=
  <[to := MkAccount l o bs]>
    (<[from := MkAccount (lamports (acct b from) - l) (owner (acct b from))
                         (data (acct b from))]> b).

Lemma serialize_into_created b from to l n o bs w :
  length bs = n →
  serialize_into to bs (with_bank (created b from to l (Z.of_nat n) o) w) =
  Ok (tt, with_bank (installed b from to l o bs) w).
Proof.
  intros Hlen. apply serialize_into_Ok. unfold created. simpl.
  rewrite acct_insert, Nat2Z.id. simpl. rewrite length_replicate.
  rewrite drop_ge by (rewrite length_replicate; lia). rewrite app_nil_r.
  split; [lia|]. unfold with_bank, installed. simpl. by rewrite insert_insert_eq.
Qed.

(** Rewriting a record in place keeps the buffer's length. *)
Lemma serialize_same_length k bs w :
  length bs = length (data (acct (w_bank w) k)) →
  serialize_into k bs w = Ok (tt, with_bank
    (<[k := MkAccount (lamports (acct (w_bank w) k)) (owner (acct (w_bank w) k)) bs]>
       (w_bank w)) w).
Proof.
  intros Hlen. apply serialize_into_Ok. split; [lia|].
  rewrite drop_ge by lia. by rewrite app_nil_r.
Qed.

Lemma invoke_signed_Ok rt ix infos seeds w u w' :
  invoke_signed rt ix infos seeds w = Ok (u, w') ↔
  ∃ b, rt_invoke rt ix infos seeds (w_bank w) = Ok b ∧ w' = with_bank b w.
Proof.
  unfold invoke_signed. destruct (rt_invoke _ _ _ _ _); destruct u; naive_solver.
Qed.

(** Take apart a successful handler run, one operation at a time. *)
Ltac inv_run1 H :=
  lazymatch type of H with
  | (_ ≫= _) _ = Ok _ =>
      let a := fresh "v" in let w := fresh "w" in
      let H1 := fresh "Hrun" in let H2 := fresh "Hrun" in
      apply bindM_Ok in H as (a & w & H1 & H2); cbn beta in H2;
      inv_run1 H1; inv_run1 H2
  | throw_ifM _ _ _ = Ok (?u, _) =>
      apply throw_ifM_Ok in H as [H ->]; try (is_var u; destruct u)
  | lift _ _ = Ok _ =>
      let E := fresh "Hw" in apply liftM_Ok in H as [H E]; subst; inv_ok1 H
  | next_account_info _ _ = Ok (?p, _) =>
      try (is_var p; destruct p); apply next_account_info_Ok in H as [H ->]
  | get_account _ _ = Ok _ => first [injection H as ? ? | injection H as ?]; subst
  | clock_get _ = Ok _ => first [injection H as ? ? | injection H as ?]; subst
  | sol_log_data _ _ = Ok _ => first [injection H as ? ? | injection H as ?]; subst
  | put_account _ _ _ = Ok _ => first [injection H as ? ? | injection H as ?]; subst
  | mret _ _ = Ok _ => first [injection H as ? ? | injection H as ?]; subst
  | raise _ _ = Ok _ => discriminate H
  | (match ?p with (_, _) => _ end) _ = Ok _ =>
      let E := fresh "Hpair" in destruct p eqn:E; inv_run1 H
  | _ => idtac
  end.
Ltac inv_run H := inv_run1 H; simplify_eq.
