(* ===== verification/DemoRuntime.v ===== *)
(** * A concrete runtime

    An executable instance of the [Runtime] parameter with the documented
    behaviour of [RuntimeLaws], on which the witnesses evaluate.  Derived
    addresses come from a small polynomial digest and end in a byte of their
    own, as real ones lie off the curve; the system program
    implements [create_account]; every other program is one that accepts the
    instruction and leaves the bank unchanged. *)
From S2P Require Import Prelude Borsh Solana.

Definition digest (bs : list byte) : Z :=
  fold_left (λ h b, (h * 1099511628211 + byte_val b + 97) mod 2 ^ 256) bs 14695981039346656037.

Definition demo_hash (bss : list (list byte)) : list byte := to_le 32 (digest (concat bss)).

Definition demo_find_pda (seeds : list (list byte)) (p : Pubkey) : Pubkey * Z :=
  (to_le 31 (digest (concat (seeds ++ [p]))) ++ [Byte.xff], 254).

(** A key that does not end like a derived address is none. *)
Lemma demo_find_pda_last seeds p k :
  last k ≠ Some Byte.xff → k ≠ (demo_find_pda seeds p).1.
Proof. intros Hk ->. apply Hk, last_snoc. Qed.

Definition demo_create_data (l space : Z) (o : Pubkey) : list byte :=
  to_le 4 0 ++ to_le 8 l ++ to_le 8 space ++ o.

Definition demo_create_ix (from to : Pubkey) (l space : Z) (o : Pubkey) : Instruction :=
  MkInstruction system_program_id [meta_new from true; meta_new to true]
    (demo_create_data l space o).

(** Who signs: the infos flagged so, and the addresses derived for the caller
    from the passed seeds. *)
Definition demo_signs (self : Pubkey) (infos : list AccountInfo)
    (seeds : list (list (list byte))) (k : Pubkey) : bool :=
  existsb (λ a, bool_decide (key a = k) && is_signer a) infos ||
  existsb (λ s, bool_decide ((demo_find_pda (take (length s - 1) s) self).1 = k) &&
                bool_decide (drop (length s - 1) s =
                  [[byte_of (demo_find_pda (take (length s - 1) s) self).2]])) seeds.

Definition demo_writable (infos : list AccountInfo) (k : Pubkey) : bool :=
  existsb (λ a, bool_decide (key a = k) && is_writable a) infos.

Definition demo_create (self : Pubkey) (infos : list AccountInfo)
    (seeds : list (list (list byte))) (from to : Pubkey) (bs : list byte) (b : Bank) :
    Res Bank :=
  let l := from_le (take 8 (drop 4 bs)) in
  let space := from_le (take 8 (drop 12 bs)) in
  let o := drop 20 bs in
  _ ← throw_if (negb (demo_signs self infos seeds from && demo_signs self infos seeds to))
        (RuntimeError 1);
  _ ← throw_if (negb (demo_writable infos from && demo_writable infos to)) (RuntimeError 2);
  _ ← throw_if (bool_decide (¬ unused (acct b to)) || bool_decide (from = to))
        (RuntimeError 3);
  _ ← throw_if (bool_decide (owner (acct b from) ≠ system_program_id) ||
                bool_decide (data (acct b from) ≠ []) || (lamports (acct b from) <? l))
        (RuntimeError 4);
  Ok (created b from to l space o).

Definition demo_invoke (self : Pubkey) (ix : Instruction) (infos : list AccountInfo)
    (seeds : list (list (list byte))) (b : Bank) : Res Bank :=
  if bool_decide (ix_program_id ix = system_program_id) then
    match ix_accounts ix with
    | [from; to] => demo_create self infos seeds (meta_key from) (meta_key to) (ix_data ix) b
    | _ => Err (RuntimeError 5)
    end
  else Ok b.

Definition demo_runtime (self : Pubkey) : Runtime :=
  MkRuntime demo_find_pda (λ n, (n + 128) * 6960) demo_create_ix (demo_invoke self) demo_hash.

Lemma demo_create_fields l space o :
  is_u 64 l → 0 ≤ space ≤ MAX_PERMITTED_DATA_LENGTH →
  let bs := demo_create_data l space o in
  from_le (take 8 (drop 4 bs)) = l ∧ from_le (take 8 (drop 12 bs)) = space ∧ drop 20 bs = o.
Proof.
  intros Hl Hs bs.
  assert (∀ n z r, take n (to_le n z ++ r) = to_le n z ∧ drop n (to_le n z ++ r) = r) as Hcut.
  { intros n z r. split; [apply take_app_length'|apply drop_app_length'];
      by rewrite length_to_le. }
  assert (drop 4 bs = to_le 8 l ++ to_le 8 space ++ o) as H4 by apply (Hcut 4%nat).
  assert (drop 12 bs = to_le 8 space ++ o) as H12.
  { change 12%nat with (4 + 8)%nat. rewrite <- drop_drop, H4. apply (Hcut 8%nat). }
  assert (drop 20 bs = o) as H20.
  { change 20%nat with (12 + 8)%nat. rewrite <- drop_drop, H12. apply (Hcut 8%nat). }
  rewrite H4, H12, H20, (proj1 (Hcut 8%nat l _)), (proj1 (Hcut 8%nat space _)).
  rewrite !from_to_le; [done| |done]. unfold MAX_PERMITTED_DATA_LENGTH in Hs.
  change (8 * Z.of_nat 8) with 64. pow2_norm. lia.
Qed.

Section laws.
Context (self : Pubkey) (Hlen : length self = 32%nat) (Hself : self ≠ system_program_id).

Lemma demo_create_Ok infos seeds from to bs b b' :
  demo_create self infos seeds from to bs b = Ok b' →
  unused (acct b to) ∧ from ≠ to ∧ from_le (take 8 (drop 4 bs)) ≤ lamports (acct b from) ∧
  b' = created b from to (from_le (take 8 (drop 4 bs))) (from_le (take 8 (drop 12 bs)))
         (drop 20 bs).
Proof.
  unfold demo_create. intros H. inv_ok H. b2p. destruct_and?.
  split_and!; [by apply dec_stable|done|done|done].
Qed.

Lemma demo_invoke_frame ix infos b b' k :
  demo_invoke self ix infos [] b = Ok b' → owner (acct b k) = self →
  owner (acct b' k) = self ∧ data (acct b' k) = data (acct b k).
Proof using Hself.
  unfold demo_invoke. case_bool_decide; [|by intros [= ->]].
  destruct (ix_accounts ix) as [|from [|to [|]]]; try done.
  intros ((_ & Ho & _) & Hne & _ & ->)%demo_create_Ok Hk. unfold created.
  rewrite acct_insert_ne by congruence.
  destruct (decide (meta_key from = k)) as [<-|].
  - by rewrite acct_insert.
  - by rewrite acct_insert_ne.
Qed.

Lemma demo_invoke_derived ix infos b b' k :
  demo_invoke self ix infos [] b = Ok b' →
  Forall (λ a, is_signer a = true → key a ≠ k) infos →
  owner (acct b k) ≠ self → owner (acct b' k) ≠ self.
Proof.
  unfold demo_invoke. case_bool_decide; [|by intros [= ->]].
  destruct (ix_accounts ix) as [|from [|to [|]]]; try done. intros Hrun Hsig Hk.
  assert (meta_key to ≠ k) as Hto.
  { intros <-. unfold demo_create in Hrun. inv_ok1 Hrun.
    repeat match goal with
    | H : negb _ = false |- _ => apply negb_false_iff in H
    | H : _ && _ = true |- _ => apply andb_true_iff in H as [??]
    end.
    match goal with H : demo_signs _ _ _ (meta_key to) = true |- _ =>
      unfold demo_signs in H; rewrite orb_false_r in H;
      apply existsb_exists in H as (x & Hx & [Hkx%bool_decide_eq_true Hs]%andb_true_iff) end.
    rewrite Forall_forall in Hsig. apply (Hsig x); [by apply list_elem_of_In|done..]. }
  apply demo_create_Ok in Hrun as (_ & _ & _ & ->). unfold created.
  rewrite acct_insert_ne by done. destruct (decide (meta_key from = k)) as [<-|].
  - by rewrite acct_insert.
  - by rewrite acct_insert_ne.
Qed.

Lemma demo_signs_info a infos seeds :
  In a infos → is_signer a = true → demo_signs self infos seeds (key a) = true.
Proof.
  intros Ha Hs. apply orb_true_iff. left. apply existsb_exists. exists a.
  split; [done|]. rewrite Hs. by rewrite bool_decide_true.
Qed.

Lemma demo_signs_seed seeds bump k infos :
  demo_find_pda seeds self = (k, bump) →
  demo_signs self infos [seeds ++ [[byte_of bump]]] k = true.
Proof.
  intros H. apply orb_true_iff. right. apply existsb_exists.
  exists (seeds ++ [[byte_of bump]]). split; [by left|].
  rewrite length_app. cbn [length].
  replace (length seeds + 1 - 1)%nat with (length seeds) by lia.
  rewrite take_app_length, drop_app_length, H. cbn [fst snd].
  by rewrite !bool_decide_true.
Qed.

Lemma demo_writable_info a infos :
  In a infos → is_writable a = true → demo_writable infos (key a) = true.
Proof.
  intros Ha Hs. apply existsb_exists. exists a. split; [done|]. rewrite Hs.
  by rewrite bool_decide_true.
Qed.

#[export] Instance demo_laws : RuntimeLaws (demo_runtime self) self.
Proof using All.
  split; cbn [rt_invoke find_program_address create_account_ix minimum_balance demo_runtime].
  - done.
  - done.
  - intros seeds p. split; [|done].
    unfold demo_find_pda. cbn [fst]. by rewrite length_app, length_to_le.
  - intros n Hn. unfold MAX_PERMITTED_DATA_LENGTH in Hn. pow2_norm. lia.
  - intros from to l space o infos seeds b b' Hl Hs Ho H.
    destruct (demo_create_fields l space o Hl Hs) as (E1 & E2 & E3).
    apply (demo_create_Ok infos seeds from to (demo_create_data l space o)) in H.
    by rewrite E1, E2, E3 in H.
  - intros from tacc sys l space o seeds b bump Hl Hs Ho Hpda Hsys Hsig Hw Hwt Hne
      Hown Hdata Hun Hlam.
    destruct (demo_create_fields l space o Hl Hs) as (E1 & E2 & E3).
    change (demo_invoke self (demo_create_ix (key from) (key tacc) l space o)) with
      (λ infos sds, demo_create self infos sds (key from) (key tacc)
         (demo_create_data l space o)).
    cbv beta. unfold demo_create. rewrite E1, E2, E3.
    rewrite demo_signs_info by (simpl; auto || done).
    rewrite (demo_signs_seed _ _ _ _ Hpda).
    rewrite !demo_writable_info by (simpl; auto || done). cbn [andb negb].
    rewrite (bool_decide_false (key from = _)) by done.
    do 3 rewrite (bool_decide_false (¬ _)) by auto.
    rewrite (proj2 (Z.ltb_ge _ _)) by done. done.
  - intros ix infos b b' k H Hk _. by eapply demo_invoke_frame.
  - intros ix infos b b' seeds H _ Hs Hk. by eapply demo_invoke_derived.
Qed.
End laws.

(** A program to run on it. *)
Definition demo_program : Pubkey := replicate 32 Byte.x05.

#[export] Instance demo_program_laws : RuntimeLaws (demo_runtime demo_program) demo_program.
Proof. apply demo_laws; [done|apply (bool_decide_unpack _); by vm_compute]. Qed.
