(* ===== verification/IntentProgram.v ===== *)
(** * The intent program ([clawsol-intent])

    The Stage 1 program that records, at an address derived from user and
    intent id, that the user signed a transaction whose canonical intent hashes
    to a given value.  One instruction; records are written once.  The module
    stands on its own: nothing of the authority program is used. *)
From S2P Require Import Prelude Borsh Solana DemoRuntime.

(** ** error.rs *)
Inductive IntentError :=
| UserMustSign | HashMismatch | IntentExpired | InvalidPda | InvalidActionType
| CanonicalIntentBytesTooLarge.

Definition intent_error_code (e : IntentError) : Z :=
  match e with
  | UserMustSign => 0
  | HashMismatch => 1
  | IntentExpired => 2
  | InvalidPda => 3
  | InvalidActionType => 4
  | CanonicalIntentBytesTooLarge => 5
  end.

(** [impl From<IntentError> for ProgramError] *)
Definition intent_into (e : IntentError) : ProgramError := Custom (intent_error_code e).

(** ** state.rs *)
Record IntentRecord := MkIntentRecord {
  ir_schema_version : Z;
  ir_intent_id : list byte;
  ir_user : Pubkey;
  ir_canonical_intent_hash : list byte;
  ir_action_type : Z;
  ir_expires_at_slot : Z;
  ir_created_at_slot : Z;
  ir_bump : Z
}.

#[export] Instance borsh_intent_record : Borsh IntentRecord.
Proof.
  refine (c_iso
    (λ '(v, (i, (u, (h, (a, (x, (c, b))))))), MkIntentRecord v i u h a x c b)
    (λ r, (ir_schema_version r, (ir_intent_id r, (ir_user r, (ir_canonical_intent_hash r,
      (ir_action_type r, (ir_expires_at_slot r, (ir_created_at_slot r, ir_bump r)))))))) _ _
    (c_pair c_u8 (c_pair (c_array 16) (c_pair c_pubkey (c_pair (c_array 32) (c_pair c_u8
      (c_pair c_u64 (c_pair c_u64 c_u8))))))));
  [by intros []|by intros (?&?&?&?&?&?&?&?)].
Defined.

(** [IntentRecord::LEN] *)
Definition INTENT_RECORD_LEN : nat := 1 + 16 + 32 + 32 + 1 + 8 + 8 + 1.

Inductive ActionType := SolendDeposit | SolendWithdrawAll | JupiterSwap.

Definition from_u8 (value : Z) : option ActionType :=
  match value with
  | 1 => Some SolendDeposit
  | 2 => Some SolendWithdrawAll
  | 3 => Some JupiterSwap
  | _ => None
  end.
Definition to_u8 (a : ActionType) : Z :=
  match a with SolendDeposit => 1 | SolendWithdrawAll => 2 | JupiterSwap => 3 end.

(** ** instruction.rs *)
Record RecordIntentArgs := MkRecordIntentArgs {
  ri_schema_version : Z;
  ri_intent_id : list byte;
  ri_canonical_intent_hash : list byte;
  ri_action_type : Z;
  ri_expires_at_slot : Z;
  ri_canonical_intent_bytes : list byte
}.

Inductive IntentInstruction := RecordIntent (args : RecordIntentArgs).

#[export] Instance borsh_record_intent_args : Borsh RecordIntentArgs.
Proof.
  refine (c_iso
    (λ '(v, (i, (h, (a, (x, b))))), MkRecordIntentArgs v i h a x b)
    (λ r, (ri_schema_version r, (ri_intent_id r, (ri_canonical_intent_hash r,
      (ri_action_type r, (ri_expires_at_slot r, ri_canonical_intent_bytes r)))))) _ _
    (c_pair c_u8 (c_pair (c_array 16) (c_pair (c_array 32) (c_pair c_u8
      (c_pair c_u64 (c_vec c_byte)))))));
  [by intros []|by intros (?&?&?&?&?&?)].
Defined.

#[export] Instance borsh_intent_instruction : Borsh IntentInstruction.
Proof.
  refine (c_iso
    (λ x : RecordIntentArgs + Empty_set,
       match x with inl a => RecordIntent a | inr e => match e with end end)
    (λ '(RecordIntent a), inl a) _ _
    (c_tagged (t_cons 0 ltac:(lia) (borsh RecordIntentArgs) (t_nil 1))));
  [by intros []|by intros [|[]]].
Defined.

(** ** lib.rs *)
Notation bytes s := (String.list_byte_of_string s).
Definition INTENT_SEED_PREFIX : list byte := bytes "intent".
Definition MAX_CANONICAL_INTENT_BYTES : nat := 1024.

Section program.
Context (rt : Runtime) (program_id : Pubkey).

Definition intent_seeds (schema : Z) (usr : Pubkey) (iid : list byte) : list (list byte) :=
  [INTENT_SEED_PREFIX; [byte_of schema]; usr; iid].

Definition derive_intent_pda (schema : Z) (usr : Pubkey) (iid : list byte) : Pubkey * Z :=
  find_program_address rt (intent_seeds schema usr iid) program_id.

Definition process_record_intent (accounts : list AccountInfo) (args : RecordIntentArgs) :
    M unit :=
  _ ← throw_ifM (MAX_CANONICAL_INTENT_BYTES <? length (ri_canonical_intent_bytes args))%nat
        (intent_into CanonicalIntentBytesTooLarge);
  _ ← throw_ifM (bool_decide (from_u8 (ri_action_type args) = None))
        (intent_into InvalidActionType);
  '(user_account, it) ← next_account_info accounts;
  '(intent_pda_account, it) ← next_account_info it;
  '(system_program_account, _) ← next_account_info it;
  _ ← throw_ifM (negb (is_signer user_account)) (intent_into UserMustSign);
  _ ← throw_ifM (bool_decide (key system_program_account ≠ system_program_id))
        IncorrectProgramId;
  _ ← throw_ifM (bool_decide (hashv rt [ri_canonical_intent_bytes args] ≠
                              ri_canonical_intent_hash args))
        (intent_into HashMismatch);
  clock ← clock_get;
  _ ← throw_ifM (ri_expires_at_slot args <=? slot clock) (intent_into IntentExpired);
  let seeds := intent_seeds (ri_schema_version args) (key user_account) (ri_intent_id args) in
  let '(expected_pda, bump) := find_program_address rt seeds program_id in
  _ ← throw_ifM (bool_decide (expected_pda ≠ key intent_pda_account))
        (intent_into InvalidPda);
  _ ← invoke_signed rt
        (create_account_ix rt (key user_account) (key intent_pda_account)
           (minimum_balance rt (Z.of_nat INTENT_RECORD_LEN)) (Z.of_nat INTENT_RECORD_LEN)
           program_id)
        [user_account; intent_pda_account; system_program_account]
        [seeds ++ [[byte_of bump]]];
  _ ← serialize_into (key intent_pda_account)
        (to_vec (MkIntentRecord (ri_schema_version args) (ri_intent_id args)
           (key user_account) (ri_canonical_intent_hash args) (ri_action_type args)
           (ri_expires_at_slot args) (slot clock) bump));
  sol_log_data [bytes "intent_recorded_v1"; ri_intent_id args; key user_account;
                [byte_of (ri_action_type args)]; ri_canonical_intent_hash args;
                to_le 8 (ri_expires_at_slot args); to_le 8 (slot clock)].

Definition process_instruction (accounts : list AccountInfo) (instruction_data : list byte) :
    M unit :=
  instruction ← lift (ok_or (try_from_slice instruction_data) InvalidInstructionData);
  match instruction with
  | RecordIntent args => process_record_intent accounts args
  end.

Definition record_intent_instruction (usr : Pubkey) (args : RecordIntentArgs) : Instruction :=
  let intent_pda :=
    (derive_intent_pda (ri_schema_version args) usr (ri_intent_id args)).1 in
  MkInstruction program_id
    [meta_new usr true; meta_new intent_pda false; meta_new_readonly system_program_id false]
    (to_vec (RecordIntent args)).
End program.

(** ** What a recording does *)
Section facts.
Context (rt : Runtime) (program_id : Pubkey) `{!RuntimeLaws rt program_id}.

(** What a successful recording saw. *)
Record record_facts (w : World) (args : RecordIntentArgs) (us pd sy : AccountInfo) : Prop := {
  rf_size : (length (ri_canonical_intent_bytes args) ≤ 1024)%nat;
  rf_action : is_Some (from_u8 (ri_action_type args));
  rf_signer : is_signer us = true;
  rf_system : key sy = system_program_id;
  rf_hash : hashv rt [ri_canonical_intent_bytes args] = ri_canonical_intent_hash args;
  rf_expiry : slot (w_clock w) < ri_expires_at_slot args;
  rf_pda : (derive_intent_pda rt program_id (ri_schema_version args) (key us)
              (ri_intent_id args)).1 = key pd;
  rf_unused : unused (acct (w_bank w) (key pd));
  rf_payer : key us ≠ key pd;
  rf_rent : minimum_balance rt 99 ≤ lamports (acct (w_bank w) (key us))
}.

Definition recorded_intent (args : RecordIntentArgs) (usr : Pubkey) (now : Z) : IntentRecord :=
  MkIntentRecord (ri_schema_version args) (ri_intent_id args) usr
    (ri_canonical_intent_hash args) (ri_action_type args) (ri_expires_at_slot args) now
    (derive_intent_pda rt program_id (ri_schema_version args) usr (ri_intent_id args)).2.

Definition recorded_event (args : RecordIntentArgs) (usr : Pubkey) (now : Z) :
    list (list byte) :=
  [bytes "intent_recorded_v1"; ri_intent_id args; usr; [byte_of (ri_action_type args)];
   ri_canonical_intent_hash args; to_le 8 (ri_expires_at_slot args); to_le 8 now].

Definition record_result (w : World) (args : RecordIntentArgs) (us pd : AccountInfo) : World :=
  push_log (recorded_event args (key us) (slot (w_clock w)))
    (with_bank (installed (w_bank w) (key us) (key pd) (minimum_balance rt 99) program_id
                  (to_vec (recorded_intent args (key us) (slot (w_clock w))))) w).

Lemma intent_record_fixed_len : FixedLen (borsh IntentRecord) INTENT_RECORD_LEN.
Proof. solve_fixed_len. Qed.

Lemma recorded_intent_typed args usr now :
  well_typed args → length usr = 32%nat → is_u 64 now →
  well_typed (recorded_intent args usr now).
Proof.
  intros (?&?&?&?&?&?) ??.
  assert (is_u 8 (derive_intent_pda rt program_id (ri_schema_version args) usr
    (ri_intent_id args)).2) by apply find_pda_typed.
  by repeat (split; [done|]).
Qed.

Lemma record_inv accounts args w w' :
  process_record_intent rt program_id accounts args w = Ok (tt, w') →
  accounts_typed accounts → well_typed args → is_u 64 (slot (w_clock w)) →
  ∃ us pd sy rest, accounts = us :: pd :: sy :: rest ∧
    record_facts w args us pd sy ∧ w' = record_result w args us pd.
Proof.
  unfold process_record_intent. intros H Hacc Hargs Hslot. inv_run H.
  rename select (invoke_signed _ _ _ _ _ = _) into Hinv.
  apply invoke_signed_Ok in Hinv as (b & Hinv & ->).
  apply create_own_sound in Hinv as (Hun & Hne & Hrent & ->); [|done..].
  rename select (serialize_into _ _ _ = _) into Hser.
  repeat (apply Forall_cons in Hacc as [? Hacc]).
  b2p. eexists _, _, _, _. split; [done|].
  rename select (find_program_address _ _ _ = _) into Hpda.
  split.
  - constructor; try done; [by apply not_eq_None_Some|by unfold derive_intent_pda; rewrite Hpda].
  - unfold record_result.
    match type of Hslot with is_u 64 ?now =>
      assert (well_typed (recorded_intent args (key a) now)) as Ht by
        (by apply recorded_intent_typed) end.
    unfold recorded_intent, derive_intent_pda in *. rewrite Hpda in *. simpl in *.
    rewrite serialize_into_created in Hser by (by apply intent_record_fixed_len in Ht).
    by injection Hser as <- <-.
Qed.

Lemma record_complete args w us pd sy rest :
  record_facts w args us pd sy → accounts_typed (us :: pd :: sy :: rest) →
  well_typed args → is_u 64 (slot (w_clock w)) →
  is_writable us = true → is_writable pd = true →
  owner (acct (w_bank w) (key us)) = system_program_id →
  data (acct (w_bank w) (key us)) = [] →
  process_record_intent rt program_id (us :: pd :: sy :: rest) args w =
  Ok (tt, record_result w args us pd).
Proof.
  intros [] Hacc Hargs Hslot Hwu Hwp Hou Hdu. unfold process_record_intent.
  rewrite guard_step by (unfold MAX_CANONICAL_INTENT_BYTES; b2p; lia).
  rewrite guard_step by (apply bool_decide_eq_false; by apply not_eq_None_Some).
  rewrite !next_step. rewrite guard_step by (by rewrite rf_signer0).
  do 2 rewrite guard_step by (by apply neq_guard). rewrite clock_step.
  rewrite guard_step by (b2p; lia). cbv zeta.
  assert (well_typed (recorded_intent args (key us) (slot (w_clock w)))) as Ht.
  { apply recorded_intent_typed; [done| |done]. exact (Forall_inv Hacc). }
  unfold record_result, recorded_intent, derive_intent_pda in *.
  destruct (find_program_address _ _ _) as [pda bmp] eqn:Hpda. simpl in rf_pda0, Ht. subst pda.
  rewrite guard_step by (by apply neq_guard).
  rewrite (bindM_step _ _ _ tt (with_bank (created (w_bank w) (key us) (key pd)
    (minimum_balance rt 99) 99 program_id) w)).
  2: { apply invoke_signed_Ok. eexists. split; [|done].
       apply create_account_complete; try done; [by apply minimum_balance_typed|
         apply self_typed]. }
  cbn [snd]. change 99 with (Z.of_nat 99).
  erewrite bindM_step; [|by apply serialize_into_created, intent_record_fixed_len].
  done.
Qed.
End facts.

(** ** Properties *)

(** A successful recording, exactly what it saw and did: the user signed,
    the passed bytes hash to the recorded value, the intent is not expired, the
    account is the unused address derived for user and intent id; it ends up
    holding the record, the program's, paid by the user. *)
Theorem record_intent_sound rt program_id `{!RuntimeLaws rt program_id} accounts args w w' :
  accounts_typed accounts → well_typed args → is_u 64 (slot (w_clock w)) →
  process_record_intent rt program_id accounts args w = Ok (tt, w') →
  ∃ us pd sy rest, accounts = us :: pd :: sy :: rest ∧
    record_facts rt program_id w args us pd sy ∧
    w' = record_result rt program_id w args us pd ∧
    owner (acct (w_bank w') (key pd)) = program_id ∧
    try_from_slice (data (acct (w_bank w') (key pd))) =
      Some (recorded_intent rt program_id args (key us) (slot (w_clock w))).
Proof.
  intros Hacc Ha Hs H.
  destruct (record_inv rt program_id accounts args w w') as
    (us & pd & sy & rest & -> & Hf & ->); [done..|].
  exists us, pd, sy, rest. unfold record_result, installed. simpl. rewrite acct_insert.
  split_and!; try done. apply try_from_slice_to_vec, (recorded_intent_typed rt program_id);
    [done|exact (Forall_inv Hacc)|done].
Qed.

(** A recorded intent is never changed: no instruction of the program
    touches the data or the owner of an account the program owns. *)
Theorem recorded_intents_immutable rt program_id `{!RuntimeLaws rt program_id}
    accounts bs w w' k :
  accounts_typed accounts → is_u 64 (slot (w_clock w)) →
  process_instruction rt program_id accounts bs w = Ok (tt, w') →
  owner (acct (w_bank w) k) = program_id →
  owner (acct (w_bank w') k) = program_id ∧
  data (acct (w_bank w') k) = data (acct (w_bank w) k).
Proof.
  intros Hacc Hs H Hk. unfold process_instruction in H.
  apply bindM_Ok in H as ([args] & w1 & [Hi%ok_or_Ok ->]%liftM_Ok & H).
  destruct (proj1 (try_from_slice_Some _ _) Hi) as [_ Ht].
  destruct (record_inv rt program_id accounts args w w') as
    (us & pd & sy & rest & -> & [] & ->); [done..|].
  unfold record_result, installed. simpl. destruct rf_unused0 as (_ & Ho & _).
  assert (key pd ≠ k) as Hne.
  { intros <-. apply (self_not_system (rt := rt) (self := program_id)). congruence. }
  rewrite acct_insert_ne by done. destruct (decide (key us = k)) as [<-|].
  - by rewrite acct_insert.
  - by rewrite acct_insert_ne.
Qed.

(** What the builder builds the program accepts: the built instruction,
    with its own account list and data, records the intent for a paying user,
    when the hash is right, the expiry ahead and the address unused. *)
Theorem record_intent_builder_accepted rt program_id `{!RuntimeLaws rt program_id}
    usr args w :
  let pda := (derive_intent_pda rt program_id (ri_schema_version args) usr
                (ri_intent_id args)).1 in
  let ix := record_intent_instruction rt program_id usr args in
  well_typed args → length usr = 32%nat → is_u 64 (slot (w_clock w)) →
  (length (ri_canonical_intent_bytes args) ≤ 1024)%nat →
  is_Some (from_u8 (ri_action_type args)) →
  hashv rt [ri_canonical_intent_bytes args] = ri_canonical_intent_hash args →
  slot (w_clock w) < ri_expires_at_slot args →
  unused (acct (w_bank w) pda) → usr ≠ pda →
  minimum_balance rt 99 ≤ lamports (acct (w_bank w) usr) →
  owner (acct (w_bank w) usr) = system_program_id → data (acct (w_bank w) usr) = [] →
  process_instruction rt program_id (info_of_meta <$> ix_accounts ix) (ix_data ix) w =
  Ok (tt, record_result rt program_id w args (MkAccountInfo usr true true)
            (MkAccountInfo pda false true)).
Proof.
  intros pda ix Ha Hu Hs Hlen Hact Hhash Hexp Hun Hne Hrent Hown Hdata.
  unfold process_instruction.
  rewrite (lift_step _ (RecordIntent args)) by (by apply ok_or_Ok, try_from_slice_to_vec).
  apply (record_complete rt program_id); try done.
  repeat constructor; [done|apply find_pda_typed].
Qed.

(** ** An example *)
Definition demo_usr : Pubkey := replicate 32 Byte.x01.
Definition demo_intent : RecordIntentArgs := Eval vm_compute in
  MkRecordIntentArgs 1 (replicate 16 Byte.x07) (demo_hash [bytes "deposit 5 USDC"]) 1 1000
    (bytes "deposit 5 USDC").
Definition demo_intent_world : World :=
  MkWorld {[demo_usr := MkAccount 1000000000 system_program_id []]} (MkClock 900 0) [].
Notation demo_rt := (demo_runtime demo_program).
Definition demo_intent_ix : Instruction := Eval vm_compute in
  record_intent_instruction demo_rt demo_program demo_usr demo_intent.
Definition demo_intent_accounts : list AccountInfo := Eval vm_compute in
  info_of_meta <$> ix_accounts demo_intent_ix.
Definition demo_intent_after : World := Eval vm_compute in
  match process_instruction demo_rt demo_program demo_intent_accounts
          (ix_data demo_intent_ix) demo_intent_world with
  | Ok (_, w) => w
  | Err _ => demo_intent_world
  end.

Lemma demo_intent_typed : well_typed demo_intent.
Proof.
  apply (proj1 (try_from_slice_Some (to_vec demo_intent) demo_intent)).
  vm_compute. reflexivity.
Qed.
Lemma demo_intent_accounts_typed : accounts_typed demo_intent_accounts.
Proof. by repeat constructor. Qed.
Lemma demo_intent_slot : is_u 64 (slot (w_clock demo_intent_world)).
Proof. apply (bool_decide_unpack _). by vm_compute. Qed.

Lemma record_intent_sound_witness :
  ∃ us pd sy rest, demo_intent_accounts = us :: pd :: sy :: rest ∧
    record_facts demo_rt demo_program demo_intent_world demo_intent us pd sy ∧
    demo_intent_after = record_result demo_rt demo_program demo_intent_world demo_intent us pd ∧
    owner (acct (w_bank demo_intent_after) (key pd)) = demo_program ∧
    try_from_slice (data (acct (w_bank demo_intent_after) (key pd))) =
      Some (recorded_intent demo_rt demo_program demo_intent (key us) 900).
Proof.
  apply (record_intent_sound demo_rt demo_program demo_intent_accounts demo_intent
    demo_intent_world demo_intent_after); [apply demo_intent_accounts_typed|
    apply demo_intent_typed|apply demo_intent_slot|vm_compute; reflexivity].
Defined.

(** A second intent of the same user leaves the first one's account alone. *)
Definition demo_intent2 : RecordIntentArgs := Eval vm_compute in
  MkRecordIntentArgs 1 (replicate 16 Byte.x08) (demo_hash [bytes "swap"]) 3 1000
    (bytes "swap").
Definition demo_intent2_ix : Instruction := Eval vm_compute in
  record_intent_instruction demo_rt demo_program demo_usr demo_intent2.
Definition demo_intent2_accounts : list AccountInfo := Eval vm_compute in
  info_of_meta <$> ix_accounts demo_intent2_ix.
Definition demo_intent2_after : World := Eval vm_compute in
  match process_instruction demo_rt demo_program demo_intent2_accounts
          (ix_data demo_intent2_ix) demo_intent_after with
  | Ok (_, w) => w
  | Err _ => demo_intent_after
  end.
Definition demo_intent_pda : Pubkey := Eval vm_compute in
  (derive_intent_pda demo_rt demo_program 1 demo_usr (replicate 16 Byte.x07)).1.

Lemma recorded_intents_immutable_witness :
  owner (acct (w_bank demo_intent2_after) demo_intent_pda) = demo_program ∧
  data (acct (w_bank demo_intent2_after) demo_intent_pda) =
  data (acct (w_bank demo_intent_after) demo_intent_pda).
Proof.
  apply (recorded_intents_immutable demo_rt demo_program demo_intent2_accounts
    (ix_data demo_intent2_ix) demo_intent_after demo_intent2_after demo_intent_pda);
    [by repeat constructor|apply (bool_decide_unpack _); by vm_compute|
     vm_compute; reflexivity|vm_compute; reflexivity].
Defined.

Lemma record_intent_builder_accepted_witness :
  process_instruction demo_rt demo_program
    (info_of_meta <$> ix_accounts (record_intent_instruction demo_rt demo_program demo_usr
       demo_intent))
    (ix_data (record_intent_instruction demo_rt demo_program demo_usr demo_intent))
    demo_intent_world =
  Ok (tt, record_result demo_rt demo_program demo_intent_world demo_intent
            (MkAccountInfo demo_usr true true)
            (MkAccountInfo (derive_intent_pda demo_rt demo_program
               (ri_schema_version demo_intent) demo_usr (ri_intent_id demo_intent)).1
               false true)).
Proof.
  apply (record_intent_builder_accepted demo_rt demo_program demo_usr demo_intent
    demo_intent_world); [apply demo_intent_typed|reflexivity|apply demo_intent_slot|..];
    try (apply (bool_decide_unpack _); vm_compute; reflexivity).
Defined.
