(* ===== verification/Errors.v ===== *)
(** * Wire error codes of [clawsol-authority] ([error.rs]) *)
From S2P Require Import Prelude Solana.

Inductive AuthorityError :=
| UserMustSign
| InvalidPda
| AuthorizationExpired
| InvalidZeroMaxAmount
| UnsupportedSchemaVersion
| InvalidActionType
| RevokeWrongUser
| CloseWrongUser
| NotCloseable
| MissingExecutorSignature
| InvalidAuthorizationPda
| AuthorizationOwnerMismatch
| AuthorizationUserMismatch
| ExecutorMismatch
| RuleHashMismatch
| ActionTypeMismatch
| AuthorizationRevoked
| AuthorizationCompleted
| InputAmountZero
| InputAmountExceeded
| ExecutionNonceMismatch
| SameSlotReplay
| MissingConditionProof
| ConditionCountMismatch
| ConditionNotMet
| ConditionVerificationFailed
| PythSnapshotStale
| PythFeedIdMismatch
| PythVerificationLevelInsufficient
| PythConfidenceTooWide
| SolendFormulaVersionUnsupported
| SolendReserveStale
| SolendBoundaryProofMissing
| UnsupportedSolendAction
| SolendProgramMismatch
| SolendObligationOwnerMismatch
| SolendObligationAuthorityMismatch
| SolendMainWalletObligationRejected
| SolendReserveMismatch
| SolendLendingMarketMismatch
| SolendDestinationMismatch
| SolendRefreshMissing
| SolendWithdrawMissing
| SolendInstructionOrderInvalid
| SolendDuplicateOrConflictingInstruction
| SolendBoundaryVerificationFailed
| JupiterBoundaryProofMissing
| JupiterBoundaryVerificationFailed
| JupiterIllegalSiblingInstruction
| JupiterInstructionOrderInvalid
| JupiterProgramIdMismatch
| JupiterUnexpectedWritableAccount
| JupiterDestinationMismatch
| JupiterTokenAccountInvalid
| JupiterMintMismatch
| JupiterPostBalanceUnderflow
| JupiterBalanceDeltaTooSmall
| JupiterSiblingListTooLarge
| JupiterBracketCheckpointMissing
| JupiterBracketCheckpointConsumed
| SolendAccountDataTooShort
| SolendAccountOwnerMismatch
| SolendObligationDecodeFailed
| SolendReserveDecodeFailed
| SolendUnsupportedObligationVersion
| SolendUnsupportedReserveVersion
| SolendObligationLendingMarketMismatch
| SolendReserveLendingMarketMismatch
| SolendLastUpdateSlotMismatch
| SolendTokenAccountOwnerMismatch
| SolendTokenAccountMintMismatch
| SolendTokenAccountAuthorityMismatch
| SolendTokenAccountInvalidLength
| SolendCpiAccountOrderInvalid
| SolendCpiSysvarMismatch
| SolendCpiTokenProgramMismatch
| SolendCpiZeroCollateralAmount
| SolendCpiOracleUnverified
| SolendCpiBuilderInvariantFailed
| SolendCpiDelegatedWalletMissing
| SolendCpiDelegatedWalletNotSigner
| SolendCpiDelegatedWalletMismatch
| SolendCpiRefreshReserveFailed
| SolendCpiRefreshObligationFailed
| SolendCpiWithdrawFailed
| SolendCpiSuccessPathBlockedByOracleValidation
| SolendCpiInsufficientAccounts
| SolendCpiBorrowAcrossInvokeRisk
| SolendDemoOracleUnknownReserve
| SolendDemoOracleTupleMismatch.
(** The [#[repr(u32)]] discriminants. *)
Definition authority_error_code (e : AuthorityError) : Z :=
  match e with
  | UserMustSign => 0
  | InvalidPda => 1
  | AuthorizationExpired => 2
  | InvalidZeroMaxAmount => 3
  | UnsupportedSchemaVersion => 4
  | InvalidActionType => 5
  | RevokeWrongUser => 6
  | CloseWrongUser => 7
  | NotCloseable => 8
  | MissingExecutorSignature => 9
  | InvalidAuthorizationPda => 10
  | AuthorizationOwnerMismatch => 11
  | AuthorizationUserMismatch => 12
  | ExecutorMismatch => 13
  | RuleHashMismatch => 14
  | ActionTypeMismatch => 15
  | AuthorizationRevoked => 16
  | AuthorizationCompleted => 17
  | InputAmountZero => 18
  | InputAmountExceeded => 19
  | ExecutionNonceMismatch => 20
  | SameSlotReplay => 21
  | MissingConditionProof => 22
  | ConditionCountMismatch => 23
  | ConditionNotMet => 24
  | ConditionVerificationFailed => 25
  | PythSnapshotStale => 26
  | PythFeedIdMismatch => 27
  | PythVerificationLevelInsufficient => 28
  | PythConfidenceTooWide => 29
  | SolendFormulaVersionUnsupported => 30
  | SolendReserveStale => 31
  | SolendBoundaryProofMissing => 32
  | UnsupportedSolendAction => 33
  | SolendProgramMismatch => 34
  | SolendObligationOwnerMismatch => 35
  | SolendObligationAuthorityMismatch => 36
  | SolendMainWalletObligationRejected => 37
  | SolendReserveMismatch => 38
  | SolendLendingMarketMismatch => 39
  | SolendDestinationMismatch => 40
  | SolendRefreshMissing => 41
  | SolendWithdrawMissing => 42
  | SolendInstructionOrderInvalid => 43
  | SolendDuplicateOrConflictingInstruction => 44
  | SolendBoundaryVerificationFailed => 45
  | JupiterBoundaryProofMissing => 46
  | JupiterBoundaryVerificationFailed => 47
  | JupiterIllegalSiblingInstruction => 48
  | JupiterInstructionOrderInvalid => 49
  | JupiterProgramIdMismatch => 50
  | JupiterUnexpectedWritableAccount => 51
  | JupiterDestinationMismatch => 52
  | JupiterTokenAccountInvalid => 53
  | JupiterMintMismatch => 54
  | JupiterPostBalanceUnderflow => 55
  | JupiterBalanceDeltaTooSmall => 56
  | JupiterSiblingListTooLarge => 57
  | JupiterBracketCheckpointMissing => 58
  | JupiterBracketCheckpointConsumed => 59
  | SolendAccountDataTooShort => 60
  | SolendAccountOwnerMismatch => 61
  | SolendObligationDecodeFailed => 62
  | SolendReserveDecodeFailed => 63
  | SolendUnsupportedObligationVersion => 64
  | SolendUnsupportedReserveVersion => 65
  | SolendObligationLendingMarketMismatch => 66
  | SolendReserveLendingMarketMismatch => 67
  | SolendLastUpdateSlotMismatch => 68
  | SolendTokenAccountOwnerMismatch => 69
  | SolendTokenAccountMintMismatch => 70
  | SolendTokenAccountAuthorityMismatch => 71
  | SolendTokenAccountInvalidLength => 72
  | SolendCpiAccountOrderInvalid => 73
  | SolendCpiSysvarMismatch => 74
  | SolendCpiTokenProgramMismatch => 75
  | SolendCpiZeroCollateralAmount => 76
  | SolendCpiOracleUnverified => 77
  | SolendCpiBuilderInvariantFailed => 78
  | SolendCpiDelegatedWalletMissing => 79
  | SolendCpiDelegatedWalletNotSigner => 80
  | SolendCpiDelegatedWalletMismatch => 81
  | SolendCpiRefreshReserveFailed => 82
  | SolendCpiRefreshObligationFailed => 83
  | SolendCpiWithdrawFailed => 84
  | SolendCpiSuccessPathBlockedByOracleValidation => 85
  | SolendCpiInsufficientAccounts => 86
  | SolendCpiBorrowAcrossInvokeRisk => 87
  | SolendDemoOracleUnknownReserve => 88
  | SolendDemoOracleTupleMismatch => 89
  end.

(** [impl From<AuthorityError> for ProgramError] *)
Definition authority_into (e : AuthorityError) : ProgramError :=
  Custom (authority_error_code e).
Coercion authority_into : AuthorityError >-> ProgramError.

(** The inverse table a log reader uses. *)
Definition authority_error_of_code (c : Z) : option AuthorityError :=
  match c with
  | 0 => Some UserMustSign
  | 1 => Some InvalidPda
  | 2 => Some AuthorizationExpired
  | 3 => Some InvalidZeroMaxAmount
  | 4 => Some UnsupportedSchemaVersion
  | 5 => Some InvalidActionType
  | 6 => Some RevokeWrongUser
  | 7 => Some CloseWrongUser
  | 8 => Some NotCloseable
  | 9 => Some MissingExecutorSignature
  | 10 => Some InvalidAuthorizationPda
  | 11 => Some AuthorizationOwnerMismatch
  | 12 => Some AuthorizationUserMismatch
  | 13 => Some ExecutorMismatch
  | 14 => Some RuleHashMismatch
  | 15 => Some ActionTypeMismatch
  | 16 => Some AuthorizationRevoked
  | 17 => Some AuthorizationCompleted
  | 18 => Some InputAmountZero
  | 19 => Some InputAmountExceeded
  | 20 => Some ExecutionNonceMismatch
  | 21 => Some SameSlotReplay
  | 22 => Some MissingConditionProof
  | 23 => Some ConditionCountMismatch
  | 24 => Some ConditionNotMet
  | 25 => Some ConditionVerificationFailed
  | 26 => Some PythSnapshotStale
  | 27 => Some PythFeedIdMismatch
  | 28 => Some PythVerificationLevelInsufficient
  | 29 => Some PythConfidenceTooWide
  | 30 => Some SolendFormulaVersionUnsupported
  | 31 => Some SolendReserveStale
  | 32 => Some SolendBoundaryProofMissing
  | 33 => Some UnsupportedSolendAction
  | 34 => Some SolendProgramMismatch
  | 35 => Some SolendObligationOwnerMismatch
  | 36 => Some SolendObligationAuthorityMismatch
  | 37 => Some SolendMainWalletObligationRejected
  | 38 => Some SolendReserveMismatch
  | 39 => Some SolendLendingMarketMismatch
  | 40 => Some SolendDestinationMismatch
  | 41 => Some SolendRefreshMissing
  | 42 => Some SolendWithdrawMissing
  | 43 => Some SolendInstructionOrderInvalid
  | 44 => Some SolendDuplicateOrConflictingInstruction
  | 45 => Some SolendBoundaryVerificationFailed
  | 46 => Some JupiterBoundaryProofMissing
  | 47 => Some JupiterBoundaryVerificationFailed
  | 48 => Some JupiterIllegalSiblingInstruction
  | 49 => Some JupiterInstructionOrderInvalid
  | 50 => Some JupiterProgramIdMismatch
  | 51 => Some JupiterUnexpectedWritableAccount
  | 52 => Some JupiterDestinationMismatch
  | 53 => Some JupiterTokenAccountInvalid
  | 54 => Some JupiterMintMismatch
  | 55 => Some JupiterPostBalanceUnderflow
  | 56 => Some JupiterBalanceDeltaTooSmall
  | 57 => Some JupiterSiblingListTooLarge
  | 58 => Some JupiterBracketCheckpointMissing
  | 59 => Some JupiterBracketCheckpointConsumed
  | 60 => Some SolendAccountDataTooShort
  | 61 => Some SolendAccountOwnerMismatch
  | 62 => Some SolendObligationDecodeFailed
  | 63 => Some SolendReserveDecodeFailed
  | 64 => Some SolendUnsupportedObligationVersion
  | 65 => Some SolendUnsupportedReserveVersion
  | 66 => Some SolendObligationLendingMarketMismatch
  | 67 => Some SolendReserveLendingMarketMismatch
  | 68 => Some SolendLastUpdateSlotMismatch
  | 69 => Some SolendTokenAccountOwnerMismatch
  | 70 => Some SolendTokenAccountMintMismatch
  | 71 => Some SolendTokenAccountAuthorityMismatch
  | 72 => Some SolendTokenAccountInvalidLength
  | 73 => Some SolendCpiAccountOrderInvalid
  | 74 => Some SolendCpiSysvarMismatch
  | 75 => Some SolendCpiTokenProgramMismatch
  | 76 => Some SolendCpiZeroCollateralAmount
  | 77 => Some SolendCpiOracleUnverified
  | 78 => Some SolendCpiBuilderInvariantFailed
  | 79 => Some SolendCpiDelegatedWalletMissing
  | 80 => Some SolendCpiDelegatedWalletNotSigner
  | 81 => Some SolendCpiDelegatedWalletMismatch
  | 82 => Some SolendCpiRefreshReserveFailed
  | 83 => Some SolendCpiRefreshObligationFailed
  | 84 => Some SolendCpiWithdrawFailed
  | 85 => Some SolendCpiSuccessPathBlockedByOracleValidation
  | 86 => Some SolendCpiInsufficientAccounts
  | 87 => Some SolendCpiBorrowAcrossInvokeRisk
  | 88 => Some SolendDemoOracleUnknownReserve
  | 89 => Some SolendDemoOracleTupleMismatch
  | _ => None
  end.

Lemma authority_error_of_code_spec e :
  authority_error_of_code (authority_error_code e) = Some e.
Proof. by destruct e. Qed.

#[export] Instance authority_error_eq_dec : EqDecision AuthorityError.
Proof.
  intros e1 e2.
  destruct (decide (authority_error_code e1 = authority_error_code e2)) as [H|H].
  - left. apply (inj Some).
    by rewrite <- !authority_error_of_code_spec, H.
  - right. by intros ->.
Defined.

(** Two errors of the program never share a wire code. *)
Lemma authority_into_inj e1 e2 : authority_into e1 = authority_into e2 → e1 = e2.
Proof.
  intros [= H]. pose proof (authority_error_of_code_spec e1) as H1.
  rewrite H, authority_error_of_code_spec in H1. by injection H1.
Qed.

Lemma authority_error_code_u32 e : is_u 32 (authority_error_code e).
Proof. pow2_norm. destruct e; simpl; lia. Qed.

(** The error codes are a wire contract: every error has its own 32-bit
    code, and the code determines the error. *)
Theorem error_codes_distinct e1 e2 :
  (authority_into e1 = authority_into e2 ↔ e1 = e2) ∧
  authority_error_of_code (authority_error_code e1) = Some e1 ∧
  is_u 32 (authority_error_code e1).
Proof.
  split_and!; [|apply authority_error_of_code_spec|apply authority_error_code_u32].
  split; [apply authority_into_inj|by intros ->].
Qed.
