(* ===== verification/WideMath.v ===== *)
(** * 256-bit multiply-divide ([condition_verifier.rs], [mul_div_floor_u128])

    [floor((a * b) / c)] on [u128] operands: a direct path when the product
    fits in 128 bits, otherwise four 64-bit partial products summed into a
    256-bit [(hi, lo)] pair and a 256-step restoring division.  The theorems
    show the routine equals the integer quotient whenever that fits in 128
    bits, and fails with [SolendComputeOverflow] exactly otherwise. *)
From S2P Require Import Prelude.

(** ** Verifier failure modes ([enum VerifierError]) *)
Inductive VerifierError :=
| PythFeedIdMismatch
| PythPriceTooOld
| PythVerificationLevelInsufficient
| PythConfidenceTooWide
| PythExponentOutOfRange
| PythComputeOverflow
| BoundDirectionMismatch
| UnsupportedComparison
| SolendFormulaVersionUnsupported
| SolendReserveStale
| UnsupportedRateKind
| SolendInvalidReserveConfig
| SolendComputeOverflow
| SolendThresholdOverflow.
#[export] Instance verifier_error_eq_dec : EqDecision VerifierError.
Proof. solve_decision. Defined.

Notation VRes := (Result VerifierError).

(** ** The routine *)

(** Bit [idx] of [hi * 2^128 + lo]. *)
Definition bit_of_u256 (hi lo idx : Z) : Z :=
  if idx <? 128 then Z.land (Z.shiftr lo idx) 1
  else Z.land (Z.shiftr hi (idx - 128)) 1.

Record DivState := MkDiv { quot : Z; quot_overflow : bool; rem : Z }.

(** One iteration of the restoring division, for bit [i]. *)
Definition div_step (hi lo c i : Z) (st : DivState) : DivState :=
  let rem_overflow := Z.land (Z.shiftr (rem st) 127) 1 =? 1 in
  let rem1 := Z.lor (wrap 128 (Z.shiftl (rem st) 1)) (bit_of_u256 hi lo i) in
  let need_sub := rem_overflow || (c <=? rem1) in
  let rem2 := if need_sub then wrap 128 (rem1 - c) else rem1 in
  let quot_msb := Z.land (Z.shiftr (quot st) 127) 1 =? 1 in
  MkDiv (Z.lor (wrap 128 (Z.shiftl (quot st) 1)) (Z.b2z need_sub))
        (quot_overflow st || quot_msb) rem2.

(** [for i in (0..n).rev()] *)
Fixpoint div_loop (n : nat) (hi lo c : Z) (st : DivState) : DivState :=
  match n with
  | O => st
  | S i => div_loop i hi lo c (div_step hi lo c (Z.of_nat i) st)
  end.

(** The four partial products summed with carries into [(hi, lo)]. *)
Definition wide_mul (a b : Z) : VRes (Z * Z) :=
  let a_lo := wrap 64 a in
  let a_hi := Z.shiftr a 64 in
  let b_lo := wrap 64 b in
  let b_hi := Z.shiftr b 64 in
  let ll := a_lo * b_lo in
  let lh := a_lo * b_hi in
  let hl := a_hi * b_lo in
  let hh := a_hi * b_hi in
  let mid := wrap 128 (lh + hl) in
  let mid_carry := if mid <? lh then Z.shiftl 1 64 else 0 in
  let mid_lo := wrap 128 (Z.shiftl mid 64) in
  let mid_hi := Z.shiftr mid 64 in
  let lo := wrap 128 (ll + mid_lo) in
  let c1 := negb (fits_u 128 (ll + mid_lo)) in
  hi ← ok_or (checked_u 128 (hh + mid_hi)) SolendComputeOverflow;
  hi ← ok_or (checked_u 128 (hi + (if c1 then 1 else 0))) SolendComputeOverflow;
  hi ← ok_or (checked_u 128 (hi + mid_carry)) SolendComputeOverflow;
  Ok (hi, lo).

(** The 256 iterations from [quot = 0, rem = 0] and the overflow test. *)
Definition long_divide (hi lo c : Z) : VRes Z :=
  let st := div_loop 256 hi lo c (MkDiv 0 false 0) in
  _ ← throw_if (quot_overflow st) SolendComputeOverflow;
  Ok (quot st).

Definition mul_div_floor_u128 (a b c : Z) : VRes Z :=
  if c =? 0 then Err SolendComputeOverflow
  else match checked_u 128 (a * b) with
  | Some prod => Ok (prod / c)
  | None =>
      '(hi, lo) ← wide_mul a b;
      long_divide hi lo c
  end.

(** ** Correctness *)

Lemma land1_eqb z : (Z.land z 1 =? 1) = Z.odd z.
Proof.
  change 1 with (Z.ones 1) at 1. rewrite Z.land_ones by lia.
  rewrite Zmod_odd. by destruct (Z.odd z).
Qed.

Lemma shiftr127_odd z : is_u 128 z → Z.odd (Z.shiftr z 127) = (2 ^ 127 <=? z).
Proof.
  intros Hz. rewrite Z.shiftr_div_pow2 by lia. pow2_norm.
  destruct (_ <=? z) eqn:E; b2p.
  - rewrite <- (Z.div_unique z _ 1 (z - 2 ^ 127)); [done|pow2_norm; lia..].
  - by rewrite Z.div_small by lia.
Qed.

(** Shift left by one and set the low bit. *)
Lemma lor_shift1 z b :
  is_u 128 z → 0 ≤ b ≤ 1 →
  Z.lor (wrap 128 (Z.shiftl z 1)) b =
  (if 2 ^ 127 <=? z then 2 * z - 2 ^ 128 else 2 * z) + b.
Proof.
  intros Hz Hb. rewrite Z.shiftl_mul_pow2 by lia.
  assert (wrap 128 (z * 2 ^ 1) = 2 * (if 2 ^ 127 <=? z then z - 2 ^ 127 else z)) as ->.
  { unfold wrap. destruct (_ <=? z) eqn:E; b2p.
    - symmetry. apply Z.mod_unique with 1; pow2_norm; lia.
    - rewrite Z.mod_small; pow2_norm; lia. }
  replace (Z.lor _ b) with (2 * (if 2 ^ 127 <=? z then z - 2 ^ 127 else z) + b).
  { destruct (_ <=? z); pow2_norm; lia. }
  apply Z.add_nocarry_lor. apply Z.bits_inj'. intros n Hn.
  rewrite Z.land_spec, Z.bits_0. destruct (decide (n = 0)) as [->|].
  - by rewrite Z.testbit_even_0.
  - replace (Z.testbit b n) with false; [by rewrite andb_false_r|].
    assert (b = 0 ∨ b = 1) as [-> | ->] by lia; symmetry; [apply Z.bits_0|].
    apply Z.bits_above_log2; simpl; lia.
Qed.

Section division.
Context (hi lo c : Z) (Hhi : is_u 128 hi) (Hlo : is_u 128 lo).
Context (Hc : is_u 128 c) (Hc0 : c ≠ 0).

Let N := hi * 2 ^ 128 + lo.

Lemma bit_of_u256_spec i :
  0 ≤ i → bit_of_u256 hi lo i = (N / 2 ^ i) mod 2.
Proof using Hlo.
  intros Hi. unfold bit_of_u256. change 1 with (Z.ones 1).
  subst N. destruct (i <? 128) eqn:E; b2p;
    rewrite Z.land_ones, Z.shiftr_div_pow2 by lia; change (2 ^ 1) with 2.
  - replace (hi * 2 ^ 128) with ((hi * 2 ^ (127 - i)) * 2 * 2 ^ i).
    + rewrite Z.add_comm, Z.div_add by (apply Z.pow_nonzero; lia).
      by rewrite Z.mod_add by lia.
    + rewrite <- !Z.mul_assoc. f_equal.
      rewrite <- Z.pow_succ_r, <- Z.pow_add_r by lia. f_equal. lia.
  - replace (2 ^ i) with (2 ^ 128 * 2 ^ (i - 128)) by
      (rewrite <- Z.pow_add_r by lia; f_equal; lia).
    rewrite <- Z.div_div by (apply Z.pow_nonzero || apply Z.pow_pos_nonneg; lia).
    rewrite Z.div_add_l by lia. rewrite (Z.div_small lo) by apply Hlo.
    by rewrite Z.add_0_r.
Qed.

(** Quotient and remainder when one more bit is brought down. *)
Lemma div_mod_double P b :
  0 ≤ b ≤ 1 → 0 < c →
  (2 * P + b) / c = 2 * (P / c) + Z.b2z (c <=? 2 * (P mod c) + b) ∧
  (2 * P + b) mod c = 2 * (P mod c) + b - Z.b2z (c <=? 2 * (P mod c) + b) * c.
Proof.
  intros Hb Hc'. pose proof (Z.mod_pos_bound P c Hc').
  pose proof (Z.div_mod P c ltac:(lia)).
  set (q := P / c) in *. set (r := P mod c) in *.
  destruct (c <=? 2 * r + b) eqn:E; b2p; cbn [Z.b2z]; split; symmetry;
    [apply Z.div_unique with (2 * r + b - c) | apply Z.mod_unique with (2 * q + 1)
    |apply Z.div_unique with (2 * r + b) | apply Z.mod_unique with (2 * q)]; lia.
Qed.

(** The state after the bits from [i] up have been consumed. *)
Definition div_inv (i : Z) (st : DivState) : Prop :=
  let P := N / 2 ^ i in
  rem st = P mod c ∧ quot st = (P / c) mod 2 ^ 128 ∧
  quot_overflow st = (2 ^ 128 <=? P / c).

Lemma div_step_inv i st :
  0 ≤ i → div_inv (i + 1) st → div_inv i (div_step hi lo c i st).
Proof using All.
  intros Hi (Hr & Hq & Ho). unfold div_inv, div_step.
  assert (0 ≤ N) as HN by (subst N; pow2_norm; lia).
  set (P := N / 2 ^ (i + 1)) in *. set (b := bit_of_u256 hi lo i).
  assert (0 ≤ b ≤ 1) as Hb.
  { subst b. rewrite bit_of_u256_spec by done.
    pose proof (Z.mod_pos_bound (N / 2 ^ i) 2). lia. }
  assert (N / 2 ^ i = 2 * P + b) as ->.
  { subst P b. rewrite bit_of_u256_spec by done.
    rewrite Z.pow_add_r, <- Z.div_div by (lia || apply Z.pow_pos_nonneg; lia).
    change (2 ^ 1) with 2. pose proof (Z.div_mod (N / 2 ^ i) 2). lia. }
  assert (0 ≤ P) by (subst P; apply Z.div_pos; [done|apply Z.pow_pos_nonneg; lia]).
  assert (0 < c) as Hcpos by (destruct Hc; lia).
  pose proof (Z.mod_pos_bound P c Hcpos) as HPr.
  pose proof (Z.div_mod P c Hc0) as HPd.
  assert (0 ≤ P / c) by (apply Z.div_pos; lia).
  assert (is_u 128 (rem st)) as Hru by (rewrite Hr; destruct Hc; split; lia).
  assert (is_u 128 (quot st)) as Hqu by (rewrite Hq; apply wrap_is_u; lia).
  rewrite !land1_eqb, !shiftr127_odd, (lor_shift1 (rem st) b) by done.
  set (r := rem st) in *. set (q := P / c) in *. rewrite <- Hr in *.
  set (ns := (2 ^ 127 <=? r) || _).
  assert (ns = (c <=? 2 * r + b)) as Hns.
  { subst ns. apply eq_bool_prop_intro. split; intros ?%Is_true_true; apply Is_true_true;
      destruct (2 ^ 127 <=? r) eqn:?; simpl in *; b2p; pow2_norm; lia. }
  clearbody ns. subst ns.
  destruct (div_mod_double P b Hb Hcpos) as [Hdiv Hmod].
  rewrite <- Hr in Hdiv, Hmod. fold q in Hdiv.
  rewrite Hdiv, Hmod. cbn [rem quot quot_overflow]. split_and!.
  - destruct (2 ^ 127 <=? r) eqn:E1, (c <=? 2 * r + b) eqn:E2;
      b2p; cbn [Z.b2z]; pow2_norm; try lia.
    + rewrite <- (Z.mod_unique _ _ (-1) (2 * r + b - c)); lia.
    + rewrite Z.mod_small; lia.
  - rewrite lor_shift1 by (done || (destruct (c <=? _); cbn; lia)).
    rewrite Hq. symmetry.
    pose proof (Z.div_mod q (2 ^ 128)). pose proof (Z.mod_pos_bound q (2 ^ 128)).
    set (d := Z.b2z _) in *. assert (0 ≤ d ≤ 1) by (subst d; destruct (c <=? _); cbn; lia).
    destruct (2 ^ 127 <=? _) eqn:E; b2p; symmetry;
      [apply Z.mod_unique with (2 * (q / 2 ^ 128) + 1)
      |apply Z.mod_unique with (2 * (q / 2 ^ 128))]; pow2_norm; lia.
  - rewrite Ho, Hq. apply eq_bool_prop_intro.
    set (d := Z.b2z _) in *. assert (0 ≤ d ≤ 1) by (subst d; destruct (c <=? _); cbn; lia).
    pose proof (Z.div_mod q (2 ^ 128)). pose proof (Z.mod_pos_bound q (2 ^ 128)).
    assert (0 ≤ q / 2 ^ 128) by (apply Z.div_pos; lia).
    split; intros ?%Is_true_true; apply Is_true_true; b2p;
      [destruct_or!|destruct (decide (2 ^ 128 <= q)); [left|right; rewrite Z.mod_small]];
      pow2_norm; try lia.
Qed.

Lemma div_loop_inv n st :
  div_inv (Z.of_nat n) st → div_inv 0 (div_loop n hi lo c st).
Proof using All.
  revert st. induction n as [|n IH]; intros st H; [done|].
  simpl. apply IH, div_step_inv; [lia|].
  replace (Z.of_nat n + 1) with (Z.of_nat (S n)) by lia. done.
Qed.

Lemma long_divide_spec :
  long_divide hi lo c =
  if 2 ^ 128 <=? N / c then Err SolendComputeOverflow else Ok (N / c).
Proof using All.
  unfold long_divide. destruct (div_loop_inv 256 (MkDiv 0 false 0)) as (_ & Hq & Ho).
  - unfold div_inv. rewrite (Z.div_small N).
    + by rewrite Z.mod_0_l, Z.div_0_l by done.
    + subst N. change (Z.of_nat 256) with (128 + 128).
      rewrite Z.pow_add_r by lia. pow2_norm. lia.
  - change (2 ^ 0) with 1 in *. rewrite Z.div_1_r in *.
    set (st := div_loop _ _ _ _ _) in *. clearbody st. rewrite Ho, Hq.
    destruct (_ <=? _) eqn:E; [done|]. cbn [throw_if mbind result_bind]. b2p.
    rewrite Z.mod_small; [done|]. split; [|done].
    apply Z.div_pos; [subst N|]; pow2_norm; lia.
Qed.
End division.

(** ** The 256-bit product *)
Lemma split64 a : is_u 128 a →
  a = Z.shiftr a 64 * 2 ^ 64 + wrap 64 a ∧
  is_u 64 (Z.shiftr a 64) ∧ is_u 64 (wrap 64 a).
Proof.
  intros Ha. rewrite Z.shiftr_div_pow2 by lia. unfold wrap.
  pose proof (Z.div_mod a (2 ^ 64)). pose proof (Z.mod_pos_bound a (2 ^ 64)).
  pow2_norm. split_and!; try lia.
Qed.

(** A 128-bit addition with its carry. *)
Lemma add_carry x y : is_u 128 x → is_u 128 y →
  x + y = wrap 128 (x + y) + 2 ^ 128 * (if fits_u 128 (x + y) then 0 else 1) ∧
  fits_u 128 (x + y) = negb (wrap 128 (x + y) <? x).
Proof.
  intros Hx Hy. destruct (fits_u 128 (x + y)) eqn:E.
  - apply fits_u_spec in E. rewrite wrap_small by done. split; [lia|].
    symmetry. apply negb_true_iff, Z.ltb_ge. pow2_norm. lia.
  - assert (wrap 128 (x + y) = x + y - 2 ^ 128) as ->.
    { unfold fits_u in E. symmetry. apply Z.mod_unique with 1; b2p; pow2_norm; lia. }
    split; [lia|]. symmetry. apply negb_false_iff, Z.ltb_lt. pow2_norm. lia.
Qed.

(** The carry arithmetic alone, over the partial products [ll], [lh], [hl], [hh]. *)
Lemma carry_sum ll lh hl hh :
  is_u 128 ll → is_u 128 lh → is_u 128 hl → is_u 128 hh →
  hh * 2 ^ 128 + (lh + hl) * 2 ^ 64 + ll < 2 ^ 128 * 2 ^ 128 →
  let mid := wrap 128 (lh + hl) in
  let mid_lo := wrap 128 (Z.shiftl mid 64) in
  let mid_hi := Z.shiftr mid 64 in
  let lo := wrap 128 (ll + mid_lo) in
  let c1 := if negb (fits_u 128 (ll + mid_lo)) then 1 else 0 in
  let mid_carry := if mid <? lh then Z.shiftl 1 64 else 0 in
  let hi := hh + mid_hi + c1 + mid_carry in
  hi * 2 ^ 128 + lo = hh * 2 ^ 128 + (lh + hl) * 2 ^ 64 + ll ∧ is_u 128 hi ∧
  is_u 128 lo ∧ 0 ≤ mid_hi ∧ 0 ≤ c1 ∧ 0 ≤ mid_carry.
Proof.
  intros Hll Hlh Hhl Hhh Hlt mid mid_lo mid_hi lo c1 mid_carry hi.
  destruct (add_carry lh hl Hlh Hhl) as [Hmid Hmidc]. fold mid in Hmid, Hmidc.
  assert (is_u 128 mid) as Hmidu by (apply wrap_is_u; lia).
  destruct (split64 mid Hmidu) as (Em & Hmh & Hml). fold mid_hi in Em, Hmh.
  assert (mid_lo = wrap 64 mid * 2 ^ 64) as Emlo.
  { subst mid_lo. rewrite Z.shiftl_mul_pow2 by lia. unfold wrap.
    change (2 ^ 128) with (2 ^ 64 * 2 ^ 64). by rewrite Z.mul_mod_distr_r by lia. }
  assert (is_u 128 mid_lo) as Hmlu by (rewrite Emlo; pow2_norm; lia).
  destruct (add_carry ll mid_lo Hll Hmlu) as [Hlo _]. fold lo in Hlo.
  assert (is_u 128 lo) as Hlou by (apply wrap_is_u; lia).
  assert (0 ≤ c1 ≤ 1 ∧ ll + mid_lo = lo + 2 ^ 128 * c1) as [Hc1 Hlo'].
  { subst c1. destruct (fits_u _ (ll + mid_lo)); cbn [negb]; lia. }
  assert (0 ≤ mid_carry ∧ (lh + hl) * 2 ^ 64 = mid * 2 ^ 64 + 2 ^ 128 * mid_carry)
    as [Hmc Hmid'].
  { subst mid_carry. rewrite Hmid, Hmidc. change (Z.shiftl 1 64) with (2 ^ 64).
    destruct (mid <? lh); cbn [negb]; pow2_norm; lia. }
  clearbody mid_lo lo mid_hi mid_carry c1. subst hi.
  split_and!; pow2_norm; lia.
Qed.

Lemma mul_bound w x y : is_u w x → is_u w y → 0 ≤ x * y < 2 ^ w * 2 ^ w.
Proof. intros [??] [??]. split; [lia|]. by apply Z.mul_lt_mono_nonneg. Qed.

Lemma wide_mul_spec a b : is_u 128 a → is_u 128 b →
  ∃ hi lo, wide_mul a b = Ok (hi, lo) ∧ hi * 2 ^ 128 + lo = a * b ∧
           is_u 128 hi ∧ is_u 128 lo.
Proof.
  intros Ha Hb. unfold wide_mul.
  destruct (split64 a Ha) as (Ea & Hah & Hal), (split64 b Hb) as (Eb & Hbh & Hbl).
  set (ah := Z.shiftr a 64) in *. set (al := wrap 64 a) in *.
  set (bh := Z.shiftr b 64) in *. set (bl := wrap 64 b) in *.
  assert (a * b = ah * bh * 2 ^ 128 + (al * bh + ah * bl) * 2 ^ 64 + al * bl) as Eab.
  { rewrite Ea, Eb. change (2 ^ 128) with (2 ^ 64 * 2 ^ 64). ring. }
  assert (∀ x y, is_u 64 x → is_u 64 y → is_u 128 (x * y)) as Hpp
    by apply mul_bound.
  destruct (carry_sum (al * bl) (al * bh) (ah * bl) (ah * bh))
    as (Hsum & Hhi & Hlo & H1 & H2 & H3); [by apply Hpp..| |].
  { rewrite <- Eab. by apply mul_bound. }
  assert (0 ≤ ah * bh) by (by apply Hpp).
  rewrite <- Eab in Hsum. clear Eab.
  set (mid := wrap 128 (al * bh + ah * bl)) in *.
  set (lo := wrap 128 (al * bl + wrap 128 (Z.shiftl mid 64))) in *.
  set (c1 := if negb (fits_u _ _) then 1 else 0) in *.
  set (mc := if mid <? al * bh then _ else 0) in *.
  set (mh := Z.shiftr mid 64) in *. set (hh := ah * bh) in *.
  clearbody c1 mc mh hh lo. exists (hh + mh + c1 + mc), lo.
  rewrite !checked_u_ok by (destruct Hhi; split; lia). simpl.
  rewrite !checked_u_ok by (destruct Hhi; split; lia). simpl.
  rewrite !checked_u_ok by (destruct Hhi; split; lia). done.
Qed.

(** The routine against its specification: the integer quotient when it fits
    in 128 bits, the overflow error otherwise. *)
Lemma mul_div_floor_spec a b c : is_u 128 a → is_u 128 b → is_u 128 c →
  mul_div_floor_u128 a b c =
  if (c =? 0) || (2 ^ 128 <=? a * b / c) then Err SolendComputeOverflow
  else Ok (a * b / c).
Proof.
  intros Ha Hb Hc. unfold mul_div_floor_u128.
  destruct (c =? 0) eqn:Ec; cbn [orb]; [done|]. b2p.
  assert (0 < c) by (destruct Hc; lia).
  assert (0 ≤ a * b) by (destruct Ha, Hb; lia).
  destruct (checked_u 128 (a * b)) as [p|] eqn:E.
  - apply checked_u_Some in E as [-> [_ Hp]].
    assert (a * b / c ≤ a * b) by (apply Z.div_le_upper_bound; nia).
    by destruct (_ <=? _) eqn:F; b2p; [lia|].
  - destruct (wide_mul_spec a b Ha Hb) as (hi & lo & -> & Hp & Hhi & Hlo).
    cbn [mbind result_bind].
    rewrite long_divide_spec by (done || lia). by rewrite Hp.
Qed.

(** The 256-bit multiply-divide is exact: for all 128-bit arguments it is
    the integer quotient of the unbounded product when that fits in 128 bits,
    and the overflow error when it does not or the divisor is zero. *)
Theorem mul_div_floor_exact a b c :
  is_u 128 a → is_u 128 b → is_u 128 c →
  mul_div_floor_u128 a b c =
  if (c =? 0) || (2 ^ 128 <=? a * b / c) then Err SolendComputeOverflow
  else Ok (a * b / c).
Proof. apply mul_div_floor_spec. Qed.

(** A product of 188 bits. *)
Lemma mul_div_floor_exact_witness :
  mul_div_floor_u128 (10 ^ 28) (10 ^ 28 + 7) (10 ^ 20 + 9) =
  Ok (10 ^ 28 * (10 ^ 28 + 7) / (10 ^ 20 + 9)).
Proof. apply (mul_div_floor_exact (10 ^ 28) (10 ^ 28 + 7) (10 ^ 20 + 9)); by vm_compute. Defined.
