(* ===== verification/ConditionVerifier.v ===== *)
(** * Condition verifier ([condition_verifier.rs])

    The Pyth price gate, the Solend supply-APR gate and the fold over a rule's
    conditions.  All arithmetic keeps its Rust width: [checked_i 128],
    [checked_u 128], [checked_i 64]. *)
From S2P Require Import Prelude Borsh WideMath.
From Stdlib Require Import QArith Qpower Qround.
#[local] Open Scope Z_scope.

(** ** Constants *)
Definition SOLEND_WAD : Z := 1000000000000000000.
Definition SOLEND_SLOTS_PER_YEAR : Z := 63072000.
Definition BPS_DENOM : Z := 10000.
Definition SUPPORTED_SOLEND_FORMULA_VERSION : Z := 1.
Definition PYTH_MAX_EXPONENT_DIFF : Z := 18.

(** ** Enums *)
Inductive Comparison := Lt | Lte | Gt | Gte.
Inductive BoundMode := AdverseLowerForGt | AdverseUpperForLt | Midpoint.
Inductive RateKind := Apr | Apy.
Inductive VerificationLevel := Full.
Inductive ConditionLogic := All | Any.
#[export] Instance comparison_eq_dec : EqDecision Comparison.
Proof. solve_decision. Defined.

Definition apply_i128 (cmp : Comparison) (lhs rhs : Z) : bool :=
  match cmp with
  | Lt => lhs <? rhs
  | Lte => lhs <=? rhs
  | Gt => rhs <? lhs
  | Gte => rhs <=? lhs
  end.

Definition apply_u128 (cmp : Comparison) (lhs rhs : Z) : bool :=
  match cmp with
  | Lt => lhs <? rhs
  | Lte => lhs <=? rhs
  | Gt => rhs <? lhs
  | Gte => rhs <=? lhs
  end.

(** ** Conditions and snapshots *)
Record PythPriceCondition := MkPythCond {
  pc_feed_id : list byte;
  pc_comparison : Comparison;
  pc_threshold_mantissa : Z;
  pc_threshold_exponent : Z;
  pc_max_age_seconds : Z;
  pc_max_confidence_bps : Z;
  pc_verification_level_required : VerificationLevel;
  pc_bound_mode : BoundMode
}.

Record PythPriceSnapshot := MkPythSnap {
  ps_feed_id : list byte;
  ps_price_mantissa : Z;
  ps_price_exponent : Z;
  ps_conf : Z;
  ps_publish_time : Z;
  ps_verification_level : VerificationLevel
}.

Record PythVerificationContext := MkPythCtx { current_unix_time : Z }.

Record SolendSupplyAprCondition := MkSolendCond {
  sc_comparison : Comparison;
  sc_threshold_bps : Z;
  sc_rate_kind : RateKind;
  sc_formula_version : Z;
  sc_max_reserve_staleness_slots : Z
}.

Record SolendReserveSnapshot := MkReserve {
  available_amount : Z;
  borrowed_amount_wads : Z;
  min_borrow_rate_pct : Z;
  optimal_borrow_rate_pct : Z;
  max_borrow_rate_pct : Z;
  super_max_borrow_rate_pct : Z;
  optimal_utilization_rate_pct : Z;
  max_utilization_rate_pct : Z;
  protocol_take_rate_pct : Z;
  last_update_slot : Z;
  stale_flag : bool
}.

Record SolendVerificationContext := MkSolendCtx { current_slot : Z }.

(** ** Pyth *)

(** [pow10_i128]: [for _ in 0..n]. *)
Fixpoint pow10_i128_loop (n : nat) (acc : Z) : VRes Z :=
  match n with
  | O => Ok acc
  | S n => acc ← ok_or (checked_i 128 (acc * 10)) PythComputeOverflow;
           pow10_i128_loop n acc
  end.
Definition pow10_i128 (n : Z) : VRes Z := pow10_i128_loop (Z.to_nat n) 1.

(** Gate 4: does the bound mode agree with the comparison? *)
Definition bound_direction_ok (cmp : Comparison) (mode : BoundMode) : bool :=
  match cmp, mode with
  | (Gt | Gte), AdverseLowerForGt => true
  | (Lt | Lte), AdverseUpperForLt => true
  | _, Midpoint => true
  | _, _ => false
  end.

(** Gate 6, first half: the price moved against the trigger by [conf]. *)
Definition adverse_bound (mode : BoundMode) (price conf : Z) : VRes Z :=
  match mode with
  | AdverseLowerForGt => ok_or (checked_i 128 (price - conf)) PythComputeOverflow
  | AdverseUpperForLt => ok_or (checked_i 128 (price + conf)) PythComputeOverflow
  | Midpoint => Ok price
  end.

(** Gate 6, second half: both sides brought to the smaller exponent. *)
Definition normalise_exponents (bound price_exponent threshold threshold_exponent : Z) :
    VRes (Z * Z) :=
  diff ← ok_or (checked_i 64 (price_exponent - threshold_exponent)) PythComputeOverflow;
  _ ← throw_if (negb ((- PYTH_MAX_EXPONENT_DIFF <=? diff) &&
                      (diff <=? PYTH_MAX_EXPONENT_DIFF))) PythExponentOutOfRange;
  match diff ?= 0 with
  | Eq => Ok (bound, threshold)
  | Datatypes.Gt =>
      m ← pow10_i128 diff;
      lhs ← ok_or (checked_i 128 (bound * m)) PythComputeOverflow;
      Ok (lhs, threshold)
  | Datatypes.Lt =>
      m ← pow10_i128 (- diff);
      rhs ← ok_or (checked_i 128 (threshold * m)) PythComputeOverflow;
      Ok (bound, rhs)
  end.

Definition verify_pyth_price_condition (condition : PythPriceCondition)
    (snapshot : PythPriceSnapshot) (context : PythVerificationContext) : VRes bool :=
  _ ← throw_if (bool_decide (ps_feed_id snapshot ≠ pc_feed_id condition))
        PythFeedIdMismatch;
  _ ← match ps_verification_level snapshot, pc_verification_level_required condition with
      | Full, Full => Ok tt
      end;
  age_secs ← ok_or (checked_i 128 (current_unix_time context - ps_publish_time snapshot))
               PythComputeOverflow;
  _ ← throw_if ((age_secs <? 0) || (pc_max_age_seconds condition <? age_secs))
        PythPriceTooOld;
  _ ← throw_if (negb (bound_direction_ok (pc_comparison condition) (pc_bound_mode condition)))
        BoundDirectionMismatch;
  price_abs_u128 ← ok_or (n ← checked_i 128 (Z.abs (ps_price_mantissa snapshot));
                          checked_u 128 n) PythComputeOverflow;
  _ ← throw_if (price_abs_u128 =? 0) PythConfidenceTooWide;
  conf_bps_num ← ok_or (checked_u 128 (ps_conf snapshot * BPS_DENOM)) PythComputeOverflow;
  _ ← throw_if (pc_max_confidence_bps condition <? conf_bps_num / price_abs_u128)
        PythConfidenceTooWide;
  bound ← adverse_bound (pc_bound_mode condition) (ps_price_mantissa snapshot)
            (ps_conf snapshot);
  '(lhs, rhs) ← normalise_exponents bound (ps_price_exponent snapshot)
                  (pc_threshold_mantissa condition) (pc_threshold_exponent condition);
  Ok (apply_i128 (pc_comparison condition) lhs rhs).

(** ** Solend *)
Definition pct_to_wad (pct : Z) : VRes Z :=
  ok_or (checked_u 128 (pct * 10 ^ 16)) SolendComputeOverflow.
Definition pct_to_wad_u64_super_max (pct : Z) : VRes Z := pct_to_wad pct.

Definition mul_wad (a b : Z) : VRes Z := mul_div_floor_u128 a b SOLEND_WAD.
Definition div_wad (a b : Z) : VRes Z :=
  if b =? 0 then Err SolendComputeOverflow else mul_div_floor_u128 a SOLEND_WAD b.

(** [a.checked_sub(b).ok_or(SolendComputeOverflow)] and the like *)
Definition wad_sub (a b : Z) : VRes Z :=
  ok_or (checked_u 128 (a - b)) SolendComputeOverflow.
Definition wad_add (a b : Z) : VRes Z :=
  ok_or (checked_u 128 (a + b)) SolendComputeOverflow.

Definition is_reserve_config_valid (s : SolendReserveSnapshot) : bool :=
  ((min_borrow_rate_pct s <=? optimal_borrow_rate_pct s) &&
   (optimal_borrow_rate_pct s <=? max_borrow_rate_pct s) &&
   (max_borrow_rate_pct s <=? super_max_borrow_rate_pct s)) &&
  ((optimal_utilization_rate_pct s <=? max_utilization_rate_pct s) &&
   (max_utilization_rate_pct s <=? 100)) &&
  (protocol_take_rate_pct s <=? 100).

Definition utilization_wad (s : SolendReserveSnapshot) : VRes Z :=
  if borrowed_amount_wads s =? 0 then Ok 0 else
  available_wads ← ok_or (checked_u 128 (available_amount s * SOLEND_WAD))
                     SolendComputeOverflow;
  denom ← wad_add (borrowed_amount_wads s) available_wads;
  if denom =? 0 then Ok 0 else div_wad (borrowed_amount_wads s) denom.

(** Region 1: from [min_borrow_rate] to [optimal_borrow_rate]. *)
Definition borrow_rate_region1 (s : SolendReserveSnapshot)
    (utilisation optimal_util : Z) : VRes Z :=
  min_rate ← pct_to_wad (min_borrow_rate_pct s);
  if optimal_util =? 0 then Ok min_rate else
  normalised ← div_wad utilisation optimal_util;
  opt_minus_min ← ok_or (checked_u 64 (optimal_borrow_rate_pct s - min_borrow_rate_pct s))
                    SolendComputeOverflow;
  rate_range ← pct_to_wad opt_minus_min;
  scaled ← mul_wad normalised rate_range;
  wad_add scaled min_rate.

(** Region 2: from [optimal_borrow_rate] to [max_borrow_rate]. *)
Definition borrow_rate_region2 (s : SolendReserveSnapshot)
    (utilisation optimal_util max_util : Z) : VRes Z :=
  weight_num ← wad_sub utilisation optimal_util;
  weight_den ← wad_sub max_util optimal_util;
  if weight_den =? 0 then pct_to_wad (optimal_borrow_rate_pct s) else
  weight ← div_wad weight_num weight_den;
  optimal_rate ← pct_to_wad (optimal_borrow_rate_pct s);
  max_rate ← pct_to_wad (max_borrow_rate_pct s);
  rate_range ← wad_sub max_rate optimal_rate;
  scaled ← mul_wad weight rate_range;
  wad_add scaled optimal_rate.

(** Region 3: from [max_borrow_rate] to [super_max_borrow_rate]. *)
Definition borrow_rate_region3 (s : SolendReserveSnapshot)
    (utilisation max_util : Z) : VRes Z :=
  weight_num ← wad_sub utilisation max_util;
  weight_den ← wad_sub SOLEND_WAD max_util;
  if weight_den =? 0 then pct_to_wad_u64_super_max (super_max_borrow_rate_pct s) else
  weight ← div_wad weight_num weight_den;
  max_rate ← pct_to_wad (max_borrow_rate_pct s);
  super_max_rate ← pct_to_wad_u64_super_max (super_max_borrow_rate_pct s);
  rate_range ← wad_sub super_max_rate max_rate;
  scaled ← mul_wad weight rate_range;
  wad_add scaled max_rate.

Definition current_borrow_rate_wad (s : SolendReserveSnapshot) : VRes Z :=
  utilisation ← utilization_wad s;
  optimal_util ← pct_to_wad (optimal_utilization_rate_pct s);
  max_util ← pct_to_wad (max_utilization_rate_pct s);
  if utilisation <=? optimal_util then borrow_rate_region1 s utilisation optimal_util
  else if utilisation <=? max_util then
    borrow_rate_region2 s utilisation optimal_util max_util
  else borrow_rate_region3 s utilisation max_util.

Definition supply_apr_wad (s : SolendReserveSnapshot) : VRes Z :=
  if negb (is_reserve_config_valid s) then Err SolendInvalidReserveConfig else
  utilisation ← utilization_wad s;
  borrow_rate ← current_borrow_rate_wad s;
  take_rate ← pct_to_wad (protocol_take_rate_pct s);
  one_minus_take ← wad_sub SOLEND_WAD take_rate;
  inner ← mul_wad utilisation one_minus_take;
  mul_wad borrow_rate inner.

Definition verify_solend_supply_apr_condition (condition : SolendSupplyAprCondition)
    (snapshot : SolendReserveSnapshot) (context : SolendVerificationContext) : VRes bool :=
  _ ← throw_if (bool_decide (sc_formula_version condition ≠ SUPPORTED_SOLEND_FORMULA_VERSION))
        SolendFormulaVersionUnsupported;
  _ ← match sc_rate_kind condition with
      | Apr => Ok tt
      | Apy => Err UnsupportedRateKind
      end;
  _ ← throw_if (negb (is_reserve_config_valid snapshot)) SolendInvalidReserveConfig;
  age ← ok_or (checked_u 64 (current_slot context - last_update_slot snapshot))
          SolendReserveStale;
  _ ← throw_if ((sc_max_reserve_staleness_slots condition <? age) || stale_flag snapshot)
        SolendReserveStale;
  apr ← supply_apr_wad snapshot;
  threshold_wad ← ok_or (checked_u 128 (sc_threshold_bps condition * 10 ^ 14))
                    SolendThresholdOverflow;
  Ok (apply_u128 (sc_comparison condition) apr threshold_wad).

(** ** Top-level evaluator *)
Inductive EvalCondition :=
| EvalCPyth (c : PythPriceCondition)
| EvalCSolend (c : SolendSupplyAprCondition).

Inductive EvalSnapshot :=
| EvalSPyth (s : PythPriceSnapshot) (ctx : PythVerificationContext)
| EvalSSolend (s : SolendReserveSnapshot) (ctx : SolendVerificationContext).

Definition evaluate_condition (condition : EvalCondition) (snapshot : EvalSnapshot) :
    VRes bool :=
  match condition, snapshot with
  | EvalCPyth c, EvalSPyth s ctx => verify_pyth_price_condition c s ctx
  | EvalCSolend c, EvalSSolend s ctx => verify_solend_supply_apr_condition c s ctx
  | EvalCPyth _, EvalSSolend _ _ | EvalCSolend _, EvalSPyth _ _ =>
      Err UnsupportedComparison
  end.

Definition evaluate_condition_logic (logic : ConditionLogic) (results : list bool) : bool :=
  match logic with
  | All => forallb id results
  | Any => existsb id results
  end.

(** ** Wire shapes *)
Definition comparison_ord (c : Comparison) : Z :=
  match c with Lt => 0 | Lte => 1 | Gt => 2 | Gte => 3 end.
Definition comparison_of_ord (z : Z) : option Comparison :=
  match z with 0 => Some Lt | 1 => Some Lte | 2 => Some Gt | 3 => Some Gte | _ => None end.
Definition bound_mode_ord (m : BoundMode) : Z :=
  match m with AdverseLowerForGt => 0 | AdverseUpperForLt => 1 | Midpoint => 2 end.
Definition bound_mode_of_ord (z : Z) : option BoundMode :=
  match z with
  | 0 => Some AdverseLowerForGt | 1 => Some AdverseUpperForLt | 2 => Some Midpoint
  | _ => None
  end.
Definition rate_kind_ord (k : RateKind) : Z := match k with Apr => 0 | Apy => 1 end.
Definition rate_kind_of_ord (z : Z) : option RateKind :=
  match z with 0 => Some Apr | 1 => Some Apy | _ => None end.
Definition verification_level_of_ord (z : Z) : option VerificationLevel :=
  match z with 0 => Some Full | _ => None end.
Definition condition_logic_ord (l : ConditionLogic) : Z := match l with All => 0 | Any => 1 end.
Definition condition_logic_of_ord (z : Z) : option ConditionLogic :=
  match z with 0 => Some All | 1 => Some Any | _ => None end.

#[export] Instance borsh_comparison : Borsh Comparison.
Proof. refine (c_enum comparison_ord comparison_of_ord _ _ _); solve_enum. Defined.
#[export] Instance borsh_bound_mode : Borsh BoundMode.
Proof. refine (c_enum bound_mode_ord bound_mode_of_ord _ _ _); solve_enum. Defined.
#[export] Instance borsh_rate_kind : Borsh RateKind.
Proof. refine (c_enum rate_kind_ord rate_kind_of_ord _ _ _); solve_enum. Defined.
#[export] Instance borsh_verification_level : Borsh VerificationLevel.
Proof. refine (c_enum (λ _, 0) verification_level_of_ord _ _ _); solve_enum. Defined.
#[export] Instance borsh_condition_logic : Borsh ConditionLogic.
Proof. refine (c_enum condition_logic_ord condition_logic_of_ord _ _ _); solve_enum. Defined.

#[export] Instance borsh_pyth_condition : Borsh PythPriceCondition.
Proof.
  refine (c_iso
    (λ '(f, (c, (m, (e, (a, (b, (v, d))))))), MkPythCond f c m e a b v d)
    (λ p, (pc_feed_id p, (pc_comparison p, (pc_threshold_mantissa p,
      (pc_threshold_exponent p, (pc_max_age_seconds p, (pc_max_confidence_bps p,
      (pc_verification_level_required p, pc_bound_mode p)))))))) _ _
    (c_pair (c_array 32) (c_pair (borsh Comparison) (c_pair c_i64 (c_pair c_i32
      (c_pair c_u32 (c_pair c_u16 (c_pair (borsh VerificationLevel)
        (borsh BoundMode)))))))));
  [by intros []|by intros (?&?&?&?&?&?&?&?)].
Defined.

#[export] Instance borsh_pyth_snapshot : Borsh PythPriceSnapshot.
Proof.
  refine (c_iso
    (λ '(f, (p, (e, (c, (t, v))))), MkPythSnap f p e c t v)
    (λ s, (ps_feed_id s, (ps_price_mantissa s, (ps_price_exponent s, (ps_conf s,
      (ps_publish_time s, ps_verification_level s)))))) _ _
    (c_pair (c_array 32) (c_pair c_i64 (c_pair c_i32 (c_pair c_u64 (c_pair c_i64
      (borsh VerificationLevel)))))));
  [by intros []|by intros (?&?&?&?&?&?)].
Defined.

#[export] Instance borsh_pyth_context : Borsh PythVerificationContext.
Proof.
  refine (c_iso MkPythCtx current_unix_time _ _ c_i64); [by intros []|done].
Defined.

#[export] Instance borsh_solend_condition : Borsh SolendSupplyAprCondition.
Proof.
  refine (c_iso
    (λ '(c, (t, (r, (f, m)))), MkSolendCond c t r f m)
    (λ s, (sc_comparison s, (sc_threshold_bps s, (sc_rate_kind s,
      (sc_formula_version s, sc_max_reserve_staleness_slots s))))) _ _
    (c_pair (borsh Comparison) (c_pair c_u32 (c_pair (borsh RateKind)
      (c_pair c_u8 c_u32)))));
  [by intros []|by intros (?&?&?&?&?)].
Defined.

#[export] Instance borsh_reserve_snapshot : Borsh SolendReserveSnapshot.
Proof.
  refine (c_iso
    (λ '(a, (b, (r0, (r1, (r2, (r3, (u0, (u1, (t, (l, st)))))))))),
      MkReserve a b r0 r1 r2 r3 u0 u1 t l st)
    (λ s, (available_amount s, (borrowed_amount_wads s, (min_borrow_rate_pct s,
      (optimal_borrow_rate_pct s, (max_borrow_rate_pct s, (super_max_borrow_rate_pct s,
      (optimal_utilization_rate_pct s, (max_utilization_rate_pct s,
      (protocol_take_rate_pct s, (last_update_slot s, stale_flag s))))))))))) _ _
    (c_pair c_u64 (c_pair c_u128 (c_pair c_u8 (c_pair c_u8 (c_pair c_u8 (c_pair c_u64
      (c_pair c_u8 (c_pair c_u8 (c_pair c_u8 (c_pair c_u64 c_bool)))))))))));
  [by intros []|by intros (?&?&?&?&?&?&?&?&?&?&?)].
Defined.

#[export] Instance borsh_solend_context : Borsh SolendVerificationContext.
Proof.
  refine (c_iso MkSolendCtx current_slot _ _ c_u64); [by intros []|done].
Defined.

(** ** Reference semantics of the Pyth gate

    Decimal numbers are rationals: mantissa times a power of ten. *)
Definition decimal (mantissa exponent : Z) : Q :=
  (inject_Z mantissa * Qpower (10 # 1) exponent)%Q.

Definition Qtest (cmp : Comparison) (x y : Q) : bool :=
  match cmp with
  | Lt => negb (Qle_bool y x)
  | Lte => Qle_bool x y
  | Gt => negb (Qle_bool x y)
  | Gte => Qle_bool y x
  end.

(** The price shifted by the confidence interval, against the trigger. *)
Definition adverse_price (mode : BoundMode) (price conf : Z) : Z :=
  match mode with
  | AdverseLowerForGt => price - conf
  | AdverseUpperForLt => price + conf
  | Midpoint => price
  end.

Definition pyth_reference (c : PythPriceCondition) (s : PythPriceSnapshot) (now : Z) :
    VRes bool :=
  let age := now - ps_publish_time s in
  let price := ps_price_mantissa s in
  if decide (ps_feed_id s ≠ pc_feed_id c) then Err PythFeedIdMismatch
  else if decide (¬ (0 ≤ age ≤ pc_max_age_seconds c)) then Err PythPriceTooOld
  else if negb (bound_direction_ok (pc_comparison c) (pc_bound_mode c)) then
    Err BoundDirectionMismatch
  else if decide (price = 0) then Err PythConfidenceTooWide
  else if decide (pc_max_confidence_bps c < ps_conf s * 10000 / Z.abs price) then
    Err PythConfidenceTooWide
  else if decide (18 < Z.abs (ps_price_exponent s - pc_threshold_exponent c)) then
    Err PythExponentOutOfRange
  else Ok (Qtest (pc_comparison c)
             (decimal (adverse_price (pc_bound_mode c) price (ps_conf s))
                      (ps_price_exponent s))
             (decimal (pc_threshold_mantissa c) (pc_threshold_exponent c))).

(** ** Lemmas on the Pyth arithmetic *)
Lemma pow10_i128_loop_ok n acc :
  0 ≤ acc → acc * 10 ^ Z.of_nat n < 2 ^ 127 →
  pow10_i128_loop n acc = Ok (acc * 10 ^ Z.of_nat n).
Proof.
  revert acc. induction n as [|n IH]; intros acc H0 H; cbn [pow10_i128_loop].
  - f_equal. lia.
  - rewrite Nat2Z.inj_succ, Z.pow_succ_r in * by lia.
    assert (1 ≤ 10 ^ Z.of_nat n) by (apply Z.pow_le_mono_r with (b := 0); lia).
    rewrite checked_i_ok by (unfold is_i; pow2_norm; nia). cbn [ok_or mbind result_bind].
    rewrite IH by lia. f_equal. lia.
Qed.

Lemma pow10_i128_ok n : 0 ≤ n ≤ 18 → pow10_i128 n = Ok (10 ^ n).
Proof.
  intros Hn. unfold pow10_i128. rewrite pow10_i128_loop_ok.
  - rewrite Z2Nat.id by lia. f_equal. lia.
  - lia.
  - rewrite Z2Nat.id by lia.
    assert (10 ^ n ≤ 10 ^ 18) by (apply Z.pow_le_mono_r; lia).
    change (10 ^ 18) with 1000000000000000000 in *. pow2_norm. lia.
Qed.

Lemma Qpower_10_pos e : (0 < Qpower (10 # 1) e)%Q.
Proof. by apply Qpower_0_lt. Qed.

(** Multiplying a mantissa by [10^d] lowers the exponent by [d]. *)
Lemma decimal_shift m e d : 0 ≤ d → (decimal m (e + d) == decimal (m * 10 ^ d) e)%Q.
Proof.
  intros Hd. unfold decimal. rewrite Qpower_plus by done.
  rewrite inject_Z_mult, Zpower_Qpower by done.
  change (inject_Z 10) with (10 # 1). ring.
Qed.

(** At equal exponents the comparison is the comparison of the mantissas. *)
Lemma Qtest_decimal cmp a b e :
  Qtest cmp (decimal a e) (decimal b e) = apply_i128 cmp a b.
Proof.
  assert (∀ x y, Qle_bool (decimal x e) (decimal y e) = (x <=? y)) as Hle.
  { intros x y. apply eq_bool_prop_intro. rewrite !Is_true_true, Qle_bool_iff, Z.leb_le.
    unfold decimal. rewrite Qmult_le_r by apply Qpower_10_pos. by rewrite <- Zle_Qle. }
  destruct cmp; simpl; rewrite !Hle; rewrite ?Z.ltb_antisym; done.
Qed.

#[export] Instance Qtest_proper cmp : Proper (Qeq ==> Qeq ==> eq) (Qtest cmp).
Proof. intros x x' Hx y y' Hy. destruct cmp; simpl; by rewrite Hx, Hy. Qed.

(** The exponent normalisation succeeds on every in-range input and preserves
    the comparison of the two decimals exactly. *)
Lemma normalise_exponents_spec b pe t te :
  Z.abs b < 2 ^ 65 → is_i 64 t → is_i 32 pe → is_i 32 te →
  if decide (18 < Z.abs (pe - te)) then
    normalise_exponents b pe t te = Err PythExponentOutOfRange
  else ∃ lhs rhs, normalise_exponents b pe t te = Ok (lhs, rhs) ∧
         ∀ cmp, apply_i128 cmp lhs rhs = Qtest cmp (decimal b pe) (decimal t te).
Proof.
  intros Hb Ht Hpe Hte. unfold normalise_exponents, PYTH_MAX_EXPONENT_DIFF.
  rewrite checked_i_ok by (pow2_norm; lia). cbn [ok_or mbind result_bind].
  case_decide as Hd.
  { rewrite throw_if_true; [done|]. b2p. lia. }
  rewrite throw_if_false by (b2p; lia).
  change (2 ^ 65) with 36893488147419103232 in *.
  assert (∀ z d, Z.abs z < 36893488147419103232 → 0 ≤ d ≤ 18 → is_i 128 (z * 10 ^ d))
    as Hmul.
  { intros z d Hz Hd'. assert (1 ≤ 10 ^ d ≤ 10 ^ 18) as Hp by
      (split; [apply (Z.pow_le_mono_r 10 0)|apply Z.pow_le_mono_r]; lia).
    change (10 ^ 18) with 1000000000000000000 in *. unfold is_i. pow2_norm. nia. }
  destruct (Z.compare_spec (pe - te) 0) as [E|E|E].
  - eexists _, _. split; [done|]. intros cmp. replace te with pe by lia.
    by rewrite Qtest_decimal.
  - rewrite pow10_i128_ok by lia. cbn [mbind result_bind].
    rewrite checked_i_ok by (apply Hmul; [pow2_norm|]; lia).
    eexists _, _. split; [done|]. intros cmp.
    replace te with (pe + - (pe - te)) by lia. rewrite decimal_shift by lia.
    rewrite Qtest_decimal. repeat f_equal; lia.
  - rewrite pow10_i128_ok by lia. cbn [mbind result_bind].
    rewrite checked_i_ok by (apply Hmul; lia).
    eexists _, _. split; [done|]. intros cmp.
    replace pe with (te + (pe - te)) by lia. rewrite decimal_shift by lia.
    rewrite Qtest_decimal. repeat f_equal; lia.
Qed.

(** ** C: the Pyth gate equals its reference *)
Lemma pyth_well_typed_ranges c s ctx :
  well_typed c → well_typed s → well_typed ctx →
  is_i 64 (pc_threshold_mantissa c) ∧ is_i 32 (pc_threshold_exponent c) ∧
  is_u 32 (pc_max_age_seconds c) ∧ is_i 64 (ps_price_mantissa s) ∧
  is_i 32 (ps_price_exponent s) ∧ is_u 64 (ps_conf s) ∧
  is_i 64 (ps_publish_time s) ∧ is_i 64 (current_unix_time ctx).
Proof.
  intros (_ & _ & ? & ? & ? & _) (_ & ? & ? & ? & ? & _) ?. by split_and!.
Qed.

(** The Pyth verifier against its reference.  On well-typed inputs the
    fixed-width routine with its checked operations returns exactly what the
    reference computes over the integers and rationals: the same verdict of the
    adverse price against the threshold, or the same error from the same gate;
    no operation overflows unnoticed. *)
Theorem verify_pyth_price_condition_reference c s ctx :
  well_typed c → well_typed s → well_typed ctx →
  verify_pyth_price_condition c s ctx = pyth_reference c s (current_unix_time ctx).
Proof.
  intros Hc Hs Hctx.
  destruct (pyth_well_typed_ranges c s ctx Hc Hs Hctx)
    as (Htm & Hte & Hma & Hpm & Hpe & Hcf & Hpt & Hnow).
  unfold verify_pyth_price_condition, pyth_reference.
  destruct (ps_verification_level s), (pc_verification_level_required c).
  case_decide as Hf; [by rewrite bool_decide_true by exact Hf|].
  rewrite bool_decide_false by (intros Hne; by apply Hne). cbn [throw_if mbind result_bind].
  rewrite (checked_i_ok 128 (current_unix_time ctx - ps_publish_time s))
    by (pow2_norm; lia). cbn [ok_or mbind result_bind].
  case_decide as Ha.
  { rewrite throw_if_true; [done|]. b2p. lia. }
  rewrite throw_if_false by (b2p; lia).
  destruct (bound_direction_ok _ _) eqn:Hdir; cbn [negb throw_if mbind result_bind]; [|done].
  rewrite (checked_i_ok 128 (Z.abs _)) by (pow2_norm; lia). cbn [mbind option_bind].
  rewrite (checked_u_ok 128 (Z.abs _)) by (pow2_norm; lia). cbn [ok_or mbind result_bind].
  case_decide as Hp; [by rewrite Hp|].
  rewrite throw_if_false by (b2p; lia). unfold BPS_DENOM.
  rewrite checked_u_ok by (pow2_norm; lia). cbn [ok_or mbind result_bind].
  case_decide as Hcb; [by rewrite throw_if_true by (b2p; lia)|].
  rewrite throw_if_false by (b2p; lia).
  assert (adverse_bound (pc_bound_mode c) (ps_price_mantissa s) (ps_conf s) =
          Ok (adverse_price (pc_bound_mode c) (ps_price_mantissa s) (ps_conf s))) as ->.
  { destruct (pc_bound_mode c); simpl; [| |done];
      rewrite checked_i_ok by (pow2_norm; lia); done. }
  cbn [mbind result_bind].
  assert (Z.abs (adverse_price (pc_bound_mode c) (ps_price_mantissa s) (ps_conf s))
            < 2 ^ 65) as Hab.
  { change (2 ^ 65) with 36893488147419103232.
    destruct (pc_bound_mode c); simpl; pow2_norm; lia. }
  pose proof (normalise_exponents_spec _ _ _ _ Hab Htm Hpe Hte) as Hn.
  case_decide; [by rewrite Hn|]. destruct Hn as (lhs & rhs & -> & Hcmp).
  cbn [mbind result_bind]. by rewrite Hcmp.
Qed.

(** ** Lemmas on the Solend rate model *)


(** [floor (a * b / c)] when it fits: the case of every rate computation. *)
Lemma mul_div_ok a b c :
  is_u 128 a → is_u 128 b → 0 < c < 2 ^ 128 → a * b < 2 ^ 128 * c →
  mul_div_floor_u128 a b c = Ok (a * b / c).
Proof.
  intros Ha Hb Hc Hab. rewrite mul_div_floor_spec by (unfold is_u in *; lia).
  rewrite (proj2 (Z.eqb_neq c 0)) by lia. cbn [orb].
  rewrite (proj2 (Z.leb_gt _ _)); [done|].
  apply Z.div_lt_upper_bound; lia.
Qed.

(** A fraction [a / b <= 1] as a WAD. *)
Lemma div_wad_fraction a b :
  0 ≤ a ≤ b → 0 < b < 2 ^ 128 →
  div_wad a b = Ok (a * SOLEND_WAD / b) ∧ 0 ≤ a * SOLEND_WAD / b ≤ SOLEND_WAD.
Proof.
  intros Ha Hb. unfold div_wad, SOLEND_WAD in *.
  rewrite (proj2 (Z.eqb_neq b 0)) by lia. pow2_norm. split.
  - apply mul_div_ok; pow2_norm; nia.
  - split; [apply Z.div_pos; lia|]. apply Z.div_le_upper_bound; nia.
Qed.

(** Scaling [r] by a WAD fraction stays within [0..r]. *)
Lemma mul_wad_fraction w r :
  0 ≤ w ≤ SOLEND_WAD → is_u 128 r →
  mul_wad w r = Ok (w * r / SOLEND_WAD) ∧ 0 ≤ w * r / SOLEND_WAD ≤ r.
Proof.
  intros Hw Hr. unfold mul_wad, SOLEND_WAD in *. split.
  - apply mul_div_ok; pow2_norm; nia.
  - destruct Hr. split; [apply Z.div_pos; nia|]. apply Z.div_le_upper_bound; nia.
Qed.

Lemma pct_to_wad_ok p : is_u 64 p → pct_to_wad p = Ok (p * 10 ^ 16).
Proof.
  intros Hp. unfold pct_to_wad. change (10 ^ 16) with 10000000000000000.
  by rewrite checked_u_ok by (pow2_norm; lia).
Qed.

Lemma wad_sub_ok a b : 0 ≤ b ≤ a → a < 2 ^ 128 → wad_sub a b = Ok (a - b).
Proof. intros. unfold wad_sub. by rewrite checked_u_ok by (unfold is_u; lia). Qed.

Lemma wad_add_ok a b : 0 ≤ a + b < 2 ^ 128 → wad_add a b = Ok (a + b).
Proof. intros. unfold wad_add. by rewrite checked_u_ok by (unfold is_u; lia). Qed.

(** The point at [x] of the line through two knots, in WAD and rounded down twice; the
    first knot's value when they have the same place. *)
Definition segment (a b : Z * Z) (x : Z) : Z :=
  a.2 + ((x - a.1) * SOLEND_WAD / (b.1 - a.1)) * (b.2 - a.2) / SOLEND_WAD.

Lemma interpolate w lo hi :
  0 ≤ w ≤ SOLEND_WAD → 0 ≤ lo ≤ hi → hi < 2 ^ 128 →
  (scaled ← mul_wad w (hi - lo); wad_add scaled lo) = Ok (lo + w * (hi - lo) / SOLEND_WAD) ∧
  lo ≤ lo + w * (hi - lo) / SOLEND_WAD ≤ hi.
Proof.
  intros Hw Hlo Hhi. destruct (mul_wad_fraction w (hi - lo)) as [-> ?];
    [done|unfold is_u; lia|].
  cbn [mbind result_bind]. rewrite wad_add_ok by lia. split; [f_equal; lia|lia].
Qed.

(** The ranges of the fields of a reserve snapshot, as its Rust type has them. *)
Record reserve_ranges (s : SolendReserveSnapshot) : Prop := {
  rr_available : is_u 64 (available_amount s);
  rr_borrowed : is_u 128 (borrowed_amount_wads s);
  rr_min : is_u 8 (min_borrow_rate_pct s);
  rr_opt : is_u 8 (optimal_borrow_rate_pct s);
  rr_max : is_u 8 (max_borrow_rate_pct s);
  rr_super : is_u 64 (super_max_borrow_rate_pct s);
  rr_opt_util : is_u 8 (optimal_utilization_rate_pct s);
  rr_max_util : is_u 8 (max_utilization_rate_pct s);
  rr_take : is_u 8 (protocol_take_rate_pct s);
  rr_slot : is_u 64 (last_update_slot s)
}.

Lemma well_typed_reserve s : well_typed s → reserve_ranges s.
Proof. by intros (?&?&?&?&?&?&?&?&?&?&?). Qed.

(** What [is_reserve_config_valid] admits. *)
Lemma is_reserve_config_valid_spec s :
  is_reserve_config_valid s = true ↔
  min_borrow_rate_pct s ≤ optimal_borrow_rate_pct s ≤ max_borrow_rate_pct s ∧
  max_borrow_rate_pct s ≤ super_max_borrow_rate_pct s ∧
  optimal_utilization_rate_pct s ≤ max_utilization_rate_pct s ≤ 100 ∧
  protocol_take_rate_pct s ≤ 100.
Proof. unfold is_reserve_config_valid. b2p. lia. Qed.

(** The pool's total in WAD, the denominator of the utilisation. *)
Definition pool_wads (s : SolendReserveSnapshot) : Z :=
  borrowed_amount_wads s + available_amount s * SOLEND_WAD.

Lemma utilization_wad_spec s : reserve_ranges s →
  if (borrowed_amount_wads s =? 0) then utilization_wad s = Ok 0
  else if 2 ^ 128 <=? pool_wads s then utilization_wad s = Err SolendComputeOverflow
  else utilization_wad s = Ok (borrowed_amount_wads s * SOLEND_WAD / pool_wads s) ∧
       0 ≤ borrowed_amount_wads s * SOLEND_WAD / pool_wads s ≤ SOLEND_WAD.
Proof.
  intros []. unfold utilization_wad, pool_wads, wad_add.
  destruct (_ =? 0) eqn:E0; [done|]. b2p.
  rewrite (checked_u_ok 128 (available_amount s * SOLEND_WAD))
    by (unfold SOLEND_WAD; pow2_norm; lia).
  cbn [ok_or mbind result_bind].
  assert (0 ≤ available_amount s * SOLEND_WAD) by (unfold SOLEND_WAD, is_u in *; lia).
  destruct (2 ^ 128 <=? _) eqn:E1; b2p.
  - by rewrite (proj2 (checked_u_None 128 _)) by (unfold is_u; lia).
  - rewrite (checked_u_ok 128 (_ + _)) by (unfold is_u in *; lia).
    cbn [ok_or mbind result_bind].
    rewrite (proj2 (Z.eqb_neq (_ + _) 0)) by (unfold is_u in *; lia).
    apply div_wad_fraction; unfold is_u in *; lia.
Qed.

Section regions.
Context (s : SolendReserveSnapshot) (Hr : reserve_ranges s).
Context (Hv : is_reserve_config_valid s = true).
Context (u : Z) (Hu : 0 ≤ u ≤ SOLEND_WAD).
Notation pct x := (x s * 10 ^ 16).

Ltac ranges := destruct Hr; apply is_reserve_config_valid_spec in Hv;
  change (10 ^ 16) with 10000000000000000 in *; unfold SOLEND_WAD in *; pow2_norm; lia.

Lemma borrow_rate_region1_bounds : u ≤ pct optimal_utilization_rate_pct →
  let v := segment (0, pct min_borrow_rate_pct)
             (pct optimal_utilization_rate_pct, pct optimal_borrow_rate_pct) u in
  borrow_rate_region1 s u (pct optimal_utilization_rate_pct) = Ok v ∧
  pct min_borrow_rate_pct ≤ v ≤ pct optimal_borrow_rate_pct.
Proof using Hr Hv Hu.
  intros Hle. unfold borrow_rate_region1, segment. cbn [fst snd]. rewrite !Z.sub_0_r.
  rewrite (pct_to_wad_ok (min_borrow_rate_pct s)) by ranges. cbn [mbind result_bind].
  destruct (_ =? 0) eqn:E; b2p.
  { rewrite E, Zdiv_0_r, Z.mul_0_l, Zdiv_0_l, Z.add_0_r. split; [done|ranges]. }
  destruct (div_wad_fraction u (pct optimal_utilization_rate_pct)) as [-> Hw];
    [lia|ranges|].
  cbn [mbind result_bind]. rewrite (checked_u_ok 64) by ranges.
  cbn [ok_or mbind result_bind]. rewrite pct_to_wad_ok by ranges.
  cbn [mbind result_bind].
  rewrite Z.mul_sub_distr_r. apply interpolate; [done|ranges..].
Qed.

Lemma borrow_rate_region2_bounds :
  pct optimal_utilization_rate_pct < u ≤ pct max_utilization_rate_pct →
  let v := segment (pct optimal_utilization_rate_pct, pct optimal_borrow_rate_pct)
             (pct max_utilization_rate_pct, pct max_borrow_rate_pct) u in
  borrow_rate_region2 s u (pct optimal_utilization_rate_pct)
    (pct max_utilization_rate_pct) = Ok v ∧
  pct optimal_borrow_rate_pct ≤ v ≤ pct max_borrow_rate_pct.
Proof using Hr Hv Hu.
  intros Hle. unfold borrow_rate_region2, segment. cbn [fst snd].
  rewrite !wad_sub_ok by ranges. cbn [mbind result_bind].
  rewrite (proj2 (Z.eqb_neq _ 0)) by lia.
  edestruct div_wad_fraction as [-> Hw]; [| |cbn [mbind result_bind]]; [lia|ranges|].
  rewrite !pct_to_wad_ok by ranges. cbn [mbind result_bind].
  rewrite wad_sub_ok by ranges. cbn [mbind result_bind].
  apply interpolate; [done|ranges..].
Qed.

Lemma borrow_rate_region3_bounds : pct max_utilization_rate_pct < u →
  let v := segment (pct max_utilization_rate_pct, pct max_borrow_rate_pct)
             (SOLEND_WAD, pct super_max_borrow_rate_pct) u in
  borrow_rate_region3 s u (pct max_utilization_rate_pct) = Ok v ∧
  pct max_borrow_rate_pct ≤ v ≤ pct super_max_borrow_rate_pct.
Proof using Hr Hv Hu.
  intros Hle. unfold borrow_rate_region3, pct_to_wad_u64_super_max, segment. cbn [fst snd].
  rewrite !wad_sub_ok by ranges. cbn [mbind result_bind].
  rewrite (proj2 (Z.eqb_neq _ 0)) by lia.
  edestruct div_wad_fraction as [-> Hw]; [| |cbn [mbind result_bind]]; [lia|ranges|].
  rewrite !pct_to_wad_ok by ranges. cbn [mbind result_bind].
  rewrite wad_sub_ok by ranges. cbn [mbind result_bind].
  apply interpolate; [done|ranges..].
Qed.
End regions.

(** The borrow rate lies between the two corner rates of the utilisation's
    region: never below [min], never above [super_max]. *)
Definition region_bounds (s : SolendReserveSnapshot) (u : Z) : Z * Z :=
  if u <=? optimal_utilization_rate_pct s * 10 ^ 16 then
    (min_borrow_rate_pct s, optimal_borrow_rate_pct s)
  else if u <=? max_utilization_rate_pct s * 10 ^ 16 then
    (optimal_borrow_rate_pct s, max_borrow_rate_pct s)
  else (max_borrow_rate_pct s, super_max_borrow_rate_pct s).

(** The rate at a utilisation: the segment of the region it falls in. *)
Definition region_rate (s : SolendReserveSnapshot) (u : Z) : Z :=
  let start := (0, min_borrow_rate_pct s * 10 ^ 16) in
  let optimal := (optimal_utilization_rate_pct s * 10 ^ 16, optimal_borrow_rate_pct s * 10 ^ 16) in
  let max := (max_utilization_rate_pct s * 10 ^ 16, max_borrow_rate_pct s * 10 ^ 16) in
  if u <=? optimal.1 then segment start optimal u
  else if u <=? max.1 then segment optimal max u
  else segment max (SOLEND_WAD, super_max_borrow_rate_pct s * 10 ^ 16) u.

Lemma borrow_rate_in_region s u :
  reserve_ranges s → is_reserve_config_valid s = true →
  utilization_wad s = Ok u → 0 ≤ u ≤ SOLEND_WAD →
  current_borrow_rate_wad s = Ok (region_rate s u) ∧
  (region_bounds s u).1 * 10 ^ 16 ≤ region_rate s u ≤ (region_bounds s u).2 * 10 ^ 16.
Proof.
  intros Hr Hv Hu Hrange. unfold current_borrow_rate_wad, region_bounds, region_rate. rewrite Hu.
  cbn [mbind result_bind].
  rewrite !pct_to_wad_ok by (destruct Hr; pow2_norm; lia). cbn [mbind result_bind fst].
  destruct (u <=? _) eqn:E1; [|destruct (u <=? _) eqn:E2 in |- *]; b2p; simpl fst; simpl snd.
  - by apply borrow_rate_region1_bounds.
  - by apply borrow_rate_region2_bounds.
  - by apply borrow_rate_region3_bounds.
Qed.

(** The supply APR as a formula over the utilisation and the borrow rate. *)
Definition supply_apr_formula (s : SolendReserveSnapshot) (u r : Z) : Z :=
  r * (u * ((100 - protocol_take_rate_pct s) * 10 ^ 16) / SOLEND_WAD) / SOLEND_WAD.

(** The one arithmetic failure of the rate model: debt and deposits together
    exceed 128 bits of WAD. *)
Definition pool_overflows (s : SolendReserveSnapshot) : bool :=
  negb (borrowed_amount_wads s =? 0) && (2 ^ 128 <=? pool_wads s).

Lemma utilization_wad_cases s : reserve_ranges s →
  if pool_overflows s then utilization_wad s = Err SolendComputeOverflow
  else ∃ u, utilization_wad s = Ok u ∧ 0 ≤ u ≤ SOLEND_WAD.
Proof.
  intros Hr. pose proof (utilization_wad_spec s Hr) as H. unfold pool_overflows.
  destruct (_ =? 0); [exists 0; unfold SOLEND_WAD; split; [done|lia]|].
  cbn [negb andb]. destruct (_ <=? _); [done|]. destruct H. eauto.
Qed.

Lemma supply_apr_wad_cases s : reserve_ranges s → is_reserve_config_valid s = true →
  if pool_overflows s then supply_apr_wad s = Err SolendComputeOverflow
  else ∃ u, let r := region_rate s u in
         utilization_wad s = Ok u ∧ current_borrow_rate_wad s = Ok r ∧
         supply_apr_wad s = Ok (supply_apr_formula s u r) ∧
         0 ≤ u ≤ SOLEND_WAD ∧ 0 ≤ supply_apr_formula s u r ≤ r ∧
         r ≤ super_max_borrow_rate_pct s * 10 ^ 16.
Proof.
  intros Hr Hv. unfold supply_apr_wad. rewrite Hv. cbn [negb].
  pose proof (utilization_wad_cases s Hr) as Hu.
  destruct (pool_overflows s); [by rewrite Hu|]. destruct Hu as (u & Hu & Hrange).
  destruct (borrow_rate_in_region s u Hr Hv Hu Hrange) as (Hrate & Hb). remember (region_rate s u) as r eqn:Hreg.
  assert (0 ≤ r ≤ super_max_borrow_rate_pct s * 10 ^ 16 ∧ is_u 128 r) as [Hr0 Hr128].
  { apply is_reserve_config_valid_spec in Hv. destruct Hr. unfold region_bounds in Hb.
    change (10 ^ 16) with 10000000000000000 in *. pow2_norm.
    repeat case_match; simpl in Hb; lia. }
  exists u. cbv zeta. rewrite <- Hreg, Hu, Hrate. cbn [mbind result_bind].
  rewrite pct_to_wad_ok by (destruct Hr; pow2_norm; lia). cbn [mbind result_bind].
  apply is_reserve_config_valid_spec in Hv.
  pose proof (rr_take s Hr) as Ht.
  replace SOLEND_WAD with (100 * 10 ^ 16) at 1 by done.
  rewrite wad_sub_ok by (change (10 ^ 16) with 10000000000000000; pow2_norm; lia).
  cbn [mbind result_bind]. rewrite <- Z.mul_sub_distr_r.
  assert (0 ≤ (100 - protocol_take_rate_pct s) * 10 ^ 16 ≤ SOLEND_WAD) as Hk.
  { unfold SOLEND_WAD. change (10 ^ 16) with 10000000000000000. pow2_norm. lia. }
  unfold supply_apr_formula.
  destruct (mul_wad_fraction u ((100 - protocol_take_rate_pct s) * 10 ^ 16))
    as [-> Hi]; [done|unfold SOLEND_WAD in Hk; pow2_norm; lia|].
  cbn [mbind result_bind]. set (i := u * _ / SOLEND_WAD) in *.
  destruct (mul_wad_fraction i r) as [Hm Hb']; [lia|done|].
  unfold mul_wad in *. rewrite (Z.mul_comm i r) in *.
  split_and!; try done; try lia.
  rewrite mul_div_floor_spec by (unfold SOLEND_WAD in *; pow2_norm; lia).
  change (SOLEND_WAD =? 0) with false. cbn [orb].
  rewrite (proj2 (Z.leb_gt _ _)); [done|pow2_norm; lia].
Qed.

(** On a valid configuration the borrow rate lies between the configured
    rates at the two ends of the utilisation region it falls in. *)
Theorem current_borrow_rate_wad_region s u :
  well_typed s → is_reserve_config_valid s = true → utilization_wad s = Ok u →
  ∃ v, current_borrow_rate_wad s = Ok v ∧
    (region_bounds s u).1 * 10 ^ 16 ≤ v ≤ (region_bounds s u).2 * 10 ^ 16.
Proof.
  intros Hs%well_typed_reserve Hv Hu. exists (region_rate s u). apply borrow_rate_in_region; [done..|].
  pose proof (utilization_wad_cases s Hs) as H.
  destruct (pool_overflows s); [congruence|]. destruct H as (u' & E & ?). congruence.
Qed.

(** The supply rate is total on well-typed reserves: an invalid
    configuration or an overflowing pool gives its error, and every other
    reserve gives the formula's value, at most the borrow rate it derives from,
    with the utilisation between zero and one. *)
Theorem supply_apr_wad_total s :
  well_typed s →
  if negb (is_reserve_config_valid s) then
    supply_apr_wad s = Err SolendInvalidReserveConfig
  else if pool_overflows s then supply_apr_wad s = Err SolendComputeOverflow
  else ∃ u r, utilization_wad s = Ok u ∧ current_borrow_rate_wad s = Ok r ∧
         supply_apr_wad s = Ok (supply_apr_formula s u r) ∧
         0 ≤ u ≤ SOLEND_WAD ∧ 0 ≤ supply_apr_formula s u r ≤ r ∧
         r ≤ super_max_borrow_rate_pct s * 10 ^ 16.
Proof.
  intros Hs%well_typed_reserve. destruct (is_reserve_config_valid s) eqn:Hv; cbn [negb].
  - pose proof (supply_apr_wad_cases s Hs Hv) as H. destruct (pool_overflows s); [done|].
    destruct H as [u H]. by exists u, (region_rate s u).
  - unfold supply_apr_wad. by rewrite Hv.
Qed.

(** ** Reference semantics of the Solend gate

    Over the rationals: how much of the pool is lent out, a borrow rate that is linear
    between the knots of the configuration, and the share of it that suppliers get.
    The program keeps 18 decimals of each product and quotient, rounded down. *)
Section reference.
#[local] Open Scope Q_scope.

Definition round18 (q : Q) : Q := decimal (Qfloor (q * inject_Z SOLEND_WAD)) (-18).
Definition percent (p : Z) : Q := decimal p (-2).

(** The line through two knots, at [x]. *)
Definition line (a b : Q * Q) (x : Q) : Q :=
  a.2 + round18 (round18 ((x - a.1) / (b.1 - a.1)) * (b.2 - a.2)).
(** Between the last knot before [x] and the next one. *)
Fixpoint kinked (a : Q * Q) (knots : list (Q * Q)) (x : Q) : Q :=
  match knots with
  | [] => a.2
  | b :: knots => if Qle_bool x b.1 then line a b x else kinked b knots x
  end.

Definition reference_utilization (s : SolendReserveSnapshot) : Q :=
  let borrowed := decimal (borrowed_amount_wads s) (-18) in
  round18 (borrowed / (borrowed + inject_Z (available_amount s))).
Definition reference_borrow_rate (s : SolendReserveSnapshot) : Q → Q :=
  kinked (0, percent (min_borrow_rate_pct s))
    [(percent (optimal_utilization_rate_pct s), percent (optimal_borrow_rate_pct s));
     (percent (max_utilization_rate_pct s), percent (max_borrow_rate_pct s));
     (1, percent (super_max_borrow_rate_pct s))].
Definition reference_supply_rate (s : SolendReserveSnapshot) : Q :=
  let u := reference_utilization s in
  round18 (reference_borrow_rate s u * round18 (u * (1 - percent (protocol_take_rate_pct s)))).
End reference.

(** The rates rise from knot to knot, and none is out of range. *)
Definition admissible_config (s : SolendReserveSnapshot) : Prop :=
  min_borrow_rate_pct s ≤ optimal_borrow_rate_pct s ≤ max_borrow_rate_pct s ∧
  max_borrow_rate_pct s ≤ super_max_borrow_rate_pct s ∧
  optimal_utilization_rate_pct s ≤ max_utilization_rate_pct s ≤ 100 ∧
  protocol_take_rate_pct s ≤ 100.
#[export] Instance admissible_config_dec s : Decision (admissible_config s).
Proof. unfold admissible_config. apply _. Defined.

(** The rate and the threshold, in basis points, are compared as rationals. *)
Definition solend_reference (c : SolendSupplyAprCondition) (s : SolendReserveSnapshot)
    (now : Z) : VRes bool :=
  let age := now - last_update_slot s in
  if decide (sc_formula_version c ≠ 1) then Err SolendFormulaVersionUnsupported
  else match sc_rate_kind c with
  | Apy => Err UnsupportedRateKind
  | Apr =>
      if decide (¬ admissible_config s) then Err SolendInvalidReserveConfig
      else if decide (¬ (0 ≤ age ≤ sc_max_reserve_staleness_slots c)) then
        Err SolendReserveStale
      else if stale_flag s then Err SolendReserveStale
      else if pool_overflows s then Err SolendComputeOverflow
      else Ok (Qtest (sc_comparison c) (reference_supply_rate s)
                 (decimal (sc_threshold_bps c) (-4)))
  end.

(** *** The routine's fixed-point numbers *)
Notation wads z := (decimal z (-18)).

#[export] Instance round18_proper : Proper (Qeq ==> Qeq) round18.
Proof. intros x y Hxy. unfold round18. by rewrite Hxy. Qed.
Lemma wads_inject z : (wads z == inject_Z z / inject_Z SOLEND_WAD)%Q.
Proof. unfold decimal, Qdiv. by apply Qmult_comp. Qed.
Lemma wad_nonzero : ¬ (inject_Z SOLEND_WAD == 0)%Q.
Proof. done. Qed.
Lemma wads_add a b : (wads a + wads b == wads (a + b))%Q.
Proof. unfold decimal. rewrite inject_Z_plus. ring. Qed.
Lemma wads_sub a b : (wads a - wads b == wads (a - b))%Q.
Proof. unfold decimal, Z.sub. rewrite inject_Z_plus, inject_Z_opp. ring. Qed.
Lemma wads_percent p : (percent p == wads (p * 10 ^ 16))%Q.
Proof. unfold percent. change (-2) with (-18 + 16). by apply decimal_shift. Qed.
Lemma wads_whole a : (inject_Z a == wads (a * SOLEND_WAD))%Q.
Proof. rewrite wads_inject, inject_Z_mult. field. apply wad_nonzero. Qed.
Lemma wads_le a b : Qle_bool (wads a) (wads b) = (a <=? b).
Proof. apply (Qtest_decimal Lte). Qed.

Lemma round18_mul a b : (round18 (wads a * wads b) == wads (a * b / SOLEND_WAD))%Q.
Proof.
  unfold round18. rewrite !wads_inject.
  assert (inject_Z a / inject_Z SOLEND_WAD * (inject_Z b / inject_Z SOLEND_WAD) * inject_Z SOLEND_WAD ==
    inject_Z (a * b) / inject_Z SOLEND_WAD)%Q as ->
    by (rewrite inject_Z_mult; field; apply wad_nonzero).
  by rewrite <- Zdiv_Qdiv.
Qed.
Lemma round18_div a b : (round18 (wads a / wads b) == wads (a * SOLEND_WAD / b))%Q.
Proof.
  unfold round18. rewrite !wads_inject. destruct (decide (b = 0)) as [->|Hb].
  { assert (inject_Z a / inject_Z SOLEND_WAD / (inject_Z 0 / inject_Z SOLEND_WAD) * inject_Z SOLEND_WAD ==
      0)%Q as -> by (unfold Qdiv at 1; change (/ (inject_Z 0 / inject_Z SOLEND_WAD))%Q with 0%Q; ring).
    by rewrite Zdiv_0_r. }
  assert (¬ (inject_Z b == 0)%Q) by (intros Hb'; by apply Hb, inject_Z_injective).
  assert (inject_Z a / inject_Z SOLEND_WAD / (inject_Z b / inject_Z SOLEND_WAD) * inject_Z SOLEND_WAD ==
    inject_Z (a * SOLEND_WAD) / inject_Z b)%Q as ->
    by (rewrite inject_Z_mult; field; by split; [|apply wad_nonzero]).
  by rewrite <- Zdiv_Qdiv.
Qed.

#[local] Opaque decimal round18 Qfloor.
#[export] Instance line_proper : Proper (prod_relation Qeq Qeq ==> prod_relation Qeq Qeq ==> Qeq ==> Qeq) line.
Proof. intros a a' [Ha1 Ha2] b b' [Hb1 Hb2] x x' Hx. unfold line. by rewrite Ha1, Ha2, Hb1, Hb2, Hx. Qed.
Lemma line_segment a b x :
  (line (wads a.1, wads a.2) (wads b.1, wads b.2) (wads x) == wads (segment a b x))%Q.
Proof.
  unfold line, segment. cbn [fst snd].
  by rewrite 3!wads_sub, round18_div, round18_mul, wads_add.
Qed.

Lemma utilization_reference s u : reserve_ranges s → pool_overflows s = false →
  utilization_wad s = Ok u → (reference_utilization s == wads u)%Q.
Proof.
  intros Hr Hp Hu. pose proof (utilization_wad_spec s Hr) as Hs. unfold pool_overflows in Hp.
  unfold reference_utilization. rewrite wads_whole, wads_add, round18_div.
  destruct (_ =? 0) eqn:Hz.
  - apply Z.eqb_eq in Hz. rewrite Hs in Hu. injection Hu as <-. by rewrite Hz, Z.mul_0_l, Zdiv_0_l.
  - cbn [negb andb] in Hp. rewrite Hp in Hs. destruct Hs as [Hs _]. rewrite Hs in Hu. by injection Hu as <-.
Qed.

(** A knot, a rational and its fixed-point number. *)
Definition at_knot (a : Q * Q) (z : Z * Z) : Prop := (a.1 == wads z.1)%Q ∧ (a.2 == wads z.2)%Q.
Lemma kinked_step a b knots a' b' q x r : at_knot a a' → at_knot b b' → (q == wads x)%Q →
  (b'.1 < x → (kinked b knots q == wads r)%Q) →
  (kinked a (b :: knots) q == wads (if (x <=? b'.1)%Z then segment a' b' x else r))%Q.
Proof.
  intros [Ha1 Ha2] [Hb1 Hb2] Hq Hr. cbn [kinked].
  assert (Qle_bool q b.1 = (x <=? b'.1)) as -> by by rewrite Hq, Hb1, wads_le.
  destruct (Z.leb_spec x b'.1); [|by apply Hr]. rewrite <- line_segment. by apply line_proper.
Qed.

Lemma borrow_rate_reference s q u : (q == wads u)%Q → u ≤ SOLEND_WAD →
  (reference_borrow_rate s q == wads (region_rate s u))%Q.
Proof.
  intros Hq Hu.
  assert (∀ c r, at_knot (percent c, percent r) (c * 10 ^ 16, r * 10 ^ 16)) as Hk
    by by split; apply wads_percent.
  apply kinked_step; [by split; [apply (wads_whole 0)|apply wads_percent]|done|done|intros _].
  apply kinked_step; [done..|intros _].
  etransitivity; [eapply (kinked_step _ _ _ _ (SOLEND_WAD, _) _ u 0); [done| |done|cbn; lia]|].
  - split; [apply (wads_whole 1)|apply wads_percent].
  - cbn [fst]. by rewrite (proj2 (Z.leb_le _ _) Hu).
Qed.

Lemma supply_rate_reference s u : reserve_ranges s → pool_overflows s = false →
  utilization_wad s = Ok u → u ≤ SOLEND_WAD →
  (reference_supply_rate s == wads (supply_apr_formula s u (region_rate s u)))%Q.
Proof.
  intros Hr Hp Hu Hle. pose proof (utilization_reference _ _ Hr Hp Hu) as Hq.
  unfold reference_supply_rate, supply_apr_formula. rewrite (borrow_rate_reference _ _ _ Hq Hle), Hq.
  assert (1 - percent (protocol_take_rate_pct s) == wads ((100 - protocol_take_rate_pct s) * 10 ^ 16))%Q as ->.
  { rewrite wads_percent, (wads_whole 1), wads_sub, Z.mul_sub_distr_r.
    change (1 * SOLEND_WAD) with (100 * 10 ^ 16). apply Qeq_refl. }
  rewrite 2!round18_mul. apply Qeq_refl.
Qed.

Lemma well_typed_solend_gate c ctx :
  well_typed c → well_typed ctx →
  is_u 32 (sc_threshold_bps c) ∧ is_u 32 (sc_max_reserve_staleness_slots c) ∧
  is_u 64 (current_slot ctx).
Proof. intros (_&?&?&_&?) ?. by split_and!. Qed.

Lemma apply_u128_i128 cmp a b : apply_u128 cmp a b = apply_i128 cmp a b.
Proof. done. Qed.

(** C39: the Solend verifier against its reference: on well-typed inputs the
    128-bit routine returns exactly the reference's verdict, or the same error of the
    first gate that fails.  The reference computes with fractions, independently of the
    routine: the share of the supply that is borrowed, the borrow rate as the line
    through the configured knots that surround it, and of both and the protocol's take
    the supply rate, rounded down to 18 decimals where a wad is stored, against the
    threshold in basis points. *)
Theorem verify_solend_supply_apr_condition_reference c s ctx :
  well_typed c → well_typed s → well_typed ctx →
  verify_solend_supply_apr_condition c s ctx = solend_reference c s (current_slot ctx).
Proof.
  intros Hc Hs%well_typed_reserve Hctx.
  destruct (well_typed_solend_gate c ctx Hc Hctx) as (Htb & Hms & Hnow).
  unfold verify_solend_supply_apr_condition, solend_reference,
    SUPPORTED_SOLEND_FORMULA_VERSION.
  case_decide as Hver; [by rewrite bool_decide_true by exact Hver|].
  rewrite bool_decide_false by (intros Hne; by apply Hne). cbn [throw_if mbind result_bind].
  destruct (sc_rate_kind c); [|done].
  assert (is_reserve_config_valid s = true ↔ admissible_config s) as Hcfg by apply is_reserve_config_valid_spec.
  destruct (is_reserve_config_valid s) eqn:Hv.
  2: { by rewrite decide_True by (by intros ?%Hcfg). }
  rewrite decide_False by (intros Hn; by apply Hn, Hcfg). cbn [negb throw_if mbind result_bind].
  pose proof (rr_slot s Hs) as Hslot.
  case_decide as Hage.
  { unfold checked_u. destruct (fits_u 64 _) eqn:Ef; [|done]. cbn [ok_or mbind result_bind].
    rewrite throw_if_true; [done|]. apply fits_u_spec in Ef. b2p. pow2_norm. lia. }
  rewrite (checked_u_ok 64) by (pow2_norm; lia). cbn [ok_or mbind result_bind].
  rewrite (proj2 (Z.ltb_ge _ _)) by lia. cbn [orb].
  destruct (stale_flag s); cbn [throw_if mbind result_bind]; [done|].
  pose proof (supply_apr_wad_cases s Hs Hv) as Happ.
  destruct (pool_overflows s) eqn:Hp; [by rewrite Happ|].
  destruct Happ as (u & Hu & _ & Hsupply & [_ Hle] & _). cbn zeta in Hsupply. rewrite Hsupply. cbn [mbind result_bind].
  rewrite checked_u_ok by (change (10 ^ 14) with 100000000000000; pow2_norm; lia).
  cbn [ok_or mbind result_bind]. rewrite apply_u128_i128, (supply_rate_reference _ _ Hs Hp Hu Hle).
  change (-4) with (-18 + 14). by rewrite decimal_shift, Qtest_decimal.
Qed.

(** ** The gates on concrete inputs *)
Definition demo_pyth_condition : PythPriceCondition :=
  MkPythCond (replicate 32 Byte.x07) Gte 15000 (-2) 60 100 Full AdverseLowerForGt.
Definition demo_pyth_snapshot : PythPriceSnapshot :=
  MkPythSnap (replicate 32 Byte.x07) 15100000000 (-8) 5000000 1700000000 Full.
Definition demo_pyth_context : PythVerificationContext := MkPythCtx 1700000030.

Lemma verify_pyth_price_condition_reference_witness :
  verify_pyth_price_condition demo_pyth_condition demo_pyth_snapshot demo_pyth_context =
    pyth_reference demo_pyth_condition demo_pyth_snapshot 1700000030 ∧
  verify_pyth_price_condition demo_pyth_condition demo_pyth_snapshot demo_pyth_context =
    Ok true.
Proof.
  split; [|by vm_compute].
  apply verify_pyth_price_condition_reference;
    repeat split; try done; try (vm_compute; by intros).
Defined.

Definition demo_reserve : SolendReserveSnapshot :=
  MkReserve 2000000 (8000000 * SOLEND_WAD) 0 10 30 150 70 90 10 250000000 false.
Definition demo_solend_condition : SolendSupplyAprCondition :=
  MkSolendCond Gte 500 Apr 1 50.
Definition demo_solend_context : SolendVerificationContext := MkSolendCtx 250000010.

Lemma demo_reserve_well_typed : well_typed demo_reserve.
Proof. by repeat split; vm_compute. Qed.

Lemma current_borrow_rate_wad_region_witness :
  utilization_wad demo_reserve = Ok 800000000000000000 ∧
  ∃ v, current_borrow_rate_wad demo_reserve = Ok v ∧
    10 * 10 ^ 16 ≤ v ≤ 30 * 10 ^ 16.
Proof.
  split; [by vm_compute|].
  apply (current_borrow_rate_wad_region demo_reserve 800000000000000000);
    [apply demo_reserve_well_typed|by vm_compute..].
Defined.

Lemma supply_apr_wad_total_witness :
  ∃ u r, utilization_wad demo_reserve = Ok u ∧ current_borrow_rate_wad demo_reserve = Ok r ∧
    supply_apr_wad demo_reserve = Ok (supply_apr_formula demo_reserve u r) ∧
    0 ≤ u ≤ SOLEND_WAD ∧ 0 ≤ supply_apr_formula demo_reserve u r ≤ r ∧
    r ≤ 150 * 10 ^ 16.
Proof. exact (supply_apr_wad_total demo_reserve demo_reserve_well_typed). Defined.

Lemma verify_solend_supply_apr_condition_reference_witness :
  verify_solend_supply_apr_condition demo_solend_condition demo_reserve
    demo_solend_context = solend_reference demo_solend_condition demo_reserve 250000010 ∧
  verify_solend_supply_apr_condition demo_solend_condition demo_reserve
    demo_solend_context = Ok true.
Proof.
  split; [|by vm_compute].
  apply verify_solend_supply_apr_condition_reference;
    [by repeat split; vm_compute|apply demo_reserve_well_typed|by repeat split; vm_compute].
Defined.
