(* ===== verification/Records.v ===== *)
(** * On-chain records ([clawsol-authority/src/state.rs])

    The authorization record stored in the authorization PDA, its action-type
    discriminator, its Borsh layout and the address it lives at
    ([derive_authorization_pda] of [lib.rs]). *)
From S2P Require Import Prelude Borsh Solana.

Definition STAGE2_AUTHORITY_SCHEMA_VERSION : Z := 1.

Inductive Stage2ActionType := SolendWithdrawAllDelegated | JupiterBuySolWithUsdc.
#[export] Instance action_type_eq_dec : EqDecision Stage2ActionType.
Proof. solve_decision. Defined.

Definition to_u8 (a : Stage2ActionType) : Z :=
  match a with SolendWithdrawAllDelegated => 1 | JupiterBuySolWithUsdc => 2 end.

Definition from_u8 (value : Z) : option Stage2ActionType :=
  match value with
  | 1 => Some SolendWithdrawAllDelegated
  | 2 => Some JupiterBuySolWithUsdc
  | _ => None
  end.

Record AuthorizationRecord := MkRecord {
  schema_version : Z;
  rule_id : list byte;
  user : Pubkey;
  executor : Pubkey;
  delegated_wallet : Pubkey;
  canonical_rule_hash : list byte;
  allowed_action_type : Z;
  max_input_amount_raw : Z;
  used_amount_raw : Z;
  destination : Pubkey;
  expires_at_slot : Z;
  revoked : bool;
  completed : bool;
  execution_nonce : Z;
  last_execution_slot : Z;
  bump : Z
}.
#[export] Instance record_eq_dec : EqDecision AuthorizationRecord.
Proof. solve_decision. Defined.

#[export] Instance borsh_record : Borsh AuthorizationRecord.
Proof.
  refine (c_iso
    (λ '(v, (i, (u, (e, (w, (h, (a, (m, (us, (d, (x, (r, (c, (n, (l, b))))))))))))))),
      MkRecord v i u e w h a m us d x r c n l b)
    (λ r, (schema_version r, (rule_id r, (user r, (executor r, (delegated_wallet r,
      (canonical_rule_hash r, (allowed_action_type r, (max_input_amount_raw r,
      (used_amount_raw r, (destination r, (expires_at_slot r, (revoked r, (completed r,
      (execution_nonce r, (last_execution_slot r, bump r)))))))))))))))) _ _
    (c_pair c_u8 (c_pair (c_array 16) (c_pair c_pubkey (c_pair c_pubkey (c_pair c_pubkey
      (c_pair (c_array 32) (c_pair c_u8 (c_pair c_u64 (c_pair c_u64 (c_pair c_pubkey
      (c_pair c_u64 (c_pair c_bool (c_pair c_bool (c_pair c_u64
        (c_pair c_u64 c_u8))))))))))))))));
  [by intros []|by intros (?&?&?&?&?&?&?&?&?&?&?&?&?&?&?&?)].
Defined.

(** [AuthorizationRecord::LEN], as the sum the source writes. *)
Definition RECORD_LEN : nat :=
  1 + 16 + 32 + 32 + 32 + 32 + 1 + 8 + 8 + 32 + 8 + 1 + 1 + 8 + 8 + 1.

(** Updates the processors make. *)
Definition set_revoked (b : bool) (r : AuthorizationRecord) : AuthorizationRecord :=
  MkRecord (schema_version r) (rule_id r) (user r) (executor r) (delegated_wallet r)
    (canonical_rule_hash r) (allowed_action_type r) (max_input_amount_raw r)
    (used_amount_raw r) (destination r) (expires_at_slot r) b (completed r)
    (execution_nonce r) (last_execution_slot r) (bump r).

(** [used_amount_raw = used; completed = true; execution_nonce = nonce;
    last_execution_slot = slot] of [process_execute_action]. *)
Definition set_executed (used nonce slot : Z) (r : AuthorizationRecord) :
    AuthorizationRecord :=
  MkRecord (schema_version r) (rule_id r) (user r) (executor r) (delegated_wallet r)
    (canonical_rule_hash r) (allowed_action_type r) (max_input_amount_raw r)
    used (destination r) (expires_at_slot r) (revoked r) true
    nonce slot (bump r).

(** The type invariant, field by field. *)
Record record_ranges (r : AuthorizationRecord) : Prop := {
  r_schema : is_u 8 (schema_version r);
  r_rule_id : length (rule_id r) = 16%nat;
  r_user : length (user r) = 32%nat;
  r_executor : length (executor r) = 32%nat;
  r_wallet : length (delegated_wallet r) = 32%nat;
  r_hash : length (canonical_rule_hash r) = 32%nat;
  r_action : is_u 8 (allowed_action_type r);
  r_max : is_u 64 (max_input_amount_raw r);
  r_used : is_u 64 (used_amount_raw r);
  r_destination : length (destination r) = 32%nat;
  r_expires : is_u 64 (expires_at_slot r);
  r_nonce : is_u 64 (execution_nonce r);
  r_last : is_u 64 (last_execution_slot r);
  r_bump : is_u 8 (bump r)
}.

Lemma well_typed_record r : well_typed r ↔ record_ranges r.
Proof.
  split.
  - by intros (?&?&?&?&?&?&?&?&?&?&?&_&_&?&?&?).
  - intros []. by repeat (split; [done|]).
Qed.

Lemma record_fixed_len : FixedLen (borsh AuthorizationRecord) RECORD_LEN.
Proof. solve_fixed_len. Qed.

Lemma length_record (r : AuthorizationRecord) : well_typed r → length (to_vec r) = RECORD_LEN.
Proof. apply record_fixed_len. Qed.

Lemma from_u8_Some z a : from_u8 z = Some a ↔ z = to_u8 a.
Proof.
  split.
  - unfold from_u8. repeat case_match; naive_solver.
  - intros ->. by destruct a.
Qed.

(** [AuthorizationRecord::try_from_slice(&account.data.borrow())
      .map_err(|_| InvalidAccountData)?] *)
Definition load_record (k : Pubkey) : M AuthorizationRecord :=
  a ← get_account k; lift (ok_or (try_from_slice (data a)) InvalidAccountData).

(** The record stored at an address. *)
Definition record_at (b : Bank) (k : Pubkey) (r : AuthorizationRecord) : Prop :=
  data (acct b k) = to_vec r ∧ well_typed r.

Lemma load_record_Ok k w r w' :
  load_record k w = Ok (r, w') ↔ record_at (w_bank w) k r ∧ w' = w.
Proof.
  unfold load_record, record_at. rewrite bindM_Ok. unfold get_account. split.
  - intros (a & w1 & [= <- <-] & H). apply liftM_Ok in H as [H ->].
    apply ok_or_Ok, try_from_slice_Some in H. done.
  - intros [H ->]. eexists _, _. split; [done|]. apply liftM_Ok. split; [|done].
    by apply ok_or_Ok, try_from_slice_Some.
Qed.

Lemma record_at_inj b k r1 r2 : record_at b k r1 → record_at b k r2 → r1 = r2.
Proof. intros [H1 ?] [H2 ?]. apply to_vec_inj; congruence. Qed.

(** The PDA of an authorization: [b"authz"], schema version, user, rule id. *)
Section pda.
Context (rt : Runtime).

Definition authorization_seeds (schema : Z) (usr : Pubkey) (rid : list byte) :
    list (list byte) :=
  [String.list_byte_of_string "authz"; [byte_of schema]; usr; rid].

Definition derive_authorization_pda (program_id : Pubkey) (schema : Z)
    (usr : Pubkey) (rid : list byte) : Pubkey * Z :=
  find_program_address rt (authorization_seeds schema usr rid) program_id.
End pda.

(** The record's wire layout: 221 bytes, every field recovered, and no
    other buffer (shorter, longer or with a flag byte that is no boolean)
    decodes. *)
Theorem record_layout bs (r : AuthorizationRecord) :
  try_from_slice bs = Some r ↔ bs = to_vec r ∧ well_typed r ∧ length bs = 221%nat.
Proof.
  rewrite try_from_slice_Some. split; [|naive_solver].
  intros [-> Ht]. split_and!; [done..|by apply length_record].
Qed.
