(* ===== verification/AccountDecode.v ===== *)
(** * Live-account decoders ([solend_account_decode.rs])

    Byte-offset decoders of the Solend Obligation and Reserve prefixes and of
    the SPL token account, the gates applied to a decoded account, and the
    theorems that each decoder inverts the packed layout it is written for. *)
From S2P Require Import Prelude Borsh Solana Errors Records.

(** ** Pinned constants *)
Definition SOLEND_PROGRAM_ID_MAINNET : Pubkey :=
  Eval vm_compute in pubkey "So1endDq2YkqhipRh3WViPa8hdiSpxWy6z3Z6tMCpAo".
Definition SPL_TOKEN_PROGRAM_ID : Pubkey :=
  Eval vm_compute in pubkey "TokenkegQfeZyiNwAJbNbGKPFXCWuBvf9Ss623VQ5DA".

Definition SOLEND_OBLIGATION_LEN : nat := 1300.
Definition SOLEND_RESERVE_LEN : nat := 619.
Definition SOLEND_STALE_AFTER_SLOTS_ELAPSED : Z := 1.
Definition SPL_TOKEN_ACCOUNT_LEN : nat := 165.
Definition SOLEND_SUPPORTED_VERSION : Z := 1.

Definition OBLIGATION_OFFSET_VERSION : nat := 0.
Definition OBLIGATION_OFFSET_LAST_UPDATE_SLOT : nat := 1.
Definition OBLIGATION_OFFSET_LAST_UPDATE_STALE : nat := 9.
Definition OBLIGATION_OFFSET_LENDING_MARKET : nat := 10.
Definition OBLIGATION_OFFSET_OWNER : nat := 42.
Definition RESERVE_OFFSET_VERSION : nat := 0.
Definition RESERVE_OFFSET_LAST_UPDATE_SLOT : nat := 1.
Definition RESERVE_OFFSET_LAST_UPDATE_STALE : nat := 9.
Definition RESERVE_OFFSET_LENDING_MARKET : nat := 10.
Definition SPL_TOKEN_OFFSET_MINT : nat := 0.
Definition SPL_TOKEN_OFFSET_OWNER : nat := 32.
Definition SPL_TOKEN_OFFSET_AMOUNT : nat := 64.

(** ** Decoded views *)
Record DecodedSolendObligation := MkObligation {
  ob_version : Z;
  ob_last_update_slot : Z;
  ob_last_update_stale : bool;
  ob_lending_market : Pubkey;
  ob_owner : Pubkey
}.

Record DecodedSolendReserve := MkDecodedReserve {
  rs_version : Z;
  rs_last_update_slot : Z;
  rs_last_update_stale : bool;
  rs_lending_market : Pubkey
}.

Record DecodedSplTokenAccountLite := MkTokenAccount {
  ta_mint : Pubkey;
  ta_owner : Pubkey;
  ta_amount : Z
}.

(** ** Safe byte readers *)

(** [data.get(offset..offset + n)] *)
Definition get_range (bs : list byte) (offset n : nat) : option (list byte) :=
  if decide (offset + n ≤ length bs)%nat then Some (take n (drop offset bs)) else None.

Definition read_u8 (bs : list byte) (offset : nat) : Res Z :=
  b ← ok_or (bs !! offset) (authority_into SolendAccountDataTooShort); Ok (byte_val b).
Definition read_u64_le (bs : list byte) (offset : nat) : Res Z :=
  arr ← ok_or (get_range bs offset 8) (authority_into SolendAccountDataTooShort);
  Ok (from_le arr).
Definition read_bool (bs : list byte) (offset : nat) : Res bool :=
  b ← read_u8 bs offset; Ok (negb (b =? 0)).
Definition read_pubkey (bs : list byte) (offset : nat) : Res Pubkey :=
  ok_or (get_range bs offset 32) (authority_into SolendAccountDataTooShort).

(** ** Pure byte decoders *)
Definition decode_obligation (bs : list byte) : Res DecodedSolendObligation :=
  _ ← throw_if (length bs <? SOLEND_OBLIGATION_LEN)%nat
        (authority_into SolendAccountDataTooShort);
  version ← read_u8 bs OBLIGATION_OFFSET_VERSION;
  _ ← throw_if (negb (version =? SOLEND_SUPPORTED_VERSION))
        (authority_into SolendUnsupportedObligationVersion);
  last_update_slot ← read_u64_le bs OBLIGATION_OFFSET_LAST_UPDATE_SLOT;
  last_update_stale ← read_bool bs OBLIGATION_OFFSET_LAST_UPDATE_STALE;
  lending_market ← read_pubkey bs OBLIGATION_OFFSET_LENDING_MARKET;
  own ← read_pubkey bs OBLIGATION_OFFSET_OWNER;
  Ok (MkObligation version last_update_slot last_update_stale lending_market own).

Definition decode_reserve (bs : list byte) : Res DecodedSolendReserve :=
  _ ← throw_if (length bs <? SOLEND_RESERVE_LEN)%nat
        (authority_into SolendAccountDataTooShort);
  version ← read_u8 bs RESERVE_OFFSET_VERSION;
  _ ← throw_if (negb (version =? SOLEND_SUPPORTED_VERSION))
        (authority_into SolendUnsupportedReserveVersion);
  last_update_slot ← read_u64_le bs RESERVE_OFFSET_LAST_UPDATE_SLOT;
  last_update_stale ← read_bool bs RESERVE_OFFSET_LAST_UPDATE_STALE;
  lending_market ← read_pubkey bs RESERVE_OFFSET_LENDING_MARKET;
  Ok (MkDecodedReserve version last_update_slot last_update_stale lending_market).

Definition decode_spl_token_account_lite (bs : list byte) :
    Res DecodedSplTokenAccountLite :=
  _ ← throw_if (negb (length bs =? SPL_TOKEN_ACCOUNT_LEN)%nat)
        (authority_into SolendTokenAccountInvalidLength);
  mint ← read_pubkey bs SPL_TOKEN_OFFSET_MINT;
  own ← read_pubkey bs SPL_TOKEN_OFFSET_OWNER;
  amount ← read_u64_le bs SPL_TOKEN_OFFSET_AMOUNT;
  Ok (MkTokenAccount mint own amount).

(** ** Boundary helpers (post-decode) *)
Definition require_obligation_owned_by_delegated_wallet
    (decoded : DecodedSolendObligation) (record : AuthorizationRecord) : Res unit :=
  _ ← throw_if (bool_decide (ob_owner decoded = user record))
        (authority_into SolendMainWalletObligationRejected);
  throw_if (bool_decide (ob_owner decoded ≠ delegated_wallet record))
    (authority_into SolendObligationAuthorityMismatch).

Definition require_obligation_lending_market (decoded : DecodedSolendObligation)
    (expected : Pubkey) : Res unit :=
  throw_if (bool_decide (ob_lending_market decoded ≠ expected))
    (authority_into SolendObligationLendingMarketMismatch).

Definition require_reserve_lending_market (decoded : DecodedSolendReserve)
    (expected : Pubkey) : Res unit :=
  throw_if (bool_decide (rs_lending_market decoded ≠ expected))
    (authority_into SolendReserveLendingMarketMismatch).

Definition require_reserve_not_stale (decoded : DecodedSolendReserve)
    (current_slot : Z) : Res unit :=
  _ ← throw_if (rs_last_update_stale decoded) (authority_into SolendReserveStale);
  elapsed ← ok_or (checked_u 64 (current_slot - rs_last_update_slot decoded))
              (authority_into SolendReserveStale);
  throw_if (SOLEND_STALE_AFTER_SLOTS_ELAPSED <? elapsed)
    (authority_into SolendReserveStale).

Definition require_reserve_same_slot (decoded : DecodedSolendReserve)
    (current_slot : Z) : Res unit :=
  throw_if (negb (rs_last_update_slot decoded =? current_slot))
    (authority_into SolendLastUpdateSlotMismatch).

Definition require_spl_token_mint (decoded : DecodedSplTokenAccountLite)
    (expected_mint : Pubkey) : Res unit :=
  throw_if (bool_decide (ta_mint decoded ≠ expected_mint))
    (authority_into SolendTokenAccountMintMismatch).

Definition require_spl_token_authority (decoded : DecodedSplTokenAccountLite)
    (expected_authority : Pubkey) : Res unit :=
  throw_if (bool_decide (ta_owner decoded ≠ expected_authority))
    (authority_into SolendTokenAccountAuthorityMismatch).

(** ** Reads and layouts *)
Lemma get_range_app pre mid post off n :
  length pre = off → length mid = n → get_range (pre ++ mid ++ post) off n = Some mid.
Proof.
  intros <- <-. unfold get_range. rewrite decide_True by (rewrite !length_app; lia).
  by rewrite drop_app_length, take_app_length.
Qed.

Lemma get_range_ok bs off n : (off + n ≤ length bs)%nat →
  get_range bs off n = Some (take n (drop off bs)).
Proof. intros. unfold get_range. by rewrite decide_True. Qed.

(** Cut the next [n] bytes off a suffix. *)
Lemma drop_cut (bs : list byte) off n :
  drop off bs = take n (drop off bs) ++ drop (off + n) bs.
Proof. rewrite <- drop_drop. by rewrite take_drop. Qed.

Lemma length_take_drop (bs : list byte) off n :
  (off + n ≤ length bs)%nat → length (take n (drop off bs)) = n.
Proof. intros. rewrite length_take, length_drop. lia. Qed.

Lemma read_pubkey_app pre mid post off :
  length pre = off → length mid = 32%nat →
  read_pubkey (pre ++ mid ++ post) off = Ok mid.
Proof. intros. unfold read_pubkey. by rewrite get_range_app. Qed.

Lemma read_u64_le_app pre mid post off :
  length pre = off → length mid = 8%nat →
  read_u64_le (pre ++ mid ++ post) off = Ok (from_le mid).
Proof. intros. unfold read_u64_le. by rewrite get_range_app. Qed.

Lemma read_u8_app pre b post off :
  length pre = off → read_u8 (pre ++ [b] ++ post) off = Ok (byte_val b).
Proof.
  intros <-. unfold read_u8. by rewrite lookup_app_r, Nat.sub_diag by lia.
Qed.

Lemma read_bool_app pre b post off :
  length pre = off → read_bool (pre ++ [b] ++ post) off = Ok (negb (byte_val b =? 0)).
Proof. intros. unfold read_bool. by rewrite read_u8_app. Qed.

Lemma read_pubkey_Ok bs off k :
  read_pubkey bs off = Ok k → k = take 32 (drop off bs) ∧ length k = 32%nat.
Proof.
  unfold read_pubkey, get_range. case_decide; [|done]. intros [= <-].
  split; [done|]. by apply length_take_drop.
Qed.

Lemma read_u64_le_Ok bs off z :
  read_u64_le bs off = Ok z → z = from_le (take 8 (drop off bs)) ∧ is_u 64 z.
Proof.
  unfold read_u64_le, get_range. case_decide; [|done]. intros [= <-].
  split; [done|]. change 64 with (8 * Z.of_nat 8).
  rewrite <- (length_take_drop bs off 8) at 1 by done. apply from_le_range.
Qed.

(** The packed layouts: the first bytes of each account type. *)
Definition obligation_layout (version : byte) (slot : list byte) (stale : byte)
    (market own tail : list byte) : list byte :=
  [version] ++ slot ++ [stale] ++ market ++ own ++ tail.
Definition reserve_layout (version : byte) (slot : list byte) (stale : byte)
    (market tail : list byte) : list byte :=
  [version] ++ slot ++ [stale] ++ market ++ tail.
Definition token_layout (mint own amount tail : list byte) : list byte :=
  mint ++ own ++ amount ++ tail.

(** Evaluate the next read of a concatenation, from its first pieces. *)
Ltac solve_len := rewrite ?length_app; simpl; lia.

(** Cut [n] bytes off the front. *)
Lemma split_front n (bs : list byte) : (n ≤ length bs)%nat →
  ∃ pre rest, bs = pre ++ rest ∧ length pre = n ∧ length rest = (length bs - n)%nat.
Proof.
  intros. exists (take n bs), (drop n bs).
  rewrite take_drop, length_take, length_drop. split_and!; [done|lia|lia].
Qed.

Lemma split_byte (bs : list byte) : (1 ≤ length bs)%nat →
  ∃ b rest, bs = [b] ++ rest ∧ length rest = (length bs - 1)%nat.
Proof. destruct bs as [|b rest]; simpl; [lia|]. intros. exists b, rest. split; [done|lia]. Qed.

Lemma split_obligation bs : (74 ≤ length bs)%nat →
  ∃ v slot stale market own tail, bs = obligation_layout v slot stale market own tail ∧
    length slot = 8%nat ∧ length market = 32%nat ∧ length own = 32%nat.
Proof.
  intros H.
  destruct (split_byte bs) as (v & r1 & -> & L1); [lia|]. rewrite length_app in *. simpl in *.
  destruct (split_front 8 r1) as (slot & r2 & -> & ? & L2); [lia|].
  destruct (split_byte r2) as (st & r3 & -> & L3); [lia|].
  destruct (split_front 32 r3) as (market & r4 & -> & ? & L4); [lia|].
  destruct (split_front 32 r4) as (own & tail & -> & ? & L5); [lia|].
  by exists v, slot, st, market, own, tail.
Qed.

Lemma split_reserve bs : (42 ≤ length bs)%nat →
  ∃ v slot stale market tail, bs = reserve_layout v slot stale market tail ∧
    length slot = 8%nat ∧ length market = 32%nat.
Proof.
  intros H.
  destruct (split_byte bs) as (v & r1 & -> & L1); [lia|]. rewrite length_app in *. simpl in *.
  destruct (split_front 8 r1) as (slot & r2 & -> & ? & L2); [lia|].
  destruct (split_byte r2) as (st & r3 & -> & L3); [lia|].
  destruct (split_front 32 r3) as (market & tail & -> & ? & L4); [lia|].
  by exists v, slot, st, market, tail.
Qed.

Lemma split_token bs : (72 ≤ length bs)%nat →
  ∃ mint own amount tail, bs = token_layout mint own amount tail ∧
    length mint = 32%nat ∧ length own = 32%nat ∧ length amount = 8%nat.
Proof.
  intros H.
  destruct (split_front 32 bs) as (mint & r1 & -> & ? & L1); [lia|]. rewrite length_app in *.
  destruct (split_front 32 r1) as (own & r2 & -> & ? & L2); [lia|].
  destruct (split_front 8 r2) as (amount & tail & -> & ? & L3); [lia|].
  by exists mint, own, amount, tail.
Qed.

(** What the decoders compute on a packed layout. *)
Lemma decode_obligation_layout v slot stale market own tail :
  length slot = 8%nat → length market = 32%nat → length own = 32%nat →
  decode_obligation (obligation_layout v slot stale market own tail) =
  if (74 + length tail <? 1300)%nat then Err (authority_into SolendAccountDataTooShort)
  else if negb (byte_val v =? 1) then Err (authority_into SolendUnsupportedObligationVersion)
  else Ok (MkObligation (byte_val v) (from_le slot) (negb (byte_val stale =? 0)) market own).
Proof.
  intros H1 H2 H3. unfold decode_obligation, obligation_layout, OBLIGATION_OFFSET_VERSION,
    OBLIGATION_OFFSET_LAST_UPDATE_SLOT, OBLIGATION_OFFSET_LAST_UPDATE_STALE,
    OBLIGATION_OFFSET_LENDING_MARKET, OBLIGATION_OFFSET_OWNER.
  replace (length _) with (74 + length tail)%nat by (rewrite !length_app; simpl; lia).
  change SOLEND_OBLIGATION_LEN with 1300%nat.
  destruct (_ <? _)%nat; [done|]. cbn [throw_if mbind result_bind].
  pose proof (read_u8_app [] v (slot ++ [stale] ++ market ++ own ++ tail) 0 eq_refl) as R0.
  rewrite app_nil_l in R0. rewrite R0.
  pose proof (read_u64_le_app [v] slot ([stale] ++ market ++ own ++ tail) 1 eq_refl H1) as ->.
  pose proof (read_bool_app ([v] ++ slot) stale (market ++ own ++ tail) 9) as R3.
  pose proof (read_pubkey_app ([v] ++ slot ++ [stale]) market (own ++ tail) 10) as R4.
  pose proof (read_pubkey_app ([v] ++ slot ++ [stale] ++ market) own tail 42) as R5.
  repeat rewrite <- app_assoc in R3; repeat rewrite <- app_assoc in R4; repeat rewrite <- app_assoc in R5.
  rewrite R3, R4, R5 by solve_len. cbn [throw_if mbind result_bind].
  unfold SOLEND_SUPPORTED_VERSION. by destruct (byte_val v =? 1).
Qed.

Lemma decode_reserve_layout v slot stale market tail :
  length slot = 8%nat → length market = 32%nat →
  decode_reserve (reserve_layout v slot stale market tail) =
  if (42 + length tail <? 619)%nat then Err (authority_into SolendAccountDataTooShort)
  else if negb (byte_val v =? 1) then Err (authority_into SolendUnsupportedReserveVersion)
  else Ok (MkDecodedReserve (byte_val v) (from_le slot) (negb (byte_val stale =? 0)) market).
Proof.
  intros H1 H2. unfold decode_reserve, reserve_layout, RESERVE_OFFSET_VERSION,
    RESERVE_OFFSET_LAST_UPDATE_SLOT, RESERVE_OFFSET_LAST_UPDATE_STALE,
    RESERVE_OFFSET_LENDING_MARKET.
  replace (length _) with (42 + length tail)%nat by (rewrite !length_app; simpl; lia).
  change SOLEND_RESERVE_LEN with 619%nat.
  destruct (_ <? _)%nat; [done|]. cbn [throw_if mbind result_bind].
  pose proof (read_u8_app [] v (slot ++ [stale] ++ market ++ tail) 0 eq_refl) as R0.
  rewrite app_nil_l in R0. rewrite R0.
  pose proof (read_u64_le_app [v] slot ([stale] ++ market ++ tail) 1 eq_refl H1) as ->.
  pose proof (read_bool_app ([v] ++ slot) stale (market ++ tail) 9) as R3.
  pose proof (read_pubkey_app ([v] ++ slot ++ [stale]) market tail 10) as R4.
  repeat rewrite <- app_assoc in R3; repeat rewrite <- app_assoc in R4.
  rewrite R3, R4 by solve_len. cbn [throw_if mbind result_bind].
  unfold SOLEND_SUPPORTED_VERSION. by destruct (byte_val v =? 1).
Qed.

Lemma decode_token_layout mint own amount tail :
  length mint = 32%nat → length own = 32%nat → length amount = 8%nat →
  decode_spl_token_account_lite (token_layout mint own amount tail) =
  if (72 + length tail =? 165)%nat then Ok (MkTokenAccount mint own (from_le amount))
  else Err (authority_into SolendTokenAccountInvalidLength).
Proof.
  intros H1 H2 H3. unfold decode_spl_token_account_lite, token_layout, SPL_TOKEN_OFFSET_MINT,
    SPL_TOKEN_OFFSET_OWNER, SPL_TOKEN_OFFSET_AMOUNT.
  replace (length _) with (72 + length tail)%nat by (rewrite !length_app; simpl; lia).
  change SPL_TOKEN_ACCOUNT_LEN with 165%nat.
  destruct (_ =? _)%nat; [|done]. cbn [negb throw_if mbind result_bind].
  pose proof (read_pubkey_app [] mint (own ++ amount ++ tail) 0 eq_refl H1) as R0.
  rewrite app_nil_l in R0. rewrite R0.
  pose proof (read_pubkey_app mint own (amount ++ tail) 32 H1 H2) as ->.
  pose proof (read_u64_le_app (mint ++ own) amount tail 64) as R.
  repeat rewrite <- app_assoc in R. by rewrite R by solve_len.
Qed.

(** The Obligation decoder accepts exactly the packed layout of version 1 and
    returns the fields packed there. *)
Theorem decode_obligation_spec bs d :
  decode_obligation bs = Ok d ↔
  ∃ slot stale market own tail,
    bs = obligation_layout Byte.x01 slot stale market own tail ∧
    length slot = 8%nat ∧ length market = 32%nat ∧ length own = 32%nat ∧
    (1300 ≤ length bs)%nat ∧
    d = MkObligation 1 (from_le slot) (negb (byte_val stale =? 0)) market own.
Proof.
  split.
  - intros H. assert (1300 ≤ length bs)%nat as Hlen.
    { apply bind_Ok in H as (? & H & _). apply throw_if_Ok in H. b2p. done. }
    destruct (split_obligation bs) as (v & slot & st & m & o & tail & -> & ? & ? & ?); [lia|].
    rewrite decode_obligation_layout in H by done.
    destruct (_ <? _)%nat; [done|]. destruct (byte_val v =? 1) eqn:E; [|done].
    b2p. assert (v = Byte.x01) as -> by (by apply byte_val_inj).
    simplify_eq/=. naive_solver.
  - intros (slot & st & m & o & tail & -> & ? & ? & ? & Hlen & ->).
    rewrite decode_obligation_layout by done.
    replace (_ <? _)%nat with false; [done|]. symmetry. b2p.
    unfold obligation_layout in Hlen. rewrite !length_app in Hlen. simpl in Hlen. lia.
Qed.

(** The Reserve decoder accepts exactly the packed layout of version 1 and
    returns the fields packed there. *)
Theorem decode_reserve_spec bs d :
  decode_reserve bs = Ok d ↔
  ∃ slot stale market tail,
    bs = reserve_layout Byte.x01 slot stale market tail ∧
    length slot = 8%nat ∧ length market = 32%nat ∧ (619 ≤ length bs)%nat ∧
    d = MkDecodedReserve 1 (from_le slot) (negb (byte_val stale =? 0)) market.
Proof.
  split.
  - intros H. assert (619 ≤ length bs)%nat as Hlen.
    { apply bind_Ok in H as (? & H & _). apply throw_if_Ok in H. b2p. done. }
    destruct (split_reserve bs) as (v & slot & st & m & tail & -> & ? & ?); [lia|].
    rewrite decode_reserve_layout in H by done.
    destruct (_ <? _)%nat; [done|]. destruct (byte_val v =? 1) eqn:E; [|done].
    b2p. assert (v = Byte.x01) as -> by (by apply byte_val_inj).
    simplify_eq/=. naive_solver.
  - intros (slot & st & m & tail & -> & ? & ? & Hlen & ->).
    rewrite decode_reserve_layout by done.
    replace (_ <? _)%nat with false; [done|]. symmetry. b2p.
    unfold reserve_layout in Hlen. rewrite !length_app in Hlen. simpl in Hlen. lia.
Qed.

(** The token-account decoder accepts exactly 165-byte buffers. *)
Lemma decode_token_spec bs d :
  decode_spl_token_account_lite bs = Ok d ↔
  ∃ mint own amount tail, bs = token_layout mint own amount tail ∧
    length mint = 32%nat ∧ length own = 32%nat ∧ length amount = 8%nat ∧
    length bs = 165%nat ∧ d = MkTokenAccount mint own (from_le amount).
Proof.
  split.
  - intros H. assert (length bs = 165)%nat as Hlen.
    { apply bind_Ok in H as (? & H & _). apply throw_if_Ok in H. b2p.
      by apply Nat.eqb_eq in H. }
    destruct (split_token bs) as (m & o & a & tail & -> & ? & ? & ?); [lia|].
    rewrite decode_token_layout in H by done. destruct (_ =? _)%nat; [|done].
    simplify_eq. naive_solver.
  - intros (m & o & a & tail & -> & ? & ? & ? & Hlen & ->).
    rewrite decode_token_layout by done.
    replace (_ =? _)%nat with true; [done|]. symmetry. apply Nat.eqb_eq.
    unfold token_layout in Hlen. rewrite !length_app in Hlen. simpl in Hlen. lia.
Qed.

Lemma decode_token_amount bs d :
  decode_spl_token_account_lite bs = Ok d → is_u 64 (ta_amount d).
Proof.
  intros (m & o & a & tail & -> & ? & ? & Ha & ? & ->)%decode_token_spec. simpl.
  change 64 with (8 * Z.of_nat 8). rewrite <- Ha. apply from_le_range.
Qed.

(** Freshness: not marked stale and refreshed in this slot or the previous one. *)
Lemma require_reserve_not_stale_Ok d now :
  is_u 64 (rs_last_update_slot d) → is_u 64 now →
  require_reserve_not_stale d now = Ok tt ↔
  rs_last_update_stale d = false ∧ 0 ≤ now - rs_last_update_slot d ≤ 1.
Proof.
  intros Hd Hnow. unfold require_reserve_not_stale, SOLEND_STALE_AFTER_SLOTS_ELAPSED.
  rewrite bind_Ok. setoid_rewrite throw_if_Ok. setoid_rewrite bind_Ok.
  setoid_rewrite ok_or_Ok. setoid_rewrite checked_u_Some. setoid_rewrite throw_if_Ok.
  split.
  - intros (_ & ? & e & [-> ?] & ?). b2p. pow2_norm. split; [done|lia].
  - intros [? ?]. exists tt. split; [done|]. eexists. split; [by split; [|pow2_norm; lia]|].
    b2p. lia.
Qed.
