(* ===== verification/SolendRaw.v ===== *)
(** * The gateway's Solend account decoders ([integrations/solend/raw.rs])

    The daemon's own reading of Obligation and Reserve accounts, and the deposit
    headroom computed from a reserve.  Slices and indices out of range panic, so
    the readers have a [Panic] besides the decoder's errors; the second part shows that it
    never comes, and that the program's decoders agree. *)
From S2P Require Import Prelude Solana Errors AccountDecode.

(** ** Layout *)
Definition SOLEND_NULL_ORACLE_SENTINEL : Pubkey :=
  Eval vm_compute in pubkey "nu11111111111111111111111111111111111111111".

Definition OBLIGATION_LEN : nat := 1300.
Definition OBLIGATION_COLLATERAL_LEN : nat := 88.
Definition OBLIGATION_LIQUIDITY_LEN : nat := 112.

Definition OBL_VERSION_OFF : nat := 0.
Definition OBL_LAST_UPDATE_SLOT_OFF : nat := 1.
Definition OBL_LAST_UPDATE_STALE_OFF : nat := 9.
Definition OBL_LENDING_MARKET_OFF : nat := 10.
Definition OBL_OWNER_OFF : nat := 42.
Definition OBL_BORROWED_VALUE_UPPER_BOUND_OFF : nat := 138.
Definition OBL_BORROWING_ISOLATED_ASSET_OFF : nat := 154.
Definition OBL_SUPER_UNHEALTHY_BORROW_VALUE_OFF : nat := 155.
Definition OBL_UNWEIGHTED_BORROWED_VALUE_OFF : nat := 171.
Definition OBL_CLOSEABLE_OFF : nat := 187.
Definition OBL_PADDING_OFF : nat := 188.
Definition OBL_PADDING_LEN : nat := 14.
Definition OBL_DEPOSITS_LEN_OFF : nat := 202.
Definition OBL_BORROWS_LEN_OFF : nat := 203.
Definition OBL_DATA_FLAT_OFF : nat := 204.
Definition OBL_DATA_FLAT_LEN : nat := OBLIGATION_LEN - OBL_DATA_FLAT_OFF.
Definition OBL_COLL_DEPOSIT_RESERVE_OFF : nat := 0.
Definition OBL_COLL_DEPOSITED_AMOUNT_OFF : nat := 32.
Definition OBL_LIQ_BORROW_RESERVE_OFF : nat := 0.
Definition OBL_LIQ_BORROWED_AMOUNT_WADS_OFF : nat := 48.

Definition RESERVE_LEN : nat := 619.
Definition RES_VERSION_OFF : nat := 0.
Definition RES_LAST_UPDATE_SLOT_OFF : nat := 1.
Definition RES_LAST_UPDATE_STALE_OFF : nat := 9.
Definition RES_LENDING_MARKET_OFF : nat := 10.
Definition RES_LIQ_MINT_OFF : nat := 42.
Definition RES_LIQ_MINT_DECIMALS_OFF : nat := 74.
Definition RES_LIQ_SUPPLY_OFF : nat := 75.
Definition RES_LIQ_PYTH_ORACLE_OFF : nat := 107.
Definition RES_LIQ_SWITCHBOARD_ORACLE_OFF : nat := 139.
Definition RES_LIQ_AVAILABLE_AMOUNT_OFF : nat := 171.
Definition RES_LIQ_BORROWED_AMOUNT_WADS_OFF : nat := 179.
Definition RES_COLL_MINT_OFF : nat := 227.
Definition RES_COLL_SUPPLY_OFF : nat := 267.
Definition RES_CONFIG_DEPOSIT_LIMIT_OFF : nat := 323.
Definition RES_LIQ_ACCUMULATED_PROTOCOL_FEES_WADS_OFF : nat := 373.
Definition RES_CONFIG_OPTIMAL_UTILIZATION_RATE_OFF : nat := 299.
Definition RES_CONFIG_MIN_BORROW_RATE_OFF : nat := 303.
Definition RES_CONFIG_OPTIMAL_BORROW_RATE_OFF : nat := 304.
Definition RES_CONFIG_MAX_BORROW_RATE_OFF : nat := 305.
Definition RES_CONFIG_PROTOCOL_TAKE_RATE_OFF : nat := 372.
Definition RES_CONFIG_MAX_UTILIZATION_RATE_OFF : nat := 470.
Definition RES_CONFIG_SUPER_MAX_BORROW_RATE_OFF : nat := 471.

Definition RAW_SOLEND_WAD : Z := 10 ^ 18.

(** ** Decoded accounts *)
Record SolendObligationCollateralRaw := MkCollateral {
  oc_deposit_reserve : Pubkey;
  oc_deposited_amount : Z
}.
Record SolendObligationLiquidityRaw := MkLiquidity {
  ol_borrow_reserve : Pubkey;
  ol_borrowed_amount_wads : Z
}.

Record SolendObligationRaw := MkObligationRaw {
  or_version : Z;
  or_last_update_slot : Z;
  or_last_update_stale : bool;
  or_lending_market : Pubkey;
  or_owner : Pubkey;
  or_deposits : list SolendObligationCollateralRaw;
  or_borrows : list SolendObligationLiquidityRaw;
  or_borrowed_value_upper_bound_wads : Z;
  or_borrowing_isolated_asset : bool;
  or_super_unhealthy_borrow_value_wads : Z;
  or_unweighted_borrowed_value_wads : Z;
  or_closeable : bool
}.

Record SolendReserveRaw := MkReserveRaw {
  rr_version : Z;
  rr_last_update_slot : Z;
  rr_last_update_stale : bool;
  rr_lending_market : Pubkey;
  rr_liquidity_mint : Pubkey;
  rr_liquidity_mint_decimals : Z;
  rr_liquidity_supply : Pubkey;
  rr_pyth_oracle : Pubkey;
  rr_switchboard_oracle : Pubkey;
  rr_liquidity_available_amount : Z;
  rr_liquidity_borrowed_amount_wads : Z;
  rr_liquidity_accumulated_protocol_fees_wads : Z;
  rr_collateral_mint : Pubkey;
  rr_collateral_supply : Pubkey;
  rr_config_deposit_limit : Z;
  rr_config_optimal_utilization_rate_pct : Z;
  rr_config_min_borrow_rate_pct : Z;
  rr_config_optimal_borrow_rate_pct : Z;
  rr_config_max_borrow_rate_pct : Z;
  rr_config_protocol_take_rate_pct : Z;
  rr_config_max_utilization_rate_pct : Z;
  rr_config_super_max_borrow_rate_pct : Z
}.

(** ** Deposit headroom *)
Definition liquidity_total_supply_raw (r : SolendReserveRaw) : option Z :=
  available_wads ← checked_u 128 (rr_liquidity_available_amount r * RAW_SOLEND_WAD);
  summed ← checked_u 128 (available_wads + rr_liquidity_borrowed_amount_wads r);
  after_fees ← checked_u 128 (summed - rr_liquidity_accumulated_protocol_fees_wads r);
  checked_u 64 (after_fees / RAW_SOLEND_WAD).

Definition deposit_headroom_raw (r : SolendReserveRaw) : Z :=
  match liquidity_total_supply_raw r with
  | None => 0
  | Some total => Z.max 0 (rr_config_deposit_limit r - total)
  end.

(** ** Decoders *)
Inductive DecodeError :=
| ObligationWrongSize (n : Z)
| ReserveWrongSize (n : Z)
| ObligationPaddingNonZero
| ObligationArrayOverflow (deposits borrows : Z)
| ObligationStaleBitInvalid (b : Z)
| ReserveStaleBitInvalid (b : Z)
| ObligationBoolInvalid (offset : nat) (value : Z) (field : string).

(** A decoder panics, or returns an error. *)
Notation Dec := (Result (Fault DecodeError)).

(** [data[off]] and [data[off..off + n]] *)
Definition at_ (data : list byte) (off : nat) : Dec Z := byte_val <$> ok_or (data !! off) Panic.
Definition slice (data : list byte) (off n : nat) : Dec (list byte) :=
  ok_or (get_range data off n) Panic.

Definition read_u64_le (data : list byte) (off : nat) : Dec Z := from_le <$> slice data off 8.
Definition read_u128_le (data : list byte) (off : nat) : Dec Z := from_le <$> slice data off 16.
Definition read_pubkey (data : list byte) (off : nat) : Dec Pubkey := slice data off 32.
Definition read_bool (data : list byte) (off : nat) : Dec (option bool) :=
  b ← at_ data off;
  Ok (if b =? 0 then Some false else if b =? 1 then Some true else None).

(** [read_bool(..).ok_or(error(data[off]))?] *)
Definition read_flag (data : list byte) (off : nat) (error : Z → DecodeError) : Dec bool :=
  flag ← read_bool data off;
  value ← at_ data off;
  ok_or flag (Fails (error value)).

Definition read_collateral (data : list byte) (base : nat) : Dec SolendObligationCollateralRaw :=
  reserve ← read_pubkey data (base + OBL_COLL_DEPOSIT_RESERVE_OFF);
  amount ← read_u64_le data (base + OBL_COLL_DEPOSITED_AMOUNT_OFF);
  Ok (MkCollateral reserve amount).
Definition read_liquidity (data : list byte) (base : nat) : Dec SolendObligationLiquidityRaw :=
  reserve ← read_pubkey data (base + OBL_LIQ_BORROW_RESERVE_OFF);
  amount ← read_u128_le data (base + OBL_LIQ_BORROWED_AMOUNT_WADS_OFF);
  Ok (MkLiquidity reserve amount).

(** The loops [for i in 0..n] over entries of [len] bytes from [start]. *)
Fixpoint read_entries {A} (read : nat → Dec A) (len start n : nat) : Dec (list A) :=
  match n with
  | O => Ok []
  | S n => a ← read start; out ← read_entries read len (start + len) n; Ok (a :: out)
  end.

Definition decode_obligation (data : list byte) : Dec SolendObligationRaw :=
  _ ← throw_if (negb (length data =? OBLIGATION_LEN)%nat)
        (Fails (ObligationWrongSize (Z.of_nat (length data))));
  padding ← slice data OBL_PADDING_OFF OBL_PADDING_LEN;
  _ ← throw_if (existsb (λ b, negb (byte_val b =? 0)) padding) (Fails ObligationPaddingNonZero);
  version ← at_ data OBL_VERSION_OFF;
  last_update_slot ← read_u64_le data OBL_LAST_UPDATE_SLOT_OFF;
  last_update_stale ← read_flag data OBL_LAST_UPDATE_STALE_OFF ObligationStaleBitInvalid;
  lending_market ← read_pubkey data OBL_LENDING_MARKET_OFF;
  own ← read_pubkey data OBL_OWNER_OFF;
  upper_bound ← read_u128_le data OBL_BORROWED_VALUE_UPPER_BOUND_OFF;
  isolated ← read_flag data OBL_BORROWING_ISOLATED_ASSET_OFF
    (λ v, ObligationBoolInvalid OBL_BORROWING_ISOLATED_ASSET_OFF v "borrowing_isolated_asset");
  super_unhealthy ← read_u128_le data OBL_SUPER_UNHEALTHY_BORROW_VALUE_OFF;
  unweighted ← read_u128_le data OBL_UNWEIGHTED_BORROWED_VALUE_OFF;
  closeable ← read_flag data OBL_CLOSEABLE_OFF
    (λ v, ObligationBoolInvalid OBL_CLOSEABLE_OFF v "closeable");
  deposits_len ← at_ data OBL_DEPOSITS_LEN_OFF;
  borrows_len ← at_ data OBL_BORROWS_LEN_OFF;
  let nd := Z.to_nat deposits_len in
  let nb := Z.to_nat borrows_len in
  let total_array_bytes :=
    (nd * OBLIGATION_COLLATERAL_LEN + nb * OBLIGATION_LIQUIDITY_LEN)%nat in
  _ ← throw_if (OBL_DATA_FLAT_LEN <? total_array_bytes)%nat
        (Fails (ObligationArrayOverflow deposits_len borrows_len));
  deposits ← read_entries (read_collateral data) OBLIGATION_COLLATERAL_LEN OBL_DATA_FLAT_OFF nd;
  let borrows_start := (OBL_DATA_FLAT_OFF + nd * OBLIGATION_COLLATERAL_LEN)%nat in
  borrows ← read_entries (read_liquidity data) OBLIGATION_LIQUIDITY_LEN borrows_start nb;
  Ok (MkObligationRaw version last_update_slot last_update_stale lending_market own deposits
        borrows upper_bound isolated super_unhealthy unweighted closeable).

Definition decode_reserve (data : list byte) : Dec SolendReserveRaw :=
  _ ← throw_if (negb (length data =? RESERVE_LEN)%nat)
        (Fails (ReserveWrongSize (Z.of_nat (length data))));
  version ← at_ data RES_VERSION_OFF;
  last_update_slot ← read_u64_le data RES_LAST_UPDATE_SLOT_OFF;
  last_update_stale ← read_flag data RES_LAST_UPDATE_STALE_OFF ReserveStaleBitInvalid;
  lending_market ← read_pubkey data RES_LENDING_MARKET_OFF;
  liquidity_mint ← read_pubkey data RES_LIQ_MINT_OFF;
  decimals ← at_ data RES_LIQ_MINT_DECIMALS_OFF;
  liquidity_supply ← read_pubkey data RES_LIQ_SUPPLY_OFF;
  pyth_oracle ← read_pubkey data RES_LIQ_PYTH_ORACLE_OFF;
  switchboard_oracle ← read_pubkey data RES_LIQ_SWITCHBOARD_ORACLE_OFF;
  available ← read_u64_le data RES_LIQ_AVAILABLE_AMOUNT_OFF;
  borrowed ← read_u128_le data RES_LIQ_BORROWED_AMOUNT_WADS_OFF;
  fees ← read_u128_le data RES_LIQ_ACCUMULATED_PROTOCOL_FEES_WADS_OFF;
  collateral_mint ← read_pubkey data RES_COLL_MINT_OFF;
  collateral_supply ← read_pubkey data RES_COLL_SUPPLY_OFF;
  deposit_limit ← read_u64_le data RES_CONFIG_DEPOSIT_LIMIT_OFF;
  optimal_utilization ← at_ data RES_CONFIG_OPTIMAL_UTILIZATION_RATE_OFF;
  min_rate ← at_ data RES_CONFIG_MIN_BORROW_RATE_OFF;
  optimal_rate ← at_ data RES_CONFIG_OPTIMAL_BORROW_RATE_OFF;
  max_rate ← at_ data RES_CONFIG_MAX_BORROW_RATE_OFF;
  take_rate ← at_ data RES_CONFIG_PROTOCOL_TAKE_RATE_OFF;
  max_utilization ← at_ data RES_CONFIG_MAX_UTILIZATION_RATE_OFF;
  super_max ← read_u64_le data RES_CONFIG_SUPER_MAX_BORROW_RATE_OFF;
  Ok (MkReserveRaw version last_update_slot last_update_stale lending_market liquidity_mint
        decimals liquidity_supply pyth_oracle switchboard_oracle available borrowed fees
        collateral_mint collateral_supply deposit_limit optimal_utilization min_rate
        optimal_rate max_rate take_rate max_utilization super_max).

Definition is_null_oracle_sentinel (pk : Pubkey) : bool :=
  bool_decide (pk = SOLEND_NULL_ORACLE_SENTINEL).

(** * The gateway's decoders: totality, layout, agreement with the program *)

(** ** No read is out of range *)
Definition no_panic {A} (m : Dec A) : Prop := m ≠ Err Panic.

Lemma no_panic_bind {A B} (m : Dec A) (f : A → Dec B) :
  no_panic m → (∀ a, m = Ok a → no_panic (f a)) → no_panic (m ≫= f).
Proof. intros Hm Hf. destruct m as [a|e]; [by apply Hf|]. intros [= ->]. by apply Hm. Qed.

Lemma no_panic_throw b e : no_panic (throw_if b (Fails e) : Dec unit).
Proof. by destruct b. Qed.

Lemma no_panic_fmap {A B} (f : A → B) (m : Dec A) : no_panic m → no_panic (f <$> m).
Proof. intros Hm. destruct m as [a|e]; [done|]. intros [= ->]. by apply Hm. Qed.

Lemma no_panic_at data off : (off < length data)%nat → no_panic (at_ data off).
Proof. intros [b Hb]%lookup_lt_is_Some. apply no_panic_fmap. by rewrite Hb. Qed.

Lemma no_panic_slice data off n : (off + n ≤ length data)%nat → no_panic (slice data off n).
Proof. intros H. unfold slice. by rewrite get_range_ok. Qed.

Lemma no_panic_flag data off error : (off < length data)%nat → no_panic (read_flag data off error).
Proof.
  intros [b Hb]%lookup_lt_is_Some. unfold read_flag, read_bool, at_. rewrite Hb. cbn.
  by destruct (byte_val b =? 0), (byte_val b =? 1).
Qed.

Lemma no_panic_entries {A} (read : nat → Dec A) len start n bound :
  (∀ base, (base + len ≤ bound)%nat → no_panic (read base)) →
  (start + n * len ≤ bound)%nat → no_panic (read_entries read len start n).
Proof.
  intros Hr. revert start. induction n as [|n IH]; intros start Hb; cbn [read_entries]; [done|].
  apply no_panic_bind; [apply Hr; lia|]. intros a _.
  apply no_panic_bind; [apply IH; lia|done].
Qed.

(** One read after the other: each is below the length that was checked. *)
Ltac total H :=
  repeat first
    [ apply no_panic_throw
    | apply no_panic_at; rewrite H; apply Nat.ltb_lt; vm_compute; reflexivity
    | apply no_panic_flag; rewrite H; apply Nat.ltb_lt; vm_compute; reflexivity
    | apply no_panic_slice; rewrite H; apply Nat.leb_le; vm_compute; reflexivity
    | apply no_panic_fmap, no_panic_slice; rewrite H; apply Nat.leb_le; vm_compute; reflexivity
    | apply no_panic_bind; [|intros ? ?]
    | done ].

Lemma no_panic_checked {A} (data : list byte) n e (f : unit → Dec A) :
  (length data = n → no_panic (f tt)) →
  no_panic (throw_if (negb (length data =? n)%nat) (Fails e) ≫= f).
Proof.
  intros Hf. destruct (length data =? n)%nat eqn:E; [|done]. by apply Nat.eqb_eq in E; apply Hf.
Qed.

Lemma no_panic_collateral data base : (base + OBLIGATION_COLLATERAL_LEN ≤ length data)%nat →
  no_panic (read_collateral data base).
Proof.
  unfold OBLIGATION_COLLATERAL_LEN. intros H. unfold read_collateral, OBL_COLL_DEPOSIT_RESERVE_OFF,
    OBL_COLL_DEPOSITED_AMOUNT_OFF.
  apply no_panic_bind; [apply no_panic_slice; lia|]. intros ? _.
  apply no_panic_bind; [apply no_panic_fmap, no_panic_slice; lia|done].
Qed.

Lemma no_panic_liquidity data base : (base + OBLIGATION_LIQUIDITY_LEN ≤ length data)%nat →
  no_panic (read_liquidity data base).
Proof.
  unfold OBLIGATION_LIQUIDITY_LEN. intros H. unfold read_liquidity, OBL_LIQ_BORROW_RESERVE_OFF,
    OBL_LIQ_BORROWED_AMOUNT_WADS_OFF.
  apply no_panic_bind; [apply no_panic_slice; lia|]. intros ? _.
  apply no_panic_bind; [apply no_panic_fmap, no_panic_slice; lia|done].
Qed.

(** The decoders are total: whatever the bytes of the account, no index or
    slice is out of range, the arrays whose lengths the account itself gives
    included; a bad account is one of the decoder's errors. *)
Theorem decoders_never_panic data :
  decode_obligation data ≠ Err Panic ∧ decode_reserve data ≠ Err Panic.
Proof.
  split.
  - apply no_panic_checked. intros H. total H.
    all: match goal with Hu : throw_if (_ <? _)%nat _ = Ok _ |- _ =>
      apply throw_if_Ok, Nat.ltb_ge in Hu; revert Hu end.
    all: change OBL_DATA_FLAT_LEN with 1096%nat; intros Hu.
    + apply (no_panic_entries _ _ _ _ (length data)); [apply no_panic_collateral|].
      rewrite H. unfold OBLIGATION_LEN, OBL_DATA_FLAT_OFF. lia.
    + apply (no_panic_entries _ _ _ _ (length data)); [apply no_panic_liquidity|].
      rewrite H. unfold OBLIGATION_LEN, OBL_DATA_FLAT_OFF. lia.
  - apply no_panic_checked. intros H. total H.
Qed.

(** ** The daemon and the program read the same accounts *)
Lemma at_read_u8 data off v : at_ data off = Ok v → read_u8 data off = Ok v.
Proof. unfold at_, read_u8. destruct (data !! off); cbn; [by intros [= <-]|done]. Qed.

Lemma slice_get_range data off n bs : slice data off n = Ok bs → get_range data off n = Some bs.
Proof. unfold slice. by destruct (get_range data off n); cbn; [intros [= ->]|]. Qed.

Lemma read_u64_agrees data off z :
  SolendRaw.read_u64_le data off = Ok z → AccountDecode.read_u64_le data off = Ok z.
Proof.
  unfold SolendRaw.read_u64_le, AccountDecode.read_u64_le.
  destruct (slice data off 8) as [bs|] eqn:Hs; [|done]. apply slice_get_range in Hs.
  rewrite Hs. by intros [= <-].
Qed.

Lemma read_pubkey_agrees data off k :
  SolendRaw.read_pubkey data off = Ok k → AccountDecode.read_pubkey data off = Ok k.
Proof.
  unfold SolendRaw.read_pubkey, AccountDecode.read_pubkey.
  intros Hs%slice_get_range. by rewrite Hs.
Qed.

Lemma read_flag_agrees data off error b :
  read_flag data off error = Ok b → AccountDecode.read_bool data off = Ok b.
Proof.
  unfold read_flag, SolendRaw.read_bool, AccountDecode.read_bool, at_, read_u8.
  destruct (data !! off) as [b0|]; [|done]. cbn.
  destruct (byte_val b0 =? 0); cbn; [by intros [= <-]|].
  destruct (byte_val b0 =? 1); cbn; [by intros [= <-]|done].
Qed.

(** The length that was checked suffices for the program. *)
Ltac length_ok :=
  apply Nat.ltb_ge;
  match goal with H : negb (_ =? _)%nat = false |- _ =>
    apply negb_false_iff, Nat.eqb_eq in H; rewrite H; apply Nat.leb_le; vm_compute; reflexivity end.

(** Replace each read of the program by what the gateway read there. *)
Ltac agree_all :=
  repeat match goal with
  | H : at_ _ _ = Ok _ |- _ => apply at_read_u8 in H
  | H : SolendRaw.read_u64_le _ _ = Ok _ |- _ => apply read_u64_agrees in H
  | H : SolendRaw.read_pubkey _ _ = Ok _ |- _ => apply read_pubkey_agrees in H
  | H : read_flag _ _ _ = Ok _ |- _ => apply read_flag_agrees in H
  end;
  repeat match goal with
  | H : ?r ?d ?off = Ok _ |- context [?r ?d ?off' ≫= _] =>
      change off with off' in H; rewrite H; cbn [mbind result_bind]
  end.

(** The daemon and the program read the same accounts alike.  An obligation
    or reserve the gateway decodes is decoded by the on-chain program to the same
    slot, stale flag, market and owner when its version is 1, and refused for its
    version otherwise: the gateway does not look at the version. *)
Theorem decoders_agree data :
  match decode_obligation data with
  | Ok o => AccountDecode.decode_obligation data =
      if or_version o =? 1
      then Ok (MkObligation (or_version o) (or_last_update_slot o) (or_last_update_stale o)
                 (or_lending_market o) (or_owner o))
      else Err (authority_into SolendUnsupportedObligationVersion)
  | Err _ => True
  end ∧
  match decode_reserve data with
  | Ok r => AccountDecode.decode_reserve data =
      if rr_version r =? 1
      then Ok (MkDecodedReserve (rr_version r) (rr_last_update_slot r) (rr_last_update_stale r)
                 (rr_lending_market r))
      else Err (authority_into SolendUnsupportedReserveVersion)
  | Err _ => True
  end.
Proof.
  split.
  - destruct (decode_obligation data) as [o|] eqn:Hd; [|done]. unfold decode_obligation in Hd.
    inv_ok Hd. unfold AccountDecode.decode_obligation. rewrite throw_if_false by length_ok.
    agree_all. cbn [mbind result_bind or_version or_last_update_slot or_last_update_stale
      or_lending_market or_owner].
    unfold SOLEND_SUPPORTED_VERSION. by destruct (_ =? 1).
  - destruct (decode_reserve data) as [r|] eqn:Hd; [|done]. unfold decode_reserve in Hd.
    inv_ok Hd. unfold AccountDecode.decode_reserve. rewrite throw_if_false by length_ok.
    agree_all. cbn [mbind result_bind rr_version rr_last_update_slot rr_last_update_stale
      rr_lending_market].
    unfold SOLEND_SUPPORTED_VERSION. by destruct (_ =? 1).
Qed.

(** ** The layout

    An obligation as Solend packs it; [values], [rest] and the last component of
    each entry stand for the bytes the decoder passes over. *)
Notation CollateralEntry := (SolendObligationCollateralRaw * list byte)%type.
Notation LiquidityEntry := (SolendObligationLiquidityRaw * (list byte * list byte))%type.

Definition bool_byte (b : bool) : byte := if b then Byte.x01 else Byte.x00.
Definition pack_collateral (c : CollateralEntry) : list byte :=
  oc_deposit_reserve c.1 ++ to_le 8 (oc_deposited_amount c.1) ++ c.2.
Definition pack_liquidity (l : LiquidityEntry) : list byte :=
  ol_borrow_reserve l.1 ++ l.2.1 ++ to_le 16 (ol_borrowed_amount_wads l.1) ++ l.2.2.

Definition obligation_pieces (o : SolendObligationRaw) (values rest : list byte)
    (cs : list CollateralEntry) (ls : list LiquidityEntry) : list (list byte) :=
  [ [byte_of (or_version o)]; to_le 8 (or_last_update_slot o);
    [bool_byte (or_last_update_stale o)]; or_lending_market o; or_owner o; values;
    to_le 16 (or_borrowed_value_upper_bound_wads o); [bool_byte (or_borrowing_isolated_asset o)];
    to_le 16 (or_super_unhealthy_borrow_value_wads o);
    to_le 16 (or_unweighted_borrowed_value_wads o); [bool_byte (or_closeable o)];
    replicate 14 Byte.x00; [byte_of (Z.of_nat (length cs))]; [byte_of (Z.of_nat (length ls))];
    concat (map pack_collateral cs); concat (map pack_liquidity ls); rest ].
Definition pack_obligation o values rest cs ls : list byte :=
  concat (obligation_pieces o values rest cs ls).

Record obligation_typed (o : SolendObligationRaw) (values rest : list byte)
    (cs : list CollateralEntry) (ls : list LiquidityEntry) : Prop := {
  ot_version : is_u 8 (or_version o);
  ot_slot : is_u 64 (or_last_update_slot o);
  ot_market : length (or_lending_market o) = 32%nat;
  ot_owner : length (or_owner o) = 32%nat;
  ot_upper : is_u 128 (or_borrowed_value_upper_bound_wads o);
  ot_super : is_u 128 (or_super_unhealthy_borrow_value_wads o);
  ot_unweighted : is_u 128 (or_unweighted_borrowed_value_wads o);
  ot_values : length values = 64%nat;
  ot_deposits : map fst cs = or_deposits o;
  ot_borrows : map fst ls = or_borrows o;
  ot_collateral c : c ∈ cs → length (oc_deposit_reserve c.1) = 32%nat ∧
    is_u 64 (oc_deposited_amount c.1) ∧ length c.2 = 48%nat;
  ot_liquidity l : l ∈ ls → length (ol_borrow_reserve l.1) = 32%nat ∧
    is_u 128 (ol_borrowed_amount_wads l.1) ∧ length l.2.1 = 16%nat ∧ length l.2.2 = 48%nat;
  ot_fits : (length cs * 88 + length ls * 112 + length rest = 1096)%nat
}.

(** [piece] stands at [off]. *)
Definition placed (data : list byte) (off : nat) (piece : list byte) : Prop :=
  ∃ pre post, data = pre ++ piece ++ post ∧ length pre = off.

Lemma placed_slice data off n piece : placed data off piece → length piece = n →
  slice data off n = Ok piece.
Proof. intros (pre & post & -> & <-) <-. unfold slice. by rewrite get_range_app. Qed.

Lemma placed_at data off b : placed data off [b] → at_ data off = Ok (byte_val b).
Proof.
  intros (pre & post & -> & <-). unfold at_. by rewrite lookup_app_r, Nat.sub_diag by lia.
Qed.

Lemma placed_flag data off b error : placed data off [bool_byte b] →
  read_flag data off error = Ok b.
Proof.
  intros H%placed_at. unfold read_flag, SolendRaw.read_bool. rewrite H. by destruct b.
Qed.

Lemma placed_sub data off piece a b c off' :
  placed data off piece → piece = a ++ b ++ c → off' = (off + length a)%nat → placed data off' b.
Proof.
  intros (pre & post & -> & <-) -> ->. exists (pre ++ a), (c ++ post).
  rewrite <- !app_assoc, length_app. done.
Qed.

Lemma placed_le data off n z w : placed data off (to_le n z) → w = 8 * Z.of_nat n → is_u w z →
  from_le <$> slice data off n = Ok z.
Proof.
  intros Hp -> Hz. rewrite (placed_slice _ _ _ _ Hp (length_to_le _ _)). cbn. by rewrite from_to_le.
Qed.

Lemma placed_u8 data off z : placed data off [byte_of z] → is_u 8 z → at_ data off = Ok z.
Proof.
  intros Hp Hz. rewrite (placed_at _ _ _ Hp).
  by rewrite byte_val_of.
Qed.

Lemma placed_concat pieces i piece off : pieces !! i = Some piece →
  off = sum_list_with length (take i pieces) → placed (concat pieces) off piece.
Proof.
  intros Hi ->. exists (concat (take i pieces)), (concat (drop (S i) pieces)).
  rewrite <- (take_drop_middle _ _ _ Hi) at 1. rewrite concat_app. cbn [concat]. split; [done|].
  clear. generalize (take i pieces). intros l. induction l as [|x l IH]; [done|]. cbn.
  by rewrite length_app, IH.
Qed.

(** The entries of an array, read back. *)
Lemma placed_entries {A B} (read : list byte → nat → Dec B) (pack : A → list byte) (val : A → B)
    len data start l :
  (∀ a off, a ∈ l → placed data off (pack a) → read data off = Ok (val a)) →
  (∀ a, a ∈ l → length (pack a) = len) →
  placed data start (concat (map pack l)) →
  read_entries (read data) len start (length l) = Ok (map val l).
Proof.
  intros Hread Hlen. revert start. induction l as [|a l IH]; intros start Hp; [done|].
  cbn [length read_entries map concat] in *.
  rewrite (Hread a start) by (left || (eapply (placed_sub _ _ _ []); [done|done|cbn; lia])).
  cbn [mbind result_bind]. rewrite IH; [done| | |].
  - intros b off Hb. apply Hread. by right.
  - intros b Hb. apply Hlen. by right.
  - eapply (placed_sub _ _ _ (pack a) _ []); [done|by rewrite app_nil_r|].
    by rewrite Hlen by left.
Qed.

Section packed.
Context (o : SolendObligationRaw) (values rest : list byte).
Context (cs : list CollateralEntry) (ls : list LiquidityEntry).
Context (Ht : obligation_typed o values rest cs ls).
Notation data := (pack_obligation o values rest cs ls).

Lemma length_packed_entries {A} (pack : A → list byte) len l :
  (∀ a, a ∈ l → length (pack a) = len) → length (concat (map pack l)) = (length l * len)%nat.
Proof.
  intros Hlen. induction l as [|a l IH]; [done|]. cbn. rewrite length_app, Hlen by left.
  rewrite IH; [done|]. intros b Hb. apply Hlen. by right.
Qed.

Lemma length_pack_collateral c : c ∈ cs → length (pack_collateral c) = 88%nat.
Proof.
  intros Hc. destruct (ot_collateral _ _ _ _ _ Ht c Hc) as (H1 & _ & H2).
  unfold pack_collateral. by rewrite !length_app, length_to_le, H1, H2.
Qed.

Lemma length_pack_liquidity l : l ∈ ls → length (pack_liquidity l) = 112%nat.
Proof.
  intros Hl. destruct (ot_liquidity _ _ _ _ _ Ht l Hl) as (H1 & _ & H2 & H3).
  unfold pack_liquidity. by rewrite !length_app, length_to_le, H1, H2, H3.
Qed.

(** The offset of a field is the length of what stands before it. *)
Lemma packed_offsets i piece off : obligation_pieces o values rest cs ls !! i = Some piece →
  (i ≤ 14)%nat →
  off = nth i [0; 1; 9; 10; 42; 74; 138; 154; 155; 171; 187; 188; 202; 203; 204]%nat 0%nat →
  placed data off piece.
Proof.
  intros Hp Hi ->. eapply placed_concat; [done|].
  destruct Ht. do 15 (destruct i as [|i]; [cbn; rewrite ?length_to_le; lia|]). lia.
Qed.

Lemma placed_borrows :
  placed data (OBL_DATA_FLAT_OFF + length cs * OBLIGATION_COLLATERAL_LEN)
    (concat (map pack_liquidity ls)).
Proof.
  eapply placed_concat; [by instantiate (1 := 15%nat)|].
  pose proof (length_packed_entries pack_collateral 88 cs length_pack_collateral) as Hc.
  unfold OBL_DATA_FLAT_OFF, OBLIGATION_COLLATERAL_LEN. destruct Ht.
  cbn. rewrite ?length_to_le. lia.
Qed.

Lemma length_packed : length data = 1300%nat.
Proof.
  unfold pack_obligation, obligation_pieces. cbn [concat].
  rewrite !length_app, !length_to_le, length_replicate.
  rewrite (length_packed_entries pack_collateral 88 cs length_pack_collateral).
  rewrite (length_packed_entries pack_liquidity 112 ls length_pack_liquidity).
  destruct Ht. cbn [length]. lia.
Qed.

Lemma read_collateral_packed c off : c ∈ cs → placed data off (pack_collateral c) →
  read_collateral data off = Ok c.1.
Proof.
  intros Hc Hp. destruct (ot_collateral _ _ _ _ _ Ht c Hc) as (H1 & H2 & _).
  unfold read_collateral, SolendRaw.read_pubkey, SolendRaw.read_u64_le,
    OBL_COLL_DEPOSIT_RESERVE_OFF.
  rewrite (placed_slice data (off + 0) 32 (oc_deposit_reserve c.1)) by
    (done || (eapply (placed_sub _ _ _ []); [done|done|cbn; lia])).
  cbn [mbind result_bind].
  erewrite placed_le; [|eapply (placed_sub _ _ _ (oc_deposit_reserve c.1)); [done|done|]|done|done].
  - by destruct c as [[]].
  - unfold OBL_COLL_DEPOSITED_AMOUNT_OFF. lia.
Qed.

Lemma read_liquidity_packed l off : l ∈ ls → placed data off (pack_liquidity l) →
  read_liquidity data off = Ok l.1.
Proof.
  intros Hl Hp. destruct (ot_liquidity _ _ _ _ _ Ht l Hl) as (H1 & H2 & H3 & _).
  unfold read_liquidity, SolendRaw.read_pubkey, read_u128_le, OBL_LIQ_BORROW_RESERVE_OFF.
  rewrite (placed_slice data (off + 0) 32 (ol_borrow_reserve l.1)) by
    (done || (eapply (placed_sub _ _ _ []); [done|done|cbn; lia])).
  cbn [mbind result_bind].
  erewrite placed_le;
    [|eapply (placed_sub _ _ _ (ol_borrow_reserve l.1 ++ l.2.1)); [done| |]|done|done].
  - by destruct l as [[]].
  - unfold pack_liquidity. by rewrite <- app_assoc.
  - unfold OBL_LIQ_BORROWED_AMOUNT_WADS_OFF. rewrite length_app. lia.
Qed.
End packed.

(** Reads of the packed obligation, by the number of the piece. *)
Ltac packed Ht i :=
  eapply (packed_offsets _ _ _ _ _ Ht i); [reflexivity|lia|reflexivity].

(** The gateway reads back every obligation laid out as its documentation
    says: whatever stands in the bytes it passes over, the decoder returns the
    fields, the deposits and the borrows that were packed. *)
Theorem obligation_roundtrip o values rest cs ls :
  obligation_typed o values rest cs ls →
  decode_obligation (pack_obligation o values rest cs ls) = Ok o.
Proof.
  intros Ht. set (d := pack_obligation o values rest cs ls). pose proof Ht as Ht'. destruct Ht'.
  assert (length cs ≤ 12 ∧ length ls ≤ 9)%nat as [Hcs Hls] by lia.
  assert (length d = 1300%nat) as Hlen by by apply length_packed.
  unfold decode_obligation, SolendRaw.read_pubkey, SolendRaw.read_u64_le, read_u128_le.
  rewrite throw_if_false by by rewrite Hlen.
  rewrite (placed_slice d OBL_PADDING_OFF OBL_PADDING_LEN (replicate 14 Byte.x00))
    by (packed Ht 11%nat || done).
  rewrite (placed_u8 d OBL_VERSION_OFF (or_version o)) by (packed Ht 0%nat || done).
  rewrite (placed_le d OBL_LAST_UPDATE_SLOT_OFF 8 (or_last_update_slot o) 64)
    by (packed Ht 1%nat || done).
  rewrite (placed_flag d OBL_LAST_UPDATE_STALE_OFF (or_last_update_stale o)) by packed Ht 2%nat.
  rewrite (placed_slice d OBL_LENDING_MARKET_OFF 32 (or_lending_market o))
    by (packed Ht 3%nat || done).
  rewrite (placed_slice d OBL_OWNER_OFF 32 (or_owner o)) by (packed Ht 4%nat || done).
  rewrite (placed_le d OBL_BORROWED_VALUE_UPPER_BOUND_OFF 16 (or_borrowed_value_upper_bound_wads o) 128)
    by (packed Ht 6%nat || done).
  rewrite (placed_flag d OBL_BORROWING_ISOLATED_ASSET_OFF (or_borrowing_isolated_asset o)) by packed Ht 7%nat.
  rewrite (placed_le d OBL_SUPER_UNHEALTHY_BORROW_VALUE_OFF 16 (or_super_unhealthy_borrow_value_wads o) 128)
    by (packed Ht 8%nat || done).
  rewrite (placed_le d OBL_UNWEIGHTED_BORROWED_VALUE_OFF 16 (or_unweighted_borrowed_value_wads o) 128)
    by (packed Ht 9%nat || done).
  rewrite (placed_flag d OBL_CLOSEABLE_OFF (or_closeable o)) by packed Ht 10%nat.
  rewrite (placed_u8 d OBL_DEPOSITS_LEN_OFF (Z.of_nat (length cs)))
    by (packed Ht 12%nat || (pow2_norm; lia)).
  rewrite (placed_u8 d OBL_BORROWS_LEN_OFF (Z.of_nat (length ls)))
    by (packed Ht 13%nat || (pow2_norm; lia)).
  cbn [mbind result_bind]. rewrite throw_if_false by done. cbn [mbind result_bind].
  rewrite !Nat2Z.id. rewrite throw_if_false by
    (apply Nat.ltb_ge; change OBL_DATA_FLAT_LEN with 1096%nat;
     unfold OBLIGATION_COLLATERAL_LEN, OBLIGATION_LIQUIDITY_LEN; lia).
  cbn [mbind result_bind].
  rewrite (placed_entries read_collateral pack_collateral fst _ d _ cs).
  2: { intros c off Hc. by eapply read_collateral_packed. }
  2: { intros c Hc. by eapply length_pack_collateral. }
  2: { packed Ht 14%nat. }
  cbn [mbind result_bind].
  rewrite (placed_entries read_liquidity pack_liquidity fst _ d _ ls).
  2: { intros l off Hl. by eapply read_liquidity_packed. }
  2: { intros l Hl. by eapply length_pack_liquidity. }
  2: { by eapply placed_borrows. }
  cbn [mbind result_bind]. rewrite ot_deposits0, ot_borrows0. by destruct o.
Qed.

(** An obligation with one deposit and one borrow. *)
Definition demo_key (n : byte) : Pubkey := replicate 32 n.
Definition demo_obligation : SolendObligationRaw :=
  MkObligationRaw 1 419139121 false (demo_key Byte.x11) (demo_key Byte.x12)
    [MkCollateral (demo_key Byte.x13) 192822] [MkLiquidity (demo_key Byte.x14) (5 * 10 ^ 18)]
    (10 ^ 18) true 7 (2 ^ 100) false.

Definition demo_collateral : CollateralEntry :=
  (MkCollateral (demo_key Byte.x13) 192822, replicate 48 Byte.xaa).
Definition demo_liquidity : LiquidityEntry :=
  (MkLiquidity (demo_key Byte.x14) (5 * 10 ^ 18), (replicate 16 Byte.xbb, replicate 48 Byte.xcc)).

Lemma demo_obligation_typed :
  obligation_typed demo_obligation (replicate 64 Byte.xdd) (replicate 896 Byte.xee)
    [demo_collateral] [demo_liquidity].
Proof.
  split.
  11: { intros c ->%list_elem_of_singleton. by vm_compute. }
  11: { intros l ->%list_elem_of_singleton. by vm_compute. }
  all: by vm_compute.
Qed.

Lemma obligation_roundtrip_witness : ∃ data, decode_obligation data = Ok demo_obligation.
Proof.
  exists (pack_obligation demo_obligation (replicate 64 Byte.xdd) (replicate 896 Byte.xee)
    [demo_collateral] [demo_liquidity]).
  exact (obligation_roundtrip _ _ _ _ _ demo_obligation_typed).
Defined.

(** ** Headroom *)

(** The wads of Solend's [total_supply]. *)
Definition supply_wads (r : SolendReserveRaw) : Z :=
  rr_liquidity_available_amount r * RAW_SOLEND_WAD + rr_liquidity_borrowed_amount_wads r -
  rr_liquidity_accumulated_protocol_fees_wads r.

Lemma total_supply_Some r total : liquidity_total_supply_raw r = Some total →
  total = supply_wads r / RAW_SOLEND_WAD.
Proof.
  unfold liquidity_total_supply_raw, supply_wads.
  destruct (checked_u 128 (rr_liquidity_available_amount r * RAW_SOLEND_WAD)) as [a|] eqn:Ha; [|done].
  apply checked_u_Some in Ha as [-> _]. cbn [mbind option_bind].
  destruct (checked_u 128 (_ + _)) as [b|] eqn:Hb; [|done].
  apply checked_u_Some in Hb as [-> _]. cbn [mbind option_bind].
  destruct (checked_u 128 (_ - _)) as [c|] eqn:Hc; [|done].
  apply checked_u_Some in Hc as [-> _]. cbn [mbind option_bind].
  by intros [-> _]%checked_u_Some.
Qed.

(** The headroom is exact: when the reserve's total supply can be computed, a
    positive amount is within the headroom exactly when the deployed check on the
    deposit limit, the floor of the supply after the deposit against the limit,
    accepts it. *)
Theorem deposit_headroom_exact r total amount :
  liquidity_total_supply_raw r = Some total → 0 < amount →
  amount ≤ deposit_headroom_raw r ↔
  (amount * RAW_SOLEND_WAD + supply_wads r) / RAW_SOLEND_WAD ≤ rr_config_deposit_limit r.
Proof.
  intros Ht Ha. unfold deposit_headroom_raw. rewrite Ht.
  apply total_supply_Some in Ht. unfold RAW_SOLEND_WAD in *.
  rewrite Z.div_add_l by lia. rewrite <- Ht. lia.
Qed.

Definition demo_reserve : SolendReserveRaw :=
  MkReserveRaw 1 5 false [] [] 6 [] [] [] 1000 (25 * 10 ^ 17) (10 ^ 17) [] [] 2000
    80 0 10 50 20 90 150.
Lemma deposit_headroom_exact_witness :
  liquidity_total_supply_raw demo_reserve = Some 1002 ∧ 998 ≤ deposit_headroom_raw demo_reserve.
Proof.
  split; [by vm_compute|]. by apply (deposit_headroom_exact demo_reserve 1002); vm_compute.
Defined.
