(* ===== verification/SolendBoundary.v ===== *)
(** * Solend delegated-withdraw boundary ([solend_boundary.rs])

    The proof an executor attaches to a Solend execution, the gates on it, the
    walk over the declared sibling instructions and its declarative reading,
    and the account verifiers of the live path. *)
From S2P Require Import Prelude Borsh Solana Errors Records AccountDecode.

Definition SOLEND_VARIANT_REFRESH_RESERVE : Z := 3.
Definition SOLEND_VARIANT_WITHDRAW_OBLIGATION_COLLATERAL_AND_REDEEM : Z := 15.
Definition MAX_SIBLING_INSTRUCTIONS : nat := 16.

(** ** Data *)
Record ObligationFixture := MkObligationFixture {
  account_owner_program : Pubkey;
  obligation_authority : Pubkey;
  of_lending_market : Pubkey
}.

Record SiblingIxDescriptor := MkSibling {
  six_program_id : Pubkey;
  variant_byte : Z;
  target_reserve : option Pubkey;
  target_obligation : option Pubkey;
  target_lending_market : option Pubkey;
  target_destination : option Pubkey
}.

Record SolendBoundaryProof := MkSolendProof {
  solend_program_id : Pubkey;
  obligation_pubkey : Pubkey;
  obligation : ObligationFixture;
  reserve_pubkey : Pubkey;
  lending_market_pubkey : Pubkey;
  destination_pubkey : Pubkey;
  sibling_instructions : list SiblingIxDescriptor
}.

#[export] Instance borsh_obligation_fixture : Borsh ObligationFixture.
Proof.
  refine (c_iso (λ '(p, (a, m)), MkObligationFixture p a m)
    (λ o, (account_owner_program o, (obligation_authority o, of_lending_market o))) _ _
    (c_pair c_pubkey (c_pair c_pubkey c_pubkey)));
  [by intros []|by intros (?&?&?)].
Defined.

#[export] Instance borsh_sibling : Borsh SiblingIxDescriptor.
Proof.
  refine (c_iso (λ '(p, (v, (r, (o, (m, d))))), MkSibling p v r o m d)
    (λ s, (six_program_id s, (variant_byte s, (target_reserve s, (target_obligation s,
      (target_lending_market s, target_destination s)))))) _ _
    (c_pair c_pubkey (c_pair c_u8 (c_pair (c_option c_pubkey) (c_pair (c_option c_pubkey)
      (c_pair (c_option c_pubkey) (c_option c_pubkey)))))));
  [by intros []|by intros (?&?&?&?&?&?)].
Defined.

#[export] Instance borsh_solend_proof : Borsh SolendBoundaryProof.
Proof.
  refine (c_iso (λ '(p, (o, (f, (r, (m, (d, s)))))), MkSolendProof p o f r m d s)
    (λ x, (solend_program_id x, (obligation_pubkey x, (obligation x, (reserve_pubkey x,
      (lending_market_pubkey x, (destination_pubkey x, sibling_instructions x))))))) _ _
    (c_pair c_pubkey (c_pair c_pubkey (c_pair (borsh ObligationFixture) (c_pair c_pubkey
      (c_pair c_pubkey (c_pair c_pubkey (c_vec (borsh SiblingIxDescriptor)))))))));
  [by intros []|by intros (?&?&?&?&?&?&?)].
Defined.

(** ** The walk over the sibling instructions *)
Definition walk_state : Type := option nat * option nat.

Section siblings.
Context (expected_reserve expected_obligation : Pubkey).
Context (expected_lending_market expected_destination : Pubkey).

(** The body of the [for] loop: the new [(refresh_index, withdraw_index)]. *)
Definition sibling_step (i : nat) (ix : SiblingIxDescriptor) (st : walk_state) :
    Res walk_state :=
  let '(refresh_index, withdraw_index) := st in
  if bool_decide (six_program_id ix ≠ SOLEND_PROGRAM_ID_MAINNET) then Ok st
  else if variant_byte ix =? SOLEND_VARIANT_REFRESH_RESERVE then
    t_reserve ← ok_or (target_reserve ix) (authority_into SolendBoundaryVerificationFailed);
    if bool_decide (t_reserve = expected_reserve) then
      _ ← throw_if (bool_decide (is_Some refresh_index))
            (authority_into SolendDuplicateOrConflictingInstruction);
      Ok (Some i, withdraw_index)
    else Ok st
  else if variant_byte ix =? SOLEND_VARIANT_WITHDRAW_OBLIGATION_COLLATERAL_AND_REDEEM then
    t_reserve ← ok_or (target_reserve ix) (authority_into SolendBoundaryVerificationFailed);
    t_obligation ← ok_or (target_obligation ix)
                     (authority_into SolendBoundaryVerificationFailed);
    t_market ← ok_or (target_lending_market ix)
                 (authority_into SolendBoundaryVerificationFailed);
    t_destination ← ok_or (target_destination ix)
                      (authority_into SolendBoundaryVerificationFailed);
    if bool_decide (t_obligation = expected_obligation) then
      _ ← throw_if (bool_decide (t_reserve ≠ expected_reserve))
            (authority_into SolendReserveMismatch);
      _ ← throw_if (bool_decide (t_market ≠ expected_lending_market))
            (authority_into SolendLendingMarketMismatch);
      _ ← throw_if (bool_decide (t_destination ≠ expected_destination))
            (authority_into SolendDestinationMismatch);
      _ ← throw_if (bool_decide (is_Some withdraw_index))
            (authority_into SolendDuplicateOrConflictingInstruction);
      Ok (refresh_index, Some i)
    else
      _ ← throw_if (bool_decide (t_reserve = expected_reserve))
            (authority_into SolendDuplicateOrConflictingInstruction);
      Ok st
  else
    let touches_target :=
      bool_decide (target_reserve ix = Some expected_reserve) ||
      bool_decide (target_obligation ix = Some expected_obligation) in
    _ ← throw_if touches_target (authority_into SolendDuplicateOrConflictingInstruction);
    Ok st.

(** [for (i, ix) in siblings.iter().enumerate()] *)
Fixpoint sibling_loop (siblings : list SiblingIxDescriptor) (i : nat) (st : walk_state) :
    Res walk_state :=
  match siblings with
  | [] => Ok st
  | ix :: siblings => st' ← sibling_step i ix st; sibling_loop siblings (S i) st'
  end.

Definition verify_same_tx_refresh_and_withdraw (siblings : list SiblingIxDescriptor) :
    Res unit :=
  '(refresh_index, withdraw_index) ← sibling_loop siblings 0 (None, None);
  r ← ok_or refresh_index (authority_into SolendRefreshMissing);
  w ← ok_or withdraw_index (authority_into SolendWithdrawMissing);
  throw_if (w <=? r)%nat (authority_into SolendInstructionOrderInvalid).

(** *** Declarative reading *)

(** The refresh of the expected reserve. *)
Definition is_refresh (ix : SiblingIxDescriptor) : Prop :=
  six_program_id ix = SOLEND_PROGRAM_ID_MAINNET ∧ variant_byte ix = 3 ∧
  target_reserve ix = Some expected_reserve.

(** The withdraw of the expected obligation, every account as expected. *)
Definition is_withdraw (ix : SiblingIxDescriptor) : Prop :=
  six_program_id ix = SOLEND_PROGRAM_ID_MAINNET ∧ variant_byte ix = 15 ∧
  target_obligation ix = Some expected_obligation ∧
  target_reserve ix = Some expected_reserve ∧
  target_lending_market ix = Some expected_lending_market ∧
  target_destination ix = Some expected_destination.

(** An instruction that may stand beside them. *)
Definition is_harmless (ix : SiblingIxDescriptor) : Prop :=
  six_program_id ix ≠ SOLEND_PROGRAM_ID_MAINNET ∨
  (target_reserve ix ≠ Some expected_reserve ∧
   (variant_byte ix = 3 → is_Some (target_reserve ix)) ∧
   (variant_byte ix = 15 → is_Some (target_reserve ix) ∧
      is_Some (target_lending_market ix) ∧ is_Some (target_destination ix) ∧
      is_Some (target_obligation ix)) ∧
   (variant_byte ix ≠ 3 → target_obligation ix ≠ Some expected_obligation)).

Ltac unfold_step := unfold sibling_step, is_harmless, is_refresh, is_withdraw,
  SOLEND_VARIANT_REFRESH_RESERVE,
  SOLEND_VARIANT_WITHDRAW_OBLIGATION_COLLATERAL_AND_REDEEM in *; simpl in *.

Lemma sibling_step_refresh i ix ri wi : is_refresh ix →
  sibling_step i ix (ri, wi) =
  match ri with
  | Some _ => Err (authority_into SolendDuplicateOrConflictingInstruction)
  | None => Ok (Some i, wi)
  end.
Proof.
  destruct ix. unfold_step. intros (-> & -> & ->).
  rewrite bool_decide_false by (intros H; by apply H). simpl.
  rewrite bool_decide_true by done. by destruct ri.
Qed.

Lemma sibling_step_withdraw i ix ri wi : is_withdraw ix →
  sibling_step i ix (ri, wi) =
  match wi with
  | Some _ => Err (authority_into SolendDuplicateOrConflictingInstruction)
  | None => Ok (ri, Some i)
  end.
Proof.
  destruct ix. unfold_step. intros (-> & -> & -> & -> & -> & ->).
  rewrite bool_decide_false by (intros H; by apply H). simpl.
  rewrite bool_decide_true by done.
  do 3 rewrite (bool_decide_false (_ ≠ _)) by (intros H; by apply H). by destruct wi.
Qed.

Lemma sibling_step_harmless i ix st : is_harmless ix → sibling_step i ix st = Ok st.
Proof.
  destruct ix as [p v tr to tm td], st as [ri wi]. unfold_step.
  case_bool_decide as Hp; [done|]. intros [?|(Hr & H3 & H15 & Ho)]; [done|].
  destruct (Z.eqb_spec v 3) as [->|Hv3].
  { destruct H3 as [r ->]; [done|]. simpl. rewrite bool_decide_false; congruence. }
  specialize (Ho Hv3). destruct (Z.eqb_spec v 15) as [->|Hv15].
  - destruct H15 as ([r ->] & [m ->] & [d ->] & [o ->]); [done|]. simpl.
    by rewrite !bool_decide_false by congruence.
  - by rewrite !bool_decide_false by congruence.
Qed.

Lemma sibling_step_classify i ix st st' : sibling_step i ix st = Ok st' →
  is_harmless ix ∨ is_refresh ix ∨ is_withdraw ix.
Proof.
  destruct ix as [p v tr to tm td], st as [ri wi]. unfold_step.
  case_bool_decide as Hp; [by auto|].
  assert (p = SOLEND_PROGRAM_ID_MAINNET) as -> by (by destruct (decide (p = SOLEND_PROGRAM_ID_MAINNET))).
  intros H. destruct (Z.eqb_spec v 3) as [->|Hv3].
  { apply bind_Ok in H as (r & [= ->]%ok_or_Ok & H). case_bool_decide; [naive_solver|].
    left; right. split_and!; naive_solver. }
  destruct (Z.eqb_spec v 15) as [->|Hv15].
  - apply bind_Ok in H as (r & [= ->]%ok_or_Ok & H).
    apply bind_Ok in H as (o & [= ->]%ok_or_Ok & H).
    apply bind_Ok in H as (m & [= ->]%ok_or_Ok & H).
    apply bind_Ok in H as (d & [= ->]%ok_or_Ok & H).
    case_bool_decide; inv_ok H; b2p.
    + right; right. split_and!; try done; by f_equal.
    + left; right. split_and!; naive_solver.
  - inv_ok H. b2p. left; right. naive_solver.
Qed.

(** A step neither skips a target instruction nor invents one. *)
Lemma sibling_step_Ok i ix ri wi st' :
  sibling_step i ix (ri, wi) = Ok st' ↔
  (is_harmless ix ∧ st' = (ri, wi)) ∨
  (is_refresh ix ∧ ri = None ∧ st' = (Some i, wi)) ∨
  (is_withdraw ix ∧ wi = None ∧ st' = (ri, Some i)).
Proof.
  split.
  - intros H. destruct (sibling_step_classify _ _ _ _ H) as [Hc|[Hc|Hc]].
    + rewrite sibling_step_harmless in H by done. naive_solver.
    + rewrite sibling_step_refresh in H by done. destruct ri; naive_solver.
    + rewrite sibling_step_withdraw in H by done. destruct wi; naive_solver.
  - intros [[? ->]|[(? & -> & ->)|(? & -> & ->)]].
    + by apply sibling_step_harmless.
    + by rewrite sibling_step_refresh.
    + by rewrite sibling_step_withdraw.
Qed.

Lemma sibling_loop_both l i r w st' :
  sibling_loop l i (Some r, Some w) = Ok st' ↔
  Forall is_harmless l ∧ st' = (Some r, Some w).
Proof.
  revert i. induction l as [|ix l IH]; intros i; cbn [sibling_loop].
  - rewrite Forall_nil. naive_solver.
  - rewrite bind_Ok, Forall_cons. setoid_rewrite sibling_step_Ok. split.
    + intros (st & [[? ->]|[(_ & [=] & _)|(_ & [=] & _)]] & [? ->]%IH). naive_solver.
    + intros [[? ?] ->]. exists (Some r, Some w). split; [by left|]. by apply IH.
Qed.

Lemma sibling_loop_refreshed l i r st' : 
  sibling_loop l i (Some r, None) = Ok st' ↔
  (Forall is_harmless l ∧ st' = (Some r, None)) ∨
  (∃ mid withdraw post, l = mid ++ withdraw :: post ∧ Forall is_harmless mid ∧
     is_withdraw withdraw ∧ Forall is_harmless post ∧
     st' = (Some r, Some (i + length mid)%nat)).
Proof.
  revert i. induction l as [|ix l IH]; intros i; cbn [sibling_loop].
  - split; [by intros [= <-]; left|]. intros [[_ ->]|(mid & w & post & E & _)]; [done|].
    by destruct mid.
  - rewrite bind_Ok, Forall_cons. setoid_rewrite sibling_step_Ok. split.
    + intros (st & [[Hx ->]|[(_ & [=] & _)|(Hx & _ & ->)]] & H).
      * apply IH in H as [[? ->]|(mid & w & post & -> & Hm & Hw & Hp & ->)]; [by left|].
        right. exists (ix :: mid), w, post. split_and!; try done; [by constructor|].
        simpl. do 2 f_equal. lia.
      * apply sibling_loop_both in H as [? ->]. right. exists [], ix, l.
        rewrite Nat.add_0_r. by split_and!.
    + intros [[[Hx Hl] ->]|(mid & w & post & E & Hm & Hw & Hp & ->)].
      * exists (Some r, None). split; [by left|]. apply IH. by left.
      * destruct mid as [|y mid]; simplify_eq/=.
        -- exists (Some r, Some i). rewrite Nat.add_0_r. split; [by right; right|].
           by apply sibling_loop_both.
        -- inversion_clear Hm. exists (Some r, None). split; [by left|]. apply IH. right.
           exists mid, w, post. split_and!; try done. do 2 f_equal. lia.
Qed.

(** With the withdraw seen first, a refresh can only come later. *)
Lemma sibling_loop_withdrawn l i w r' w' :
  sibling_loop l i (None, Some w) = Ok (Some r', w') → w' = Some w ∧ (i ≤ r')%nat.
Proof.
  revert i. induction l as [|ix l IH]; intros i; cbn [sibling_loop]; [by intros [=]|].
  rewrite bind_Ok. setoid_rewrite sibling_step_Ok.
  intros (st & [[_ ->]|[(_ & _ & ->)|(_ & [=] & _)]] & H).
  - apply IH in H as [? ?]. split; [done|lia].
  - apply sibling_loop_both in H as [_ [= -> ->]]. split; [done|lia].
Qed.

(** The accepted lists: harmless instructions around one refresh followed by
    one withdraw. *)
Definition sibling_shape (siblings : list SiblingIxDescriptor) : Prop :=
  ∃ pre refresh mid withdraw post,
    siblings = pre ++ refresh :: mid ++ withdraw :: post ∧
    is_refresh refresh ∧ is_withdraw withdraw ∧
    Forall is_harmless pre ∧ Forall is_harmless mid ∧ Forall is_harmless post.

Lemma sibling_loop_ordered l i r w :
  sibling_loop l i (None, None) = Ok (Some r, Some w) ∧ (r < w)%nat ↔
  ∃ pre refresh mid withdraw post,
    l = pre ++ refresh :: mid ++ withdraw :: post ∧
    is_refresh refresh ∧ is_withdraw withdraw ∧
    Forall is_harmless pre ∧ Forall is_harmless mid ∧ Forall is_harmless post ∧
    r = (i + length pre)%nat ∧ w = (i + length pre + 1 + length mid)%nat.
Proof.
  revert i. induction l as [|ix l IH]; intros i; cbn [sibling_loop].
  - split; [by intros ([=] & _)|]. intros (pre & rf & mid & wd & post & E & _).
    by destruct pre.
  - rewrite bind_Ok. setoid_rewrite sibling_step_Ok. split.
    + intros [(st & [[Hx ->]|[(Hx & _ & ->)|(Hx & _ & ->)]] & H) Hlt].
      * destruct (proj1 (IH (S i))) as
          (pre & rf & mid & wd & post & -> & ? & ? & ? & ? & ? & -> & ->); [done|].
        exists (ix :: pre), rf, mid, wd, post.
        split_and!; try done; [by constructor|simpl; lia..].
      * apply sibling_loop_refreshed in H as [[_ [=]]|(mid & wd & post & -> & ? & ? & ? & [= -> ->])].
        exists [], ix, mid, wd, post. split_and!; try done; simpl; lia.
      * apply sibling_loop_withdrawn in H as [[= ->] ?]. lia.
    + intros (pre & rf & mid & wd & post & E & Hr & Hw & Hpre & Hmid & Hpost & -> & ->).
      split; [|lia]. destruct pre as [|y pre]; simplify_eq/=.
      * exists (Some i, None). split; [by right; left|]. apply sibling_loop_refreshed. right.
        exists mid, wd, post. split_and!; try done. do 2 f_equal; f_equal; lia.
      * inversion_clear Hpre. exists (None, None). split; [by left|].
        refine (proj1 (proj2 (IH (S i)) _)).
        exists pre, rf, mid, wd, post. split_and!; try done; lia.
Qed.
End siblings.

Lemma verify_same_tx_Ok er eo em ed siblings :
  verify_same_tx_refresh_and_withdraw er eo em ed siblings = Ok tt ↔
  sibling_shape er eo em ed siblings.
Proof.
  unfold verify_same_tx_refresh_and_withdraw, sibling_shape. split.
  - rewrite bind_Ok. intros ([ri wi] & Hl & H). inv_ok H. b2p.
    destruct (proj1 (sibling_loop_ordered er eo em ed siblings 0 a a0)) as
      (pre & rf & mid & wd & post & ? & ? & ? & ? & ? & ? & _); [done|].
    by exists pre, rf, mid, wd, post.
  - intros (pre & rf & mid & wd & post & H).
    destruct (proj2 (sibling_loop_ordered er eo em ed siblings 0 (length pre)
      (length pre + 1 + length mid))) as [Hl Hlt].
    { exists pre, rf, mid, wd, post. naive_solver. }
    rewrite Hl. cbn [mbind result_bind ok_or]. apply throw_if_Ok. b2p. lia.
Qed.

(** ** The boundary of an execution *)
Definition verify_solend_delegated_boundary (record : AuthorizationRecord)
    (proof : SolendBoundaryProof) : Res unit :=
  _ ← throw_if (bool_decide (solend_program_id proof ≠ SOLEND_PROGRAM_ID_MAINNET))
        (authority_into SolendProgramMismatch);
  _ ← throw_if (bool_decide
          (account_owner_program (obligation proof) ≠ SOLEND_PROGRAM_ID_MAINNET))
        (authority_into SolendObligationOwnerMismatch);
  _ ← throw_if (bool_decide (obligation_authority (obligation proof) = user record))
        (authority_into SolendMainWalletObligationRejected);
  _ ← throw_if (bool_decide
          (obligation_authority (obligation proof) ≠ delegated_wallet record))
        (authority_into SolendObligationAuthorityMismatch);
  _ ← throw_if (bool_decide
          (of_lending_market (obligation proof) ≠ lending_market_pubkey proof))
        (authority_into SolendLendingMarketMismatch);
  _ ← throw_if (bool_decide (destination_pubkey proof ≠ destination record))
        (authority_into SolendDestinationMismatch);
  _ ← throw_if (MAX_SIBLING_INSTRUCTIONS <? length (sibling_instructions proof))%nat
        (authority_into SolendBoundaryVerificationFailed);
  verify_same_tx_refresh_and_withdraw (reserve_pubkey proof) (obligation_pubkey proof)
    (lending_market_pubkey proof) (destination_pubkey proof) (sibling_instructions proof).

(** What an accepted proof says. *)
Record solend_boundary_ok (record : AuthorizationRecord) (proof : SolendBoundaryProof) :
    Prop := {
  sb_program : solend_program_id proof = SOLEND_PROGRAM_ID_MAINNET;
  sb_owner : account_owner_program (obligation proof) = SOLEND_PROGRAM_ID_MAINNET;
  sb_delegated : obligation_authority (obligation proof) = delegated_wallet record;
  sb_not_user : obligation_authority (obligation proof) ≠ user record;
  sb_market : of_lending_market (obligation proof) = lending_market_pubkey proof;
  sb_destination : destination_pubkey proof = destination record;
  sb_bound : (length (sibling_instructions proof) ≤ 16)%nat;
  sb_shape : sibling_shape (reserve_pubkey proof) (obligation_pubkey proof)
    (lending_market_pubkey proof) (destination_pubkey proof) (sibling_instructions proof)
}.

Lemma verify_solend_delegated_boundary_Ok record proof :
  verify_solend_delegated_boundary record proof = Ok tt ↔ solend_boundary_ok record proof.
Proof.
  unfold verify_solend_delegated_boundary. split.
  - intros H. inv_ok1 H. rewrite ?neq_guard, ?bool_decide_eq_false in *.
    match goal with H : verify_same_tx_refresh_and_withdraw _ _ _ _ _ = _ |- _ =>
      apply verify_same_tx_Ok in H end. b2p. by constructor.
  - intros []. repeat (rewrite throw_if_false; [|by rewrite ?neq_guard, ?bool_decide_eq_false]).
    rewrite throw_if_false by (b2p; unfold MAX_SIBLING_INSTRUCTIONS; lia).
    by apply verify_same_tx_Ok.
Qed.

(** ** Live accounts

    [try_borrow_data] reads the account's current bytes. *)
Definition verify_obligation_account_info (account : Account)
    (record : AuthorizationRecord) (expected_lending_market : Pubkey) :
    Res DecodedSolendObligation :=
  _ ← throw_if (bool_decide (owner account ≠ SOLEND_PROGRAM_ID_MAINNET))
        (authority_into SolendAccountOwnerMismatch);
  decoded ← decode_obligation (data account);
  _ ← require_obligation_owned_by_delegated_wallet decoded record;
  _ ← require_obligation_lending_market decoded expected_lending_market;
  Ok decoded.

Definition verify_reserve_account_info (account : Account)
    (expected_lending_market : Pubkey) (current_slot : Z) : Res DecodedSolendReserve :=
  _ ← throw_if (bool_decide (owner account ≠ SOLEND_PROGRAM_ID_MAINNET))
        (authority_into SolendAccountOwnerMismatch);
  decoded ← decode_reserve (data account);
  _ ← require_reserve_lending_market decoded expected_lending_market;
  _ ← require_reserve_not_stale decoded current_slot;
  Ok decoded.

Definition verify_spl_token_account_info (account : Account)
    (expected_mint expected_authority : Pubkey) : Res DecodedSplTokenAccountLite :=
  _ ← throw_if (bool_decide (owner account ≠ SPL_TOKEN_PROGRAM_ID))
        (authority_into SolendTokenAccountOwnerMismatch);
  decoded ← decode_spl_token_account_lite (data account);
  _ ← require_spl_token_mint decoded expected_mint;
  _ ← require_spl_token_authority decoded expected_authority;
  Ok decoded.

Lemma verify_obligation_account_info_Ok account record market d :
  verify_obligation_account_info account record market = Ok d ↔
  owner account = SOLEND_PROGRAM_ID_MAINNET ∧ decode_obligation (data account) = Ok d ∧
  ob_owner d = delegated_wallet record ∧ ob_owner d ≠ user record ∧
  ob_lending_market d = market.
Proof.
  unfold verify_obligation_account_info, require_obligation_owned_by_delegated_wallet,
    require_obligation_lending_market. split.
  - intros H. inv_ok H. rewrite ?neq_guard, ?bool_decide_eq_false in *. by split_and!.
  - intros (-> & Hd & Ho & Hu & <-). rewrite throw_if_false by (by apply neq_guard).
    rewrite Hd. cbn [mbind result_bind].
    rewrite (throw_if_false (bool_decide (_ = _))) by (by apply bool_decide_eq_false).
    rewrite Ho. do 2 rewrite (proj2 (neq_guard _ _)) by done. done.
Qed.

(** ** Properties *)

(** C37: the Solend boundary accepts exactly the proofs whose obligation is the
    Solend program's, under the delegated wallet and not the user, on the
    declared market, paying the signed destination, and whose sibling list (at
    most sixteen) is harmless instructions around one refresh of the reserve
    followed by one withdraw of reserve, obligation, market and destination. *)
Theorem solend_boundary_functional record proof :
  verify_solend_delegated_boundary record proof = Ok tt ↔ solend_boundary_ok record proof.
Proof. apply verify_solend_delegated_boundary_Ok. Qed.
