(* ===== verification/JupiterBoundary.v ===== *)
(** * Jupiter swap boundary ([jupiter_boundary.rs])

    The proof attached to a Jupiter execution, the gates on it, and the
    class-and-phase walk over the declared sibling instructions with its
    declarative reading. *)
From S2P Require Import Prelude Borsh Solana Errors Records.

(** ** Pinned program ids *)
Definition JUPITER_V6_PROGRAM_ID_MAINNET : Pubkey :=
  Eval vm_compute in pubkey "JUP6LkbZbjS1jKKwapdHNy74zcZ3tLUZoi5QNyVTaV4".
Definition SPL_TOKEN_PROGRAM_ID : Pubkey :=
  Eval vm_compute in pubkey "TokenkegQfeZyiNwAJbNbGKPFXCWuBvf9Ss623VQ5DA".
Definition ATA_PROGRAM_ID : Pubkey :=
  Eval vm_compute in pubkey "ATokenGPvbdGVxr1b2hvZbsiqW5xWH25efTNsLJA8knL".
Definition COMPUTE_BUDGET_PROGRAM_ID : Pubkey :=
  Eval vm_compute in pubkey "ComputeBudget111111111111111111111111111111".

Definition MAX_JUPITER_SIBLING_INSTRUCTIONS : nat := 16.
Definition MAX_WRITABLE_ACCOUNTS_PER_DESCRIPTOR : nat := 32.
Definition SPL_TOKEN_ALLOWED_VARIANT_BYTES : list Z := [3; 9; 12; 17].

(** ** Data *)
Inductive JupiterSiblingClass :=
| ComputeBudget | JupiterSwap | SplToken | AssociatedTokenAccount | SystemClass.
#[export] Instance sibling_class_eq_dec : EqDecision JupiterSiblingClass.
Proof. solve_decision. Defined.

Definition from_program_id (program_id : Pubkey) : option JupiterSiblingClass :=
  if bool_decide (program_id = COMPUTE_BUDGET_PROGRAM_ID) then Some ComputeBudget
  else if bool_decide (program_id = JUPITER_V6_PROGRAM_ID_MAINNET) then Some JupiterSwap
  else if bool_decide (program_id = SPL_TOKEN_PROGRAM_ID) then Some SplToken
  else if bool_decide (program_id = ATA_PROGRAM_ID) then Some AssociatedTokenAccount
  else if bool_decide (program_id = system_program_id) then Some SystemClass
  else None.

Inductive PhaseCursor := BeforeSwap | AtSwap | AfterSwap.

Record JupiterSiblingIxDescriptor := MkJupiterSibling {
  jx_program_id : Pubkey;
  jx_variant_byte : Z;
  writable_accounts : list Pubkey
}.

Record JupiterTokenAccountFixture := MkTokenFixture {
  tf_address : Pubkey;
  tf_mint : Pubkey;
  tf_owner : Pubkey;
  tf_amount : Z
}.

Record JupiterBoundaryProof := MkJupiterProof {
  jupiter_program_id : Pubkey;
  expected_destination_token_account : Pubkey;
  expected_destination_mint : Pubkey;
  expected_input_mint : Pubkey;
  delegated_input_token_account : Pubkey;
  delegated_output_token_account : Pubkey;
  destination_pre_snapshot : JupiterTokenAccountFixture;
  destination_post_snapshot : JupiterTokenAccountFixture;
  jp_min_output_amount_raw : Z;
  jp_sibling_instructions : list JupiterSiblingIxDescriptor
}.

#[export] Instance borsh_jupiter_sibling : Borsh JupiterSiblingIxDescriptor.
Proof.
  refine (c_iso (λ '(p, (v, w)), MkJupiterSibling p v w)
    (λ s, (jx_program_id s, (jx_variant_byte s, writable_accounts s))) _ _
    (c_pair c_pubkey (c_pair c_u8 (c_vec c_pubkey))));
  [by intros []|by intros (?&?&?)].
Defined.

#[export] Instance borsh_token_fixture : Borsh JupiterTokenAccountFixture.
Proof.
  refine (c_iso (λ '(a, (m, (o, n))), MkTokenFixture a m o n)
    (λ s, (tf_address s, (tf_mint s, (tf_owner s, tf_amount s)))) _ _
    (c_pair c_pubkey (c_pair c_pubkey (c_pair c_pubkey c_u64))));
  [by intros []|by intros (?&?&?&?)].
Defined.

#[export] Instance borsh_jupiter_proof : Borsh JupiterBoundaryProof.
Proof.
  refine (c_iso (λ '(p, (d, (dm, (im, (i, (o, (pre, (post, (n, s))))))))),
      MkJupiterProof p d dm im i o pre post n s)
    (λ x, (jupiter_program_id x, (expected_destination_token_account x,
      (expected_destination_mint x, (expected_input_mint x,
      (delegated_input_token_account x, (delegated_output_token_account x,
      (destination_pre_snapshot x, (destination_post_snapshot x,
      (jp_min_output_amount_raw x, jp_sibling_instructions x)))))))))) _ _
    (c_pair c_pubkey (c_pair c_pubkey (c_pair c_pubkey (c_pair c_pubkey (c_pair c_pubkey
      (c_pair c_pubkey (c_pair (borsh JupiterTokenAccountFixture)
      (c_pair (borsh JupiterTokenAccountFixture) (c_pair c_u64
        (c_vec (borsh JupiterSiblingIxDescriptor))))))))))));
  [by intros []|by intros (?&?&?&?&?&?&?&?&?&?)].
Defined.

(** ** The walk over the sibling instructions *)
Section siblings.
Context (allowed_writable_set : list Pubkey).

(** The relative-ordering cursor: new cursor and swap count. *)
Definition cursor_step (cursor : PhaseCursor) (class : JupiterSiblingClass)
    (swap_count : nat) : Res (PhaseCursor * nat) :=
  match cursor, class with
  | BeforeSwap, JupiterSwap => Ok (AtSwap, S swap_count)
  | AtSwap, JupiterSwap | AfterSwap, JupiterSwap =>
      Err (authority_into JupiterInstructionOrderInvalid)
  | AtSwap, _ => Ok (AfterSwap, swap_count)
  | (BeforeSwap | AfterSwap), _ => Ok (cursor, swap_count)
  end.

(** [for w in &ix.writable_accounts] *)
Fixpoint check_writable (ws : list Pubkey) : Res unit :=
  match ws with
  | [] => Ok tt
  | w :: ws => _ ← throw_if (bool_decide (w ∉ allowed_writable_set))
                     (authority_into JupiterUnexpectedWritableAccount);
               check_writable ws
  end.

(** The body of [for ix in siblings]. *)
Definition sibling_step (ix : JupiterSiblingIxDescriptor) (st : PhaseCursor * nat) :
    Res (PhaseCursor * nat) :=
  class ← ok_or (from_program_id (jx_program_id ix))
            (authority_into JupiterIllegalSiblingInstruction);
  _ ← throw_if (bool_decide (class = SplToken) &&
                bool_decide (jx_variant_byte ix ∉ SPL_TOKEN_ALLOWED_VARIANT_BYTES))
        (authority_into JupiterIllegalSiblingInstruction);
  st' ← cursor_step st.1 class st.2;
  _ ← (if bool_decide (class ≠ JupiterSwap) then check_writable (writable_accounts ix)
       else Ok tt);
  Ok st'.

Fixpoint sibling_loop (siblings : list JupiterSiblingIxDescriptor)
    (st : PhaseCursor * nat) : Res (PhaseCursor * nat) :=
  match siblings with
  | [] => Ok st
  | ix :: siblings => st' ← sibling_step ix st; sibling_loop siblings st'
  end.

Definition verify_sibling_instructions (siblings : list JupiterSiblingIxDescriptor) :
    Res unit :=
  '(_, swap_count) ← sibling_loop siblings (BeforeSwap, 0%nat);
  throw_if (negb (swap_count =? 1)%nat) (authority_into JupiterInstructionOrderInvalid).

(** *** Declarative reading *)
Definition is_swap (ix : JupiterSiblingIxDescriptor) : Prop :=
  jx_program_id ix = JUPITER_V6_PROGRAM_ID_MAINNET.

(** A sibling of an allowed class other than the swap: token instructions of
    the allowed kinds only, writable accounts in the allowed set. *)
Definition is_side (ix : JupiterSiblingIxDescriptor) : Prop :=
  jx_program_id ix ∈ [COMPUTE_BUDGET_PROGRAM_ID; SPL_TOKEN_PROGRAM_ID; ATA_PROGRAM_ID;
                      system_program_id] ∧
  (jx_program_id ix = SPL_TOKEN_PROGRAM_ID →
   jx_variant_byte ix ∈ SPL_TOKEN_ALLOWED_VARIANT_BYTES) ∧
  Forall (.∈ allowed_writable_set) (writable_accounts ix).

Definition sibling_shape (siblings : list JupiterSiblingIxDescriptor) : Prop :=
  ∃ pre swap post, siblings = pre ++ swap :: post ∧ is_swap swap ∧
    Forall is_side pre ∧ Forall is_side post.

Lemma check_writable_Ok ws :
  check_writable ws = Ok tt ↔ Forall (.∈ allowed_writable_set) ws.
Proof.
  induction ws as [|w ws IH]; simpl; [by rewrite Forall_nil|].
  rewrite Forall_cons, <- IH, bind_Ok. setoid_rewrite throw_if_Ok.
  setoid_rewrite bool_decide_eq_false. split.
  - intros (_ & Hw & ?). split; [by apply dec_stable|done].
  - intros [? ?]. exists tt. naive_solver.
Qed.

Lemma sibling_step_swap ix cur n : is_swap ix →
  sibling_step ix (cur, n) =
  match cur with
  | BeforeSwap => Ok (AtSwap, S n)
  | _ => Err (authority_into JupiterInstructionOrderInvalid)
  end.
Proof.
  destruct ix as [p v ws]. unfold is_swap, sibling_step. simpl. intros ->.
  replace (from_program_id _) with (Some JupiterSwap) by (by vm_compute).
  by destruct cur.
Qed.

Lemma from_program_id_side p c :
  from_program_id p = Some c → c ≠ JupiterSwap ↔
  p ∈ [COMPUTE_BUDGET_PROGRAM_ID; SPL_TOKEN_PROGRAM_ID; ATA_PROGRAM_ID; system_program_id].
Proof.
  unfold from_program_id. repeat (case_bool_decide; [intros [= <-]; subst p|]); [..|done].
  2: { split; [done|]. intros Hin. rewrite !elem_of_cons, elem_of_nil in Hin.
       by destruct_or! Hin. }
  all: split; [intros _; rewrite !elem_of_cons; tauto|done].
Qed.

Lemma from_program_id_token p : from_program_id p = Some SplToken ↔ p = SPL_TOKEN_PROGRAM_ID.
Proof.
  split; [|intros ->; by vm_compute].
  unfold from_program_id. by repeat (case_bool_decide; [intros [=]; done|]).
Qed.

Lemma from_program_id_swap p :
  from_program_id p = Some JupiterSwap → p = JUPITER_V6_PROGRAM_ID_MAINNET.
Proof.
  unfold from_program_id. by repeat (case_bool_decide; [intros [=]; done|]).
Qed.

Lemma is_side_class p :
  p ∈ [COMPUTE_BUDGET_PROGRAM_ID; SPL_TOKEN_PROGRAM_ID; ATA_PROGRAM_ID; system_program_id] →
  is_Some (from_program_id p).
Proof.
  unfold from_program_id. intros Hin.
  repeat (case_bool_decide; [by eexists|]). set_solver.
Qed.

Lemma sibling_step_side ix cur n : is_side ix →
  sibling_step ix (cur, n) =
  Ok (match cur with BeforeSwap => BeforeSwap | _ => AfterSwap end, n).
Proof.
  destruct ix as [p v ws]. unfold is_side, sibling_step. cbn [jx_program_id
    jx_variant_byte writable_accounts]. intros (Hp & Hv & Hw%check_writable_Ok).
  destruct (is_side_class p Hp) as [c Hc]. rewrite Hc. cbn [ok_or mbind result_bind].
  apply (from_program_id_side p c Hc) in Hp.
  rewrite throw_if_false.
  2: { apply andb_false_iff. rewrite !bool_decide_eq_false.
       destruct (decide (c = SplToken)) as [->|]; [right|by left].
       apply from_program_id_token in Hc. naive_solver. }
  rewrite (bool_decide_true (c ≠ JupiterSwap)) by done. simpl fst. simpl snd.
  destruct cur, c; try done; cbn [cursor_step mbind result_bind]; by rewrite Hw.
Qed.

Lemma jupiter_step_classify ix st st' :
  sibling_step ix st = Ok st' → is_swap ix ∨ is_side ix.
Proof.
  destruct ix as [p v ws], st as [cur n]. unfold is_swap, is_side, sibling_step.
  cbn [jx_program_id jx_variant_byte writable_accounts]. intros H.
  apply bind_Ok in H as (c & Hc%ok_or_Ok & H).
  apply bind_Ok in H as (_ & Hv%throw_if_Ok & H).
  apply bind_Ok in H as (st2 & _ & H). apply bind_Ok in H as ([] & Hw & _).
  destruct (decide (c = JupiterSwap)) as [->|Hne].
  - left. by apply from_program_id_swap.
  - right. rewrite bool_decide_true in Hw by done. split_and!.
    + by apply (from_program_id_side p c Hc).
    + intros Hp%from_program_id_token. simplify_eq. b2p.
      destruct Hv as [Hv|Hv]; [done|]. by apply dec_stable.
    + by apply check_writable_Ok.
Qed.

(** After the swap every further instruction is a side instruction. *)
Lemma sibling_loop_after l cur n st' : cur ≠ BeforeSwap →
  sibling_loop l (cur, n) = Ok st' → Forall is_side l ∧ st'.2 = n.
Proof.
  revert cur. induction l as [|ix l IH]; intros cur Hc; cbn [sibling_loop].
  - intros [= <-]. by split.
  - rewrite bind_Ok. intros (st & Hs & Hl).
    destruct (jupiter_step_classify _ _ _ Hs) as [Hx|Hx].
    + rewrite sibling_step_swap in Hs by done. by destruct cur.
    + rewrite sibling_step_side in Hs by done. destruct cur; simplify_eq;
        (apply IH in Hl as [? ?]; [split; [by constructor|done]|done]).
Qed.

Lemma sibling_loop_sides l cur n :
  Forall is_side l → ∃ cur', sibling_loop l (cur, n) = Ok (cur', n) ∧
    (cur = BeforeSwap → cur' = BeforeSwap).
Proof.
  intros Hl. revert cur. induction Hl as [|ix l Hx Hl IH]; intros cur; cbn [sibling_loop].
  - by exists cur.
  - rewrite sibling_step_side by done. cbn [mbind result_bind].
    destruct (IH (match cur with BeforeSwap => BeforeSwap | _ => AfterSwap end))
      as (cur' & -> & Hc). exists cur'. split; [done|]. intros ->. by apply Hc.
Qed.

Lemma sibling_loop_before l st' :
  sibling_loop l (BeforeSwap, 0%nat) = Ok st' →
  (Forall is_side l ∧ st'.2 = 0%nat) ∨ (sibling_shape l ∧ st'.2 = 1%nat).
Proof.
  induction l as [|ix l IH]; cbn [sibling_loop].
  - intros [= <-]. by left.
  - rewrite bind_Ok. intros (st & Hs & Hl).
    destruct (jupiter_step_classify _ _ _ Hs) as [Hx|Hx].
    + rewrite sibling_step_swap in Hs by done. simplify_eq.
      apply sibling_loop_after in Hl as [??]; [|done].
      right. split; [|done]. by exists [], ix, l.
    + rewrite sibling_step_side in Hs by done. simplify_eq.
      destruct (IH Hl) as [[??]|[(pre & sw & post & -> & ? & ? & ?) ?]].
      * left. split; [by constructor|done].
      * right. split; [|done]. exists (ix :: pre), sw, post.
        split_and!; try done. by constructor.
Qed.

Lemma sibling_loop_app l1 l2 st :
  sibling_loop (l1 ++ l2) st = (st' ← sibling_loop l1 st; sibling_loop l2 st').
Proof.
  revert st. induction l1 as [|ix l1 IH]; intros st; cbn [app sibling_loop]; [done|].
  destruct (sibling_step ix st); cbn [mbind result_bind]; [apply IH|done].
Qed.

Lemma verify_sibling_instructions_Ok l :
  verify_sibling_instructions l = Ok tt ↔ sibling_shape l.
Proof.
  unfold verify_sibling_instructions. rewrite bind_Ok. split.
  - intros ([cur n] & Hl & Hn%throw_if_Ok). b2p. apply Nat.eqb_eq in Hn as ->.
    apply sibling_loop_before in Hl as [[_ ?]|[? _]]; done.
  - intros (pre & sw & post & -> & Hsw & Hpre & Hpost).
    destruct (sibling_loop_sides pre BeforeSwap 0 Hpre) as (cur & Hl & Hc).
    rewrite (Hc eq_refl) in Hl.
    destruct (sibling_loop_sides post AtSwap 1 Hpost) as (cur' & Hl' & _).
    exists (cur', 1%nat). split; [|done].
    rewrite sibling_loop_app, Hl. cbn [mbind result_bind sibling_loop].
    rewrite sibling_step_swap by done. cbn [mbind result_bind]. done.
Qed.
End siblings.

(** ** The boundary of an execution *)
Definition build_allowed_writable_set (record : AuthorizationRecord)
    (proof : JupiterBoundaryProof) : list Pubkey :=
  [delegated_wallet record; destination record; delegated_input_token_account proof;
   delegated_output_token_account proof].

(** [for ix in &proof.sibling_instructions]: the writable lists are bounded. *)
Fixpoint check_writable_bounds (siblings : list JupiterSiblingIxDescriptor) : Res unit :=
  match siblings with
  | [] => Ok tt
  | ix :: siblings =>
      _ ← throw_if (MAX_WRITABLE_ACCOUNTS_PER_DESCRIPTOR <? length (writable_accounts ix))%nat
            (authority_into JupiterBoundaryVerificationFailed);
      check_writable_bounds siblings
  end.

Definition verify_jupiter_boundary_skeleton (record : AuthorizationRecord)
    (proof : JupiterBoundaryProof) : Res unit :=
  let pre := destination_pre_snapshot proof in
  let post := destination_post_snapshot proof in
  _ ← throw_if (MAX_JUPITER_SIBLING_INSTRUCTIONS <? length (jp_sibling_instructions proof))%nat
        (authority_into JupiterSiblingListTooLarge);
  _ ← check_writable_bounds (jp_sibling_instructions proof);
  _ ← throw_if (bool_decide (jupiter_program_id proof ≠ JUPITER_V6_PROGRAM_ID_MAINNET))
        (authority_into JupiterProgramIdMismatch);
  _ ← throw_if (bool_decide
          (expected_destination_token_account proof ≠ destination record))
        (authority_into JupiterDestinationMismatch);
  _ ← throw_if
        (bool_decide (tf_address pre ≠ expected_destination_token_account proof) ||
         bool_decide (tf_address post ≠ expected_destination_token_account proof))
        (authority_into JupiterTokenAccountInvalid);
  _ ← throw_if
        (bool_decide (tf_mint pre ≠ expected_destination_mint proof) ||
         bool_decide (tf_mint post ≠ expected_destination_mint proof))
        (authority_into JupiterMintMismatch);
  verify_sibling_instructions (build_allowed_writable_set record proof)
    (jp_sibling_instructions proof).

(** What an accepted proof says. *)
Record jupiter_boundary_ok (record : AuthorizationRecord) (proof : JupiterBoundaryProof) :
    Prop := {
  jb_program : jupiter_program_id proof = JUPITER_V6_PROGRAM_ID_MAINNET;
  jb_destination : expected_destination_token_account proof = destination record;
  jb_pre_address : tf_address (destination_pre_snapshot proof) = destination record;
  jb_post_address : tf_address (destination_post_snapshot proof) = destination record;
  jb_pre_mint : tf_mint (destination_pre_snapshot proof) = expected_destination_mint proof;
  jb_post_mint : tf_mint (destination_post_snapshot proof) = expected_destination_mint proof;
  jb_bound : (length (jp_sibling_instructions proof) ≤ 16)%nat;
  jb_writable : Forall (λ ix, length (writable_accounts ix) ≤ 32)%nat
                  (jp_sibling_instructions proof);
  jb_shape : sibling_shape (build_allowed_writable_set record proof)
               (jp_sibling_instructions proof)
}.

Lemma check_writable_bounds_Ok l :
  check_writable_bounds l = Ok tt ↔ Forall (λ ix, length (writable_accounts ix) ≤ 32)%nat l.
Proof.
  induction l as [|ix l IH]; cbn [check_writable_bounds]; [by rewrite Forall_nil|].
  rewrite Forall_cons, <- IH, bind_Ok. setoid_rewrite throw_if_Ok.
  unfold MAX_WRITABLE_ACCOUNTS_PER_DESCRIPTOR. split.
  - intros (_ & Hn & ?). b2p. done.
  - intros [? ?]. exists tt. split; [b2p; lia|done].
Qed.

Lemma verify_jupiter_boundary_Ok record proof :
  verify_jupiter_boundary_skeleton record proof = Ok tt ↔ jupiter_boundary_ok record proof.
Proof.
  unfold verify_jupiter_boundary_skeleton, MAX_JUPITER_SIBLING_INSTRUCTIONS. split.
  - intros H. inv_ok1 H. rewrite ?orb_false_iff, ?neq_guard in *. destruct_and?. b2p.
    repeat match goal with
    | H : verify_sibling_instructions _ _ = _ |- _ => apply verify_sibling_instructions_Ok in H
    | u : unit |- _ => destruct u
    | H : check_writable_bounds _ = _ |- _ => apply check_writable_bounds_Ok in H
    end. constructor; congruence || done.
  - intros [Hp Hd H1 H2 H3 H4 Hn Hw Hs]. rewrite throw_if_false by (b2p; lia).
    rewrite (proj2 (check_writable_bounds_Ok _)) by done. cbn [mbind result_bind].
    rewrite throw_if_false by (by apply neq_guard).
    rewrite throw_if_false by (by apply neq_guard).
    rewrite throw_if_false by (apply orb_false_iff; split; apply neq_guard; congruence).
    rewrite throw_if_false by (apply orb_false_iff; split; apply neq_guard; congruence).
    by apply verify_sibling_instructions_Ok.
Qed.

(** ** Properties *)

(** C38: the Jupiter boundary accepts exactly the proofs for the Jupiter
    program and the signed destination, with one mint before and after, within
    the size bounds, whose sibling list is exactly one swap among instructions
    of the allowed kinds that write only allowed accounts.  What the swap itself
    writes is not restricted, and the other instructions may stand on either
    side of it. *)
Theorem jupiter_boundary_functional record proof :
  verify_jupiter_boundary_skeleton record proof = Ok tt ↔ jupiter_boundary_ok record proof.
Proof. apply verify_jupiter_boundary_Ok. Qed.
