(* ===== verification/JupiterBracket.v ===== *)
(** * Jupiter dual-bracket balance check ([jupiter_bracket.rs])

    The checkpoint account, the pre-check that opens a bracket with the live
    balance of the destination and the post-check that closes it, with the
    guarantee the pair gives. *)
From S2P Require Import Prelude Borsh Solana Errors Records AccountDecode.

Definition JUPITER_BRACKET_SEED_PREFIX : list byte :=
  String.list_byte_of_string "stage2-jupiter-bracket".
Definition JUPITER_BRACKET_SCHEMA_VERSION : Z := 1.

(** ** Data *)
Record JupiterBracketCheckpoint := MkCheckpoint {
  cp_schema_version : Z;
  cp_authorization_pda : Pubkey;
  cp_execution_nonce : Z;
  cp_destination_token_account : Pubkey;
  cp_destination_mint : Pubkey;
  pre_balance : Z;
  cp_min_output_amount_raw : Z;
  consumed : bool;
  cp_bump : Z
}.

Record JupiterPreBracketProof := MkPreProof {
  pre_execution_nonce : Z;
  pre_destination_token_account : Pubkey;
  pre_expected_destination_mint : Pubkey;
  pre_min_output_amount_raw : Z
}.

Record JupiterPostBracketProof := MkPostProof {
  post_execution_nonce : Z;
  post_destination_token_account : Pubkey
}.

#[export] Instance borsh_checkpoint : Borsh JupiterBracketCheckpoint.
Proof.
  refine (c_iso (λ '(v, (a, (n, (d, (m, (p, (o, (c, b)))))))), MkCheckpoint v a n d m p o c b)
    (λ x, (cp_schema_version x, (cp_authorization_pda x, (cp_execution_nonce x,
      (cp_destination_token_account x, (cp_destination_mint x, (pre_balance x,
      (cp_min_output_amount_raw x, (consumed x, cp_bump x))))))))) _ _
    (c_pair c_u8 (c_pair c_pubkey (c_pair c_u64 (c_pair c_pubkey (c_pair c_pubkey
      (c_pair c_u64 (c_pair c_u64 (c_pair c_bool c_u8)))))))));
  [by intros []|by intros (?&?&?&?&?&?&?&?&?)].
Defined.

#[export] Instance borsh_pre_proof : Borsh JupiterPreBracketProof.
Proof.
  refine (c_iso (λ '(n, (d, (m, o))), MkPreProof n d m o)
    (λ x, (pre_execution_nonce x, (pre_destination_token_account x,
      (pre_expected_destination_mint x, pre_min_output_amount_raw x)))) _ _
    (c_pair c_u64 (c_pair c_pubkey (c_pair c_pubkey c_u64))));
  [by intros []|by intros (?&?&?&?)].
Defined.

#[export] Instance borsh_post_proof : Borsh JupiterPostBracketProof.
Proof.
  refine (c_iso (λ '(n, d), MkPostProof n d)
    (λ x, (post_execution_nonce x, post_destination_token_account x)) _ _
    (c_pair c_u64 c_pubkey));
  [by intros []|by intros (?&?)].
Defined.

(** [JupiterBracketCheckpoint::LEN] *)
Definition CHECKPOINT_LEN : nat := 1 + 32 + 8 + 32 + 32 + 8 + 8 + 1 + 1.

Lemma checkpoint_fixed_len : FixedLen (borsh JupiterBracketCheckpoint) CHECKPOINT_LEN.
Proof. solve_fixed_len. Qed.

Definition set_consumed (c : JupiterBracketCheckpoint) : JupiterBracketCheckpoint :=
  MkCheckpoint (cp_schema_version c) (cp_authorization_pda c) (cp_execution_nonce c)
    (cp_destination_token_account c) (cp_destination_mint c) (pre_balance c)
    (cp_min_output_amount_raw c) true (cp_bump c).

(** ** Processors *)
Section processors.
Context (rt : Runtime) (program_id : Pubkey).

Definition checkpoint_seeds (authorization_pda : Pubkey) (execution_nonce : Z)
    (destination_token_account : Pubkey) : list (list byte) :=
  [JUPITER_BRACKET_SEED_PREFIX; authorization_pda; to_le 8 execution_nonce;
   destination_token_account].

Definition derive_jupiter_bracket_checkpoint_pda (authorization_pda : Pubkey)
    (execution_nonce : Z) (destination_token_account : Pubkey) : Pubkey * Z :=
  find_program_address rt
    (checkpoint_seeds authorization_pda execution_nonce destination_token_account)
    program_id.

Definition process_pre_jupiter_bracket_check (accounts : list AccountInfo)
    (proof : JupiterPreBracketProof) : M unit :=
  '(executor_account, it) ← next_account_info accounts;
  '(authz_pda_account, it) ← next_account_info it;
  '(destination_account, it) ← next_account_info it;
  '(checkpoint_pda_account, it) ← next_account_info it;
  '(system_program_account, _) ← next_account_info it;
  _ ← throw_ifM (negb (is_signer executor_account)) MissingExecutorSignature;
  _ ← throw_ifM (bool_decide (key system_program_account ≠ system_program_id))
        IncorrectProgramId;
  authz ← get_account (key authz_pda_account);
  _ ← throw_ifM (bool_decide (owner authz ≠ program_id)) AuthorizationOwnerMismatch;
  record ← load_record (key authz_pda_account);
  _ ← throw_ifM (bool_decide (executor record ≠ key executor_account)) ExecutorMismatch;
  _ ← throw_ifM (bool_decide (pre_destination_token_account proof ≠ destination record))
        JupiterDestinationMismatch;
  _ ← throw_ifM (bool_decide
          (key destination_account ≠ pre_destination_token_account proof))
        JupiterDestinationMismatch;
  expected_nonce ← lift (ok_or (checked_u 64 (execution_nonce record + 1))
                           (authority_into ExecutionNonceMismatch));
  _ ← throw_ifM (negb (pre_execution_nonce proof =? expected_nonce))
        ExecutionNonceMismatch;
  dest ← get_account (key destination_account);
  decoded ← lift (decode_spl_token_account_lite (data dest));
  _ ← throw_ifM (bool_decide (ta_mint decoded ≠ pre_expected_destination_mint proof))
        JupiterMintMismatch;
  let '(expected_checkpoint_pda, bump) :=
    derive_jupiter_bracket_checkpoint_pda (key authz_pda_account)
      (pre_execution_nonce proof) (pre_destination_token_account proof) in
  _ ← throw_ifM (bool_decide (expected_checkpoint_pda ≠ key checkpoint_pda_account))
        InvalidPda;
  _ ← invoke_signed rt
        (create_account_ix rt (key executor_account) (key checkpoint_pda_account)
           (minimum_balance rt (Z.of_nat CHECKPOINT_LEN)) (Z.of_nat CHECKPOINT_LEN)
           program_id)
        [executor_account; checkpoint_pda_account; system_program_account]
        [checkpoint_seeds (key authz_pda_account) (pre_execution_nonce proof)
           (pre_destination_token_account proof) ++ [[byte_of bump]]];
  serialize_into (key checkpoint_pda_account)
    (to_vec (MkCheckpoint JUPITER_BRACKET_SCHEMA_VERSION (key authz_pda_account)
       (pre_execution_nonce proof) (pre_destination_token_account proof)
       (pre_expected_destination_mint proof) (ta_amount decoded)
       (pre_min_output_amount_raw proof) false bump)).

Definition load_checkpoint (k : Pubkey) : M JupiterBracketCheckpoint :=
  a ← get_account k; lift (ok_or (try_from_slice (data a)) InvalidAccountData).

Definition process_post_jupiter_bracket_check (accounts : list AccountInfo)
    (proof : JupiterPostBracketProof) : M unit :=
  '(executor_account, it) ← next_account_info accounts;
  '(authz_pda_account, it) ← next_account_info it;
  '(destination_account, it) ← next_account_info it;
  '(checkpoint_pda_account, _) ← next_account_info it;
  _ ← throw_ifM (negb (is_signer executor_account)) MissingExecutorSignature;
  authz ← get_account (key authz_pda_account);
  _ ← throw_ifM (bool_decide (owner authz ≠ program_id)) AuthorizationOwnerMismatch;
  record ← load_record (key authz_pda_account);
  _ ← throw_ifM (bool_decide (executor record ≠ key executor_account)) ExecutorMismatch;
  cp_account ← get_account (key checkpoint_pda_account);
  _ ← throw_ifM (bool_decide (owner cp_account ≠ program_id))
        JupiterBracketCheckpointMissing;
  let '(expected_checkpoint_pda, _) :=
    derive_jupiter_bracket_checkpoint_pda (key authz_pda_account)
      (post_execution_nonce proof) (post_destination_token_account proof) in
  _ ← throw_ifM (bool_decide (expected_checkpoint_pda ≠ key checkpoint_pda_account))
        JupiterBracketCheckpointMissing;
  checkpoint ← load_checkpoint (key checkpoint_pda_account);
  _ ← throw_ifM (negb (cp_schema_version checkpoint =? JUPITER_BRACKET_SCHEMA_VERSION))
        UnsupportedSchemaVersion;
  _ ← throw_ifM (consumed checkpoint) JupiterBracketCheckpointConsumed;
  _ ← throw_ifM (bool_decide (cp_authorization_pda checkpoint ≠ key authz_pda_account))
        JupiterBracketCheckpointMissing;
  _ ← throw_ifM (bool_decide (cp_destination_token_account checkpoint ≠
                              post_destination_token_account proof))
        JupiterDestinationMismatch;
  _ ← throw_ifM (bool_decide (key destination_account ≠
                              cp_destination_token_account checkpoint))
        JupiterDestinationMismatch;
  _ ← throw_ifM (negb (cp_execution_nonce checkpoint =? post_execution_nonce proof))
        JupiterBracketCheckpointMissing;
  dest ← get_account (key destination_account);
  decoded ← lift (decode_spl_token_account_lite (data dest));
  _ ← throw_ifM (bool_decide (ta_mint decoded ≠ cp_destination_mint checkpoint))
        JupiterMintMismatch;
  delta ← lift (ok_or (checked_u 64 (ta_amount decoded - pre_balance checkpoint))
                  (authority_into JupiterPostBalanceUnderflow));
  _ ← throw_ifM (delta <? cp_min_output_amount_raw checkpoint)
        JupiterBalanceDeltaTooSmall;
  serialize_into (key checkpoint_pda_account) (to_vec (set_consumed checkpoint)).
End processors.

(** The checkpoint stored at an address. *)
Definition checkpoint_at (b : Bank) (k : Pubkey) (c : JupiterBracketCheckpoint) : Prop :=
  data (acct b k) = to_vec c ∧ well_typed c.

Lemma load_checkpoint_Ok k w c w' :
  load_checkpoint k w = Ok (c, w') ↔ checkpoint_at (w_bank w) k c ∧ w' = w.
Proof.
  unfold load_checkpoint, checkpoint_at. rewrite bindM_Ok. unfold get_account. split.
  - intros (a & w1 & [= <- <-] & H). apply liftM_Ok in H as [H ->].
    apply ok_or_Ok, try_from_slice_Some in H. done.
  - intros [H ->]. eexists _, _. split; [done|]. apply liftM_Ok. split; [|done].
    by apply ok_or_Ok, try_from_slice_Some.
Qed.

Lemma checkpoint_at_inj b k c1 c2 : checkpoint_at b k c1 → checkpoint_at b k c2 → c1 = c2.
Proof. intros [H1 ?] [H2 ?]. apply to_vec_inj; congruence. Qed.

(** The balance a token account holds. *)
Definition token_at (b : Bank) (k : Pubkey) (t : DecodedSplTokenAccountLite) : Prop :=
  decode_spl_token_account_lite (data (acct b k)) = Ok t.

(** What a successful pre-check saw: the first five accounts, the record and
    the live token account. *)
Record pre_check_facts (rt : Runtime) (program_id : Pubkey) (b : Bank)
    (proof : JupiterPreBracketProof) (ex au de cp sy : AccountInfo)
    (record : AuthorizationRecord) (tok : DecodedSplTokenAccountLite) : Prop := {
  pf_signer : is_signer ex = true;
  pf_system : key sy = system_program_id;
  pf_owner : owner (acct b (key au)) = program_id;
  pf_record : record_at b (key au) record;
  pf_executor : executor record = key ex;
  pf_destination : destination record = key de;
  pf_proof_destination : pre_destination_token_account proof = key de;
  pf_nonce : pre_execution_nonce proof = execution_nonce record + 1;
  pf_token : token_at b (key de) tok;
  pf_mint : ta_mint tok = pre_expected_destination_mint proof;
  pf_pda : (derive_jupiter_bracket_checkpoint_pda rt program_id (key au)
              (pre_execution_nonce proof) (key de)).1 = key cp;
  pf_unused : unused (acct b (key cp));
  pf_payer : key ex ≠ key cp
}.

(** The checkpoint a pre-check writes. *)
Definition opened_checkpoint (rt : Runtime) (program_id : Pubkey)
    (proof : JupiterPreBracketProof) (au de : AccountInfo)
    (tok : DecodedSplTokenAccountLite) : JupiterBracketCheckpoint :=
  MkCheckpoint 1 (key au) (pre_execution_nonce proof) (key de) (ta_mint tok)
    (ta_amount tok) (pre_min_output_amount_raw proof) false
    (derive_jupiter_bracket_checkpoint_pda rt program_id (key au)
       (pre_execution_nonce proof) (key de)).2.

(** What a successful post-check saw. *)
Record post_check_facts (rt : Runtime) (program_id : Pubkey) (b : Bank)
    (proof : JupiterPostBracketProof) (ex au de cp : AccountInfo)
    (record : AuthorizationRecord) (c : JupiterBracketCheckpoint)
    (tok : DecodedSplTokenAccountLite) : Prop := {
  qf_signer : is_signer ex = true;
  qf_owner : owner (acct b (key au)) = program_id;
  qf_record : record_at b (key au) record;
  qf_executor : executor record = key ex;
  qf_cp_owner : owner (acct b (key cp)) = program_id;
  qf_pda : (derive_jupiter_bracket_checkpoint_pda rt program_id (key au)
              (post_execution_nonce proof) (post_destination_token_account proof)).1 = key cp;
  qf_checkpoint : checkpoint_at b (key cp) c;
  qf_schema : cp_schema_version c = 1;
  qf_open : consumed c = false;
  qf_authz : cp_authorization_pda c = key au;
  qf_proof_destination : cp_destination_token_account c = post_destination_token_account proof;
  qf_destination : key de = cp_destination_token_account c;
  qf_nonce : cp_execution_nonce c = post_execution_nonce proof;
  qf_token : token_at b (key de) tok;
  qf_mint : ta_mint tok = cp_destination_mint c;
  qf_delta : cp_min_output_amount_raw c ≤ ta_amount tok - pre_balance c;
  qf_min : 0 ≤ ta_amount tok - pre_balance c
}.

(** The bank after a post-check: only the [consumed] byte changes. *)
Definition consumed_bank (b : Bank) (k : Pubkey) (c : JupiterBracketCheckpoint) : Bank :=
  <[k := MkAccount (lamports (acct b k)) (owner (acct b k)) (to_vec (set_consumed c))]> b.

Section lemmas.
Context (rt : Runtime) (program_id : Pubkey) `{!RuntimeLaws rt program_id}.

Lemma opened_checkpoint_typed proof au de tok :
  well_typed proof → length (key au) = 32%nat → length (key de) = 32%nat →
  length (ta_mint tok) = 32%nat → is_u 64 (ta_amount tok) →
  well_typed (opened_checkpoint rt program_id proof au de tok).
Proof.
  intros (?&?&?&?) ????.
  assert (is_u 8 (derive_jupiter_bracket_checkpoint_pda rt program_id (key au)
     (pre_execution_nonce proof) (key de)).2) by apply find_pda_typed.
  by repeat (split; [done|]).
Qed.

Lemma pre_check_inv accounts proof w w' :
  process_pre_jupiter_bracket_check rt program_id accounts proof w = Ok (tt, w') →
  accounts_typed accounts → well_typed proof →
  ∃ ex au de cp sy rest record tok,
    accounts = ex :: au :: de :: cp :: sy :: rest ∧
    pre_check_facts rt program_id (w_bank w) proof ex au de cp sy record tok ∧
    let c := opened_checkpoint rt program_id proof au de tok in
    well_typed c ∧
    w' = with_bank (installed (w_bank w) (key ex) (key cp) (minimum_balance rt 123)
                      program_id (to_vec c)) w.
Proof.
  unfold process_pre_jupiter_bracket_check. intros H Hacc Hproof. inv_run H.
  rename select (load_record _ _ = _) into Hrec. apply load_record_Ok in Hrec as [Hrec ->].
  rename select (invoke_signed _ _ _ _ _ = _) into Hinv.
  apply invoke_signed_Ok in Hinv as (b & Hinv & ->).
  apply create_own_sound in Hinv as (Hun & Hne & _ & ->); [|done..].
  rename select (serialize_into _ _ _ = _) into Hser.
  rename select (decode_spl_token_account_lite _ = _) into Htok.
  rename select (derive_jupiter_bracket_checkpoint_pda _ _ _ _ _ = _) into Hpda.
  rename select (checked_u _ _ = Some _) into Hnonce.
  b2p. apply checked_u_Some in Hnonce as [-> _].
  repeat (apply Forall_cons in Hacc as [? Hacc]).
  destruct (proj1 (decode_token_spec _ _) Htok) as (? & ? & ? & ? & _ & ? & _ & _ & _ & Ht).
  assert (pre_destination_token_account proof = key a1) as Hde by congruence.
  rewrite Hde in Hpda, Hser.
  assert (well_typed (opened_checkpoint rt program_id proof a0 a1 v1)) as Hc.
  { apply opened_checkpoint_typed; try done; [by subst v1|].
    by apply decode_token_amount in Htok. }
  eexists _, _, _, _, _, _, v, v1. split; [done|]. split; [|split; [done|]].
  - constructor; try done; [congruence|by rewrite Hpda].
  - unfold opened_checkpoint in *. rewrite Hpda in *. simpl in *.
    rewrite Hrun10 in *. rewrite serialize_into_created in Hser by
      (by apply checkpoint_fixed_len in Hc). by injection Hser as <-.
Qed.

Lemma set_consumed_typed c : well_typed c → well_typed (set_consumed c).
Proof. intros (?&?&?&?&?&?&?&?&?). by repeat (split; [done|]). Qed.

Lemma post_check_inv accounts proof w w' :
  process_post_jupiter_bracket_check rt program_id accounts proof w = Ok (tt, w') →
  ∃ ex au de cp rest record c tok,
    accounts = ex :: au :: de :: cp :: rest ∧
    post_check_facts rt program_id (w_bank w) proof ex au de cp record c tok ∧
    w' = with_bank (consumed_bank (w_bank w) (key cp) c) w.
Proof.
  unfold process_post_jupiter_bracket_check. intros H. inv_run H.
  rename select (load_record _ _ = _) into Hrec. apply load_record_Ok in Hrec as [Hrec ->].
  rename select (load_checkpoint _ _ = _) into Hcp.
  apply load_checkpoint_Ok in Hcp as [Hcp ->].
  rename select (derive_jupiter_bracket_checkpoint_pda _ _ _ _ _ = _) into Hpda.
  rename select (checked_u _ _ = Some _) into Hdelta.
  apply checked_u_Some in Hdelta as [-> [Hd _]].
  rename select (serialize_into _ _ _ = _) into Hser.
  b2p. eexists _, _, _, _, _, v, v0, v1. split; [done|]. split.
  - constructor; try done. by rewrite Hpda.
  - destruct Hcp as [Hdata Ht]. rewrite serialize_same_length in Hser.
    + by injection Hser as <-.
    + rewrite Hdata. etrans; [|symmetry]; apply checkpoint_fixed_len;
        [by apply set_consumed_typed|done].
Qed.

(** The post-check succeeds exactly on such a state. *)
Lemma post_check_complete proof w ex au de cp rest record c tok :
  post_check_facts rt program_id (w_bank w) proof ex au de cp record c tok →
  is_u 64 (ta_amount tok) → is_u 64 (pre_balance c) →
  process_post_jupiter_bracket_check rt program_id (ex :: au :: de :: cp :: rest) proof w =
  Ok (tt, with_bank (consumed_bank (w_bank w) (key cp) c) w).
Proof.
  intros [] Ht Hp. unfold process_post_jupiter_bracket_check.
  rewrite !next_step. rewrite guard_step by (by rewrite qf_signer0).
  rewrite get_step, guard_step by (by apply neq_guard).
  rewrite (bindM_step _ _ _ record w) by (by apply load_record_Ok).
  rewrite guard_step by (by apply neq_guard).
  rewrite get_step, guard_step by (by apply neq_guard).
  destruct (derive_jupiter_bracket_checkpoint_pda _ _ _ _ _) as [pda bmp]. simpl in *.
  rewrite guard_step by (by apply neq_guard).
  rewrite (bindM_step _ _ _ c w) by (by apply load_checkpoint_Ok).
  rewrite guard_step by (by rewrite qf_schema0). rewrite guard_step by done.
  do 3 rewrite guard_step by (by apply neq_guard).
  rewrite guard_step by (by rewrite qf_nonce0, Z.eqb_refl). rewrite get_step.
  rewrite (lift_step _ tok) by done. rewrite guard_step by (by apply neq_guard).
  rewrite (lift_step _ (ta_amount tok - pre_balance c)).
  2: { apply ok_or_Ok, checked_u_Some. split; [done|pow2_norm; lia]. }
  rewrite guard_step by (b2p; lia). destruct qf_checkpoint0 as [Hdata Htyped].
  apply serialize_same_length. rewrite Hdata.
  etrans; [|symmetry]; apply checkpoint_fixed_len; [by apply set_consumed_typed|done].
Qed.
End lemmas.

(** ** Properties *)

(** A bracket is a balance guarantee.  If a pre-check succeeds, the
    checkpoint account is left alone, and a post-check over it succeeds, then
    the destination the pre-check read holds, at the post-check, at least
    [min_output_amount_raw] more of the same mint than it held at the
    pre-check, whatever happened in between. *)
Theorem bracket_guarantee rt program_id `{!RuntimeLaws rt program_id}
    accounts1 proof1 w0 w1 accounts2 proof2 w2 w3 cp :
  accounts_typed accounts1 → well_typed proof1 →
  process_pre_jupiter_bracket_check rt program_id accounts1 proof1 w0 = Ok (tt, w1) →
  key <$> accounts1 !! 3%nat = Some cp → key <$> accounts2 !! 3%nat = Some cp →
  w_bank w2 !! cp = w_bank w1 !! cp →
  process_post_jupiter_bracket_check rt program_id accounts2 proof2 w2 = Ok (tt, w3) →
  ∃ dest t0 t2, key <$> accounts1 !! 2%nat = Some dest ∧
    token_at (w_bank w0) dest t0 ∧ token_at (w_bank w2) dest t2 ∧
    ta_mint t2 = ta_mint t0 ∧
    pre_min_output_amount_raw proof1 ≤ ta_amount t2 - ta_amount t0.
Proof.
  intros Ha Hp Hpre Hk1 Hk2 Hsame Hpost.
  apply pre_check_inv in Hpre as
    (ex & au & de & c & sy & rest & r & t0 & -> & [] & Hc & ->); [|done..].
  apply post_check_inv in Hpost as (ex' & au' & de' & c' & rest' & r' & cc & t2 & -> & [] & _).
  injection Hk1 as Hk1. injection Hk2 as Hk2. subst cp.
  assert (cc = opened_checkpoint rt program_id proof1 au de t0) as ->.
  { eapply (checkpoint_at_inj (w_bank w2)); [done|]. unfold checkpoint_at, acct.
    rewrite Hk2, Hsame. unfold installed. simpl. by rewrite lookup_insert_eq. }
  exists (key de), t0, t2. simpl in *. split_and!; try done.
  by rewrite <- qf_destination0.
Qed.

(** A checkpoint is consumed once.  After a successful post-check no later
    post-check over the same checkpoint account succeeds, whatever its other
    accounts and proof, as long as the program's own write stands. *)
Theorem post_check_consumes_once rt program_id accounts proof w w' accounts2 proof2 w2 cp :
  process_post_jupiter_bracket_check rt program_id accounts proof w = Ok (tt, w') →
  key <$> accounts !! 3%nat = Some cp → key <$> accounts2 !! 3%nat = Some cp →
  w_bank w2 !! cp = w_bank w' !! cp →
  ∀ w3, process_post_jupiter_bracket_check rt program_id accounts2 proof2 w2 ≠ Ok (tt, w3).
Proof.
  intros Hpost Hk1 Hk2 Hsame w3 Hpost2.
  apply post_check_inv in Hpost as (ex & au & de & c & rest & r & cc & t & -> & [] & ->).
  apply post_check_inv in Hpost2 as
    (ex' & au' & de' & c' & rest' & r' & cc' & t' & -> & [] & _).
  injection Hk1 as Hk1. injection Hk2 as Hk2. subst cp.
  assert (cc' = set_consumed cc) as ->; [|done].
  eapply (checkpoint_at_inj (w_bank w2)); [done|]. unfold checkpoint_at, acct.
  rewrite Hk2, Hsame. unfold consumed_bank. simpl. rewrite lookup_insert_eq.
  split; [done|]. apply set_consumed_typed. by destruct qf_checkpoint0.
Qed.

(** What a post-check does, exactly.  It succeeds if and only if the
    executor signed, both records are the program's, the checkpoint sits at the
    derived address, is open and matches the proof, and the live balance rose
    by the recorded minimum; then the one change is the [consumed] flag. *)
Theorem post_check_functional rt program_id accounts proof w w' :
  process_post_jupiter_bracket_check rt program_id accounts proof w = Ok (tt, w') ↔
  ∃ ex au de cp rest record c tok,
    accounts = ex :: au :: de :: cp :: rest ∧
    post_check_facts rt program_id (w_bank w) proof ex au de cp record c tok ∧
    w' = with_bank (consumed_bank (w_bank w) (key cp) c) w.
Proof.
  split; [by apply post_check_inv|].
  intros (ex & au & de & cp & rest & r & c & t & -> & Hf & ->).
  eapply post_check_complete; [done|..].
  - by eapply decode_token_amount, qf_token.
  - destruct (qf_checkpoint _ _ _ _ _ _ _ _ _ _ _ Hf) as [_ Ht].
    by destruct Ht as (?&?&?&?&?&?&?).
Qed.
