(* ===== verification/Instruction.v ===== *)
(** * Instruction set of [clawsol-authority] ([instruction.rs])

    The instruction enum with its Borsh wire shape, the condition proof an
    execution carries, and the instruction builders. *)
From S2P Require Import Prelude Borsh Solana ConditionVerifier Records.
From S2P Require Import SolendBoundary JupiterBoundary JupiterBracket.

Definition MAX_PROOF_CONDITIONS : nat := 8.

(** ** Data *)
Inductive ProofCondition :=
| ProofPyth (condition : PythPriceCondition) (snapshot : PythPriceSnapshot)
| ProofSolend (condition : SolendSupplyAprCondition) (snapshot : SolendReserveSnapshot).

Record ConditionProofPayload := MkPayload {
  condition_logic : ConditionLogic;
  conditions : list ProofCondition
}.

(** The fields of the [CreateAuthorization] and [ExecuteAction] variants. *)
Record CreateArgs := MkCreateArgs {
  ca_schema_version : Z;
  ca_rule_id : list byte;
  ca_executor : Pubkey;
  ca_delegated_wallet : Pubkey;
  ca_canonical_rule_hash : list byte;
  ca_allowed_action_type : Z;
  ca_max_input_amount_raw : Z;
  ca_destination : Pubkey;
  ca_expires_at_slot : Z
}.

Record ExecuteArgs := MkExecuteArgs {
  xa_schema_version : Z;
  xa_rule_id : list byte;
  xa_canonical_rule_hash : list byte;
  xa_action_type : Z;
  xa_input_amount_raw : Z;
  xa_execution_nonce : Z;
  xa_condition_proof : ConditionProofPayload;
  xa_solend_boundary_proof : option SolendBoundaryProof;
  xa_jupiter_boundary_proof : option JupiterBoundaryProof
}.

Inductive AuthorityInstruction :=
| CreateAuthorization (args : CreateArgs)
| Revoke
| CloseAuthorization
| ExecuteAction (args : ExecuteArgs)
| PreJupiterBracketCheck (proof : JupiterPreBracketProof)
| PostJupiterBracketCheck (proof : JupiterPostBracketProof).

(** ** Wire shape *)
#[export] Instance borsh_proof_condition : Borsh ProofCondition.
Proof.
  refine (c_iso
    (λ x : (PythPriceCondition * PythPriceSnapshot) +
           ((SolendSupplyAprCondition * SolendReserveSnapshot) + Empty_set),
       match x with
       | inl (c, s) => ProofPyth c s
       | inr (inl (c, s)) => ProofSolend c s
       | inr (inr e) => match e with end
       end)
    (λ p, match p with
          | ProofPyth c s => inl (c, s)
          | ProofSolend c s => inr (inl (c, s))
          end) _ _
    (c_tagged
      (t_cons 0 ltac:(lia) (c_pair (borsh PythPriceCondition) (borsh PythPriceSnapshot))
      (t_cons 1 ltac:(lia)
         (c_pair (borsh SolendSupplyAprCondition) (borsh SolendReserveSnapshot))
      (t_nil 2)))));
  [by intros []|by intros [[]|[[]|[]]]].
Defined.

#[export] Instance borsh_payload : Borsh ConditionProofPayload.
Proof.
  refine (c_iso (λ '(l, c), MkPayload l c) (λ p, (condition_logic p, conditions p)) _ _
    (c_pair (borsh ConditionLogic) (c_vec (borsh ProofCondition))));
  [by intros []|by intros []].
Defined.

#[export] Instance borsh_create_args : Borsh CreateArgs.
Proof.
  refine (c_iso
    (λ '(v, (i, (e, (w, (h, (a, (m, (d, x)))))))), MkCreateArgs v i e w h a m d x)
    (λ c, (ca_schema_version c, (ca_rule_id c, (ca_executor c, (ca_delegated_wallet c,
      (ca_canonical_rule_hash c, (ca_allowed_action_type c, (ca_max_input_amount_raw c,
      (ca_destination c, ca_expires_at_slot c))))))))) _ _
    (c_pair c_u8 (c_pair (c_array 16) (c_pair c_pubkey (c_pair c_pubkey
      (c_pair (c_array 32) (c_pair c_u8 (c_pair c_u64 (c_pair c_pubkey c_u64)))))))));
  [by intros []|by intros (?&?&?&?&?&?&?&?&?)].
Defined.

#[export] Instance borsh_execute_args : Borsh ExecuteArgs.
Proof.
  refine (c_iso
    (λ '(v, (i, (h, (a, (m, (n, (c, (s, j)))))))), MkExecuteArgs v i h a m n c s j)
    (λ x, (xa_schema_version x, (xa_rule_id x, (xa_canonical_rule_hash x,
      (xa_action_type x, (xa_input_amount_raw x, (xa_execution_nonce x,
      (xa_condition_proof x, (xa_solend_boundary_proof x,
       xa_jupiter_boundary_proof x))))))))) _ _
    (c_pair c_u8 (c_pair (c_array 16) (c_pair (c_array 32) (c_pair c_u8 (c_pair c_u64
      (c_pair c_u64 (c_pair (borsh ConditionProofPayload)
      (c_pair (c_option (borsh SolendBoundaryProof))
              (c_option (borsh JupiterBoundaryProof)))))))))));
  [by intros []|by intros (?&?&?&?&?&?&?&?&?)].
Defined.

#[export] Instance borsh_instruction : Borsh AuthorityInstruction.
Proof.
  refine (c_iso
    (λ x : CreateArgs + (unit + (unit + (ExecuteArgs + (JupiterPreBracketProof +
             (JupiterPostBracketProof + Empty_set))))),
       match x with
       | inl a => CreateAuthorization a
       | inr (inl _) => Revoke
       | inr (inr (inl _)) => CloseAuthorization
       | inr (inr (inr (inl a))) => ExecuteAction a
       | inr (inr (inr (inr (inl p)))) => PreJupiterBracketCheck p
       | inr (inr (inr (inr (inr (inl p))))) => PostJupiterBracketCheck p
       | inr (inr (inr (inr (inr (inr e))))) => match e with end
       end)
    (λ i, match i with
          | CreateAuthorization a => inl a
          | Revoke => inr (inl tt)
          | CloseAuthorization => inr (inr (inl tt))
          | ExecuteAction a => inr (inr (inr (inl a)))
          | PreJupiterBracketCheck p => inr (inr (inr (inr (inl p))))
          | PostJupiterBracketCheck p => inr (inr (inr (inr (inr (inl p)))))
          end) _ _
    (c_tagged
      (t_cons 0 ltac:(lia) (borsh CreateArgs)
      (t_cons 1 ltac:(lia) c_unit
      (t_cons 2 ltac:(lia) c_unit
      (t_cons 3 ltac:(lia) (borsh ExecuteArgs)
      (t_cons 4 ltac:(lia) (borsh JupiterPreBracketProof)
      (t_cons 5 ltac:(lia) (borsh JupiterPostBracketProof)
      (t_nil 6)))))))));
  [by intros []|by intros [|[[]|[[]|[|[|[|[]]]]]]]].
Defined.

(** ** Builders *)
Section builders.
Context (rt : Runtime) (program_id : Pubkey).

Definition create_authorization_instruction (usr : Pubkey) (args : CreateArgs) :
    Instruction :=
  let authz_pda :=
    (derive_authorization_pda rt program_id (ca_schema_version args) usr
       (ca_rule_id args)).1 in
  MkInstruction program_id
    [meta_new usr true; meta_new authz_pda false; meta_new_readonly system_program_id false]
    (to_vec (CreateAuthorization args)).

Definition revoke_authorization_instruction (usr : Pubkey) (schema : Z)
    (rid : list byte) : Instruction :=
  let authz_pda := (derive_authorization_pda rt program_id schema usr rid).1 in
  MkInstruction program_id [meta_new_readonly usr true; meta_new authz_pda false]
    (to_vec Revoke).

Definition close_authorization_instruction (usr : Pubkey) (schema : Z)
    (rid : list byte) : Instruction :=
  let authz_pda := (derive_authorization_pda rt program_id schema usr rid).1 in
  MkInstruction program_id [meta_new usr true; meta_new authz_pda false]
    (to_vec CloseAuthorization).

Definition execute_action_instruction (exec usr wallet : Pubkey) (args : ExecuteArgs) :
    Instruction :=
  let authz_pda :=
    (derive_authorization_pda rt program_id (xa_schema_version args) usr
       (xa_rule_id args)).1 in
  MkInstruction program_id
    [meta_new_readonly exec true; meta_new authz_pda false;
     meta_new_readonly usr false; meta_new_readonly wallet false]
    (to_vec (ExecuteAction args)).

Definition pre_jupiter_bracket_check_instruction (exec authorization_pda : Pubkey)
    (proof : JupiterPreBracketProof) : Instruction :=
  let checkpoint_pda :=
    (derive_jupiter_bracket_checkpoint_pda rt program_id authorization_pda
       (pre_execution_nonce proof) (pre_destination_token_account proof)).1 in
  MkInstruction program_id
    [meta_new exec true; meta_new_readonly authorization_pda false;
     meta_new_readonly (pre_destination_token_account proof) false;
     meta_new checkpoint_pda false; meta_new_readonly system_program_id false]
    (to_vec (PreJupiterBracketCheck proof)).

Definition post_jupiter_bracket_check_instruction (exec authorization_pda : Pubkey)
    (proof : JupiterPostBracketProof) : Instruction :=
  let checkpoint_pda :=
    (derive_jupiter_bracket_checkpoint_pda rt program_id authorization_pda
       (post_execution_nonce proof) (post_destination_token_account proof)).1 in
  MkInstruction program_id
    [meta_new_readonly exec true; meta_new_readonly authorization_pda false;
     meta_new_readonly (post_destination_token_account proof) false;
     meta_new checkpoint_pda false]
    (to_vec (PostJupiterBracketCheck proof)).
End builders.

(** Every instruction decodes back from its encoding, and every buffer
    that decodes is the encoding of the well-typed instruction it decodes to:
    no second encoding, no trailing bytes. *)
Theorem instruction_wire_roundtrip bs (i : AuthorityInstruction) :
  try_from_slice bs = Some i ↔ bs = to_vec i ∧ well_typed i.
Proof. apply try_from_slice_Some. Qed.

(** The first byte is the variant's ordinal. *)
Definition instruction_tag (i : AuthorityInstruction) : Z :=
  match i with
  | CreateAuthorization _ => 0
  | Revoke => 1
  | CloseAuthorization => 2
  | ExecuteAction _ => 3
  | PreJupiterBracketCheck _ => 4
  | PostJupiterBracketCheck _ => 5
  end.

Lemma to_vec_instruction_tag i :
  head (to_vec i) = Some (byte_of (instruction_tag i)).
Proof. by destruct i. Qed.

Lemma try_from_slice_tag b bs i :
  try_from_slice (b :: bs) = Some i → byte_val b = instruction_tag i.
Proof.
  intros [H _]%try_from_slice_Some. pose proof (to_vec_instruction_tag i) as Ht.
  rewrite <- H in Ht. injection Ht as ->. by destruct i.
Qed.
