(* ===== verification/SolendCpi.v ===== *)
(** * Solend CPI substrate ([solend_cpi_builder.rs])

    The three Solend instructions a delegated withdraw issues, the validators
    of its accounts, the oracle allowlist and the two-phase orchestrator.

    The validators read account owners and bytes, so they take the bank; the
    CPI helpers and the orchestrator run in the handler monad [M]. *)
From S2P Require Import Prelude Borsh Solana Errors Records AccountDecode.

Definition SOLEND_VARIANT_REFRESH_RESERVE : Z := 3.
Definition SOLEND_VARIANT_REFRESH_OBLIGATION : Z := 7.
Definition SOLEND_VARIANT_WITHDRAW_OBLIGATION_COLLATERAL_AND_REDEEM : Z := 15.
Definition WITHDRAW_BASE_ACCOUNTS_LEN : nat := 12.

(** ** Instruction data *)
Definition build_refresh_reserve_data : list byte :=
  [byte_of SOLEND_VARIANT_REFRESH_RESERVE].
Definition build_refresh_obligation_data : list byte :=
  [byte_of SOLEND_VARIANT_REFRESH_OBLIGATION].
Definition build_withdraw_obligation_collateral_and_redeem_reserve_collateral_data
    (amount : Z) : list byte :=
  byte_of SOLEND_VARIANT_WITHDRAW_OBLIGATION_COLLATERAL_AND_REDEEM :: to_le 8 amount.

(** ** Account metas *)
Definition build_refresh_reserve_metas (reserve pyth switchboard clock : Pubkey)
    (extra : option Pubkey) : list AccountMeta :=
  [meta_new reserve false; meta_new_readonly pyth false;
   meta_new_readonly switchboard false; meta_new_readonly clock false] ++
  match extra with Some e => [meta_new_readonly e false] | None => [] end.

Definition build_refresh_obligation_metas (obligation : Pubkey)
    (reserve_pubkeys : list Pubkey) : list AccountMeta :=
  meta_new obligation false :: map (λ r, meta_new r false) reserve_pubkeys.

Record SolendWithdrawAccounts := MkWithdrawAccounts {
  wa_source_collateral : AccountInfo;
  wa_delegated_ctoken : AccountInfo;
  wa_reserve : AccountInfo;
  wa_obligation : AccountInfo;
  wa_lending_market : AccountInfo;
  wa_lending_market_authority : AccountInfo;
  wa_destination : AccountInfo;
  wa_reserve_collateral_mint : AccountInfo;
  wa_reserve_liquidity_supply : AccountInfo;
  wa_obligation_owner : AccountInfo;
  wa_user_transfer_authority : AccountInfo;
  wa_token_program : AccountInfo
}.

(** [SolendWithdrawAccounts::parse]: fewer than twelve accounts is an error. *)
Definition parse_withdraw_accounts (accounts : list AccountInfo) :
    Res SolendWithdrawAccounts :=
  match accounts with
  | a0 :: a1 :: a2 :: a3 :: a4 :: a5 :: a6 :: a7 :: a8 :: a9 :: a10 :: a11 :: _ =>
      Ok (MkWithdrawAccounts a0 a1 a2 a3 a4 a5 a6 a7 a8 a9 a10 a11)
  | _ => Err (authority_into SolendCpiAccountOrderInvalid)
  end.

(** The twelve base accounts, in slot order. *)
Definition withdraw_slots (a : SolendWithdrawAccounts) : list AccountInfo :=
  [wa_source_collateral a; wa_delegated_ctoken a; wa_reserve a; wa_obligation a;
   wa_lending_market a; wa_lending_market_authority a; wa_destination a;
   wa_reserve_collateral_mint a; wa_reserve_liquidity_supply a; wa_obligation_owner a;
   wa_user_transfer_authority a; wa_token_program a].

Definition build_withdraw_obligation_collateral_and_redeem_reserve_collateral_metas
    (source_collateral delegated_ctoken withdraw_reserve obligation lending_market
     lending_market_authority destination_liquidity reserve_collateral_mint
     reserve_liquidity_supply obligation_owner user_transfer_authority
     token_program : Pubkey) (deposit_reserves : list Pubkey) : list AccountMeta :=
  [meta_new source_collateral false;
   meta_new delegated_ctoken false;
   meta_new withdraw_reserve false;
   meta_new obligation false;
   meta_new lending_market false;
   meta_new_readonly lending_market_authority false;
   meta_new destination_liquidity false;
   meta_new reserve_collateral_mint false;
   meta_new reserve_liquidity_supply false;
   meta_new_readonly obligation_owner true;
   meta_new_readonly user_transfer_authority true;
   meta_new_readonly token_program false] ++
  map (λ r, meta_new r false) deposit_reserves.

(** ** Shadow-mapping validator *)
Record SolendWithdrawShadowExpectations := MkExpectations {
  ex_solend_program_id : Pubkey;
  expected_obligation : Pubkey;
  expected_reserve : Pubkey;
  expected_lending_market : Pubkey;
  expected_ctoken_mint : Pubkey;
  expected_liquidity_mint : Pubkey
}.

Record SolendWithdrawShadowDecoded := MkShadowDecoded {
  sd_obligation : DecodedSolendObligation;
  sd_reserve : DecodedSolendReserve;
  sd_delegated_ctoken : DecodedSplTokenAccountLite;
  sd_destination : DecodedSplTokenAccountLite
}.

(** [for k in slots { if k == &clock || k == &rent { return Err(..) } }] *)
Fixpoint forbid_sysvars (slots : list Pubkey) : Res unit :=
  match slots with
  | [] => Ok tt
  | k :: slots =>
      _ ← throw_if (bool_decide (k = sysvar_clock_id) || bool_decide (k = sysvar_rent_id))
            (authority_into SolendCpiSysvarMismatch);
      forbid_sysvars slots
  end.

Definition forbid_canonical_sysvars_in_base_slots (accounts : SolendWithdrawAccounts) :
    Res unit :=
  forbid_sysvars (map key (withdraw_slots accounts)).

(** Slots 9 and 10: the delegated wallet, signing; never the user. *)
Definition require_signer_slot (a : AccountInfo) (record : AuthorizationRecord) : Res unit :=
  _ ← throw_if (bool_decide (key a = user record))
        (authority_into SolendMainWalletObligationRejected);
  _ ← throw_if (bool_decide (key a ≠ delegated_wallet record))
        (authority_into SolendObligationAuthorityMismatch);
  throw_if (negb (is_signer a)) (authority_into SolendCpiBuilderInvariantFailed).

Section validators.
Context (b : Bank).

Definition validate_solend_withdraw_shadow_mapping (accounts : SolendWithdrawAccounts)
    (record : AuthorizationRecord) (expectations : SolendWithdrawShadowExpectations) :
    Res SolendWithdrawShadowDecoded :=
  _ ← forbid_canonical_sysvars_in_base_slots accounts;
  _ ← throw_if (bool_decide
          (ex_solend_program_id expectations ≠ SOLEND_PROGRAM_ID_MAINNET))
        (authority_into SolendProgramMismatch);
  let obligation := wa_obligation accounts in
  _ ← throw_if (bool_decide (key obligation ≠ expected_obligation expectations))
        (authority_into SolendCpiAccountOrderInvalid);
  _ ← throw_if (bool_decide
          (owner (acct b (key obligation)) ≠ ex_solend_program_id expectations))
        (authority_into SolendAccountOwnerMismatch);
  decoded_obligation ← decode_obligation (data (acct b (key obligation)));
  _ ← require_obligation_owned_by_delegated_wallet decoded_obligation record;
  _ ← require_obligation_lending_market decoded_obligation
        (expected_lending_market expectations);
  let reserve := wa_reserve accounts in
  _ ← throw_if (bool_decide (key reserve ≠ expected_reserve expectations))
        (authority_into SolendReserveMismatch);
  _ ← throw_if (bool_decide
          (owner (acct b (key reserve)) ≠ ex_solend_program_id expectations))
        (authority_into SolendAccountOwnerMismatch);
  decoded_reserve ← decode_reserve (data (acct b (key reserve)));
  _ ← require_reserve_lending_market decoded_reserve (expected_lending_market expectations);
  _ ← throw_if (bool_decide
          (key (wa_lending_market accounts) ≠ expected_lending_market expectations))
        (authority_into SolendLendingMarketMismatch);
  let ctoken := wa_delegated_ctoken accounts in
  _ ← throw_if (bool_decide (owner (acct b (key ctoken)) ≠ SPL_TOKEN_PROGRAM_ID))
        (authority_into SolendTokenAccountOwnerMismatch);
  decoded_ctoken ← decode_spl_token_account_lite (data (acct b (key ctoken)));
  _ ← require_spl_token_authority decoded_ctoken (delegated_wallet record);
  _ ← require_spl_token_mint decoded_ctoken (expected_ctoken_mint expectations);
  let dest := wa_destination accounts in
  _ ← throw_if (bool_decide (key dest ≠ destination record))
        (authority_into SolendDestinationMismatch);
  _ ← throw_if (bool_decide (owner (acct b (key dest)) ≠ SPL_TOKEN_PROGRAM_ID))
        (authority_into SolendTokenAccountOwnerMismatch);
  decoded_destination ← decode_spl_token_account_lite (data (acct b (key dest)));
  _ ← require_spl_token_mint decoded_destination (expected_liquidity_mint expectations);
  _ ← throw_if (bool_decide (key (wa_token_program accounts) ≠ SPL_TOKEN_PROGRAM_ID))
        (authority_into SolendCpiTokenProgramMismatch);
  _ ← require_signer_slot (wa_obligation_owner accounts) record;
  _ ← require_signer_slot (wa_user_transfer_authority accounts) record;
  Ok (MkShadowDecoded decoded_obligation decoded_reserve decoded_ctoken
        decoded_destination).

Definition require_canonical_clock_sysvar (account : AccountInfo) : Res unit :=
  throw_if (bool_decide (key account ≠ sysvar_clock_id))
    (authority_into SolendCpiSysvarMismatch).

Definition require_canonical_token_program (account : AccountInfo) : Res unit :=
  throw_if (bool_decide (key account ≠ SPL_TOKEN_PROGRAM_ID))
    (authority_into SolendCpiTokenProgramMismatch).

Definition read_live_ctoken_amount_or_fail_closed (delegated_ctoken : AccountInfo)
    (record : AuthorizationRecord) (ctoken_mint : Pubkey) : Res Z :=
  _ ← throw_if (bool_decide (owner (acct b (key delegated_ctoken)) ≠ SPL_TOKEN_PROGRAM_ID))
        (authority_into SolendTokenAccountOwnerMismatch);
  decoded ← decode_spl_token_account_lite (data (acct b (key delegated_ctoken)));
  _ ← require_spl_token_authority decoded (delegated_wallet record);
  _ ← require_spl_token_mint decoded ctoken_mint;
  _ ← throw_if (ta_amount decoded =? 0) (authority_into SolendCpiZeroCollateralAmount);
  Ok (ta_amount decoded).

(** Always an error. *)
Definition verify_oracles_or_fail_closed_p5b1 (pyth switchboard : AccountInfo)
    (extra : option AccountInfo) (reserve : Pubkey) : Res unit :=
  Err (authority_into SolendCpiOracleUnverified).

Definition require_external_delegated_wallet_signer (delegated_wallet_account : AccountInfo)
    (record : AuthorizationRecord) : Res unit :=
  _ ← throw_if (bool_decide (key delegated_wallet_account = user record))
        (authority_into SolendMainWalletObligationRejected);
  _ ← throw_if (bool_decide (key delegated_wallet_account ≠ delegated_wallet record))
        (authority_into SolendCpiDelegatedWalletMismatch);
  throw_if (negb (is_signer delegated_wallet_account))
    (authority_into SolendCpiDelegatedWalletNotSigner).
End validators.

(** ** Oracle modes and the demo allowlist *)
Inductive SolendOracleMode := OfficialReserveDecode | FailClosed | DemoPinnedAllowlist.

Definition p5b2_oracle_mode : SolendOracleMode := FailClosed.

Record DemoOracleTuple := MkTuple {
  dt_reserve : Pubkey;
  dt_lending_market : Pubkey;
  dt_liquidity_mint : Pubkey;
  dt_ctoken_mint : Pubkey;
  dt_pyth_oracle : Pubkey;
  dt_switchboard_oracle : Pubkey;
  dt_extra_oracle : Pubkey
}.
#[export] Instance oracle_tuple_eq_dec : EqDecision DemoOracleTuple.
Proof. solve_decision. Defined.

(** [Pubkey::default()] *)
Definition default_pubkey : Pubkey := replicate 32 Byte.x00.

Definition MAINNET_BETA_DEMO_USDC_TUPLE : DemoOracleTuple := Eval vm_compute in
  MkTuple (pubkey "BgxfHJDzm44T7XG68MYKx7YisTjZu73tVovyZSjJMpmw")
    (pubkey "4UpD2fh7xH3VP9QQaXtsS1YY3bxzWhtfpks7FatyKvdY")
    (pubkey "EPjFWdd5AufqSSqeM2qN1xzybapC8G4wEGGkZwyTDt1v")
    (pubkey "993dVFL2uXWYeoXuEBFXR4BijeXdTv4s6BzsCjJZuwqk")
    (pubkey "Dpw1EAVrSB1ibxiDQyTAW6Zip3J4Btk2x4SgApQCeFbX")
    (pubkey "nu11111111111111111111111111111111111111111")
    (replicate 32 Byte.x00).

Definition verify_demo_pinned_oracle_tuple (runtime_reserve runtime_lending_market
    runtime_liquidity_mint runtime_ctoken_mint runtime_pyth_oracle
    runtime_switchboard : Pubkey) (runtime_extra_oracle : option Pubkey) : Res unit :=
  let demo := MAINNET_BETA_DEMO_USDC_TUPLE in
  _ ← throw_if (bool_decide (runtime_reserve ≠ dt_reserve demo))
        (authority_into SolendDemoOracleUnknownReserve);
  _ ← throw_if (bool_decide (runtime_lending_market ≠ dt_lending_market demo))
        (authority_into SolendDemoOracleTupleMismatch);
  _ ← throw_if (bool_decide (runtime_liquidity_mint ≠ dt_liquidity_mint demo))
        (authority_into SolendDemoOracleTupleMismatch);
  _ ← throw_if (bool_decide (runtime_ctoken_mint ≠ dt_ctoken_mint demo))
        (authority_into SolendDemoOracleTupleMismatch);
  _ ← throw_if (bool_decide (runtime_pyth_oracle ≠ dt_pyth_oracle demo))
        (authority_into SolendDemoOracleTupleMismatch);
  _ ← throw_if (bool_decide (runtime_switchboard ≠ dt_switchboard_oracle demo))
        (authority_into SolendDemoOracleTupleMismatch);
  throw_if (bool_decide (default default_pubkey runtime_extra_oracle ≠ dt_extra_oracle demo))
    (authority_into SolendDemoOracleTupleMismatch).

Definition select_oracle_mode_for_runtime_tuple (runtime_reserve runtime_lending_market
    runtime_liquidity_mint runtime_ctoken_mint runtime_pyth_oracle
    runtime_switchboard : Pubkey) (runtime_extra_oracle : option Pubkey) :
    SolendOracleMode :=
  match verify_demo_pinned_oracle_tuple runtime_reserve runtime_lending_market
          runtime_liquidity_mint runtime_ctoken_mint runtime_pyth_oracle
          runtime_switchboard runtime_extra_oracle with
  | Ok _ => DemoPinnedAllowlist
  | Err _ => FailClosed
  end.

(** ** The CPI helpers *)
Record SolendCpiSubstrate := MkSubstrate {
  ss_solend_program : AccountInfo;
  ss_pyth_oracle : AccountInfo;
  ss_switchboard_oracle : AccountInfo;
  ss_clock_sysvar : AccountInfo;
  ss_extra_oracle : option AccountInfo
}.

Section cpi.
Context (rt : Runtime).

(** [invoke(&ix, &account_infos).map_err(|_| e)] *)
Definition invoke_or (e : AuthorityError) (ix : Instruction) (infos : list AccountInfo) :
    M unit := λ w,
  match invoke rt ix infos w with
  | Ok r => Ok r
  | Err _ => Err (authority_into e)
  end.

Definition refresh_reserve_ix (solend_program reserve pyth switchboard clock : AccountInfo)
    (extra : option AccountInfo) : Instruction :=
  MkInstruction (key solend_program)
    (build_refresh_reserve_metas (key reserve) (key pyth) (key switchboard) (key clock)
       (key <$> extra))
    build_refresh_reserve_data.

Definition cpi_refresh_reserve (solend_program reserve pyth switchboard clock : AccountInfo)
    (extra : option AccountInfo) : M unit :=
  _ ← throw_ifM (bool_decide (key solend_program ≠ SOLEND_PROGRAM_ID_MAINNET))
        SolendProgramMismatch;
  invoke_or SolendCpiRefreshReserveFailed
    (refresh_reserve_ix solend_program reserve pyth switchboard clock extra)
    ([reserve; pyth; switchboard; clock] ++ option_list extra).

Definition refresh_obligation_ix (solend_program obligation : AccountInfo)
    (deposit_reserves : list AccountInfo) : Instruction :=
  MkInstruction (key solend_program)
    (build_refresh_obligation_metas (key obligation) (map key deposit_reserves))
    build_refresh_obligation_data.

Definition cpi_refresh_obligation (solend_program obligation : AccountInfo)
    (deposit_reserves : list AccountInfo) : M unit :=
  _ ← throw_ifM (bool_decide (key solend_program ≠ SOLEND_PROGRAM_ID_MAINNET))
        SolendProgramMismatch;
  invoke_or SolendCpiRefreshObligationFailed
    (refresh_obligation_ix solend_program obligation deposit_reserves)
    (obligation :: deposit_reserves).

Definition withdraw_ix (solend_program : AccountInfo) (a : SolendWithdrawAccounts)
    (deposit_reserves : list AccountInfo) (amount : Z) : Instruction :=
  MkInstruction (key solend_program)
    (build_withdraw_obligation_collateral_and_redeem_reserve_collateral_metas
       (key (wa_source_collateral a)) (key (wa_delegated_ctoken a)) (key (wa_reserve a))
       (key (wa_obligation a)) (key (wa_lending_market a))
       (key (wa_lending_market_authority a)) (key (wa_destination a))
       (key (wa_reserve_collateral_mint a)) (key (wa_reserve_liquidity_supply a))
       (key (wa_obligation_owner a)) (key (wa_user_transfer_authority a))
       (key (wa_token_program a)) (map key deposit_reserves))
    (build_withdraw_obligation_collateral_and_redeem_reserve_collateral_data amount).

Definition cpi_withdraw_obligation_collateral_and_redeem_reserve_collateral
    (solend_program : AccountInfo) (a : SolendWithdrawAccounts)
    (deposit_reserves : list AccountInfo) (amount : Z) : M unit :=
  _ ← throw_ifM (bool_decide (key solend_program ≠ SOLEND_PROGRAM_ID_MAINNET))
        SolendProgramMismatch;
  invoke_or SolendCpiWithdrawFailed (withdraw_ix solend_program a deposit_reserves amount)
    (withdraw_slots a ++ deposit_reserves).

(** ** The orchestrator *)
Definition try_solend_cpi_skeleton (record : AuthorizationRecord)
    (delegated_wallet_account : AccountInfo) (substrate : SolendCpiSubstrate)
    (accounts : SolendWithdrawAccounts) (deposit_reserves : list AccountInfo)
    (expectations : SolendWithdrawShadowExpectations) : M unit := λ w,
  let b := w_bank w in
  (_ ← throw_ifM (bool_decide
          (key (ss_solend_program substrate) ≠ SOLEND_PROGRAM_ID_MAINNET))
        SolendProgramMismatch;
   _ ← lift (require_external_delegated_wallet_signer delegated_wallet_account record);
   _ ← lift (require_canonical_clock_sysvar (ss_clock_sysvar substrate));
   _ ← lift (require_canonical_token_program (wa_token_program accounts));
   _ ← lift (validate_solend_withdraw_shadow_mapping b accounts record expectations);
   amount ← lift (read_live_ctoken_amount_or_fail_closed b
                    (wa_delegated_ctoken accounts) record
                    (expected_ctoken_mint expectations));
   _ ← match select_oracle_mode_for_runtime_tuple (expected_reserve expectations)
               (expected_lending_market expectations)
               (expected_liquidity_mint expectations) (expected_ctoken_mint expectations)
               (key (ss_pyth_oracle substrate)) (key (ss_switchboard_oracle substrate))
               (key <$> ss_extra_oracle substrate) with
       | FailClosed => raise SolendCpiSuccessPathBlockedByOracleValidation
       | DemoPinnedAllowlist => mret tt
       | OfficialReserveDecode =>
           lift (verify_oracles_or_fail_closed_p5b1 (ss_pyth_oracle substrate)
                   (ss_switchboard_oracle substrate) (ss_extra_oracle substrate)
                   (expected_reserve expectations))
       end;
   _ ← cpi_refresh_reserve (ss_solend_program substrate) (wa_reserve accounts)
         (ss_pyth_oracle substrate) (ss_switchboard_oracle substrate)
         (ss_clock_sysvar substrate) (ss_extra_oracle substrate);
   _ ← cpi_refresh_obligation (ss_solend_program substrate) (wa_obligation accounts)
         deposit_reserves;
   cpi_withdraw_obligation_collateral_and_redeem_reserve_collateral
     (ss_solend_program substrate) accounts deposit_reserves amount) w.
End cpi.

(** ** What the validators establish *)
Lemma forbid_sysvars_Ok l :
  forbid_sysvars l = Ok tt ↔ sysvar_clock_id ∉ l ∧ sysvar_rent_id ∉ l.
Proof.
  induction l as [|k l IH]; cbn [forbid_sysvars]; [set_solver|].
  rewrite bind_Ok. setoid_rewrite IH. setoid_rewrite not_elem_of_cons.
  setoid_rewrite throw_if_Ok.
  setoid_rewrite orb_false_iff. setoid_rewrite bool_decide_eq_false.
  split; [naive_solver|]. intros [[? ?] [? ?]]. exists tt. naive_solver.
Qed.

Lemma require_signer_slot_Ok a r :
  require_signer_slot a r = Ok tt ↔
  key a = delegated_wallet r ∧ key a ≠ user r ∧ is_signer a = true.
Proof.
  unfold require_signer_slot. split.
  - intros H. inv_ok H. b2p. done.
  - intros (-> & Hu & ->). rewrite throw_if_false by (by apply bool_decide_eq_false).
    by rewrite throw_if_false by (by apply neq_guard).
Qed.

(** The accounts of an accepted withdraw, against the record and the
    expectations. *)
Record shadow_ok (b : Bank) (a : SolendWithdrawAccounts) (r : AuthorizationRecord)
    (e : SolendWithdrawShadowExpectations) (d : SolendWithdrawShadowDecoded) : Prop := {
  so_sysvars : sysvar_clock_id ∉ map key (withdraw_slots a) ∧
               sysvar_rent_id ∉ map key (withdraw_slots a);
  so_program : ex_solend_program_id e = SOLEND_PROGRAM_ID_MAINNET;
  so_obligation : key (wa_obligation a) = expected_obligation e;
  so_obligation_owner :
    owner (acct b (key (wa_obligation a))) = SOLEND_PROGRAM_ID_MAINNET;
  so_obligation_data :
    decode_obligation (data (acct b (key (wa_obligation a)))) = Ok (sd_obligation d);
  so_obligation_delegated : ob_owner (sd_obligation d) = delegated_wallet r;
  so_obligation_not_user : ob_owner (sd_obligation d) ≠ user r;
  so_obligation_market : ob_lending_market (sd_obligation d) = expected_lending_market e;
  so_reserve : key (wa_reserve a) = expected_reserve e;
  so_reserve_owner : owner (acct b (key (wa_reserve a))) = SOLEND_PROGRAM_ID_MAINNET;
  so_reserve_data : decode_reserve (data (acct b (key (wa_reserve a)))) = Ok (sd_reserve d);
  so_reserve_market : rs_lending_market (sd_reserve d) = expected_lending_market e;
  so_market : key (wa_lending_market a) = expected_lending_market e;
  so_ctoken_owner : owner (acct b (key (wa_delegated_ctoken a))) = SPL_TOKEN_PROGRAM_ID;
  so_ctoken_data : decode_spl_token_account_lite
    (data (acct b (key (wa_delegated_ctoken a)))) = Ok (sd_delegated_ctoken d);
  so_ctoken_authority : ta_owner (sd_delegated_ctoken d) = delegated_wallet r;
  so_ctoken_mint : ta_mint (sd_delegated_ctoken d) = expected_ctoken_mint e;
  so_destination : key (wa_destination a) = destination r;
  so_destination_owner : owner (acct b (key (wa_destination a))) = SPL_TOKEN_PROGRAM_ID;
  so_destination_data : decode_spl_token_account_lite
    (data (acct b (key (wa_destination a)))) = Ok (sd_destination d);
  so_destination_mint : ta_mint (sd_destination d) = expected_liquidity_mint e;
  so_token_program : key (wa_token_program a) = SPL_TOKEN_PROGRAM_ID;
  so_signer9 : key (wa_obligation_owner a) = delegated_wallet r ∧
    key (wa_obligation_owner a) ≠ user r ∧ is_signer (wa_obligation_owner a) = true;
  so_signer10 : key (wa_user_transfer_authority a) = delegated_wallet r ∧
    key (wa_user_transfer_authority a) ≠ user r ∧
    is_signer (wa_user_transfer_authority a) = true
}.

Lemma require_obligation_owned_Ok d r :
  require_obligation_owned_by_delegated_wallet d r = Ok tt ↔
  ob_owner d = delegated_wallet r ∧ ob_owner d ≠ user r.
Proof.
  unfold require_obligation_owned_by_delegated_wallet. split.
  - intros H. inv_ok H. b2p. done.
  - intros [? ?]. rewrite throw_if_false by (by apply bool_decide_eq_false).
    by apply throw_if_Ok, neq_guard.
Qed.

Ltac unit_vars := repeat match goal with u : unit |- _ => destruct u end.

Lemma validate_shadow_Ok b a r e d :
  validate_solend_withdraw_shadow_mapping b a r e = Ok d ↔ shadow_ok b a r e d.
Proof.
  unfold validate_solend_withdraw_shadow_mapping, forbid_canonical_sysvars_in_base_slots,
    require_obligation_lending_market, require_reserve_lending_market,
    require_spl_token_authority, require_spl_token_mint. cbv zeta. split.
  - intros H. inv_ok1 H. unit_vars.
    repeat match goal with
    | H : forbid_sysvars _ = _ |- _ => apply forbid_sysvars_Ok in H
    | H : require_signer_slot _ _ = _ |- _ => apply require_signer_slot_Ok in H
    | H : require_obligation_owned_by_delegated_wallet _ _ = _ |- _ =>
        apply require_obligation_owned_Ok in H as [??]
    | H : bool_decide (_ ≠ _) = false |- _ => apply (proj1 (neq_guard _ _)) in H
    end.
    subst d. match goal with H : ex_solend_program_id e = _ |- _ => rewrite H in * end.
    constructor; done.
  - intros []. rewrite (proj2 (forbid_sysvars_Ok _)) by done. cbn [mbind result_bind].
    rewrite so_program0.
    do 3 rewrite throw_if_false by (by apply neq_guard).
    rewrite so_obligation_data0. cbn [mbind result_bind].
    rewrite (proj2 (require_obligation_owned_Ok _ _)) by done. cbn [mbind result_bind].
    do 3 rewrite throw_if_false by (by apply neq_guard).
    rewrite so_reserve_data0. cbn [mbind result_bind].
    do 3 rewrite throw_if_false by (by apply neq_guard).
    rewrite so_ctoken_data0. cbn [mbind result_bind].
    do 4 rewrite throw_if_false by (by apply neq_guard).
    rewrite so_destination_data0. cbn [mbind result_bind].
    do 2 rewrite throw_if_false by (by apply neq_guard).
    do 2 (rewrite (proj2 (require_signer_slot_Ok _ _)) by done; cbn [mbind result_bind]).
    by destruct d.
Qed.

Lemma read_live_ctoken_Ok b a r mint amount :
  read_live_ctoken_amount_or_fail_closed b a r mint = Ok amount ↔
  owner (acct b (key a)) = SPL_TOKEN_PROGRAM_ID ∧ amount ≠ 0 ∧
  ∃ own, decode_spl_token_account_lite (data (acct b (key a))) =
    Ok (MkTokenAccount mint own amount) ∧ own = delegated_wallet r.
Proof.
  unfold read_live_ctoken_amount_or_fail_closed, require_spl_token_authority,
    require_spl_token_mint. split.
  - intros H. inv_ok1 H. unit_vars. b2p. subst amount.
    split_and!; [done..|]. exists (delegated_wallet r). split; [|done].
    match goal with H : decode_spl_token_account_lite _ = Ok ?t |- _ =>
      rewrite H; destruct t; simpl in *; congruence end.
  - intros (-> & H0 & own & -> & ->). rewrite throw_if_false by (by apply neq_guard).
    cbn [mbind result_bind ta_owner ta_mint ta_amount].
    do 2 rewrite throw_if_false by (by apply neq_guard).
    by rewrite throw_if_false by (b2p; done).
Qed.

(** The allowlist admits one tuple; an absent extra oracle stands for the
    default key. *)
Lemma select_oracle_mode_demo r m l c p s x :
  select_oracle_mode_for_runtime_tuple r m l c p s x = DemoPinnedAllowlist ↔
  MkTuple r m l c p s (default default_pubkey x) = MAINNET_BETA_DEMO_USDC_TUPLE.
Proof.
  unfold select_oracle_mode_for_runtime_tuple, verify_demo_pinned_oracle_tuple.
  destruct MAINNET_BETA_DEMO_USDC_TUPLE as [r' m' l' c' p' s' x']. cbn. split.
  - intros H. destruct (_ ≫= _) eqn:E in H; [|done]. inv_ok1 E. b2p. by subst.
  - intros [= -> -> -> -> -> -> ->].
    by do 6 (rewrite bool_decide_false by (intros H; by apply H); cbn);
      rewrite bool_decide_false by (intros H; by apply H).
Qed.

Lemma select_oracle_mode_cases r m l c p s x :
  select_oracle_mode_for_runtime_tuple r m l c p s x = DemoPinnedAllowlist ∨
  select_oracle_mode_for_runtime_tuple r m l c p s x = FailClosed.
Proof. unfold select_oracle_mode_for_runtime_tuple. case_match; auto. Qed.

Lemma require_external_signer_Ok a r :
  require_external_delegated_wallet_signer a r = Ok tt ↔
  key a = delegated_wallet r ∧ key a ≠ user r ∧ is_signer a = true.
Proof.
  unfold require_external_delegated_wallet_signer. split.
  - intros H. inv_ok H. b2p. done.
  - intros (-> & Hu & ->). rewrite throw_if_false by (by apply bool_decide_eq_false).
    by rewrite throw_if_false by (by apply neq_guard).
Qed.

(** ** The orchestrator's contract *)

(** Phase 1 of the withdraw: everything checked before any program is called. *)
Record solend_phase1 (b : Bank) (r : AuthorizationRecord) (dw : AccountInfo)
    (s : SolendCpiSubstrate) (a : SolendWithdrawAccounts)
    (e : SolendWithdrawShadowExpectations) (d : SolendWithdrawShadowDecoded) : Prop := {
  p1_program : key (ss_solend_program s) = SOLEND_PROGRAM_ID_MAINNET;
  p1_signer : key dw = delegated_wallet r ∧ key dw ≠ user r ∧ is_signer dw = true;
  p1_clock : key (ss_clock_sysvar s) = sysvar_clock_id;
  p1_shadow : shadow_ok b a r e d;
  p1_amount : ta_amount (sd_delegated_ctoken d) ≠ 0
}.

(** The oracle tuple a withdraw runs with. *)
Definition runtime_tuple (s : SolendCpiSubstrate) (e : SolendWithdrawShadowExpectations) :
    DemoOracleTuple :=
  MkTuple (expected_reserve e) (expected_lending_market e) (expected_liquidity_mint e)
    (expected_ctoken_mint e) (key (ss_pyth_oracle s)) (key (ss_switchboard_oracle s))
    (default default_pubkey (key <$> ss_extra_oracle s)).

Section contract.
Context (rt : Runtime).

(** Phase 2: the three calls in sequence, each on the bank the last one left,
    the withdraw for the live amount read in phase 1. *)
Definition solend_phase2 (b : Bank) (s : SolendCpiSubstrate) (a : SolendWithdrawAccounts)
    (dep : list AccountInfo) (d : SolendWithdrawShadowDecoded) (b3 : Bank) : Prop :=
  ∃ b1 b2,
    rt_invoke rt
      (refresh_reserve_ix (ss_solend_program s) (wa_reserve a) (ss_pyth_oracle s)
         (ss_switchboard_oracle s) (ss_clock_sysvar s) (ss_extra_oracle s))
      ([wa_reserve a; ss_pyth_oracle s; ss_switchboard_oracle s; ss_clock_sysvar s] ++
       option_list (ss_extra_oracle s)) [] b = Ok b1 ∧
    rt_invoke rt (refresh_obligation_ix (ss_solend_program s) (wa_obligation a) dep)
      (wa_obligation a :: dep) [] b1 = Ok b2 ∧
    rt_invoke rt
      (withdraw_ix (ss_solend_program s) a dep (ta_amount (sd_delegated_ctoken d)))
      (withdraw_slots a ++ dep) [] b2 = Ok b3.

Lemma invoke_or_Ok e ix infos w u w' :
  invoke_or rt e ix infos w = Ok (u, w') ↔
  ∃ b, rt_invoke rt ix infos [] (w_bank w) = Ok b ∧ w' = with_bank b w.
Proof.
  unfold invoke_or, invoke. rewrite <- invoke_signed_Ok.
  destruct (invoke_signed _ _ _ _ _); naive_solver.
Qed.

Lemma try_solend_phases r dw s a dep e w w' :
  try_solend_cpi_skeleton rt r dw s a dep e w = Ok (tt, w') ↔
  ∃ d b3, solend_phase1 (w_bank w) r dw s a e d ∧
    runtime_tuple s e = MAINNET_BETA_DEMO_USDC_TUPLE ∧
    solend_phase2 (w_bank w) s a dep d b3 ∧ w' = with_bank b3 w.
Proof.
  unfold try_solend_cpi_skeleton, cpi_refresh_reserve, cpi_refresh_obligation,
    cpi_withdraw_obligation_collateral_and_redeem_reserve_collateral. split.
  - intros H. inv_run1 H.
    destruct (select_oracle_mode_for_runtime_tuple _ _ _ _ _ _ _) eqn:Hmode;
      [destruct (select_oracle_mode_cases (expected_reserve e) (expected_lending_market e)
         (expected_liquidity_mint e) (expected_ctoken_mint e) (key (ss_pyth_oracle s))
         (key (ss_switchboard_oracle s)) (key <$> ss_extra_oracle s)); congruence
      |done|].
    match goal with H : mret tt w = _ |- _ => injection H as _ <- end.
    repeat match goal with H : invoke_or _ _ _ _ _ = _ |- _ =>
      apply invoke_or_Ok in H as (? & ? & ->) end. unit_vars.
    rename select (validate_solend_withdraw_shadow_mapping _ _ _ _ = _) into Hval.
    apply validate_shadow_Ok in Hval.
    rename select (read_live_ctoken_amount_or_fail_closed _ _ _ _ = _) into Hlive.
    apply read_live_ctoken_Ok in Hlive as (_ & Hnz & own & Hdec & _).
    pose proof (so_ctoken_data _ _ _ _ _ Hval) as Hct. rewrite Hct in Hdec.
    injection Hdec as Hdec.
    rename select (require_external_delegated_wallet_signer _ _ = _) into Hsig.
    apply require_external_signer_Ok in Hsig.
    rename select (require_canonical_clock_sysvar _ = _) into Hclk.
    apply throw_if_Ok in Hclk. b2p.
    eexists v2, _. split; [constructor; try done; by rewrite Hdec|].
    split; [by apply select_oracle_mode_demo|]. split; [|done].
    unfold solend_phase2. rewrite Hdec. cbn [ta_amount]. eauto.
  - intros (d & b3 & [] & Ht & (b1 & b2 & H1 & H2 & H3) & ->).
    rewrite !guard_step by (by apply neq_guard).
    rewrite (lift_step _ tt) by (by apply require_external_signer_Ok).
    rewrite (lift_step _ tt) by (by apply throw_if_Ok, neq_guard).
    rewrite (lift_step _ tt) by (apply throw_if_Ok, neq_guard; by destruct p1_shadow0).
    rewrite (lift_step _ d) by (by apply validate_shadow_Ok).
    rewrite (lift_step _ (ta_amount (sd_delegated_ctoken d))).
    2: { apply read_live_ctoken_Ok. destruct p1_shadow0. split_and!; [done..|].
         exists (delegated_wallet r). split; [|done]. rewrite so_ctoken_data0.
         by destruct (sd_delegated_ctoken d); simpl in *; subst. }
    rewrite (proj2 (select_oracle_mode_demo _ _ _ _ _ _ _)) by done.
    rewrite (bindM_step _ _ _ tt w) by done.
    rewrite (bindM_step _ _ _ tt (with_bank b1 w)).
    2: { rewrite guard_step by (by apply neq_guard). apply invoke_or_Ok. eauto. }
    rewrite (bindM_step _ _ _ tt (with_bank b2 w)).
    2: { rewrite guard_step by (by apply neq_guard). apply invoke_or_Ok. eauto. }
    rewrite guard_step by (by apply neq_guard). apply invoke_or_Ok. eauto.
Qed.

(** Outside the allowlist the withdraw stops before any call. *)
Lemma try_solend_blocked r dw s a dep e d w :
  solend_phase1 (w_bank w) r dw s a e d →
  runtime_tuple s e ≠ MAINNET_BETA_DEMO_USDC_TUPLE →
  try_solend_cpi_skeleton rt r dw s a dep e w =
  Err (authority_into SolendCpiSuccessPathBlockedByOracleValidation).
Proof.
  intros [] Ht. unfold try_solend_cpi_skeleton.
  rewrite guard_step by (by apply neq_guard).
  rewrite (lift_step _ tt) by (by apply require_external_signer_Ok).
  rewrite (lift_step _ tt) by (by apply throw_if_Ok, neq_guard).
  rewrite (lift_step _ tt) by (apply throw_if_Ok, neq_guard; by destruct p1_shadow0).
  rewrite (lift_step _ d) by (by apply validate_shadow_Ok).
  rewrite (lift_step _ (ta_amount (sd_delegated_ctoken d))).
  2: { apply read_live_ctoken_Ok. destruct p1_shadow0. split_and!; [done..|].
       exists (delegated_wallet r). split; [|done]. rewrite so_ctoken_data0.
       by destruct (sd_delegated_ctoken d); simpl in *; subst. }
  destruct (select_oracle_mode_cases (expected_reserve e) (expected_lending_market e)
    (expected_liquidity_mint e) (expected_ctoken_mint e) (key (ss_pyth_oracle s))
    (key (ss_switchboard_oracle s)) (key <$> ss_extra_oracle s)) as [Hm| ->]; [|done].
  by apply select_oracle_mode_demo in Hm.
Qed.

(** The program's own accounts keep owner and bytes through a withdraw. *)
Lemma solend_phase2_frame self `{!RuntimeLaws rt self} b s a dep d b3 k :
  key (ss_solend_program s) = SOLEND_PROGRAM_ID_MAINNET →
  SOLEND_PROGRAM_ID_MAINNET ≠ self →
  solend_phase2 b s a dep d b3 → owner (acct b k) = self →
  owner (acct b3 k) = self ∧ data (acct b3 k) = data (acct b k).
Proof.
  intros Hp Hne (b1 & b2 & H1 & H2 & H3) Hk.
  apply (invoke_frame _ _ _ _ k) in H1 as [Ho1 Hd1]; [|done|simpl; congruence].
  apply (invoke_frame _ _ _ _ k) in H2 as [Ho2 Hd2]; [|done|simpl; congruence].
  apply (invoke_frame _ _ _ _ k) in H3 as [Ho3 Hd3]; [|done|simpl; congruence].
  split; [done|congruence].
Qed.

(** Nor does a withdraw give the program an account at a derived address,
    which none of its accounts signs for. *)
Lemma solend_phase2_derived self `{!RuntimeLaws rt self} b s a dep d b3 seeds :
  let k := (find_program_address rt seeds self).1 in
  key (ss_solend_program s) = SOLEND_PROGRAM_ID_MAINNET →
  SOLEND_PROGRAM_ID_MAINNET ≠ self → ss_extra_oracle s = None →
  Forall (λ x, is_signer x = true → key x ≠ k)
    (withdraw_slots a ++ ss_pyth_oracle s :: ss_switchboard_oracle s ::
     ss_clock_sysvar s :: dep) →
  solend_phase2 b s a dep d b3 → owner (acct b k) ≠ self → owner (acct b3 k) ≠ self.
Proof.
  intros k Hp Hne Hx Hall (b1 & b2 & H1 & H2 & H3) Hk. rewrite Hx in H1.
  rewrite Forall_app, !Forall_cons in Hall. destruct Hall as (Ha & ? & ? & ? & ?).
  pose proof Ha as Ha'. unfold withdraw_slots in Ha'. rewrite !Forall_cons in Ha'.
  destruct Ha' as (_ & _ & ? & ? & _).
  apply (invoke_derived _ _ _ _ seeds) in H1; [|simpl; congruence|by repeat constructor|done].
  apply (invoke_derived _ _ _ _ seeds) in H2; [|simpl; congruence|by repeat constructor|done].
  apply (invoke_derived _ _ _ _ seeds) in H3; [done|simpl; congruence| |done].
  by apply Forall_app.
Qed.

Lemma parse_withdraw_slots l a :
  parse_withdraw_accounts l = Ok a → withdraw_slots a = take 12 l.
Proof.
  do 12 (destruct l as [|? l]; [done|]). cbn. by intros [= <-].
Qed.
End contract.

(** ** Properties *)

(** The withdraw orchestrator succeeds exactly when every account passes
    the shadow validation, the delegated wallet signs, the live collateral
    balance is not zero, the oracle tuple is the pinned one and the three calls
    (refresh reserve, refresh obligation, withdraw of that balance) go through
    in this order, each on the bank the previous one left. *)
Theorem solend_cpi_functional rt r dw s a dep e w w' :
  try_solend_cpi_skeleton rt r dw s a dep e w = Ok (tt, w') ↔
  ∃ d b3, solend_phase1 (w_bank w) r dw s a e d ∧
    runtime_tuple s e = MAINNET_BETA_DEMO_USDC_TUPLE ∧
    solend_phase2 rt (w_bank w) s a dep d b3 ∧ w' = with_bank b3 w.
Proof. apply try_solend_phases. Qed.

(** With every account in order but any oracle or reserve outside the
    pinned tuple, the withdraw stops with the blocked error: no program is
    called. *)
Theorem solend_blocked_outside_allowlist rt r dw s a dep e d w :
  solend_phase1 (w_bank w) r dw s a e d →
  runtime_tuple s e ≠ MAINNET_BETA_DEMO_USDC_TUPLE →
  try_solend_cpi_skeleton rt r dw s a dep e w =
  Err (authority_into SolendCpiSuccessPathBlockedByOracleValidation).
Proof. intros. by eapply try_solend_blocked. Qed.

(** C26: a withdraw that went through ended in one call to the Solend program
    that withdraws the whole live collateral balance of the delegated wallet's
    own token account to the destination the user signed, with no signature
    but the delegated wallet's: the user's is never passed. *)
Theorem solend_withdraw_authority rt r dw s a dep e w w' :
  try_solend_cpi_skeleton rt r dw s a dep e w = Ok (tt, w') →
  ∃ ix b2 t, rt_invoke rt ix (withdraw_slots a ++ dep) [] b2 = Ok (w_bank w') ∧
    ix_program_id ix = SOLEND_PROGRAM_ID_MAINNET ∧
    decode_spl_token_account_lite (data (acct (w_bank w) (key (wa_delegated_ctoken a)))) = Ok t ∧
    ta_owner t = delegated_wallet r ∧ ta_amount t ≠ 0 ∧
    ix_data ix = byte_of 15 :: to_le 8 (ta_amount t) ∧
    meta_key <$> ix_accounts ix !! 1%nat = Some (key (wa_delegated_ctoken a)) ∧
    meta_key <$> ix_accounts ix !! 6%nat = Some (destination r) ∧
    Forall (λ m, meta_signer m = true →
      meta_key m = delegated_wallet r ∧ meta_key m ≠ user r) (ix_accounts ix).
Proof.
  intros (d & b3 & [Hp _ _ [] Hnz] & _ & (b1 & b2 & _ & _ & H3) & ->)%try_solend_phases.
  exists (withdraw_ix (ss_solend_program s) a dep (ta_amount (sd_delegated_ctoken d))), b2,
    (sd_delegated_ctoken d).
  split_and!; try done; [by simpl; f_equal|].
  apply Forall_app. split; [|by apply Forall_map, Forall_true].
  repeat constructor; simpl; try done; naive_solver congruence.
Qed.
