(* ===== verification/Authority.v ===== *)
(** * The authority program ([clawsol-authority/src/lib.rs])

    The entrypoint and its six processors.  [process_execute_action] is split
    at the comment banners of the source into one definition per group of
    gates, composed in the source's order. *)
From S2P Require Import Prelude Borsh Solana WideMath ConditionVerifier Records.
From S2P Require Import AccountDecode SolendBoundary JupiterBoundary JupiterBracket.
From S2P Require Import Instruction SolendCpi Errors.

(** [b"..."] literals *)
Notation bytes s := (String.list_byte_of_string s).

Definition map_verifier_error_to_authority_error (err : VerifierError) : ProgramError :=
  authority_into
    match err with
    | WideMath.PythFeedIdMismatch => PythFeedIdMismatch
    | WideMath.PythPriceTooOld => PythSnapshotStale
    | WideMath.PythVerificationLevelInsufficient => PythVerificationLevelInsufficient
    | WideMath.PythConfidenceTooWide => PythConfidenceTooWide
    | WideMath.SolendFormulaVersionUnsupported => SolendFormulaVersionUnsupported
    | WideMath.SolendReserveStale => SolendReserveStale
    | WideMath.PythExponentOutOfRange | WideMath.PythComputeOverflow
    | WideMath.BoundDirectionMismatch | WideMath.UnsupportedComparison
    | WideMath.UnsupportedRateKind | WideMath.SolendInvalidReserveConfig
    | WideMath.SolendComputeOverflow | WideMath.SolendThresholdOverflow =>
        ConditionVerificationFailed
    end.

(** ** Pure gates of [process_execute_action] *)

(** Steps 4-9: the arguments against the record the user signed. *)
Definition check_record (record : AuthorizationRecord) (args : ExecuteArgs)
    (usr exec : Pubkey) : Res unit :=
  _ ← throw_if (negb (schema_version record =? xa_schema_version args))
        (authority_into UnsupportedSchemaVersion);
  _ ← throw_if (bool_decide (rule_id record ≠ xa_rule_id args))
        (authority_into InvalidAuthorizationPda);
  _ ← throw_if (bool_decide (user record ≠ usr))
        (authority_into AuthorizationUserMismatch);
  _ ← throw_if (bool_decide (executor record ≠ exec)) (authority_into ExecutorMismatch);
  _ ← throw_if (bool_decide (canonical_rule_hash record ≠ xa_canonical_rule_hash args))
        (authority_into RuleHashMismatch);
  throw_if (negb (allowed_action_type record =? xa_action_type args))
    (authority_into ActionTypeMismatch).

(** Steps 10-12: expiry, revoked, completed. *)
Definition check_lifecycle (record : AuthorizationRecord) (clock : Clock) : Res unit :=
  _ ← throw_if (expires_at_slot record <=? slot clock) (authority_into AuthorizationExpired);
  _ ← throw_if (revoked record) (authority_into AuthorizationRevoked);
  throw_if (completed record) (authority_into AuthorizationCompleted).

(** Steps 13-16: amount, cap, nonce, same-slot replay; the new used amount. *)
Definition check_cap (record : AuthorizationRecord) (args : ExecuteArgs) (clock : Clock) :
    Res Z :=
  _ ← throw_if (xa_input_amount_raw args =? 0) (authority_into InputAmountZero);
  new_used ← ok_or (checked_u 64 (used_amount_raw record + xa_input_amount_raw args))
               (authority_into InputAmountExceeded);
  _ ← throw_if (max_input_amount_raw record <? new_used)
        (authority_into InputAmountExceeded);
  expected_next_nonce ← ok_or (checked_u 64 (execution_nonce record + 1))
                          (authority_into ExecutionNonceMismatch);
  _ ← throw_if (negb (xa_execution_nonce args =? expected_next_nonce))
        (authority_into ExecutionNonceMismatch);
  _ ← throw_if (negb (last_execution_slot record =? 0) &&
                (slot clock =? last_execution_slot record))
        (authority_into SameSlotReplay);
  Ok new_used.

(** One iteration of the condition loop: the contexts come from the clock. *)
Definition evaluate_proof_condition (clock : Clock) (p : ProofCondition) : Res bool :=
  map_err map_verifier_error_to_authority_error
    match p with
    | ProofPyth c s =>
        evaluate_condition (EvalCPyth c) (EvalSPyth s (MkPythCtx (unix_timestamp clock)))
    | ProofSolend c s =>
        evaluate_condition (EvalCSolend c) (EvalSSolend s (MkSolendCtx (slot clock)))
    end.

(** [for (i, proof_cond) in ..enumerate() { results[i] = outcome }] *)
Fixpoint evaluate_proof_conditions (clock : Clock) (l : list ProofCondition) :
    Res (list bool) :=
  match l with
  | [] => Ok []
  | p :: l =>
      outcome ← evaluate_proof_condition clock p;
      results ← evaluate_proof_conditions clock l;
      Ok (outcome :: results)
  end.

Definition condition_gate (clock : Clock) (proof : ConditionProofPayload) : Res unit :=
  _ ← throw_if (length (conditions proof) =? 0)%nat (authority_into MissingConditionProof);
  _ ← throw_if (MAX_PROOF_CONDITIONS <? length (conditions proof))%nat
        (authority_into ConditionCountMismatch);
  results ← evaluate_proof_conditions clock (conditions proof);
  throw_if (negb (evaluate_condition_logic (condition_logic proof) results))
    (authority_into ConditionNotMet).

Definition solend_boundary_gate (record : AuthorizationRecord)
    (solend_boundary_proof : option SolendBoundaryProof) : Res unit :=
  if allowed_action_type record =? to_u8 SolendWithdrawAllDelegated then
    proof ← ok_or solend_boundary_proof (authority_into SolendBoundaryProofMissing);
    verify_solend_delegated_boundary record proof
  else Ok tt.

Definition jupiter_boundary_gate (record : AuthorizationRecord)
    (jupiter_boundary_proof : option JupiterBoundaryProof) : Res unit :=
  if allowed_action_type record =? to_u8 JupiterBuySolWithUsdc then
    proof ← ok_or jupiter_boundary_proof (authority_into JupiterBoundaryProofMissing);
    verify_jupiter_boundary_skeleton record proof
  else Ok tt.

Definition P5B2_MIN_ACCOUNTS : nat := 4 + WITHDRAW_BASE_ACCOUNTS_LEN + 4 + 1.

(** The mint of the destination account, peeked before the shadow mapping. *)
Definition peek_liquidity_mint (b : Bank) (dest : AccountInfo) : Res Pubkey :=
  _ ← throw_if (bool_decide (owner (acct b (key dest)) ≠ AccountDecode.SPL_TOKEN_PROGRAM_ID))
        (authority_into SolendTokenAccountOwnerMismatch);
  decoded ← decode_spl_token_account_lite (data (acct b (key dest)));
  Ok (ta_mint decoded).

Definition cpi_expectations (proof : SolendBoundaryProof) (ctoken_mint liquidity_mint : Pubkey) :
    SolendWithdrawShadowExpectations :=
  MkExpectations (solend_program_id proof) (obligation_pubkey proof) (reserve_pubkey proof)
    (lending_market_pubkey proof) ctoken_mint liquidity_mint.

(** ** Processors *)
Section processors.
Context (rt : Runtime) (program_id : Pubkey).

Definition process_create_authorization (accounts : list AccountInfo) (args : CreateArgs) :
    M unit :=
  _ ← throw_ifM (negb (ca_schema_version args =? STAGE2_AUTHORITY_SCHEMA_VERSION))
        UnsupportedSchemaVersion;
  _ ← throw_ifM (bool_decide (from_u8 (ca_allowed_action_type args) = None))
        InvalidActionType;
  _ ← throw_ifM (ca_max_input_amount_raw args =? 0) InvalidZeroMaxAmount;
  '(user_account, it) ← next_account_info accounts;
  '(authz_pda_account, it) ← next_account_info it;
  '(system_program_account, _) ← next_account_info it;
  _ ← throw_ifM (negb (is_signer user_account)) UserMustSign;
  _ ← throw_ifM (bool_decide (key system_program_account ≠ system_program_id))
        IncorrectProgramId;
  clock ← clock_get;
  _ ← throw_ifM (ca_expires_at_slot args <=? slot clock) AuthorizationExpired;
  let seeds := authorization_seeds (ca_schema_version args) (key user_account)
                 (ca_rule_id args) in
  let '(expected_pda, bmp) := find_program_address rt seeds program_id in
  _ ← throw_ifM (bool_decide (expected_pda ≠ key authz_pda_account)) InvalidPda;
  _ ← invoke_signed rt
        (create_account_ix rt (key user_account) (key authz_pda_account)
           (minimum_balance rt (Z.of_nat RECORD_LEN)) (Z.of_nat RECORD_LEN) program_id)
        [user_account; authz_pda_account; system_program_account]
        [seeds ++ [[byte_of bmp]]];
  _ ← serialize_into (key authz_pda_account)
        (to_vec (MkRecord (ca_schema_version args) (ca_rule_id args) (key user_account)
           (ca_executor args) (ca_delegated_wallet args) (ca_canonical_rule_hash args)
           (ca_allowed_action_type args) (ca_max_input_amount_raw args) 0
           (ca_destination args) (ca_expires_at_slot args) false false 0 0 bmp));
  sol_log_data [bytes "authz_created_v1"; ca_rule_id args; key user_account;
                ca_executor args; ca_delegated_wallet args;
                [byte_of (ca_allowed_action_type args)]; ca_canonical_rule_hash args;
                to_le 8 (ca_max_input_amount_raw args);
                to_le 8 (ca_expires_at_slot args); to_le 8 (slot clock)].

(** The re-derivation of the address from the record's own fields. *)
Definition check_record_pda (record : AuthorizationRecord) (authz_pda_account : AccountInfo) :
    M unit :=
  throw_ifM (bool_decide ((find_program_address rt
      (authorization_seeds (schema_version record) (user record) (rule_id record))
      program_id).1 ≠ key authz_pda_account)) InvalidPda.

Definition process_revoke (accounts : list AccountInfo) : M unit :=
  '(user_account, it) ← next_account_info accounts;
  '(authz_pda_account, _) ← next_account_info it;
  _ ← throw_ifM (negb (is_signer user_account)) UserMustSign;
  authz ← get_account (key authz_pda_account);
  _ ← throw_ifM (bool_decide (owner authz ≠ program_id)) IncorrectProgramId;
  record ← load_record (key authz_pda_account);
  _ ← throw_ifM (bool_decide (user record ≠ key user_account)) RevokeWrongUser;
  _ ← check_record_pda record authz_pda_account;
  if revoked record then mret tt
  else
    _ ← serialize_into (key authz_pda_account) (to_vec (set_revoked true record));
    clock ← clock_get;
    sol_log_data [bytes "authz_revoked_v1"; rule_id record; user record;
                  to_le 8 (slot clock)].

Definition process_close_authorization (accounts : list AccountInfo) : M unit :=
  '(user_account, it) ← next_account_info accounts;
  '(authz_pda_account, _) ← next_account_info it;
  _ ← throw_ifM (negb (is_signer user_account)) UserMustSign;
  authz ← get_account (key authz_pda_account);
  _ ← throw_ifM (bool_decide (owner authz ≠ program_id)) IncorrectProgramId;
  record ← load_record (key authz_pda_account);
  _ ← throw_ifM (bool_decide (user record ≠ key user_account)) CloseWrongUser;
  clock ← clock_get;
  _ ← throw_ifM (negb (revoked record) && negb (completed record) &&
                 negb (expires_at_slot record <=? slot clock)) NotCloseable;
  _ ← check_record_pda record authz_pda_account;
  usr ← get_account (key user_account);
  new_user_lamports ← lift (ok_or (checked_u 64 (lamports usr + lamports authz))
                              ArithmeticOverflow);
  _ ← set_lamports (key user_account) new_user_lamports;
  _ ← set_lamports (key authz_pda_account) 0;
  _ ← assign (key authz_pda_account) system_program_id;
  _ ← realloc_to_zero (key authz_pda_account);
  sol_log_data [bytes "authz_closed_v1"; rule_id record; user record;
                to_le 8 (slot clock)].

(** The length-gated Solend CPI block. *)
Definition solend_cpi_block (accounts : list AccountInfo) (record : AuthorizationRecord)
    (delegated_wallet_account : AccountInfo)
    (solend_boundary_proof : option SolendBoundaryProof) : M unit := λ w,
  if (allowed_action_type record =? to_u8 SolendWithdrawAllDelegated) &&
     (P5B2_MIN_ACCOUNTS <=? length accounts)%nat
  then
    (withdraw_accounts ← lift (parse_withdraw_accounts
                                 (take WITHDRAW_BASE_ACCOUNTS_LEN (drop 4 accounts)));
     match drop (4 + WITHDRAW_BASE_ACCOUNTS_LEN) accounts with
     | solend_program :: pyth_oracle :: switchboard_oracle :: clock_sysvar ::
       deposit_reserves =>
         solend_proof ← lift (ok_or solend_boundary_proof
                                (authority_into SolendBoundaryProofMissing));
         liquidity_mint ← lift (peek_liquidity_mint (w_bank w)
                                  (wa_destination withdraw_accounts));
         try_solend_cpi_skeleton rt record delegated_wallet_account
           (MkSubstrate solend_program pyth_oracle switchboard_oracle clock_sysvar None)
           withdraw_accounts deposit_reserves
           (cpi_expectations solend_proof
              (key (wa_reserve_collateral_mint withdraw_accounts)) liquidity_mint)
     | _ => raise NotEnoughAccountKeys (* an index panic; excluded by the length gate *)
     end) w
  else Ok (tt, w).

Definition process_execute_action (accounts : list AccountInfo) (args : ExecuteArgs) :
    M unit :=
  '(executor_account, it) ← next_account_info accounts;
  '(authz_pda_account, it) ← next_account_info it;
  '(user_account, it) ← next_account_info it;
  '(delegated_wallet_account, _) ← next_account_info it;
  _ ← throw_ifM (negb (is_signer executor_account)) MissingExecutorSignature;
  authz ← get_account (key authz_pda_account);
  _ ← throw_ifM (bool_decide (owner authz ≠ program_id)) AuthorizationOwnerMismatch;
  _ ← throw_ifM (bool_decide ((find_program_address rt
          (authorization_seeds (xa_schema_version args) (key user_account)
             (xa_rule_id args)) program_id).1 ≠ key authz_pda_account))
        InvalidAuthorizationPda;
  record ← load_record (key authz_pda_account);
  _ ← lift (check_record record args (key user_account) (key executor_account));
  clock ← clock_get;
  _ ← lift (check_lifecycle record clock);
  new_used ← lift (check_cap record args clock);
  _ ← lift (condition_gate clock (xa_condition_proof args));
  _ ← lift (solend_boundary_gate record (xa_solend_boundary_proof args));
  _ ← lift (jupiter_boundary_gate record (xa_jupiter_boundary_proof args));
  _ ← solend_cpi_block accounts record delegated_wallet_account
        (xa_solend_boundary_proof args);
  let record' := set_executed new_used (xa_execution_nonce args) (slot clock) record in
  _ ← serialize_into (key authz_pda_account) (to_vec record');
  sol_log_data [bytes "authz_executed_v1"; xa_rule_id args; user record; executor record;
                [byte_of (allowed_action_type record)]; to_le 8 (xa_input_amount_raw args);
                to_le 8 new_used; to_le 8 (xa_execution_nonce args); to_le 8 (slot clock)].

Definition process_instruction (accounts : list AccountInfo) (instruction_data : list byte) :
    M unit :=
  instruction ← lift (ok_or (try_from_slice instruction_data) InvalidInstructionData);
  match instruction with
  | CreateAuthorization args => process_create_authorization accounts args
  | Revoke => process_revoke accounts
  | CloseAuthorization => process_close_authorization accounts
  | ExecuteAction args => process_execute_action accounts args
  | PreJupiterBracketCheck proof =>
      process_pre_jupiter_bracket_check rt program_id accounts proof
  | PostJupiterBracketCheck proof =>
      process_post_jupiter_bracket_check rt program_id accounts proof
  end.
End processors.
