(* ===== verification/Lifecycle.v ===== *)
(** * What the authority processors do ([clawsol-authority/src/lib.rs])

    For each processor, the exact condition under which it succeeds and the
    exact state it leaves. *)
From S2P Require Import Prelude Borsh Solana WideMath ConditionVerifier Records.
From S2P Require Import AccountDecode SolendBoundary JupiterBoundary JupiterBracket.
From S2P Require Import Instruction SolendCpi Errors Authority.

Section create.
Context (rt : Runtime) (program_id : Pubkey) `{!RuntimeLaws rt program_id}.

Notation pda_of v u i := (find_program_address rt (authorization_seeds v u i) program_id).

(** The record a create writes. *)
Definition initial_record (args : CreateArgs) (usr : Pubkey) : AuthorizationRecord :=
  MkRecord (ca_schema_version args) (ca_rule_id args) usr (ca_executor args)
    (ca_delegated_wallet args) (ca_canonical_rule_hash args)
    (ca_allowed_action_type args) (ca_max_input_amount_raw args) 0
    (ca_destination args) (ca_expires_at_slot args) false false 0 0
    (pda_of (ca_schema_version args) usr (ca_rule_id args)).2.

Definition created_event (args : CreateArgs) (usr : Pubkey) (now : Z) : list (list byte) :=
  [bytes "authz_created_v1"; ca_rule_id args; usr; ca_executor args;
   ca_delegated_wallet args; [byte_of (ca_allowed_action_type args)];
   ca_canonical_rule_hash args; to_le 8 (ca_max_input_amount_raw args);
   to_le 8 (ca_expires_at_slot args); to_le 8 now].

(** What a successful create saw. *)
Record create_facts (w : World) (args : CreateArgs) (us au sy : AccountInfo) : Prop := {
  cf_schema : ca_schema_version args = 1;
  cf_action : is_Some (from_u8 (ca_allowed_action_type args));
  cf_max : ca_max_input_amount_raw args ≠ 0;
  cf_signer : is_signer us = true;
  cf_system : key sy = system_program_id;
  cf_expiry : slot (w_clock w) < ca_expires_at_slot args;
  cf_pda : (pda_of 1 (key us) (ca_rule_id args)).1 = key au;
  cf_unused : unused (acct (w_bank w) (key au));
  cf_payer : key us ≠ key au;
  cf_rent : minimum_balance rt 221 ≤ lamports (acct (w_bank w) (key us))
}.

Definition create_result (w : World) (args : CreateArgs) (us au : AccountInfo) : World :=
  push_log (created_event args (key us) (slot (w_clock w)))
    (with_bank (installed (w_bank w) (key us) (key au) (minimum_balance rt 221) program_id
                  (to_vec (initial_record args (key us)))) w).

Lemma initial_record_typed args usr :
  well_typed args → length usr = 32%nat → well_typed (initial_record args usr).
Proof using All.
  intros (?&?&?&?&?&?&?&?&?) ?. apply well_typed_record.
  assert (is_u 8 (pda_of (ca_schema_version args) usr (ca_rule_id args)).2) by
    apply find_pda_typed.
  by constructor.
Qed.

Lemma create_inv accounts args w w' :
  process_create_authorization rt program_id accounts args w = Ok (tt, w') →
  accounts_typed accounts → well_typed args →
  ∃ us au sy rest, accounts = us :: au :: sy :: rest ∧
    create_facts w args us au sy ∧ w' = create_result w args us au.
Proof using All.
  unfold process_create_authorization. intros H Hacc Hargs. inv_run H.
  rename select (invoke_signed _ _ _ _ _ = _) into Hinv.
  apply invoke_signed_Ok in Hinv as (b & Hinv & ->).
  apply create_own_sound in Hinv as (Hun & Hne & Hrent & ->); [|done..].
  rename select (serialize_into _ _ _ = _) into Hser.
  repeat (apply Forall_cons in Hacc as [? Hacc]).
  b2p. unfold STAGE2_AUTHORITY_SCHEMA_VERSION in *.
  eexists _, _, _, _. split; [done|].
  rename select (find_program_address _ _ _ = _) into Hpda.
  rename select (ca_schema_version args = 1) into Hv.
  split.
  - constructor; try done; [|by rewrite <- Hv, Hpda].
    by apply not_eq_None_Some.
  - unfold create_result.
    assert (well_typed (initial_record args (key a))) as Ht by
      (by apply initial_record_typed).
    unfold initial_record in *. rewrite Hpda in *. simpl in *.
    rewrite serialize_into_created in Hser by (by apply length_record).
    by injection Hser as <- <-.
Qed.

(** With a paying, writable signer the create goes through. *)
Lemma create_complete args w us au sy rest :
  create_facts w args us au sy → accounts_typed (us :: au :: sy :: rest) →
  well_typed args → is_writable us = true → is_writable au = true →
  owner (acct (w_bank w) (key us)) = system_program_id →
  data (acct (w_bank w) (key us)) = [] →
  process_create_authorization rt program_id (us :: au :: sy :: rest) args w =
  Ok (tt, create_result w args us au).
Proof using All.
  intros [] Hacc Hargs Hwu Hwa Hou Hdu. unfold process_create_authorization.
  unfold STAGE2_AUTHORITY_SCHEMA_VERSION. rewrite cf_schema0.
  rewrite guard_step by done.
  rewrite guard_step by (apply bool_decide_eq_false; by apply not_eq_None_Some).
  rewrite guard_step by (b2p; done). rewrite !next_step.
  rewrite guard_step by (by rewrite cf_signer0).
  rewrite guard_step by (by apply neq_guard). rewrite clock_step.
  rewrite guard_step by (b2p; lia). cbv zeta.
  assert (well_typed (initial_record args (key us))) as Ht.
  { apply initial_record_typed; [done|]. by apply Forall_cons in Hacc as [? _]. }
  unfold create_result, initial_record in *. rewrite cf_schema0 in *.
  destruct (pda_of _ _ _) as [pda bmp] eqn:Hpda. simpl in cf_pda0, Ht. subst pda.
  rewrite guard_step by (by apply neq_guard).
  rewrite (bindM_step _ _ _ tt (with_bank (created (w_bank w) (key us) (key au)
    (minimum_balance rt 221) 221 program_id) w)).
  2: { apply invoke_signed_Ok. eexists. split; [|done].
       apply create_account_complete; try done; [by apply minimum_balance_typed|
         apply self_typed]. }
  cbn [snd]. change 221 with (Z.of_nat 221).
  erewrite bindM_step; [|by apply serialize_into_created, length_record].
  done.
Qed.
End create.

(** The re-derivation check of revoke and close. *)
Lemma check_record_pda_Ok rt program_id r au w u w' :
  check_record_pda rt program_id r au w = Ok (u, w') ↔
  (find_program_address rt (authorization_seeds (schema_version r) (user r) (rule_id r))
     program_id).1 = key au ∧ w' = w.
Proof. unfold check_record_pda. by rewrite throw_ifM_Ok, neq_guard. Qed.

Section revoke_close.
Context (rt : Runtime) (program_id : Pubkey).

(** Who may act on an authorization as its user, and on which account. *)
Record user_facts (w : World) (us au : AccountInfo) (r : AuthorizationRecord) : Prop := {
  uf_signer : is_signer us = true;
  uf_owner : owner (acct (w_bank w) (key au)) = program_id;
  uf_record : record_at (w_bank w) (key au) r;
  uf_user : user r = key us;
  uf_pda : (find_program_address rt
              (authorization_seeds (schema_version r) (user r) (rule_id r))
              program_id).1 = key au
}.

(** The bank with the record at [k] overwritten. *)
Definition put_record (b : Bank) (k : Pubkey) (r : AuthorizationRecord) : Bank :=
  <[k := MkAccount (lamports (acct b k)) (owner (acct b k)) (to_vec r)]> b.

Definition revoke_result (w : World) (au : AccountInfo) (r : AuthorizationRecord) : World :=
  if revoked r then w
  else push_log [bytes "authz_revoked_v1"; rule_id r; user r; to_le 8 (slot (w_clock w))]
         (with_bank (put_record (w_bank w) (key au) (set_revoked true r)) w).

Lemma set_revoked_typed x r : well_typed r → well_typed (set_revoked x r).
Proof. rewrite !well_typed_record. intros []. by constructor. Qed.

Lemma put_record_step k r r' w :
  record_at (w_bank w) k r → well_typed r' →
  serialize_into k (to_vec r') w = Ok (tt, with_bank (put_record (w_bank w) k r') w).
Proof.
  intros [Hd Ht] Ht'. apply serialize_same_length.
  by rewrite Hd, !length_record.
Qed.

Lemma revoke_iff accounts w w' :
  process_revoke rt program_id accounts w = Ok (tt, w') ↔
  ∃ us au rest r, accounts = us :: au :: rest ∧ user_facts w us au r ∧
    w' = revoke_result w au r.
Proof.
  unfold process_revoke, revoke_result. split.
  - intros H. inv_run1 H.
    rename select (load_record _ _ = _) into Hrec. apply load_record_Ok in Hrec as [Hrec ->].
    rename select (check_record_pda _ _ _ _ _ = _) into Hpda.
    apply check_record_pda_Ok in Hpda as [Hpda ->].
    simplify_eq. b2p. eexists _, _, _, _. split; [done|]. split; [by constructor|].
    match goal with H : (if revoked ?r then _ else _) _ = _ |- _ =>
      destruct (revoked r); rename H into Hend end.
    + by injection Hend as <-.
    + inv_run1 Hend. rename select (serialize_into _ _ _ = _) into Hser.
      rewrite (put_record_step _ _ _ _ Hrec (set_revoked_typed true _ (proj2 Hrec)))
        in Hser.
      by injection Hser as <- <-.
  - intros (us & au & rest & r & -> & [] & ->).
    rewrite !next_step. rewrite guard_step by (by rewrite uf_signer0).
    rewrite get_step, guard_step by (by apply neq_guard).
    rewrite (bindM_step _ _ _ r w) by (by apply load_record_Ok).
    rewrite guard_step by (by apply neq_guard).
    rewrite (bindM_step _ _ _ tt w) by (by apply check_record_pda_Ok).
    destruct (revoked r); [done|].
    by rewrite (bindM_step _ _ _ tt _ (put_record_step _ r _ _ uf_record0
      (set_revoked_typed true r (proj2 uf_record0)))).
Qed.

(** When an authorization may be closed. *)
Definition closeable (r : AuthorizationRecord) (now : Z) : Prop :=
  revoked r = true ∨ completed r = true ∨ expires_at_slot r ≤ now.

(** All lamports to the user; the account gone. *)
Definition closed_bank (b : Bank) (us au : AccountInfo) : Bank :=
  <[key au := empty_account]>
    (<[key us := MkAccount (lamports (acct b (key us)) + lamports (acct b (key au)))
                   (owner (acct b (key us))) (data (acct b (key us)))]> b).

Definition close_result (w : World) (us au : AccountInfo) (r : AuthorizationRecord) : World :=
  push_log [bytes "authz_closed_v1"; rule_id r; user r; to_le 8 (slot (w_clock w))]
    (with_bank (closed_bank (w_bank w) us au) w).

Lemma set_lamports_step {B} k l (f : unit → M B) w :
  (set_lamports k l ≫= f) w =
  f tt (with_bank (<[k := MkAccount l (owner (acct (w_bank w) k))
                            (data (acct (w_bank w) k))]> (w_bank w)) w).
Proof. done. Qed.

(** The four writes of the close idiom, composed. *)
Lemma close_writes {B} us au l (m : M B) w :
  (_ ← set_lamports us l; _ ← set_lamports au 0; _ ← assign au system_program_id;
   _ ← realloc_to_zero au; m) w =
  m (with_bank (<[au := empty_account]>
    (<[us := MkAccount l (owner (acct (w_bank w) us)) (data (acct (w_bank w) us))]>
       (w_bank w))) w).
Proof.
  rewrite !set_lamports_step. unfold assign, realloc_to_zero, mbind, M_bind, get_account,
    put_account, with_bank. simpl. rewrite !acct_insert. simpl. by rewrite !insert_insert_eq.
Qed.

Lemma closeable_guard r now :
  negb (revoked r) && negb (completed r) && negb (expires_at_slot r <=? now) = false ↔
  closeable r now.
Proof.
  unfold closeable. rewrite !andb_false_iff, !negb_false_iff, Z.leb_le. tauto.
Qed.

Lemma close_iff accounts w w' :
  process_close_authorization rt program_id accounts w = Ok (tt, w') ↔
  ∃ us au rest r, accounts = us :: au :: rest ∧ user_facts w us au r ∧
    closeable r (slot (w_clock w)) ∧
    is_u 64 (lamports (acct (w_bank w) (key us)) + lamports (acct (w_bank w) (key au))) ∧
    w' = close_result w us au r.
Proof.
  unfold process_close_authorization. split.
  - intros H. apply bindM_Ok in H as ([us it] & w1 & E1 & H).
    apply next_account_info_Ok in E1 as [-> ->].
    apply bindM_Ok in H as ([au it'] & w1 & E1 & H).
    apply next_account_info_Ok in E1 as [-> ->].
    apply bindM_Ok in H as ([] & w1 & [Hs ->]%throw_ifM_Ok & H).
    rewrite get_step in H.
    apply bindM_Ok in H as ([] & w1 & [Ho ->]%throw_ifM_Ok & H).
    apply bindM_Ok in H as (r & w1 & [Hrec ->]%load_record_Ok & H).
    apply bindM_Ok in H as ([] & w1 & [Hu ->]%throw_ifM_Ok & H).
    rewrite clock_step in H.
    apply bindM_Ok in H as ([] & w1 & [Hc ->]%throw_ifM_Ok & H).
    apply bindM_Ok in H as ([] & w1 & [Hpda ->]%check_record_pda_Ok & H).
    rewrite get_step in H.
    apply bindM_Ok in H as (l & w1 & [Hl ->]%liftM_Ok & H).
    apply ok_or_Ok, checked_u_Some in Hl as [-> Hl].
    rewrite (close_writes (key us) (key au)) in H. injection H as <-.
    apply closeable_guard in Hc. b2p. exists us, au, it', r.
    split_and!; [done|by constructor|done..].
  - intros (us & au & rest & r & -> & [] & Hc%closeable_guard & Hl & ->).
    rewrite !next_step. rewrite guard_step by (by rewrite uf_signer0).
    rewrite get_step, guard_step by (by apply neq_guard).
    rewrite (bindM_step _ _ _ r w) by (by apply load_record_Ok).
    rewrite guard_step by (by apply neq_guard). rewrite clock_step.
    rewrite guard_step by done.
    rewrite (bindM_step _ _ _ tt w) by (by apply check_record_pda_Ok).
    rewrite get_step. erewrite lift_step; [|by apply ok_or_Ok, checked_u_Some].
    by rewrite (close_writes (key us) (key au)).
Qed.
End revoke_close.

(** ** The condition gate *)

(** The verdict on one condition at a time. *)
Definition condition_true (clock : Clock) (p : ProofCondition) (b : bool) : Prop :=
  evaluate_proof_condition clock p = Ok b.

(** The conditions of a proof hold: between one and eight of them, every one
    evaluates, and all (or any) are true. *)
Definition conditions_hold (clock : Clock) (p : ConditionProofPayload) : Prop :=
  (1 ≤ length (conditions p) ≤ 8)%nat ∧
  ∃ results, Forall2 (condition_true clock) (conditions p) results ∧
    match condition_logic p with
    | All => Forall (eq true) results
    | Any => Exists (eq true) results
    end.

Lemma evaluate_proof_conditions_Ok clock l rs :
  evaluate_proof_conditions clock l = Ok rs ↔ Forall2 (condition_true clock) l rs.
Proof.
  revert rs. induction l as [|p l IH]; intros rs; cbn [evaluate_proof_conditions].
  - split; [by intros [= <-]; constructor|by intros ->%Forall2_nil_inv_l].
  - rewrite bind_Ok. setoid_rewrite bind_Ok. setoid_rewrite IH. split.
    + intros (b & Hb & rs' & Hrs & [= <-]). by constructor.
    + intros (b & rs' & Hb & Hrs & ->)%Forall2_cons_inv_l. eauto.
Qed.

Lemma evaluate_condition_logic_spec logic rs :
  evaluate_condition_logic logic rs = true ↔
  match logic with All => Forall (eq true) rs | Any => Exists (eq true) rs end.
Proof.
  destruct logic; simpl.
  - rewrite forallb_forall, Forall_forall. setoid_rewrite <- list_elem_of_In.
    unfold id. naive_solver.
  - rewrite existsb_exists, Exists_exists. setoid_rewrite <- list_elem_of_In.
    unfold id. naive_solver.
Qed.

Lemma condition_gate_Ok clock p : condition_gate clock p = Ok tt ↔ conditions_hold clock p.
Proof.
  unfold condition_gate, conditions_hold, MAX_PROOF_CONDITIONS. split.
  - intros H. inv_ok1 H. unit_vars.
    rename select (evaluate_proof_conditions _ _ = _) into He.
    apply evaluate_proof_conditions_Ok in He.
    rename select (negb _ = false) into Hl. apply negb_false_iff in Hl.
    apply evaluate_condition_logic_spec in Hl. b2p.
    rename select ((length _ =? 0)%nat = false) into H0. apply Nat.eqb_neq in H0.
    split; [lia|eauto].
  - intros [Hlen (rs & He%evaluate_proof_conditions_Ok & Hl%evaluate_condition_logic_spec)].
    rewrite throw_if_false by (apply Nat.eqb_neq; lia).
    rewrite throw_if_false by (b2p; lia). rewrite He. cbn [mbind result_bind].
    by rewrite Hl.
Qed.

(** ** The Solend CPI block *)
Section cpi_block.
Context (rt : Runtime).

(** The bank the block leaves: untouched unless the action is the Solend
    withdraw and at least twenty-one accounts were passed. *)
Definition cpi_effect (b : Bank) (accounts : list AccountInfo) (r : AuthorizationRecord)
    (dw : AccountInfo) (sbp : option SolendBoundaryProof) (b2 : Bank) : Prop :=
  if (allowed_action_type r =? 1) && (21 <=? length accounts)%nat then
    ∃ wa sp py sw ck dep proof mint d,
      parse_withdraw_accounts (take 12 (drop 4 accounts)) = Ok wa ∧
      drop 16 accounts = sp :: py :: sw :: ck :: dep ∧ sbp = Some proof ∧
      peek_liquidity_mint b (wa_destination wa) = Ok mint ∧
      let s := MkSubstrate sp py sw ck None in
      let e := cpi_expectations proof (key (wa_reserve_collateral_mint wa)) mint in
      solend_phase1 b r dw s wa e d ∧ runtime_tuple s e = MAINNET_BETA_DEMO_USDC_TUPLE ∧
      solend_phase2 rt b s wa dep d b2
  else b2 = b.

Lemma solend_cpi_block_Ok accounts r dw sbp w u w' :
  solend_cpi_block rt accounts r dw sbp w = Ok (u, w') ↔
  ∃ b2, cpi_effect (w_bank w) accounts r dw sbp b2 ∧ w' = with_bank b2 w.
Proof.
  unfold solend_cpi_block, cpi_effect. change (to_u8 SolendWithdrawAllDelegated) with 1.
  change P5B2_MIN_ACCOUNTS with 21%nat. change WITHDRAW_BASE_ACCOUNTS_LEN with 12%nat.
  destruct u. destruct (_ && _).
  - split.
    + intros H. apply bindM_Ok in H as (wa & w1 & [Hwa ->]%liftM_Ok & H).
      change (4 + 12)%nat with 16%nat in H.
      destruct (drop 16 accounts) as [|sp [|py [|sw [|ck dep]]]] eqn:Hd; try done.
      apply bindM_Ok in H as (proof & w1 & [Hp%ok_or_Ok ->]%liftM_Ok & H).
      apply bindM_Ok in H as (mint & w1 & [Hm ->]%liftM_Ok & H).
      apply try_solend_phases in H as (d & b3 & ? & ? & ? & ->).
      exists b3. split; [|done]. by exists wa, sp, py, sw, ck, dep, proof, mint, d.
    + intros (b2 & (wa & sp & py & sw & ck & dep & proof & mint & d & Hwa & Hd & -> & Hm &
        H1 & Ht & H2) & ->).
      erewrite lift_step by done. change (4 + 12)%nat with 16%nat. rewrite Hd.
      rewrite (lift_step _ proof) by done. rewrite (lift_step _ mint) by done.
      apply try_solend_phases. eauto 10.
  - split; [intros [= ->]; eexists; split; [done|by destruct w']|].
    intros (b2 & -> & ->). by destruct w.
Qed.

(** The block never touches an account of the program itself. *)
Lemma cpi_effect_frame self `{!RuntimeLaws rt self} b accounts r dw sbp b2 k :
  SOLEND_PROGRAM_ID_MAINNET ≠ self → cpi_effect b accounts r dw sbp b2 →
  owner (acct b k) = self →
  owner (acct b2 k) = self ∧ data (acct b2 k) = data (acct b k).
Proof.
  unfold cpi_effect. intros Hne H Hk. destruct (_ && _); [|by subst].
  destruct H as (wa & sp & py & sw & ck & dep & proof & mint & d & _ & _ & _ & _ & H1 & _ & H2).
  eapply solend_phase2_frame; [done| |done..]. by destruct H1.
Qed.

Lemma cpi_effect_derived self `{!RuntimeLaws rt self} b accounts r dw sbp b2 seeds :
  let k := (find_program_address rt seeds self).1 in
  SOLEND_PROGRAM_ID_MAINNET ≠ self → cpi_effect b accounts r dw sbp b2 →
  Forall (λ x, is_signer x = true → key x ≠ k) accounts →
  owner (acct b k) ≠ self → owner (acct b2 k) ≠ self.
Proof.
  intros k Hne H Hall Hk. unfold cpi_effect in H. destruct (_ && _); [|by subst].
  destruct H as (wa & sp & py & sw & ck & dep & proof & mint & d & Hwa & Hd & _ & _ & H1 & _ & H2).
  destruct H1. apply (solend_phase2_derived rt self _ _ _ _ _ _ seeds) in H2; try done.
  apply parse_withdraw_slots in Hwa. rewrite Hwa.
  apply (Forall_drop _ 16) in Hall as Htail. rewrite Hd, !Forall_cons in Htail.
  rewrite Forall_app, !Forall_cons. split; [|naive_solver].
  by apply Forall_take, Forall_take, Forall_drop.
Qed.
End cpi_block.

(** ** Execution *)
Section execute.
Context (rt : Runtime) (program_id : Pubkey) `{!RuntimeLaws rt program_id}.
Context (Hsolend : SOLEND_PROGRAM_ID_MAINNET ≠ program_id).

(** The gates of an execution, all of them. *)
Record execute_gates (w : World) (args : ExecuteArgs) (ex au us : AccountInfo)
    (r : AuthorizationRecord) : Prop := {
  eg_signer : is_signer ex = true;
  eg_owner : owner (acct (w_bank w) (key au)) = program_id;
  eg_pda : (find_program_address rt (authorization_seeds (schema_version r) (user r)
              (rule_id r)) program_id).1 = key au;
  eg_record : record_at (w_bank w) (key au) r;
  eg_schema : xa_schema_version args = schema_version r;
  eg_rule_id : xa_rule_id args = rule_id r;
  eg_user : user r = key us;
  eg_executor : executor r = key ex;
  eg_hash : xa_canonical_rule_hash args = canonical_rule_hash r;
  eg_action : xa_action_type args = allowed_action_type r;
  eg_expiry : slot (w_clock w) < expires_at_slot r;
  eg_revoked : revoked r = false;
  eg_completed : completed r = false;
  eg_amount : xa_input_amount_raw args ≠ 0;
  eg_cap : used_amount_raw r + xa_input_amount_raw args ≤ max_input_amount_raw r;
  eg_nonce : xa_execution_nonce args = execution_nonce r + 1;
  eg_slot : last_execution_slot r ≠ 0 → last_execution_slot r ≠ slot (w_clock w);
  eg_conditions : conditions_hold (w_clock w) (xa_condition_proof args);
  eg_solend : allowed_action_type r = 1 →
    ∃ p, xa_solend_boundary_proof args = Some p ∧ solend_boundary_ok r p;
  eg_jupiter : allowed_action_type r = 2 →
    ∃ p, xa_jupiter_boundary_proof args = Some p ∧ jupiter_boundary_ok r p
}.

(** The record after an execution. *)
Definition executed_record (args : ExecuteArgs) (now : Z) (r : AuthorizationRecord) :
    AuthorizationRecord :=
  set_executed (used_amount_raw r + xa_input_amount_raw args) (xa_execution_nonce args)
    now r.

Definition executed_event (args : ExecuteArgs) (now : Z) (r : AuthorizationRecord) :
    list (list byte) :=
  [bytes "authz_executed_v1"; xa_rule_id args; user r; executor r;
   [byte_of (allowed_action_type r)]; to_le 8 (xa_input_amount_raw args);
   to_le 8 (used_amount_raw r + xa_input_amount_raw args);
   to_le 8 (xa_execution_nonce args); to_le 8 now].

Definition execute_result (w : World) (b2 : Bank) (args : ExecuteArgs) (au : AccountInfo)
    (r : AuthorizationRecord) : World :=
  push_log (executed_event args (slot (w_clock w)) r)
    (with_bank (put_record b2 (key au) (executed_record args (slot (w_clock w)) r)) w).

Lemma check_record_Ok r args usr exec :
  check_record r args usr exec = Ok tt ↔
  schema_version r = xa_schema_version args ∧ rule_id r = xa_rule_id args ∧
  user r = usr ∧ executor r = exec ∧
  canonical_rule_hash r = xa_canonical_rule_hash args ∧
  allowed_action_type r = xa_action_type args.
Proof.
  unfold check_record. split.
  - intros H. inv_ok1 H. b2p. done.
  - intros (-> & -> & -> & -> & -> & ->).
    rewrite throw_if_false by (by rewrite Z.eqb_refl). do 4 rewrite throw_if_false by (by apply neq_guard).
    by rewrite Z.eqb_refl.
Qed.

Lemma check_lifecycle_Ok r c :
  check_lifecycle r c = Ok tt ↔
  slot c < expires_at_slot r ∧ revoked r = false ∧ completed r = false.
Proof.
  unfold check_lifecycle. split.
  - intros H. inv_ok1 H. b2p. done.
  - intros (? & -> & ->). by rewrite throw_if_false by (b2p; lia).
Qed.

Lemma check_cap_Ok r args c new_used :
  well_typed r → is_u 64 (xa_input_amount_raw args) → is_u 64 (xa_execution_nonce args) →
  check_cap r args c = Ok new_used ↔
  new_used = used_amount_raw r + xa_input_amount_raw args ∧
  xa_input_amount_raw args ≠ 0 ∧ new_used ≤ max_input_amount_raw r ∧
  xa_execution_nonce args = execution_nonce r + 1 ∧
  (last_execution_slot r ≠ 0 → last_execution_slot r ≠ slot c).
Proof.
  rewrite well_typed_record. intros [] Hi Hn. unfold check_cap. split.
  - intros H. inv_ok1 H.
    repeat match goal with H : checked_u _ _ = Some _ |- _ =>
      apply checked_u_Some in H as [-> ?] end.
    b2p. subst new_used. split_and!; try done; lia.
  - intros (-> & H0 & Hmax & Hnonce & Hslot).
    rewrite throw_if_false by (b2p; done).
    rewrite (checked_u_ok 64 (used_amount_raw r + _)) by (unfold is_u in *; lia).
    cbn [ok_or mbind result_bind]. rewrite throw_if_false by (b2p; lia).
    rewrite (checked_u_ok 64 (execution_nonce r + 1)) by (unfold is_u in *; lia).
    cbn [ok_or mbind result_bind]. rewrite Hnonce, Z.eqb_refl. cbn [negb].
    rewrite throw_if_false by done. rewrite throw_if_false; [done|].
    apply andb_false_iff. rewrite negb_false_iff, Z.eqb_eq, Z.eqb_neq.
    destruct (decide (last_execution_slot r = 0)) as [|Hne]; [by left|].
    right. specialize (Hslot Hne). lia.
Qed.

Lemma solend_gate_Ok r p :
  solend_boundary_gate r p = Ok tt ↔
  (allowed_action_type r = 1 → ∃ q, p = Some q ∧ solend_boundary_ok r q).
Proof using.
  unfold solend_boundary_gate. change (to_u8 SolendWithdrawAllDelegated) with 1.
  destruct (Z.eqb_spec (allowed_action_type r) 1) as [E|E]; [|naive_solver].
  rewrite bind_Ok. setoid_rewrite ok_or_Ok.
  setoid_rewrite verify_solend_delegated_boundary_Ok. naive_solver.
Qed.

Lemma jupiter_gate_Ok r p :
  jupiter_boundary_gate r p = Ok tt ↔
  (allowed_action_type r = 2 → ∃ q, p = Some q ∧ jupiter_boundary_ok r q).
Proof using.
  unfold jupiter_boundary_gate. change (to_u8 JupiterBuySolWithUsdc) with 2.
  destruct (Z.eqb_spec (allowed_action_type r) 2) as [E|E]; [|naive_solver].
  rewrite bind_Ok. setoid_rewrite ok_or_Ok.
  setoid_rewrite verify_jupiter_boundary_Ok. naive_solver.
Qed.

Lemma executed_record_typed args now r :
  well_typed r → is_u 64 now → is_u 64 (xa_execution_nonce args) →
  0 ≤ xa_input_amount_raw args →
  used_amount_raw r + xa_input_amount_raw args ≤ max_input_amount_raw r →
  well_typed (executed_record args now r).
Proof using.
  rewrite !well_typed_record. intros [] ????. constructor; try done.
  simpl. unfold is_u in *. lia.
Qed.

Lemma well_typed_execute_args args : well_typed args →
  is_u 64 (xa_input_amount_raw args) ∧ is_u 64 (xa_execution_nonce args).
Proof using. by intros (_&_&_&_&?&?&_). Qed.

(** The final write, on the bank the CPI block left. *)
Lemma execute_write w b2 args au us ex accounts dw r :
  well_typed args → is_u 64 (slot (w_clock w)) → execute_gates w args ex au us r →
  cpi_effect rt (w_bank w) accounts r dw (xa_solend_boundary_proof args) b2 →
  serialize_into (key au) (to_vec (executed_record args (slot (w_clock w)) r))
    (with_bank b2 w) =
  Ok (tt, with_bank (put_record b2 (key au) (executed_record args (slot (w_clock w)) r)) w).
Proof using All.
  intros Hargs Hslot [] Hcpi. destruct (well_typed_execute_args args Hargs) as [[? ?] ?].
  destruct (cpi_effect_frame rt program_id _ _ _ _ _ _ (key au) Hsolend Hcpi) as [_ Hd];
    [done|]. destruct eg_record0 as [Hdata Ht].
  apply (put_record_step _ r _ (with_bank b2 w)); [split; simpl; congruence|].
  by apply executed_record_typed.
Qed.

Lemma execute_sound accounts args w w' :
  well_typed args → is_u 64 (slot (w_clock w)) →
  process_execute_action rt program_id accounts args w = Ok (tt, w') →
  ∃ ex au us dw rest r b2, accounts = ex :: au :: us :: dw :: rest ∧
    execute_gates w args ex au us r ∧
    cpi_effect rt (w_bank w) accounts r dw (xa_solend_boundary_proof args) b2 ∧
    w' = execute_result w b2 args au r.
Proof using All.
  intros Hargs Hslot. destruct (well_typed_execute_args args Hargs) as [Hamt Hnce].
  unfold process_execute_action. intros H.
  apply bindM_Ok in H as ([ex it] & w1 & [-> ->]%next_account_info_Ok & H).
  apply bindM_Ok in H as ([au it1] & w1 & [-> ->]%next_account_info_Ok & H).
  apply bindM_Ok in H as ([us it2] & w1 & [-> ->]%next_account_info_Ok & H).
  apply bindM_Ok in H as ([dw it3] & w1 & [-> ->]%next_account_info_Ok & H).
  apply bindM_Ok in H as ([] & w1 & [Hs ->]%throw_ifM_Ok & H).
  rewrite get_step in H.
  apply bindM_Ok in H as ([] & w1 & [Ho ->]%throw_ifM_Ok & H).
  apply bindM_Ok in H as ([] & w1 & [Hpda ->]%throw_ifM_Ok & H).
  apply bindM_Ok in H as (r & w1 & [Hrec ->]%load_record_Ok & H).
  apply bindM_Ok in H as ([] & w1 & [Hcr%check_record_Ok ->]%liftM_Ok & H).
  rewrite clock_step in H.
  apply bindM_Ok in H as ([] & w1 & [Hlc%check_lifecycle_Ok ->]%liftM_Ok & H).
  apply bindM_Ok in H as (nu & w1 & [Hcap ->]%liftM_Ok & H).
  apply check_cap_Ok in Hcap as (-> & Hcap); [|by destruct Hrec|done..].
  apply bindM_Ok in H as ([] & w1 & [Hcd%condition_gate_Ok ->]%liftM_Ok & H).
  apply bindM_Ok in H as ([] & w1 & [Hsg ->]%liftM_Ok & H).
  apply bindM_Ok in H as ([] & w1 & [Hjg ->]%liftM_Ok & H).
  apply bindM_Ok in H as ([] & w1 & (b2 & Hcpi & ->)%solend_cpi_block_Ok & H).
  cbv zeta in H. b2p. destruct Hcr as (? & ? & ? & ? & ? & ?), Hlc as (? & ? & ?),
    Hcap as (? & ? & ? & ?).
  assert (execute_gates w args ex au us r) as Hg.
  { constructor; try done; [by congruence|by apply (proj1 (solend_gate_Ok _ _))
      |by apply (proj1 (jupiter_gate_Ok _ _))]. }
  exists ex, au, us, dw, it3, r, b2. split_and!; [done..|].
  rewrite (bindM_step _ _ _ tt _ (execute_write _ _ _ _ _ _ _ _ _ Hargs Hslot Hg Hcpi)) in H.
  by injection H as <-.
Qed.

Lemma execute_complete args w ex au us dw rest r b2 :
  well_typed args → is_u 64 (slot (w_clock w)) → execute_gates w args ex au us r →
  cpi_effect rt (w_bank w) (ex :: au :: us :: dw :: rest) r dw
    (xa_solend_boundary_proof args) b2 →
  process_execute_action rt program_id (ex :: au :: us :: dw :: rest) args w =
  Ok (tt, execute_result w b2 args au r).
Proof using All.
  intros Hargs Hslot Hg Hcpi. destruct (well_typed_execute_args args Hargs) as [Hamt Hnce].
  pose proof (execute_write _ _ _ _ _ _ _ _ _ Hargs Hslot Hg Hcpi) as Hwrite.
  destruct Hg. unfold process_execute_action.
  rewrite !next_step. rewrite guard_step by (by rewrite eg_signer0).
  rewrite get_step, guard_step by (by apply neq_guard).
  rewrite guard_step by (apply neq_guard; congruence).
  rewrite (bindM_step _ _ _ r w) by (by apply load_record_Ok).
  rewrite (lift_step _ tt) by (by apply check_record_Ok). rewrite clock_step.
  rewrite (lift_step _ tt) by (by apply check_lifecycle_Ok).
  rewrite (lift_step _ (used_amount_raw r + xa_input_amount_raw args)).
  2: { apply check_cap_Ok; [by destruct eg_record0|done..]. }
  rewrite (lift_step _ tt) by (by apply condition_gate_Ok).
  rewrite (lift_step _ tt) by (by apply solend_gate_Ok).
  rewrite (lift_step _ tt) by (by apply jupiter_gate_Ok).
  rewrite (bindM_step _ _ _ tt (with_bank b2 w)).
  2: { apply solend_cpi_block_Ok. eauto. }
  cbv zeta. by rewrite (bindM_step _ _ _ tt _ Hwrite).
Qed.
End execute.

(** ** Properties *)

(** The first violated requirement of a list, in order. *)
Fixpoint first_violation (l : list (bool * AuthorityError)) : option AuthorityError :=
  match l with
  | [] => None
  | (violated, e) :: l => if violated then Some e else first_violation l
  end.

(** The requirements of an execution on its record, in the order of the
    program, with unbounded arithmetic. *)
Definition record_requirements (r : AuthorizationRecord) (args : ExecuteArgs)
    (usr exec : Pubkey) (now : Z) : list (bool * AuthorityError) :=
  [(negb (schema_version r =? xa_schema_version args), UnsupportedSchemaVersion);
   (bool_decide (rule_id r ≠ xa_rule_id args), InvalidAuthorizationPda);
   (bool_decide (user r ≠ usr), AuthorizationUserMismatch);
   (bool_decide (executor r ≠ exec), ExecutorMismatch);
   (bool_decide (canonical_rule_hash r ≠ xa_canonical_rule_hash args), RuleHashMismatch);
   (negb (allowed_action_type r =? xa_action_type args), ActionTypeMismatch);
   (expires_at_slot r <=? now, AuthorizationExpired);
   (revoked r, AuthorizationRevoked);
   (completed r, AuthorizationCompleted);
   (xa_input_amount_raw args =? 0, InputAmountZero);
   (max_input_amount_raw r <? used_amount_raw r + xa_input_amount_raw args,
    InputAmountExceeded);
   (negb (xa_execution_nonce args =? execution_nonce r + 1), ExecutionNonceMismatch);
   (negb (last_execution_slot r =? 0) && (now =? last_execution_slot r), SameSlotReplay)].

(** Decide the next requirement. *)
Ltac next_guard :=
  match goal with |- _ = match (if ?b then _ else _) with _ => _ end =>
    destruct b; [reflexivity|]; cbn [throw_if mbind result_bind] end.

(** The checks of an execution on its record: the checked 64-bit additions never change
    the outcome that unbounded arithmetic has. *)
Lemma record_checks_in_order r args usr exec c :
  well_typed r → well_typed args →
  (_ ← check_record r args usr exec; _ ← check_lifecycle r c; check_cap r args c) =
  match first_violation (record_requirements r args usr exec (slot c)) with
  | Some e => Err (authority_into e)
  | None => Ok (used_amount_raw r + xa_input_amount_raw args)
  end.
Proof.
  rewrite well_typed_record. intros [] [Ha Hn]%well_typed_execute_args.
  unfold check_record, check_lifecycle, check_cap, record_requirements. cbn [first_violation].
  do 10 next_guard. unfold is_u in *.
  destruct (Z.ltb_spec (max_input_amount_raw r) (used_amount_raw r + xa_input_amount_raw args)).
  { destruct (checked_u 64 (used_amount_raw r + _)) eqn:E; [|done]. apply checked_u_Some in E as [-> _].
    cbn [ok_or mbind result_bind]. by rewrite (proj2 (Z.ltb_lt _ _)). }
  rewrite (checked_u_ok 64 (used_amount_raw r + _)) by (unfold is_u in *; lia).
  cbn [ok_or mbind result_bind].
  rewrite (throw_if_false (_ <? _)) by (b2p; lia). cbn [mbind result_bind].
  destruct (Z.eqb_spec (xa_execution_nonce args) (execution_nonce r + 1)) as [E|E]; cbn [negb].
  - rewrite checked_u_ok by (unfold is_u in *; lia). cbn [ok_or mbind result_bind].
    rewrite E, Z.eqb_refl. cbn [negb throw_if mbind result_bind]. by next_guard.
  - destruct (checked_u 64 (execution_nonce r + 1)) eqn:E'; [|done].
    apply checked_u_Some in E' as [-> _]. cbn [ok_or mbind result_bind].
    by rewrite (proj2 (Z.eqb_neq _ _) E).
Qed.

(** *** The whole handler, refusal by refusal *)
Fixpoint first_refusal (l : list (option ProgramError)) : option ProgramError :=
  match l with
  | [] => None
  | Some e :: _ => Some e
  | None :: l => first_refusal l
  end.
Definition refusal (violated : bool) (e : AuthorityError) : option ProgramError :=
  if violated then Some (authority_into e) else None.
Definition error_of {A} (r : Res A) : option ProgramError :=
  match r with Ok _ => None | Err e => Some e end.

(** Steps 1-3: who signs, whose account it is, and its address. *)
Definition account_refusals rt program_id (args : ExecuteArgs) (ex au us : AccountInfo) (w : World) :
    list (option ProgramError) :=
  [refusal (negb (is_signer ex)) MissingExecutorSignature;
   refusal (bool_decide (owner (acct (w_bank w) (key au)) ≠ program_id)) AuthorizationOwnerMismatch;
   refusal (bool_decide ((find_program_address rt (authorization_seeds (xa_schema_version args) (key us)
              (xa_rule_id args)) program_id).1 ≠ key au)) InvalidAuthorizationPda].
(** One to eight conditions, each decided without an error in their order, and enough
    of them true. *)
Definition condition_refusals (clock : Clock) (p : ConditionProofPayload) : list (option ProgramError) :=
  let outcomes := map (evaluate_proof_condition clock) (conditions p) in
  let holds r := match r with Ok b => b | Err _ => false end in
  ([refusal (length outcomes =? 0)%nat MissingConditionProof;
    refusal (8 <? length outcomes)%nat ConditionCountMismatch] ++
   map error_of outcomes ++
   [refusal (negb (match condition_logic p with
                   | All => forallb holds outcomes
                   | Any => existsb holds outcomes
                   end)) ConditionNotMet])%list.
(** The boundary of the record's action. *)
Definition boundary_refusals (r : AuthorizationRecord) (args : ExecuteArgs) : list (option ProgramError) :=
  [if allowed_action_type r =? 1 then
     match xa_solend_boundary_proof args with
     | Some p => error_of (verify_solend_delegated_boundary r p)
     | None => Some (authority_into SolendBoundaryProofMissing)
     end else None;
   if allowed_action_type r =? 2 then
     match xa_jupiter_boundary_proof args with
     | Some p => error_of (verify_jupiter_boundary_skeleton r p)
     | None => Some (authority_into JupiterBoundaryProofMissing)
     end else None].
Definition record_refusals (r : AuthorizationRecord) (args : ExecuteArgs) (ex us : AccountInfo)
    (clock : Clock) : list (option ProgramError) :=
  (map (λ x, refusal x.1 x.2) (record_requirements r args (key us) (key ex) (slot clock)) ++
   condition_refusals clock (xa_condition_proof args) ++ boundary_refusals r args)%list.

Lemma first_refusal_app l l' :
  first_refusal (l ++ l') = match first_refusal l with Some e => Some e | None => first_refusal l' end.
Proof. induction l as [|[e|] l IH]; [done..|exact IH]. Qed.
Lemma first_refusal_requirements l :
  first_refusal (map (λ x, refusal x.1 x.2) l) = authority_into <$> first_violation l.
Proof. induction l as [|[[] e] l IH]; [done..|exact IH]. Qed.

Lemma condition_gate_refusals clock p :
  condition_gate clock p =
  match first_refusal (condition_refusals clock p) with Some e => Err e | None => Ok tt end.
Proof.
  unfold condition_gate, condition_refusals, MAX_PROOF_CONDITIONS. rewrite !first_refusal_app, length_map.
  cbn [first_refusal]. destruct (_ =? 0)%nat; [done|]. cbn [refusal throw_if mbind result_bind].
  destruct (8 <? _)%nat; [done|]. cbn [refusal throw_if mbind result_bind].
  assert (match evaluate_proof_conditions clock (conditions p) with
          | Ok rs => first_refusal (map error_of (map (evaluate_proof_condition clock) (conditions p))) = None ∧
                     map (evaluate_proof_condition clock) (conditions p) = map Ok rs
          | Err e => first_refusal (map error_of (map (evaluate_proof_condition clock) (conditions p))) = Some e
          end) as H.
  { induction (conditions p) as [|c l IH]; [done|]. cbn [evaluate_proof_conditions map first_refusal].
    destruct (evaluate_proof_condition clock c) as [b|e]; [|done]. cbn [mbind result_bind error_of].
    destruct (evaluate_proof_conditions clock l) as [rs|e]; [|done]. destruct IH as [IH1 IH2].
    split; [exact IH1|cbn; by rewrite IH2]. }
  destruct (evaluate_proof_conditions clock (conditions p)) as [rs|e]; [|by rewrite H].
  destruct H as [-> ->]. cbn [mbind result_bind]. unfold evaluate_condition_logic, refusal, throw_if.
  assert (∀ f, (∀ b, f (Ok (E := ProgramError) b) = b) →
    forallb f (map Ok rs) = forallb id rs ∧ existsb f (map Ok rs) = existsb id rs) as Hf.
  { intros f Hf. split; (induction rs as [|b rs IH]; [done|cbn; by rewrite Hf, IH]). }
  destruct (condition_logic p); [rewrite (proj1 (Hf _ (λ _, eq_refl)))|rewrite (proj2 (Hf _ (λ _, eq_refl)))];
    by destruct (negb _).
Qed.

Lemma boundary_gates_refusals r args :
  (_ ← solend_boundary_gate r (xa_solend_boundary_proof args);
   jupiter_boundary_gate r (xa_jupiter_boundary_proof args)) =
  match first_refusal (boundary_refusals r args) with Some e => Err e | None => Ok tt end.
Proof.
  unfold solend_boundary_gate, jupiter_boundary_gate, boundary_refusals.
  change (to_u8 SolendWithdrawAllDelegated) with 1. change (to_u8 JupiterBuySolWithUsdc) with 2.
  assert (∀ o : option ProgramError, match first_refusal [o] with Some e => Err e | None => Ok tt end =
    match o with Some e => Err e | None => Ok tt end) as H1 by by intros [].
  assert (∀ r : Res unit, match error_of r with Some e => Err e | None => Ok tt end = r) as H2 by by intros [[]|].
  destruct (Z.eqb_spec (allowed_action_type r) 1) as [->|]; cbn [Z.eqb Pos.eqb].
  - destruct (xa_solend_boundary_proof args) as [p|]; [|done]. cbn [ok_or mbind result_bind].
    by destruct (verify_solend_delegated_boundary r p) as [[]|].
  - destruct (allowed_action_type r =? 2); [|done]. cbn [mbind result_bind first_refusal].
    destruct (xa_jupiter_boundary_proof args) as [p|]; [|done]. cbn [ok_or mbind result_bind].
    by destruct (verify_jupiter_boundary_skeleton r p) as [[]|].
Qed.

(** The gates between the record and the Solend block, as one result. *)
Definition gates (r : AuthorizationRecord) (args : ExecuteArgs) (ex us : AccountInfo) (clock : Clock) : Res Z :=
  _ ← check_record r args (key us) (key ex);
  _ ← check_lifecycle r clock;
  new_used ← check_cap r args clock;
  _ ← condition_gate clock (xa_condition_proof args);
  _ ← solend_boundary_gate r (xa_solend_boundary_proof args);
  _ ← jupiter_boundary_gate r (xa_jupiter_boundary_proof args);
  Ok new_used.

Lemma gates_refusals r args ex us clock : well_typed r → well_typed args →
  gates r args ex us clock =
  match first_refusal (record_refusals r args ex us clock) with
  | Some e => Err e
  | None => Ok (used_amount_raw r + xa_input_amount_raw args)
  end.
Proof.
  intros Hr Ha. pose proof (record_checks_in_order r args (key us) (key ex) clock Hr Ha) as Hrec.
  pose proof (boundary_gates_refusals r args) as Hb.
  unfold gates, record_refusals. rewrite !first_refusal_app, first_refusal_requirements.
  destruct (check_record r args _ _) as [[]|e]; cbn [mbind result_bind] in *;
    [|by destruct (first_violation _); [injection Hrec as ->|]].
  destruct (check_lifecycle r clock) as [[]|e]; cbn [mbind result_bind] in *;
    [|by destruct (first_violation _); [injection Hrec as ->|]].
  destruct (check_cap r args clock) as [n|e]; cbn [mbind result_bind] in *;
    [|by destruct (first_violation _); [injection Hrec as ->|]].
  destruct (first_violation _); [done|]. injection Hrec as ->. cbn [fmap option_fmap option_map].
  rewrite condition_gate_refusals. destruct (first_refusal (condition_refusals _ _)); [done|].
  cbn [mbind result_bind]. destruct (solend_boundary_gate _ _) as [[]|]; cbn [mbind result_bind] in *;
    [destruct (jupiter_boundary_gate _ _) as [[]|]; cbn [mbind result_bind]|];
    destruct (first_refusal _); by try injection Hb as ->.
Qed.

Section refusals.
Context rt program_id `{!RuntimeLaws rt program_id} (Hne : SOLEND_PROGRAM_ID_MAINNET ≠ program_id).

(** Past the accounts, the handler is its gates, the Solend block and the write. *)
Lemma execute_steps ex au us dw rest args w r :
  first_refusal (account_refusals rt program_id args ex au us w) = None →
  record_at (w_bank w) (key au) r →
  let accounts := ex :: au :: us :: dw :: rest in
  process_execute_action rt program_id accounts args w =
  match gates r args ex us (w_clock w) with
  | Err e => Err e
  | Ok new_used =>
      match solend_cpi_block rt accounts r dw (xa_solend_boundary_proof args) w with
      | Err e => Err e
      | Ok (_, w2) =>
          (_ ← serialize_into (key au) (to_vec (set_executed new_used (xa_execution_nonce args) (slot (w_clock w)) r));
           sol_log_data [bytes "authz_executed_v1"; xa_rule_id args; user r; executor r;
             [byte_of (allowed_action_type r)]; to_le 8 (xa_input_amount_raw args); to_le 8 new_used;
             to_le 8 (xa_execution_nonce args); to_le 8 (slot (w_clock w))]) w2
      end
  end.
Proof using.
  intros Hacc Hr accounts. unfold account_refusals, refusal in Hacc. cbn [first_refusal] in Hacc.
  unfold process_execute_action, accounts, gates. rewrite !next_step.
  destruct (negb (is_signer ex)) eqn:Hs; [done|]. rewrite guard_step by done. rewrite get_step.
  destruct (bool_decide (owner _ ≠ _)) eqn:Ho; [done|]. rewrite guard_step by done.
  destruct (bool_decide (_ ≠ key au)) eqn:Hpda; [done|]. rewrite guard_step by done.
  rewrite (bindM_step _ _ _ r w) by (by apply load_record_Ok).
  destruct (check_record _ _ _ _) as [[]|]; [|done]. rewrite (lift_step _ tt), clock_step by done.
  destruct (check_lifecycle _ _) as [[]|]; [|done]. rewrite (lift_step _ tt) by done.
  destruct (check_cap _ _ _) as [n|]; [|done]. rewrite (lift_step _ n) by done.
  destruct (condition_gate _ _) as [[]|]; [|done]. rewrite (lift_step _ tt) by done.
  destruct (solend_boundary_gate _ _) as [[]|]; [|done]. rewrite (lift_step _ tt) by done.
  destruct (jupiter_boundary_gate _ _) as [[]|]; [|done]. rewrite (lift_step _ tt) by done.
  cbn [mbind result_bind]. destruct (solend_cpi_block rt _ r dw _ w) as [[[] w2]|e] eqn:Hc;
    [etransitivity; [apply (bindM_step _ _ _ _ _ Hc)|done]|by apply bindM_err].
Qed.

Lemma gates_hold ex au us args w r n : well_typed args →
  first_refusal (account_refusals rt program_id args ex au us w) = None →
  record_at (w_bank w) (key au) r → gates r args ex us (w_clock w) = Ok n →
  execute_gates rt program_id w args ex au us r.
Proof using.
  intros Ha Hacc Hr Hg. unfold account_refusals, refusal in Hacc. cbn [first_refusal] in Hacc.
  destruct (negb (is_signer ex)) eqn:Hs; [done|]. apply negb_false_iff in Hs.
  destruct (bool_decide (owner _ ≠ _)) eqn:Ho; [done|]. rewrite neq_guard in Ho.
  destruct (bool_decide (_ ≠ key au)) eqn:Hpda; [done|]. rewrite neq_guard in Hpda.
  apply bind_Ok in Hg as ([] & (? & ? & ? & ? & ? & ?)%check_record_Ok & Hg).
  apply bind_Ok in Hg as ([] & (? & ? & ?)%check_lifecycle_Ok & Hg).
  apply bind_Ok in Hg as (n' & Hcap & Hg).
  destruct (well_typed_execute_args args Ha) as [Hi Hn].
  rewrite (check_cap_Ok _ _ _ _ (proj2 Hr) Hi Hn) in Hcap. destruct Hcap as (-> & ? & ? & ? & ?).
  apply bind_Ok in Hg as ([] & ?%condition_gate_Ok & Hg).
  apply bind_Ok in Hg as ([] & Hsg & Hg).
  apply bind_Ok in Hg as ([] & Hjg & _).
  rewrite solend_gate_Ok in Hsg. rewrite jupiter_gate_Ok in Hjg. constructor; try done; by congruence.
Qed.
End refusals.

(** C40: what an execution answers, refusal by refusal, for well-typed arguments and a
    Solend program other than this one.  With too few accounts it is refused;
    else by the first that fails of: the executor's signature, the owner and the
    address of the authorization; its record decodes; the requirements on the record,
    the clock, the amount and the nonce, with unbounded arithmetic; the conditions in
    the order of the proof; the boundary of the action; the Solend block.  Only when
    none does it succeed. *)
Theorem execution_refused_in_order rt program_id `{!RuntimeLaws rt program_id} accounts args w :
  SOLEND_PROGRAM_ID_MAINNET ≠ program_id → well_typed args → is_u 64 (slot (w_clock w)) →
  process_execute_action rt program_id accounts args w =
  match accounts with
  | ex :: au :: us :: dw :: _ =>
      match first_refusal (account_refusals rt program_id args ex au us w) with
      | Some e => Err e
      | None =>
          match try_from_slice (data (acct (w_bank w) (key au))) with
          | None => Err InvalidAccountData
          | Some r =>
              match first_refusal (record_refusals r args ex us (w_clock w)) with
              | Some e => Err e
              | None =>
                  match solend_cpi_block rt accounts r dw (xa_solend_boundary_proof args) w with
                  | Err e => Err e
                  | Ok (_, w2) => Ok (tt, execute_result w (w_bank w2) args au r)
                  end
              end
          end
      end
  | _ => Err NotEnoughAccountKeys
  end.
Proof.
  intros Hne Ha Hs. destruct accounts as [|ex [|au [|us [|dw rest]]]]; try done.
  destruct (first_refusal (account_refusals rt program_id args ex au us w)) as [e|] eqn:Hacc.
  { unfold account_refusals, refusal in Hacc. cbn [first_refusal] in Hacc.
    unfold process_execute_action. rewrite !next_step.
    destruct (negb (is_signer ex)); [injection Hacc as <-; by rewrite guard_fires|]. rewrite guard_step, get_step by done.
    destruct (bool_decide (owner _ ≠ _)); [injection Hacc as <-; by rewrite guard_fires|]. rewrite guard_step by done.
    destruct (bool_decide _); [injection Hacc as <-; by rewrite guard_fires|done]. }
  destruct (try_from_slice (data (acct (w_bank w) (key au)))) as [r|] eqn:Hdec.
  2: { unfold account_refusals, refusal in Hacc. cbn [first_refusal] in Hacc.
    unfold process_execute_action. rewrite !next_step.
    destruct (negb (is_signer ex)); [done|]. rewrite guard_step, get_step by done.
    destruct (bool_decide (owner _ ≠ _)); [done|]. rewrite guard_step by done.
    destruct (bool_decide _); [done|]. rewrite guard_step by done.
    apply bindM_err. unfold load_record. rewrite get_step. by rewrite Hdec. }
  apply try_from_slice_Some in Hdec as Hr. 
  rewrite (execute_steps rt program_id ex au us dw rest args w r) by done.
  pose proof (gates_refusals r args ex us (w_clock w) (proj2 Hr) Ha) as Hg.
  destruct (gates r args ex us (w_clock w)) as [n|e] eqn:Hok.
  2: { destruct (first_refusal (record_refusals r args ex us (w_clock w))) as [e'|]; [by injection Hg as ->|done]. }
  destruct (first_refusal (record_refusals r args ex us (w_clock w))); [done|]. injection Hg as ->.
  destruct (solend_cpi_block _ _ _ _ _ _) as [[[] w2]|e] eqn:Hc; [|done].
  apply solend_cpi_block_Ok in Hc as (b2 & Hc & ->).
  pose proof (gates_hold rt program_id ex au us args w r _ Ha Hacc Hr Hok) as Hgates.
  etransitivity; [apply (bindM_step _ _ _ tt); by eapply execute_write|done].
Qed.

(** A successful create, exactly what it saw and did: the user signed, the
    terms are admissible, the account is the unused address derived for user
    and rule id; the user pays the rent and the account holds the initial
    record, nothing spent, neither revoked nor completed. *)
Theorem create_authorization_sound rt program_id `{!RuntimeLaws rt program_id}
    accounts args w w' :
  accounts_typed accounts → well_typed args →
  process_create_authorization rt program_id accounts args w = Ok (tt, w') →
  ∃ us au sy rest, accounts = us :: au :: sy :: rest ∧
    create_facts rt program_id w args us au sy ∧
    w' = create_result rt program_id w args us au ∧
    record_at (w_bank w') (key au) (initial_record rt program_id args (key us)) ∧
    owner (acct (w_bank w') (key au)) = program_id.
Proof.
  intros Hacc Ha H.
  destruct (create_inv rt program_id accounts args w w') as
    (us & au & sy & rest & -> & Hf & ->); [done..|].
  exists us, au, sy, rest. unfold create_result, installed, record_at. simpl.
  rewrite acct_insert. split_and!; try done.
  apply (initial_record_typed rt program_id); [done|]. exact (Forall_inv Hacc).
Qed.

(** With those facts and a paying, writable signer, a create succeeds. *)
Theorem create_authorization_succeeds rt program_id `{!RuntimeLaws rt program_id}
    args w us au sy rest :
  create_facts rt program_id w args us au sy → accounts_typed (us :: au :: sy :: rest) →
  well_typed args → is_writable us = true → is_writable au = true →
  owner (acct (w_bank w) (key us)) = system_program_id →
  data (acct (w_bank w) (key us)) = [] →
  process_create_authorization rt program_id (us :: au :: sy :: rest) args w =
  Ok (tt, create_result rt program_id w args us au).
Proof. intros. by apply create_complete. Qed.

(** A revoke succeeds exactly for the record's own user, signing, on the
    record's own address; it sets the revoked flag and nothing else, and
    repeating it changes nothing. *)
Theorem revoke_functional rt program_id accounts w w' :
  process_revoke rt program_id accounts w = Ok (tt, w') ↔
  ∃ us au rest r, accounts = us :: au :: rest ∧ user_facts rt program_id w us au r ∧
    w' = if revoked r then w
         else push_log [bytes "authz_revoked_v1"; rule_id r; user r;
                        to_le 8 (slot (w_clock w))]
                (with_bank (put_record (w_bank w) (key au) (set_revoked true r)) w).
Proof. apply revoke_iff. Qed.

(** A close succeeds exactly for the record's own user, signing, on an
    authorization that is revoked, completed or expired; the account is gone
    and all its lamports are the user's. *)
Theorem close_functional rt program_id accounts w w' :
  process_close_authorization rt program_id accounts w = Ok (tt, w') ↔
  ∃ us au rest r, accounts = us :: au :: rest ∧ user_facts rt program_id w us au r ∧
    (revoked r = true ∨ completed r = true ∨ expires_at_slot r ≤ slot (w_clock w)) ∧
    is_u 64 (lamports (acct (w_bank w) (key us)) + lamports (acct (w_bank w) (key au))) ∧
    w' = close_result w us au r.
Proof. apply close_iff. Qed.

(** Closing conserves lamports: the user gains what the closed account
    held, which is then empty and system-owned, and no third account changes. *)
Theorem close_conserves_lamports rt program_id us au rest w w' :
  process_close_authorization rt program_id (us :: au :: rest) w = Ok (tt, w') →
  key us ≠ key au →
  lamports (acct (w_bank w') (key us)) =
    lamports (acct (w_bank w) (key us)) + lamports (acct (w_bank w) (key au)) ∧
  acct (w_bank w') (key au) = empty_account ∧
  ∀ k, k ≠ key us → k ≠ key au → acct (w_bank w') k = acct (w_bank w) k.
Proof.
  intros (us' & au' & rest' & r & [= <- <- <-] & _ & _ & _ & ->)%close_iff Hne.
  unfold close_result, closed_bank. simpl. split_and!.
  - rewrite acct_insert_ne by done. by rewrite acct_insert.
  - by rewrite acct_insert.
  - intros k Hu Ha. by rewrite !acct_insert_ne.
Qed.

(** C22: an execution succeeds exactly when every gate holds and the Solend
    block, where it applies, goes through; then the record is the one before
    with the amount added, the nonce advanced, the slot noted and the
    completed flag set, and nothing else of the program changed. *)
Theorem execute_functional rt program_id `{!RuntimeLaws rt program_id} accounts args w w' :
  SOLEND_PROGRAM_ID_MAINNET ≠ program_id → well_typed args → is_u 64 (slot (w_clock w)) →
  process_execute_action rt program_id accounts args w = Ok (tt, w') ↔
  ∃ ex au us dw rest r b2, accounts = ex :: au :: us :: dw :: rest ∧
    execute_gates rt program_id w args ex au us r ∧
    cpi_effect rt (w_bank w) accounts r dw (xa_solend_boundary_proof args) b2 ∧
    w' = execute_result w b2 args au r.
Proof.
  intros Hne Ha Hs. split; [by apply execute_sound|].
  intros (ex & au & us & dw & rest & r & b2 & -> & Hg & Hc & ->).
  by apply (execute_complete rt program_id Hne).
Qed.

(** The condition gate passes exactly when the proof carries one to eight
    conditions, every one of them evaluates without an error, and all of them
    (or, for [Any], at least one) come out true. *)
Theorem condition_gate_functional clock p :
  condition_gate clock p = Ok tt ↔
  (1 ≤ length (conditions p) ≤ 8)%nat ∧
  ∃ results, Forall2 (λ c b, evaluate_proof_condition clock c = Ok b) (conditions p) results ∧
    match condition_logic p with
    | All => Forall (eq true) results
    | Any => Exists (eq true) results
    end.
Proof. apply condition_gate_Ok. Qed.

(** The same arguments with another condition proof. *)
Definition with_conditions (p : ConditionProofPayload) (args : ExecuteArgs) : ExecuteArgs :=
  MkExecuteArgs (xa_schema_version args) (xa_rule_id args) (xa_canonical_rule_hash args)
    (xa_action_type args) (xa_input_amount_raw args) (xa_execution_nonce args) p
    (xa_solend_boundary_proof args) (xa_jupiter_boundary_proof args).

(** The rule hash does not bind the conditions.  If an execution succeeds,
    the same execution with any other condition proof that holds (thresholds
    of the executor's choice included) succeeds too, with the same effect. *)
Theorem conditions_not_bound_by_hash rt program_id `{!RuntimeLaws rt program_id}
    accounts args w w' p :
  SOLEND_PROGRAM_ID_MAINNET ≠ program_id → well_typed args → is_u 64 (slot (w_clock w)) →
  process_execute_action rt program_id accounts args w = Ok (tt, w') →
  well_typed p → condition_gate (w_clock w) p = Ok tt →
  process_execute_action rt program_id accounts (with_conditions p args) w = Ok (tt, w').
Proof.
  intros Hne Ha Hs H Hp Hc%condition_gate_Ok.
  destruct (execute_sound rt program_id Hne _ _ _ _ Ha Hs H)
    as (ex & au & us & dw & rest & r & b2 & -> & [] & Hcpi & ->).
  change (execute_result w b2 args au r) with
    (execute_result w b2 (with_conditions p args) au r).
  apply (execute_complete rt program_id Hne); [|done| |done].
  - by destruct Ha as (?&?&?&?&?&?&_&?&?); repeat (split; [done|]).
  - by constructor.
Qed.

(** A Solend execution ignores the Jupiter proof it carries. *)
Lemma jupiter_proof_ignored rt program_id `{!RuntimeLaws rt program_id}
    accounts args w w' q :
  SOLEND_PROGRAM_ID_MAINNET ≠ program_id → well_typed args → is_u 64 (slot (w_clock w)) →
  xa_action_type args = 1 →
  process_execute_action rt program_id accounts args w = Ok (tt, w') →
  let args' := MkExecuteArgs (xa_schema_version args) (xa_rule_id args)
    (xa_canonical_rule_hash args) (xa_action_type args) (xa_input_amount_raw args)
    (xa_execution_nonce args) (xa_condition_proof args) (xa_solend_boundary_proof args) q in
  well_typed args' → process_execute_action rt program_id accounts args' w = Ok (tt, w').
Proof.
  intros Hne Ha Hs H1 H args' Ha'.
  destruct (execute_sound rt program_id Hne _ _ _ _ Ha Hs H)
    as (ex & au & us & dw & rest & r & b2 & -> & [] & Hcpi & ->).
  change (execute_result w b2 args au r) with (execute_result w b2 args' au r).
  apply (execute_complete rt program_id Hne); [done..| |done].
  constructor; try done. intros H2. congruence.
Qed.
