(* ===== verification/Entrypoint.v ===== *)
(** * What an instruction does ([process_instruction] of [clawsol-authority/src/lib.rs])

    The abstract transition of each of the six instructions, and that the
    entrypoint implements it: a successful run is one of these transitions. *)
From S2P Require Import Prelude Borsh Solana WideMath ConditionVerifier Records.
From S2P Require Import AccountDecode SolendBoundary JupiterBoundary JupiterBracket.
From S2P Require Import Instruction SolendCpi Errors Authority Lifecycle.

(** The dispatch on the decoded instruction. *)
Lemma process_instruction_decoded rt program_id accounts bs w i :
  try_from_slice bs = Some i →
  process_instruction rt program_id accounts bs w =
  match i with
  | CreateAuthorization args => process_create_authorization rt program_id accounts args
  | Revoke => process_revoke rt program_id accounts
  | CloseAuthorization => process_close_authorization rt program_id accounts
  | ExecuteAction args => process_execute_action rt program_id accounts args
  | PreJupiterBracketCheck proof =>
      process_pre_jupiter_bracket_check rt program_id accounts proof
  | PostJupiterBracketCheck proof =>
      process_post_jupiter_bracket_check rt program_id accounts proof
  end w.
Proof. intros Hi. unfold process_instruction. by rewrite Hi. Qed.

Section effect.
Context (rt : Runtime) (program_id : Pubkey).

(** The transition an instruction stands for. *)
Definition instr_effect (i : AuthorityInstruction) (accounts : list AccountInfo)
    (w w' : World) : Prop :=
  match i with
  | CreateAuthorization args =>
      ∃ us au sy rest, accounts = us :: au :: sy :: rest ∧
        create_facts rt program_id w args us au sy ∧
        w' = create_result rt program_id w args us au
  | Revoke =>
      ∃ us au rest r, accounts = us :: au :: rest ∧ user_facts rt program_id w us au r ∧
        w' = revoke_result w au r
  | CloseAuthorization =>
      ∃ us au rest r, accounts = us :: au :: rest ∧ user_facts rt program_id w us au r ∧
        closeable r (slot (w_clock w)) ∧ w' = close_result w us au r
  | ExecuteAction args =>
      ∃ ex au us dw rest r b2, accounts = ex :: au :: us :: dw :: rest ∧
        execute_gates rt program_id w args ex au us r ∧
        cpi_effect rt (w_bank w) accounts r dw (xa_solend_boundary_proof args) b2 ∧
        w' = execute_result w b2 args au r
  | PreJupiterBracketCheck proof =>
      ∃ ex au de cp sy rest r tok, accounts = ex :: au :: de :: cp :: sy :: rest ∧
        pre_check_facts rt program_id (w_bank w) proof ex au de cp sy r tok ∧
        let c := opened_checkpoint rt program_id proof au de tok in
        well_typed c ∧
        w' = with_bank (installed (w_bank w) (key ex) (key cp) (minimum_balance rt 123)
                          program_id (to_vec c)) w
  | PostJupiterBracketCheck proof =>
      ∃ ex au de cp rest r c tok, accounts = ex :: au :: de :: cp :: rest ∧
        post_check_facts rt program_id (w_bank w) proof ex au de cp r c tok ∧
        w' = with_bank (consumed_bank (w_bank w) (key cp) c) w
  end.

Context `{!RuntimeLaws rt program_id} (Hsolend : SOLEND_PROGRAM_ID_MAINNET ≠ program_id).

Lemma process_instruction_effect accounts bs w w' :
  accounts_typed accounts → is_u 64 (slot (w_clock w)) →
  process_instruction rt program_id accounts bs w = Ok (tt, w') →
  ∃ i, try_from_slice bs = Some i ∧ well_typed i ∧ instr_effect i accounts w w'.
Proof using All.
  intros Hacc Hslot H. unfold process_instruction in H.
  apply bindM_Ok in H as (i & w1 & [Hi%ok_or_Ok ->]%liftM_Ok & H).
  destruct (proj1 (try_from_slice_Some _ _) Hi) as [_ Ht].
  exists i. split; [done|]. split; [done|]. destruct i; simpl.
  - by apply (create_inv rt program_id).
  - by apply revoke_iff.
  - apply close_iff in H as (us & au & rest & r & ? & ? & ? & _ & ?). by exists us, au, rest, r.
  - destruct (execute_sound rt program_id Hsolend accounts args w w') as
      (ex & au & us & dw & rest & r & b2 & H'); [done..|]. by exists ex, au, us, dw, rest, r, b2.
  - by apply (pre_check_inv rt program_id).
  - by apply post_check_inv.
Qed.
End effect.

(** No instruction moves the clock. *)
Lemma instr_effect_clock rt program_id i accounts w w' :
  instr_effect rt program_id i accounts w w' → w_clock w' = w_clock w.
Proof.
  destruct i; cbn [instr_effect].
  - by intros (us & au & sy & rest & _ & _ & ->).
  - intros (us & au & rest & r & _ & _ & ->). unfold revoke_result. by destruct (revoked r).
  - by intros (us & au & rest & r & _ & _ & _ & ->).
  - by intros (ex & au & us & dw & rest & r & b2 & _ & _ & _ & ->).
  - by intros (ex & au & de & cp & sy & rest & r & tok & _ & _ & _ & ->).
  - by intros (ex & au & de & cp & rest & r & c & tok & _ & _ & ->).
Qed.

(** ** Properties *)

(** C23: the entrypoint refines the abstract instruction set: a successful run
    is the transition its decoded instruction stands for, and nothing else. *)
Theorem process_instruction_refines rt program_id `{!RuntimeLaws rt program_id}
    accounts bs w w' :
  SOLEND_PROGRAM_ID_MAINNET ≠ program_id → accounts_typed accounts →
  is_u 64 (slot (w_clock w)) →
  process_instruction rt program_id accounts bs w = Ok (tt, w') →
  ∃ i, bs = to_vec i ∧ well_typed i ∧ instr_effect rt program_id i accounts w w' ∧
    w_clock w' = w_clock w.
Proof.
  intros Hne Hacc Hslot H.
  destruct (process_instruction_effect rt program_id Hne _ _ _ _ Hacc Hslot H)
    as (i & Hi & Ht & Heff). exists i.
  destruct (proj1 (try_from_slice_Some _ _) Hi) as [-> _].
  split_and!; [done..|by eapply instr_effect_clock].
Qed.

(** Instruction data that is not the exact encoding of a well-typed
    instruction is refused as such, whatever the accounts. *)
Theorem malformed_data_rejected rt program_id accounts bs w :
  (∃ i : AuthorityInstruction, bs = to_vec i ∧ well_typed i) ∨
  process_instruction rt program_id accounts bs w = Err InvalidInstructionData.
Proof.
  unfold process_instruction. destruct (try_from_slice bs) as [i|] eqn:E; [|by right].
  left. exists i. by apply try_from_slice_Some.
Qed.
