(* ===== verification/Traces.v ===== *)
(** * Authorizations over time

    The program's instructions and the rest of the chain as a labelled step
    relation, and what holds along every sequence of steps: an authorization
    keeps the terms its user signed, is spent at most once and within its cap,
    and a revocation is final. *)
From S2P Require Import Prelude Borsh Solana WideMath ConditionVerifier Records.
From S2P Require Import AccountDecode SolendBoundary JupiterBoundary JupiterBracket.
From S2P Require Import Instruction SolendCpi Errors Authority Lifecycle Entrypoint.

Inductive event :=
(** a successful instruction to the program, with its accounts and data *)
| Instr (accounts : list AccountInfo) (instruction_data : list byte)
(** anything else that happens on the chain *)
| Env.

Section traces.
Context (rt : Runtime) (self : Pubkey) `{!RuntimeLaws rt self}.
Context (Hsolend : SOLEND_PROGRAM_ID_MAINNET ≠ self).

(** What the rest of the chain cannot do: change the data or the owner of the
    program's accounts, give the program an account at an address derived for
    it, turn the clock back. *)
Record env_step (w w' : World) : Prop := {
  env_own : ∀ k, owner (acct (w_bank w) k) = self →
    owner (acct (w_bank w') k) = self ∧ data (acct (w_bank w') k) = data (acct (w_bank w) k);
  env_derived : ∀ seeds, let k := (find_program_address rt seeds self).1 in
    owner (acct (w_bank w) k) ≠ self → owner (acct (w_bank w') k) ≠ self;
  env_clock : slot (w_clock w) ≤ slot (w_clock w')
}.

(** The addresses derived for the program sign for nobody else's account
    list: they have no key. *)
Definition no_derived_signer (accounts : list AccountInfo) : Prop :=
  ∀ seeds, Forall (λ a, is_signer a = true →
    key a ≠ (find_program_address rt seeds self).1) accounts.

Inductive step : World → event → World → Prop :=
| step_instr accounts instruction_data w w' :
    accounts_typed accounts → no_derived_signer accounts → is_u 64 (slot (w_clock w)) →
    process_instruction rt self accounts instruction_data w = Ok (tt, w') →
    step w (Instr accounts instruction_data) w'
| step_env w w' : env_step w w' → step w Env w'.

Inductive steps : World → list event → World → Prop :=
| steps_nil w : steps w [] w
| steps_cons w e w1 es w2 : step w e w1 → steps w1 es w2 → steps w (e :: es) w2.

(** The account an instruction names as its authorization: the second one of
    every instruction. *)
Definition authorization_of (accounts : list AccountInfo) : option Pubkey :=
  key <$> accounts !! 1%nat.

(** The event closes the authorization at [k]. *)
Definition closes (k : Pubkey) (e : event) : Prop :=
  ∃ accounts bs, e = Instr accounts bs ∧ authorization_of accounts = Some k ∧
    try_from_slice bs = Some CloseAuthorization.

(** The event is an execution of the authorization at [k]. *)
Definition executes (k : Pubkey) (e : event) : Prop :=
  ∃ accounts bs args, e = Instr accounts bs ∧ authorization_of accounts = Some k ∧
    try_from_slice bs = Some (ExecuteAction args).

(** A live authorization: a record in an account of the program. *)
Definition live (b : Bank) (k : Pubkey) (r : AuthorizationRecord) : Prop :=
  owner (acct b k) = self ∧ record_at b k r.

(** The user of the record is the first account and signed. *)
Definition user_signed (accounts : list AccountInfo) (r : AuthorizationRecord) : Prop :=
  ∃ us rest, accounts = us :: rest ∧ key us = user r ∧ is_signer us = true.

(** The terms the user signed. *)
Definition same_terms (r r' : AuthorizationRecord) : Prop :=
  schema_version r' = schema_version r ∧ rule_id r' = rule_id r ∧ user r' = user r ∧
  executor r' = executor r ∧ delegated_wallet r' = delegated_wallet r ∧
  canonical_rule_hash r' = canonical_rule_hash r ∧
  allowed_action_type r' = allowed_action_type r ∧
  max_input_amount_raw r' = max_input_amount_raw r ∧ destination r' = destination r ∧
  expires_at_slot r' = expires_at_slot r ∧ bump r' = bump r.

(** How a record may change while it lives. *)
Record evolves (r r' : AuthorizationRecord) : Prop := {
  ev_terms : same_terms r r';
  ev_revoked : revoked r = true → revoked r' = true ∧ completed r' = completed r ∧
    used_amount_raw r' = used_amount_raw r ∧ execution_nonce r' = execution_nonce r;
  ev_completed : completed r = true → completed r' = true ∧
    used_amount_raw r' = used_amount_raw r ∧ execution_nonce r' = execution_nonce r;
  ev_used : used_amount_raw r ≤ used_amount_raw r';
  ev_cap : used_amount_raw r ≤ max_input_amount_raw r →
    used_amount_raw r' ≤ max_input_amount_raw r'
}.

#[export] Instance evolves_preorder : PreOrder evolves.
Proof.
  split.
  - intros r. by constructor.
  - intros r1 r2 r3 [T1 R1 C1 U1 M1] [T2 R2 C2 U2 M2]. constructor.
    + unfold same_terms in *. naive_solver congruence.
    + naive_solver congruence.
    + naive_solver congruence.
    + lia.
    + auto.
Qed.

(** ** Frames *)
Definition kept (b b' : Bank) (k : Pubkey) : Prop :=
  owner (acct b k) = self →
  owner (acct b' k) = self ∧ data (acct b' k) = data (acct b k).

Lemma kept_insert_ne b j a k : j ≠ k → kept b (<[j := a]> b) k.
Proof. intros Hne Hk. by rewrite acct_insert_ne. Qed.

Lemma kept_lamports b j l k :
  kept b (<[j := MkAccount l (owner (acct b j)) (data (acct b j))]> b) k.
Proof.
  intros Hk. destruct (decide (j = k)) as [->|]; [by rewrite acct_insert|].
  by rewrite acct_insert_ne.
Qed.

Lemma kept_trans b1 b2 b3 k : kept b1 b2 k → kept b2 b3 k → kept b1 b3 k.
Proof. intros H1 H2 Hk. destruct (H1 Hk), (H2 (proj1 (H1 Hk))). naive_solver congruence. Qed.

Lemma kept_installed b from to l o bs k :
  unused (acct b to) → kept b (installed b from to l o bs) k.
Proof using All.
  intros (_ & Ho & _) Hk. apply (kept_trans _ _ _ _ (kept_lamports b from
    (lamports (acct b from) - l) k)); [|done].
  unfold installed. apply kept_insert_ne. intros ->.
  apply (self_not_system (self := self) (rt := rt)). congruence.
Qed.

Lemma kept_live b b' k r : kept b b' k → live b k r → live b' k r.
Proof.
  intros H [Ho [Hd Ht]]. destruct (H Ho). split; [done|]. split; [congruence|done].
Qed.

Lemma live_inj b k r1 r2 : live b k r1 → live b k r2 → r1 = r2.
Proof. intros [_ ?] [_ ?]. by eapply record_at_inj. Qed.

(** A record is not a checkpoint: the sizes differ. *)
Lemma record_not_checkpoint b k r c : record_at b k r → checkpoint_at b k c → False.
Proof.
  intros [H1 Hr%length_record] [H2 Hc%checkpoint_fixed_len].
  change (enc (borsh JupiterBracketCheckpoint) c) with (to_vec c) in Hc.
  rewrite <- H2, H1, Hr in Hc. done.
Qed.

Lemma put_record_live b k r r' : live b k r → well_typed r' → live (put_record b k r') k r'.
Proof.
  intros [Ho _] Ht. unfold live, record_at, put_record. by rewrite acct_insert.
Qed.

Lemma kept_put_record b j r k : j ≠ k → kept b (put_record b j r) k.
Proof. apply kept_insert_ne. Qed.

Lemma kept_closed b us au k : key au ≠ k → kept b (closed_bank b us au) k.
Proof.
  intros Hne. eapply kept_trans; [apply kept_lamports|by apply kept_insert_ne].
Qed.

(** What an instruction does to a live authorization. *)
Inductive touched (i : AuthorityInstruction) (accounts : list AccountInfo) (w w' : World)
    (k : Pubkey) (r : AuthorizationRecord) : Prop :=
| touch_close : i = CloseAuthorization → authorization_of accounts = Some k →
    closeable r (slot (w_clock w)) → user_signed accounts r →
    touched i accounts w w' k r
| touch_execute args ex au us : i = ExecuteAction args →
    authorization_of accounts = Some k → key au = k →
    execute_gates rt self w args ex au us r →
    live (w_bank w') k (executed_record args (slot (w_clock w)) r) →
    touched i accounts w w' k r
| touch_revoke : i = Revoke → authorization_of accounts = Some k →
    user_signed accounts r → live (w_bank w') k (set_revoked true r) →
    touched i accounts w w' k r
| touch_not : (∀ args, i = ExecuteAction args → authorization_of accounts ≠ Some k) →
    live (w_bank w') k r → touched i accounts w w' k r.

Lemma effect_touched i accounts w w' k r :
  well_typed i → is_u 64 (slot (w_clock w)) → instr_effect rt self i accounts w w' →
  live (w_bank w) k r → touched i accounts w w' k r.
Proof using All.
  intros Ht Hslot H Hlive. destruct i; cbn [instr_effect] in H.
  - destruct H as (us & au & sy & rest & -> & [] & ->). apply touch_not; [done|].
    eapply kept_live; [|done]. by apply kept_installed.
  - destruct H as (us & au & rest & r1 & -> & [] & ->). unfold revoke_result.
    destruct (decide (key au = k)) as [<-|Hne].
    + destruct (live_inj _ _ _ _ Hlive (conj uf_owner uf_record)).
      destruct (revoked r) eqn:Hrev; [by apply touch_not|].
      apply touch_revoke; [done|done| |].
      * by exists us, (au :: rest).
      * eapply put_record_live; [done|]. apply set_revoked_typed. by destruct uf_record.
    + apply touch_not; [done|]. destruct (revoked r1); [done|].
      eapply kept_live; [|done]. by apply kept_put_record.
  - destruct H as (us & au & rest & r1 & -> & [] & Hc & ->).
    destruct (decide (key au = k)) as [<-|Hne].
    + destruct (live_inj _ _ _ _ Hlive (conj uf_owner uf_record)).
      apply touch_close; [done..|]. by exists us, (au :: rest).
    + apply touch_not; [done|]. eapply kept_live; [|done]. by apply kept_closed.
  - destruct H as (ex & au & us & dw & rest & r1 & b2 & -> & Hg & Hcpi & ->).
    assert (kept (w_bank w) b2 k) as Hk by
      (intros Ho; by eapply (cpi_effect_frame rt self)).
    pose proof (kept_live _ _ _ _ Hk Hlive) as Hlive2.
    destruct (decide (key au = k)) as [<-|Hne].
    + assert (r1 = r) as ->.
      { eapply live_inj; [|done]. split; [by eapply eg_owner|by eapply eg_record]. }
      eapply touch_execute; [done..|]. eapply put_record_live; [done|].
      apply (well_typed_execute_args args) in Ht as [[??] ?]. destruct Hg.
      apply executed_record_typed; try done. by destruct eg_record.
    + apply touch_not; [intros args' _ [=]; done|].
      eapply kept_live; [|done]. by apply kept_put_record.
  - destruct H as (ex & au & de & cp & sy & rest & r1 & tok & -> & [] & Hc & ->).
    apply touch_not; [done|]. eapply kept_live; [|done]. by apply kept_installed.
  - destruct H as (ex & au & de & cp & rest & r1 & c & tok & -> & [] & ->).
    apply touch_not; [done|]. eapply kept_live; [|done]. apply kept_insert_ne.
    intros <-. destruct Hlive as [_ Hr]. by eapply record_not_checkpoint.
Qed.

(** ** One step *)
Lemma set_revoked_evolves r : evolves r (set_revoked true r).
Proof. by constructor. Qed.

Lemma execute_gates_evolves w args ex au us r :
  well_typed args → execute_gates rt self w args ex au us r →
  evolves r (executed_record args (slot (w_clock w)) r).
Proof.
  intros [[??] _]%well_typed_execute_args []. constructor; simpl.
  - done.
  - congruence.
  - congruence.
  - lia.
  - lia.
Qed.

(** A live authorization survives every step but its own closing, and
    evolves; an execution finds it open and leaves it completed. *)
Lemma step_live w e w' k r :
  step w e w' → live (w_bank w) k r → ¬ closes k e →
  ∃ r', live (w_bank w') k r' ∧ evolves r r' ∧
    (executes k e → revoked r = false ∧ completed r = false ∧ completed r' = true).
Proof using All.
  intros [accounts bs w0 w1 Hacc _ Hslot Hrun|w0 w1 Henv] Hlive Hnc.
  - apply process_instruction_effect in Hrun as (i & Hi & Ht & Heff); [|done..].
    eapply effect_touched in Heff as
      [-> Hk _ _ | args ex au us -> Hk _ Hg Hl | -> Hk _ Hl | Hno Hl]; [..|done|done|done].
    + destruct Hnc. by exists accounts, bs.
    + eexists. split; [done|]. split; [by eapply execute_gates_evolves|].
      destruct Hg. done.
    + eexists. split; [done|]. split; [apply set_revoked_evolves|].
      intros (? & ? & ? & [= <- <-] & _ & ?). congruence.
    + exists r. split; [done|]. split; [done|].
      intros (? & ? & args & [= <- <-] & ? & ?). destruct (Hno args); congruence.
  - destruct (env_own _ _ Henv k (proj1 Hlive)) as [Ho Hd].
    exists r. split; [|split; [done|by intros (? & ? & ? & [=] & _)]].
    eapply kept_live; [|done]. by intros _.
Qed.

(** ** Sequences of steps *)
Lemma steps_live w es w' k r :
  steps w es w' → live (w_bank w) k r → Forall (λ e, ¬ closes k e) es →
  ∃ r', live (w_bank w') k r' ∧ evolves r r'.
Proof using All.
  intros Hs. revert r. induction Hs as [w|w e w1 es w2 Hstep _ IH]; intros r Hl Hnc;
    [by exists r|].
  apply Forall_cons in Hnc as [Hnc Hncs].
  destruct (step_live _ _ _ _ _ Hstep Hl Hnc) as (r1 & Hl1 & Hev & _).
  destruct (IH r1 Hl1 Hncs) as (r2 & Hl2 & Hev2). exists r2. split; [done|by etrans].
Qed.

(** A spent or revoked authorization is never executed again. *)
Lemma steps_dead w es w' k r :
  steps w es w' → live (w_bank w) k r → revoked r = true ∨ completed r = true →
  Forall (λ e, ¬ closes k e) es → Forall (λ e, ¬ executes k e) es.
Proof using All.
  intros Hs. revert r. induction Hs as [w|w e w1 es w2 Hstep _ IH]; intros r Hl Hdead Hnc;
    [constructor|].
  apply Forall_cons in Hnc as [Hnc Hncs].
  destruct (step_live _ _ _ _ _ Hstep Hl Hnc) as (r1 & Hl1 & [] & Hex).
  constructor; [naive_solver congruence|]. apply (IH r1); [done| |done].
  naive_solver.
Qed.

(** What is left of a sequence from its [i]-th event on. *)
Lemma steps_split w es w' i e :
  steps w es w' → es !! i = Some e →
  ∃ w1 w2, steps w (take i es) w1 ∧ step w1 e w2 ∧ steps w2 (drop (S i) es) w'.
Proof using.
  intros Hs. revert i. induction Hs as [w|w e1 w1 es w2 Hstep Hs IH]; intros i Hi; [done|].
  destruct i as [|i]; simpl in *.
  - injection Hi as ->. exists w, w1. by repeat constructor.
  - destruct (IH i Hi) as (v1 & v2 & ? & ? & ?). exists v1, v2.
    split_and!; [by econstructor|done..].
Qed.

Lemma executes_once_lt w es w' k r i j e1 e2 :
  steps w es w' → live (w_bank w) k r → Forall (λ e, ¬ closes k e) es →
  es !! i = Some e1 → es !! j = Some e2 → executes k e1 → executes k e2 → ¬ (i < j)%nat.
Proof using All.
  intros Hs Hl Hnc Hi Hj H1 H2 Hlt.
  destruct (steps_split _ _ _ _ _ Hs Hi) as (v1 & v2 & Ha & Hb & Hc).
  assert (¬ closes k e1) as Hnc1 by by exact (Forall_lookup_1 _ _ _ _ Hnc Hi).
  destruct (steps_live _ _ _ _ _ Ha Hl) as (r1 & Hl1 & _); [by apply Forall_take|].
  destruct (step_live _ _ _ _ _ Hb Hl1 Hnc1) as (r2 & Hl2 & _ & Hex).
  destruct (Hex H1) as (_ & _ & Hdone).
  pose proof (steps_dead _ _ _ _ _ Hc Hl2 (or_intror Hdone) (Forall_drop _ _ _ Hnc)) as Hno.
  apply (Forall_lookup_1 _ _ (j - S i)%nat e2 Hno); [|done]. rewrite lookup_drop. rewrite <- Hj. f_equal. lia.
Qed.

(** ** Where authorizations come from *)

(** The addresses derived for the program. *)
Definition derived (k : Pubkey) : Prop := ∃ seeds, (find_program_address rt seeds self).1 = k.

(** Before its first instruction the program owns nothing at them. *)
Definition genesis (w : World) : Prop := ∀ k, derived k → owner (acct (w_bank w) k) ≠ self.

(** A world and the events that led to it, latest first. *)
Inductive history : list event → World → Prop :=
| history_nil w : genesis w → history [] w
| history_cons es w e w' : history es w → step w e w' → history (e :: es) w'.

(** The event is the creation of [r]'s authorization at [k]: signed by its
    user, with [r]'s terms. *)
Definition creates (k : Pubkey) (r : AuthorizationRecord) (e : event) : Prop :=
  ∃ us rest bs args, e = Instr (us :: rest) bs ∧ authorization_of (us :: rest) = Some k ∧
    try_from_slice bs = Some (CreateAuthorization args) ∧
    is_signer us = true ∧ key us = user r ∧
    same_terms (initial_record rt self args (user r)) r.

(** What holds of an authorization at any time. *)
Record sound_record (k : Pubkey) (r : AuthorizationRecord) : Prop := {
  sr_schema : schema_version r = 1;
  sr_action : is_Some (from_u8 (allowed_action_type r));
  sr_pda : (find_program_address rt (authorization_seeds 1 (user r) (rule_id r)) self) =
           (k, bump r);
  sr_max : max_input_amount_raw r ≠ 0;
  sr_used : used_amount_raw r ≤ max_input_amount_raw r;
  sr_fresh : completed r = false →
    used_amount_raw r = 0 ∧ execution_nonce r = 0 ∧ last_execution_slot r = 0;
  sr_done : completed r = true → 0 < used_amount_raw r ∧ execution_nonce r = 1
}.

Lemma same_terms_trans r1 r2 r3 : same_terms r1 r2 → same_terms r2 r3 → same_terms r1 r3.
Proof. unfold same_terms. naive_solver congruence. Qed.

Lemma creates_same_terms k r r' e : creates k r e → same_terms r r' → creates k r' e.
Proof.
  intros (us & rest & bs & args & -> & Hk & Hi & Hs & Hu & Ht) Hst.
  pose proof Hst as (_ & _ & Huser & _). exists us, rest, bs, args. rewrite Huser.
  split_and!; try done. by eapply same_terms_trans.
Qed.

Lemma create_sound_record w args us au sy :
  create_facts rt self w args us au sy →
  well_typed args → sound_record (key au) (initial_record rt self args (key us)).
Proof.
  intros [] (_ & _ & _ & _ & _ & _ & [? _] & _). constructor; simpl; try done.
  rewrite cf_schema. by apply injective_projections.
Qed.

Lemma live_ext b b' k r :
  owner (acct b' k) = owner (acct b k) → data (acct b' k) = data (acct b k) →
  live b' k r → live b k r.
Proof. unfold live, record_at. by intros -> ->. Qed.

Lemma live_insert_ne b j a k r : j ≠ k → live (<[j := a]> b) k r → live b k r.
Proof. intros Hne. by apply live_ext; rewrite acct_insert_ne. Qed.

Lemma live_lamports b j l k r :
  live (<[j := MkAccount l (owner (acct b j)) (data (acct b j))]> b) k r → live b k r.
Proof.
  destruct (decide (j = k)) as [->|]; [|by apply live_insert_ne].
  by apply live_ext; rewrite acct_insert.
Qed.

Lemma live_installed b from to l o bs k r :
  to ≠ k → live (installed b from to l o bs) k r → live b k r.
Proof. intros Hne H%live_insert_ne; [|done]. by apply live_lamports in H. Qed.

(** An instruction changes an account of the program that holds no record
    only at a fresh address. *)
Lemma effect_origin i accounts w w' k r' :
  accounts_typed accounts → no_derived_signer accounts → well_typed i →
  instr_effect rt self i accounts w w' → derived k → live (w_bank w') k r' →
  (∃ r, live (w_bank w) k r) ∨
  ∃ args us au sy rest, i = CreateAuthorization args ∧ accounts = us :: au :: sy :: rest ∧
    key au = k ∧ create_facts rt self w args us au sy ∧
    r' = initial_record rt self args (key us).
Proof using All.
  intros Hacc Hnd Ht H [seeds Hseeds] Hl'. destruct i; cbn [instr_effect] in H.
  - destruct H as (us & au & sy & rest & -> & Hf & ->).
    destruct (decide (key au = k)) as [Hk|Hne].
    + right. exists args, us, au, sy, rest. split_and!; try done.
      apply (record_at_inj _ k _ _ (proj2 Hl')). split.
      * unfold create_result, installed. simpl. by rewrite Hk, acct_insert.
      * apply (initial_record_typed rt self); [exact Ht|].
        by apply Forall_cons in Hacc as [? _].
    + left. exists r'. by apply live_installed in Hl'.
  - destruct H as (us & au & rest & r & -> & [] & ->). left.
    destruct (decide (key au = k)) as [<-|Hne]; [by exists r|]. exists r'.
    unfold revoke_result in Hl'. destruct (revoked r); [done|].
    by apply live_insert_ne in Hl'.
  - destruct H as (us & au & rest & r & -> & [] & _ & ->). left.
    destruct (decide (key au = k)) as [<-|Hne]; [by exists r|]. exists r'.
    apply live_insert_ne in Hl'; [|done]. by apply live_lamports in Hl'.
  - destruct H as (ex & au & us & dw & rest & r & b2 & -> & [] & Hcpi & ->). left.
    destruct (decide (key au = k)) as [<-|Hne]; [by exists r|]. exists r'.
    apply live_insert_ne in Hl'; [|done]. specialize (Hnd seeds). subst k.
    destruct (decide (owner (acct (w_bank w) (find_program_address rt seeds self).1) = self))
      as [Ho|Ho].
    + destruct (cpi_effect_frame rt self _ _ _ _ _ _ _ Hsolend Hcpi Ho).
      eapply live_ext; [..|done]; congruence.
    + destruct (cpi_effect_derived rt self _ _ _ _ _ _ seeds Hsolend Hcpi Hnd Ho).
      by destruct Hl'.
  - destruct H as (ex & au & de & cp & sy & rest & r & tok & -> & [] & Hc & ->). left.
    destruct (decide (key cp = k)) as [<-|Hne]; [|exists r'; by apply live_installed in Hl'].
    exfalso. eapply record_not_checkpoint; [by apply Hl'|]. split; [|done].
    unfold installed. simpl. by rewrite acct_insert.
  - destruct H as (ex & au & de & cp & rest & r & c & tok & -> & [] & ->). left.
    destruct (decide (key cp = k)) as [<-|Hne]; [|exists r'; by apply live_insert_ne in Hl'].
    exfalso. eapply record_not_checkpoint; [by apply Hl'|]. split.
    + unfold consumed_bank. simpl. by rewrite acct_insert.
    + apply set_consumed_typed. by destruct qf_checkpoint.
Qed.

Lemma sound_record_executed k w args ex au us r :
  well_typed args → well_typed r → execute_gates rt self w args ex au us r →
  sound_record k r → sound_record k (executed_record args (slot (w_clock w)) r).
Proof using.
  intros [[??] _]%well_typed_execute_args [] [] []. constructor; simpl; try done.
  intros _. destruct sr_fresh0 as (E1 & E2 & _); [done|]. lia.
Qed.

Lemma sound_record_revoked k r : sound_record k r → sound_record k (set_revoked true r).
Proof using. by intros []; constructor. Qed.

(** What a step leaves of a sound authorization is sound. *)
Lemma step_sound w e w' k r r' :
  step w e w' → live (w_bank w) k r → sound_record k r → live (w_bank w') k r' →
  sound_record k r' ∧ same_terms r r'.
Proof using All.
  intros [accounts bs w0 w1 Hacc _ Hslot Hrun|w0 w1 Henv] Hl Hs Hl'.
  - apply process_instruction_effect in Hrun as (i & Hi & Ht & Heff); [|done..].
    pose proof Heff as Htch.
    eapply effect_touched in Htch as
      [-> Hk _ _ | args ex au us -> Hk _ Hg Hl1 | -> Hk _ Hl1 | Hno Hl1]; [..|done|done|done].
    + destruct Heff as (us & au & rest & r1 & -> & _ & _ & ->). injection Hk as <-.
      destruct Hl' as [Ho _]. exfalso. apply (self_not_system (rt := rt) (self := self)).
      rewrite <- Ho. unfold close_result, closed_bank. simpl. by rewrite acct_insert.
    + rewrite (live_inj _ _ _ _ Hl' Hl1). split; [|done].
      eapply sound_record_executed; try done. by destruct Hl as [_ [_ ?]].
    + rewrite (live_inj _ _ _ _ Hl' Hl1). split; [by apply sound_record_revoked|done].
    + by rewrite (live_inj _ _ _ _ Hl' Hl1).
  - destruct (env_own _ _ Henv k (proj1 Hl)) as [Ho Hd].
    assert (live (w_bank w1) k r) as Hl1 by (eapply kept_live; [|done]; by intros _).
    by rewrite (live_inj _ _ _ _ Hl' Hl1).
Qed.

(** An authorization a step leaves was there before, or the step created it. *)
Lemma step_origin w e w' k r' :
  step w e w' → derived k → live (w_bank w') k r' →
  (∃ r, live (w_bank w) k r) ∨ sound_record k r' ∧ creates k r' e.
Proof using All.
  intros [accounts bs w0 w1 Hacc Hnd Hslot Hrun|w0 w1 Henv] Hk Hl.
  - apply process_instruction_effect in Hrun as (i & Hi & Ht & Heff); [|done..].
    apply (effect_origin i accounts w0 w1 k r') in Heff as
      [?|(args & us & au & sy & rest & -> & -> & <- & Hf & ->)]; [by left| |done..].
    right. split; [by eapply create_sound_record|].
    exists us, (au :: sy :: rest), bs, args. split_and!; try done. by destruct Hf.
  - left. exists r'. destruct Hk as [seeds <-].
    destruct (decide (owner (acct (w_bank w0) (find_program_address rt seeds self).1) = self))
      as [Ho|Ho].
    + destruct (env_own _ _ Henv _ Ho). eapply live_ext; [..|done]; congruence.
    + destruct (env_derived _ _ Henv seeds Ho). by destruct Hl.
Qed.

Lemma history_sound es w k r :
  history es w → derived k → live (w_bank w) k r →
  sound_record k r ∧ Exists (creates k r) es.
Proof using All.
  intros Hh Hk. revert r. induction Hh as [w Hgen|es w e w' _ IH Hstep]; intros r' Hl.
  - destruct (Hgen k Hk). by destruct Hl.
  - destruct (step_origin _ _ _ _ _ Hstep Hk Hl) as [[r Hl0]|[Hs Hc]]; [|by split; [|left]].
    destruct (IH r Hl0) as [Hs Hc].
    destruct (step_sound _ _ _ _ _ _ Hstep Hl0 Hs Hl) as [Hs' Ht]. split; [done|]. right.
    eapply Exists_impl; [done|]. intros e0 He0. by eapply creates_same_terms.
Qed.
End traces.

(** ** Properties *)

(** C1: nothing is executed that its user did not authorize.  In every history
    that starts before the program owned anything, a successful execution is of
    an authorization that an earlier instruction, signed by the user, created
    at that very account; it runs under that instruction's executor, rule id,
    rule hash and action, for a positive amount within its cap, before its
    expiry, with its conditions holding, and it is the first one. *)
Theorem executions_are_authorized rt self `{!RuntimeLaws rt self} es w accounts bs args w' :
  SOLEND_PROGRAM_ID_MAINNET ≠ self → history rt self es w →
  step rt self w (Instr accounts bs) w' → try_from_slice bs = Some (ExecuteAction args) →
  ∃ ex rest us crest cbs cargs,
    accounts = ex :: rest ∧ is_signer ex = true ∧ key ex = ca_executor cargs ∧
    Instr (us :: crest) cbs ∈ es ∧ is_signer us = true ∧
    try_from_slice cbs = Some (CreateAuthorization cargs) ∧
    authorization_of (us :: crest) = authorization_of accounts ∧
    xa_rule_id args = ca_rule_id cargs ∧
    xa_canonical_rule_hash args = ca_canonical_rule_hash cargs ∧
    xa_action_type args = ca_allowed_action_type cargs ∧
    0 < xa_input_amount_raw args ≤ ca_max_input_amount_raw cargs ∧
    slot (w_clock w) < ca_expires_at_slot cargs ∧
    conditions_hold (w_clock w) (xa_condition_proof args) ∧ xa_execution_nonce args = 1.
Proof.
  intros Hne Hh Hstep Hbs. inversion Hstep as [a b w0 w1 Hacc _ Hslot Hrun|]; subst.
  destruct (process_instruction_effect rt self Hne _ _ _ _ Hacc Hslot Hrun)
    as (i & Hi & Ht & Heff). rewrite Hbs in Hi. injection Hi as <-.
  destruct Heff as (ex & au & us & dw & rest & r & b2 & -> & [] & _ & _).
  assert (derived rt self (key au)) as Hk by (eexists; exact eg_pda).
  destruct (history_sound rt self Hne es w (key au) r Hh Hk (conj eg_owner eg_record))
    as [[] (e & He & us' & crest & cbs & cargs & -> & Hk' & Hc & Hs & Hu & Hterms)%Exists_exists].
  destruct Hterms as (_ & Erid & _ & Eex & _ & Eh & Ea & Em & _ & Ex & _). simpl in *.
  destruct (sr_fresh0 eg_completed) as (Eu & En & _).
  destruct (well_typed_execute_args args Ht) as [[Ha _] _].
  exists ex, (au :: us :: dw :: rest), us', crest, cbs, cargs.
  split_and!; try done; congruence || lia.
Qed.

(** C2: an authorization is executed at most once, in any interleaving of
    instructions and other activity between its creation and its closing. *)
Theorem executed_at_most_once rt self `{!RuntimeLaws rt self} w es w' k r i j e1 e2 :
  SOLEND_PROGRAM_ID_MAINNET ≠ self → steps rt self w es w' → live self (w_bank w) k r →
  Forall (λ e, ¬ closes k e) es → es !! i = Some e1 → es !! j = Some e2 →
  executes k e1 → executes k e2 → i = j.
Proof.
  intros Hne Hs Hl Hnc Hi Hj H1 H2.
  pose proof (executes_once_lt rt self Hne _ _ _ _ _ _ _ _ _ Hs Hl Hnc Hi Hj H1 H2).
  pose proof (executes_once_lt rt self Hne _ _ _ _ _ _ _ _ _ Hs Hl Hnc Hj Hi H2 H1). lia.
Qed.

(** C3: a revocation is final: while the account is not closed the
    authorization stays revoked and no execution of it succeeds. *)
Theorem revocation_is_final rt self `{!RuntimeLaws rt self} w es w' k r :
  SOLEND_PROGRAM_ID_MAINNET ≠ self → steps rt self w es w' → live self (w_bank w) k r →
  revoked r = true → Forall (λ e, ¬ closes k e) es →
  Forall (λ e, ¬ executes k e) es ∧
  ∃ r', live self (w_bank w') k r' ∧ revoked r' = true ∧
    used_amount_raw r' = used_amount_raw r.
Proof.
  intros Hne Hs Hl Hrev Hnc.
  split; [by apply (steps_dead rt self Hne _ _ _ _ r Hs Hl); [left|]|].
  destruct (steps_live rt self Hne _ _ _ _ _ Hs Hl Hnc) as (r' & Hl' & []). exists r'.
  naive_solver.
Qed.

(** C24: the terms a user signed never change, a revoked flag is never cleared,
    spending never decreases and never exceeds the cap, and a spent
    authorization's amount and nonce are frozen, whatever happens until it is
    closed. *)
Theorem authorization_evolves rt self `{!RuntimeLaws rt self} w es w' k r :
  SOLEND_PROGRAM_ID_MAINNET ≠ self → steps rt self w es w' → live self (w_bank w) k r →
  Forall (λ e, ¬ closes k e) es → ∃ r', live self (w_bank w') k r' ∧ evolves r r'.
Proof. intros Hne. apply (steps_live rt self Hne). Qed.

(** C25: every authorization stored at an address derived for the program is
    well formed, in every history: schema 1, a known action, stored at the
    address of its own user and rule id with its bump, a positive cap not
    exceeded, and spent exactly when completed, with nonce one. *)
Theorem reachable_records_sound rt self `{!RuntimeLaws rt self} es w k r :
  SOLEND_PROGRAM_ID_MAINNET ≠ self → history rt self es w → derived rt self k →
  live self (w_bank w) k r → sound_record rt self k r.
Proof. intros Hne Hh Hk Hl. by destruct (history_sound rt self Hne es w k r Hh Hk Hl). Qed.
