(* ===== verification/Scenario.v ===== *)
(** * A concrete authorization

    The instructions, accounts and worlds of one life of an authorization on
    the demo runtime: created, executed (or revoked), closed, and a Jupiter
    bracket around it.  The witnesses of the theorems evaluate on them, in
    the second part. *)
From S2P Require Import Prelude Borsh Solana DemoRuntime Errors WideMath ConditionVerifier.
From S2P Require Import Records AccountDecode SolendBoundary JupiterBoundary JupiterBracket.
From S2P Require Import Instruction SolendCpi Authority Lifecycle Entrypoint Traces.

Definition demo_rt : Runtime := demo_runtime demo_program.

Definition demo_user : Pubkey := replicate 32 Byte.x01.
Definition demo_executor : Pubkey := replicate 32 Byte.x02.
Definition demo_wallet : Pubkey := replicate 32 Byte.x03.
Definition demo_destination : Pubkey := replicate 32 Byte.x04.
Definition demo_obligation_key : Pubkey := replicate 32 Byte.x08.
Definition demo_reserve_key : Pubkey := replicate 32 Byte.x09.
Definition demo_market : Pubkey := replicate 32 Byte.x0a.
Definition demo_mint : Pubkey := replicate 32 Byte.x0b.
Definition demo_rule_id : list byte := replicate 16 Byte.x0c.
Definition demo_rule_hash : list byte := replicate 32 Byte.x0d.

(** The authorization's address, and the checkpoint's of its first nonce. *)
Definition demo_authz : Pubkey := Eval vm_compute in
  (derive_authorization_pda demo_rt demo_program 1 demo_user demo_rule_id).1.
Definition demo_checkpoint : Pubkey := Eval vm_compute in
  (derive_jupiter_bracket_checkpoint_pda demo_rt demo_program demo_authz 1 demo_destination).1.

Definition demo_create_args : CreateArgs :=
  MkCreateArgs 1 demo_rule_id demo_executor demo_wallet demo_rule_hash 1 1000000
    demo_destination 300000000.

(** The conditions of the condition verifier's own examples. *)
Definition demo_pyth_proof : ProofCondition := ProofPyth demo_pyth_condition demo_pyth_snapshot.
Definition demo_apr_proof : ProofCondition := ProofSolend demo_solend_condition demo_reserve.

Definition demo_solend_proof : SolendBoundaryProof :=
  MkSolendProof SOLEND_PROGRAM_ID_MAINNET demo_obligation_key
    (MkObligationFixture SOLEND_PROGRAM_ID_MAINNET demo_wallet demo_market)
    demo_reserve_key demo_market demo_destination
    [MkSibling SOLEND_PROGRAM_ID_MAINNET 3 (Some demo_reserve_key) None None None;
     MkSibling SOLEND_PROGRAM_ID_MAINNET 15 (Some demo_reserve_key) (Some demo_obligation_key)
       (Some demo_market) (Some demo_destination)].

Definition demo_execute_args : ExecuteArgs :=
  MkExecuteArgs 1 demo_rule_id demo_rule_hash 1 400000 1
    (MkPayload All [demo_pyth_proof; demo_apr_proof])
    (Some demo_solend_proof) None.

(** Accounts *)
Definition demo_signer (k : Pubkey) : AccountInfo := MkAccountInfo k true true.
Definition demo_writable (k : Pubkey) : AccountInfo := MkAccountInfo k false true.
Definition demo_readonly (k : Pubkey) : AccountInfo := MkAccountInfo k false false.

Definition demo_create_accounts : list AccountInfo :=
  [demo_signer demo_user; demo_writable demo_authz; demo_readonly system_program_id].
Definition demo_user_accounts : list AccountInfo :=
  [demo_signer demo_user; demo_writable demo_authz].
Definition demo_execute_accounts : list AccountInfo :=
  [demo_signer demo_executor; demo_writable demo_authz; demo_readonly demo_user;
   demo_readonly demo_wallet].

(** An SPL token account of 165 bytes. *)
Definition demo_token_account (amount : Z) : Account :=
  MkAccount 2039280 AccountDecode.SPL_TOKEN_PROGRAM_ID
    (demo_mint ++ demo_wallet ++ to_le 8 amount ++ replicate 36 Byte.x00 ++ [Byte.x01] ++
     replicate 56 Byte.x00).

Definition demo_clock (now : Z) : Clock := MkClock now 1700000030.

(** The world before anything happened. *)
Definition demo_world0 : World :=
  MkWorld (<[demo_user := MkAccount 1000000000 system_program_id []]>
          (<[demo_executor := MkAccount 1000000000 system_program_id []]>
          (<[demo_destination := demo_token_account 7000]> ∅)))
    (demo_clock 250000010) [].

(** ** Running it *)

(** The world a successful run leaves, or the one before. *)
Definition run_world (m : M unit) (w : World) : World :=
  match m w with Ok (_, w') => w' | Err _ => w end.
Definition run_succeeds (m : M unit) (w : World) : bool :=
  match m w with Ok _ => true | Err _ => false end.

Lemma run_world_spec (m : M unit) w :
  run_succeeds m w = true → m w = Ok (tt, run_world m w).
Proof. unfold run_succeeds, run_world. by destruct (m w) as [[[] w']|]. Qed.

Definition demo_run (accounts : list AccountInfo) (i : AuthorityInstruction) : World → World :=
  run_world (process_instruction demo_rt demo_program accounts (to_vec i)).

(** Created; then executed, or revoked; then closed. *)
Definition demo_world1 : World :=
  demo_run demo_create_accounts (CreateAuthorization demo_create_args) demo_world0.
Definition demo_world2 : World :=
  demo_run demo_execute_accounts (ExecuteAction demo_execute_args) demo_world1.
Definition demo_world2_revoked : World := demo_run demo_user_accounts Revoke demo_world1.

(** A bracket around a transfer of 500 to the destination. *)
Definition demo_pre_proof : JupiterPreBracketProof :=
  MkPreProof 1 demo_destination demo_mint 500.
Definition demo_post_proof : JupiterPostBracketProof := MkPostProof 1 demo_destination.
Definition demo_pre_accounts : list AccountInfo :=
  [demo_signer demo_executor; demo_readonly demo_authz; demo_readonly demo_destination;
   demo_writable demo_checkpoint; demo_readonly system_program_id].
Definition demo_post_accounts : list AccountInfo :=
  [demo_signer demo_executor; demo_readonly demo_authz; demo_readonly demo_destination;
   demo_writable demo_checkpoint].
Definition demo_world_opened : World :=
  run_world (process_pre_jupiter_bracket_check demo_rt demo_program demo_pre_accounts
    demo_pre_proof) demo_world1.
Definition demo_world_swapped : World :=
  with_bank (<[demo_destination := demo_token_account 7600]> (w_bank demo_world_opened))
    demo_world_opened.
Definition demo_world_consumed : World :=
  run_world (process_post_jupiter_bracket_check demo_rt demo_program demo_post_accounts
    demo_post_proof) demo_world_swapped.

(** ** A Solend withdraw *)
Definition demo_record : AuthorizationRecord :=
  MkRecord 1 demo_rule_id demo_user demo_executor demo_wallet demo_rule_hash 1 1000000 0
    demo_destination 300000000 false false 0 0 254.

Definition demo_tuple : DemoOracleTuple := MAINNET_BETA_DEMO_USDC_TUPLE.

Definition demo_withdraw_accounts : SolendWithdrawAccounts :=
  MkWithdrawAccounts (demo_writable (replicate 32 Byte.x11)) (demo_writable (replicate 32 Byte.x12))
    (demo_writable (dt_reserve demo_tuple)) (demo_writable demo_obligation_key)
    (demo_writable (dt_lending_market demo_tuple)) (demo_readonly (replicate 32 Byte.x13))
    (demo_writable demo_destination) (demo_writable (dt_ctoken_mint demo_tuple))
    (demo_writable (replicate 32 Byte.x14)) (MkAccountInfo demo_wallet true false)
    (MkAccountInfo demo_wallet true false) (demo_readonly AccountDecode.SPL_TOKEN_PROGRAM_ID).

Definition demo_substrate (pyth : Pubkey) : SolendCpiSubstrate :=
  MkSubstrate (demo_readonly SOLEND_PROGRAM_ID_MAINNET) (demo_readonly pyth)
    (demo_readonly (dt_switchboard_oracle demo_tuple)) (demo_readonly sysvar_clock_id) None.

Definition demo_expectations : SolendWithdrawShadowExpectations :=
  MkExpectations SOLEND_PROGRAM_ID_MAINNET demo_obligation_key (dt_reserve demo_tuple)
    (dt_lending_market demo_tuple) (dt_ctoken_mint demo_tuple) (dt_liquidity_mint demo_tuple).

Definition demo_token (mint own : Pubkey) (amount : Z) : Account :=
  MkAccount 2039280 AccountDecode.SPL_TOKEN_PROGRAM_ID
    (token_layout mint own (to_le 8 amount) (replicate 93 Byte.x00)).

Definition demo_solend_world : World :=
  MkWorld
    (<[demo_obligation_key := MkAccount 1 SOLEND_PROGRAM_ID_MAINNET
         (obligation_layout Byte.x01 (to_le 8 7) Byte.x00 (dt_lending_market demo_tuple)
            demo_wallet (replicate 1226 Byte.x00))]>
    (<[dt_reserve demo_tuple := MkAccount 1 SOLEND_PROGRAM_ID_MAINNET
         (reserve_layout Byte.x01 (to_le 8 7) Byte.x00 (dt_lending_market demo_tuple)
            (replicate 577 Byte.x00))]>
    (<[replicate 32 Byte.x12 := demo_token (dt_ctoken_mint demo_tuple) demo_wallet 123456]>
    (<[demo_destination := demo_token (dt_liquidity_mint demo_tuple) demo_user 0]> ∅))))
    (demo_clock 250000010) [].

(** * The theorems on a concrete authorization

    For each property with hypotheses, an instance on the worlds of
    [Scenario], with the program's own runs evaluated. *)

(** ** The runs *)
Lemma demo_solend_program : SOLEND_PROGRAM_ID_MAINNET ≠ demo_program.
Proof. apply (bool_decide_unpack _). by vm_compute. Qed.

Lemma typed_by_decoding {A} `{Borsh A} bs (a : A) : try_from_slice bs = Some a → well_typed a.
Proof. intros Ha. by destruct (proj1 (try_from_slice_Some bs a) Ha). Qed.

Lemma demo_create_args_typed : well_typed demo_create_args.
Proof. apply (typed_by_decoding (to_vec demo_create_args)). by vm_compute. Qed.
Lemma demo_execute_args_typed : well_typed demo_execute_args.
Proof. apply (typed_by_decoding (to_vec demo_execute_args)). by vm_compute. Qed.
Lemma demo_record_typed : well_typed demo_record.
Proof. apply (typed_by_decoding (to_vec demo_record)). by vm_compute. Qed.
Lemma demo_pre_proof_typed : well_typed demo_pre_proof.
Proof. apply (typed_by_decoding (to_vec demo_pre_proof)). by vm_compute. Qed.

Lemma demo_create_run :
  process_instruction demo_rt demo_program demo_create_accounts
    (to_vec (CreateAuthorization demo_create_args)) demo_world0 = Ok (tt, demo_world1).
Proof. apply run_world_spec. by vm_compute. Qed.
Lemma demo_execute_run :
  process_instruction demo_rt demo_program demo_execute_accounts
    (to_vec (ExecuteAction demo_execute_args)) demo_world1 = Ok (tt, demo_world2).
Proof. apply run_world_spec. by vm_compute. Qed.
Lemma demo_revoke_run :
  process_instruction demo_rt demo_program demo_user_accounts (to_vec Revoke) demo_world1 =
  Ok (tt, demo_world2_revoked).
Proof. apply run_world_spec. by vm_compute. Qed.
Lemma demo_pre_run :
  process_pre_jupiter_bracket_check demo_rt demo_program demo_pre_accounts demo_pre_proof
    demo_world1 = Ok (tt, demo_world_opened).
Proof. apply run_world_spec. by vm_compute. Qed.
Lemma demo_post_run :
  process_post_jupiter_bracket_check demo_rt demo_program demo_post_accounts demo_post_proof
    demo_world_swapped = Ok (tt, demo_world_consumed).
Proof. apply run_world_spec. by vm_compute. Qed.

(** ** The steps *)
Lemma demo_key_underived k seeds :
  last k ≠ Some Byte.xff → k ≠ (find_program_address demo_rt seeds demo_program).1.
Proof. apply demo_find_pda_last. Qed.

(** Signers whose keys end in another byte. *)
Lemma demo_no_derived_signer accounts :
  forallb (λ a, negb (is_signer a) || bool_decide (last (key a) ≠ Some Byte.xff)) accounts =
    true → no_derived_signer demo_rt demo_program accounts.
Proof.
  intros H seeds. apply Forall_forall. intros a Ha Hs.
  rewrite forallb_forall in H. specialize (H a (proj1 (list_elem_of_In _ _) Ha)).
  rewrite Hs in H. simpl in H. apply bool_decide_eq_true in H. by apply demo_key_underived.
Qed.

Lemma demo_accounts_typed accounts :
  forallb (λ a, (length (key a) =? 32)%nat) accounts = true → accounts_typed accounts.
Proof.
  intros H. apply Forall_forall. intros a Ha. rewrite forallb_forall in H.
  apply Nat.eqb_eq, H. by apply list_elem_of_In.
Qed.

Lemma demo_step accounts bs w w' :
  forallb (λ a, (length (key a) =? 32)%nat &&
    (negb (is_signer a) || bool_decide (last (key a) ≠ Some Byte.xff))) accounts = true →
  bool_decide (is_u 64 (slot (w_clock w))) = true →
  process_instruction demo_rt demo_program accounts bs w = Ok (tt, w') →
  step demo_rt demo_program w (Instr accounts bs) w'.
Proof.
  intros H Hs Hrun. apply bool_decide_eq_true in Hs.
  rewrite forallb_forall in H.
  constructor; [apply demo_accounts_typed|apply demo_no_derived_signer|done..];
    apply forallb_forall; intros a Ha; by apply H, andb_true_iff in Ha as [? ?].
Qed.

Notation create_event :=
  (Instr demo_create_accounts (to_vec (CreateAuthorization demo_create_args))).
Notation execute_event :=
  (Instr demo_execute_accounts (to_vec (ExecuteAction demo_execute_args))).
Notation revoke_event := (Instr demo_user_accounts (to_vec Revoke)).

Lemma demo_step_create : step demo_rt demo_program demo_world0 create_event demo_world1.
Proof. apply demo_step; [by vm_compute..|apply demo_create_run]. Qed.
Lemma demo_step_execute : step demo_rt demo_program demo_world1 execute_event demo_world2.
Proof. apply demo_step; [by vm_compute..|apply demo_execute_run]. Qed.
Lemma demo_step_revoke : step demo_rt demo_program demo_world1 revoke_event demo_world2_revoked.
Proof. apply demo_step; [by vm_compute..|apply demo_revoke_run]. Qed.

(** ** Histories *)
Lemma demo_world0_genesis : genesis demo_rt demo_program demo_world0.
Proof.
  intros k [seeds Hk].
  assert (k ≠ demo_user ∧ k ≠ demo_executor ∧ k ≠ demo_destination) as (H1 & H2 & H3).
  { rewrite <- Hk. split_and!; apply not_eq_sym, demo_key_underived;
      apply (bool_decide_unpack _); by vm_compute. }
  unfold demo_world0. simpl. rewrite !acct_insert_ne by done.
  unfold acct. rewrite lookup_empty. apply (bool_decide_unpack _). by vm_compute.
Qed.

Lemma demo_history1 : history demo_rt demo_program [create_event] demo_world1.
Proof.
  eapply history_cons; [apply history_nil, demo_world0_genesis|apply demo_step_create].
Qed.

(** The record the create left. *)
Definition demo_initial : AuthorizationRecord :=
  initial_record demo_rt demo_program demo_create_args demo_user.
Lemma demo_initial_live : live demo_program (w_bank demo_world1) demo_authz demo_initial.
Proof.
  split; [by vm_compute|]. split; [by vm_compute|].
  apply (initial_record_typed demo_rt demo_program); [apply demo_create_args_typed|done].
Qed.
Definition demo_revoked : AuthorizationRecord := set_revoked true demo_initial.
Lemma demo_revoked_live :
  live demo_program (w_bank demo_world2_revoked) demo_authz demo_revoked.
Proof.
  split; [by vm_compute|]. split; [by vm_compute|].
  apply set_revoked_typed. apply demo_initial_live.
Qed.

(** An execution closes nothing; nor does a step of the rest of the chain. *)
Lemma demo_execute_closes_not k : ¬ closes k execute_event.
Proof.
  intros (a & bs & [= <- <-] & _ & H). revert H.
  assert (try_from_slice (to_vec (ExecuteAction demo_execute_args)) =
          Some (ExecuteAction demo_execute_args)) as -> by (by vm_compute).
  done.
Qed.
Lemma demo_execute_executes : executes demo_authz execute_event.
Proof.
  exists demo_execute_accounts, (to_vec (ExecuteAction demo_execute_args)), demo_execute_args.
  split_and!; [done|done|by vm_compute].
Qed.
Lemma env_closes_not k : ¬ closes k Env.
Proof. by intros (? & ? & [=] & _). Qed.
Lemma env_step_same w : env_step demo_rt demo_program w w.
Proof. constructor; intros; done || lia. Qed.

(** Executed, with a quiet step before and after. *)
Notation demo_events := [Env; execute_event; Env].
Lemma demo_steps : steps demo_rt demo_program demo_world1 demo_events demo_world2.
Proof.
  eapply steps_cons; [apply step_env, env_step_same|].
  eapply steps_cons; [apply demo_step_execute|].
  eapply steps_cons; [apply step_env, env_step_same|constructor].
Qed.
Lemma demo_events_open : Forall (λ e, ¬ closes demo_authz e) demo_events.
Proof.
  repeat constructor; [apply env_closes_not|apply demo_execute_closes_not|
    apply env_closes_not].
Qed.
Lemma demo_steps_revoked :
  steps demo_rt demo_program demo_world2_revoked [Env] demo_world2_revoked.
Proof. eapply steps_cons; [apply step_env, env_step_same|constructor]. Qed.

(** ** Witnesses of the trace properties *)
Lemma executions_are_authorized_witness :
  ∃ us crest cbs cargs,
    Instr (us :: crest) cbs ∈ [create_event] ∧
    try_from_slice cbs = Some (CreateAuthorization cargs) ∧
    400000 ≤ ca_max_input_amount_raw cargs.
Proof.
  destruct (executions_are_authorized demo_rt demo_program [create_event] demo_world1
    demo_execute_accounts (to_vec (ExecuteAction demo_execute_args)) demo_execute_args
    demo_world2) as (ex & rest & us & crest & cbs & cargs & _ & _ & _ & Hin & _ & Hc & _ & _ &
      _ & _ & Hle & _).
  - apply demo_solend_program.
  - apply demo_history1.
  - apply demo_step_execute.
  - by vm_compute.
  - exists us, crest, cbs, cargs. split; [exact Hin|split; [exact Hc|exact (proj2 Hle)]].
Defined.

Lemma executed_at_most_once_witness :
  demo_events !! 1%nat = Some execute_event ∧ executes demo_authz execute_event ∧
  (1 = 1)%nat.
Proof.
  split; [reflexivity|]. split; [apply demo_execute_executes|].
  apply (executed_at_most_once demo_rt demo_program demo_world1 demo_events demo_world2
    demo_authz demo_initial 1 1 execute_event execute_event); [apply demo_solend_program|
    apply demo_steps|apply demo_initial_live|apply demo_events_open|reflexivity|reflexivity|
    apply demo_execute_executes|apply demo_execute_executes].
Defined.

Lemma revocation_is_final_witness :
  Forall (λ e, ¬ executes demo_authz e) [Env] ∧
  ∃ r', live demo_program (w_bank demo_world2_revoked) demo_authz r' ∧ revoked r' = true ∧
    used_amount_raw r' = 0.
Proof.
  apply (revocation_is_final demo_rt demo_program demo_world2_revoked [Env]
    demo_world2_revoked demo_authz demo_revoked); [apply demo_solend_program|
    apply demo_steps_revoked|apply demo_revoked_live|reflexivity|].
  repeat constructor. apply env_closes_not.
Defined.

Lemma authorization_evolves_witness :
  ∃ r', live demo_program (w_bank demo_world2) demo_authz r' ∧ evolves demo_initial r'.
Proof.
  apply (authorization_evolves demo_rt demo_program demo_world1 demo_events demo_world2
    demo_authz demo_initial); [apply demo_solend_program|apply demo_steps|
    apply demo_initial_live|apply demo_events_open].
Defined.

Lemma reachable_records_sound_witness :
  sound_record demo_rt demo_program demo_authz demo_initial.
Proof.
  apply (reachable_records_sound demo_rt demo_program [create_event] demo_world1
    demo_authz demo_initial); [apply demo_solend_program|apply demo_history1| |
    apply demo_initial_live].
  exists (authorization_seeds 1 demo_user demo_rule_id). vm_compute. reflexivity.
Defined.

(** ** Witnesses of the instruction properties *)
Lemma demo_execute_direct :
  process_execute_action demo_rt demo_program demo_execute_accounts demo_execute_args
    demo_world1 = Ok (tt, demo_world2).
Proof.
  rewrite <- demo_execute_run. symmetry.
  apply (process_instruction_decoded _ _ _ _ _ (ExecuteAction demo_execute_args)). by vm_compute.
Qed.
Lemma demo_create_direct :
  process_create_authorization demo_rt demo_program demo_create_accounts demo_create_args
    demo_world0 = Ok (tt, demo_world1).
Proof.
  rewrite <- demo_create_run. symmetry.
  apply (process_instruction_decoded _ _ _ _ _ (CreateAuthorization demo_create_args)). by vm_compute.
Qed.
Definition demo_world3 : World :=
  run_world (process_close_authorization demo_rt demo_program demo_user_accounts) demo_world2.
Lemma demo_close_direct :
  process_close_authorization demo_rt demo_program demo_user_accounts demo_world2 =
  Ok (tt, demo_world3).
Proof. apply run_world_spec. by vm_compute. Qed.

Lemma demo_slot_typed w : w_clock w = demo_clock 250000010 → is_u 64 (slot (w_clock w)).
Proof. intros ->. apply (bool_decide_unpack _). by vm_compute. Qed.

Lemma process_instruction_refines_witness :
  ∃ i, to_vec (ExecuteAction demo_execute_args) = to_vec i ∧ well_typed i ∧
    instr_effect demo_rt demo_program i demo_execute_accounts demo_world1 demo_world2 ∧
    w_clock demo_world2 = w_clock demo_world1.
Proof.
  apply (process_instruction_refines demo_rt demo_program demo_execute_accounts
    (to_vec (ExecuteAction demo_execute_args)) demo_world1 demo_world2);
    [apply demo_solend_program|by apply demo_accounts_typed|by apply demo_slot_typed; vm_compute|
     apply demo_execute_run].
Defined.

Lemma execute_functional_witness :
  ∃ ex au us dw rest r b2, demo_execute_accounts = ex :: au :: us :: dw :: rest ∧
    execute_gates demo_rt demo_program demo_world1 demo_execute_args ex au us r ∧
    cpi_effect demo_rt (w_bank demo_world1) demo_execute_accounts r dw
      (xa_solend_boundary_proof demo_execute_args) b2 ∧
    demo_world2 = execute_result demo_world1 b2 demo_execute_args au r.
Proof.
  apply (execute_functional demo_rt demo_program demo_execute_accounts demo_execute_args
    demo_world1 demo_world2); [apply demo_solend_program|apply demo_execute_args_typed|
    by apply demo_slot_typed; vm_compute|apply demo_execute_direct].
Defined.

Lemma create_authorization_sound_witness :
  ∃ us au sy rest, demo_create_accounts = us :: au :: sy :: rest ∧
    create_facts demo_rt demo_program demo_world0 demo_create_args us au sy ∧
    demo_world1 = create_result demo_rt demo_program demo_world0 demo_create_args us au ∧
    record_at (w_bank demo_world1) (key au)
      (initial_record demo_rt demo_program demo_create_args (key us)) ∧
    owner (acct (w_bank demo_world1) (key au)) = demo_program.
Proof.
  apply (create_authorization_sound demo_rt demo_program demo_create_accounts
    demo_create_args demo_world0 demo_world1); [by apply demo_accounts_typed|
    apply demo_create_args_typed|apply demo_create_direct].
Defined.

Lemma demo_create_facts :
  create_facts demo_rt demo_program demo_world0 demo_create_args (demo_signer demo_user)
    (demo_writable demo_authz) (demo_readonly system_program_id).
Proof.
  constructor; try (apply (bool_decide_unpack _); by vm_compute).
Qed.

Lemma create_authorization_succeeds_witness :
  process_create_authorization demo_rt demo_program demo_create_accounts demo_create_args
    demo_world0 =
  Ok (tt, create_result demo_rt demo_program demo_world0 demo_create_args
            (demo_signer demo_user) (demo_writable demo_authz)).
Proof.
  apply (create_authorization_succeeds demo_rt demo_program demo_create_args demo_world0
    (demo_signer demo_user) (demo_writable demo_authz) (demo_readonly system_program_id) []);
    [apply demo_create_facts|by apply demo_accounts_typed|apply demo_create_args_typed|
     by vm_compute..].
Defined.

Lemma close_conserves_lamports_witness :
  lamports (acct (w_bank demo_world3) demo_user) =
    lamports (acct (w_bank demo_world2) demo_user) +
    lamports (acct (w_bank demo_world2) demo_authz) ∧
  acct (w_bank demo_world3) demo_authz = empty_account ∧
  ∀ k, k ≠ demo_user → k ≠ demo_authz →
    acct (w_bank demo_world3) k = acct (w_bank demo_world2) k.
Proof.
  apply (close_conserves_lamports demo_rt demo_program (demo_signer demo_user)
    (demo_writable demo_authz) [] demo_world2 demo_world3); [apply demo_close_direct|].
  apply (bool_decide_unpack _). by vm_compute.
Defined.

(** The refusals of an execution that the executor did not sign, and of a second one. *)
Definition demo_unsigned_accounts : list AccountInfo :=
  demo_readonly demo_executor :: tail demo_execute_accounts.
Lemma execution_refused_in_order_witness :
  process_execute_action demo_rt demo_program demo_unsigned_accounts demo_execute_args demo_world1 =
    Err (authority_into MissingExecutorSignature) ∧
  process_execute_action demo_rt demo_program demo_execute_accounts demo_execute_args demo_world2 =
    Err (authority_into AuthorizationCompleted).
Proof.
  split; (etransitivity; [apply (execution_refused_in_order demo_rt demo_program);
    [apply demo_solend_program|apply demo_execute_args_typed|by apply demo_slot_typed; vm_compute]|]);
    vm_compute; reflexivity.
Defined.

(** The executor's own condition: a supply rate of at least zero. *)
Definition demo_any_conditions : ConditionProofPayload :=
  MkPayload Any [ProofSolend (MkSolendCond Gte 0 Apr 1 50) demo_reserve].

Lemma conditions_not_bound_by_hash_witness :
  process_execute_action demo_rt demo_program demo_execute_accounts
    (with_conditions demo_any_conditions demo_execute_args) demo_world1 = Ok (tt, demo_world2).
Proof.
  apply (conditions_not_bound_by_hash demo_rt demo_program demo_execute_accounts
    demo_execute_args demo_world1 demo_world2 demo_any_conditions);
    [apply demo_solend_program|apply demo_execute_args_typed|
     by apply demo_slot_typed; vm_compute|apply demo_execute_direct| |by vm_compute].
  apply (typed_by_decoding (to_vec demo_any_conditions)). by vm_compute.
Defined.

(** ** Witnesses of the bracket and the withdraw *)
Lemma bracket_guarantee_witness :
  ∃ dest t0 t2, Some demo_destination = Some dest ∧
    token_at (w_bank demo_world1) dest t0 ∧ token_at (w_bank demo_world_swapped) dest t2 ∧
    ta_mint t2 = ta_mint t0 ∧ 500 ≤ ta_amount t2 - ta_amount t0.
Proof.
  apply (bracket_guarantee demo_rt demo_program demo_pre_accounts demo_pre_proof demo_world1
    demo_world_opened demo_post_accounts demo_post_proof demo_world_swapped
    demo_world_consumed demo_checkpoint); [by apply demo_accounts_typed|
    apply demo_pre_proof_typed|apply demo_pre_run|reflexivity|reflexivity| |
    apply demo_post_run].
  vm_compute. reflexivity.
Defined.

(** Replaying the post-check of the demo. *)
Lemma post_check_consumes_once_witness :
  process_post_jupiter_bracket_check demo_rt demo_program demo_post_accounts demo_post_proof
    demo_world_consumed ≠ Ok (tt, demo_world_consumed).
Proof.
  apply (post_check_consumes_once demo_rt demo_program demo_post_accounts demo_post_proof
    demo_world_swapped demo_world_consumed demo_post_accounts demo_post_proof
    demo_world_consumed demo_checkpoint); [apply demo_post_run|reflexivity..].
Defined.

Definition demo_dw : AccountInfo := MkAccountInfo demo_wallet true false.
Definition demo_withdraw (pyth : Pubkey) : M unit :=
  try_solend_cpi_skeleton demo_rt demo_record demo_dw (demo_substrate pyth)
    demo_withdraw_accounts [] demo_expectations.
Lemma demo_withdraw_run :
  demo_withdraw (dt_pyth_oracle demo_tuple) demo_solend_world =
  Ok (tt, run_world (demo_withdraw (dt_pyth_oracle demo_tuple)) demo_solend_world).
Proof. apply run_world_spec. by vm_compute. Qed.

Lemma solend_withdraw_authority_witness :
  ∃ ix b2 t, rt_invoke demo_rt ix (withdraw_slots demo_withdraw_accounts ++ []) [] b2 =
      Ok (w_bank (run_world (demo_withdraw (dt_pyth_oracle demo_tuple)) demo_solend_world)) ∧
    ix_program_id ix = SOLEND_PROGRAM_ID_MAINNET ∧
    decode_spl_token_account_lite (data (acct (w_bank demo_solend_world)
      (key (wa_delegated_ctoken demo_withdraw_accounts)))) = Ok t ∧
    ta_owner t = demo_wallet ∧ ta_amount t ≠ 0 ∧
    ix_data ix = byte_of 15 :: to_le 8 (ta_amount t) ∧
    meta_key <$> ix_accounts ix !! 1%nat =
      Some (key (wa_delegated_ctoken demo_withdraw_accounts)) ∧
    meta_key <$> ix_accounts ix !! 6%nat = Some demo_destination ∧
    Forall (λ m, meta_signer m = true → meta_key m = demo_wallet ∧ meta_key m ≠ demo_user)
      (ix_accounts ix).
Proof.
  apply (solend_withdraw_authority demo_rt demo_record demo_dw
    (demo_substrate (dt_pyth_oracle demo_tuple)) demo_withdraw_accounts [] demo_expectations
    demo_solend_world). apply demo_withdraw_run.
Defined.

(** What the withdraw of the demo decodes. *)
Definition demo_decoded : SolendWithdrawShadowDecoded :=
  MkShadowDecoded (MkObligation 1 7 false (dt_lending_market demo_tuple) demo_wallet)
    (MkDecodedReserve 1 7 false (dt_lending_market demo_tuple))
    (MkTokenAccount (dt_ctoken_mint demo_tuple) demo_wallet 123456)
    (MkTokenAccount (dt_liquidity_mint demo_tuple) demo_user 0).

(** Another price account than the pinned one. *)
Lemma demo_phase1 :
  solend_phase1 (w_bank demo_solend_world) demo_record demo_dw
    (demo_substrate (replicate 32 Byte.x20)) demo_withdraw_accounts demo_expectations
    demo_decoded.
Proof.
  constructor; [done|split_and!; try done; apply (bool_decide_unpack _); by vm_compute|done| |done].
  apply validate_shadow_Ok. by vm_compute.
Qed.

Lemma solend_blocked_outside_allowlist_witness :
  demo_withdraw (replicate 32 Byte.x20) demo_solend_world =
  Err (authority_into SolendCpiSuccessPathBlockedByOracleValidation).
Proof.
  apply (solend_blocked_outside_allowlist demo_rt demo_record demo_dw
    (demo_substrate (replicate 32 Byte.x20)) demo_withdraw_accounts [] demo_expectations
    demo_decoded demo_solend_world); [apply demo_phase1|].
  apply (bool_decide_unpack _). by vm_compute.
Defined.
