(* ===== verification/WatchRules.v ===== *)
(** * Watch rules ([crates/types/src/stage2_watch_rule.rs])

    The rule a user signs off-chain: conditions, action, caps and parties; its
    canonical Borsh bytes and their hash; the validators; the metadata
    projection.  The pubkeys are [PubkeyBytes] of [canonical_intent.rs]. *)
From S2P Require Import Prelude Borsh.

(** [PubkeyBytes], 32 raw bytes *)
Notation PubkeyBytes := (list byte).

Definition STAGE2_WATCH_RULE_SCHEMA_VERSION : Z := 1.
Definition MAX_CONDITIONS : nat := 8.
Definition MIN_CONDITIONS : nat := 1.

(** ** Discriminators *)
Inductive ConditionLogic := All | Any.
Inductive Comparison := Lt | Lte | Gt | Gte.
Inductive VerificationLevel := Full.
Inductive BoundMode := AdverseLowerForGt | AdverseUpperForLt | Midpoint.
Inductive RateKind := Apr | Apy.
Inductive WithdrawMode := WithdrawAllDelegatedPosition.
Inductive JupiterApiVersion := V1 | V2.
Inductive ConditionKind := KindPythPrice | KindSolendReserveSupplyRate.
Inductive WatchRuleActionType := TypeSolendWithdrawAllDelegated | TypeJupiterBuySolWithUsdc.
#[export] Instance condition_logic_eq_dec : EqDecision ConditionLogic.
Proof. solve_decision. Defined.
#[export] Instance action_type_eq_dec : EqDecision WatchRuleActionType.
Proof. solve_decision. Defined.

(** ** Conditions and actions *)
Inductive Condition :=
| PythPrice
    (feed_id : list byte) (price_update_account : PubkeyBytes) (comparison : Comparison)
    (threshold_mantissa threshold_exponent max_age_seconds max_confidence_bps : Z)
    (verification_level_required : VerificationLevel) (bound_mode : BoundMode)
| SolendReserveSupplyRate
    (reserve_pubkey lending_market solend_program_id : PubkeyBytes) (comparison : Comparison)
    (threshold_bps : Z) (rate_kind : RateKind)
    (formula_version max_reserve_staleness_slots : Z) (required_refresh_same_tx : bool).

Definition condition_kind (c : Condition) : ConditionKind :=
  match c with
  | PythPrice _ _ _ _ _ _ _ _ _ => KindPythPrice
  | SolendReserveSupplyRate _ _ _ _ _ _ _ _ _ => KindSolendReserveSupplyRate
  end.

Inductive ActionSpec :=
| SolendWithdrawAllDelegated
    (target_obligation reserve_pubkey lending_market destination_wallet : PubkeyBytes)
    (withdraw_mode : WithdrawMode)
| JupiterBuySolWithUsdc
    (input_mint output_mint : PubkeyBytes) (input_amount_raw : Z)
    (min_output_amount_raw : option Z) (jupiter_api_version : JupiterApiVersion)
    (max_accounts_hint : Z) (require_pre_post_bracket : bool).

(** [ActionSpec::action_type] *)
Definition action_type (a : ActionSpec) : WatchRuleActionType :=
  match a with
  | SolendWithdrawAllDelegated _ _ _ _ _ => TypeSolendWithdrawAllDelegated
  | JupiterBuySolWithUsdc _ _ _ _ _ _ _ => TypeJupiterBuySolWithUsdc
  end.

(** [WatchRuleActionType::label], [to_u8], [from_u8] *)
Definition label (t : WatchRuleActionType) : string :=
  match t with
  | TypeSolendWithdrawAllDelegated => "solend_withdraw_all_delegated"
  | TypeJupiterBuySolWithUsdc => "jupiter_buy_sol_with_usdc"
  end.
Definition to_u8 (t : WatchRuleActionType) : Z :=
  match t with TypeSolendWithdrawAllDelegated => 1 | TypeJupiterBuySolWithUsdc => 2 end.
Definition from_u8 (value : Z) : option WatchRuleActionType :=
  match value with
  | 1 => Some TypeSolendWithdrawAllDelegated
  | 2 => Some TypeJupiterBuySolWithUsdc
  | _ => None
  end.

Record WatchRule := MkWatchRule {
  wr_schema_version : Z;
  wr_rule_id : list byte;
  wr_user : PubkeyBytes;
  wr_executor : PubkeyBytes;
  wr_delegated_wallet : PubkeyBytes;
  wr_created_at_slot : Z;
  wr_expires_at_slot : Z;
  wr_one_shot : bool;
  wr_condition_logic : ConditionLogic;
  wr_conditions : list Condition;
  wr_action : ActionSpec;
  wr_max_input_amount_raw : Z;
  wr_used_amount_raw : Z;
  wr_destination : PubkeyBytes;
  wr_slippage_bps : Z
}.

(** ** Canonical layout *)
Definition condition_logic_ord (l : ConditionLogic) : Z := match l with All => 0 | Any => 1 end.
Definition condition_logic_of_ord (z : Z) : option ConditionLogic :=
  match z with 0 => Some All | 1 => Some Any | _ => None end.
Definition comparison_ord (c : Comparison) : Z :=
  match c with Lt => 0 | Lte => 1 | Gt => 2 | Gte => 3 end.
Definition comparison_of_ord (z : Z) : option Comparison :=
  match z with 0 => Some Lt | 1 => Some Lte | 2 => Some Gt | 3 => Some Gte | _ => None end.
Definition bound_mode_ord (m : BoundMode) : Z :=
  match m with AdverseLowerForGt => 0 | AdverseUpperForLt => 1 | Midpoint => 2 end.
Definition bound_mode_of_ord (z : Z) : option BoundMode :=
  match z with
  | 0 => Some AdverseLowerForGt | 1 => Some AdverseUpperForLt | 2 => Some Midpoint
  | _ => None
  end.
Definition rate_kind_ord (k : RateKind) : Z := match k with Apr => 0 | Apy => 1 end.
Definition rate_kind_of_ord (z : Z) : option RateKind :=
  match z with 0 => Some Apr | 1 => Some Apy | _ => None end.
Definition verification_level_of_ord (z : Z) : option VerificationLevel :=
  match z with 0 => Some Full | _ => None end.
Definition withdraw_mode_of_ord (z : Z) : option WithdrawMode :=
  match z with 0 => Some WithdrawAllDelegatedPosition | _ => None end.
Definition api_version_ord (v : JupiterApiVersion) : Z := match v with V1 => 0 | V2 => 1 end.
Definition api_version_of_ord (z : Z) : option JupiterApiVersion :=
  match z with 0 => Some V1 | 1 => Some V2 | _ => None end.

#[export] Instance borsh_condition_logic : Borsh ConditionLogic.
Proof. refine (c_enum condition_logic_ord condition_logic_of_ord _ _ _); solve_enum. Defined.
#[export] Instance borsh_comparison : Borsh Comparison.
Proof. refine (c_enum comparison_ord comparison_of_ord _ _ _); solve_enum. Defined.
#[export] Instance borsh_bound_mode : Borsh BoundMode.
Proof. refine (c_enum bound_mode_ord bound_mode_of_ord _ _ _); solve_enum. Defined.
#[export] Instance borsh_rate_kind : Borsh RateKind.
Proof. refine (c_enum rate_kind_ord rate_kind_of_ord _ _ _); solve_enum. Defined.
#[export] Instance borsh_verification_level : Borsh VerificationLevel.
Proof. refine (c_enum (λ _, 0) verification_level_of_ord _ _ _); solve_enum. Defined.
#[export] Instance borsh_withdraw_mode : Borsh WithdrawMode.
Proof. refine (c_enum (λ _, 0) withdraw_mode_of_ord _ _ _); solve_enum. Defined.
#[export] Instance borsh_api_version : Borsh JupiterApiVersion.
Proof. refine (c_enum api_version_ord api_version_of_ord _ _ _); solve_enum. Defined.

#[export] Instance borsh_condition : Borsh Condition.
Proof.
  refine (c_iso
    (λ x : _ + (_ + Empty_set), match x with
       | inl (f, (p, (c, (m, (e, (a, (b, (v, d)))))))) => PythPrice f p c m e a b v d
       | inr (inl (r, (l, (s, (c, (t, (k, (f, (m, q))))))))) =>
           SolendReserveSupplyRate r l s c t k f m q
       | inr (inr e) => match e with end
       end)
    (λ x, match x with
       | PythPrice f p c m e a b v d => inl (f, (p, (c, (m, (e, (a, (b, (v, d))))))))
       | SolendReserveSupplyRate r l s c t k f m q =>
           inr (inl (r, (l, (s, (c, (t, (k, (f, (m, q)))))))))
       end) _ _
    (c_tagged
      (t_cons 0 ltac:(lia)
        (c_pair (c_array 32) (c_pair c_pubkey (c_pair (borsh Comparison) (c_pair c_i64
          (c_pair c_i32 (c_pair c_u32 (c_pair c_u16 (c_pair (borsh VerificationLevel)
            (borsh BoundMode)))))))))
      (t_cons 1 ltac:(lia)
        (c_pair c_pubkey (c_pair c_pubkey (c_pair c_pubkey (c_pair (borsh Comparison)
          (c_pair c_u32 (c_pair (borsh RateKind) (c_pair c_u8 (c_pair c_u32 c_bool))))))))
      (t_nil 2)))));
  [by intros []|by intros [(?&?&?&?&?&?&?&?&?)|[(?&?&?&?&?&?&?&?&?)|[]]]].
Defined.

#[export] Instance borsh_action_spec : Borsh ActionSpec.
Proof.
  refine (c_iso
    (λ x : _ + (_ + Empty_set), match x with
       | inl (o, (r, (l, (d, w)))) => SolendWithdrawAllDelegated o r l d w
       | inr (inl (i, (o, (a, (m, (v, (h, b))))))) => JupiterBuySolWithUsdc i o a m v h b
       | inr (inr e) => match e with end
       end)
    (λ x, match x with
       | SolendWithdrawAllDelegated o r l d w => inl (o, (r, (l, (d, w))))
       | JupiterBuySolWithUsdc i o a m v h b => inr (inl (i, (o, (a, (m, (v, (h, b)))))))
       end) _ _
    (c_tagged
      (t_cons 0 ltac:(lia)
        (c_pair c_pubkey (c_pair c_pubkey (c_pair c_pubkey (c_pair c_pubkey
          (borsh WithdrawMode)))))
      (t_cons 1 ltac:(lia)
        (c_pair c_pubkey (c_pair c_pubkey (c_pair c_u64 (c_pair (c_option c_u64)
          (c_pair (borsh JupiterApiVersion) (c_pair c_u8 c_bool))))))
      (t_nil 2)))));
  [by intros []|by intros [(?&?&?&?&?)|[(?&?&?&?&?&?&?)|[]]]].
Defined.

#[export] Instance borsh_watch_rule : Borsh WatchRule.
Proof.
  refine (c_iso
    (λ '(v, (i, (u, (e, (w, (c, (x, (o, (l, (cs, (a, (m, (n, (d, s)))))))))))))),
      MkWatchRule v i u e w c x o l cs a m n d s)
    (λ r, (wr_schema_version r, (wr_rule_id r, (wr_user r, (wr_executor r,
      (wr_delegated_wallet r, (wr_created_at_slot r, (wr_expires_at_slot r, (wr_one_shot r,
      (wr_condition_logic r, (wr_conditions r, (wr_action r, (wr_max_input_amount_raw r,
      (wr_used_amount_raw r, (wr_destination r, wr_slippage_bps r))))))))))))))) _ _
    (c_pair c_u8 (c_pair (c_array 16) (c_pair c_pubkey (c_pair c_pubkey (c_pair c_pubkey
      (c_pair c_u64 (c_pair c_u64 (c_pair c_bool (c_pair (borsh ConditionLogic)
      (c_pair (c_vec (borsh Condition)) (c_pair (borsh ActionSpec) (c_pair c_u64
      (c_pair c_u64 (c_pair c_pubkey c_u16)))))))))))))));
  [by intros []|by intros (?&?&?&?&?&?&?&?&?&?&?&?&?&?&?)].
Defined.

(** [canonical_rule_bytes] *)
Definition canonical_rule_bytes (rule : WatchRule) : list byte := to_vec rule.

(** ** Crates the module calls: [sha2], [bs58] and [serde_json] *)
Class Crates := {
  sha256 : list byte → list byte;
  base58 : PubkeyBytes → string;
  serde_to_string : WatchRule → Result string string;
  serde_from_str : string → Result string WatchRule
}.
(** Documented behaviour: a 32-byte digest; the derived JSON form of a rule
    parses back to the rule. *)
Class CratesLaws `{Crates} : Prop := {
  sha256_length bs : length (sha256 bs) = 32%nat;
  serde_roundtrip rule : well_typed rule →
    ∃ s, serde_to_string rule = Ok s ∧ serde_from_str s = Ok rule
}.

Section rules.
Context `{Crates}.

Definition canonical_rule_hash (rule : WatchRule) : list byte :=
  sha256 (canonical_rule_bytes rule).

(** ** Validation *)
Inductive WatchRuleValidationError :=
| Expired (current expires : Z)
| NoConditions (min : nat)
| TooManyConditions (got max : nat)
| UsedAmountOverMax (used max : Z)
| OneShotPartialAmount (used max : Z).

Definition validate_not_expired (rule : WatchRule) (current_slot : Z) :
    Result WatchRuleValidationError unit :=
  if current_slot <? wr_expires_at_slot rule then Ok tt
  else Err (Expired current_slot (wr_expires_at_slot rule)).

Definition validate_conditions_bounded (rule : WatchRule) :
    Result WatchRuleValidationError unit :=
  let n := length (wr_conditions rule) in
  _ ← throw_if (n <? MIN_CONDITIONS)%nat (NoConditions MIN_CONDITIONS);
  throw_if (MAX_CONDITIONS <? n)%nat (TooManyConditions n MAX_CONDITIONS).

Definition validate_used_amount (rule : WatchRule) : Result WatchRuleValidationError unit :=
  let used := wr_used_amount_raw rule in
  let max := wr_max_input_amount_raw rule in
  _ ← throw_if (max <? used) (UsedAmountOverMax used max);
  throw_if (wr_one_shot rule && negb (used =? 0) && negb (used =? max))
    (OneShotPartialAmount used max).

(** ** Metadata *)
Record WatchRuleMetadata := MkMetadata {
  md_schema_version : Z;
  md_rule_id : list byte;
  md_user : PubkeyBytes;
  md_executor : PubkeyBytes;
  md_expires_at_slot : Z;
  md_action_type : WatchRuleActionType;
  md_canonical_rule_hash : list byte
}.

Definition from_rule (rule : WatchRule) : WatchRuleMetadata :=
  MkMetadata (wr_schema_version rule) (wr_rule_id rule) (wr_user rule) (wr_executor rule)
    (wr_expires_at_slot rule) (action_type (wr_action rule)) (canonical_rule_hash rule).

Definition metadata_validate_not_expired (m : WatchRuleMetadata) (current_slot : Z) :
    Result WatchRuleValidationError unit :=
  if current_slot <? md_expires_at_slot m then Ok tt
  else Err (Expired current_slot (md_expires_at_slot m)).
End rules.

(** ** Lemmas *)

(** The fields a well-typed rule keeps in range. *)
Record rule_ranges (rule : WatchRule) : Prop := {
  rr_rule_id : length (wr_rule_id rule) = 16%nat;
  rr_expires : is_u 64 (wr_expires_at_slot rule);
  rr_created : is_u 64 (wr_created_at_slot rule);
  rr_max : is_u 64 (wr_max_input_amount_raw rule);
  rr_used : is_u 64 (wr_used_amount_raw rule)
}.

Lemma well_typed_rule rule : well_typed rule → rule_ranges rule.
Proof. intros (?&?&?&?&?&?&?&?&?&?&?&?&?&?&?). by constructor. Qed.

Lemma from_to_u8 t : from_u8 (to_u8 t) = Some t.
Proof. by destruct t. Qed.
