(* ===== verification/WatcherBase.v ===== *)
(** * What the watcher, the evaluator and the executor share
      ([stage2_watcher.rs], first half)

    Text formatting, the error classes, the tick context with its three clocks,
    the configuration, and the two seams of the watcher as type classes: the
    condition evaluator and the execution simulator. *)
From stdpp Require Export pretty.
From S2P Require Import Prelude WatchRules.
#[local] Open Scope string_scope.
#[local] Open Scope Z_scope.

(** ** Formatting *)

(** [{}] of an integer *)
Definition fmt (z : Z) : string := pretty z.

Definition hex_digit (n : Z) : Ascii.ascii :=
  Ascii.ascii_of_N (Z.to_N (if n <? 10 then 48 + n else 87 + n)).
(** [{:02x}] of a byte *)
Definition fmt_02x (b : byte) : string :=
  String (hex_digit (byte_val b / 16)) (String (hex_digit (byte_val b mod 16)) EmptyString).
(** [hex_id], [hex_encode], [rule_id_hex] *)
Fixpoint hex_encode (bs : list byte) : string :=
  match bs with
  | [] => EmptyString
  | b :: bs => fmt_02x b +:+ hex_encode bs
  end.

Definition fmt_bool (b : bool) : string := if b then "true" else "false".

(** ** Errors *)
Inductive Stage2WatcherError :=
| Transient (m : string)
| Terminal (m : string)
| Internal (m : string).

Definition is_transient (e : Stage2WatcherError) : bool :=
  match e with Transient _ => true | _ => false end.
Definition is_terminal (e : Stage2WatcherError) : bool :=
  match e with Terminal _ => true | _ => false end.
Definition is_internal (e : Stage2WatcherError) : bool :=
  match e with Internal _ => true | _ => false end.

(** [Display] *)
Definition show_watcher_error (e : Stage2WatcherError) : string :=
  match e with
  | Transient m => "transient: " +:+ m
  | Terminal m => "terminal: " +:+ m
  | Internal m => "internal: " +:+ m
  end.

Notation WRes := (Result Stage2WatcherError).

(** ** Tick context and configuration *)
Record Stage2TickContext := MkTickContext {
  current_slot : Z;
  current_unix_timestamp : Z;
  now_ms : Z
}.

(** The values of the Rust fields: [u64], [i64], [i64]. *)
Definition ctx_typed (ctx : Stage2TickContext) : Prop :=
  is_u 64 (current_slot ctx) ∧ is_i 64 (current_unix_timestamp ctx) ∧ is_i 64 (now_ms ctx).

Record Stage2WatcherConfig := MkWatcherConfig {
  max_rules_per_tick : Z;
  tick_interval_ms : Z;
  offline_threshold_ms : Z;
  stale_threshold_ms : Z;
  force_tick_enabled : bool
}.

Definition default_watcher_config : Stage2WatcherConfig :=
  MkWatcherConfig 500 5000 300000 120000 false.

(** ** The seams *)

(** [trait Stage2ConditionEvaluator]; [S] is the evaluator's own state (a mutex
    protected field in the source). *)
Class Stage2ConditionEvaluator (S : Type) :=
  evaluate : WatchRule → Stage2TickContext → S → WRes bool * S.

(** [trait Stage2ExecutionSimulator] *)
Class Stage2ExecutionSimulator :=
  simulate : WatchRule → Stage2TickContext → WRes unit.

(** [NoopConditionEvaluator], [NoopExecutionSimulator] *)
Definition NoopConditionEvaluator : Stage2ConditionEvaluator unit := λ _ _ s, (Ok false, s).
Definition NoopExecutionSimulator : Stage2ExecutionSimulator := λ _ _, Ok tt.
