(* ===== verification/RuleStore.v ===== *)
(** * Watch-rule store ([crates/state-store/src/stage2_watch_rules.rs])

    The [stage2_watch_rules] table, its statements and the typed projection of
    a row.  The table is a finite map from the primary key; a statement is a
    function on it.  SQLite itself is outside: what is used of it is the meaning
    of [WHERE] on one key, the primary-key constraint and [ORDER BY]. *)
From S2P Require Import Prelude Borsh WatchRules WatcherBase.
From Stdlib Require Import Sorting.Sorted.
#[local] Open Scope string_scope.
#[local] Open Scope Z_scope.

(** ** errors.rs *)
Inductive StoreError :=
| Sqlx (m : string)
| Migration (m : string)
| Serialization (m : string)
| NotFound (entity id : string)
| IntegrityCheckFailed (m : string).

Definition show_store_error (e : StoreError) : string :=
  match e with
  | Sqlx m => "database error: " +:+ m
  | Migration m => "migration error: " +:+ m
  | Serialization m => "serialization error: " +:+ m
  | NotFound entity id => "record not found: " +:+ entity +:+ " with id " +:+ id
  | IntegrityCheckFailed m => "integrity check failed: " +:+ m
  end.

Notation SRes := (Result StoreError).

(** ** Status *)
Inductive WatchRuleStatus :=
| Active | ConditionMet | Executing | Completed | StatusExpired | Revoked | Failed.
#[export] Instance status_eq_dec : EqDecision WatchRuleStatus.
Proof. solve_decision. Defined.

Definition as_str (s : WatchRuleStatus) : string :=
  match s with
  | Active => "active" | ConditionMet => "condition_met" | Executing => "executing"
  | Completed => "completed" | StatusExpired => "expired" | Revoked => "revoked"
  | Failed => "failed"
  end.

Definition parse_status (s : string) : option WatchRuleStatus :=
  if bool_decide (s = "active") then Some Active
  else if bool_decide (s = "condition_met") then Some ConditionMet
  else if bool_decide (s = "executing") then Some Executing
  else if bool_decide (s = "completed") then Some Completed
  else if bool_decide (s = "expired") then Some StatusExpired
  else if bool_decide (s = "revoked") then Some Revoked
  else if bool_decide (s = "failed") then Some Failed
  else None.

(** ** Hexadecimal *)
Definition hex_nibble (b : byte) : SRes Z :=
  let v := byte_val b in
  if (48 <=? v) && (v <=? 57) then Ok (v - 48)
  else if (97 <=? v) && (v <=? 102) then Ok (v - 97 + 10)
  else if (65 <=? v) && (v <=? 70) then Ok (v - 65 + 10)
  else Err (IntegrityCheckFailed ("invalid hex character: 0x" +:+ fmt_02x b)).

(** The loop over [chunks_exact(2)]. *)
Fixpoint hex_pairs (bs : list byte) : SRes (list byte) :=
  match bs with
  | b1 :: b2 :: bs =>
      hi ← hex_nibble b1;
      lo ← hex_nibble b2;
      out ← hex_pairs bs;
      Ok (byte_of (Z.lor (Z.shiftl hi 4) lo) :: out)
  | _ => Ok []
  end.

Definition hex_decode (s : string) : SRes (list byte) :=
  let bs := String.list_byte_of_string s in
  _ ← throw_if (negb (Z.of_nat (length bs) mod 2 =? 0))
        (IntegrityCheckFailed ("hex string has odd length: " +:+ fmt (Z.of_nat (length bs))
                               +:+ " chars"));
  hex_pairs bs.

(** [to_lowercase] on ASCII text (the caller has decoded it as hexadecimal). *)
Definition lower_byte (b : byte) : byte :=
  if (65 <=? byte_val b) && (byte_val b <=? 90) then byte_of (byte_val b + 32) else b.
Definition to_lowercase (s : string) : string :=
  String.string_of_list_byte (map lower_byte (String.list_byte_of_string s)).

(** ** Columns *)

(** [u64 as i64] at the binding of a statement and [i64 as u64] on load. *)
Definition as_i64 (z : Z) : Z := to_signed 64 (wrap 64 z).
Definition as_u64 (z : Z) : Z := wrap 64 z.

Record RowRaw := MkRow {
  col_rule_id : string;
  col_user_pubkey : string;
  col_executor_pubkey : string;
  col_delegated_wallet_pubkey : string;
  col_canonical_rule_hash : string;
  col_canonical_rule_bytes_hex : string;
  col_rule_json : string;
  col_action_type : string;
  col_condition_logic : string;
  col_status : string;
  col_max_input_amount_raw : Z;
  col_used_amount_raw : Z;
  col_destination_pubkey : string;
  col_expires_at_slot : Z;
  col_created_at_slot : Z;
  col_last_checked_slot : option Z;
  col_last_successful_tick_at_ms : option Z;
  col_last_error : option string;
  col_execution_nonce : Z;
  col_completed : Z;
  col_revoked : Z;
  col_created_at_ms : Z;
  col_updated_at_ms : Z
}.

(** The columns a statement may set; the others are fixed at insertion. *)
Definition with_state (r : RowRaw) (status : string) (used : Z) (checked tick : option Z)
    (error : option string) (nonce completed revoked updated : Z) : RowRaw :=
  MkRow (col_rule_id r) (col_user_pubkey r) (col_executor_pubkey r)
    (col_delegated_wallet_pubkey r) (col_canonical_rule_hash r)
    (col_canonical_rule_bytes_hex r) (col_rule_json r) (col_action_type r)
    (col_condition_logic r) status (col_max_input_amount_raw r) used
    (col_destination_pubkey r) (col_expires_at_slot r) (col_created_at_slot r)
    checked tick error nonce completed revoked (col_created_at_ms r) updated.

Definition set_status (r : RowRaw) (status : string) (now : Z) : RowRaw :=
  with_state r status (col_used_amount_raw r) (col_last_checked_slot r)
    (col_last_successful_tick_at_ms r) (col_last_error r) (col_execution_nonce r)
    (col_completed r) (col_revoked r) now.

Record StoredWatchRule := MkStored {
  st_rule : WatchRule;
  st_canonical_rule_hash : list byte;
  st_canonical_rule_bytes : list byte;
  st_status : WatchRuleStatus;
  st_action_type : WatchRuleActionType;
  st_condition_logic : ConditionLogic;
  st_last_checked_slot : option Z;
  st_last_successful_tick_at_ms : option Z;
  st_last_error : option string;
  st_execution_nonce : Z;
  st_completed : bool;
  st_revoked : bool;
  st_created_at_ms : Z;
  st_updated_at_ms : Z
}.

Definition condition_logic_str (c : ConditionLogic) : string :=
  match c with All => "all" | Any => "any" end.

Definition parse_condition_logic (s : string) : SRes ConditionLogic :=
  if bool_decide (s = "all") then Ok All
  else if bool_decide (s = "any") then Ok Any
  else Err (IntegrityCheckFailed ("unknown condition_logic '" +:+ s +:+ "'")).

Definition parse_action_type (s : string) : SRes WatchRuleActionType :=
  if bool_decide (s = "solend_withdraw_all_delegated") then Ok TypeSolendWithdrawAllDelegated
  else if bool_decide (s = "jupiter_buy_sol_with_usdc") then Ok TypeJupiterBuySolWithUsdc
  else Err (IntegrityCheckFailed ("unknown action_type '" +:+ s +:+ "'")).

Section store.
Context `{Crates}.

Definition row_to_stored (row : RowRaw) : SRes StoredWatchRule :=
  _ ← hex_decode (col_rule_id row);
  hash_vec ← hex_decode (col_canonical_rule_hash row);
  _ ← throw_if (negb (length hash_vec =? 32)%nat)
        (IntegrityCheckFailed ("canonical_rule_hash must decode to 32 bytes, got " +:+
                               fmt (Z.of_nat (length hash_vec))));
  bytes ← hex_decode (col_canonical_rule_bytes_hex row);
  rule ← map_err Serialization (serde_from_str (col_rule_json row));
  let recomputed := canonical_rule_hash rule in
  _ ← throw_if (bool_decide (recomputed ≠ hash_vec))
        (IntegrityCheckFailed ("canonical hash mismatch for rule_id " +:+ col_rule_id row +:+
           ": stored=" +:+ hex_encode hash_vec +:+ " recomputed=" +:+ hex_encode recomputed));
  let stored_id_lower := to_lowercase (col_rule_id row) in
  let rule_id_lower := hex_encode (wr_rule_id rule) in
  _ ← throw_if (bool_decide (stored_id_lower ≠ rule_id_lower))
        (IntegrityCheckFailed ("rule_id mismatch: column=" +:+ stored_id_lower +:+
           " json=" +:+ rule_id_lower));
  status ← ok_or (parse_status (col_status row))
             (IntegrityCheckFailed ("unknown status '" +:+ col_status row +:+ "'"));
  action_type ← parse_action_type (col_action_type row);
  condition_logic ← parse_condition_logic (col_condition_logic row);
  Ok (MkStored rule hash_vec bytes status action_type condition_logic
        (as_u64 <$> col_last_checked_slot row) (col_last_successful_tick_at_ms row)
        (col_last_error row) (as_u64 (col_execution_nonce row))
        (negb (col_completed row =? 0)) (negb (col_revoked row =? 0))
        (col_created_at_ms row) (col_updated_at_ms row)).

(** ** The table *)
Notation Table := (gmap string RowRaw).

(** [ORDER BY created_at_ms ASC] *)
Class Sqlite := order_by_created_at : list RowRaw → list RowRaw.
Class SqliteLaws `{Sqlite} : Prop := {
  order_by_perm rows : order_by_created_at rows ≡ₚ rows;
  order_by_sorted rows :
    StronglySorted (λ a b, col_created_at_ms a ≤ col_created_at_ms b) (order_by_created_at rows)
}.
Context `{Sqlite}.

Definition select (p : RowRaw → bool) (t : Table) : list RowRaw :=
  order_by_created_at (List.filter p (map snd (map_to_list t))).

(** [status NOT IN ('completed', 'expired', 'revoked', 'failed')] *)
Definition not_terminal_status (s : string) : bool :=
  negb (bool_decide (s = "completed") || bool_decide (s = "expired") ||
        bool_decide (s = "revoked") || bool_decide (s = "failed")).

Definition pending_row (r : RowRaw) : bool :=
  (col_completed r =? 0) && (col_revoked r =? 0) && not_terminal_status (col_status r).

(** [rows.into_iter().map(row_to_stored).collect()] *)
Fixpoint collect (rows : list RowRaw) : SRes (list StoredWatchRule) :=
  match rows with
  | [] => Ok []
  | r :: rows => s ← row_to_stored r; l ← collect rows; Ok (s :: l)
  end.

(** *** Reads *)
Definition get (rule_id : list byte) (t : Table) : SRes (option StoredWatchRule) :=
  match t !! hex_encode rule_id with
  | None => Ok None
  | Some row => s ← row_to_stored row; Ok (Some s)
  end.

Definition list_active (current_slot : Z) (t : Table) : SRes (list StoredWatchRule) :=
  collect (select (λ r, (as_i64 current_slot <? col_expires_at_slot r) && pending_row r) t).

Definition list_active_limit (current_slot limit : Z) (t : Table) :
    SRes (list StoredWatchRule) :=
  if limit =? 0 then Ok [] else
  collect (take (Z.to_nat limit)
    (select (λ r, (as_i64 current_slot <? col_expires_at_slot r) && pending_row r) t)).

Definition list_pending_lifecycle_limit (limit : Z) (t : Table) :
    SRes (list StoredWatchRule) :=
  if limit =? 0 then Ok [] else collect (take (Z.to_nat limit) (select pending_row t)).

Definition list_by_user (user_pubkey : string) (t : Table) : SRes (list StoredWatchRule) :=
  collect (select (λ r, bool_decide (col_user_pubkey r = user_pubkey)) t).

(** *** Insertion *)
Definition inserted_row (rule : WatchRule) (json : string) (now : Z) : RowRaw :=
  MkRow (hex_encode (wr_rule_id rule)) (base58 (wr_user rule)) (base58 (wr_executor rule))
    (base58 (wr_delegated_wallet rule)) (hex_encode (canonical_rule_hash rule))
    (hex_encode (canonical_rule_bytes rule)) json (label (action_type (wr_action rule)))
    (condition_logic_str (wr_condition_logic rule)) (as_str Active)
    (as_i64 (wr_max_input_amount_raw rule)) (as_i64 (wr_used_amount_raw rule))
    (base58 (wr_destination rule)) (as_i64 (wr_expires_at_slot rule))
    (as_i64 (wr_created_at_slot rule)) None None None 0 0 0 now now.

Definition insert_rule (rule : WatchRule) (now : Z) (t : Table) : SRes unit * Table :=
  match serde_to_string rule with
  | Err m => (Err (Serialization m), t)
  | Ok json =>
      let row := inserted_row rule json now in
      match t !! col_rule_id row with
      | Some _ => (Err (Sqlx "UNIQUE constraint failed: stage2_watch_rules.rule_id"), t)
      | None => (Ok tt, <[col_rule_id row := row]> t)
      end
  end.

(** *** Updates *)

(** [UPDATE .. SET f WHERE rule_id = id AND p]: the number of rows changed. *)
Definition update_where (rule_id : list byte) (p : RowRaw → bool) (f : RowRaw → RowRaw)
    (t : Table) : Z * Table :=
  match t !! hex_encode rule_id with
  | Some r => if p r then (1, <[hex_encode rule_id := f r]> t) else (0, t)
  | None => (0, t)
  end.

Definition status_in (ss : list WatchRuleStatus) (r : RowRaw) : bool :=
  existsb (λ s, bool_decide (col_status r = as_str s)) ss.
Definition any_row (r : RowRaw) : bool := true.

Definition mark_checked (id : list byte) (slot ts_ms now : Z) : Table → Z * Table :=
  update_where id any_row (λ r, with_state r (col_status r) (col_used_amount_raw r)
    (Some (as_i64 slot)) (Some ts_ms) (col_last_error r) (col_execution_nonce r)
    (col_completed r) (col_revoked r) now).
Definition mark_condition_met (id : list byte) (now : Z) : Table → Z * Table :=
  update_where id any_row (λ r, set_status r (as_str ConditionMet) now).
Definition mark_condition_met_if_active (id : list byte) (now : Z) : Table → Z * Table :=
  update_where id (status_in [Active]) (λ r, set_status r (as_str ConditionMet) now).
Definition mark_executing (id : list byte) (nonce now : Z) : Table → Z * Table :=
  update_where id any_row (λ r, with_state r (as_str Executing) (col_used_amount_raw r)
    (col_last_checked_slot r) (col_last_successful_tick_at_ms r) (col_last_error r)
    (as_i64 nonce) (col_completed r) (col_revoked r) now).
Definition mark_executing_if_condition_met (id : list byte) (nonce now : Z) :
    Table → Z * Table :=
  update_where id (status_in [ConditionMet]) (λ r, with_state r (as_str Executing)
    (col_used_amount_raw r) (col_last_checked_slot r) (col_last_successful_tick_at_ms r)
    (col_last_error r) (as_i64 nonce) (col_completed r) (col_revoked r) now).
Definition mark_completed (id : list byte) (used_amount slot now : Z) : Table → Z * Table :=
  update_where id any_row (λ r, with_state r (as_str Completed) (as_i64 used_amount)
    (Some (as_i64 slot)) (col_last_successful_tick_at_ms r) (col_last_error r)
    (col_execution_nonce r) 1 (col_revoked r) now).
Definition mark_failed (id : list byte) (error : string) (now : Z) : Table → Z * Table :=
  update_where id any_row (λ r, with_state r (as_str Failed) (col_used_amount_raw r)
    (col_last_checked_slot r) (col_last_successful_tick_at_ms r) (Some error)
    (col_execution_nonce r) (col_completed r) (col_revoked r) now).
Definition mark_failed_if_not_terminal (id : list byte) (error : string) (now : Z) :
    Table → Z * Table :=
  update_where id (status_in [Active; ConditionMet]) (λ r, with_state r (as_str Failed)
    (col_used_amount_raw r) (col_last_checked_slot r) (col_last_successful_tick_at_ms r)
    (Some error) (col_execution_nonce r) (col_completed r) (col_revoked r) now).
Definition record_last_error (id : list byte) (error : string) (now : Z) : Table → Z * Table :=
  update_where id any_row (λ r, with_state r (col_status r) (col_used_amount_raw r)
    (col_last_checked_slot r) (col_last_successful_tick_at_ms r) (Some error)
    (col_execution_nonce r) (col_completed r) (col_revoked r) now).
Definition mark_expired (id : list byte) (now : Z) : Table → Z * Table :=
  update_where id any_row (λ r, set_status r (as_str StatusExpired) now).
Definition mark_expired_if_not_terminal (id : list byte) (now : Z) : Table → Z * Table :=
  update_where id (status_in [Active; ConditionMet])
    (λ r, set_status r (as_str StatusExpired) now).
Definition mark_revoked (id : list byte) (now : Z) : Table → Z * Table :=
  update_where id any_row (λ r, with_state r (as_str Revoked) (col_used_amount_raw r)
    (col_last_checked_slot r) (col_last_successful_tick_at_ms r) (col_last_error r)
    (col_execution_nonce r) (col_completed r) 1 now).
Definition update_health_tick (id : list byte) (ts_ms now : Z) : Table → Z * Table :=
  update_where id any_row (λ r, with_state r (col_status r) (col_used_amount_raw r)
    (col_last_checked_slot r) (Some ts_ms) (col_last_error r) (col_execution_nonce r)
    (col_completed r) (col_revoked r) now).
End store.
Notation Table := (gmap string RowRaw).

(** ** Lemmas *)

(** Encoded text decodes to the bytes. *)
Lemma hex_byte b :
  ∃ b1 b2 hi lo, fmt_02x b = String.string_of_list_byte [b1; b2] ∧
    hex_nibble b1 = Ok hi ∧ hex_nibble b2 = Ok lo ∧
    byte_of (Z.lor (Z.shiftl hi 4) lo) = b ∧ lower_byte b1 = b1 ∧ lower_byte b2 = b2.
Proof.
  exists (Ascii.byte_of_ascii (hex_digit (byte_val b / 16))),
    (Ascii.byte_of_ascii (hex_digit (byte_val b mod 16))),
    (byte_val b / 16), (byte_val b mod 16).
  destruct b; vm_compute; by repeat split.
Qed.

Lemma list_byte_of_app s1 s2 :
  String.list_byte_of_string (s1 +:+ s2) =
  (String.list_byte_of_string s1 ++ String.list_byte_of_string s2)%list.
Proof.
  unfold String.list_byte_of_string. induction s1 as [|c s1 IH]; [done|]. simpl in *.
  by rewrite IH.
Qed.

Lemma hex_encode_bytes bs :
  let s := String.list_byte_of_string (hex_encode bs) in
  length s = (2 * length bs)%nat ∧ hex_pairs s = Ok bs ∧ map lower_byte s = s.
Proof.
  induction bs as [|b bs (Hlen & Hpairs & Hlow)]; [done|]. cbn [hex_encode].
  rewrite list_byte_of_app.
  destruct (hex_byte b) as (b1 & b2 & hi & lo & -> & H1 & H2 & Hb & Hl1 & Hl2).
  rewrite String.list_byte_of_string_of_list_byte. cbn [app length hex_pairs map].
  rewrite H1. cbn [mbind result_bind]. rewrite H2. cbn [mbind result_bind].
  rewrite Hpairs. cbn [mbind result_bind]. rewrite Hb, Hl1, Hl2, Hlow.
  split_and!; [lia|done..].
Qed.

Lemma hex_decode_encode bs : hex_decode (hex_encode bs) = Ok bs.
Proof.
  destruct (hex_encode_bytes bs) as (Hlen & Hpairs & _). unfold hex_decode.
  rewrite throw_if_false, Hpairs; [done|]. rewrite Hlen. apply negb_false_iff, Z.eqb_eq.
  rewrite Nat2Z.inj_mul, Z.mul_comm. by apply Z.mod_mul.
Qed.

Lemma hex_encode_inj bs1 bs2 : hex_encode bs1 = hex_encode bs2 → bs1 = bs2.
Proof.
  intros E. pose proof (hex_decode_encode bs1) as H. rewrite E, hex_decode_encode in H.
  by injection H.
Qed.

Lemma to_lowercase_hex bs : to_lowercase (hex_encode bs) = hex_encode bs.
Proof.
  unfold to_lowercase. destruct (hex_encode_bytes bs) as (_ & _ & ->).
  apply String.string_of_list_byte_of_string.
Qed.

Lemma parse_as_str s : parse_status (as_str s) = Some s.
Proof. by destruct s. Qed.
Lemma as_str_inj s1 s2 : as_str s1 = as_str s2 → s1 = s2.
Proof. by destruct s1, s2. Qed.
Lemma parse_status_Some str s : parse_status str = Some s → str = as_str s.
Proof. unfold parse_status. repeat case_bool_decide; naive_solver. Qed.

Lemma as_u64_i64 z : is_u 64 z → as_u64 (as_i64 z) = z.
Proof.
  intros Hz. unfold as_u64, as_i64. rewrite wrap_to_signed by (lia || by apply wrap_is_u).
  by apply wrap_small.
Qed.

Lemma status_in_spec ss r s :
  col_status r = as_str s → status_in ss r = true ↔ s ∈ ss.
Proof.
  intros Hs. unfold status_in. rewrite existsb_exists. setoid_rewrite bool_decide_eq_true.
  setoid_rewrite <- list_elem_of_In. rewrite Hs. split.
  - intros (s' & Hin & E%as_str_inj). by subst.
  - intros Hin. by exists s.
Qed.

Section facts.
Context `{!Crates, !CratesLaws, !Sqlite, !SqliteLaws}.

(** What a row that loads says: its rule hashes to the stored hash and carries
    the row's key. *)
Lemma row_to_stored_Ok row s : row_to_stored row = Ok s →
  st_canonical_rule_hash s = canonical_rule_hash (st_rule s) ∧
  to_lowercase (col_rule_id row) = hex_encode (wr_rule_id (st_rule s)) ∧
  col_status row = as_str (st_status s) ∧
  serde_from_str (col_rule_json row) = Ok (st_rule s) ∧
  hex_decode (col_canonical_rule_bytes_hex row) = Ok (st_canonical_rule_bytes s) ∧
  st_execution_nonce s = as_u64 (col_execution_nonce row) ∧
  st_completed s = negb (col_completed row =? 0) ∧ st_revoked s = negb (col_revoked row =? 0).
Proof.
  unfold row_to_stored. intros Hrow. inv_ok Hrow. b2p. simpl.
  rename select (parse_status _ = _) into Hst. apply parse_status_Some in Hst. by split_and!.
Qed.

(** The columns an update may set do not make a row unreadable. *)
Lemma row_to_stored_with_state row s st used checked tick error nonce completed revoked now :
  row_to_stored row = Ok s →
  row_to_stored
    (with_state row (as_str st) used checked tick error nonce completed revoked now) =
  Ok (MkStored (st_rule s) (st_canonical_rule_hash s) (st_canonical_rule_bytes s) st
        (st_action_type s) (st_condition_logic s) (as_u64 <$> checked) tick error (as_u64 nonce)
        (negb (completed =? 0)) (negb (revoked =? 0)) (st_created_at_ms s) now).
Proof.
  intros Hs. unfold row_to_stored in Hs. inv_ok Hs. unfold row_to_stored, with_state. simpl.
  repeat match goal with H : ?f ?x = Ok _ |- _ => rewrite H; clear H; cbn [mbind result_bind map_err] end.
  repeat match goal with H : ?b = false |- _ => rewrite (throw_if_false b) by done; clear H;
    cbn [mbind result_bind map_err] end.
  by rewrite parse_as_str.
Qed.

Lemma collect_Ok rows l :
  collect rows = Ok l ↔ Forall2 (λ r s, row_to_stored r = Ok s) rows l.
Proof.
  revert l. induction rows as [|r rows IH]; intros l; simpl.
  - split; [by intros [= <-]; constructor|by intros ->%Forall2_nil_inv_l].
  - split.
    + intros (s & Hs & (l' & Hl%IH & [= <-])%bind_Ok)%bind_Ok. by constructor.
    + intros (s & l' & Hs & Hl%IH & ->)%Forall2_cons_inv_l. rewrite Hs. simpl. by rewrite Hl.
Qed.

Lemma elem_of_select p (t : Table) r : r ∈ select p t ↔ ∃ k, t !! k = Some r ∧ p r = true.
Proof.
  unfold select. rewrite order_by_perm. rewrite list_elem_of_In, List.filter_In,
    <- list_elem_of_In, list_elem_of_fmap. split.
  - intros [([k r'] & -> & Hin%elem_of_map_to_list) Hp]. eauto.
  - intros (k & Hk%elem_of_map_to_list & Hp). split; [|done]. by exists (k, r).
Qed.

(** The row an insertion writes loads back as the rule. *)
Lemma inserted_row_loads rule json now :
  well_typed rule → serde_to_string rule = Ok json → serde_from_str json = Ok rule →
  row_to_stored (inserted_row rule json now) =
    Ok (MkStored rule (canonical_rule_hash rule) (canonical_rule_bytes rule) Active
          (action_type (wr_action rule)) (wr_condition_logic rule) None None None 0 false false
          now now).
Proof.
  intros Hrule Hto Hfrom. unfold row_to_stored, inserted_row. cbn [col_rule_id
    col_canonical_rule_hash col_canonical_rule_bytes_hex col_rule_json col_status
    col_action_type col_condition_logic col_last_checked_slot col_last_successful_tick_at_ms
    col_last_error col_execution_nonce col_completed col_revoked col_created_at_ms
    col_updated_at_ms].
  rewrite !hex_decode_encode, Hfrom. cbn [mbind result_bind map_err].
  rewrite throw_if_false by (by unfold canonical_rule_hash; rewrite sha256_length).
  rewrite throw_if_false by (by rewrite bool_decide_eq_false; intros []).
  rewrite throw_if_false by (rewrite to_lowercase_hex, bool_decide_eq_false; by intros []).
  by destruct (wr_action rule), (wr_condition_logic rule).
Qed.
End facts.
