(* ===== verification/RustText.v ===== *)
(** * Rust's text functions on byte strings

    A [str] is its bytes; a [char] is taken out of them by UTF-8 decoding.  These
    are the functions of the standard library that the funding and chat code
    uses: validation, trimming, splitting at white space, searching, and parsing
    of unsigned integers; then JSON values as the crates provide them, and what
    decimal digits mean. *)
From S2P Require Import Prelude WatcherBase RuleStore.
#[local] Open Scope string_scope.
#[local] Open Scope Z_scope.

Notation str_bytes s := (String.list_byte_of_string s).
Notation bytes_str l := (String.string_of_list_byte l).

(** ** UTF-8 *)

(** A character: its scalar value and its bytes; [-1] marks a byte that starts no
    character. *)
Definition Char : Type := Z * list byte.

Definition between (a b : Z) (x : byte) : bool := (a <=? byte_val x) && (byte_val x <=? b).
Definition cont : byte → bool := between 128 191.
(** The value of the low six bits. *)
Definition low6 (x : byte) : Z := byte_val x mod 64.

(** The admissible second byte after a leading one (Unicode, table 3-7). *)
Definition second3 (b x : byte) : bool :=
  if byte_val b =? 224 then between 160 191 x
  else if byte_val b =? 237 then between 128 159 x else cont x.
Definition second4 (b x : byte) : bool :=
  if byte_val b =? 240 then between 144 191 x
  else if byte_val b =? 244 then between 128 143 x else cont x.

Fixpoint chars (l : list byte) : list Char :=
  match l with
  | [] => []
  | b :: l1 =>
      if byte_val b <? 128 then (byte_val b, [b]) :: chars l1 else
      match l1 with
      | [] => [(-1, [b])]
      | x :: l2 =>
          if between 194 223 b && cont x
          then ((byte_val b - 192) * 64 + low6 x, [b; x]) :: chars l2 else
          match l2 with
          | [] => (-1, [b]) :: chars l1
          | y :: l3 =>
              if between 224 239 b && second3 b x && cont y
              then (((byte_val b - 224) * 64 + low6 x) * 64 + low6 y, [b; x; y]) :: chars l3 else
              match l3 with
              | [] => (-1, [b]) :: chars l1
              | z :: l4 =>
                  if between 240 244 b && second4 b x && cont y && cont z
                  then ((((byte_val b - 240) * 64 + low6 x) * 64 + low6 y) * 64 + low6 z,
                        [b; x; y; z]) :: chars l4
                  else (-1, [b]) :: chars l1
              end
          end
      end
  end.

Definition utf8_valid (l : list byte) : bool := forallb (λ c, 0 <=? c.1) (chars l).

(** [std::str::from_utf8] *)
Definition from_utf8 (l : list byte) : option string :=
  if utf8_valid l then Some (bytes_str l) else None.

(** [char::is_whitespace] *)
Definition is_whitespace (c : Char) : bool :=
  let u := c.1 in
  ((9 <=? u) && (u <=? 13)) || existsb (Z.eqb u) [32; 133; 160; 5760; 8232; 8233; 8239; 8287; 12288]
  || ((8192 <=? u) && (u <=? 8202)).

(** [str::trim] *)
Fixpoint trim_start_chars (cs : list Char) : list Char :=
  match cs with
  | c :: cs' => if is_whitespace c then trim_start_chars cs' else cs
  | [] => []
  end.
Definition trim_chars (cs : list Char) : list Char :=
  rev (trim_start_chars (rev (trim_start_chars cs))).
Definition join_chars (cs : list Char) : list byte := mjoin (map snd cs).
Definition trim (l : list byte) : list byte := join_chars (trim_chars (chars l)).

(** [s.trim().is_empty()] *)
Definition is_blank (s : string) : bool := forallb is_whitespace (chars (str_bytes s)).

(** [str::split_whitespace]: the maximal runs of other characters, in order. *)
Fixpoint split_chars (cs : list Char) (token : list byte) : list (list byte) :=
  let flush rest := match token with [] => rest | _ => token :: rest end in
  match cs with
  | [] => flush []
  | c :: cs => if is_whitespace c then flush (split_chars cs []) else split_chars cs (token ++ c.2)
  end.
Definition split_whitespace (l : list byte) : list (list byte) := split_chars (chars l) [].

(** ** ASCII *)
Definition to_ascii_lowercase (l : list byte) : list byte := map lower_byte l.
Definition is_ascii_hexdigit (b : byte) : bool :=
  between 48 57 b || between 65 70 b || between 97 102 b.
Definition eq_ignore_ascii_case (a b : string) : bool :=
  bool_decide (to_ascii_lowercase (str_bytes a) = to_ascii_lowercase (str_bytes b)).

(** ** Searching *)
Fixpoint starts_with (pat l : list byte) : bool :=
  match pat, l with
  | [], _ => true
  | p :: pat, x :: l => bool_decide (p = x) && starts_with pat l
  | _, _ => false
  end.
(** [str::find] of a string: the byte offset of its first occurrence. *)
Fixpoint find_from (pat l : list byte) (i : nat) : option nat :=
  if starts_with pat l then Some i
  else match l with [] => None | _ :: l => find_from pat l (S i) end.
Definition find_str (pat l : list byte) : option nat := find_from pat l 0.
Definition contains_str (pat l : list byte) : bool :=
  match find_str pat l with Some _ => true | None => false end.

(** [s.is_char_boundary(i)] *)
Definition is_char_boundary (l : list byte) (i : nat) : bool :=
  if (i =? length l)%nat then true
  else match l !! i with Some b => negb (cont b) | None => false end.

(** [str::split] at an ASCII character. *)
Fixpoint split_on (sep : byte) (piece l : list byte) : list (list byte) :=
  match l with
  | [] => [piece]
  | b :: l => if bool_decide (b = sep) then piece :: split_on sep [] l
              else split_on sep (piece ++ [b]) l
  end.
Definition split_at_dots (l : list byte) : list (list byte) := split_on Byte.x2e [] l.

(** [while s.ends_with(' ') { s.pop(); }] *)
Fixpoint drop_spaces (l : list byte) : list byte :=
  match l with Byte.x20 :: l => drop_spaces l | _ => l end.
Definition pop_spaces (l : list byte) : list byte := rev (drop_spaces (rev l)).

(** The words joined by single spaces: [split_whitespace().collect().join] *)
Fixpoint join_words (ws : list (list byte)) : list byte :=
  match ws with
  | [] => []
  | [w] => w
  | w :: ws => w ++ Byte.x20 :: join_words ws
  end.

Definition is_ascii_digit (b : byte) : bool := between 48 57 b.

(** ** Numbers *)
Inductive IntErrorKind := EmptyInteger | InvalidDigit | PosOverflow.
Definition show_parse_int_error (e : IntErrorKind) : string :=
  match e with
  | EmptyInteger => "cannot parse integer from empty string"
  | InvalidDigit => "invalid digit found in string"
  | PosOverflow => "number too large to fit in target type"
  end.

Definition to_digit (radix : Z) (b : byte) : option Z :=
  let d := if between 48 57 b then byte_val b - 48
           else if between 97 122 b then byte_val b - 87
           else if between 65 90 b then byte_val b - 55 else radix in
  if d <? radix then Some d else None.

Fixpoint parse_digits (w radix acc : Z) (l : list byte) : Result IntErrorKind Z :=
  match l with
  | [] => Ok acc
  | b :: l =>
      d ← ok_or (to_digit radix b) InvalidDigit;
      m ← ok_or (checked_u w (acc * radix)) PosOverflow;
      r ← ok_or (checked_u w (m + d)) PosOverflow;
      parse_digits w radix r l
  end.

(** [from_str_radix] of an unsigned type; [str::parse] is radix ten. *)
Definition from_str_radix (w radix : Z) (l : list byte) : Result IntErrorKind Z :=
  match l with
  | [] => Err EmptyInteger
  | b :: l' =>
      if byte_val b =? 43
      then match l' with [] => Err InvalidDigit | _ => parse_digits w radix 0 l' end
      else parse_digits w radix 0 l
  end.
Definition parse_u32 (l : list byte) : Result IntErrorKind Z := from_str_radix 32 10 l.
Definition parse_u64 (s : string) : Result IntErrorKind Z := from_str_radix 64 10 (str_bytes s).

(** [{:?}] of a text: its escapes follow Unicode tables, which stay a parameter. *)
Class DebugText := debug_str : list byte → string.

(** ** Facts *)
Lemma str_bytes_app a b : str_bytes (a +:+ b) = (str_bytes a ++ str_bytes b)%list.
Proof. apply list_byte_of_app. Qed.

Lemma str_bytes_inj a b : str_bytes a = str_bytes b → a = b.
Proof.
  intros H. rewrite <- (String.string_of_list_byte_of_string a), H.
  apply String.string_of_list_byte_of_string.
Qed.

Definition is_ascii (l : list byte) : Prop := Forall (λ b, byte_val b < 128) l.

Lemma chars_ascii_app l l' : is_ascii l →
  chars (l ++ l') = (map (λ b, (byte_val b, [b])) l ++ chars l')%list.
Proof.
  induction 1 as [|b l Hb _ IH]; [done|]. cbn [app chars map].
  rewrite (proj2 (Z.ltb_lt _ _) Hb), IH. done.
Qed.

Lemma utf8_valid_ascii l : is_ascii l → utf8_valid l = true.
Proof.
  intros Hl. unfold utf8_valid. rewrite <- (app_nil_r l), chars_ascii_app, app_nil_r by done.
  apply forallb_forall. intros c Hc. apply in_map_iff in Hc as (b & <- & _).
  apply Z.leb_le. apply (byte_val_range b).
Qed.

Lemma starts_with_spec pat l : starts_with pat l = true ↔ ∃ rest, l = (pat ++ rest)%list.
Proof.
  revert l. induction pat as [|p pat IH]; intros l; cbn; [by split; eauto|].
  destruct l as [|x l]; [by split; [|intros [rest ?]]|]. rewrite andb_true_iff, bool_decide_eq_true, IH.
  split; [intros [-> [rest ->]]; by exists rest|intros [rest [= -> ->]]; eauto].
Qed.

(** The first occurrence. *)
Lemma find_str_first pat a b :
  (∀ a1 a2, a = (a1 ++ a2)%list → a2 ≠ [] → starts_with pat (a2 ++ pat ++ b) = false) →
  find_str pat (a ++ pat ++ b) = Some (length a).
Proof.
  unfold find_str. change (length a) with (0 + length a)%nat. generalize 0%nat as i.
  induction a as [|x a IH]; intros i Hno.
  - cbn [app]. assert (starts_with pat (pat ++ b) = true) as Hs
      by (apply starts_with_spec; eauto).
    destruct (pat ++ b)%list eqn:Hp; cbn [find_from]; rewrite Hs; by rewrite Nat.add_0_r.
  - assert (starts_with pat (x :: a ++ pat ++ b) = false) as Hx by by apply (Hno [] (x :: a)).
    cbn [app find_from length]. rewrite Hx.
    rewrite IH; [by rewrite <- Nat.add_succ_comm|]. intros a1 a2 -> Hne.
    by apply (Hno (x :: a1)).
Qed.

(** Parsing accepts exactly what fits. *)
Lemma parse_digits_range w radix acc l z :
  is_u w acc → parse_digits w radix acc l = Ok z → is_u w z.
Proof.
  revert acc. induction l as [|b l IH]; intros acc Ha Hz; cbn [parse_digits] in Hz.
  { by injection Hz as <-. }
  inv_ok Hz. b2p. eapply IH; [|done].
  match goal with H : checked_u w _ = Some ?r |- is_u w ?r => apply checked_u_Some in H as [-> ?] end.
  done.
Qed.

Lemma parse_u64_range s z : parse_u64 s = Ok z → is_u 64 z.
Proof.
  unfold parse_u64, from_str_radix. destruct (str_bytes s) as [|b l]; [done|].
  assert (is_u 64 0) by (unfold is_u; lia).
  destruct (byte_val b =? 43); [destruct l; [done|]|]; by apply parse_digits_range.
Qed.

(** * JSON values

    What the crates serde_json and bs58 provide to the parsers of RPC and REST
    answers: reading a value and printing it. *)

Class Json := {
  json : Type;
  json_get : string → json → option json;
  json_as_u64 : json → option Z;
  json_as_str : json → option string;
  json_as_array : json → option (list json);
  json_is_null : json → bool;
  json_to_string : json → Result string string;
  json_display : json → string;
  bs58_decode : string → Result string (list byte)
}.

Section values.
Context `{Json}.

(** [v.get(..).and_then(|v| v.get(..))], also what [v[..][..]] reads when it is not
    null. *)
Definition json_path (path : list string) (v : json) : option json :=
  foldl (λ o field, o ≫= json_get field) (Some v) path.

(** The strings of an array; other values are passed over. *)
Definition strings_of (o : option json) : list string :=
  match o ≫= json_as_array with
  | Some arr => omap json_as_str arr
  | None => []
  end.
End values.

(** * Decimal numbers in text

    What the parsers of unsigned integers read and what printing writes, against
    the value of a list of digits. *)

(** The value of digits, most significant first, after [acc]. *)
Definition dec_value (acc : Z) (l : list byte) : Z :=
  foldl (λ a b, a * 10 + (byte_val b - 48)) acc l.
Definition all_digits (l : list byte) : bool := forallb is_ascii_digit l.

Lemma digit_range b : is_ascii_digit b = true → 0 ≤ byte_val b - 48 < 10.
Proof. unfold is_ascii_digit, between. b2p. lia. Qed.

Lemma to_digit_decimal b :
  to_digit 10 b = if is_ascii_digit b then Some (byte_val b - 48) else None.
Proof. by destruct b. Qed.

Lemma dec_value_app acc l1 l2 : dec_value acc (l1 ++ l2) = dec_value (dec_value acc l1) l2.
Proof. apply foldl_app. Qed.

Lemma dec_value_shift acc l : dec_value acc l = acc * 10 ^ Z.of_nat (length l) + dec_value 0 l.
Proof.
  revert acc. induction l as [|b l IH]; intros acc; [cbn; lia|].
  unfold dec_value in *. cbn [foldl length]. rewrite IH, (IH (0 * 10 + _)).
  rewrite Nat2Z.inj_succ, Z.pow_succ_r by lia. lia.
Qed.

Lemma dec_value_bounds l : all_digits l = true → 0 ≤ dec_value 0 l < 10 ^ Z.of_nat (length l).
Proof.
  induction l as [|b l IH]; [cbn; lia|]. cbn [all_digits forallb]. intros [Hb Hl]%andb_true_iff.
  apply digit_range in Hb. specialize (IH Hl).
  change (dec_value 0 (b :: l)) with (dec_value (0 * 10 + (byte_val b - 48)) l).
  rewrite dec_value_shift. cbn [length]. rewrite Nat2Z.inj_succ, Z.pow_succ_r by lia. nia.
Qed.

Lemma dec_value_ge acc l : 0 ≤ acc → all_digits l = true → acc ≤ dec_value acc l.
Proof.
  intros Ha Hl. rewrite dec_value_shift. pose proof (dec_value_bounds l Hl).
  assert (0 < 10 ^ Z.of_nat (length l)) by (apply Z.pow_pos_nonneg; lia). nia.
Qed.

(** A parser of width [w] reads exactly the digits whose value fits. *)
Lemma parse_digits_spec w acc l z : is_u w acc →
  parse_digits w 10 acc l = Ok z ↔ all_digits l = true ∧ z = dec_value acc l ∧ is_u w z.
Proof.
  revert acc. induction l as [|b l IH]; intros acc Ha; cbn [parse_digits].
  { cbn. naive_solver. }
  rewrite to_digit_decimal. cbn [all_digits forallb].
  change (dec_value acc (b :: l)) with (dec_value (acc * 10 + (byte_val b - 48)) l).
  destruct (is_ascii_digit b) eqn:Hb; cbn [ok_or mbind result_bind andb]; [|naive_solver].
  apply digit_range in Hb.
  destruct (checked_u w (acc * 10)) as [m|] eqn:Hm; cbn [ok_or mbind result_bind].
  - apply checked_u_Some in Hm as [-> Hm].
    destruct (checked_u w (acc * 10 + _)) as [r|] eqn:Hr; cbn [ok_or mbind result_bind].
    + apply checked_u_Some in Hr as [-> Hr]. by apply IH.
    + split; [done|]. intros (Hl & -> & Hz). rewrite checked_u_ok in Hr; [done|].
      pose proof (dec_value_ge (acc * 10 + (byte_val b - 48)) l). unfold is_u in *.
      specialize (H ltac:(lia) Hl). lia.
  - split; [done|]. intros (Hl & -> & Hz). rewrite checked_u_ok in Hm; [done|].
    pose proof (dec_value_ge (acc * 10 + (byte_val b - 48)) l). unfold is_u in *.
    specialize (H ltac:(lia) Hl). lia.
Qed.

Lemma from_str_radix_digits w l z : 0 ≤ w → all_digits l = true →
  from_str_radix w 10 l = Ok z ↔ l ≠ [] ∧ z = dec_value 0 l ∧ is_u w z.
Proof.
  intros Hw Hl. unfold from_str_radix. destruct l as [|b l]; [naive_solver|].
  assert (byte_val b =? 43 = false) as ->.
  { apply andb_true_iff in Hl as [Hb _]. apply digit_range in Hb. apply Z.eqb_neq. lia. }
  rewrite parse_digits_spec.
  - naive_solver.
  - split; [lia|]. by apply Z.pow_pos_nonneg.
Qed.

Lemma from_str_radix_ok w l : 0 ≤ w → all_digits l = true → l ≠ [] →
  is_u w (dec_value 0 l) → from_str_radix w 10 l = Ok (dec_value 0 l).
Proof. intros. by apply from_str_radix_digits. Qed.

(** Padding with zeros multiplies. *)
Lemma all_digits_app l1 l2 : all_digits (l1 ++ l2) = all_digits l1 && all_digits l2.
Proof. apply forallb_app. Qed.

Lemma all_digits_zeros n : all_digits (replicate n Byte.x30) = true.
Proof. by induction n. Qed.

Lemma dec_value_zeros acc n : dec_value acc (replicate n Byte.x30) = acc * 10 ^ Z.of_nat n.
Proof.
  rewrite dec_value_shift, length_replicate.
  assert (dec_value 0 (replicate n Byte.x30) = 0) as ->; [|lia].
  induction n as [|n IH]; [done|]. exact IH.
Qed.

(** ** Printing *)
Lemma pretty_N_char_digit n : (n < 10)%N →
  is_ascii_digit (Ascii.byte_of_ascii (pretty_N_char n)) = true ∧
  byte_val (Ascii.byte_of_ascii (pretty_N_char n)) = 48 + Z.of_N n.
Proof.
  intros Hn. destruct n as [|p]; [done|].
  do 4 (try destruct p as [p|p|]); try done; exfalso; lia.
Qed.

Lemma str_bytes_cons c s : str_bytes (String c s) = Ascii.byte_of_ascii c :: str_bytes s.
Proof. done. Qed.

Lemma pretty_N_go_value n s : all_digits (str_bytes s) = true →
  all_digits (str_bytes (pretty_N_go n s)) = true ∧
  dec_value 0 (str_bytes (pretty_N_go n s)) = dec_value (Z.of_N n) (str_bytes s).
Proof.
  revert s. induction (N.lt_wf_0 n) as [n _ IH]. intros s Hs.
  destruct (decide (n = 0)%N) as [->|Hn]; [by rewrite pretty_N_go_0|].
  rewrite pretty_N_go_step by lia.
  destruct (pretty_N_char_digit (n mod 10)) as [Hd Hv]; [apply N.mod_lt; lia|].
  destruct (IH (n `div` 10)%N) with (s := String (pretty_N_char (n `mod` 10)%N) s) as [Ha He].
  - apply N.div_lt; lia.
  - rewrite str_bytes_cons. cbn [all_digits forallb]. by rewrite Hd.
  - split; [done|]. rewrite He, str_bytes_cons. unfold dec_value. cbn [foldl]. f_equal.
    rewrite Hv, N2Z.inj_div, N2Z.inj_mod by lia. pose proof (Z_div_mod_eq_full (Z.of_N n) 10). lia.
Qed.

Lemma fmt_digits n : 0 ≤ n →
  all_digits (str_bytes (fmt n)) = true ∧ dec_value 0 (str_bytes (fmt n)) = n ∧
  str_bytes (fmt n) ≠ [].
Proof.
  intros Hn. assert (fmt n = pretty (Z.to_N n)) as ->.
  { unfold fmt. destruct n; done. }
  assert (all_digits (str_bytes (pretty (Z.to_N n))) = true ∧
    dec_value 0 (str_bytes (pretty (Z.to_N n))) = n) as [Ha Hv].
  { unfold pretty, pretty_N. case_decide as H0; [split; [done|]; cbn; lia|].
    destruct (pretty_N_go_value (Z.to_N n) "" eq_refl) as [-> ->]. split; [done|]. cbn. lia. }
  split_and!; [done..|]. intros Hnil. rewrite Hnil in Hv. cbn in Hv. subst n. done.
Qed.

Lemma parse_fmt w n : is_u w n → 0 ≤ w → from_str_radix w 10 (str_bytes (fmt n)) = Ok n.
Proof.
  intros Hn Hw. destruct (fmt_digits n) as (Ha & Hv & Hne); [unfold is_u in *; lia|].
  rewrite <- Hv at 2. apply from_str_radix_ok; try done. by rewrite Hv.
Qed.
