(* ===== verification/Daemon.v ===== *)
(** * The daemon's interactions

    The watcher and the executor are asynchronous: between two awaits anything
    may happen.  Their handlers are therefore programs over events: a statement
    on the store, a read of the clock, the in-flight set, a call of the
    evaluator, the simulator or the execution client.  A program runs one event
    at a time; [exec_event] says what the shared state answers, [step] interleaves
    any number of programs. *)
From S2P Require Import Prelude WatchRules WatcherBase RuleStore.
From S2P Require Import Interaction.
#[local] Open Scope string_scope.
#[local] Open Scope Z_scope.

(** ** Execution client ([stage2_executor.rs]) *)
Inductive Stage2ExecutionError :=
| InvalidRequest (m : string)
| SendFailed (m : string)
| ConfirmationFailed (m : string)
| ClientInternal (m : string).

Definition show_execution_error (e : Stage2ExecutionError) : string :=
  match e with
  | InvalidRequest m => "invalid request: " +:+ m
  | SendFailed m => "send failed: " +:+ m
  | ConfirmationFailed m => "confirmation failed: " +:+ m
  | ClientInternal m => "client internal: " +:+ m
  end.

Record Stage2SolendExecutePayload := MkSolendPayload {
  sp_target_obligation : PubkeyBytes;
  sp_reserve : PubkeyBytes;
  sp_lending_market : PubkeyBytes;
  sp_liquidity_mint : PubkeyBytes;
  sp_ctoken_mint : PubkeyBytes;
  sp_pyth_oracle : PubkeyBytes;
  sp_switchboard_oracle : PubkeyBytes;
  sp_extra_oracle : option PubkeyBytes;
  sp_withdraw_mode : WithdrawMode
}.

Record Stage2ExecuteActionRequest := MkExecuteRequest {
  rq_rule_id : list byte;
  rq_canonical_rule_hash : list byte;
  rq_action_type : WatchRuleActionType;
  rq_action_type_byte : Z;
  rq_schema_version : Z;
  rq_input_amount_raw : Z;
  rq_execution_nonce : Z;
  rq_user : PubkeyBytes;
  rq_executor : PubkeyBytes;
  rq_delegated_wallet : PubkeyBytes;
  rq_destination : PubkeyBytes;
  rq_expires_at_slot : Z;
  rq_solend : option Stage2SolendExecutePayload
}.

Record Stage2ExecutionReceipt := MkReceipt {
  rc_rule_id : list byte;
  rc_execution_nonce : Z;
  rc_confirmation_slot : Z;
  rc_used_amount_raw : Z;
  rc_signature_sentinel : string
}.

(** ** Watcher state ([WatcherCachedState]) *)
Record WatcherCachedState := MkCachedState {
  cs_last_successful_tick_at_ms : option Z;
  cs_last_tick_started_at_ms : option Z;
  cs_last_tick_finished_at_ms : option Z;
  cs_last_tick_duration_ms : option Z;
  cs_last_error : option string;
  cs_expired_count : Z;
  cs_condition_met_count : Z;
  cs_transient_error_count : Z;
  cs_terminal_error_count : Z;
  cs_failed_count : Z
}.
Definition default_cached_state : WatcherCachedState :=
  MkCachedState None None None None None 0 0 0 0 0.

(** ** Events and programs *)
Inductive RuleUpdate :=
| UMarkChecked (id : list byte) (slot ts_ms : Z)
| UConditionMet (id : list byte)
| UConditionMetIfActive (id : list byte)
| UExecuting (id : list byte) (nonce : Z)
| UExecutingIfConditionMet (id : list byte) (nonce : Z)
| UCompleted (id : list byte) (used_amount slot : Z)
| UFailed (id : list byte) (error : string)
| UFailedIfNotTerminal (id : list byte) (error : string)
| ULastError (id : list byte) (error : string)
| UExpired (id : list byte)
| UExpiredIfNotTerminal (id : list byte)
| URevoked (id : list byte)
| UHealthTick (id : list byte) (ts_ms : Z).

Inductive StoreCall :=
| CInsert (rule : WatchRule)
| CGet (id : list byte)
| CListPending (limit : Z)
| CListActiveLimit (slot limit : Z)
| CUpdate (u : RuleUpdate).

Definition StoreAnswer (c : StoreCall) : Type :=
  match c with
  | CInsert _ => SRes unit
  | CGet _ => SRes (option StoredWatchRule)
  | CListPending _ | CListActiveLimit _ _ => SRes (list StoredWatchRule)
  | CUpdate _ => SRes Z
  end.

Inductive Event :=
| Store (c : StoreCall)
| Now
| TryAcquire (id : list byte)
| Release (id : list byte)
| InFlightCount
| Evaluate (rule : WatchRule) (ctx : Stage2TickContext)
| Simulate (rule : WatchRule) (ctx : Stage2TickContext)
| Send (req : Stage2ExecuteActionRequest)
| ReadState
| WriteState (f : WatcherCachedState → WatcherCachedState).

Definition Answer (e : Event) : Type :=
  match e with
  | Store c => StoreAnswer c
  | Now => Z
  | TryAcquire _ => bool
  | Release _ | WriteState _ => unit
  | InFlightCount => nat
  | Evaluate _ _ => WRes bool
  | Simulate _ _ => WRes unit
  | Send _ => Result Stage2ExecutionError Stage2ExecutionReceipt
  | ReadState => WatcherCachedState
  end.

Notation Prog := (Interaction.Prog Answer).

(** One event, as a program. *)
Definition do (e : Event) : Prog (Answer e) := ask e.

(** ** The shared state *)
Inductive LogEntry :=
| LInserted (rule : WatchRule)
| LUpdated (u : RuleUpdate) (rows : Z)
| LEvaluated (rule : WatchRule) (ctx : Stage2TickContext) (r : WRes bool)
| LSimulated (rule : WatchRule) (ctx : Stage2TickContext) (r : WRes unit)
| LSent (req : Stage2ExecuteActionRequest).

(** The table; the in-flight set and the cached state of each watcher or
    executor instance; the history of calls, newest first. *)
Record Shared := MkShared {
  sh_table : Table;
  sh_in_flight : gmap nat (gset (list byte));
  sh_cached : gmap nat WatcherCachedState;
  sh_log : list LogEntry
}.

Definition in_flight (i : nat) (s : Shared) : gset (list byte) :=
  default ∅ (sh_in_flight s !! i).
Definition cached (i : nat) (s : Shared) : WatcherCachedState :=
  default default_cached_state (sh_cached s !! i).
Definition with_table (t : Table) (s : Shared) : Shared :=
  MkShared t (sh_in_flight s) (sh_cached s) (sh_log s).
Definition with_in_flight (i : nat) (f : gset (list byte)) (s : Shared) : Shared :=
  MkShared (sh_table s) (<[i := f]> (sh_in_flight s)) (sh_cached s) (sh_log s).
Definition with_cached (i : nat) (c : WatcherCachedState) (s : Shared) : Shared :=
  MkShared (sh_table s) (sh_in_flight s) (<[i := c]> (sh_cached s)) (sh_log s).
Definition log_entries (l : list LogEntry) (s : Shared) : Shared :=
  MkShared (sh_table s) (sh_in_flight s) (sh_cached s) (l ++ sh_log s).

Definition apply_update (u : RuleUpdate) (now : Z) : Table → Z * Table :=
  match u with
  | UMarkChecked id slot ts => mark_checked id slot ts now
  | UConditionMet id => mark_condition_met id now
  | UConditionMetIfActive id => mark_condition_met_if_active id now
  | UExecuting id nonce => mark_executing id nonce now
  | UExecutingIfConditionMet id nonce => mark_executing_if_condition_met id nonce now
  | UCompleted id used slot => mark_completed id used slot now
  | UFailed id e => mark_failed id e now
  | UFailedIfNotTerminal id e => mark_failed_if_not_terminal id e now
  | ULastError id e => record_last_error id e now
  | UExpired id => mark_expired id now
  | UExpiredIfNotTerminal id => mark_expired_if_not_terminal id now
  | URevoked id => mark_revoked id now
  | UHealthTick id ts => update_health_tick id ts now
  end.

(** What a call adds to the history. *)
Definition entries (e : Event) : Answer e → list LogEntry :=
  match e with
  | Store (CInsert rule) => λ a, match a with Ok _ => [LInserted rule] | Err _ => [] end
  | Store (CUpdate u) => λ a, match a with Ok n => [LUpdated u n] | Err _ => [] end
  | Evaluate rule ctx => λ a, [LEvaluated rule ctx a]
  | Simulate rule ctx => λ a, [LSimulated rule ctx a]
  | Send req => λ _, [LSent req]
  | _ => λ _, []
  end.

(** A statement that the database refuses leaves the table alone. *)
Definition store_fault (c : StoreCall) (m : string) : StoreAnswer c :=
  match c with
  | CInsert _ | CGet _ | CListPending _ | CListActiveLimit _ _ | CUpdate _ => Err (Sqlx m)
  end.

Section semantics.
Context `{Crates, Sqlite}.

Definition exec_store (c : StoreCall) (now : Z) (t : Table) : StoreAnswer c * Table :=
  match c with
  | CInsert rule => insert_rule rule now t
  | CGet id => (get id t, t)
  | CListPending limit => (list_pending_lifecycle_limit limit t, t)
  | CListActiveLimit slot limit => (list_active_limit slot limit t, t)
  | CUpdate u => let '(n, t) := apply_update u now t in (Ok n, t)
  end.

(** Everything the environment decides. *)
Record Environment := MkEnv {
  env_now : Z;
  env_fault : option string;
  env_evaluate : WatchRule → Stage2TickContext → WRes bool;
  env_simulate : WatchRule → Stage2TickContext → WRes unit;
  env_send : Stage2ExecuteActionRequest → Result Stage2ExecutionError Stage2ExecutionReceipt
}.

(** The answer to one event of instance [i] and the state it leaves, history
    not included. *)
Definition answer (i : nat) (env : Environment) (e : Event) (s : Shared) :
    Answer e * Shared :=
  match e with
  | Store c =>
      match env_fault env with
      | Some m => (store_fault c m, s)
      | None => let '(a, t) := exec_store c (env_now env) (sh_table s) in (a, with_table t s)
      end
  | Now => (env_now env, s)
  | TryAcquire id =>
      if bool_decide (id ∈ in_flight i s) then (false, s)
      else (true, with_in_flight i ({[id]} ∪ in_flight i s) s)
  | Release id => (tt, with_in_flight i (in_flight i s ∖ {[id]}) s)
  | InFlightCount => (size (in_flight i s), s)
  | Evaluate rule ctx => (env_evaluate env rule ctx, s)
  | Simulate rule ctx => (env_simulate env rule ctx, s)
  | Send req => (env_send env req, s)
  | ReadState => (cached i s, s)
  | WriteState f => (tt, with_cached i (f (cached i s)) s)
  end.

Definition exec_event (i : nat) (env : Environment) (e : Event) (s : Shared) :
    Answer e * Shared :=
  let '(a, s) := answer i env e s in (a, log_entries (entries e a) s).

(** One program alone, to its end. *)
Fixpoint run {A} (i : nat) (env : Environment) (p : Prog A) (s : Shared) : A * Shared :=
  match p with
  | Ret a => (a, s)
  | Vis e k => let '(a, s) := exec_event i env e s in run i env (k a) s
  end.

Lemma run_bind {A B} i env (p : Prog A) (f : A → Prog B) s :
  run i env (p ≫= f) s = let '(a, s') := run i env p s in run i env (f a) s'.
Proof.
  revert s. induction p as [a|e k IH]; intros s; [done|]. simpl.
  destruct (exec_event i env e s). apply IH.
Qed.

(** ** Interleaving *)
Record Thread := MkThread { th_instance : nat; th_prog : Prog unit }.
Record Pool := MkPool { pl_threads : gmap nat Thread; pl_shared : Shared }.

(** [allowed i p]: the programs instance [i] may start. *)
Inductive step (allowed : nat → Prog unit → Prop) : Pool → Pool → Prop :=
| step_spawn ts s n i p :
    ts !! n = None → allowed i p →
    step allowed (MkPool ts s) (MkPool (<[n := MkThread i p]> ts) s)
| step_event ts s n i e k env a s' :
    ts !! n = Some (MkThread i (Vis e k)) →
    exec_event i env e s = (a, s') →
    step allowed (MkPool ts s) (MkPool (<[n := MkThread i (k a)]> ts) s')
| step_stop ts s n :
    step allowed (MkPool ts s) (MkPool (delete n ts) s).

Inductive reachable (allowed : nat → Prog unit → Prop) (t0 : Table) : Pool → Prop :=
| reachable_start : reachable allowed t0 (MkPool ∅ (MkShared t0 ∅ ∅ []))
| reachable_step pl pl' :
    reachable allowed t0 pl → step allowed pl pl' → reachable allowed t0 pl'.
End semantics.
