(* ===== verification/RuleWatcher.v ===== *)
(** * The watcher ([stage2_watcher.rs])

    One tick: load the pending rules, expire, evaluate, simulate, advance.  Each
    handler is a program over the events of [Daemon]; the report the source
    passes as [&mut] is threaded through. *)
From S2P Require Import Prelude Interaction Borsh WatchRules WatcherBase RuleStore Daemon.
#[local] Open Scope string_scope.
#[local] Open Scope Z_scope.

(** ** Results and report *)
Inductive Stage2RuleTickResult :=
| SkippedNonActive (rule_id : list byte)
| SkippedInFlight (rule_id : list byte)
| SkippedRaceLost (rule_id : list byte)
| TickExpired (rule_id : list byte)
| TickConditionFalse (rule_id : list byte)
| TickConditionMet (rule_id : list byte)
| EvaluatorTransientError (rule_id : list byte) (error : string)
| EvaluatorTerminalError (rule_id : list byte) (error : string)
| SimulatorTransientError (rule_id : list byte) (error : string)
| SimulatorTerminalError (rule_id : list byte) (error : string).

Definition tick_result_rule_id (r : Stage2RuleTickResult) : list byte :=
  match r with
  | SkippedNonActive i | SkippedInFlight i | SkippedRaceLost i | TickExpired i
  | TickConditionFalse i | TickConditionMet i => i
  | EvaluatorTransientError i _ | EvaluatorTerminalError i _
  | SimulatorTransientError i _ | SimulatorTerminalError i _ => i
  end.

Record Stage2TickReport := MkReport {
  started_at_ms : Z;
  finished_at_ms : Z;
  duration_ms : Z;
  rules_loaded : Z;
  rules_processed : Z;
  rules_loaded_at_limit : bool;
  expired_count : Z;
  condition_met_count : Z;
  transient_error_count : Z;
  terminal_error_count : Z;
  failed_count : Z;
  skipped_non_active_count : Z;
  in_flight_skip_count : Z;
  race_lost_count : Z;
  internal_errors : list string;
  per_rule : list Stage2RuleTickResult;
  force_tick_flag : bool;
  force_tick_target : option (list byte);
  force_tick_target_not_found : bool
}.

(** [Stage2TickReport::started] *)
Definition started (now : Z) : Stage2TickReport :=
  MkReport now 0 0 0 0 false 0 0 0 0 0 0 0 0 [] [] false None false.

(** The counters as one tuple of increments:
    processed, expired, met, transient, terminal, failed, non-active, in-flight, race. *)
Definition bump (r : Stage2TickReport) (pr ex me tr te fa na fl ra : Z) : Stage2TickReport :=
  MkReport (started_at_ms r) (finished_at_ms r) (duration_ms r) (rules_loaded r)
    (rules_processed r + pr) (rules_loaded_at_limit r) (expired_count r + ex)
    (condition_met_count r + me) (transient_error_count r + tr)
    (terminal_error_count r + te) (failed_count r + fa) (skipped_non_active_count r + na)
    (in_flight_skip_count r + fl) (race_lost_count r + ra) (internal_errors r) (per_rule r)
    (force_tick_flag r) (force_tick_target r) (force_tick_target_not_found r).

Definition push_result (r : Stage2TickReport) (x : Stage2RuleTickResult) : Stage2TickReport :=
  MkReport (started_at_ms r) (finished_at_ms r) (duration_ms r) (rules_loaded r)
    (rules_processed r) (rules_loaded_at_limit r) (expired_count r) (condition_met_count r)
    (transient_error_count r) (terminal_error_count r) (failed_count r)
    (skipped_non_active_count r) (in_flight_skip_count r) (race_lost_count r)
    (internal_errors r) (per_rule r ++ [x])%list (force_tick_flag r) (force_tick_target r)
    (force_tick_target_not_found r).

Definition add_internal_error (r : Stage2TickReport) (m : string) : Stage2TickReport :=
  MkReport (started_at_ms r) (finished_at_ms r) (duration_ms r) (rules_loaded r)
    (rules_processed r) (rules_loaded_at_limit r) (expired_count r) (condition_met_count r)
    (transient_error_count r) (terminal_error_count r) (failed_count r)
    (skipped_non_active_count r) (in_flight_skip_count r) (race_lost_count r)
    (internal_errors r ++ [m])%list (per_rule r) (force_tick_flag r) (force_tick_target r)
    (force_tick_target_not_found r).

Definition set_loaded (r : Stage2TickReport) (n : Z) (at_limit : bool) : Stage2TickReport :=
  MkReport (started_at_ms r) (finished_at_ms r) (duration_ms r) n
    (rules_processed r) at_limit (expired_count r) (condition_met_count r)
    (transient_error_count r) (terminal_error_count r) (failed_count r)
    (skipped_non_active_count r) (in_flight_skip_count r) (race_lost_count r)
    (internal_errors r) (per_rule r) (force_tick_flag r) (force_tick_target r)
    (force_tick_target_not_found r).

Definition set_force (r : Stage2TickReport) (flag : bool) (target : option (list byte))
    (not_found : bool) : Stage2TickReport :=
  MkReport (started_at_ms r) (finished_at_ms r) (duration_ms r) (rules_loaded r)
    (rules_processed r) (rules_loaded_at_limit r) (expired_count r) (condition_met_count r)
    (transient_error_count r) (terminal_error_count r) (failed_count r)
    (skipped_non_active_count r) (in_flight_skip_count r) (race_lost_count r)
    (internal_errors r) (per_rule r) flag target not_found.

(** [i64::saturating_sub] *)
Definition saturating_sub_i64 (a b : Z) : Z :=
  Z.max (- 2 ^ 63) (Z.min (2 ^ 63 - 1) (a - b)).

(** [Stage2TickReport::finish] *)
Definition finish (r : Stage2TickReport) (now : Z) : Stage2TickReport :=
  MkReport (started_at_ms r) now (saturating_sub_i64 now (started_at_ms r)) (rules_loaded r)
    (rules_processed r) (rules_loaded_at_limit r) (expired_count r) (condition_met_count r)
    (transient_error_count r) (terminal_error_count r) (failed_count r)
    (skipped_non_active_count r) (in_flight_skip_count r) (race_lost_count r)
    (internal_errors r) (per_rule r) (force_tick_flag r) (force_tick_target r)
    (force_tick_target_not_found r).

Definition was_successful (r : Stage2TickReport) : bool :=
  match internal_errors r with [] => true | _ => false end.

(** ** Handlers *)
Notation Report := Stage2TickReport.

Definition record_transient (rule_id : list byte) (msg : string) (report : Report) :
    Prog Report :=
  r ← do (Store (CUpdate (ULastError rule_id msg)));
  let report := match r with
    | Err e => add_internal_error report
        ("record_last_error " +:+ hex_encode rule_id +:+ ": " +:+ show_store_error e)
    | Ok _ => report
    end in
  mret (bump report 0 0 0 1 0 0 0 0 0).

Definition record_terminal (rule_id : list byte) (msg : string) (report : Report) :
    Prog Report :=
  r ← do (Store (CUpdate (UFailedIfNotTerminal rule_id msg)));
  mret match r with
    | Ok 1 => bump report 0 0 0 0 1 1 0 0 0
    | Ok _ => bump report 0 0 0 0 0 0 0 0 1
    | Err e => add_internal_error report
        ("mark_failed_if_not_terminal " +:+ hex_encode rule_id +:+ ": " +:+ show_store_error e)
    end.

Definition handle_condition_true (rule : WatchRule) (ctx : Stage2TickContext)
    (report : Report) : Prog Report :=
  let rule_id := wr_rule_id rule in
  sim_result ← do (Simulate rule ctx);
  match sim_result with
  | Ok _ =>
      r ← do (Store (CUpdate (UConditionMetIfActive rule_id)));
      mret match r with
        | Ok 1 => push_result (bump report 0 0 1 0 0 0 0 0 0) (TickConditionMet rule_id)
        | Ok _ => push_result (bump report 0 0 0 0 0 0 0 0 1) (SkippedRaceLost rule_id)
        | Err e => add_internal_error report
            ("mark_condition_met_if_active " +:+ hex_encode rule_id +:+ ": " +:+
             show_store_error e)
        end
  | Err (Transient m) =>
      let msg := show_watcher_error (Transient m) in
      report ← record_transient rule_id msg report;
      mret (push_result report (SimulatorTransientError rule_id msg))
  | Err (Terminal m) =>
      let msg := show_watcher_error (Terminal m) in
      report ← record_terminal rule_id msg report;
      mret (push_result report (SimulatorTerminalError rule_id msg))
  | Err (Internal m) =>
      mret (add_internal_error report ("simulator internal error for " +:+
        hex_encode rule_id +:+ ": " +:+ show_watcher_error (Internal m)))
  end.

(** The part of [process_rule] under the in-flight guard. *)
Definition process_guarded (rule : WatchRule) (ctx : Stage2TickContext) (report : Report) :
    Prog Report :=
  let rule_id := wr_rule_id rule in
  per_rule_now_ms ← do Now;
  checked ← do (Store (CUpdate (UMarkChecked rule_id (current_slot ctx) per_rule_now_ms)));
  match checked with
  | Err e =>
      mret (add_internal_error report
        ("mark_checked " +:+ hex_encode rule_id +:+ ": " +:+ show_store_error e))
  | Ok _ =>
      let report := bump report 1 0 0 0 0 0 0 0 0 in
      eval_result ← do (Evaluate rule ctx);
      match eval_result with
      | Ok false => mret (push_result report (TickConditionFalse rule_id))
      | Ok true => handle_condition_true rule ctx report
      | Err (Transient m) =>
          let msg := show_watcher_error (Transient m) in
          report ← record_transient rule_id msg report;
          mret (push_result report (EvaluatorTransientError rule_id msg))
      | Err (Terminal m) =>
          let msg := show_watcher_error (Terminal m) in
          report ← record_terminal rule_id msg report;
          mret (push_result report (EvaluatorTerminalError rule_id msg))
      | Err (Internal m) =>
          mret (add_internal_error report ("evaluator internal error for " +:+
            hex_encode rule_id +:+ ": " +:+ show_watcher_error (Internal m)))
      end
  end.

Definition process_rule (stored : StoredWatchRule) (ctx : Stage2TickContext)
    (report : Report) : Prog Report :=
  let rule_id := wr_rule_id (st_rule stored) in
  if bool_decide (st_status stored ≠ Active) then
    mret (push_result (bump report 0 0 0 0 0 0 1 0 0) (SkippedNonActive rule_id))
  else if wr_expires_at_slot (st_rule stored) <=? current_slot ctx then
    r ← do (Store (CUpdate (UExpiredIfNotTerminal rule_id)));
    mret match r with
      | Ok _ => push_result (bump report 0 1 0 0 0 0 0 0 0) (TickExpired rule_id)
      | Err e => add_internal_error report
          ("mark_expired_if_not_terminal " +:+ hex_encode rule_id +:+ ": " +:+
           show_store_error e)
      end
  else
    acquired ← do (TryAcquire rule_id);
    if acquired : bool then
      report ← process_guarded (st_rule stored) ctx report;
      _ ← do (Release rule_id);
      mret report
    else
      mret (push_result (bump report 0 0 0 0 0 0 0 1 0) (SkippedInFlight rule_id)).

(** [for stored in rules { self.process_rule(stored, &ctx, &mut report).await }] *)
Fixpoint process_rules (rules : list StoredWatchRule) (ctx : Stage2TickContext)
    (report : Report) : Prog Report :=
  match rules with
  | [] => mret report
  | stored :: rules =>
      report ← process_rule stored ctx report;
      process_rules rules ctx report
  end.

Definition finalise_report (report : Report) : Prog Report :=
  now_ms ← do Now;
  let report := finish report now_ms in
  _ ← do (WriteState (λ c,
    let ok := was_successful report in
    MkCachedState
      (if ok then Some now_ms else cs_last_successful_tick_at_ms c)
      (cs_last_tick_started_at_ms c) (Some now_ms) (Some (duration_ms report))
      (if ok then None else last (internal_errors report))
      (expired_count report) (condition_met_count report) (transient_error_count report)
      (terminal_error_count report) (failed_count report)));
  mret report.

(** [self.state.write().last_tick_started_at_ms = Some(ctx.now_ms)] *)
Definition mark_started (now : Z) : Prog unit :=
  do (WriteState (λ c,
    MkCachedState (cs_last_successful_tick_at_ms c) (Some now) (cs_last_tick_finished_at_ms c)
      (cs_last_tick_duration_ms c) (cs_last_error c) (cs_expired_count c)
      (cs_condition_met_count c) (cs_transient_error_count c) (cs_terminal_error_count c)
      (cs_failed_count c))).

Section watcher.
Context (config : Stage2WatcherConfig).

Definition tick (ctx : Stage2TickContext) : Prog Report :=
  let report := started (now_ms ctx) in
  _ ← mark_started (now_ms ctx);
  rules ← do (Store (CListPending (max_rules_per_tick config)));
  match rules with
  | Err e =>
      finalise_report (add_internal_error report
        ("list_pending_lifecycle_limit: " +:+ show_store_error e))
  | Ok rules =>
      let n := wrap 32 (Z.of_nat (length rules)) in
      let report := set_loaded report n
        ((n =? max_rules_per_tick config) && (0 <? max_rules_per_tick config)) in
      report ← process_rules rules ctx report;
      finalise_report report
  end.

Definition force_tick (ctx : Stage2TickContext) : Prog (WRes Report) :=
  if negb (force_tick_enabled config) then
    mret (Err (Terminal "force_tick disabled: enable Stage2WatcherConfig::force_tick_enabled (demo/dev only)"))
  else
    report ← tick ctx;
    mret (Ok (set_force report true (force_tick_target report)
                (force_tick_target_not_found report))).

Definition terminal_status (s : WatchRuleStatus) : bool :=
  match s with
  | Completed | StatusExpired | Revoked | Failed => true
  | _ => false
  end.

Definition force_tick_rule (rule_id : list byte) (ctx : Stage2TickContext) :
    Prog (WRes Report) :=
  if negb (force_tick_enabled config) then
    mret (Err (Terminal "force_tick_rule disabled: enable Stage2WatcherConfig::force_tick_enabled (demo/dev only)"))
  else
    let report := set_force (started (now_ms ctx)) true (Some rule_id) false in
    _ ← mark_started (now_ms ctx);
    found ← do (Store (CGet rule_id));
    match found with
    | Ok None =>
        report ← finalise_report (set_force report true (Some rule_id) true);
        mret (Ok report)
    | Err e =>
        report ← finalise_report
          (add_internal_error report ("repo.get: " +:+ show_store_error e));
        mret (Ok report)
    | Ok (Some stored) =>
        if terminal_status (st_status stored) then
          report ← finalise_report (set_force report true (Some rule_id) true);
          mret (Ok report)
        else
          let report := set_loaded report 1 (rules_loaded_at_limit report) in
          report ← process_rule stored ctx report;
          report ← finalise_report report;
          mret (Ok report)
    end.

(** *** Health *)
Record Stage2WatcherHealth := MkHealth {
  h_state : WatcherCachedState;
  h_active_rule_count : Z;
  h_stale_rule_count : Z;
  h_in_flight_rule_count : Z;
  h_is_offline : bool
}.

(** [a - b] on [i64], as a release build computes it. *)
Definition sub_i64 (a b : Z) : Z := to_signed 64 (wrap 64 (a - b)).

Definition is_rule_stale (rule : StoredWatchRule) (now : Z) : bool :=
  let threshold := stale_threshold_ms config in
  match st_last_successful_tick_at_ms rule with
  | Some t => threshold <? sub_i64 now t
  | None => threshold <? sub_i64 now (st_created_at_ms rule)
  end.

Definition health (slot now : Z) : Prog (WRes Stage2WatcherHealth) :=
  state ← do ReadState;
  in_flight_rule_count ← do InFlightCount;
  actives ← do (Store (CListActiveLimit slot (2 ^ 32 - 1)));
  mret match actives with
    | Err e => Err (Internal ("state-store: " +:+ show_store_error e))
    | Ok actives =>
        let stale := List.filter
          (λ r, bool_decide (st_status r = Active) && is_rule_stale r now) actives in
        let is_offline := match cs_last_successful_tick_at_ms state with
          | Some t => offline_threshold_ms config <? sub_i64 now t
          | None => true
          end in
        Ok (MkHealth state (Z.of_nat (length actives)) (Z.of_nat (length stale))
              (Z.of_nat in_flight_rule_count) is_offline)
    end.
End watcher.
