(* ===== verification/RuleExecutor.v ===== *)
(** * The executor ([stage2_executor.rs])

    Leases the rules the watcher marked, builds the request, dispatches it
    through the execution client and writes back the end of the rule. *)
From S2P Require Import Prelude Interaction WatchRules WatcherBase RuleStore Daemon.
#[local] Open Scope string_scope.
#[local] Open Scope Z_scope.

(** ** Errors *)
Inductive Stage2ExecutorError :=
| LeaseLost (rule_id_hex : string)
| UnsupportedActionType (t : WatchRuleActionType)
| DemoFixtureMismatch (m : string)
| InputHeadroomExhausted (used max : Z)
| Client (e : Stage2ExecutionError)
| ExecutorInternal (m : string).

(** [{:?}] of the derived [Debug] *)
Definition debug_action_type (t : WatchRuleActionType) : string :=
  match t with
  | TypeSolendWithdrawAllDelegated => "SolendWithdrawAllDelegated"
  | TypeJupiterBuySolWithUsdc => "JupiterBuySolWithUsdc"
  end.

Definition show_executor_error (e : Stage2ExecutorError) : string :=
  match e with
  | LeaseLost id => "lease lost for rule " +:+ id
  | UnsupportedActionType t => "unsupported action_type: " +:+ debug_action_type t
  | DemoFixtureMismatch m => "rule does not match demo fixture: " +:+ m
  | InputHeadroomExhausted used max =>
      "input headroom exhausted: used=" +:+ fmt used +:+ " max=" +:+ fmt max
  | Client e => "execution client error: " +:+ show_execution_error e
  | ExecutorInternal m => "internal: " +:+ m
  end.

Notation XRes := (Result Stage2ExecutorError).

(** [validate_request_shape], which every client may call first *)
Definition validate_request_shape (request : Stage2ExecuteActionRequest) :
    Result Stage2ExecutionError unit :=
  _ ← throw_if (rq_input_amount_raw request =? 0)
        (InvalidRequest "input_amount_raw must be > 0");
  _ ← throw_if (rq_execution_nonce request =? 0)
        (InvalidRequest "execution_nonce must be > 0 (Stage 2 nonces start at 1)");
  _ ← throw_if (negb (to_u8 (rq_action_type request) =? rq_action_type_byte request))
        (InvalidRequest "action_type / action_type_byte mismatch");
  match rq_action_type request with
  | TypeSolendWithdrawAllDelegated =>
      match rq_solend request with
      | None => Err (InvalidRequest "Solend action_type requires solend payload")
      | Some _ => Ok tt
      end
  | TypeJupiterBuySolWithUsdc =>
      Err (InvalidRequest "W4-lite execution client does not handle Jupiter action_type")
  end.

(** ** Fixture and configuration *)
Record DemoSolendExecutionFixture := MkFixture {
  fx_reserve : PubkeyBytes;
  fx_lending_market : PubkeyBytes;
  fx_liquidity_mint : PubkeyBytes;
  fx_ctoken_mint : PubkeyBytes;
  fx_pyth_oracle : PubkeyBytes;
  fx_switchboard_oracle : PubkeyBytes;
  fx_extra_oracle : option PubkeyBytes
}.

Record Stage2ExecutorConfig := MkExecutorConfig {
  x_max_rules_per_tick : Z;
  x_action_type_allowlist : list WatchRuleActionType
}.
Definition default_executor_config : Stage2ExecutorConfig :=
  MkExecutorConfig 64 [TypeSolendWithdrawAllDelegated].

Inductive Stage2ExecutorRuleResult :=
| RCompleted (rule_id : list byte) (execution_nonce used_amount_raw confirmation_slot : Z)
    (signature_sentinel : string)
| RFailed (rule_id : list byte) (error : string)
| RLeaseLost (rule_id : list byte)
| RSkippedActionType (rule_id : list byte) (t : WatchRuleActionType)
| RDemoFixtureMismatch (rule_id : list byte) (detail : string)
| RInternalError (rule_id : list byte) (detail : string).

Record Stage2ExecutorTickReport := MkExecutorReport {
  xr_rules_loaded : Z;
  xr_rules_processed : Z;
  xr_completed_count : Z;
  xr_failed_count : Z;
  xr_lease_lost_count : Z;
  xr_skipped_action_type_count : Z;
  xr_demo_mismatch_count : Z;
  xr_internal_error_count : Z;
  xr_per_rule : list Stage2ExecutorRuleResult
}.

Definition tally_result (result : Stage2ExecutorRuleResult) (r : Stage2ExecutorTickReport) :
    Stage2ExecutorTickReport :=
  let '(MkExecutorReport l p c f ll sk dm ie pr) := r in
  match result with
  | RCompleted _ _ _ _ _ => MkExecutorReport l p (c + 1) f ll sk dm ie pr
  | RFailed _ _ => MkExecutorReport l p c (f + 1) ll sk dm ie pr
  | RLeaseLost _ => MkExecutorReport l p c f (ll + 1) sk dm ie pr
  | RSkippedActionType _ _ => MkExecutorReport l p c f ll (sk + 1) dm ie pr
  | RDemoFixtureMismatch _ _ => MkExecutorReport l p c f ll sk (dm + 1) ie pr
  | RInternalError _ _ => MkExecutorReport l p c f ll sk dm (ie + 1) pr
  end.

Section executor.
Context `{Crates} (fixture : DemoSolendExecutionFixture) (config : Stage2ExecutorConfig).

(** [DemoSolendExecutionFixture::build_payload] *)
Definition build_payload (action : ActionSpec) : XRes Stage2SolendExecutePayload :=
  match action with
  | SolendWithdrawAllDelegated target_obligation reserve_pubkey lending_market _
      withdraw_mode =>
      _ ← throw_if (bool_decide (reserve_pubkey ≠ fx_reserve fixture))
            (DemoFixtureMismatch ("rule.reserve " +:+ base58 reserve_pubkey +:+
               " != demo.reserve " +:+ base58 (fx_reserve fixture)));
      _ ← throw_if (bool_decide (lending_market ≠ fx_lending_market fixture))
            (DemoFixtureMismatch ("rule.lending_market " +:+ base58 lending_market +:+
               " != demo.lending_market " +:+ base58 (fx_lending_market fixture)));
      Ok (MkSolendPayload target_obligation (fx_reserve fixture) (fx_lending_market fixture)
            (fx_liquidity_mint fixture) (fx_ctoken_mint fixture) (fx_pyth_oracle fixture)
            (fx_switchboard_oracle fixture) (fx_extra_oracle fixture) withdraw_mode)
  | other => Err (UnsupportedActionType (action_type other))
  end.

Definition allowed_action_type (t : WatchRuleActionType) : bool :=
  existsb (λ t', bool_decide (t' = t)) (x_action_type_allowlist config).

Definition build_execute_action_request (stored : StoredWatchRule) (execution_nonce : Z) :
    XRes Stage2ExecuteActionRequest :=
  let rule := st_rule stored in
  let action_type := action_type (wr_action rule) in
  _ ← throw_if (negb (allowed_action_type action_type)) (UnsupportedActionType action_type);
  let max := wr_max_input_amount_raw rule in
  let used := wr_used_amount_raw rule in
  _ ← throw_if (max <=? used) (InputHeadroomExhausted used max);
  let input_amount_raw := max - used in
  solend ← match wr_action rule with
    | SolendWithdrawAllDelegated _ _ _ _ _ => p ← build_payload (wr_action rule); Ok (Some p)
    | JupiterBuySolWithUsdc _ _ _ _ _ _ _ => Ok None
    end;
  Ok (MkExecuteRequest (wr_rule_id rule) (st_canonical_rule_hash stored) action_type
        (to_u8 action_type) STAGE2_WATCH_RULE_SCHEMA_VERSION input_amount_raw execution_nonce
        (wr_user rule) (wr_executor rule) (wr_delegated_wallet rule) (wr_destination rule)
        (wr_expires_at_slot rule) solend).

(** The result of the best-effort write is only logged. *)
Definition mark_failed_best_effort (rule_id : list byte) (detail : string) : Prog unit :=
  _ ← do (Store (CUpdate (UFailed rule_id detail)));
  mret tt.

(** [u64::saturating_add(1)] *)
Definition next_nonce (n : Z) : Z := Z.min (2 ^ 64 - 1) (n + 1).

(** Steps 5 and 6 of [process_rule]: dispatch and write back. *)
Definition dispatch (rule_id : list byte) (request : Stage2ExecuteActionRequest) :
    Prog Stage2ExecutorRuleResult :=
  _ ← do Now;
  receipt_result ← do (Send request);
  match receipt_result with
  | Ok receipt =>
      r ← do (Store (CUpdate (UCompleted rule_id (rc_used_amount_raw receipt)
            (rc_confirmation_slot receipt))));
      mret match r with
        | Err e => RInternalError rule_id ("mark_completed: " +:+ show_store_error e)
        | Ok _ => RCompleted rule_id (rc_execution_nonce receipt) (rc_used_amount_raw receipt)
                    (rc_confirmation_slot receipt) (rc_signature_sentinel receipt)
        end
  | Err e =>
      let detail := show_execution_error e in
      _ ← mark_failed_best_effort rule_id detail;
      mret (RFailed rule_id detail)
  end.

(** Steps 4 to 6: after the lease. *)
Definition leased (stored : StoredWatchRule) (nonce : Z) : Prog Stage2ExecutorRuleResult :=
  let rule_id := wr_rule_id (st_rule stored) in
  match build_execute_action_request stored nonce with
  | Ok request => dispatch rule_id request
  | Err (DemoFixtureMismatch detail) =>
      _ ← mark_failed_best_effort rule_id detail;
      mret (RDemoFixtureMismatch rule_id detail)
  | Err (UnsupportedActionType t) =>
      _ ← mark_failed_best_effort rule_id ("unsupported action_type: " +:+ debug_action_type t);
      mret (RSkippedActionType rule_id t)
  | Err (InputHeadroomExhausted used max) =>
      let detail := "input headroom exhausted: used=" +:+ fmt used +:+ " max=" +:+ fmt max in
      _ ← mark_failed_best_effort rule_id detail;
      mret (RFailed rule_id detail)
  | Err other =>
      let detail := show_executor_error other in
      _ ← mark_failed_best_effort rule_id detail;
      mret (RFailed rule_id detail)
  end.

Definition process_rule (stored : StoredWatchRule) : Prog Stage2ExecutorRuleResult :=
  let rule_id := wr_rule_id (st_rule stored) in
  let t := action_type (wr_action (st_rule stored)) in
  if negb (allowed_action_type t) then mret (RSkippedActionType rule_id t) else
  acquired ← do (TryAcquire rule_id);
  if negb acquired then mret (RLeaseLost rule_id) else
  let nonce := next_nonce (st_execution_nonce stored) in
  lease ← do (Store (CUpdate (UExecutingIfConditionMet rule_id nonce)));
  result ← match lease with
    | Ok n => if n =? 0 then mret (RLeaseLost rule_id) else leased stored nonce
    | Err e =>
        mret (RInternalError rule_id
          ("mark_executing_if_condition_met: " +:+ show_store_error e))
    end;
  _ ← do (Release rule_id);
  mret result.

Fixpoint process_ready (ready : list StoredWatchRule) (report : Stage2ExecutorTickReport) :
    Prog Stage2ExecutorTickReport :=
  match ready with
  | [] => mret report
  | stored :: ready =>
      result ← process_rule stored;
      let '(MkExecutorReport l p c f ll sk dm ie pr) := tally_result result report in
      process_ready ready (MkExecutorReport l (p + 1) c f ll sk dm ie (pr ++ [result])%list)
  end.

Definition execute_ready_rules_once : Prog Stage2ExecutorTickReport :=
  rules ← do (Store (CListPending (x_max_rules_per_tick config)));
  match rules with
  | Err e =>
      mret (MkExecutorReport 0 0 0 0 0 0 0 1
        [RInternalError (replicate 16 Byte.x00)
           ("list_pending_lifecycle_limit: " +:+ show_store_error e)])
  | Ok rules =>
      let ready := List.filter (λ r, bool_decide (st_status r = ConditionMet)) rules in
      process_ready ready
        (MkExecutorReport (wrap 32 (Z.of_nat (length ready))) 0 0 0 0 0 0 0 [])
  end.

Definition execute_rule_once (rule_id : list byte) : Prog Stage2ExecutorRuleResult :=
  found ← do (Store (CGet rule_id));
  match found with
  | Ok None => mret (RInternalError rule_id "rule not found")
  | Err e => mret (RInternalError rule_id ("repo.get: " +:+ show_store_error e))
  | Ok (Some stored) =>
      if bool_decide (st_status stored ≠ ConditionMet) then mret (RLeaseLost rule_id)
      else process_rule stored
  end.
End executor.
