(* ===== verification/RuleDaemon.v ===== *)
(** * Watchers, executors and clients over one store

    Any number of watcher ticks, executor passes and client calls, interleaved
    at every await, stopped at any point, with statements failing at will.  A
    small program logic over [Prog] carries what a program knows of the history
    and which rules it has leased; the invariant of a pool combines the
    programs' assertions with the table. *)
From stdpp Require Import functions.
From S2P Require Import Prelude Interaction Borsh WatchRules WatcherBase RuleStore Daemon RuleWatcher.
From S2P Require Import RuleExecutor.
#[local] Open Scope Z_scope.

Notation Log := (list LogEntry).
Notation Ids := (gset (list byte)).

(** ** Reading the history *)

(** The rule an update takes out of [active] and [condition_met] for good. *)
Definition closes (u : RuleUpdate) : option (list byte) :=
  match u with
  | UExecuting id _ | UExecutingIfConditionMet id _ | UCompleted id _ _ | UFailed id _
  | UFailedIfNotTerminal id _ | UExpired id | UExpiredIfNotTerminal id | URevoked id => Some id
  | _ => None
  end.

Definition closed (id : list byte) (l : Log) : Prop :=
  ∃ u n, LUpdated u n ∈ l ∧ n ≠ 0 ∧ closes u = Some id.

Definition sent_ids (l : Log) : list (list byte) :=
  omap (λ x, match x with LSent req => Some (rq_rule_id req) | _ => None end) l.

Section daemon.
Context `{!Crates, !CratesLaws, !Sqlite, !SqliteLaws}.
Implicit Types (l : Log) (L : Ids).

(** The watcher saw the rule's conditions hold and its execution simulated. *)
Definition found_met (rule : WatchRule) (l : Log) : Prop :=
  ∃ ctx, LEvaluated rule ctx (Ok true) ∈ l ∧ LSimulated rule ctx (Ok tt) ∈ l.

(** A request says what the inserted rule says. *)
Record request_of (rule : WatchRule) (req : Stage2ExecuteActionRequest) : Prop := {
  ro_id : rq_rule_id req = wr_rule_id rule;
  ro_hash : rq_canonical_rule_hash req = canonical_rule_hash rule;
  ro_type : rq_action_type req = action_type (wr_action rule);
  ro_byte : rq_action_type_byte req = to_u8 (action_type (wr_action rule));
  ro_schema : rq_schema_version req = STAGE2_WATCH_RULE_SCHEMA_VERSION;
  ro_amount : rq_input_amount_raw req = wr_max_input_amount_raw rule - wr_used_amount_raw rule;
  ro_positive : 0 < rq_input_amount_raw req;
  ro_parties : rq_user req = wr_user rule ∧ rq_executor req = wr_executor rule ∧
    rq_delegated_wallet req = wr_delegated_wallet rule ∧
    rq_destination req = wr_destination rule;
  ro_expiry : rq_expires_at_slot req = wr_expires_at_slot rule
}.

(** Why a request may be sent: the rule was inserted and found met, and it was
    leased while nothing had closed it. *)
Definition justified (req : Stage2ExecuteActionRequest) (l : Log) : Prop :=
  ∃ rule nonce n l0, request_of rule req ∧ rq_execution_nonce req = nonce ∧
    LUpdated (UExecutingIfConditionMet (rq_rule_id req) nonce) n :: l0 `suffix_of` l ∧
    n ≠ 0 ∧ LInserted rule ∈ l0 ∧ found_met rule l0 ∧ ¬ closed (rq_rule_id req) l0.

(** ** The program logic *)

(** What a program must know before an event. *)
Definition pre (L : Ids) (l : Log) (e : Event) : Prop :=
  match e with
  | Send req => rq_rule_id req ∈ L ∧ justified req l
  | Store (CInsert rule) => well_typed rule
  | Store (CUpdate (UConditionMet _)) => False
  | Store (CUpdate (UConditionMetIfActive id)) =>
      ∃ rule, wr_rule_id rule = id ∧ LInserted rule ∈ l ∧ found_met rule l
  | _ => True
  end.

(** The row passes the integrity checks and holds this rule. *)
Definition loads (row : RowRaw) (rule : WatchRule) : Prop :=
  ∃ s, row_to_stored row = Ok s ∧ st_rule s = rule.

(** A stored rule is one that was inserted. *)
Definition stored_ok (l : Log) (s : StoredWatchRule) : Prop :=
  LInserted (st_rule s) ∈ l ∧ st_canonical_rule_hash s = canonical_rule_hash (st_rule s).

(** What the answer to an event tells. *)
Definition told (l : Log) (e : Event) : Answer e → Prop :=
  match e with
  | Store (CGet _) => λ a, ∀ s, a = Ok (Some s) → stored_ok l s
  | Store (CListPending _) => λ a, ∀ ss, a = Ok ss → Forall (stored_ok l) ss
  | Store (CUpdate (UExecutingIfConditionMet id _)) => λ a, ∀ n, a = Ok n → n ≠ 0 →
      ¬ closed id l ∧ ∀ rule, LInserted rule ∈ l → wr_rule_id rule = id → found_met rule l
  | _ => λ _, True
  end.

(** The leases held after an event. *)
Definition leases (L : Ids) (e : Event) : Answer e → Ids :=
  match e with
  | Send req => λ _, L ∖ {[rq_rule_id req]}
  | Store (CUpdate (UExecutingIfConditionMet id _)) => λ a,
      match a with Ok n => if n =? 0 then L else {[id]} ∪ L | Err _ => L end
  | _ => λ _, L
  end.

Notation safe := (Interaction.safe pre told leases entries).

(** The usual postcondition: the leases are as before. *)
Definition keeps {A : Type} (L : Ids) : A → Ids → Log → Prop := λ _ L' _, L' = L.

Lemma safe_ret {A : Type} (a : A) L l : safe (keeps L) L l (Ret a).
Proof. by intros l' _. Qed.

(** Events that need nothing and lease nothing. *)
Definition plain (e : Event) : Prop :=
  (∀ L l, pre L l e) ∧ ∀ L a, leases L e a = L.

Lemma safe_plain {A : Type} (Q : A → Ids → Log → Prop) L l e k : plain e →
  (∀ a l', l `suffix_of` l' → told l' e a → safe Q L (entries e a ++ l') (k a)) →
  safe Q L l (Vis e k).
Proof.
  intros [Hp HL] Hk l' Hl. split; [apply Hp|]. intros a Ha. rewrite HL. by apply Hk.
Qed.
End daemon.

Notation safe := (Interaction.safe pre told leases entries).

Create HintDb plain.
#[export] Hint Extern 1 (plain _) => by split : plain.

(** One step of a program that only does plain events. *)
Ltac go := repeat first
  [ apply safe_ret
  | apply safe_plain; [by auto with plain|intros ? ? ? ?; cbn [prog_bind]]
  | case_match
  | progress cbn [mbind prog_mbind prog_bind do ask mret prog_ret] ].

(** An entry of an earlier history is in the later ones. *)
Ltac in_log := solve [repeat first
  [ eassumption | apply list_elem_of_here | apply list_elem_of_further
  | match goal with H : _ `suffix_of` ?l |- _ ∈ ?l => eapply elem_of_suffix; [|exact H] end ]].

Section watcher.
Context `{!Crates, !CratesLaws, !Sqlite, !SqliteLaws}.
Implicit Types (l : Log) (L : Ids).

Lemma record_transient_safe id m r L l : safe (keeps L) L l (record_transient id m r).
Proof. unfold record_transient. go. Qed.
Lemma record_terminal_safe id m r L l : safe (keeps L) L l (record_terminal id m r).
Proof. unfold record_terminal. go. Qed.

(** A handler that keeps the leases, then a continuation. *)
Lemma safe_seq {A B : Type} (p : Prog A) (f : A → Prog B) L l :
  safe (keeps L) L l p →
  (∀ a l', l `suffix_of` l' → safe (keeps L) L l' (f a)) → safe (keeps L) L l (p ≫= f).
Proof.
  intros Hp Hf. apply safe_bind. eapply safe_conseq; [|done].
  intros a L' l' Hl ->. by apply Hf.
Qed.

Lemma handle_condition_true_safe rule ctx r L l :
  LInserted rule ∈ l → LEvaluated rule ctx (Ok true) ∈ l →
  safe (keeps L) L l (handle_condition_true rule ctx r).
Proof.
  intros Hi He. unfold handle_condition_true.
  apply safe_plain; [by split|]. intros a l1 Hl1 _.
  assert (LInserted rule ∈ l1 ∧ LEvaluated rule ctx (Ok true) ∈ l1) as [Hi1 He1]
    by (split; by eapply elem_of_suffix).
  destruct a as [[]|[m|m|m]]; cbn [prog_bind].
  - intros l2 Hl2. split.
    + exists rule. split; [done|].
      assert (∀ x, x ∈ LSimulated rule ctx (Ok tt) :: l1 → x ∈ l2) as Hin
        by (intros x Hx; by eapply elem_of_suffix).
      split; [apply Hin; by right|]. exists ctx. split; apply Hin; [by right|left].
    + intros n _. cbn. go.
  - apply safe_seq; [apply record_transient_safe|]. intros. go.
  - apply safe_seq; [apply record_terminal_safe|]. intros. go.
  - go.
Qed.

(** ** The watcher respects the rules and leases nothing *)
Lemma process_guarded_safe rule ctx r L l :
  LInserted rule ∈ l → safe (keeps L) L l (process_guarded rule ctx r).
Proof.
  intros Hi. unfold process_guarded. apply safe_plain; [by split|]. intros now l1 Hl1 _.
  cbn [prog_bind]. apply safe_plain; [by split|]. intros checked l2 Hl2 _. cbn [prog_bind].
  destruct checked as [n|e]; [|go]. cbn [do ask mbind prog_mbind prog_bind].
  apply safe_plain; [by split|]. intros a l3 Hl3 _. cbn [prog_bind].
  destruct a as [[]|[m|m|m]].
  1: apply handle_condition_true_safe; in_log.
  all: go; try (apply safe_seq; [apply record_transient_safe || apply record_terminal_safe|]).
  all: intros; go.
Qed.

Lemma process_rule_safe stored ctx r L l :
  stored_ok l stored → safe (keeps L) L l (RuleWatcher.process_rule stored ctx r).
Proof.
  intros [Hi _]. unfold RuleWatcher.process_rule. case_bool_decide; [go|].
  case_match; [go|]. apply safe_plain; [by split|]. intros acquired l1 Hl1 _. cbn [prog_bind].
  destruct acquired; [|go]. apply safe_seq; [apply process_guarded_safe; in_log|].
  intros. go.
Qed.

Lemma process_rules_safe rules ctx r L l :
  Forall (stored_ok l) rules → safe (keeps L) L l (process_rules rules ctx r).
Proof.
  intros Hrules. revert l r Hrules. induction rules as [|s rules IH]; intros l r Hrules; [go|].
  apply Forall_cons in Hrules as [Hs Hrules]. cbn [process_rules].
  apply safe_seq; [by apply process_rule_safe|]. intros r' l' Hl. apply IH.
  eapply Forall_impl; [done|]. intros s' [Hin Hh]. split; [in_log|done].
Qed.

Lemma finalise_report_safe r L l : safe (keeps L) L l (finalise_report r).
Proof. unfold finalise_report. go. Qed.
Hint Resolve finalise_report_safe : core.

Lemma tick_safe config ctx L l : safe (keeps L) L l (tick config ctx).
Proof.
  unfold tick, mark_started. cbn [do ask mbind prog_mbind prog_bind].
  apply safe_plain; [by split|]. intros u l1 _ _. apply safe_plain; [by split|].
  intros [rules|e] l2 _ Hrules; cbn [prog_bind]; [|done].
  apply safe_seq; [|done]. apply process_rules_safe. by apply Hrules.
Qed.

Lemma force_tick_safe config ctx L l : safe (keeps L) L l (force_tick config ctx).
Proof.
  unfold force_tick. case_match; [go|]. apply safe_seq; [apply tick_safe|]. intros. go.
Qed.

Lemma force_tick_rule_safe config id ctx L l :
  safe (keeps L) L l (force_tick_rule config id ctx).
Proof.
  unfold force_tick_rule, mark_started. cbn [do ask mbind prog_mbind prog_bind]. case_match; [go|].
  apply safe_plain; [by split|]. intros u l1 _ _. apply safe_plain; [by split|].
  intros [[s|]|e] l2 _ Hs; cbn [prog_bind]; [case_match|..].
  2: { apply safe_seq; [by apply process_rule_safe, Hs|]. intros. apply safe_seq; [done|].
       intros. go. }
  all: apply safe_seq; [done|]; intros; go.
Qed.

Lemma health_safe config slot now L l : safe (keeps L) L l (health config slot now).
Proof. unfold health. go. Qed.
End watcher.

Section executor.
Context `{!Crates, !CratesLaws, !Sqlite, !SqliteLaws}.
Context (fixture : DemoSolendExecutionFixture) (config : Stage2ExecutorConfig).
Implicit Types (l : Log) (L : Ids).

(** A program with nothing to say about its end. *)
Definition harmless {A : Type} (L : Ids) (l : Log) (p : Prog A) : Prop :=
  safe (λ _ _ _, True) L l p.

Lemma harmless_keeps {A : Type} L l (p : Prog A) : safe (keeps L) L l p → harmless L l p.
Proof. by apply safe_conseq. Qed.

Lemma harmless_seq {A B : Type} (p : Prog A) (f : A → Prog B) L l :
  harmless L l p → (∀ a L' l', l `suffix_of` l' → harmless L' l' (f a)) →
  harmless L l (p ≫= f).
Proof.
  intros Hp Hf. apply safe_bind. eapply safe_conseq; [|done]. intros a L' l' Hl _. by apply Hf.
Qed.

Lemma build_request_of stored nonce req :
  st_canonical_rule_hash stored = canonical_rule_hash (st_rule stored) →
  build_execute_action_request fixture config stored nonce = Ok req →
  request_of (st_rule stored) req ∧ rq_execution_nonce req = nonce.
Proof.
  intros Hhash Hreq. unfold build_execute_action_request in Hreq. inv_ok Hreq. b2p.
  split; [|done]. constructor; simpl; try done. lia.
Qed.

(** Dispatching a leased, justified request. *)
Lemma dispatch_safe id req L l :
  rq_rule_id req ∈ L → justified req l → harmless L l (dispatch id req).
Proof.
  intros HL Hj. unfold dispatch. cbn [do ask mbind prog_mbind prog_bind].
  apply safe_plain; [by split|]. intros now l1 Hl1 _. intros l2 Hl2. split.
  - split; [done|]. destruct Hj as (rule & nonce & n & l0 & Hreq & Hn & Hsuf & Hrest).
    exists rule, nonce, n, l0. split_and!; try done; [|apply Hrest..].
    by do 2 (etransitivity; [done|]).
  - intros [receipt|e] _; apply harmless_keeps; cbn [prog_bind];
      [|unfold mark_failed_best_effort]; go.
Qed.

Lemma leased_safe stored nonce n L l :
  stored_ok l stored → wr_rule_id (st_rule stored) ∈ L → n ≠ 0 →
  ¬ closed (wr_rule_id (st_rule stored)) l → found_met (st_rule stored) l →
  harmless L (LUpdated (UExecutingIfConditionMet (wr_rule_id (st_rule stored)) nonce) n :: l)
    (leased fixture config stored nonce).
Proof.
  intros [Hi Hhash] HL Hn Hcl Hmet. unfold leased.
  destruct (build_execute_action_request _ _ _ _) as [req|e] eqn:Hreq.
  - apply build_request_of in Hreq as [Hreq Hnonce]; [|done].
    apply dispatch_safe; rewrite (ro_id _ _ Hreq) || idtac; [done|].
    exists (st_rule stored), nonce, n, l. by rewrite (ro_id _ _ Hreq).
  - apply harmless_keeps. unfold mark_failed_best_effort. destruct e; go.
Qed.

Lemma executor_process_rule_safe stored L l :
  stored_ok l stored → harmless L l (RuleExecutor.process_rule fixture config stored).
Proof.
  intros [Hi Hhash]. unfold RuleExecutor.process_rule.
  case_match; [by intros ? _|]. apply safe_plain; [by split|]. intros acquired l1 Hl1 _.
  cbn [prog_bind]. destruct acquired; [|by intros ? _]. cbn [negb do ask mbind prog_mbind prog_bind].
  intros l2 Hl2. split; [done|]. intros [n|e] Htold.
  - cbn [entries leases]. destruct (Z.eqb_spec n 0) as [Hn|Hn]; cbn [prog_bind].
    { apply harmless_keeps. go. }
    destruct (Htold n eq_refl Hn) as [Hcl Hmet].
    apply harmless_seq; [|intros; apply harmless_keeps; go].
    assert (LInserted (st_rule stored) ∈ l2) as Hi2 by in_log.
    apply leased_safe; [done|set_solver|done..|by apply Hmet].
  - apply harmless_keeps. cbn [prog_bind]. go.
Qed.

Lemma process_ready_safe ready report L l :
  Forall (stored_ok l) ready → harmless L l (process_ready fixture config ready report).
Proof.
  intros Hready. revert L l report Hready.
  induction ready as [|s ready IH]; intros L l report Hready; [by intros ? _|].
  apply Forall_cons in Hready as [Hs Hready]. cbn [process_ready].
  apply harmless_seq; [by apply executor_process_rule_safe|]. intros result L' l' Hl.
  destruct (tally_result _ _). apply IH.
  eapply Forall_impl; [done|]. intros s' [Hin Hh]. split; [in_log|done].
Qed.

Lemma execute_ready_rules_once_safe L l :
  harmless L l (execute_ready_rules_once fixture config).
Proof.
  apply safe_plain; [by split|]. intros [rules|e] l1 _ Hrules; cbn [prog_bind];
    [|by intros ? _].
  apply process_ready_safe. apply Forall_forall. intros s Hs.
  apply list_elem_of_In, List.filter_In in Hs as [Hs%list_elem_of_In _].
  specialize (Hrules _ eq_refl). rewrite Forall_forall in Hrules. by apply Hrules.
Qed.

Lemma execute_rule_once_safe id L l :
  harmless L l (execute_rule_once fixture config id).
Proof.
  apply safe_plain; [by split|]. intros [[s|]|e] l1 _ Hs; cbn [prog_bind];
    [case_match|..]; try by intros ? _.
  by apply executor_process_rule_safe, Hs.
Qed.
End executor.

(** ** Programs that may run *)
Section programs.
Context `{!Crates, !CratesLaws, !Sqlite, !SqliteLaws}.

Definition discard {A : Type} (p : Prog A) : Prog unit := _ ← p; mret tt.

(** One call of a client: the chat commands that register, read, revoke and
    settle rules.  Marking a rule met is the watcher's, sending the executor's. *)
Definition client_call (c : StoreCall) : Prop :=
  match c with
  | CInsert rule => well_typed rule
  | CUpdate (UConditionMet _) | CUpdate (UConditionMetIfActive _) => False
  | _ => True
  end.

Inductive daemon_program : Prog unit → Prop :=
| run_tick config ctx : daemon_program (discard (tick config ctx))
| run_force_tick config ctx : daemon_program (discard (force_tick config ctx))
| run_force_tick_rule config id ctx : daemon_program (discard (force_tick_rule config id ctx))
| run_health config slot now : daemon_program (discard (health config slot now))
| run_execute_ready fixture config :
    daemon_program (discard (execute_ready_rules_once fixture config))
| run_execute_rule fixture config id :
    daemon_program (discard (execute_rule_once fixture config id))
| run_client c : client_call c → daemon_program (discard (do (Store c))).

Lemma daemon_program_safe p L l : daemon_program p → harmless L l p.
Proof.
  intros Hp. destruct Hp as [| | | | | |c Hc].
  7: { intros l1 _. split; [by destruct c as [|? | | |[]]|]. intros a _ l2 _. done. }
  all: apply harmless_seq; [|by intros ? ? ? ? ? ?].
  5: apply execute_ready_rules_once_safe.
  5: apply execute_rule_once_safe.
  all: apply harmless_keeps; auto using tick_safe, force_tick_safe, force_tick_rule_safe,
    health_safe.
Qed.
End programs.

(** ** The invariant *)
Section invariant.
Context `{!Crates, !CratesLaws, !Sqlite, !SqliteLaws}.
Implicit Types (l : Log) (L : Ids) (t : Table).

(** A row that no lease can take any more. *)
Definition spent (t : Table) (id : list byte) : Prop :=
  ∃ row, t !! hex_encode id = Some row ∧ status_in [Active; ConditionMet] row = false.

Record wf (Ls : nat → Ids) (l : Log) (t : Table) : Prop := {
  wf_disjoint n m id : id ∈ Ls n → id ∈ Ls m → n = m;
  wf_leased n id : id ∈ Ls n → spent t id ∧ id ∉ sent_ids l;
  wf_sent id : id ∈ sent_ids l → spent t id;
  wf_closed id : closed id l → spent t id;
  wf_once : NoDup (sent_ids l);
  wf_rows k row : t !! k = Some row → ∃ rule, LInserted rule ∈ l ∧
    k = hex_encode (wr_rule_id rule) ∧ loads row rule ∧
    (col_status row = as_str ConditionMet → found_met rule l);
  wf_inserted rule : LInserted rule ∈ l → ∃ row,
    t !! hex_encode (wr_rule_id rule) = Some row ∧ loads row rule;
  wf_justified req l' : LSent req :: l' `suffix_of` l → justified req l'
}.

Lemma found_met_mono rule l l' : l `suffix_of` l' → found_met rule l → found_met rule l'.
Proof. intros Hl (ctx & He & Hs). exists ctx. split; by eapply elem_of_suffix. Qed.

Lemma row_stored_ok Ls l t k row s :
  wf Ls l t → t !! k = Some row → row_to_stored row = Ok s → stored_ok l s.
Proof.
  intros Hwf Hk Hs. destruct (wf_rows _ _ _ Hwf k row Hk) as (rule & Hi & _ & (s' & Hs' & <-) & _).
  rewrite Hs in Hs'. injection Hs' as <-. split; [done|].
  by apply row_to_stored_Ok in Hs as (Hhash & _).
Qed.

(** Calls that change neither the table nor what the history closes or sends. *)
Definition quiet (x : LogEntry) : Prop :=
  match x with
  | LEvaluated _ _ _ | LSimulated _ _ _ => True
  | LUpdated _ n => n = 0
  | LInserted _ | LSent _ => False
  end.

Lemma quiet_sent_ids es l : Forall quiet es → sent_ids (es ++ l) = sent_ids l.
Proof. induction 1 as [|[] es Hx _ IH]; try done; by destruct Hx. Qed.

Lemma quiet_closed es l id : Forall quiet es → closed id (es ++ l) → closed id l.
Proof.
  rewrite Forall_forall. intros Hes (u & n & [Hin|Hin]%elem_of_app & Hn & Hu).
  - by apply Hes in Hin.
  - by exists u, n.
Qed.

Lemma quiet_inserted es l rule :
  Forall quiet es → LInserted rule ∈ es ++ l → LInserted rule ∈ l.
Proof. rewrite Forall_forall. intros Hes [Hin|]%elem_of_app; [by apply Hes in Hin|done]. Qed.

Lemma quiet_suffix es l req l' : Forall quiet es →
  LSent req :: l' `suffix_of` es ++ l → LSent req :: l' `suffix_of` l.
Proof.
  induction 1 as [|x es Hx _ IH]; [done|]. intros [E|Hs]%suffix_cons_inv; [|by apply IH].
  injection E as Ex _. by rewrite <- Ex in Hx.
Qed.

Lemma wf_quiet Ls l t es : Forall quiet es → wf Ls l t → wf Ls (es ++ l) t.
Proof.
  intros Hes Hwf. constructor.
  - apply (wf_disjoint _ _ _ Hwf).
  - intros n id. rewrite quiet_sent_ids by done. apply (wf_leased _ _ _ Hwf).
  - intros id. rewrite quiet_sent_ids by done. apply (wf_sent _ _ _ Hwf).
  - intros id Hc%quiet_closed; [|done]. by apply (wf_closed _ _ _ Hwf).
  - rewrite quiet_sent_ids by done. apply (wf_once _ _ _ Hwf).
  - intros k row Hk. destruct (wf_rows _ _ _ Hwf k row Hk) as (rule & Hi & Hkey & Hj & Hm).
    exists rule. split_and!; [apply elem_of_app; by right|done..|]. intros Hs.
    eapply found_met_mono; [|by apply Hm]. by apply suffix_app_r.
  - intros rule Hi%quiet_inserted; [|done]. by apply (wf_inserted _ _ _ Hwf).
  - intros req l' Hs%quiet_suffix; [|done]. by apply (wf_justified _ _ _ Hwf).
Qed.

(** *** Leases *)
Lemma wf_shrink Ls Ls' l t :
  (∀ n id, id ∈ Ls' n → id ∈ Ls n) → wf Ls l t → wf Ls' l t.
Proof.
  intros Hsub Hwf. constructor; try apply Hwf.
  - intros n m id Hn Hm. by eapply (wf_disjoint _ _ _ Hwf); apply Hsub.
  - intros n id Hn. eapply (wf_leased _ _ _ Hwf). by apply Hsub.
Qed.

Lemma wf_lease Ls n id l t :
  (∀ m, id ∉ Ls m) → id ∉ sent_ids l → spent t id → wf Ls l t →
  wf (<[n := {[id]} ∪ Ls n]> Ls) l t.
Proof.
  intros Hfree Hsent Hspent Hwf.
  assert (∀ m id', id' ∈ (<[n := {[id]} ∪ Ls n]> Ls : nat → Ids) m →
    (m = n ∧ id' = id) ∨ id' ∈ Ls m) as Hin.
  { intros m id' Hid. destruct (decide (n = m)) as [<-|Hne].
    - rewrite fn_lookup_insert in Hid. set_solver.
    - rewrite fn_lookup_insert_ne in Hid by done. by right. }
  constructor; try apply Hwf.
  - intros m m' id' [[-> ->]|Hx]%Hin [[-> E]|Hy]%Hin; [done|by apply Hfree in Hy|..].
    + subst. by apply Hfree in Hx.
    + by eapply (wf_disjoint _ _ _ Hwf).
  - intros m id' [[-> ->]|Hx]%Hin; [done|]. by eapply (wf_leased _ _ _ Hwf).
Qed.

(** *** Dispatch *)
Lemma wf_send Ls n req l t :
  rq_rule_id req ∈ Ls n → justified req l → wf Ls l t →
  wf (<[n := Ls n ∖ {[rq_rule_id req]}]> Ls) (LSent req :: l) t.
Proof.
  intros HL Hj Hwf. destruct (wf_leased _ _ _ Hwf n _ HL) as [Hspent Hunsent].
  set (Ls' := <[n := Ls n ∖ {[rq_rule_id req]}]> Ls : nat → Ids).
  assert (∀ m id, id ∈ Ls' m → id ∈ Ls m ∧ id ≠ rq_rule_id req) as Hin.
  { unfold Ls'. intros m id Hid. destruct (decide (n = m)) as [<-|Hne].
    - rewrite fn_lookup_insert in Hid. set_solver.
    - rewrite fn_lookup_insert_ne in Hid by done. split; [done|]. intros ->.
      by apply Hne, (wf_disjoint _ _ _ Hwf _ _ (rq_rule_id req)). }
  assert (∀ id, id ∈ sent_ids (LSent req :: l) ↔ id = rq_rule_id req ∨ id ∈ sent_ids l) as Hs
    by (intros; apply elem_of_cons).
  constructor.
  - intros m m' id [Hm _]%Hin [Hm' _]%Hin. by eapply (wf_disjoint _ _ _ Hwf).
  - intros m id [Hm Hne]%Hin. destruct (wf_leased _ _ _ Hwf m id Hm). rewrite Hs. naive_solver.
  - intros id [->|Hid]%Hs; [done|]. by apply (wf_sent _ _ _ Hwf).
  - intros id (u & k & Hu & Hk). apply (wf_closed _ _ _ Hwf). exists u, k. split; [|done].
    by apply elem_of_cons in Hu as [|].
  - apply NoDup_cons. split; [done|apply Hwf].
  - intros k row Hk. destruct (wf_rows _ _ _ Hwf k row Hk) as (rule & Hi & Hkey & Hjs & Hm).
    exists rule. split_and!; [by right|done..|]. intros Hst.
    eapply found_met_mono; [|by apply Hm]. by apply suffix_cons_r.
  - intros rule [|Hi]%elem_of_cons; [done|]. by apply (wf_inserted _ _ _ Hwf).
  - intros req' l' [E|Hsuf]%suffix_cons_inv; [by injection E as -> ->|].
    by apply (wf_justified _ _ _ Hwf).
Qed.

(** *** Statements *)
Definition target (u : RuleUpdate) : list byte :=
  match u with
  | UMarkChecked id _ _ | UConditionMet id | UConditionMetIfActive id | UExecuting id _
  | UExecutingIfConditionMet id _ | UCompleted id _ _ | UFailed id _
  | UFailedIfNotTerminal id _ | ULastError id _ | UExpired id | UExpiredIfNotTerminal id
  | URevoked id | UHealthTick id _ => id
  end.

(** What an update does to the status of the row it changes. *)
Definition transition (u : RuleUpdate) (row row' : RowRaw) : Prop :=
  match u with
  | UMarkChecked _ _ _ | ULastError _ _ | UHealthTick _ _ => col_status row' = col_status row
  | UConditionMet _ => col_status row' = as_str ConditionMet
  | UConditionMetIfActive _ =>
      col_status row = as_str Active ∧ col_status row' = as_str ConditionMet
  | UExecutingIfConditionMet _ _ =>
      col_status row = as_str ConditionMet ∧ col_status row' = as_str Executing
  | UFailedIfNotTerminal _ _ | UExpiredIfNotTerminal _ =>
      status_in [Active; ConditionMet] row = true ∧
      status_in [Active; ConditionMet] row' = false
  | _ => status_in [Active; ConditionMet] row' = false
  end.

Lemma loads_with_state row rule status used checked tick error nonce completed revoked now :
  is_Some (parse_status status) ∨ status = col_status row → loads row rule →
  loads (with_state row status used checked tick error nonce completed revoked now) rule.
Proof.
  intros Hst (s & Hs & <-). assert (∃ st, status = as_str st) as [st ->].
  { destruct Hst as [[st Hst%parse_status_Some]| ->]; [by exists st|]. exists (st_status s).
    by apply row_to_stored_Ok in Hs as (_ & _ & ? & _). }
  eexists. split; [by apply row_to_stored_with_state|done].
Qed.

Lemma apply_update_cases u now t n t' : apply_update u now t = (n, t') →
  n = 0 ∧ t' = t ∨
  n = 1 ∧ ∃ row row', t !! hex_encode (target u) = Some row ∧
    t' = <[hex_encode (target u) := row']> t ∧ transition u row row' ∧
    ∀ rule, loads row rule → loads row' rule.
Proof.
  intros Hu. destruct u; cbv [apply_update mark_checked mark_condition_met
    mark_condition_met_if_active mark_executing mark_executing_if_condition_met mark_completed
    mark_failed mark_failed_if_not_terminal record_last_error mark_expired
    mark_expired_if_not_terminal mark_revoked update_health_tick update_where] in Hu;
  cbn [target]; destruct (t !! _) as [row|] eqn:Hrow; try (left; by injection Hu as <- <-);
  match type of Hu with (if ?p row then _ else _) = _ => destruct (p row) eqn:Hp end;
  try (left; by injection Hu as <- <-); right; injection Hu as <- <-;
  (split; [done|]);
  eexists row, _; (split; [done|]); (split; [done|]);
  (split; [|intros rule; apply loads_with_state; first [by right|by left; eexists]]);
  cbn [transition]; split_and?; try done;
  unfold status_in in Hp; cbn [existsb] in Hp; rewrite ?orb_false_r in Hp; b2p; done.
Qed.

Lemma status_in_ext ss (r r' : RowRaw) :
  col_status r' = col_status r → status_in ss r' = status_in ss r.
Proof. unfold status_in. by intros ->. Qed.

Lemma closes_transition u row row' id : closes u = Some id → transition u row row' →
  target u = id ∧ status_in [Active; ConditionMet] row' = false.
Proof.
  intros Hc Ht. destruct u; try done; injection Hc as <-; (split; [done|]); try apply Ht.
  destruct Ht as [_ Ht]. unfold status_in. by rewrite Ht.
Qed.

(** Nothing but the unguarded [mark_condition_met] brings a row back. *)
Lemma transition_spent u row row' : transition u row row' →
  match u with UConditionMet _ => False | _ => True end →
  status_in [Active; ConditionMet] row = false → status_in [Active; ConditionMet] row' = false.
Proof.
  intros Ht Hu Hrow. destruct u; try done; cbn [transition] in Ht;
    try (by rewrite (status_in_ext _ row)); try by apply Ht.
  all: destruct Ht as [Ht _]; unfold status_in in Hrow; by rewrite Ht in Hrow.
Qed.

Lemma wf_unique Ls l t r1 r2 : wf Ls l t → LInserted r1 ∈ l → LInserted r2 ∈ l →
  wr_rule_id r1 = wr_rule_id r2 → r1 = r2.
Proof.
  intros Hwf H1' H2' Hid.
  destruct (wf_inserted _ _ _ Hwf r1 H1') as (row1 & Hr1 & Hj1).
  destruct (wf_inserted _ _ _ Hwf r2 H2') as (row2 & Hr2 & Hj2).
  rewrite Hid, Hr2 in Hr1. injection Hr1 as ->.
  destruct Hj1 as (s1 & Hs1 & <-), Hj2 as (s2 & Hs2 & <-). by rewrite Hs1 in Hs2; injection Hs2 as <-.
Qed.

Lemma closed_cons u n l id : closed id (LUpdated u n :: l) → closes u = Some id ∨ closed id l.
Proof.
  intros (u' & n' & Hin & Hn & Hu). apply elem_of_cons in Hin as [[= <- <-]|Hin]; [by left|].
  right. by exists u', n'.
Qed.

Lemma wf_update Ls L l t u row row' :
  wf Ls l t → pre L l (Store (CUpdate u)) →
  t !! hex_encode (target u) = Some row → transition u row row' →
  (∀ rule, loads row rule → loads row' rule) →
  wf Ls (LUpdated u 1 :: l) (<[hex_encode (target u) := row']> t).
Proof.
  intros Hwf Hpre Hrow Htr Hload. set (t' := <[_ := row']> t).
  assert (∀ id, spent t id → spent t' id) as Hspent.
  { intros id (r & Hr & Hs). unfold spent, t'.
    destruct (decide (hex_encode (target u) = hex_encode id)) as [E|Hne].
    - rewrite E, lookup_insert_eq. eexists; split; [done|]. rewrite E in Hrow.
      assert (r = row) as -> by congruence. eapply transition_spent; [done| |done].
      by destruct u.
    - rewrite lookup_insert_ne by done. by exists r. }
  constructor; try apply Hwf.
  - intros n id Hid. destruct (wf_leased _ _ _ Hwf n id Hid). by split; [apply Hspent|].
  - intros id Hid. by apply Hspent, (wf_sent _ _ _ Hwf).
  - intros id [Hc|Hc]%closed_cons; [|by apply Hspent, (wf_closed _ _ _ Hwf)].
    destruct (closes_transition _ _ _ _ Hc Htr) as [<- Hs].
    exists row'. split; [apply lookup_insert_eq|done].
  - intros k r. unfold t'. rewrite lookup_insert_Some. intros [[<- <-]|[Hne Hk]].
    + destruct (wf_rows _ _ _ Hwf _ _ Hrow) as (rule & Hi & Hkey & Hjs & Hm).
      exists rule. split_and!; [by right|done|by apply Hload|]. intros Hst.
      eapply found_met_mono; [by apply suffix_cons_r|].
      destruct u; cbn [transition] in Htr; try (by rewrite Htr in Hst; apply Hm);
        try (by unfold status_in in Htr; rewrite Hst in Htr).
      1: destruct Hpre as (rule' & Hid & Hi' & Hmet);
         rewrite (wf_unique _ _ _ rule rule' Hwf Hi Hi'); [done|];
         apply hex_encode_inj; rewrite <- Hkey, Hid; done.
      all: destruct Htr as [_ Htr]; unfold status_in in Htr; rewrite Hst in Htr; done.
    + destruct (wf_rows _ _ _ Hwf _ _ Hk) as (rule & Hi & Hkey & Hjs & Hm).
      exists rule. split_and!; [by right|done|done|]. intros Hst.
      eapply found_met_mono; [by apply suffix_cons_r|by apply Hm].
  - intros rule [|Hi]%elem_of_cons; [done|].
    destruct (wf_inserted _ _ _ Hwf rule Hi) as (r & Hr & Hj). unfold t'.
    destruct (decide (hex_encode (target u) = hex_encode (wr_rule_id rule))) as [E|Hne].
    + rewrite E, lookup_insert_eq. exists row'. split; [done|].
      rewrite E, Hr in Hrow. injection Hrow as ->. by apply Hload.
    + rewrite lookup_insert_ne by done. by exists r.
  - intros req l' [|Hsuf]%suffix_cons_inv; [done|]. by apply (wf_justified _ _ _ Hwf).
Qed.

Lemma wf_insert Ls l t rule json now :
  wf Ls l t → well_typed rule → serde_to_string rule = Ok json →
  serde_from_str json = Ok rule → t !! hex_encode (wr_rule_id rule) = None →
  wf Ls (LInserted rule :: l)
    (<[hex_encode (wr_rule_id rule) := inserted_row rule json now]> t).
Proof.
  intros Hwf Hrule Hto Hfrom Hnone. set (t' := <[_ := _]> t).
  assert (loads (inserted_row rule json now) rule) as Hload
    by (eexists; split; [by apply inserted_row_loads|done]).
  assert (∀ k r, t !! k = Some r → t' !! k = Some r) as Ht.
  { intros k r Hk. unfold t'. rewrite lookup_insert_ne; [done|]. intros E.
    by rewrite <- E, Hnone in Hk. }
  assert (∀ id, spent t id → spent t' id) as Hspent.
  { intros id (r & Hr & Hs). exists r. by split; [apply Ht|]. }
  constructor; try apply Hwf.
  - intros n id Hid. destruct (wf_leased _ _ _ Hwf n id Hid). by split; [apply Hspent|].
  - intros id Hid. by apply Hspent, (wf_sent _ _ _ Hwf).
  - intros id (u & n & [|Hu]%elem_of_cons & Hc); [done|].
    by apply Hspent, (wf_closed _ _ _ Hwf); exists u, n.
  - intros k r. unfold t'. rewrite lookup_insert_Some. intros [[<- <-]|[Hne Hk]].
    + exists rule. by split_and!; [left|..].
    + destruct (wf_rows _ _ _ Hwf _ _ Hk) as (rule' & Hi & Hkey & Hjs & Hm).
      exists rule'. split_and!; [by right|done|done|]. intros Hst.
      eapply found_met_mono; [by apply suffix_cons_r|by apply Hm].
  - intros rule' [[= ->]|Hi]%elem_of_cons.
    + eexists. split; [apply lookup_insert_eq|done].
    + destruct (wf_inserted _ _ _ Hwf rule' Hi) as (r & Hr & Hj). exists r.
      by split; [apply Ht|].
  - intros req l' [|Hsuf]%suffix_cons_inv; [done|]. by apply (wf_justified _ _ _ Hwf).
Qed.

(** *** One event *)
Lemma get_stored_ok Ls l t id s : wf Ls l t → get id t = Ok (Some s) → stored_ok l s.
Proof.
  intros Hwf. unfold get. destruct (t !! _) as [row|] eqn:Hrow; [|done].
  intros (s' & Hs & [= ->])%bind_Ok. by eapply row_stored_ok.
Qed.

Lemma list_pending_stored_ok Ls l t limit ss : wf Ls l t →
  list_pending_lifecycle_limit limit t = Ok ss → Forall (stored_ok l) ss.
Proof.
  intros Hwf. unfold list_pending_lifecycle_limit. case_match; [by intros [= <-]|].
  rewrite collect_Ok. intros Hrows. apply Forall_forall. intros s Hs.
  apply list_elem_of_lookup in Hs as [i Hs].
  destruct (Forall2_lookup_r _ _ _ _ _ Hrows Hs) as (row & Hrow & Hload).
  apply list_elem_of_lookup_2, elem_of_take in Hrow as (j & Hj & _).
  apply list_elem_of_lookup_2, elem_of_select in Hj as (k & Hk & _).
  by eapply row_stored_ok.
Qed.

Lemma lease_unspent Ls l t id row : wf Ls l t →
  t !! hex_encode id = Some row → col_status row = as_str ConditionMet →
  (∀ m, id ∉ Ls m) ∧ id ∉ sent_ids l ∧ ¬ closed id l.
Proof.
  intros Hwf Hrow Hst.
  assert (¬ spent t id) as Hno.
  { intros (r & Hr & Hs). rewrite Hrow in Hr. injection Hr as <-. unfold status_in in Hs.
    by rewrite Hst in Hs. }
  split_and!; [intros m Hm|intros Hs|intros Hc]; apply Hno.
  - by eapply (wf_leased _ _ _ Hwf).
  - by apply (wf_sent _ _ _ Hwf).
  - by apply (wf_closed _ _ _ Hwf).
Qed.

(** What holds after an event of the program that holds [Ls n]. *)
Definition after (Ls : nat → Ids) (n : nat) (l : Log) (e : Event) (a : Answer e) (t : Table) :
    Prop :=
  told l e a ∧ wf (<[n := leases (Ls n) e a]> Ls) (entries e a ++ l) t.

Lemma after_same Ls n l e a t :
  told l e a → leases (Ls n) e a = Ls n → wf Ls (entries e a ++ l) t → after Ls n l e a t.
Proof.
  intros Ht HL Hwf. split; [done|]. eapply wf_shrink; [|done]. intros m id. rewrite HL.
  destruct (decide (n = m)) as [<-|]; [by rewrite fn_lookup_insert|].
  by rewrite fn_lookup_insert_ne.
Qed.

Lemma after_fault Ls n l t c m : wf Ls l t → after Ls n l (Store c) (store_fault c m) t.
Proof. intros Hwf. apply after_same; destruct c as [| | | |[]]; done. Qed.

Lemma after_update Ls n l t u now k t' : wf Ls l t → pre (Ls n) l (Store (CUpdate u)) →
  apply_update u now t = (k, t') → after Ls n l (Store (CUpdate u)) (Ok k) t'.
Proof.
  intros Hwf Hpre [[-> ->]|(-> & row & row' & Hrow & -> & Htr & Hload)]%apply_update_cases.
  - apply after_same; [|by destruct u|apply wf_quiet; [by repeat constructor|done]].
    destruct u; try done. by intros ? [= <-].
  - pose proof (wf_update Ls _ _ _ _ _ _ Hwf Hpre Hrow Htr Hload) as Hwf'.
    destruct (match u with UExecutingIfConditionMet id nonce => Some (id, nonce) | _ => None end)
      as [[id nonce]|] eqn:Hu; [|by apply after_same; destruct u].
    destruct u; try done; injection Hu as -> ->. destruct Htr as [Hst Hst'].
    cbn [target] in *. destruct (lease_unspent _ _ _ _ _ Hwf Hrow Hst) as (Hfree & Hsent & Hcl).
    split.
    + intros k [= <-] _. split; [done|]. intros rule Hi Hid.
      destruct (wf_rows _ _ _ Hwf _ _ Hrow) as (rule' & Hi' & Hkey & _ & Hm).
      rewrite (wf_unique _ _ _ rule rule' Hwf); [by apply Hm|done..|].
      rewrite Hid. by apply hex_encode_inj.
    + cbn [leases entries Z.eqb]. apply wf_lease; [done|done| |done].
      exists row'. split; [apply lookup_insert_eq|]. unfold status_in. by rewrite Hst'.
Qed.

Lemma after_store Ls n l t c now a t' : wf Ls l t → pre (Ls n) l (Store c) →
  exec_store c now t = (a, t') → after Ls n l (Store c) a t'.
Proof.
  intros Hwf Hpre Ha. destruct c as [rule|id|limit|slot limit|u]; cbn [exec_store] in Ha.
  - unfold insert_rule in Ha. destruct (serde_roundtrip rule Hpre) as (json & Hto & Hfrom).
    rewrite Hto in Ha. cbn [col_rule_id inserted_row] in Ha.
    destruct (t !! _) eqn:Hrow; injection Ha as <- <-; apply after_same; try done.
    by apply wf_insert.
  - injection Ha as <- <-. apply after_same; try done.
    intros s Hs. by eapply get_stored_ok.
  - injection Ha as <- <-. apply after_same; try done.
    intros ss Hss. by eapply list_pending_stored_ok.
  - injection Ha as <- <-. by apply after_same.
  - destruct (apply_update u now t) as [k t1] eqn:Hu. injection Ha as <- <-.
    by eapply after_update.
Qed.

Lemma after_event Ls n i env e s a s' :
  wf Ls (sh_log s) (sh_table s) → pre (Ls n) (sh_log s) e → answer i env e s = (a, s') →
  sh_log s' = sh_log s ∧ after Ls n (sh_log s) e a (sh_table s').
Proof.
  intros Hwf Hpre Ha. destruct e as [c| |id|id| |rule ctx|rule ctx|req| |f]; cbn [answer] in Ha.
  - destruct (env_fault env) as [m|].
    + injection Ha as <- <-. split; [done|by apply after_fault].
    + destruct (exec_store c (env_now env) (sh_table s)) as [a' t'] eqn:He.
      injection Ha as <- <-. split; [done|by eapply after_store].
  - injection Ha as <- <-. split; [done|by apply after_same].
  - case_bool_decide; injection Ha as <- <-; (split; [done|by apply after_same]).
  - injection Ha as <- <-. split; [done|by apply after_same].
  - injection Ha as <- <-. split; [done|by apply after_same].
  - injection Ha as <- <-. split; [done|]. apply after_same; try done.
    apply wf_quiet; [by repeat constructor|done].
  - injection Ha as <- <-. split; [done|]. apply after_same; try done.
    apply wf_quiet; [by repeat constructor|done].
  - injection Ha as <- <-. split; [done|]. destruct Hpre. split; [done|]. by apply wf_send.
  - injection Ha as <- <-. split; [done|by apply after_same].
  - injection Ha as <- <-. split; [done|by apply after_same].
Qed.

(** *** The pool *)
Definition pool_ok (pl : Pool) : Prop :=
  ∃ Ls : nat → Ids, wf Ls (sh_log (pl_shared pl)) (sh_table (pl_shared pl)) ∧
    ∀ n th, pl_threads pl !! n = Some th →
      harmless (Ls n) (sh_log (pl_shared pl)) (th_prog th).

Definition runs (i : nat) : Prog unit → Prop := daemon_program.

Lemma pool_ok_step pl pl' : step runs pl pl' → pool_ok pl → pool_ok pl'.
Proof.
  intros Hstep (Ls & Hwf & Hth). destruct Hstep as
    [ts s n i p Hn Hp|ts s n i e k env a s' Hn He|ts s n]; cbn [pl_threads pl_shared] in *.
  - exists Ls. split; [done|]. intros m th Hm. cbn [pl_threads] in Hm.
    apply lookup_insert_Some in Hm as [[<- <-]|[_ Hm]]; [|by apply Hth].
    by apply daemon_program_safe.
  - unfold exec_event in He. destruct (answer i env e s) as [a' s1] eqn:Ha.
    injection He as -> <-. destruct (Hth _ _ Hn _ (reflexivity _)) as [Hpre Hk].
    destruct (after_event _ n _ _ _ _ _ _ Hwf Hpre Ha) as [Hlog [Htold Hwf']].
    exists (<[n := leases (Ls n) e a]> Ls). cbn [pl_shared log_entries sh_log sh_table]. rewrite Hlog.
    split; [done|]. intros m th Hm. cbn [pl_threads] in Hm.
    apply lookup_insert_Some in Hm as [[<- <-]|[Hne Hm]].
    + rewrite fn_lookup_insert. by apply Hk.
    + rewrite fn_lookup_insert_ne by done. eapply safe_mono; [|by apply Hth].
      by apply suffix_app_r.
  - exists Ls. split; [done|]. intros m th Hm. cbn [pl_threads] in Hm. apply lookup_delete_Some in Hm as [_ Hm].
    by apply Hth.
Qed.

Lemma reachable_ok pl : reachable runs ∅ pl → pool_ok pl.
Proof.
  induction 1 as [|pl pl' _ IH Hstep]; [|by eapply pool_ok_step].
  exists (λ _, ∅). split; [|done]. constructor; try done; try set_solver.
  - intros id (u & n & Hu & _). by apply elem_of_nil in Hu.
  - constructor.
  - by intros req l' Hs%suffix_nil_inv.
Qed.

(** A pool reaches what any of its programs, run to its end, reaches. *)
Lemma reachable_run {allowed t0} ts s n i env p :
  reachable allowed t0 (MkPool ts s) → ts !! n = Some (MkThread i p) →
  ∃ ts', reachable allowed t0 (MkPool ts' (run i env p s).2).
Proof.
  revert ts s. induction p as [a|e k IH]; intros ts s Hr Hn; [by exists ts|]. cbn [run].
  destruct (exec_event i env e s) as [a s'] eqn:He. eapply (IH a); [|apply lookup_insert_eq].
  eapply reachable_step; [done|]. by eapply step_event.
Qed.

Lemma reachable_program {allowed : nat → Prog unit → Prop} {t0} ts s i env p :
  reachable allowed t0 (MkPool ts s) → allowed i p →
  ∃ ts', reachable allowed t0 (MkPool ts' (run i env p s).2).
Proof.
  intros Hr Hp. set (n := fresh (dom ts)).
  eapply (reachable_run _ _ n); [|apply lookup_insert_eq].
  eapply reachable_step; [done|]. apply step_spawn; [|done].
  apply not_elem_of_dom, is_fresh.
Qed.
End invariant.
