(* ===== verification/RuleSteps.v ===== *)
(** * A handler run alone

    The store's updates as a state machine on rule statuses, and what the
    watcher's and the executor's per-rule handlers do to a rule when nothing
    else runs and no statement fails. *)
From S2P Require Import Prelude Interaction Borsh WatchRules WatcherBase RuleStore Daemon RuleWatcher.
From S2P Require Import RuleExecutor RuleDaemon.
#[local] Open Scope Z_scope.

(** ** The status machine *)

(** The status an update leaves, [None] when its guard refuses the row. *)
Definition next_status (u : RuleUpdate) (st : WatchRuleStatus) : option WatchRuleStatus :=
  let open := bool_decide (st = Active) || bool_decide (st = ConditionMet) in
  match u with
  | UMarkChecked _ _ _ | ULastError _ _ | UHealthTick _ _ => Some st
  | UConditionMet _ => Some ConditionMet
  | UConditionMetIfActive _ => if bool_decide (st = Active) then Some ConditionMet else None
  | UExecuting _ _ => Some Executing
  | UExecutingIfConditionMet _ _ =>
      if bool_decide (st = ConditionMet) then Some Executing else None
  | UCompleted _ _ _ => Some Completed
  | UFailed _ _ => Some Failed
  | UFailedIfNotTerminal _ _ => if open then Some Failed else None
  | UExpired _ => Some StatusExpired
  | UExpiredIfNotTerminal _ => if open then Some StatusExpired else None
  | URevoked _ => Some Revoked
  end.

Section steps.
Context `{!Crates, !CratesLaws, !Sqlite, !SqliteLaws}.

(** The table holds this rule, in this status. *)
Definition holds (t : Table) (rule : WatchRule) (st : WatchRuleStatus) : Prop :=
  ∃ row s, t !! hex_encode (wr_rule_id rule) = Some row ∧ row_to_stored row = Ok s ∧
    st_rule s = rule ∧ st_status s = st.

(** The requests of a history, newest first. *)
Definition sends (l : list LogEntry) : list Stage2ExecuteActionRequest :=
  omap (λ x, match x with LSent req => Some req | _ => None end) l.

Definition stored_hashed (s : StoredWatchRule) : Prop :=
  st_canonical_rule_hash s = canonical_rule_hash (st_rule s).

(** Only the rule's row differs. *)
Definition others_kept (rule : WatchRule) (t t' : Table) : Prop :=
  ∀ k, k ≠ hex_encode (wr_rule_id rule) → t' !! k = t !! k.

Lemma apply_update_holds u now t rule st :
  holds t rule st → target u = wr_rule_id rule →
  match next_status u st with
  | Some st' => ∃ t', apply_update u now t = (1, t') ∧ holds t' rule st' ∧ others_kept rule t t'
  | None => apply_update u now t = (0, t)
  end.
Proof.
  intros (row & s & Hrow & Hs & <- & <-) Hu.
  assert (col_status row = as_str (st_status s)) as Hst
    by (by apply row_to_stored_Ok in Hs as (_ & _ & ? & _)).
  assert (∀ ss, status_in ss row = existsb (λ st, bool_decide (st_status s = st)) ss) as Hin.
  { intros ss. unfold status_in. rewrite Hst. induction ss as [|x ss IH]; [done|]. simpl.
    rewrite IH. f_equal. apply bool_decide_ext. split; [apply as_str_inj|by intros ->]. }
  assert (∀ st used checked tick error nonce completed revoked,
    let t' := <[hex_encode (wr_rule_id (st_rule s)) := with_state row (as_str st) used checked
                 tick error nonce completed revoked now]> t in
    holds t' (st_rule s) st ∧ others_kept (st_rule s) t t') as Hnew.
  { intros st'. intros. split.
    - eexists _, _. split; [apply lookup_insert_eq|].
      split; [by apply row_to_stored_with_state|done].
    - intros k Hk. by apply lookup_insert_ne. }
  destruct u; cbn [target] in Hu; subst; cbn [next_status apply_update];
    unfold mark_checked, mark_condition_met, mark_condition_met_if_active, mark_executing,
      mark_executing_if_condition_met, mark_completed, mark_failed,
      mark_failed_if_not_terminal, record_last_error, mark_expired,
      mark_expired_if_not_terminal, mark_revoked, update_health_tick, update_where, any_row;
    rewrite Hrow, ?Hin, ?Hst; cbn [existsb]; rewrite ?orb_false_r;
    try destruct (_ || _); try case_bool_decide; eauto.
Qed.

(** ** Running one event alone *)
Variables (i : nat) (env : Environment).
Hypothesis no_fault : env_fault env = None.

Lemma run_update {A : Type} u (k : SRes Z → Prog A) s rule st :
  holds (sh_table s) rule st → target u = wr_rule_id rule →
  ∃ n t', run i env (Vis (Store (CUpdate u)) k) s =
      run i env (k (Ok n)) (log_entries [LUpdated u n] (with_table t' s)) ∧
    match next_status u st with
    | Some st' => n = 1 ∧ holds t' rule st' ∧ others_kept rule (sh_table s) t'
    | None => n = 0 ∧ t' = sh_table s
    end.
Proof.
  intros Hh Hu. pose proof (apply_update_holds u (env_now env) _ _ _ Hh Hu) as Hn.
  cbn [run exec_event answer]. unfold exec_event. cbn [answer]. rewrite no_fault.
  cbn [exec_store]. destruct (next_status u st) as [st'|].
  - destruct Hn as (t' & -> & Hh' & Hk). by exists 1, t'.
  - rewrite Hn. by exists 0, (sh_table s).
Qed.

(** The run ends with the rule in this status, these requests sent, the other
    rows and the in-flight set as they were. *)
Record moves (rule : WatchRule) (st : WatchRuleStatus) (reqs : list Stage2ExecuteActionRequest)
    (s s' : Shared) : Prop := {
  mv_holds : holds (sh_table s') rule st;
  mv_sent : sends (sh_log s') = (reqs ++ sends (sh_log s))%list;
  mv_others : others_kept rule (sh_table s) (sh_table s');
  mv_in_flight : in_flight i s' = in_flight i s
}.
Definition leads {A : Type} (rule : WatchRule) (st : WatchRuleStatus)
    (reqs : list Stage2ExecuteActionRequest) (p : Prog A) (s : Shared) : Prop :=
  moves rule st reqs s (run i env p s).2.

Lemma moves_refl rule st s : holds (sh_table s) rule st → moves rule st [] s s.
Proof. by constructor. Qed.

Lemma moves_trans rule st st' reqs reqs' s s1 s2 :
  moves rule st reqs s s1 → moves rule st' reqs' s1 s2 →
  moves rule st' (reqs' ++ reqs)%list s s2.
Proof.
  intros [_ Hs Ho Hf] [Hh' Hs' Ho' Hf']. constructor; [done| | |by rewrite Hf'].
  - by rewrite Hs', Hs, app_assoc.
  - intros k Hk. by rewrite Ho', Ho.
Qed.

Lemma leads_ret {A : Type} rule st (a : A) s :
  holds (sh_table s) rule st → leads rule st [] (Ret a) s.
Proof. apply moves_refl. Qed.

(** After a part that sends nothing. *)
Lemma leads_after rule st st' reqs s s1 s2 :
  moves rule st [] s s1 → moves rule st' reqs s1 s2 → moves rule st' reqs s s2.
Proof. intros H1' H2'. rewrite <- (app_nil_r reqs). by eapply moves_trans. Qed.

Lemma leads_bind {A B : Type} rule st st' reqs (p : Prog A) (f : A → Prog B) s :
  leads rule st [] p s → (∀ a s1, moves rule st [] s s1 → leads rule st' reqs (f a) s1) →
  leads rule st' reqs (p ≫= f) s.
Proof.
  unfold leads. intros Hp Hf. rewrite run_bind. destruct (run i env p s) as [a s1].
  eapply leads_after; [done|]. by apply Hf.
Qed.

Lemma leads_update {A : Type} u (k : SRes Z → Prog A) rule st st' reqs s :
  holds (sh_table s) rule st → target u = wr_rule_id rule →
  (∀ n s1, n = (if next_status u st then 1 else 0) →
     moves rule (default st (next_status u st)) [] s s1 → leads rule st' reqs (k (Ok n)) s1) →
  leads rule st' reqs (Vis (Store (CUpdate u)) k) s.
Proof.
  intros Hh Hu Hk. destruct (run_update u k s rule st Hh Hu) as (n & t' & Hrun & Hn).
  unfold leads. rewrite Hrun. set (s1 := log_entries _ _).
  assert (moves rule (default st (next_status u st)) [] s s1) as Hm.
  { destruct (next_status u st); destruct Hn as [_ Hn]; [destruct Hn|subst]; by constructor. }
  eapply leads_after; [done|]. apply (Hk n); [|done]. by destruct (next_status u st), Hn.
Qed.

(** Events that touch neither the table nor the in-flight set. *)
Lemma leads_quiet {A : Type} e (k : Answer e → Prog A) rule st st' reqs s :
  match e with Now | Evaluate _ _ | Simulate _ _ | WriteState _ => True | _ => False end →
  holds (sh_table s) rule st →
  (∀ s1, moves rule st [] s s1 → leads rule st' reqs (k (answer i env e s).1) s1) →
  leads rule st' reqs (Vis e k) s.
Proof.
  intros He Hh Hk. unfold leads. cbn [run]. unfold exec_event.
  destruct e; try done; cbn [answer] in *; cbn [entries];
    (eapply leads_after; [|apply Hk]; by constructor).
Qed.

Lemma leads_get {A : Type} (k : _ → Prog A) rule st st' reqs s :
  holds (sh_table s) rule st →
  (∀ stored s1, st_rule stored = rule → st_status stored = st → stored_hashed stored →
     moves rule st [] s s1 → leads rule st' reqs (k (Ok (Some stored))) s1) →
  leads rule st' reqs (Vis (Store (CGet (wr_rule_id rule))) k) s.
Proof.
  intros Hh Hk. destruct Hh as (row & stored & Hrow & Hs & Hr & Hst).
  unfold leads. cbn [run]. unfold exec_event. cbn [answer]. rewrite no_fault.
  cbn [exec_store]. unfold get. rewrite Hrow, Hs. cbn [mbind result_bind entries].
  eapply leads_after; [|apply Hk; [done..| |]].
  - constructor; try done. by exists row, stored.
  - by apply row_to_stored_Ok in Hs as (? & _).
  - constructor; try done. by exists row, stored.
Qed.

Lemma leads_send {A : Type} req (k : _ → Prog A) rule st st' s :
  holds (sh_table s) rule st →
  (∀ s1, moves rule st [req] s s1 → leads rule st' [] (k (env_send env req)) s1) →
  leads rule st' [req] (Vis (Send req) k) s.
Proof.
  intros Hh Hk. unfold leads. cbn [run]. unfold exec_event. cbn [answer entries].
  eapply (moves_trans _ _ _ [req] []); [|apply Hk]; by constructor.
Qed.

(** Work under the in-flight guard of a rule. *)
Lemma leads_guarded {A B : Type} rule st st' reqs (k : bool → Prog B) (p : Prog A) (f : A → B) s :
  let id := wr_rule_id rule in
  holds (sh_table s) rule st →
  k true = (a ← p; _ ← do (Release id); mret (f a)) →
  (∀ s1, holds (sh_table s1) rule st → leads rule st' reqs p s1) →
  leads rule st [] (k false) s →
  leads rule (if bool_decide (id ∈ in_flight i s) then st else st')
    (if bool_decide (id ∈ in_flight i s) then [] else reqs) (Vis (TryAcquire id) k) s.
Proof.
  intros id Hh Hk Hp Hq. unfold leads. cbn [run]. unfold exec_event. cbn [answer].
  case_bool_decide as Hin; [by destruct s|]. rewrite Hk, run_bind.
  set (s1 := log_entries _ _). specialize (Hp s1 Hh). unfold leads in Hp.
  destruct (run i env p s1) as [a s2], Hp as [Hh2 Hs2 Ho2 Hf2]. constructor; [done..|].
  cbn [fst snd] in *. change (in_flight i (run i env _ s2).2) with
    (default ∅ (<[i := in_flight i s2 ∖ {[id]}]> (sh_in_flight s2) !! i)).
  rewrite lookup_insert_eq, Hf2. unfold s1, in_flight at 1. cbn. rewrite lookup_insert_eq. cbn.
  set_solver.
Qed.

(** ** The watcher *)

(** What a tick makes of a rule: it expires an active rule, and otherwise
    advances it when its conditions hold and its execution simulates. *)
Definition watched (slot : Z) (flying : bool) (rule : WatchRule) (st : WatchRuleStatus)
    (ev : WRes bool) (sim : WRes unit) : WatchRuleStatus :=
  if bool_decide (st ≠ Active) then st
  else if wr_expires_at_slot rule <=? slot then StatusExpired
  else if flying then Active
  else match ev with
    | Ok true => match sim with
        | Ok _ => ConditionMet
        | Err (Terminal _) => Failed
        | Err _ => Active
        end
    | Err (Terminal _) => Failed
    | _ => Active
    end.

Lemma record_transient_leads rule st m r s :
  holds (sh_table s) rule st → leads rule st [] (record_transient (wr_rule_id rule) m r) s.
Proof.
  intros Hh. eapply leads_update; [done..|]. intros n s1 _ Hm. apply leads_ret, Hm.
Qed.

Lemma record_terminal_leads rule m r s :
  holds (sh_table s) rule Active → leads rule Failed [] (record_terminal (wr_rule_id rule) m r) s.
Proof.
  intros Hh. eapply leads_update; [done..|]. intros n s1 _ Hm. apply leads_ret, Hm.
Qed.

Lemma leads_then_ret {A B : Type} rule st (p : Prog A) (f : A → B) s :
  leads rule st [] p s → leads rule st [] (a ← p; mret (f a)) s.
Proof. intros Hp. eapply leads_bind; [done|]. intros a s1 Hm. apply leads_ret, Hm. Qed.

Lemma handle_condition_true_leads rule ctx r s : holds (sh_table s) rule Active →
  leads rule (match env_simulate env rule ctx with
              | Ok _ => ConditionMet | Err (Terminal _) => Failed | Err _ => Active end) []
    (handle_condition_true rule ctx r) s.
Proof.
  intros Hh. eapply leads_quiet; [done..|]. intros s1 Hm. cbn [answer fst prog_bind].
  destruct (env_simulate env rule ctx) as [u|[m|m|m]].
  - eapply leads_update; [apply Hm|done|]. intros n s2 _ Hm2. apply leads_ret, Hm2.
  - apply leads_then_ret, record_transient_leads, Hm.
  - apply leads_then_ret, record_terminal_leads, Hm.
  - apply leads_ret, Hm.
Qed.

Lemma process_guarded_leads rule ctx r s : holds (sh_table s) rule Active →
  leads rule (match env_evaluate env rule ctx with
              | Ok true => match env_simulate env rule ctx with
                           | Ok _ => ConditionMet | Err (Terminal _) => Failed
                           | Err _ => Active end
              | Err (Terminal _) => Failed | _ => Active end) []
    (process_guarded rule ctx r) s.
Proof.
  intros Hh. eapply leads_quiet; [done..|]. intros s1 Hm1. cbn [prog_bind].
  eapply leads_update; [apply Hm1|done|]. intros n s2 _ Hm2. cbn [prog_bind].
  eapply leads_quiet; [done|apply Hm2|]. intros s3 Hm3. cbn [answer fst prog_bind].
  destruct (env_evaluate env rule ctx) as [[]|[m|m|m]].
  - apply handle_condition_true_leads, Hm3.
  - apply leads_ret, Hm3.
  - apply leads_then_ret, record_transient_leads, Hm3.
  - apply leads_then_ret, record_terminal_leads, Hm3.
  - apply leads_ret, Hm3.
Qed.

Lemma watcher_process_rule_leads stored ctx report s :
  let rule := st_rule stored in
  holds (sh_table s) rule (st_status stored) →
  leads rule (watched (current_slot ctx) (bool_decide (wr_rule_id rule ∈ in_flight i s)) rule
                (st_status stored) (env_evaluate env rule ctx) (env_simulate env rule ctx)) []
    (RuleWatcher.process_rule stored ctx report) s.
Proof.
  intros rule Hh. unfold watched, RuleWatcher.process_rule. fold rule.
  case_bool_decide as Hact; [by apply leads_ret|]. rewrite Hact in Hh.
  destruct (_ <=? _).
  - eapply leads_update; [done..|]. intros n s1 _ Hm. apply leads_ret, Hm.
  - cbn [do ask mbind prog_mbind prog_bind].
    match goal with |- leads _ _ _ (Vis _ ?k) _ =>
      pose proof (λ H, leads_guarded rule Active _ [] k (process_guarded rule ctx report) id s Hh
        H (process_guarded_leads rule ctx report)) as Hg end.
    specialize (Hg (reflexivity _)). destruct (bool_decide (_ ∈ _)); apply Hg;
      by apply leads_ret.
Qed.

(** ** The executor *)
Variables (fixture : DemoSolendExecutionFixture) (config : Stage2ExecutorConfig).

(** What the executor makes of a rule whose row is in status [st]: the end of
    the rule, and the request it dispatched. *)
Definition executed (flying : bool) (stored : StoredWatchRule) (st : WatchRuleStatus) :
    WatchRuleStatus * list Stage2ExecuteActionRequest :=
  if negb (allowed_action_type config (action_type (wr_action (st_rule stored)))) then (st, [])
  else if flying then (st, [])
  else if bool_decide (st ≠ ConditionMet) then (st, [])
  else match build_execute_action_request fixture config stored
               (next_nonce (st_execution_nonce stored)) with
    | Err _ => (Failed, [])
    | Ok req => (match env_send env req with Ok _ => Completed | Err _ => Failed end, [req])
    end.

Lemma mark_failed_leads rule st id m s : wr_rule_id rule = id →
  holds (sh_table s) rule st → leads rule Failed [] (mark_failed_best_effort id m) s.
Proof.
  intros <- Hh. eapply leads_update; [done..|]. intros n s1 _ Hm. apply leads_ret, Hm.
Qed.

Lemma dispatch_leads rule req s : holds (sh_table s) rule Executing →
  leads rule (match env_send env req with Ok _ => Completed | Err _ => Failed end) [req]
    (dispatch (wr_rule_id rule) req) s.
Proof.
  intros Hh. eapply leads_quiet; [done..|]. intros s1 Hm. cbn [prog_bind].
  eapply leads_send; [apply Hm|]. intros s2 Hm2. cbn [prog_bind].
  destruct (env_send env req) as [receipt|e].
  - eapply leads_update; [apply Hm2|done|]. intros n s3 _ Hm3. apply leads_ret, Hm3.
  - eapply leads_then_ret, mark_failed_leads; [done|apply Hm2].
Qed.

Lemma leased_leads stored nonce s : let rule := st_rule stored in
  holds (sh_table s) rule Executing →
  let out := match build_execute_action_request fixture config stored nonce with
    | Err _ => (Failed, [])
    | Ok req => (match env_send env req with Ok _ => Completed | Err _ => Failed end, [req])
    end in
  leads rule out.1 out.2 (leased fixture config stored nonce) s.
Proof.
  intros rule Hh. unfold leased.
  destruct (build_execute_action_request _ _ _ _) as [req|e]; [by apply dispatch_leads|].
  destruct e; eapply leads_then_ret, mark_failed_leads; done.
Qed.

Lemma executor_process_rule_leads stored st s : let rule := st_rule stored in
  holds (sh_table s) rule st →
  let out := executed (bool_decide (wr_rule_id rule ∈ in_flight i s)) stored st in
  leads rule out.1 out.2 (RuleExecutor.process_rule fixture config stored) s.
Proof.
  intros rule Hh. unfold executed, RuleExecutor.process_rule. fold rule.
  destruct (negb _); [by apply leads_ret|]. cbn [do ask mbind prog_mbind prog_bind].
  set (nonce := next_nonce _).
  set (p := lease ← do (Store (CUpdate (UExecutingIfConditionMet (wr_rule_id rule) nonce)));
    match lease with
    | Ok n => if n =? 0 then mret (RLeaseLost (wr_rule_id rule))
              else leased fixture config stored nonce
    | Err e => mret (RInternalError (wr_rule_id rule)
        (String.append "mark_executing_if_condition_met: " (show_store_error e)))
    end).
  set (out := if bool_decide (st ≠ ConditionMet) then _ else _).
  assert (∀ s1, holds (sh_table s1) rule st → leads rule out.1 out.2 p s1) as Hp.
  { intros s1 Hh1. eapply leads_update; [done..|]. intros n s2 -> Hm. cbn [prog_bind].
    unfold out. cbn [next_status] in *. destruct (decide (st = ConditionMet)) as [->|Hne].
    - rewrite bool_decide_eq_false_2 by (by intros []). apply leased_leads, Hm.
    - rewrite bool_decide_eq_true_2 by done. rewrite (bool_decide_eq_false_2 _ Hne) in *.
      apply leads_ret, Hm. }
  match goal with |- leads _ _ _ (Vis _ ?k) _ =>
    pose proof (λ H, leads_guarded rule st out.1 out.2 k p id s Hh H Hp) as Hg end.
  specialize (Hg (reflexivity _)).
  destruct (bool_decide (_ ∈ _)); apply Hg; by apply leads_ret.
Qed.

(** ** From registration to completion *)
Lemma finalise_report_leads rule st report s :
  holds (sh_table s) rule st → leads rule st [] (finalise_report report) s.
Proof.
  intros Hh. eapply leads_quiet; [done..|]. intros s1 Hm. cbn [prog_bind].
  eapply leads_quiet; [done|apply Hm|]. intros s2 Hm2. apply leads_ret, Hm2.
Qed.

Lemma force_tick_rule_leads wcfg rule ctx s :
  force_tick_enabled wcfg = true → holds (sh_table s) rule Active →
  leads rule (watched (current_slot ctx) (bool_decide (wr_rule_id rule ∈ in_flight i s)) rule
                Active (env_evaluate env rule ctx) (env_simulate env rule ctx)) []
    (force_tick_rule wcfg (wr_rule_id rule) ctx) s.
Proof.
  intros Hforce Hh. unfold force_tick_rule. rewrite Hforce. cbn [negb].
  eapply leads_quiet; [done..|]. intros s1 Hm1. cbn [prog_bind].
  eapply leads_get; [apply Hm1|]. intros stored s2 <- Hst _ Hm2. cbn [prog_bind].
  rewrite Hst. cbn [terminal_status].
  pose proof (watcher_process_rule_leads stored ctx
    (set_loaded (set_force (started (now_ms ctx)) true (Some (wr_rule_id (st_rule stored))) false)
       1 false) s2) as Hp.
  rewrite Hst in Hp. specialize (Hp (mv_holds _ _ _ _ _ Hm2)).
  rewrite (mv_in_flight _ _ _ _ _ Hm2), (mv_in_flight _ _ _ _ _ Hm1) in Hp.
  eapply leads_bind; [exact Hp|]. intros report s3 Hm3.
  eapply leads_then_ret, finalise_report_leads, Hm3.
Qed.

Lemma execute_rule_once_leads rule s p :
  let type := action_type (wr_action rule) in
  allowed_action_type config type = true → wr_used_amount_raw rule < wr_max_input_amount_raw rule →
  build_payload fixture (wr_action rule) = Ok p →
  (∀ req, request_of rule req → ∃ receipt, env_send env req = Ok receipt) →
  wr_rule_id rule ∉ in_flight i s → holds (sh_table s) rule ConditionMet →
  ∃ req, request_of rule req ∧
    leads rule Completed [req] (execute_rule_once fixture config (wr_rule_id rule)) s.
Proof.
  intros type Htype Hroom Hp Hsend Hfree Hh.
  assert (∀ stored, st_rule stored = rule → stored_hashed stored → ∃ req, request_of rule req ∧
    build_execute_action_request fixture config stored
      (next_nonce (st_execution_nonce stored)) = Ok req) as Hbuild.
  { intros stored <- Hhash. assert (∃ req, build_execute_action_request fixture config stored
      (next_nonce (st_execution_nonce stored)) = Ok req) as [req Hreq].
    { unfold build_execute_action_request. fold type. rewrite Htype, throw_if_false by done.
      cbn [mbind result_bind]. rewrite throw_if_false by (by apply Z.leb_gt).
      destruct (wr_action _); [|done]. rewrite Hp. by eexists. }
    exists req. split; [|done]. by eapply build_request_of. }
  destruct Hh as (row & stored & Hrow & Hload & Hr & Hst).
  destruct (Hbuild stored Hr) as (req & Hreq & Hb); [by apply row_to_stored_Ok in Hload as (? & _)|].
  exists req. split; [done|]. unfold leads, execute_rule_once.
  cbn [do ask mbind prog_mbind prog_bind run]. unfold exec_event. cbn [answer]. rewrite no_fault.
  cbn [exec_store]. unfold get. rewrite Hrow, Hload. cbn [mbind result_bind entries prog_bind].
  rewrite Hst, bool_decide_eq_false_2 by (by intros []).
  assert (holds (sh_table s) (st_rule stored) ConditionMet) as Hh
    by (rewrite Hr; by exists row, stored).
  change (log_entries [] (with_table (sh_table s) s)) with
    (MkShared (sh_table s) (sh_in_flight s) (sh_cached s) (sh_log s)).
  pose proof (executor_process_rule_leads stored ConditionMet
    (MkShared (sh_table s) (sh_in_flight s) (sh_cached s) (sh_log s)) Hh) as Hp'.
  unfold executed in Hp'. rewrite Hr in Hp'. fold type in Hp'. rewrite Htype in Hp'.
  change (in_flight i _) with (in_flight i s) in Hp'.
  rewrite (bool_decide_eq_false_2 _ Hfree), bool_decide_eq_false_2 in Hp' by (by intros []).
  rewrite Hb in Hp'. destruct (Hsend req Hreq) as [receipt Hok]. rewrite Hok in Hp'.
  by destruct Hp'.
Qed.
End steps.
