(* ===== verification/RuleEvaluator.v ===== *)
(** * Off-chain condition evaluator ([stage2_evaluator.rs])

    Snapshots and batches, the evaluation of one rule against a batch, the
    integer arithmetic of both condition kinds (a second copy of the on-chain
    verifier's), the tick cache and the batched evaluator over a snapshot
    provider. *)
From S2P Require SolendRaw.
From S2P Require Import Prelude WatchRules WatcherBase.
#[local] Open Scope string_scope.
#[local] Open Scope Z_scope.

(** ** Constants *)
Definition SOLEND_WAD : Z := 1000000000000000000.
Definition BPS_DENOM : Z := 10000.
Definition SUPPORTED_SOLEND_FORMULA_VERSION : Z := 1.
Definition PYTH_MAX_EXPONENT_DIFF : Z := 18.

(** ** Snapshots *)
Record PythSnapshotValue := MkPythSnapshot {
  pv_feed_id : list byte;
  pv_price_mantissa : Z;
  pv_price_exponent : Z;
  pv_conf : Z;
  pv_publish_time : Z;
  pv_verification_level : VerificationLevel
}.

Record SolendSnapshotValue := MkSolendSnapshot {
  sv_reserve_pubkey : PubkeyBytes;
  sv_available_amount : Z;
  sv_borrowed_amount_wads : Z;
  sv_min_borrow_rate_pct : Z;
  sv_optimal_borrow_rate_pct : Z;
  sv_max_borrow_rate_pct : Z;
  sv_super_max_borrow_rate_pct : Z;
  sv_optimal_utilization_rate_pct : Z;
  sv_max_utilization_rate_pct : Z;
  sv_protocol_take_rate_pct : Z;
  sv_last_update_slot : Z;
  sv_stale_flag : bool
}.

Inductive Stage2SnapshotError :=
| SnapTransient (m : string)
| SnapTerminal (m : string).

Definition into_watcher_error (e : Stage2SnapshotError) : Stage2WatcherError :=
  match e with
  | SnapTransient m => Transient ("snapshot provider: " +:+ m)
  | SnapTerminal m => Terminal ("snapshot provider: " +:+ m)
  end.

(** ** Requests and batches *)
Record Stage2SnapshotRequest := MkRequest {
  pyth_feeds : list (list byte);
  solend_reserves : list PubkeyBytes
}.
Definition new_request : Stage2SnapshotRequest := MkRequest [] [].

(** [if !v.iter().any(|k| k == &key) { v.push(key) }] *)
Definition push_new (v : list (list byte)) (k : list byte) : list (list byte) :=
  if existsb (λ k', bool_decide (k' = k)) v then v else (v ++ [k])%list.

Definition add_pyth (req : Stage2SnapshotRequest) (k : list byte) : Stage2SnapshotRequest :=
  MkRequest (push_new (pyth_feeds req) k) (solend_reserves req).
Definition add_solend (req : Stage2SnapshotRequest) (k : PubkeyBytes) : Stage2SnapshotRequest :=
  MkRequest (pyth_feeds req) (push_new (solend_reserves req) k).

Definition request_is_empty (req : Stage2SnapshotRequest) : bool :=
  match pyth_feeds req, solend_reserves req with [], [] => true | _, _ => false end.

Notation SnapRes := (Result Stage2SnapshotError).
Record Stage2SnapshotBatch := MkBatch {
  b_pyth : gmap (list byte) (SnapRes PythSnapshotValue);
  b_solend : gmap (list byte) (SnapRes SolendSnapshotValue)
}.
Definition new_batch : Stage2SnapshotBatch := MkBatch ∅ ∅.
Definition insert_pyth (b : Stage2SnapshotBatch) (k : list byte) r : Stage2SnapshotBatch :=
  MkBatch (<[k := r]> (b_pyth b)) (b_solend b).
Definition insert_solend (b : Stage2SnapshotBatch) (k : list byte) r : Stage2SnapshotBatch :=
  MkBatch (b_pyth b) (<[k := r]> (b_solend b)).

Definition extend_request_with_rule (req : Stage2SnapshotRequest) (rule : WatchRule) :
    Stage2SnapshotRequest :=
  foldl (λ req c, match c with
    | PythPrice f _ _ _ _ _ _ _ _ => add_pyth req f
    | SolendReserveSupplyRate r _ _ _ _ _ _ _ _ => add_solend req r
    end) req (wr_conditions rule).
Definition plan_request_for_rule (rule : WatchRule) : Stage2SnapshotRequest :=
  extend_request_with_rule new_request rule.

(** ** 256-bit multiply-divide *)
Definition bit_of_u256 (hi lo idx : Z) : Z :=
  if idx <? 128 then Z.land (Z.shiftr lo idx) 1
  else Z.land (Z.shiftr hi (idx - 128)) 1.

Record DivState := MkDiv { quot : Z; quot_overflow : bool; rem : Z }.

Definition div_step (hi lo c i : Z) (st : DivState) : DivState :=
  let rem_overflow := Z.land (Z.shiftr (rem st) 127) 1 =? 1 in
  let rem1 := Z.lor (wrap 128 (Z.shiftl (rem st) 1)) (bit_of_u256 hi lo i) in
  let need_sub := rem_overflow || (c <=? rem1) in
  let rem2 := if need_sub then wrap 128 (rem1 - c) else rem1 in
  let quot_msb := Z.land (Z.shiftr (quot st) 127) 1 =? 1 in
  MkDiv (Z.lor (wrap 128 (Z.shiftl (quot st) 1)) (Z.b2z need_sub))
        (if quot_msb then true else quot_overflow st) rem2.

(** [for i in (0..n).rev()] *)
Fixpoint div_loop (n : nat) (hi lo c : Z) (st : DivState) : DivState :=
  match n with
  | O => st
  | S i => div_loop i hi lo c (div_step hi lo c (Z.of_nat i) st)
  end.

Definition mul_div_floor_u128 (a b c : Z) : WRes Z :=
  if c =? 0 then Err (Terminal "solend mul_div by zero")
  else match checked_u 128 (a * b) with
  | Some prod => Ok (prod / c)
  | None =>
      let a_lo := wrap 64 a in
      let a_hi := Z.shiftr a 64 in
      let b_lo := wrap 64 b in
      let b_hi := Z.shiftr b 64 in
      let ll := a_lo * b_lo in
      let lh := a_lo * b_hi in
      let hl := a_hi * b_lo in
      let hh := a_hi * b_hi in
      let mid := wrap 128 (lh + hl) in
      let mid_carry := if mid <? lh then Z.shiftl 1 64 else 0 in
      let mid_lo := wrap 128 (Z.shiftl mid 64) in
      let mid_hi := Z.shiftr mid 64 in
      let lo := wrap 128 (ll + mid_lo) in
      let c1 := negb (fits_u 128 (ll + mid_lo)) in
      hi ← ok_or (checked_u 128 (hh + mid_hi)) (Terminal "solend mul_div mid_hi overflow");
      hi ← ok_or (checked_u 128 (hi + (if c1 then 1 else 0)))
             (Terminal "solend mul_div carry overflow");
      hi ← ok_or (checked_u 128 (hi + mid_carry))
             (Terminal "solend mul_div mid_carry overflow");
      let st := div_loop 256 hi lo c (MkDiv 0 false 0) in
      if quot_overflow st then Err (Terminal "solend mul_div quotient overflow")
      else Ok (quot st)
  end.

(** ** Solend arithmetic *)
Definition mul_wad (a b : Z) : WRes Z := mul_div_floor_u128 a b SOLEND_WAD.
Definition div_wad (a b : Z) : WRes Z :=
  if b =? 0 then Err (Terminal "solend div_wad by zero")
  else mul_div_floor_u128 a SOLEND_WAD b.
Definition pct_to_wad (pct : Z) : WRes Z :=
  ok_or (checked_u 128 (pct * 10 ^ 16)) (Terminal "solend pct -> wad overflow").

Definition is_reserve_config_valid (s : SolendSnapshotValue) : bool :=
  let min := sv_min_borrow_rate_pct s in
  let opt := sv_optimal_borrow_rate_pct s in
  let max := sv_max_borrow_rate_pct s in
  let super_max := sv_super_max_borrow_rate_pct s in
  if negb ((min <=? opt) && (opt <=? max) && (max <=? super_max)) then false
  else if negb ((sv_optimal_utilization_rate_pct s <=? sv_max_utilization_rate_pct s) &&
                (sv_max_utilization_rate_pct s <=? 100)) then false
  else if 100 <? sv_protocol_take_rate_pct s then false
  else true.

Definition utilization_wad (s : SolendSnapshotValue) : WRes Z :=
  if sv_borrowed_amount_wads s =? 0 then Ok 0 else
  available_wads ← ok_or (checked_u 128 (sv_available_amount s * SOLEND_WAD))
    (Terminal "solend available_amount * WAD overflow");
  denom ← ok_or (checked_u 128 (sv_borrowed_amount_wads s + available_wads))
    (Terminal "solend borrowed + available denom overflow");
  if denom =? 0 then Ok 0 else div_wad (sv_borrowed_amount_wads s) denom.

Definition current_borrow_rate_wad (s : SolendSnapshotValue) : WRes Z :=
  utilisation ← utilization_wad s;
  optimal_util ← pct_to_wad (sv_optimal_utilization_rate_pct s);
  max_util ← pct_to_wad (sv_max_utilization_rate_pct s);
  if utilisation <=? optimal_util then
    min_rate ← pct_to_wad (sv_min_borrow_rate_pct s);
    if optimal_util =? 0 then Ok min_rate else
    normalised ← div_wad utilisation optimal_util;
    opt_minus_min ←
      ok_or (checked_u 64 (sv_optimal_borrow_rate_pct s - sv_min_borrow_rate_pct s))
        (Terminal "solend optimal - min underflow");
    rate_range ← pct_to_wad opt_minus_min;
    scaled ← mul_wad normalised rate_range;
    ok_or (checked_u 128 (scaled + min_rate)) (Terminal "solend region 1 add overflow")
  else if utilisation <=? max_util then
    weight_num ← ok_or (checked_u 128 (utilisation - optimal_util))
      (Terminal "solend region 2 weight_num underflow");
    weight_den ← ok_or (checked_u 128 (max_util - optimal_util))
      (Terminal "solend region 2 weight_den underflow");
    if weight_den =? 0 then pct_to_wad (sv_optimal_borrow_rate_pct s) else
    weight ← div_wad weight_num weight_den;
    optimal_rate ← pct_to_wad (sv_optimal_borrow_rate_pct s);
    max_rate ← pct_to_wad (sv_max_borrow_rate_pct s);
    rate_range ← ok_or (checked_u 128 (max_rate - optimal_rate))
      (Terminal "solend region 2 rate_range underflow");
    scaled ← mul_wad weight rate_range;
    ok_or (checked_u 128 (scaled + optimal_rate)) (Terminal "solend region 2 add overflow")
  else
    weight_num ← ok_or (checked_u 128 (utilisation - max_util))
      (Terminal "solend region 3 weight_num underflow");
    weight_den ← ok_or (checked_u 128 (SOLEND_WAD - max_util))
      (Terminal "solend region 3 weight_den underflow");
    if weight_den =? 0 then pct_to_wad (sv_super_max_borrow_rate_pct s) else
    weight ← div_wad weight_num weight_den;
    max_rate ← pct_to_wad (sv_max_borrow_rate_pct s);
    super_max_rate ← pct_to_wad (sv_super_max_borrow_rate_pct s);
    rate_range ← ok_or (checked_u 128 (super_max_rate - max_rate))
      (Terminal "solend region 3 rate_range underflow");
    scaled ← mul_wad weight rate_range;
    ok_or (checked_u 128 (scaled + max_rate)) (Terminal "solend region 3 add overflow").

Definition supply_apr_wad (s : SolendSnapshotValue) : WRes Z :=
  utilisation ← utilization_wad s;
  borrow_rate ← current_borrow_rate_wad s;
  take_rate ← pct_to_wad (sv_protocol_take_rate_pct s);
  one_minus_take ← ok_or (checked_u 128 (SOLEND_WAD - take_rate))
    (Terminal "solend (1 - take) underflow");
  inner ← mul_wad utilisation one_minus_take;
  mul_wad borrow_rate inner.

Definition solend_supply_apr_wad_for_snapshot (snap : SolendSnapshotValue) : WRes Z :=
  if negb (is_reserve_config_valid snap) then
    Err (Transient "solend reserve config invariants violated")
  else supply_apr_wad snap.

(** Basis points of a WAD rate, saturating at [u64::MAX]. *)
Definition solend_supply_apr_bps_from_wad (wad : Z) : Z :=
  let bps := wad / 10 ^ 14 in
  default (2 ^ 64 - 1) (checked_u 64 bps).

(** The evaluator's view of a decoded reserve account. *)
Definition solend_snapshot_value_from_reserve_raw (reserve_pubkey : PubkeyBytes)
    (raw : SolendRaw.SolendReserveRaw) : SolendSnapshotValue :=
  {| sv_reserve_pubkey := reserve_pubkey;
     sv_available_amount := SolendRaw.rr_liquidity_available_amount raw;
     sv_borrowed_amount_wads := SolendRaw.rr_liquidity_borrowed_amount_wads raw;
     sv_min_borrow_rate_pct := SolendRaw.rr_config_min_borrow_rate_pct raw;
     sv_optimal_borrow_rate_pct := SolendRaw.rr_config_optimal_borrow_rate_pct raw;
     sv_max_borrow_rate_pct := SolendRaw.rr_config_max_borrow_rate_pct raw;
     sv_super_max_borrow_rate_pct := SolendRaw.rr_config_super_max_borrow_rate_pct raw;
     sv_optimal_utilization_rate_pct := SolendRaw.rr_config_optimal_utilization_rate_pct raw;
     sv_max_utilization_rate_pct := SolendRaw.rr_config_max_utilization_rate_pct raw;
     sv_protocol_take_rate_pct := SolendRaw.rr_config_protocol_take_rate_pct raw;
     sv_last_update_slot := SolendRaw.rr_last_update_slot raw;
     sv_stale_flag := SolendRaw.rr_last_update_stale raw |}.

(** ** Comparisons *)
Definition apply_cmp_i128 (comparison : Comparison) (lhs rhs : Z) : bool :=
  match comparison with
  | Lt => lhs <? rhs | Lte => lhs <=? rhs | Gt => rhs <? lhs | Gte => rhs <=? lhs
  end.
Definition apply_cmp_u128 (comparison : Comparison) (lhs rhs : Z) : bool :=
  match comparison with
  | Lt => lhs <? rhs | Lte => lhs <=? rhs | Gt => rhs <? lhs | Gte => rhs <=? lhs
  end.

Fixpoint pow10_i128_loop (n : nat) (acc : Z) : WRes Z :=
  match n with
  | O => Ok acc
  | S n => acc ← ok_or (checked_i 128 (acc * 10)) (Terminal "pyth pow10 overflow");
           pow10_i128_loop n acc
  end.
Definition pow10_i128 (n : Z) : WRes Z := pow10_i128_loop (Z.to_nat n) 1.

(** ** The two condition kinds *)
Definition hex3 (bs : list byte) : string :=
  hex_encode (take 3 bs).

Definition bound_mode_matches (comparison : Comparison) (bound_mode : BoundMode) : bool :=
  match comparison, bound_mode with
  | (Gt | Gte), AdverseLowerForGt => true
  | (Lt | Lte), AdverseUpperForLt => true
  | _, Midpoint => true
  | _, _ => false
  end.

Definition eval_pyth (feed_id : list byte) (comparison : Comparison)
    (threshold_mantissa threshold_exponent max_age_seconds max_confidence_bps : Z)
    (verification_level_required : VerificationLevel) (bound_mode : BoundMode)
    (snap : PythSnapshotValue) (ctx : Stage2TickContext) : WRes bool :=
  _ ← throw_if (bool_decide (pv_feed_id snap ≠ feed_id))
        (Terminal ("pyth feed id mismatch: snapshot vs rule (feed " +:+ hex3 feed_id +:+ "…)"));
  _ ← match pv_verification_level snap, verification_level_required with
      | Full, Full => Ok tt
      end;
  age_secs ← ok_or (checked_i 128 (current_unix_timestamp ctx - pv_publish_time snap))
               (Terminal "pyth age subtract overflow");
  _ ← throw_if ((age_secs <? 0) || (max_age_seconds <? age_secs))
        (Transient ("pyth price too old: age " +:+ fmt age_secs +:+ "s, max " +:+
                    fmt max_age_seconds +:+ "s"));
  _ ← throw_if (negb (bound_mode_matches comparison bound_mode))
        (Terminal "pyth bound mode does not match comparison direction");
  price_abs_u128 ← ok_or (n ← checked_i 128 (Z.abs (pv_price_mantissa snap));
                          checked_u 128 n) (Terminal "pyth abs(price) overflow");
  _ ← throw_if (price_abs_u128 =? 0)
        (Transient "pyth price is zero; confidence-bps undefined");
  conf_bps_num ← ok_or (checked_u 128 (pv_conf snap * BPS_DENOM))
                   (Terminal "pyth confidence * BPS_DENOM overflow");
  let conf_bps := conf_bps_num / price_abs_u128 in
  _ ← throw_if (max_confidence_bps <? conf_bps)
        (Transient ("pyth confidence too wide: " +:+ fmt conf_bps +:+ " bps > max " +:+
                    fmt max_confidence_bps +:+ " bps"));
  bound ← match bound_mode with
    | AdverseLowerForGt => ok_or (checked_i 128 (pv_price_mantissa snap - pv_conf snap))
                             (Terminal "pyth bound subtract overflow")
    | AdverseUpperForLt => ok_or (checked_i 128 (pv_price_mantissa snap + pv_conf snap))
                             (Terminal "pyth bound add overflow")
    | Midpoint => Ok (pv_price_mantissa snap)
    end;
  diff ← ok_or (checked_i 64 (pv_price_exponent snap - threshold_exponent))
           (Terminal "pyth exponent diff overflow");
  _ ← throw_if (negb ((- PYTH_MAX_EXPONENT_DIFF <=? diff) && (diff <=? PYTH_MAX_EXPONENT_DIFF)))
        (Terminal ("pyth exponent diff " +:+ fmt diff +:+ " out of supported range [-" +:+
                   fmt PYTH_MAX_EXPONENT_DIFF +:+ ", " +:+ fmt PYTH_MAX_EXPONENT_DIFF +:+ "]"));
  '(lhs, rhs) ← match diff ?= 0 with
    | Eq => Ok (bound, threshold_mantissa)
    | Datatypes.Gt =>
        m ← pow10_i128 diff;
        lhs ← ok_or (checked_i 128 (bound * m)) (Terminal "pyth lhs * 10^diff overflow");
        Ok (lhs, threshold_mantissa)
    | Datatypes.Lt =>
        m ← pow10_i128 (- diff);
        rhs ← ok_or (checked_i 128 (threshold_mantissa * m))
                (Terminal "pyth threshold * 10^(-diff) overflow");
        Ok (bound, rhs)
    end;
  Ok (apply_cmp_i128 comparison lhs rhs).

Section evaluator.
Context `{Crates}.

Definition eval_solend (reserve_pubkey : PubkeyBytes) (comparison : Comparison)
    (threshold_bps : Z) (rate_kind : RateKind) (formula_version max_reserve_staleness_slots : Z)
    (snap : SolendSnapshotValue) (ctx : Stage2TickContext) : WRes bool :=
  _ ← throw_if (bool_decide (sv_reserve_pubkey snap ≠ reserve_pubkey))
        (Terminal ("solend reserve mismatch: snapshot vs rule (" +:+ base58 reserve_pubkey
                   +:+ ")"));
  _ ← throw_if (negb (formula_version =? SUPPORTED_SOLEND_FORMULA_VERSION))
        (Terminal ("solend formula_version " +:+ fmt formula_version +:+
                   " unsupported (this build supports " +:+
                   fmt SUPPORTED_SOLEND_FORMULA_VERSION +:+ ")"));
  _ ← match rate_kind with
      | Apr => Ok tt
      | Apy => Err (Terminal "solend rate_kind APY not supported in v1")
      end;
  _ ← throw_if (negb (is_reserve_config_valid snap))
        (Transient "solend reserve config invariants violated");
  age ← ok_or (checked_u 64 (current_slot ctx - sv_last_update_slot snap))
          (Transient "solend reserve future-dated");
  _ ← throw_if ((max_reserve_staleness_slots <? age) || sv_stale_flag snap)
        (Transient ("solend reserve stale: age " +:+ fmt age +:+ " slots, max " +:+
                    fmt max_reserve_staleness_slots +:+ " slots, stale_flag=" +:+
                    fmt_bool (sv_stale_flag snap)));
  supply_apr_wad ← supply_apr_wad snap;
  threshold_wad ← ok_or (checked_u 128 (threshold_bps * 10 ^ 14))
    (Terminal "solend threshold conversion overflow");
  Ok (apply_cmp_u128 comparison supply_apr_wad threshold_wad).

(** ** One condition, one rule *)
Inductive CondOutcome := OTrue | OFalse | OErr (e : Stage2WatcherError).

Definition outcome_of (r : WRes bool) : CondOutcome :=
  match r with Ok true => OTrue | Ok false => OFalse | Err e => OErr e end.

Definition evaluate_one_condition (cond : Condition) (batch : Stage2SnapshotBatch)
    (ctx : Stage2TickContext) : CondOutcome :=
  match cond with
  | PythPrice feed_id _ comparison threshold_mantissa threshold_exponent max_age_seconds
      max_confidence_bps verification_level_required bound_mode =>
      match b_pyth batch !! feed_id with
      | Some (Ok v) =>
          outcome_of (eval_pyth feed_id comparison threshold_mantissa threshold_exponent
            max_age_seconds max_confidence_bps verification_level_required bound_mode v ctx)
      | Some (Err e) => OErr (into_watcher_error e)
      | None => OErr (Transient "pyth snapshot missing from batch")
      end
  | SolendReserveSupplyRate reserve_pubkey _ _ comparison threshold_bps rate_kind
      formula_version max_reserve_staleness_slots _ =>
      match b_solend batch !! reserve_pubkey with
      | Some (Ok v) =>
          outcome_of (eval_solend reserve_pubkey comparison threshold_bps rate_kind
            formula_version max_reserve_staleness_slots v ctx)
      | Some (Err e) => OErr (into_watcher_error e)
      | None => OErr (Transient "solend snapshot missing from batch")
      end
  end.

Definition severity_rank (e : Stage2WatcherError) : Z :=
  if is_terminal e then 2 else if is_transient e then 1 else 0.

Definition merge_severity (cur : option Stage2WatcherError) (new : Stage2WatcherError) :
    Stage2WatcherError :=
  match cur with
  | None => new
  | Some c => if severity_rank c <=? severity_rank new then new else c
  end.

Fixpoint fold_all (outcomes : list CondOutcome) (highest : option Stage2WatcherError)
    (all_true : bool) : WRes bool :=
  match outcomes with
  | [] => match highest with Some e => Err e | None => Ok all_true end
  | OTrue :: l => fold_all l highest all_true
  | OFalse :: l => fold_all l highest false
  | OErr e :: l => fold_all l (Some (merge_severity highest e)) all_true
  end.

Fixpoint fold_any (outcomes : list CondOutcome) (highest : option Stage2WatcherError)
    (any_true : bool) : WRes bool :=
  match outcomes with
  | [] => if any_true then Ok true
          else match highest with Some e => Err e | None => Ok false end
  | OTrue :: l => fold_any l highest true
  | OFalse :: l => fold_any l highest any_true
  | OErr e :: l => fold_any l (Some (merge_severity highest e)) any_true
  end.

(** The loop over the conditions: stops once the result is sealed. *)
Fixpoint evaluate_conditions (logic : ConditionLogic) (conds : list Condition)
    (batch : Stage2SnapshotBatch) (ctx : Stage2TickContext) (outcomes : list CondOutcome) :
    list CondOutcome * option bool :=
  match conds with
  | [] => (outcomes, None)
  | cond :: conds =>
      let outcome := evaluate_one_condition cond batch ctx in
      let outcomes := (outcomes ++ [outcome])%list in
      match outcome, logic with
      | OTrue, Any => (outcomes, Some true)
      | OFalse, All => (outcomes, Some false)
      | _, _ => evaluate_conditions logic conds batch ctx outcomes
      end
  end.

Definition evaluate_rule_against_batch (rule : WatchRule) (batch : Stage2SnapshotBatch)
    (ctx : Stage2TickContext) : WRes bool :=
  match wr_conditions rule with
  | [] => Ok (match wr_condition_logic rule with All => true | Any => false end)
  | conds =>
      match evaluate_conditions (wr_condition_logic rule) conds batch ctx [] with
      | (_, Some v) => Ok v
      | (outcomes, None) =>
          match wr_condition_logic rule with
          | All => fold_all outcomes None true
          | Any => fold_any outcomes None false
          end
      end
  end.

(** ** Providers *)

(** [trait Stage2SnapshotProvider]; [P] is the provider's own state. *)
Class Stage2SnapshotProvider (P : Type) :=
  fetch_batch : Stage2SnapshotRequest → Stage2TickContext → P → Stage2SnapshotBatch * P.

Definition Stage2NoopSnapshotProvider : Stage2SnapshotProvider unit :=
  λ _ _ p, (new_batch, p).

Record Stage2DeterministicMockProvider := MkMock {
  m_pyth : gmap (list byte) (SnapRes PythSnapshotValue);
  m_solend : gmap (list byte) (SnapRes SolendSnapshotValue);
  m_pyth_calls : gmap (list byte) Z;
  m_solend_calls : gmap (list byte) Z;
  m_fetch_calls : Z
}.

(** [new], and the builders that script an answer. *)
Definition new_mock : Stage2DeterministicMockProvider := MkMock ∅ ∅ ∅ ∅ 0.
Definition with_pyth (p : Stage2DeterministicMockProvider) (feed_id : list byte)
    (snap : PythSnapshotValue) : Stage2DeterministicMockProvider :=
  MkMock (<[feed_id := Ok snap]> (m_pyth p)) (m_solend p) (m_pyth_calls p) (m_solend_calls p)
    (m_fetch_calls p).
Definition with_pyth_error (p : Stage2DeterministicMockProvider) (feed_id : list byte)
    (err : Stage2SnapshotError) : Stage2DeterministicMockProvider :=
  MkMock (<[feed_id := Err err]> (m_pyth p)) (m_solend p) (m_pyth_calls p) (m_solend_calls p)
    (m_fetch_calls p).
Definition with_solend (p : Stage2DeterministicMockProvider) (reserve : PubkeyBytes)
    (snap : SolendSnapshotValue) : Stage2DeterministicMockProvider :=
  MkMock (m_pyth p) (<[reserve := Ok snap]> (m_solend p)) (m_pyth_calls p) (m_solend_calls p)
    (m_fetch_calls p).
Definition with_solend_error (p : Stage2DeterministicMockProvider) (reserve : PubkeyBytes)
    (err : Stage2SnapshotError) : Stage2DeterministicMockProvider :=
  MkMock (m_pyth p) (<[reserve := Err err]> (m_solend p)) (m_pyth_calls p) (m_solend_calls p)
    (m_fetch_calls p).
Definition pyth_call_count (p : Stage2DeterministicMockProvider) (feed_id : list byte) : Z :=
  default 0 (m_pyth_calls p !! feed_id).
Definition solend_call_count (p : Stage2DeterministicMockProvider) (reserve : PubkeyBytes) : Z :=
  default 0 (m_solend_calls p !! reserve).
Definition fetch_call_count (p : Stage2DeterministicMockProvider) : Z := m_fetch_calls p.

(** [*calls.entry(k).or_insert(0) += 1] *)
Definition count_call (calls : gmap (list byte) Z) (k : list byte) : gmap (list byte) Z :=
  <[k := default 0 (calls !! k) + 1]> calls.

Definition mock_pyth_answer (p : Stage2DeterministicMockProvider) (k : list byte) :
    SnapRes PythSnapshotValue :=
  default (Err (SnapTransient ("no fixture for pyth feed_id " +:+ hex3 k +:+ "…")))
    (m_pyth p !! k).
Definition mock_solend_answer (p : Stage2DeterministicMockProvider) (k : list byte) :
    SnapRes SolendSnapshotValue :=
  default (Err (SnapTransient ("no fixture for solend reserve " +:+ base58 k)))
    (m_solend p !! k).

#[export] Instance mock_provider : Stage2SnapshotProvider Stage2DeterministicMockProvider :=
  λ request _ p,
    let batch := foldl (λ b k, insert_pyth b k (mock_pyth_answer p k)) new_batch
                   (pyth_feeds request) in
    let batch := foldl (λ b k, insert_solend b k (mock_solend_answer p k)) batch
                   (solend_reserves request) in
    (batch,
     MkMock (m_pyth p) (m_solend p) (foldl count_call (m_pyth_calls p) (pyth_feeds request))
       (foldl count_call (m_solend_calls p) (solend_reserves request)) (m_fetch_calls p + 1)).

(** ** Tick cache and batched evaluator *)
Record TickCache := MkCache {
  tc_token : option (Z * Z * Z);
  tc_pyth : gmap (list byte) (SnapRes PythSnapshotValue);
  tc_solend : gmap (list byte) (SnapRes SolendSnapshotValue);
  tc_pyth_attempted : gset (list byte);
  tc_solend_attempted : gset (list byte)
}.
Definition default_cache : TickCache := MkCache None ∅ ∅ ∅ ∅.

Definition tick_token (ctx : Stage2TickContext) : Z * Z * Z :=
  (current_slot ctx, current_unix_timestamp ctx, now_ms ctx).

Definition ensure_token (ctx : Stage2TickContext) (c : TickCache) : TickCache :=
  if bool_decide (tc_token c ≠ Some (tick_token ctx)) then
    MkCache (Some (tick_token ctx)) ∅ ∅ ∅ ∅
  else c.

Definition missing_request (c : TickCache) (rule : WatchRule) : Stage2SnapshotRequest :=
  foldl (λ req cond, match cond with
    | PythPrice f _ _ _ _ _ _ _ _ =>
        if bool_decide (f ∈ tc_pyth_attempted c) then req else add_pyth req f
    | SolendReserveSupplyRate r _ _ _ _ _ _ _ _ =>
        if bool_decide (r ∈ tc_solend_attempted c) then req else add_solend req r
    end) new_request (wr_conditions rule).

Definition integrate (c : TickCache) (batch : Stage2SnapshotBatch) : TickCache :=
  MkCache (tc_token c) (b_pyth batch ∪ tc_pyth c) (b_solend batch ∪ tc_solend c)
    (dom (b_pyth batch) ∪ tc_pyth_attempted c) (dom (b_solend batch) ∪ tc_solend_attempted c).

Definition snapshot_view (c : TickCache) : Stage2SnapshotBatch :=
  MkBatch (tc_pyth c) (tc_solend c).

(** [Stage2BatchedConditionEvaluator]: the provider and the cache. *)
#[export] Instance Stage2BatchedConditionEvaluator {P} `{!Stage2SnapshotProvider P} :
    Stage2ConditionEvaluator (P * TickCache) :=
  λ rule ctx '(provider, cache),
    let cache := ensure_token ctx cache in
    let request := missing_request cache rule in
    let '(provider, cache) :=
      if request_is_empty request then (provider, cache) else
      let '(batch, provider) := fetch_batch request ctx provider in
      (provider, integrate (ensure_token ctx cache) batch) in
    (evaluate_rule_against_batch rule (snapshot_view cache) ctx, (provider, cache)).
End evaluator.
