(* ===== verification/EvaluatorFacts.v ===== *)
(** * The off-chain evaluator against the on-chain verifier

    The gateway carries a second copy of the condition arithmetic.  Here the
    two copies are compared: condition by condition they give the same decision
    and the same class of error; rule by rule the evaluator's [Ok true] is what
    the program accepts, except where it stops early.  The second part is about the cache of a tick. *)
From S2P Require Import Prelude Borsh Solana WideMath ConditionVerifier Instruction Authority.
From S2P Require Import Lifecycle WatchRules WatcherBase RuleEvaluator.
#[local] Open Scope Z_scope.

#[export] Instance watcher_error_eq_dec : EqDecision Stage2WatcherError.
Proof. solve_decision. Defined.
#[export] Instance cond_outcome_eq_dec : EqDecision CondOutcome.
Proof. solve_decision. Defined.

(** ** Translation of the off-chain data *)
Definition onchain_comparison (c : WatchRules.Comparison) : ConditionVerifier.Comparison :=
  match c with
  | WatchRules.Lt => ConditionVerifier.Lt | WatchRules.Lte => ConditionVerifier.Lte
  | WatchRules.Gt => ConditionVerifier.Gt | WatchRules.Gte => ConditionVerifier.Gte
  end.
Definition onchain_bound_mode (m : WatchRules.BoundMode) : ConditionVerifier.BoundMode :=
  match m with
  | WatchRules.AdverseLowerForGt => ConditionVerifier.AdverseLowerForGt
  | WatchRules.AdverseUpperForLt => ConditionVerifier.AdverseUpperForLt
  | WatchRules.Midpoint => ConditionVerifier.Midpoint
  end.
Definition onchain_rate_kind (k : WatchRules.RateKind) : ConditionVerifier.RateKind :=
  match k with
  | WatchRules.Apr => ConditionVerifier.Apr | WatchRules.Apy => ConditionVerifier.Apy
  end.
Definition onchain_logic (l : WatchRules.ConditionLogic) : ConditionVerifier.ConditionLogic :=
  match l with
  | WatchRules.All => ConditionVerifier.All | WatchRules.Any => ConditionVerifier.Any
  end.

Definition onchain_pyth_snapshot (s : PythSnapshotValue) : PythPriceSnapshot :=
  MkPythSnap (pv_feed_id s) (pv_price_mantissa s) (pv_price_exponent s) (pv_conf s)
    (pv_publish_time s) ConditionVerifier.Full.
Definition onchain_reserve (s : SolendSnapshotValue) : SolendReserveSnapshot :=
  MkReserve (sv_available_amount s) (sv_borrowed_amount_wads s) (sv_min_borrow_rate_pct s)
    (sv_optimal_borrow_rate_pct s) (sv_max_borrow_rate_pct s)
    (sv_super_max_borrow_rate_pct s) (sv_optimal_utilization_rate_pct s)
    (sv_max_utilization_rate_pct s) (sv_protocol_take_rate_pct s) (sv_last_update_slot s)
    (sv_stale_flag s).

(** The on-chain proof entry of a condition, from the snapshots of a batch. *)
Definition proof_condition (batch : Stage2SnapshotBatch) (c : Condition) :
    option ProofCondition :=
  match c with
  | PythPrice f _ cmp m e a b v d =>
      match b_pyth batch !! f with
      | Some (Ok s) =>
          Some (ProofPyth (MkPythCond f (onchain_comparison cmp) m e a b
            ConditionVerifier.Full (onchain_bound_mode d)) (onchain_pyth_snapshot s))
      | _ => None
      end
  | SolendReserveSupplyRate r _ _ cmp t k f m _ =>
      match b_solend batch !! r with
      | Some (Ok s) =>
          Some (ProofSolend (MkSolendCond (onchain_comparison cmp) t (onchain_rate_kind k) f m)
            (onchain_reserve s))
      | _ => None
      end
  end.

(** The identity the evaluator checks and the on-chain Solend check does not:
    the snapshot stored under a reserve is that reserve's. *)
Definition batch_keyed (batch : Stage2SnapshotBatch) : Prop :=
  ∀ r s, b_solend batch !! r = Some (Ok s) → sv_reserve_pubkey s = r.

(** ** Same result, same class of error *)

(** The verifier errors that a later slot or a fresher oracle can cure. *)
Definition retryable (v : VerifierError) : bool :=
  match v with
  | PythPriceTooOld | PythConfidenceTooWide | SolendReserveStale
  | SolendInvalidReserveConfig => true
  | _ => false
  end.

Definition same_class (e : Stage2WatcherError) (v : VerifierError) : Prop :=
  is_transient e = retryable v ∧ is_terminal e = negb (retryable v).

Definition agree {A} (r : WRes A) (v : VRes A) : Prop :=
  match r, v with
  | Ok a, Ok b => a = b
  | Err e, Err x => same_class e x
  | _, _ => False
  end.

Section agree.
Context {A B : Type}.

Lemma agree_bind (r : WRes A) (v : VRes A) (f : A → WRes B) (g : A → VRes B) :
  agree r v → (∀ a, agree (f a) (g a)) → agree (r ≫= f) (v ≫= g).
Proof. intros Hrv Hfg. destruct r, v; simpl in *; naive_solver. Qed.

Lemma agree_throw b e x : same_class e x → agree (throw_if b e) (throw_if b x).
Proof. by destruct b. Qed.

Lemma agree_ok_or (o : option A) e x : same_class e x → agree (ok_or o e) (ok_or o x).
Proof. by destruct o. Qed.

Lemma agree_ok (a : A) : agree (Ok a) (Ok a).
Proof. done. Qed.

Lemma agree_err e x : same_class e x → agree (A := A) (Err e) (Err x).
Proof. done. Qed.

Lemma agree_if (b : bool) (r1 r2 : WRes A) (v1 v2 : VRes A) :
  agree r1 v1 → agree r2 v2 → agree (if b then r1 else r2) (if b then v1 else v2).
Proof. by destruct b. Qed.
End agree.

Create HintDb agree.
#[export] Hint Resolve agree_ok : agree.
#[export] Hint Extern 1 (same_class _ _) => by split : agree.

(** Walk both computations in step. *)
Ltac walk :=
  repeat first
    [ progress eauto 2 with agree
    | apply agree_bind; [|intros ?]
    | apply agree_err
    | apply agree_throw
    | apply agree_ok_or
    | apply agree_if
    | match goal with |- agree (match ?x with _ => _ end) _ => destruct x end ].

(** *** Arithmetic *)
Definition conv (st : RuleEvaluator.DivState) : WideMath.DivState :=
  WideMath.MkDiv (RuleEvaluator.quot st) (RuleEvaluator.quot_overflow st)
    (RuleEvaluator.rem st).

Lemma div_step_conv hi lo c i st :
  conv (RuleEvaluator.div_step hi lo c i st) = WideMath.div_step hi lo c i (conv st).
Proof.
  destruct st as [q o r]. unfold RuleEvaluator.div_step, WideMath.div_step, conv. cbv zeta.
  cbn [RuleEvaluator.quot RuleEvaluator.quot_overflow RuleEvaluator.rem
       WideMath.quot WideMath.quot_overflow WideMath.rem]. f_equal.
  by destruct o, (Z.eqb _ 1).
Qed.

Lemma div_loop_conv n hi lo c st :
  conv (RuleEvaluator.div_loop n hi lo c st) = WideMath.div_loop n hi lo c (conv st).
Proof.
  revert st. induction n as [|n IH]; intros st; [done|].
  cbn [RuleEvaluator.div_loop WideMath.div_loop]. by rewrite IH, div_step_conv.
Qed.

Lemma mul_div_agree a b c :
  agree (RuleEvaluator.mul_div_floor_u128 a b c) (WideMath.mul_div_floor_u128 a b c).
Proof.
  unfold RuleEvaluator.mul_div_floor_u128, WideMath.mul_div_floor_u128, wide_mul.
  apply agree_if; [by split|]. destruct (checked_u 128 (a * b)); [done|]. cbv zeta.
  do 3 (destruct (checked_u 128 _); [|by split]; cbn [ok_or mbind result_bind]).
  unfold long_divide. change (WideMath.MkDiv 0 false 0) with (conv (RuleEvaluator.MkDiv 0 false 0)).
  rewrite <- div_loop_conv. generalize (RuleEvaluator.div_loop 256) as loop. intros loop.
  cbn [conv WideMath.quot_overflow]. by destruct (RuleEvaluator.quot_overflow _).
Qed.
#[export] Hint Resolve mul_div_agree : agree.

Lemma mul_wad_agree a b : agree (RuleEvaluator.mul_wad a b) (ConditionVerifier.mul_wad a b).
Proof. apply mul_div_agree. Qed.
Lemma div_wad_agree a b : agree (RuleEvaluator.div_wad a b) (ConditionVerifier.div_wad a b).
Proof. unfold RuleEvaluator.div_wad, ConditionVerifier.div_wad. walk. Qed.
Lemma pct_to_wad_agree p : agree (RuleEvaluator.pct_to_wad p) (ConditionVerifier.pct_to_wad p).
Proof. unfold RuleEvaluator.pct_to_wad, ConditionVerifier.pct_to_wad. walk. Qed.
#[export] Hint Resolve mul_wad_agree div_wad_agree pct_to_wad_agree : agree.

Lemma reserve_config_same s :
  ConditionVerifier.is_reserve_config_valid (onchain_reserve s) =
  RuleEvaluator.is_reserve_config_valid s.
Proof.
  unfold RuleEvaluator.is_reserve_config_valid, ConditionVerifier.is_reserve_config_valid.
  simpl. rewrite (Z.ltb_antisym _ 100). by repeat destruct (_ <=? _).
Qed.

Lemma utilization_agree s :
  agree (RuleEvaluator.utilization_wad s)
    (ConditionVerifier.utilization_wad (onchain_reserve s)).
Proof.
  unfold RuleEvaluator.utilization_wad, ConditionVerifier.utilization_wad, wad_add.
  simpl. walk.
Qed.
#[export] Hint Resolve utilization_agree : agree.

Lemma borrow_rate_agree s :
  agree (RuleEvaluator.current_borrow_rate_wad s)
    (ConditionVerifier.current_borrow_rate_wad (onchain_reserve s)).
Proof.
  unfold RuleEvaluator.current_borrow_rate_wad, ConditionVerifier.current_borrow_rate_wad,
    borrow_rate_region1, borrow_rate_region2, borrow_rate_region3, wad_add, wad_sub,
    pct_to_wad_u64_super_max. simpl. walk.
Qed.
#[export] Hint Resolve borrow_rate_agree : agree.

Lemma supply_apr_agree s : RuleEvaluator.is_reserve_config_valid s = true →
  agree (RuleEvaluator.supply_apr_wad s)
    (ConditionVerifier.supply_apr_wad (onchain_reserve s)).
Proof.
  intros Hv. unfold RuleEvaluator.supply_apr_wad, ConditionVerifier.supply_apr_wad, wad_sub.
  rewrite reserve_config_same, Hv. simpl. walk.
Qed.

Lemma pow10_agree n : agree (RuleEvaluator.pow10_i128 n) (ConditionVerifier.pow10_i128 n).
Proof.
  unfold RuleEvaluator.pow10_i128, ConditionVerifier.pow10_i128.
  generalize 1 as acc. induction (Z.to_nat n); intros acc; simpl; walk.
Qed.
#[export] Hint Resolve pow10_agree : agree.

(** ** One condition *)
Section rules.
Context `{Crates}.

Definition outcome_res (o : CondOutcome) : WRes bool :=
  match o with OTrue => Ok true | OFalse => Ok false | OErr e => Err e end.

Lemma outcome_res_of r : outcome_res (outcome_of r) = r.
Proof. by destruct r as [[]|]. Qed.

(** The clock the program would see at the evaluator's slot and time. *)
Definition clock_of (ctx : Stage2TickContext) : Clock :=
  MkClock (WatcherBase.current_slot ctx) (current_unix_timestamp ctx).

(** What the program runs for one proof entry ([evaluate_proof_condition]
    without the final error mapping). *)
Definition onchain_verdict (clock : Clock) (p : ProofCondition) : VRes bool :=
  match p with
  | ProofPyth c s =>
      evaluate_condition (EvalCPyth c) (EvalSPyth s (MkPythCtx (unix_timestamp clock)))
  | ProofSolend c s =>
      evaluate_condition (EvalCSolend c) (EvalSSolend s (MkSolendCtx (slot clock)))
  end.

Lemma eval_pyth_agree f cmp m e a b v d s ctx :
  agree (eval_pyth f cmp m e a b v d s ctx)
    (verify_pyth_price_condition
       (MkPythCond f (onchain_comparison cmp) m e a b ConditionVerifier.Full
          (onchain_bound_mode d)) (onchain_pyth_snapshot s)
       (MkPythCtx (current_unix_timestamp ctx))).
Proof.
  unfold eval_pyth, verify_pyth_price_condition, adverse_bound, normalise_exponents.
  cbn [pc_feed_id pc_comparison pc_threshold_mantissa pc_threshold_exponent
       pc_max_age_seconds pc_max_confidence_bps pc_verification_level_required pc_bound_mode
       onchain_pyth_snapshot ps_feed_id ps_price_mantissa ps_price_exponent ps_conf
       ps_publish_time ps_verification_level current_unix_time].
  destruct (pv_verification_level s), v.
  assert (bound_direction_ok (onchain_comparison cmp) (onchain_bound_mode d) =
          bound_mode_matches cmp d) as -> by (by destruct cmp, d).
  do 8 (apply agree_bind; [walk|intros ?]). cbv zeta.
  apply agree_bind; [walk|intros ?].
  apply agree_bind; [destruct d; walk|intros bound].
  destruct (checked_i 64 _) as [diff|]; [|by split]. cbn [ok_or mbind result_bind].
  destruct (negb _); [by split|]. cbn [throw_if mbind result_bind].
  apply agree_bind; [destruct (diff ?= 0); walk|]. intros [lhs rhs]. by destruct cmp.
Qed.

Lemma eval_solend_agree r cmp t k f m s ctx : sv_reserve_pubkey s = r →
  agree (eval_solend r cmp t k f m s ctx)
    (verify_solend_supply_apr_condition
       (MkSolendCond (onchain_comparison cmp) t (onchain_rate_kind k) f m)
       (onchain_reserve s) (MkSolendCtx (WatcherBase.current_slot ctx))).
Proof.
  intros Hr. unfold eval_solend, verify_solend_supply_apr_condition.
  rewrite reserve_config_same, (bool_decide_eq_false_2 (_ ≠ r)) by (intros Hne; done).
  cbn [throw_if mbind result_bind sc_comparison sc_threshold_bps sc_rate_kind
       sc_formula_version sc_max_reserve_staleness_slots onchain_reserve
       ConditionVerifier.stale_flag ConditionVerifier.last_update_slot
       ConditionVerifier.current_slot].
  apply agree_bind; [|intros _].
  { destruct (Z.eqb_spec f RuleEvaluator.SUPPORTED_SOLEND_FORMULA_VERSION);
      [rewrite bool_decide_eq_false_2 by (intros Hne; by apply Hne)|
       rewrite bool_decide_eq_true_2 by done]; by simpl. }
  apply agree_bind; [by destruct k|intros _].
  destruct (RuleEvaluator.is_reserve_config_valid s) eqn:Hv; [|by split].
  cbn [negb throw_if mbind result_bind].
  do 2 (apply agree_bind; [walk|intros ?]).
  apply agree_bind; [by apply supply_apr_agree|intros apr].
  apply agree_bind; [walk|intros thr]. by destruct cmp.
Qed.

Lemma one_condition_agree batch c p ctx :
  batch_keyed batch → proof_condition batch c = Some p →
  agree (outcome_res (evaluate_one_condition c batch ctx))
    (onchain_verdict (clock_of ctx) p).
Proof.
  intros Hk Hp.
  destruct c as [f pa cmp m e a b v d|r lm sp cmp t k f m q]; simpl in *.
  - destruct (b_pyth batch !! f) as [[s|]|]; simplify_eq. rewrite outcome_res_of.
    apply eval_pyth_agree.
  - destruct (b_solend batch !! r) as [[s|]|] eqn:E; simplify_eq. rewrite outcome_res_of.
    by apply eval_solend_agree, Hk.
Qed.

(** ** One rule *)
Section fold.
Context (batch : Stage2SnapshotBatch) (ctx : Stage2TickContext).

Notation outcomes l := (map (λ c, evaluate_one_condition c batch ctx) l).

(** The outcome that ends the loop. *)
Definition sealing (logic : WatchRules.ConditionLogic) : CondOutcome :=
  match logic with WatchRules.All => OFalse | WatchRules.Any => OTrue end.
Definition sealed_value (logic : WatchRules.ConditionLogic) : bool :=
  match logic with WatchRules.All => false | WatchRules.Any => true end.

Lemma evaluate_conditions_sealed logic conds acc :
  sealing logic ∈ outcomes conds →
  (evaluate_conditions logic conds batch ctx acc).2 = Some (sealed_value logic).
Proof.
  revert acc. induction conds as [|c conds IH]; intros acc Hin; simpl in *.
  - by apply not_elem_of_nil in Hin.
  - apply elem_of_cons in Hin as [Hc|Hin].
    + rewrite <- Hc. by destruct logic.
    + destruct (evaluate_one_condition c batch ctx), logic; try done; by apply IH.
Qed.

Lemma evaluate_conditions_unsealed logic conds acc :
  sealing logic ∉ outcomes conds →
  evaluate_conditions logic conds batch ctx acc = (acc ++ outcomes conds, None).
Proof.
  revert acc. induction conds as [|c conds IH]; intros acc Hin; simpl in *.
  - by rewrite app_nil_r.
  - apply not_elem_of_cons in Hin as [Hc Hin].
    destruct (evaluate_one_condition c batch ctx), logic; simpl in *; try done;
      by rewrite IH, <- (assoc_L app).
Qed.
End fold.

(** The errors of a list of outcomes, and the worst of them. *)
Definition errors (os : list CondOutcome) : list Stage2WatcherError :=
  omap (λ o, match o with OErr e => Some e | _ => None end) os.

Definition worst (h : option Stage2WatcherError) (os : list CondOutcome) :
    option Stage2WatcherError :=
  foldl (λ h e, Some (merge_severity h e)) h (errors os).

Lemma fold_all_spec os h b : OFalse ∉ os →
  fold_all os h b = match worst h os with Some e => Err e | None => Ok b end.
Proof.
  unfold worst. revert h. induction os as [|o os IH]; intros h Hn; [done|].
  apply not_elem_of_cons in Hn as [Ho Hn]. destruct o; simpl; try done; by apply IH.
Qed.

Lemma fold_any_spec os h : OTrue ∉ os →
  fold_any os h false = match worst h os with Some e => Err e | None => Ok false end.
Proof.
  unfold worst. revert h. induction os as [|o os IH]; intros h Hn; [done|].
  apply not_elem_of_cons in Hn as [Ho Hn]. destruct o; simpl; try done; by apply IH.
Qed.

Lemma merge_severity_upper h e :
  (merge_severity h e = e ∨ h = Some (merge_severity h e)) ∧
  ∀ e', h = Some e' ∨ e' = e → severity_rank e' ≤ severity_rank (merge_severity h e).
Proof.
  destruct h as [c|]; simpl; [|split; [by left|intros e' [[=]| ->]; lia]].
  destruct (severity_rank c <=? severity_rank e) eqn:E; b2p;
    (split; [naive_solver|intros e' [[= ->]| ->]; lia]).
Qed.

Lemma worst_max h es :
  match foldl (λ h e, Some (merge_severity h e)) h es with
  | None => h = None ∧ es = []
  | Some e => (h = Some e ∨ e ∈ es) ∧
      (∀ e', h = Some e' ∨ e' ∈ es → severity_rank e' ≤ severity_rank e)
  end.
Proof.
  revert h. induction es as [|e es IH]; intros h; simpl.
  - destruct h; [|done]. split; [by left|]. intros e' [[= ->]|Hin]; [lia|].
    by apply not_elem_of_nil in Hin.
  - specialize (IH (Some (merge_severity h e))).
    destruct (merge_severity_upper h e) as [Hm Hup].
    destruct (foldl _ _ es) as [w|]; [|by destruct IH].
    destruct IH as [Hw Hmax]. setoid_rewrite elem_of_cons. split.
    + destruct Hw as [[= Hw]|]; [|by auto]. rewrite Hw in Hm. naive_solver.
    + intros e' He'. destruct (decide (e' ∈ es)); [apply Hmax; by right|].
      transitivity (severity_rank (merge_severity h e)); [apply Hup; naive_solver|].
      apply Hmax. by left.
Qed.

Lemma elem_of_errors e os : e ∈ errors os ↔ OErr e ∈ os.
Proof.
  unfold errors. rewrite list_elem_of_omap. split.
  - intros (o & Hin & Ho). destruct o; naive_solver.
  - intros Hin. exists (OErr e). by split.
Qed.

(** *** The rule in terms of its outcomes *)
Notation outcomes batch ctx l := (map (λ c, evaluate_one_condition c batch ctx) l).

Lemma evaluate_rule_sealed rule batch ctx :
  sealing (wr_condition_logic rule) ∈ outcomes batch ctx (wr_conditions rule) →
  evaluate_rule_against_batch rule batch ctx = Ok (sealed_value (wr_condition_logic rule)).
Proof.
  intros Hs. pose proof (evaluate_conditions_sealed batch ctx _ _ [] Hs) as He.
  unfold evaluate_rule_against_batch. destruct (wr_conditions rule) as [|c conds].
  - by apply not_elem_of_nil in Hs.
  - by destruct (evaluate_conditions _ _ _ _ _) as [os [v|]]; simplify_eq/=.
Qed.

Lemma evaluate_rule_unsealed rule batch ctx :
  wr_conditions rule ≠ [] →
  sealing (wr_condition_logic rule) ∉ outcomes batch ctx (wr_conditions rule) →
  evaluate_rule_against_batch rule batch ctx =
    match worst None (outcomes batch ctx (wr_conditions rule)) with
    | Some e => Err e
    | None => Ok (negb (sealed_value (wr_condition_logic rule)))
    end.
Proof.
  intros Hne Hs. unfold evaluate_rule_against_batch.
  destruct (wr_conditions rule) as [|c conds] eqn:E; [done|]. rewrite <- E in *.
  rewrite evaluate_conditions_unsealed by done. cbn [app].
  destruct (wr_condition_logic rule); [by rewrite fold_all_spec|by rewrite fold_any_spec].
Qed.

Definition bool_outcome (b : bool) : CondOutcome := if b then OTrue else OFalse.

Lemma outcome_Ok o b : outcome_res o = Ok b ↔ o = bool_outcome b.
Proof. destruct o, b; naive_solver. Qed.

Lemma proof_outcomes batch ctx conds ps rs :
  batch_keyed batch → Forall2 (λ c p, proof_condition batch c = Some p) conds ps →
  Forall2 (condition_true (clock_of ctx)) ps rs ↔
  outcomes batch ctx conds = map bool_outcome rs.
Proof.
  intros Hk Hps. revert rs. induction Hps as [|c p conds ps Hp _ IH]; intros rs; simpl.
  - split; [by intros ->%Forall2_nil_inv_l|]. by destruct rs.
  - pose proof (one_condition_agree batch c p ctx Hk Hp) as Ha.
    assert (∀ b, condition_true (clock_of ctx) p b ↔
      evaluate_one_condition c batch ctx = bool_outcome b) as Hb.
    { intros b. rewrite <- outcome_Ok. unfold condition_true, evaluate_proof_condition.
      change (match p with ProofPyth _ _ => _ | ProofSolend _ _ => _ end)
        with (onchain_verdict (clock_of ctx) p).
      rewrite map_err_Ok. by destruct (outcome_res _), (onchain_verdict _ _); naive_solver. }
    split.
    + intros (b & bs & Hpb & Hbs & ->)%Forall2_cons_inv_l. simpl.
      f_equal; [by apply Hb|by apply IH].
    + destruct rs as [|b rs]; [done|]. simpl. intros [= Hpb Hbs].
      constructor; [by apply Hb|by apply IH].
Qed.

Lemma errors_bool rs : errors (map bool_outcome rs) = [].
Proof. induction rs as [|[] rs IH]; done. Qed.

Lemma no_errors os : errors os = [] ↔ ∃ rs, os = map bool_outcome rs.
Proof.
  split; [|intros [rs ->]; apply errors_bool].
  induction os as [|[] os IH]; intros Hos; [by exists []| | |done].
  - destruct (IH Hos) as [rs ->]. by exists (true :: rs).
  - destruct (IH Hos) as [rs ->]. by exists (false :: rs).
Qed.

Lemma elem_of_bool_outcome b rs : bool_outcome b ∈ map bool_outcome rs ↔ b ∈ rs.
Proof.
  rewrite list_elem_of_fmap. split; [|eauto]. intros (b' & Hb & ?). by destruct b, b'.
Qed.

Lemma nonempty_conditions {A} (l : list A) n : (1 ≤ length l ≤ n)%nat → l ≠ [].
Proof. destruct l; simpl; [lia|done]. Qed.

(** Without errors the evaluator computes the on-chain fold. *)
Lemma evaluate_rule_bools rule batch ctx rs :
  wr_conditions rule ≠ [] → outcomes batch ctx (wr_conditions rule) = map bool_outcome rs →
  evaluate_rule_against_batch rule batch ctx =
    Ok (evaluate_condition_logic (onchain_logic (wr_condition_logic rule)) rs).
Proof.
  intros Hne Hos.
  assert (sealing (wr_condition_logic rule) =
          bool_outcome (sealed_value (wr_condition_logic rule))) as Hsv
    by (by destruct (wr_condition_logic rule)).
  destruct (decide (sealed_value (wr_condition_logic rule) ∈ rs)) as [Hin|Hin].
  - rewrite evaluate_rule_sealed by (by rewrite Hos, Hsv, elem_of_bool_outcome). f_equal.
    symmetry. destruct (wr_condition_logic rule); simpl in *.
    + apply not_true_iff_false. rewrite forallb_forall. intros Hf.
      by apply list_elem_of_In, Hf in Hin.
    + apply existsb_exists. exists true. by rewrite <- list_elem_of_In.
  - rewrite evaluate_rule_unsealed, Hos by (by rewrite ?Hos, ?Hsv, ?elem_of_bool_outcome).
    unfold worst. rewrite errors_bool. cbn [foldl]. f_equal.
    symmetry. destruct (wr_condition_logic rule); simpl in *.
    + apply forallb_forall. intros [] Hb; [done|]. by apply list_elem_of_In in Hb.
    + apply not_true_iff_false. rewrite existsb_exists. intros ([] & Hb & ?); [|done].
      by apply list_elem_of_In in Hb.
Qed.
End rules.

(** ** Properties *)

(** C21: the two copies of the condition arithmetic agree: on the same snapshot,
    slot and time the gateway's evaluator and the on-chain verifier give the
    same decision, and where one fails the other does, the gateway retrying
    exactly the failures that another slot or a fresher oracle can cure. *)
Theorem evaluator_agrees_with_verifier `{Crates} batch cond p ctx :
  batch_keyed batch → proof_condition batch cond = Some p →
  match evaluate_one_condition cond batch ctx, onchain_verdict (clock_of ctx) p with
  | OTrue, Ok true | OFalse, Ok false => True
  | OErr e, Err v => is_transient e = retryable v ∧ is_terminal e = negb (retryable v)
  | _, _ => False
  end.
Proof.
  intros Hk Hp. pose proof (one_condition_agree batch cond p ctx Hk Hp) as Ha.
  by destruct (evaluate_one_condition cond batch ctx), (onchain_verdict (clock_of ctx) p)
    as [[]|].
Qed.

(** When the program's condition gate accepts: exactly when there are one to
    eight conditions, the evaluator says the rule is met on the same snapshots
    and no condition of the rule fails to evaluate. *)
Theorem gate_accepts_what_evaluator_meets `{Crates} rule batch ctx ps :
  batch_keyed batch → mapM (proof_condition batch) (wr_conditions rule) = Some ps →
  condition_gate (clock_of ctx)
    (MkPayload (onchain_logic (wr_condition_logic rule)) ps) = Ok tt ↔
  (1 ≤ length (wr_conditions rule) ≤ 8)%nat ∧
  evaluate_rule_against_batch rule batch ctx = Ok true ∧
  (∀ c e, c ∈ wr_conditions rule → evaluate_one_condition c batch ctx ≠ OErr e).
Proof.
  intros Hk Hps%mapM_Some. rewrite condition_gate_Ok. unfold conditions_hold. simpl.
  rewrite <- (Forall2_length _ _ _ Hps).
  setoid_rewrite (proof_outcomes batch ctx _ _ _ Hk Hps).
  assert ((∀ c e, c ∈ wr_conditions rule → evaluate_one_condition c batch ctx ≠ OErr e) ↔
    errors (map (λ c, evaluate_one_condition c batch ctx) (wr_conditions rule)) = []) as ->.
  { split.
    - intros Hno. apply elem_of_nil_inv. intros e (c & ? & ?)%elem_of_errors%list_elem_of_fmap.
      by eapply Hno.
    - intros Hnil c e Hc Hce. apply (not_elem_of_nil e). rewrite <- Hnil.
      apply elem_of_errors, list_elem_of_fmap. by exists c. }
  rewrite no_errors. split.
  - intros [Hlen (rs & Hrs & Hl)]. split; [done|]. split; [|by exists rs].
    rewrite (evaluate_rule_bools rule batch ctx rs); [|by eapply nonempty_conditions, Hlen|done].
    f_equal. by apply evaluate_condition_logic_spec.
  - intros (Hlen & He & rs & Hrs). split; [done|]. exists rs. split; [done|].
    apply evaluate_condition_logic_spec.
    rewrite (evaluate_rule_bools rule batch ctx rs) in He;
      [by injection He|by eapply nonempty_conditions, Hlen|done].
Qed.

(** The decision on a rule depends only on the set of its outcomes, never
    on their order: a false condition settles All and a true one settles Any
    whatever else failed; otherwise a failure of the highest severity is
    reported; otherwise the rule is met (All) or not (Any). *)
Theorem evaluate_rule_order_independent `{Crates} rule batch ctx :
  wr_conditions rule ≠ [] →
  let os := map (λ c, evaluate_one_condition c batch ctx) (wr_conditions rule) in
  let r := evaluate_rule_against_batch rule batch ctx in
  match wr_condition_logic rule with
  | WatchRules.All => r = Ok false ↔ OFalse ∈ os
  | WatchRules.Any => r = Ok true ↔ OTrue ∈ os
  end ∧
  (∀ e, r = Err e → OErr e ∈ os ∧ ∀ e', OErr e' ∈ os → severity_rank e' ≤ severity_rank e) ∧
  ((∃ e, r = Err e) ↔ sealing (wr_condition_logic rule) ∉ os ∧ ∃ e, OErr e ∈ os).
Proof.
  intros Hne os r. subst r.
  assert (∀ e, OErr e ∈ os ↔ e ∈ errors os) as Hos by (intros; by rewrite elem_of_errors).
  setoid_rewrite Hos.
  destruct (decide (sealing (wr_condition_logic rule) ∈ os)) as [Hs|Hs].
  { rewrite (evaluate_rule_sealed rule batch ctx) by done.
    destruct (wr_condition_logic rule); naive_solver. }
  rewrite (evaluate_rule_unsealed rule batch ctx) by done.
  pose proof (worst_max None (errors os)) as Hw. unfold worst. fold os.
  destruct (foldl _ _ (errors os)) as [e|].
  - destruct Hw as [[?|Hin] Hmax]; [done|].
    destruct (wr_condition_logic rule); naive_solver.
  - destruct Hw as [_ Hnil]. rewrite Hnil. setoid_rewrite elem_of_nil.
    destruct (wr_condition_logic rule); naive_solver.
Qed.

(** ** An example *)
Definition demo_crates : Crates := {|
  sha256 bs := take 32 (bs ++ replicate 32 Byte.x00);
  base58 bs := String.string_of_list_byte bs;
  serde_to_string rule := Ok (String.string_of_list_byte (to_vec rule));
  serde_from_str s := match try_from_slice (String.list_byte_of_string s) with
                      | Some rule => Ok rule | None => Err "invalid" end |}.

#[export] Instance demo_crates_laws : @CratesLaws demo_crates.
Proof.
  split.
  - intros bs. cbn [sha256 demo_crates]. rewrite length_take, length_app, length_replicate. lia.
  - intros rule Hr. eexists. split; [done|]. simpl.
    by rewrite String.list_byte_of_string_of_list_byte, try_from_slice_to_vec.
Qed.

Definition demo_feed : list byte := replicate 32 Byte.x0a.
Definition demo_feed2 : list byte := replicate 32 Byte.x0b.
Definition demo_reserve_key : list byte := replicate 32 Byte.x0c.

(** SOL above 150.00 with the price at 160.00, and a supply rate above 1%. *)
Definition demo_price_condition (f : list byte) : Condition :=
  PythPrice f (replicate 32 Byte.x0d) WatchRules.Gt 15000 (-2) 60 100 WatchRules.Full
    WatchRules.AdverseLowerForGt.
Definition demo_rate_condition : Condition :=
  SolendReserveSupplyRate demo_reserve_key (replicate 32 Byte.x0e) (replicate 32 Byte.x0f)
    WatchRules.Gt 100 WatchRules.Apr 1 20 true.
Definition demo_action : ActionSpec :=
  SolendWithdrawAllDelegated (replicate 32 Byte.x01) (replicate 32 Byte.x02)
    (replicate 32 Byte.x03) (replicate 32 Byte.x04) WithdrawAllDelegatedPosition.
Definition demo_rule (logic : WatchRules.ConditionLogic) (conds : list Condition) : WatchRule :=
  MkWatchRule 1 (replicate 16 Byte.x11) (replicate 32 Byte.x12) (replicate 32 Byte.x13)
    (replicate 32 Byte.x14) 900 2000 true logic conds demo_action 5000000 0
    (replicate 32 Byte.x15) 50.

Definition demo_price (f : list byte) (published : Z) : PythSnapshotValue :=
  MkPythSnapshot f 16000 (-2) 10 published WatchRules.Full.
Definition demo_reserve_snapshot : SolendSnapshotValue :=
  MkSolendSnapshot demo_reserve_key 1000000 (3000000 * 10 ^ 18) 0 8 50 100 80 90 10 995 false.
(** The second feed was last published long ago. *)
Definition demo_batch : Stage2SnapshotBatch :=
  insert_solend (insert_pyth (insert_pyth new_batch demo_feed (Ok (demo_price demo_feed 1700000000)))
    demo_feed2 (Ok (demo_price demo_feed2 1600000000)))
    demo_reserve_key (Ok demo_reserve_snapshot).
Definition demo_ctx : Stage2TickContext := MkTickContext 1000 1700000030 1700000030000.

Lemma demo_batch_keyed : batch_keyed demo_batch.
Proof.
  intros r s. unfold demo_batch. simpl.
  destruct (decide (demo_reserve_key = r)) as [<-|];
    [rewrite lookup_insert; naive_solver|by rewrite lookup_insert_ne, lookup_empty].
Qed.

Lemma evaluator_agrees_with_verifier_witness :
  match @evaluate_one_condition demo_crates demo_rate_condition demo_batch demo_ctx,
        onchain_verdict (clock_of demo_ctx)
          (ProofSolend (MkSolendCond ConditionVerifier.Gt 100 ConditionVerifier.Apr 1 20)
             (onchain_reserve demo_reserve_snapshot)) with
  | OTrue, Ok true | OFalse, Ok false => True
  | OErr e, Err v => is_transient e = retryable v ∧ is_terminal e = negb (retryable v)
  | _, _ => False
  end.
Proof.
  apply (@evaluator_agrees_with_verifier demo_crates demo_batch demo_rate_condition);
    [apply demo_batch_keyed|vm_compute; reflexivity].
Defined.

Definition demo_both : WatchRule :=
  demo_rule WatchRules.All [demo_price_condition demo_feed; demo_rate_condition].
Definition demo_both_proof : list ProofCondition := Eval vm_compute in
  default [] (mapM (proof_condition demo_batch) (wr_conditions demo_both)).

Lemma gate_accepts_what_evaluator_meets_witness :
  condition_gate (clock_of demo_ctx) (MkPayload ConditionVerifier.All demo_both_proof) = Ok tt.
Proof.
  apply (@gate_accepts_what_evaluator_meets demo_crates demo_both demo_batch demo_ctx);
    [apply demo_batch_keyed|vm_compute; reflexivity|].
  split; [vm_compute; lia|]. split; [vm_compute; reflexivity|].
  intros c e [->|[->|[]%not_elem_of_nil]%elem_of_cons]%elem_of_cons; by vm_compute.
Defined.

Definition demo_mixed : WatchRule :=
  demo_rule WatchRules.Any [demo_price_condition demo_feed2; demo_rate_condition].

Lemma evaluate_rule_order_independent_witness :
  @evaluate_rule_against_batch demo_crates demo_mixed demo_batch demo_ctx = Ok true.
Proof.
  apply (@evaluate_rule_order_independent demo_crates demo_mixed demo_batch demo_ctx);
    [done|]. right. left.
Defined.

(** The evaluator's [Ok true] is only a hint: an Any rule with one stale feed
    and one true condition is met for the evaluator, while the program refuses
    the proof of the same conditions on the same snapshots. *)
Theorem met_rule_refused_on_chain : ∃ ps,
  mapM (proof_condition demo_batch) (wr_conditions demo_mixed) = Some ps ∧
  @evaluate_rule_against_batch demo_crates demo_mixed demo_batch demo_ctx = Ok true ∧
  condition_gate (clock_of demo_ctx)
    (MkPayload (onchain_logic (wr_condition_logic demo_mixed)) ps) ≠ Ok tt.
Proof.
  eexists. split; [vm_compute; reflexivity|]. split; [vm_compute; reflexivity|].
  vm_compute. discriminate.
Qed.

(** * The tick cache of the batched evaluator ([stage2_evaluator.rs])

    Within one tick the cache is transparent (each rule gets the decision a
    fetch of its own keys would give) and no key is asked from the provider
    twice; a new tick starts from an empty cache. *)

(** ** Keys of a rule and requests *)
Definition rule_pyth_feeds (rule : WatchRule) : list (list byte) :=
  omap (λ c, match c with PythPrice f _ _ _ _ _ _ _ _ => Some f | _ => None end)
    (wr_conditions rule).
Definition rule_reserves (rule : WatchRule) : list PubkeyBytes :=
  omap (λ c, match c with SolendReserveSupplyRate r _ _ _ _ _ _ _ _ => Some r | _ => None end)
    (wr_conditions rule).

(** Push the keys that were not seen, once each. *)
Definition push_unseen (seen : gset (list byte)) (v ks : list (list byte)) :
    list (list byte) :=
  foldl (λ v k, if bool_decide (k ∈ seen) then v else push_new v k) v ks.

Lemma push_new_spec v k :
  (∀ k', k' ∈ push_new v k ↔ k' ∈ v ∨ k' = k) ∧ (NoDup v → NoDup (push_new v k)).
Proof.
  unfold push_new. destruct (existsb _ v) eqn:E.
  - apply existsb_exists in E as (k' & Hin%list_elem_of_In & ->%bool_decide_eq_true).
    split; [naive_solver|done].
  - assert (k ∉ v) as Hk.
    { intros Hin%list_elem_of_In. apply not_true_iff_false in E. apply E, existsb_exists.
      exists k. split; [done|by apply bool_decide_eq_true]. }
    split; [intros k'; rewrite elem_of_app, list_elem_of_singleton; done|].
    intros Hv. apply NoDup_app. split_and!; [done| |apply NoDup_singleton].
    intros x Hx ->%list_elem_of_singleton. done.
Qed.

Lemma push_unseen_spec seen v ks :
  (∀ k, k ∈ push_unseen seen v ks ↔ k ∈ v ∨ (k ∈ ks ∧ k ∉ seen)) ∧
  (NoDup v → NoDup (push_unseen seen v ks)).
Proof.
  revert v. induction ks as [|k ks IH]; intros v; simpl.
  - split; [|done]. intros k. rewrite elem_of_nil. naive_solver.
  - destruct (IH (if bool_decide (k ∈ seen) then v else push_new v k)) as [Hin Hnd].
    destruct (push_new_spec v k) as [Hn Hd]. case_bool_decide.
    + split; [|done]. intros k'. rewrite Hin, elem_of_cons. naive_solver.
    + split; [|auto]. intros k'. rewrite Hin, Hn, elem_of_cons. naive_solver.
Qed.

Lemma missing_request_spec c rule :
  missing_request c rule =
    MkRequest (push_unseen (tc_pyth_attempted c) [] (rule_pyth_feeds rule))
      (push_unseen (tc_solend_attempted c) [] (rule_reserves rule)).
Proof.
  unfold missing_request, rule_pyth_feeds, rule_reserves, new_request, push_unseen.
  generalize (@nil (list byte)) at 1 3 as v1. generalize (@nil (list byte)) as v2.
  induction (wr_conditions rule) as [|[] conds IH]; intros v2 v1; simpl; [done|..];
    case_bool_decide; by rewrite <- IH.
Qed.

Lemma plan_request_spec rule :
  plan_request_for_rule rule =
    MkRequest (push_unseen ∅ [] (rule_pyth_feeds rule)) (push_unseen ∅ [] (rule_reserves rule)).
Proof.
  rewrite <- (missing_request_spec default_cache). unfold plan_request_for_rule,
    extend_request_with_rule, missing_request. simpl. generalize new_request as req.
  induction (wr_conditions rule) as [|[] conds IH]; intros req; simpl; by rewrite ?IH.
Qed.

(** ** Batches *)
Lemma foldl_insert_lookup {V} (f : list byte → V) (ks : list (list byte))
    (m : gmap (list byte) V) k :
  foldl (λ m k, <[k := f k]> m) m ks !! k = if decide (k ∈ ks) then Some (f k) else m !! k.
Proof.
  revert m. induction ks as [|k' ks IH]; intros m; [done|]. cbn [foldl].
  rewrite IH. destruct (decide (k ∈ ks)).
  - by rewrite decide_True by (rewrite elem_of_cons; auto).
  - destruct (decide (k = k')) as [->|].
    + rewrite lookup_insert_eq, decide_True; [done|left].
    + rewrite lookup_insert_ne, decide_False; [done| |done].
      rewrite elem_of_cons. naive_solver.
Qed.

Definition call_count (calls : gmap (list byte) Z) (k : list byte) : Z :=
  default 0 (calls !! k).

Lemma foldl_count_call ks calls k : NoDup ks →
  call_count (foldl count_call calls ks) k =
  call_count calls k + (if decide (k ∈ ks) then 1 else 0).
Proof.
  intros Hnd. revert calls. induction Hnd as [|k' ks Hk' Hnd IH]; intros calls; cbn [foldl].
  - rewrite decide_False by apply not_elem_of_nil. lia.
  - rewrite IH. unfold call_count, count_call. destruct (decide (k = k')) as [->|Hne].
    + rewrite lookup_insert_eq, decide_False, decide_True by (done || left). simpl. lia.
    + rewrite lookup_insert_ne by done. f_equal.
      destruct (decide (k ∈ ks)); [rewrite decide_True; [done|by right]|].
      rewrite decide_False; [done|]. rewrite elem_of_cons. naive_solver.
Qed.

(** A set [new] grown from [old] by the keys of [nf]. *)
Section grown.
Context (nf : list (list byte)) (old new : gset (list byte)).
Context (Hnew : ∀ k, k ∈ new ↔ k ∈ nf ∨ k ∈ old) (Hfresh : ∀ k, k ∈ nf → k ∉ old).

Lemma grown_lookup {V} (f : list byte → V) k :
  (if decide (k ∈ nf) then Some (f k) else None) ∪
  (if decide (k ∈ old) then Some (f k) else None) =
  (if decide (k ∈ new) then Some (f k) else None).
Proof using Hnew. specialize (Hnew k). repeat case_decide; naive_solver. Qed.

Lemma grown_count k n :
  n + (if decide (k ∈ old) then 1 else 0) + (if decide (k ∈ nf) then 1 else 0) =
  n + (if decide (k ∈ new) then 1 else 0).
Proof using All.
  specialize (Hnew k). specialize (Hfresh k). repeat case_decide; try lia; naive_solver.
Qed.
End grown.

(** The two cases of a request: nothing new, or the unseen keys. *)
Lemma grown_unseen (seen : gset (list byte)) ks k :
  let nf := push_unseen seen [] ks in
  (k ∈ nf → k ∉ seen) ∧ (k ∈ seen ∪ list_to_set ks ↔ k ∈ nf ∨ k ∈ seen).
Proof.
  intros nf. destruct (push_unseen_spec seen [] ks) as [Hin _].
  rewrite elem_of_union, elem_of_list_to_set. subst nf. rewrite Hin, elem_of_nil.
  destruct (decide (k ∈ seen)); naive_solver.
Qed.

Section cache.
Context `{Crates}.
Notation Mock := Stage2DeterministicMockProvider.

(** Decisions look at the keys of the rule only. *)
Lemma evaluate_rule_ext rule b1 b2 ctx :
  (∀ k, k ∈ rule_pyth_feeds rule → b_pyth b1 !! k = b_pyth b2 !! k) →
  (∀ k, k ∈ rule_reserves rule → b_solend b1 !! k = b_solend b2 !! k) →
  evaluate_rule_against_batch rule b1 ctx = evaluate_rule_against_batch rule b2 ctx.
Proof.
  unfold rule_pyth_feeds, rule_reserves, evaluate_rule_against_batch.
  intros Hp Hs. destruct (wr_conditions rule) as [|c0 cs] eqn:Econds; [done|].
  rewrite <- Econds in *. clear Econds c0 cs.
  assert (∀ c, c ∈ wr_conditions rule →
    evaluate_one_condition c b1 ctx = evaluate_one_condition c b2 ctx) as Hone.
  { intros c Hc. destruct c as [f|r]; simpl; [rewrite Hp|rewrite Hs]; try done;
      apply list_elem_of_omap; eexists; by split. }
  enough (∀ acc, evaluate_conditions (wr_condition_logic rule) (wr_conditions rule) b1 ctx acc =
                 evaluate_conditions (wr_condition_logic rule) (wr_conditions rule) b2 ctx acc)
    as -> by done.
  clear Hp Hs. induction (wr_conditions rule) as [|c conds IH]; intros acc; [done|]. simpl.
  rewrite Hone by left.
  assert (∀ acc, evaluate_conditions (wr_condition_logic rule) conds b1 ctx acc =
                 evaluate_conditions (wr_condition_logic rule) conds b2 ctx acc) as IH'
    by (intros; apply IH; intros; apply Hone; by right).
  by destruct (evaluate_one_condition c b2 ctx), (wr_condition_logic rule).
Qed.

Lemma mock_fetch_lookup req ctx (p : Mock) :
  (∀ k, b_pyth (fetch_batch req ctx p).1 !! k =
        if decide (k ∈ pyth_feeds req) then Some (mock_pyth_answer p k) else None) ∧
  (∀ k, b_solend (fetch_batch req ctx p).1 !! k =
        if decide (k ∈ solend_reserves req) then Some (mock_solend_answer p k) else None).
Proof.
  assert (∀ ks b, foldl (λ b k, insert_pyth b k (mock_pyth_answer p k)) b ks =
    MkBatch (foldl (λ m k, <[k := mock_pyth_answer p k]> m) (b_pyth b) ks) (b_solend b)) as Hp
    by (induction ks as [|k ks IH]; intros [pm sm]; simpl; [done|by rewrite IH]).
  assert (∀ ks b, foldl (λ b k, insert_solend b k (mock_solend_answer p k)) b ks =
    MkBatch (b_pyth b) (foldl (λ m k, <[k := mock_solend_answer p k]> m) (b_solend b) ks)) as Hs
    by (induction ks as [|k ks IH]; intros [pm sm]; simpl; [done|by rewrite IH]).
  unfold fetch_batch, mock_provider. rewrite Hp, Hs. cbn [fst b_pyth b_solend new_batch].
  split; intros k; by rewrite foldl_insert_lookup, lookup_empty.
Qed.

(** ** The invariant of a tick *)

(** The cache holds the provider's answers for the keys attempted in this tick,
    and each of those was asked once since [p0]. *)
Record tick_inv (ctx : Stage2TickContext) (p0 : Mock) (feeds reserves : gset (list byte))
    (p : Mock) (c : TickCache) : Prop := {
  ti_token : tc_token c = Some (tick_token ctx);
  ti_feeds : tc_pyth_attempted c = feeds;
  ti_reserves : tc_solend_attempted c = reserves;
  ti_pyth : ∀ k, tc_pyth c !! k = if decide (k ∈ feeds) then Some (mock_pyth_answer p0 k) else None;
  ti_solend : ∀ k, tc_solend c !! k =
    if decide (k ∈ reserves) then Some (mock_solend_answer p0 k) else None;
  ti_fixtures : m_pyth p = m_pyth p0 ∧ m_solend p = m_solend p0;
  ti_pyth_calls : ∀ k, call_count (m_pyth_calls p) k =
    call_count (m_pyth_calls p0) k + (if decide (k ∈ feeds) then 1 else 0);
  ti_solend_calls : ∀ k, call_count (m_solend_calls p) k =
    call_count (m_solend_calls p0) k + (if decide (k ∈ reserves) then 1 else 0)
}.

Lemma mock_answer_fixtures (p p0 : Mock) :
  m_pyth p = m_pyth p0 → m_solend p = m_solend p0 →
  (∀ k, mock_pyth_answer p k = mock_pyth_answer p0 k) ∧
  (∀ k, mock_solend_answer p k = mock_solend_answer p0 k).
Proof. unfold mock_pyth_answer, mock_solend_answer. by intros -> ->. Qed.

Lemma ensure_token_same ctx c : tc_token c = Some (tick_token ctx) → ensure_token ctx c = c.
Proof. intros Ht. unfold ensure_token. by rewrite bool_decide_eq_false_2 by auto. Qed.

Lemma ensure_token_fresh ctx p c : tc_token c ≠ Some (tick_token ctx) →
  tick_inv ctx p ∅ ∅ p (ensure_token ctx c).
Proof.
  intros Ht. unfold ensure_token. rewrite bool_decide_eq_true_2 by done.
  split; try done; intros k; simpl; rewrite ?lookup_empty, decide_False by set_solver;
    [done..|lia|lia].
Qed.

(** Fetching what is missing extends the invariant by the rule's keys. *)
Lemma fetch_missing ctx p0 feeds reserves p c rule :
  tick_inv ctx p0 feeds reserves p c →
  let request := missing_request c rule in
  let '(p', c') := if request_is_empty request then (p, c)
    else let '(batch, p') := fetch_batch request ctx p in
         (p', integrate (ensure_token ctx c) batch) in
  tick_inv ctx p0 (feeds ∪ list_to_set (rule_pyth_feeds rule))
    (reserves ∪ list_to_set (rule_reserves rule)) p' c'.
Proof.
  intros Hinv request. destruct Hinv as [Ht Hf Hr Hp Hs [Hfx1 Hfx2] Hcp Hcs].
  pose proof (missing_request_spec c rule) as Hreq. fold request in Hreq.
  rewrite Hf, Hr in Hreq. clearbody request. subst request.
  pose proof (grown_unseen feeds (rule_pyth_feeds rule)) as Hgf.
  pose proof (grown_unseen reserves (rule_reserves rule)) as Hgr.
  destruct (push_unseen_spec feeds [] (rule_pyth_feeds rule)) as [_ Hpnd].
  destruct (push_unseen_spec reserves [] (rule_reserves rule)) as [_ Hsnd].
  specialize (Hpnd NoDup_nil_2). specialize (Hsnd NoDup_nil_2).
  cbv zeta in Hgf, Hgr. revert Hgf Hgr Hpnd Hsnd.
  generalize (push_unseen feeds [] (rule_pyth_feeds rule)) as nf.
  generalize (push_unseen reserves [] (rule_reserves rule)) as nr.
  generalize (feeds ∪ list_to_set (rule_pyth_feeds rule)) as feeds'.
  generalize (reserves ∪ list_to_set (rule_reserves rule)) as reserves'.
  intros reserves' feeds' nr nf Hgf Hgr Hpnd Hsnd.
  destruct (request_is_empty (MkRequest nf nr)) eqn:Hempty.
  - assert (nf = [] ∧ nr = []) as [-> ->] by (destruct nf, nr; done).
    assert (feeds' = feeds) as ->
      by (apply leibniz_equiv; intros k; rewrite (proj2 (Hgf k)), elem_of_nil; naive_solver).
    assert (reserves' = reserves) as ->
      by (apply leibniz_equiv; intros k; rewrite (proj2 (Hgr k)), elem_of_nil; naive_solver).
    by constructor.
  - destruct (mock_fetch_lookup (MkRequest nf nr) ctx p) as [Hbp Hbs].
    destruct (mock_answer_fixtures p p0 Hfx1 Hfx2) as [Ha1 Ha2].
    unfold fetch_batch, mock_provider in *. cbn [fst] in Hbp, Hbs.
    set (batch := foldl _ (foldl _ _ _) _) in *. rewrite ensure_token_same by done.
    cbn [pyth_feeds solend_reserves] in *.
    constructor; cbn [tc_token tc_pyth tc_solend tc_pyth_attempted tc_solend_attempted integrate
                      m_pyth m_solend m_pyth_calls m_solend_calls]; try done.
    + rewrite Hf. apply leibniz_equiv. intros k. rewrite (proj2 (Hgf k)), elem_of_union,
        elem_of_dom, Hbp. unfold is_Some. case_decide; naive_solver.
    + rewrite Hr. apply leibniz_equiv. intros k. rewrite (proj2 (Hgr k)), elem_of_union,
        elem_of_dom, Hbs. unfold is_Some. case_decide; naive_solver.
    + intros k. rewrite lookup_union, Hbp, Hp, Ha1. apply grown_lookup. apply Hgf.
    + intros k. rewrite lookup_union, Hbs, Hs, Ha2. apply grown_lookup. apply Hgr.
    + intros k. rewrite foldl_count_call, Hcp by done. apply grown_count; apply Hgf.
    + intros k. rewrite foldl_count_call, Hcs by done. apply grown_count; apply Hgr.
Qed.

(** ** A tick: the rules one after the other *)
Fixpoint evaluate_tick (rules : list WatchRule) (ctx : Stage2TickContext)
    (st : Mock * TickCache) : list (WRes bool) * (Mock * TickCache) :=
  match rules with
  | [] => ([], st)
  | rule :: rules =>
      let '(r, st) := evaluate rule ctx st in
      let '(rs, st) := evaluate_tick rules ctx st in
      (r :: rs, st)
  end.

(** The decision without a cache: fetch the rule's own keys and evaluate. *)
Definition direct_decision (p : Mock) (ctx : Stage2TickContext) (rule : WatchRule) : WRes bool :=
  evaluate_rule_against_batch rule (fetch_batch (plan_request_for_rule rule) ctx p).1 ctx.

Lemma evaluate_step ctx p0 feeds reserves p c rule :
  tick_inv ctx p0 feeds reserves p (ensure_token ctx c) →
  let '(r, (p', c')) := evaluate rule ctx (p, c) in
  r = direct_decision p0 ctx rule ∧
  tick_inv ctx p0 (feeds ∪ list_to_set (rule_pyth_feeds rule))
    (reserves ∪ list_to_set (rule_reserves rule)) p' (ensure_token ctx c').
Proof.
  intros Hinv. pose proof (fetch_missing ctx p0 feeds reserves p _ rule Hinv) as Hf.
  unfold evaluate, Stage2BatchedConditionEvaluator. cbv zeta in Hf |- *.
  destruct (if request_is_empty _ then _ else _) as [p' c'].
  split; [|by rewrite ensure_token_same by apply Hf].
  unfold direct_decision. rewrite plan_request_spec.
  destruct (mock_fetch_lookup (MkRequest (push_unseen ∅ [] (rule_pyth_feeds rule))
    (push_unseen ∅ [] (rule_reserves rule))) ctx p0) as [Hbp Hbs].
  apply evaluate_rule_ext; intros k Hk.
  - rewrite Hbp. cbn [snapshot_view b_pyth pyth_feeds].
    rewrite (ti_pyth _ _ _ _ _ _ Hf), !decide_True; [done| |].
    + apply push_unseen_spec. right. split; [done|apply not_elem_of_empty].
    + by apply elem_of_union_r, elem_of_list_to_set.
  - rewrite Hbs. cbn [snapshot_view b_solend solend_reserves].
    rewrite (ti_solend _ _ _ _ _ _ Hf), !decide_True; [done| |].
    + apply push_unseen_spec. right. split; [done|apply not_elem_of_empty].
    + by apply elem_of_union_r, elem_of_list_to_set.
Qed.

Lemma evaluate_tick_spec ctx p0 rules feeds reserves p c :
  tick_inv ctx p0 feeds reserves p (ensure_token ctx c) →
  let '(rs, (p', c')) := evaluate_tick rules ctx (p, c) in
  rs = map (direct_decision p0 ctx) rules ∧
  tick_inv ctx p0 (feeds ∪ list_to_set (rules ≫= rule_pyth_feeds))
    (reserves ∪ list_to_set (rules ≫= rule_reserves)) p' (ensure_token ctx c').
Proof.
  revert feeds reserves p c. induction rules as [|rule rules IH]; intros feeds reserves p c Hinv.
  - cbn. by rewrite !(right_id_L ∅ (∪)).
  - cbn [evaluate_tick]. pose proof (evaluate_step _ _ _ _ _ _ rule Hinv) as Hstep.
    destruct (evaluate rule ctx (p, c)) as [r [p1 c1]]. destruct Hstep as [-> Hinv1].
    specialize (IH _ _ _ _ Hinv1).
    destruct (evaluate_tick rules ctx (p1, c1)) as [rs [p2 c2]]. destruct IH as [-> Hinv2].
    split; [done|]. rewrite !bind_cons, !list_to_set_app_L, !(assoc_L (∪)). done.
Qed.
End cache.

(** ** Properties *)

(** Within a tick the cache is transparent and deduplicates: over any list of
    rules every rule gets the decision a fetch of its own keys gives, and every
    feed and reserve the rules mention is asked from the provider exactly once,
    the others never. *)
Theorem tick_cache_transparent `{Crates} rules ctx p c :
  tc_token c ≠ Some (tick_token ctx) →
  let '(decisions, (p', _)) := evaluate_tick rules ctx (p, c) in
  decisions = map (direct_decision p ctx) rules ∧
  (∀ k, call_count (m_pyth_calls p') k =
    call_count (m_pyth_calls p) k + (if decide (k ∈ rules ≫= rule_pyth_feeds) then 1 else 0)) ∧
  (∀ k, call_count (m_solend_calls p') k =
    call_count (m_solend_calls p) k + (if decide (k ∈ rules ≫= rule_reserves) then 1 else 0)).
Proof.
  intros Ht.
  pose proof (evaluate_tick_spec ctx p rules ∅ ∅ p c (ensure_token_fresh ctx p c Ht)) as Hs.
  destruct (evaluate_tick rules ctx (p, c)) as [rs [p' c']]. destruct Hs as [-> Hinv].
  split; [done|]. split; intros k.
  - rewrite (ti_pyth_calls _ _ _ _ _ _ Hinv). f_equal.
    apply decide_ext. set_solver.
  - rewrite (ti_solend_calls _ _ _ _ _ _ Hinv). f_equal.
    apply decide_ext. set_solver.
Qed.

Definition demo_mock : Stage2DeterministicMockProvider :=
  MkMock (b_pyth demo_batch) (b_solend demo_batch) ∅ ∅ 0.

Lemma tick_cache_transparent_witness :
  let '(decisions, (p', _)) :=
    @evaluate_tick demo_crates [demo_both; demo_mixed] demo_ctx (demo_mock, default_cache) in
  decisions = map (@direct_decision demo_crates demo_mock demo_ctx) [demo_both; demo_mixed] ∧
  (∀ k, call_count (m_pyth_calls p') k = call_count ∅ k +
    (if decide (k ∈ [demo_both; demo_mixed] ≫= rule_pyth_feeds) then 1 else 0)) ∧
  (∀ k, call_count (m_solend_calls p') k = call_count ∅ k +
    (if decide (k ∈ [demo_both; demo_mixed] ≫= rule_reserves) then 1 else 0)).
Proof.
  apply (@tick_cache_transparent demo_crates [demo_both; demo_mixed] demo_ctx demo_mock
    default_cache). discriminate.
Defined.
