(* ===== verification/DaemonSafety.v ===== *)
(** * What the daemon guarantees

    The properties of the watch-rule store, the watcher and the executor: over
    every interleaving of [RuleDaemon], and of one handler run alone. *)
From stdpp Require Import sorting.
From S2P Require Import Prelude Interaction Borsh WatchRules WatcherBase RuleStore Daemon RuleWatcher.
From S2P Require Import RuleExecutor RuleDaemon RuleSteps EvaluatorFacts.
#[local] Open Scope Z_scope.

Section safety.
Context `{!Crates, !CratesLaws, !Sqlite, !SqliteLaws}.

(** C4: whatever watchers, executors and clients run over the store, in any
    interleaving, with processes stopped anywhere and statements failing at
    will, no rule's execution is ever sent twice. *)
Theorem dispatched_at_most_once pl :
  reachable runs ∅ pl → NoDup (sent_ids (sh_log (pl_shared pl))).
Proof. intros (Ls & Hwf & _)%reachable_ok. apply Hwf. Qed.

(** C5: every execution sent is justified by what happened before: a rule with
    these terms was inserted, the watcher evaluated its conditions to true and
    simulated its execution, and the executor then took it from
    [condition_met] to [executing] while no revocation, expiry, failure or
    completion had touched it; the request carries the rule's own terms and the
    whole remaining amount. *)
Theorem dispatch_justified pl req l :
  reachable runs ∅ pl → LSent req :: l `suffix_of` sh_log (pl_shared pl) → justified req l.
Proof. intros (Ls & Hwf & _)%reachable_ok. apply Hwf. Qed.

Lemma sent_ids_split id l : id ∈ sent_ids l →
  ∃ req l', LSent req :: l' `suffix_of` l ∧ rq_rule_id req = id.
Proof.
  induction l as [|x l IH]; [by intros ?%elem_of_nil|]. intros Hid.
  assert ((∃ req, x = LSent req ∧ rq_rule_id req = id) ∨ id ∈ sent_ids l)
    as [(req & -> & Hr)|Hl].
  { destruct x; try (by right). apply elem_of_cons in Hid as [->|]; eauto. }
  - by exists req, l.
  - destruct (IH Hl) as (req & l' & Hs & Hr). exists req, l'. split; [|done].
    by apply suffix_cons_r.
Qed.

Lemma closed_mono id l l' : l `suffix_of` l' → closed id l → closed id l'.
Proof. intros Hl (u & n & Hin & Hu). exists u, n. split; [by eapply elem_of_suffix|done]. Qed.

(** Revoking, expiring, failing or completing a rule before it is leased is
    final: it is never dispatched afterwards, whatever runs. *)
Theorem closed_rule_never_dispatched pl id l :
  reachable runs ∅ pl → l `suffix_of` sh_log (pl_shared pl) → closed id l →
  (∀ nonce n, LUpdated (UExecutingIfConditionMet id nonce) n ∈ l → n = 0) →
  id ∉ sent_ids (sh_log (pl_shared pl)).
Proof.
  intros (Ls & Hwf & _)%reachable_ok Hl Hc Hno (req & l' & Hs & <-)%sent_ids_split.
  destruct (wf_justified _ _ _ Hwf req l' Hs)
    as (rule & nonce & n & l0 & _ & _ & Hlease & Hn & _ & _ & Hopen).
  assert (LUpdated (UExecutingIfConditionMet (rq_rule_id req) nonce) n :: l0 `suffix_of`
    sh_log (pl_shared pl)) as Hlog.
  { etransitivity; [done|]. etransitivity; [|done]. by apply suffix_cons_r. }
  assert (LUpdated (UExecutingIfConditionMet (rq_rule_id req) nonce) n ∉ l) as Hnot
    by (intros Hin; by apply Hn, (Hno nonce)).
  destruct (suffix_weak_total _ _ _ Hl Hlog) as [Hsuf|Hsuf].
  - destruct Hsuf as [[|x k] Hk]; simplify_list_eq; [by apply Hnot; left|].
    eapply Hopen, closed_mono; [|done]. by apply suffix_app_r.
  - apply Hnot. eapply elem_of_suffix; [left|done].
Qed.

(** C35: the store stays readable: in every reachable state the integrity checks
    pass on every row, so a listing never fails on a bad row, and an inserted
    rule is read back with its own terms and canonical hash. *)
Theorem store_always_loads pl :
  reachable runs ∅ pl →
  (∀ limit, ∃ ss, list_pending_lifecycle_limit limit (sh_table (pl_shared pl)) = Ok ss ∧
     Forall (stored_ok (sh_log (pl_shared pl))) ss) ∧
  ∀ rule, LInserted rule ∈ sh_log (pl_shared pl) →
    ∃ s, get (wr_rule_id rule) (sh_table (pl_shared pl)) = Ok (Some s) ∧ st_rule s = rule ∧
      st_canonical_rule_hash s = canonical_rule_hash rule.
Proof.
  intros (Ls & Hwf & _)%reachable_ok. split.
  - intros limit. assert (∃ ss, list_pending_lifecycle_limit limit (sh_table (pl_shared pl)) = Ok ss)
      as [ss Hss]; [|by exists ss; split; [|by eapply list_pending_stored_ok]].
    unfold list_pending_lifecycle_limit. destruct (_ =? _); [by eexists|].
    set (rows := take _ _). assert (Forall (λ r, ∃ s, row_to_stored r = Ok s) rows) as Hall.
    { apply Forall_forall. intros r (j & Hj & _)%elem_of_take.
      apply list_elem_of_lookup_2, elem_of_select in Hj as (k & Hk & _).
      destruct (wf_rows _ _ _ Hwf _ _ Hk) as (rule & _ & _ & (s & Hs & _) & _). by exists s. }
    induction Hall as [|r rows' [s Hs] _ [ss IH]]; [by exists []|].
    exists (s :: ss). cbn [collect]. rewrite Hs. cbn [mbind result_bind]. by rewrite IH.
  - intros rule Hi. destruct (wf_inserted _ _ _ Hwf rule Hi) as (row & Hrow & s & Hs & Hr).
    exists s. unfold get. rewrite Hrow, Hs. cbn [mbind result_bind]. split_and!; [done..|].
    apply row_to_stored_Ok in Hs as [-> _]. by rewrite Hr.
Qed.

(** The watcher's handler of one rule, run alone: an active rule expires at
    its expiry slot, is marked met when its conditions hold and its execution
    simulates, fails on a terminal error and is left active otherwise; a rule in
    any other status, or in flight, is left as it was.  Nothing is dispatched, no
    other row changes and the in-flight guard is released on every path. *)
Theorem watch_rule_advances i env stored ctx report s :
  env_fault env = None → holds (sh_table s) (st_rule stored) (st_status stored) →
  moves i (st_rule stored)
    (watched (current_slot ctx) (bool_decide (wr_rule_id (st_rule stored) ∈ in_flight i s))
       (st_rule stored) (st_status stored) (env_evaluate env (st_rule stored) ctx)
       (env_simulate env (st_rule stored) ctx)) [] s
    (run i env (RuleWatcher.process_rule stored ctx report) s).2.
Proof. intros Hf Hh. by apply watcher_process_rule_leads. Qed.

(** The executor's handler of one rule, run alone against a row in any
    status: only a row still in [condition_met] is leased; the request built from
    the rule is sent once and the rule completes or fails with the client's
    answer; a request that cannot be built fails the rule without sending
    anything; in every other case nothing changes.  The in-flight guard is
    released on every path. *)
Theorem execute_rule_settles i env fixture config stored st s :
  env_fault env = None → holds (sh_table s) (st_rule stored) st →
  let out := executed env fixture config
    (bool_decide (wr_rule_id (st_rule stored) ∈ in_flight i s)) stored st in
  moves i (st_rule stored) out.1 out.2 s
    (run i env (RuleExecutor.process_rule fixture config stored) s).2.
Proof. intros Hf Hh. by apply executor_process_rule_leads. Qed.

(** The client registers the rule, the watcher looks at it, the executor runs. *)
Definition register_watch_execute (fixture : DemoSolendExecutionFixture)
    (xcfg : Stage2ExecutorConfig) (wcfg : Stage2WatcherConfig) (ctx : Stage2TickContext)
    (rule : WatchRule) : Prog Stage2ExecutorRuleResult :=
  _ ← do (Store (CInsert rule));
  _ ← force_tick_rule wcfg (wr_rule_id rule) ctx;
  execute_rule_once fixture xcfg (wr_rule_id rule).

Lemma insert_holds i env rule s :
  env_fault env = None → well_typed rule →
  sh_table s !! hex_encode (wr_rule_id rule) = None →
  ∃ s1, exec_event i env (Store (CInsert rule)) s = (Ok tt, s1) ∧
    holds (sh_table s1) rule Active ∧ sends (sh_log s1) = sends (sh_log s) ∧
    others_kept rule (sh_table s) (sh_table s1) ∧ in_flight i s1 = in_flight i s.
Proof.
  intros Hf Hrule Hnone. destruct (serde_roundtrip rule Hrule) as (json & Hto & Hfrom).
  unfold exec_event. cbn [answer]. rewrite Hf. cbn [exec_store]. unfold insert_rule.
  rewrite Hto. cbn [col_rule_id inserted_row]. rewrite Hnone. eexists. split; [done|].
  split_and!; try done.
  - eexists _, _. split; [apply lookup_insert_eq|].
    split; [by apply inserted_row_loads|done].
  - intros k Hk. by apply lookup_insert_ne.
Qed.

(** C36: a rule goes all the way: registered in a store of any content, seen by
    the watcher before its expiry with its conditions true and its execution
    simulating, then taken by the executor with an accepted action type, room
    left and the fixture's reserve, it is dispatched exactly once with its own
    terms and ends completed; no other row changes. *)
Theorem rule_runs_to_completion i env fixture xcfg wcfg ctx rule p s :
  env_fault env = None → well_typed rule →
  sh_table s !! hex_encode (wr_rule_id rule) = None →
  wr_rule_id rule ∉ in_flight i s →
  force_tick_enabled wcfg = true → current_slot ctx < wr_expires_at_slot rule →
  env_evaluate env rule ctx = Ok true → env_simulate env rule ctx = Ok tt →
  allowed_action_type xcfg (action_type (wr_action rule)) = true →
  wr_used_amount_raw rule < wr_max_input_amount_raw rule →
  build_payload fixture (wr_action rule) = Ok p →
  (∀ req, request_of rule req → ∃ receipt, env_send env req = Ok receipt) →
  ∃ req, request_of rule req ∧
    let s' := (run i env (register_watch_execute fixture xcfg wcfg ctx rule) s).2 in
    holds (sh_table s') rule Completed ∧ sends (sh_log s') = req :: sends (sh_log s) ∧
    others_kept rule (sh_table s) (sh_table s').
Proof.
  intros Hf Hrule Hnone Hfree Hforce Hexp Hev Hsim Htype Hroom Hp Hsend.
  destruct (insert_holds i env rule s Hf Hrule Hnone) as (s1 & He & Hh & Hs1 & Ho1 & Hf1).
  pose proof (force_tick_rule_leads i env Hf wcfg rule ctx s1 Hforce Hh) as Htick.
  unfold watched in Htick. rewrite bool_decide_eq_false_2 in Htick by (by intros []).
  rewrite Hf1, (bool_decide_eq_false_2 _ Hfree), Hev, Hsim in Htick.
  rewrite (proj2 (Z.leb_gt _ _)) in Htick by done.
  unfold register_watch_execute. cbn [do ask mbind prog_mbind prog_bind run].
  rewrite He. change (prog_bind ?f ?q) with (q ≫= f). rewrite run_bind. unfold leads in Htick.
  destruct (run i env (force_tick_rule _ _ _) s1) as [r s2], Htick as [Hh2 Hs2 Ho2 Hf2].
  cbn [snd] in *.
  destruct (execute_rule_once_leads i env Hf fixture xcfg rule s2 p Htype Hroom Hp Hsend)
    as (req & Hreq & [Hh3 Hs3 Ho3 _]); [by rewrite Hf2, Hf1|done|].
  exists req. split; [done|]. split_and!; [done|by rewrite Hs3, Hs2, Hs1|].
  intros k Hk. by rewrite Ho3, Ho2, Ho1.
Qed.
End safety.

(** ** An example *)
Definition by_created (a b : RowRaw) : Prop := col_created_at_ms a ≤ col_created_at_ms b.
#[export] Instance by_created_dec : RelDecision by_created.
Proof. intros a b. unfold by_created. apply _. Defined.
#[export] Instance by_created_trans : Transitive by_created.
Proof. intros a b c. unfold by_created. lia. Qed.
#[export] Instance by_created_total : Total by_created.
Proof. intros a b. unfold by_created. lia. Qed.

Definition demo_sqlite : Sqlite := merge_sort by_created.
#[export] Instance demo_sqlite_laws : @SqliteLaws demo_sqlite.
Proof.
  split; intros rows; [apply merge_sort_Permutation|apply StronglySorted_merge_sort; apply _].
Qed.

(** A rule with the SOL price condition, a chain that meets it and a client that
    confirms what it is sent. *)
Definition demo_watch : WatchRule := demo_rule WatchRules.All [demo_price_condition demo_feed].
Definition demo_receipt (req : Stage2ExecuteActionRequest) : Stage2ExecutionReceipt :=
  MkReceipt (rq_rule_id req) (rq_execution_nonce req) 1001 (rq_input_amount_raw req) "sig".
Definition demo_env : Environment :=
  MkEnv 1700000031000 None (λ _ _, Ok true) (λ _ _, Ok tt) (λ req, Ok (demo_receipt req)).
Definition demo_fixture : DemoSolendExecutionFixture :=
  MkFixture (replicate 32 Byte.x02) (replicate 32 Byte.x03) (replicate 32 Byte.x06)
    (replicate 32 Byte.x07) (replicate 32 Byte.x08) (replicate 32 Byte.x09) None.
Definition demo_forced : Stage2WatcherConfig := MkWatcherConfig 500 5000 300000 120000 true.
Definition demo_shared : Shared := MkShared ∅ ∅ ∅ [].

#[local] Existing Instances demo_crates demo_sqlite.

Lemma demo_watch_typed : well_typed demo_watch.
Proof. apply (try_from_slice_Some (to_vec demo_watch)). by vm_compute. Qed.

Lemma rule_runs_to_completion_witness :
  ∃ req, request_of demo_watch req ∧
    let s' := (run 0 demo_env (register_watch_execute demo_fixture default_executor_config
                 demo_forced demo_ctx demo_watch) demo_shared).2 in
    holds (sh_table s') demo_watch Completed ∧ sends (sh_log s') = [req] ∧
    others_kept demo_watch ∅ (sh_table s').
Proof.
  eapply (rule_runs_to_completion 0 demo_env demo_fixture default_executor_config demo_forced
    demo_ctx demo_watch _ demo_shared);
    [done|apply demo_watch_typed|by vm_compute|apply not_elem_of_empty|done|done|done|done|done
    |done|by vm_compute|].
  intros req _. by eexists.
Defined.

(** The rule registered, then ticked, then executed; and registered, revoked,
    ticked and executed. *)
Definition then_run (p : Prog unit) (s : Shared) : Shared := (run 0 demo_env p s).2.
Definition demo_inserted : Shared :=
  then_run (discard (do (Store (CInsert demo_watch)))) demo_shared.
Definition demo_tick : Prog unit := discard (tick default_watcher_config demo_ctx).
Definition demo_execute : Prog unit :=
  discard (execute_ready_rules_once demo_fixture default_executor_config).
Definition demo_met : Shared := then_run demo_tick demo_inserted.
Definition demo_done : Shared := then_run demo_execute demo_met.
Definition demo_revoked : Shared :=
  then_run (discard (do (Store (CUpdate (URevoked (wr_rule_id demo_watch)))))) demo_inserted.
Definition demo_revoked_done : Shared := then_run demo_execute (then_run demo_tick demo_revoked).

Lemma then_run_reachable p ts s :
  reachable runs ∅ (MkPool ts s) → daemon_program p →
  ∃ ts', reachable runs ∅ (MkPool ts' (then_run p s)).
Proof. intros Hr Hp. by apply (reachable_program (allowed := runs) ts s 0 demo_env p). Qed.

Lemma demo_reachable : ∃ ts, reachable runs ∅ (MkPool ts demo_done).
Proof.
  destruct (then_run_reachable (discard (do (Store (CInsert demo_watch)))) ∅ demo_shared)
    as [ts1 H1]; [constructor|constructor; apply demo_watch_typed|].
  destruct (then_run_reachable _ _ _ H1 (run_tick default_watcher_config demo_ctx)) as [ts2 H2].
  by apply (then_run_reachable _ _ _ H2), run_execute_ready.
Qed.

Lemma demo_revoked_reachable : ∃ ts, reachable runs ∅ (MkPool ts demo_revoked_done).
Proof.
  destruct (then_run_reachable (discard (do (Store (CInsert demo_watch)))) ∅ demo_shared)
    as [ts1 H1]; [constructor|constructor; apply demo_watch_typed|].
  destruct (then_run_reachable _ _ _ H1
    (run_client (CUpdate (URevoked (wr_rule_id demo_watch))) I)) as [ts2 H2].
  destruct (then_run_reachable _ _ _ H2 (run_tick default_watcher_config demo_ctx)) as [ts3 H3].
  by apply (then_run_reachable _ _ _ H3), run_execute_ready.
Qed.

Lemma dispatched_at_most_once_witness : ∃ pl, reachable runs ∅ pl ∧
  sent_ids (sh_log (pl_shared pl)) = [wr_rule_id demo_watch] ∧
  NoDup (sent_ids (sh_log (pl_shared pl))).
Proof.
  destruct demo_reachable as [ts Hr]. exists (MkPool ts demo_done). split; [done|].
  split; [by vm_compute|]. by apply (dispatched_at_most_once (MkPool ts demo_done)).
Defined.

Lemma dispatch_justified_witness : ∃ req l,
  LSent req :: l `suffix_of` sh_log demo_done ∧ justified req l.
Proof.
  destruct demo_reachable as [ts Hr].
  destruct (sends (sh_log demo_done)) as [|req reqs] eqn:Hs; [by vm_compute in Hs|].
  assert (LSent req :: drop 2 (sh_log demo_done) `suffix_of` sh_log demo_done) as Hl.
  { exists (take 1 (sh_log demo_done)). vm_compute in Hs |- *. by injection Hs as <- _. }
  exists req, (drop 2 (sh_log demo_done)). split; [done|].
  by apply (dispatch_justified (MkPool ts demo_done) req).
Defined.

Lemma closed_rule_never_dispatched_witness :
  wr_rule_id demo_watch ∉ sent_ids (sh_log demo_revoked_done).
Proof.
  destruct demo_revoked_reachable as [ts Hr].
  apply (closed_rule_never_dispatched (MkPool ts demo_revoked_done) _ (sh_log demo_revoked));
    [done| | |].
  - exists []. by vm_compute.
  - exists (URevoked (wr_rule_id demo_watch)), 1. by split; [left|].
  - intros nonce n Hin. replace (sh_log demo_revoked) with
      [LUpdated (URevoked (wr_rule_id demo_watch)) 1; LInserted demo_watch] in Hin by (by vm_compute).
    apply elem_of_cons in Hin as [|[|[]%elem_of_nil]%elem_of_cons]; done.
Defined.

Lemma store_always_loads_witness :
  ∃ s, get (wr_rule_id demo_watch) (sh_table demo_done) = Ok (Some s) ∧
    st_rule s = demo_watch ∧ st_canonical_rule_hash s = canonical_rule_hash demo_watch.
Proof.
  destruct demo_reachable as [ts Hr].
  destruct (store_always_loads (MkPool ts demo_done) Hr) as [_ Hget]. apply Hget.
  replace (sh_log (pl_shared (MkPool ts demo_done))) with
    (take 7 (sh_log demo_done) ++ [LInserted demo_watch])%list by (by vm_compute).
  apply elem_of_app. right. left.
Defined.

(** The handlers, on the registered rule and on the rule marked met. *)
Lemma holds_by_reading t rule st :
  match get (wr_rule_id rule) t with
  | Ok (Some s) => Some (st_rule s, st_status s)
  | _ => None
  end = Some (rule, st) → holds t rule st.
Proof.
  unfold get. destruct (t !! _) as [row|] eqn:Hrow; [|done].
  destruct (row_to_stored row) as [s|] eqn:Hs; [|done]. cbn. intros [= Hr Hst].
  by exists row, s.
Qed.
Lemma demo_inserted_holds : holds (sh_table demo_inserted) demo_watch Active.
Proof. apply holds_by_reading. by vm_compute. Qed.
Lemma demo_met_holds : holds (sh_table demo_met) demo_watch ConditionMet.
Proof. apply holds_by_reading. by vm_compute. Qed.

Definition demo_stored (st : WatchRuleStatus) : StoredWatchRule :=
  MkStored demo_watch (canonical_rule_hash demo_watch) (canonical_rule_bytes demo_watch) st
    TypeSolendWithdrawAllDelegated WatchRules.All None None None 0 false false 0 0.

Lemma watch_rule_advances_witness :
  moves 0 demo_watch ConditionMet [] demo_inserted
    (run 0 demo_env (RuleWatcher.process_rule (demo_stored Active) demo_ctx (started 0))
       demo_inserted).2.
Proof.
  pose proof (watch_rule_advances 0 demo_env (demo_stored Active) demo_ctx (started 0)
    demo_inserted eq_refl demo_inserted_holds) as Hm.
  by replace (watched _ _ _ _ _ _) with ConditionMet in Hm by (by vm_compute).
Defined.

Lemma execute_rule_settles_witness :
  let out := executed demo_env demo_fixture default_executor_config false
    (demo_stored ConditionMet) ConditionMet in
  out.1 = Completed ∧ length out.2 = 1%nat ∧
  moves 0 demo_watch out.1 out.2 demo_met
    (run 0 demo_env (RuleExecutor.process_rule demo_fixture default_executor_config
       (demo_stored ConditionMet)) demo_met).2.
Proof.
  split; [by vm_compute|]. split; [by vm_compute|].
  pose proof (execute_rule_settles 0 demo_env demo_fixture default_executor_config
    (demo_stored ConditionMet) ConditionMet demo_met eq_refl demo_met_holds) as Hm.
  by replace (bool_decide _) with false in Hm by (by vm_compute).
Defined.
