(* ===== verification/FundingStore.v ===== *)
(** * The funding store ([stage2_w5h_funding.rs])

    One row per conditional deposit order: the user funds it, then either the
    executor spends the budget or, after the expiry, it is refunded.  Every
    transition is a guarded UPDATE. *)
From S2P Require Import Prelude Borsh WatcherBase RuleStore.
From Stdlib Require Import Sorting.Sorted.
#[local] Open Scope string_scope.
#[local] Open Scope Z_scope.

(** ** Statuses *)
Inductive W5hIntentStatus :=
| FundingRequired | FundingSubmitted | FundingInvalid | BudgetReserved | IntentExecuting
| IntentCompleted | IntentExpired | Refunding | Refunded | IntentFailed.
#[export] Instance intent_status_eq_dec : EqDecision W5hIntentStatus.
Proof. solve_decision. Defined.

Definition intent_as_str (s : W5hIntentStatus) : string :=
  match s with
  | FundingRequired => "funding_required"
  | FundingSubmitted => "funding_submitted"
  | FundingInvalid => "funding_invalid"
  | BudgetReserved => "budget_reserved"
  | IntentExecuting => "executing"
  | IntentCompleted => "completed"
  | IntentExpired => "expired"
  | Refunding => "refunding"
  | Refunded => "refunded"
  | IntentFailed => "failed"
  end.

Definition parse_intent_status (s : string) : option W5hIntentStatus :=
  if bool_decide (s = "funding_required") then Some FundingRequired
  else if bool_decide (s = "funding_submitted") then Some FundingSubmitted
  else if bool_decide (s = "funding_invalid") then Some FundingInvalid
  else if bool_decide (s = "budget_reserved") then Some BudgetReserved
  else if bool_decide (s = "executing") then Some IntentExecuting
  else if bool_decide (s = "completed") then Some IntentCompleted
  else if bool_decide (s = "expired") then Some IntentExpired
  else if bool_decide (s = "refunding") then Some Refunding
  else if bool_decide (s = "refunded") then Some Refunded
  else if bool_decide (s = "failed") then Some IntentFailed
  else None.

Definition is_terminal_intent (s : W5hIntentStatus) : bool :=
  match s with
  | FundingInvalid | IntentCompleted | Refunded | IntentFailed => true
  | _ => false
  end.

(** ** Intents and rows *)

(** What is fixed at insertion: [NewW5hFundingIntent]. *)
Record NewW5hFundingIntent := MkNewIntent {
  ni_intent_id : string;
  ni_rule_id_hex : string;
  ni_canonical_rule_hash_hex : string;
  ni_user_wallet : string;
  ni_user_usdc_ata : string;
  ni_controlled_wallet : string;
  ni_controlled_usdc_ata : string;
  ni_amount_raw : Z;
  ni_threshold_bps : Z;
  ni_save_display_apy_bps_at_creation : Z;
  ni_native_onchain_apr_bps_at_creation : Z;
  ni_created_at_ms : Z;
  ni_expires_at_ms : Z
}.

(** [W5hFundingIntent]: those fields and the lifecycle. *)
Record W5hFundingIntent := MkIntent {
  fi_terms : NewW5hFundingIntent;
  fi_status : W5hIntentStatus;
  fi_funding_signature : option string;
  fi_funding_finalized_slot : option Z;
  fi_execution_signature : option string;
  fi_refund_signature : option string;
  fi_last_error : option string;
  fi_updated_at_ms : Z
}.

(** [RowRaw]: every number is an SQLite integer, an [i64]. *)
Record IntentRow := MkIntentRow {
  ir_intent_id : string;
  ir_rule_id_hex : string;
  ir_canonical_rule_hash_hex : string;
  ir_user_wallet : string;
  ir_user_usdc_ata : string;
  ir_controlled_wallet : string;
  ir_controlled_usdc_ata : string;
  ir_amount_raw : Z;
  ir_threshold_bps : Z;
  ir_save_display_apy_bps_at_creation : Z;
  ir_native_onchain_apr_bps_at_creation : Z;
  ir_created_at_ms : Z;
  ir_expires_at_ms : Z;
  ir_status : string;
  ir_funding_signature : option string;
  ir_funding_finalized_slot : option Z;
  ir_execution_signature : option string;
  ir_refund_signature : option string;
  ir_last_error : option string;
  ir_updated_at_ms : Z
}.

Definition set_intent (r : IntentRow) (status : string) (fund : option string)
    (slot : option Z) (exec refund error : option string) (now : Z) : IntentRow :=
  MkIntentRow (ir_intent_id r) (ir_rule_id_hex r) (ir_canonical_rule_hash_hex r)
    (ir_user_wallet r) (ir_user_usdc_ata r) (ir_controlled_wallet r)
    (ir_controlled_usdc_ata r) (ir_amount_raw r) (ir_threshold_bps r)
    (ir_save_display_apy_bps_at_creation r) (ir_native_onchain_apr_bps_at_creation r)
    (ir_created_at_ms r) (ir_expires_at_ms r) status fund slot exec refund error now.

(** [{:?}] of a string in ASCII *)
Definition escape_ascii (c : Ascii.ascii) : string :=
  let n := Z.of_N (Ascii.N_of_ascii c) in
  if n =? 0 then "\0"
  else if n =? 9 then "\t"
  else if n =? 10 then "\n"
  else if n =? 13 then "\r"
  else if n =? 34 then "\" +:+ String.String c ""
  else if n =? 92 then "\\"
  else if (n <? 32) || (n =? 127) then
    "\u{" +:+ (if n <? 16 then String.String (hex_digit n) ""
               else fmt_02x (byte_of n)) +:+ "}"
  else String.String c "".
Fixpoint escape_all (s : string) : string :=
  match s with
  | String.EmptyString => ""
  | String.String c s => escape_ascii c +:+ escape_all s
  end.
Definition quote : string := String.String (Ascii.ascii_of_nat 34) "".
Definition debug_str (s : string) : string := quote +:+ escape_all s +:+ quote.

(** [i64 as u32] *)
Definition as_u32 (z : Z) : Z := wrap 32 z.

Definition row_to_intent (r : IntentRow) : SRes W5hFundingIntent :=
  status ← ok_or (parse_intent_status (ir_status r))
    (IntegrityCheckFailed ("stage2_w5h_funding_intents: unknown status " +:+
       debug_str (ir_status r) +:+ " for intent_id " +:+ ir_intent_id r));
  amount_raw ← ok_or (checked_u 64 (ir_amount_raw r))
    (IntegrityCheckFailed ("stage2_w5h_funding_intents: amount_raw out of u64 range: " +:+
       fmt (ir_amount_raw r)));
  Ok (MkIntent
    (MkNewIntent (ir_intent_id r) (ir_rule_id_hex r) (ir_canonical_rule_hash_hex r)
       (ir_user_wallet r) (ir_user_usdc_ata r) (ir_controlled_wallet r)
       (ir_controlled_usdc_ata r) amount_raw (as_u32 (ir_threshold_bps r))
       (as_u32 (ir_save_display_apy_bps_at_creation r))
       (as_u32 (ir_native_onchain_apr_bps_at_creation r)) (ir_created_at_ms r)
       (ir_expires_at_ms r))
    status (ir_funding_signature r) (as_u64 <$> ir_funding_finalized_slot r)
    (ir_execution_signature r) (ir_refund_signature r) (ir_last_error r)
    (ir_updated_at_ms r)).

(** ** The table *)
Notation IntentTable := (gmap string IntentRow).

(** [ORDER BY created_at_ms ASC] *)
Class IntentOrder := intents_by_created : list IntentRow → list IntentRow.
Class IntentOrderLaws `{IntentOrder} : Prop := {
  intents_perm rows : intents_by_created rows ≡ₚ rows;
  intents_sorted rows :
    StronglySorted (λ a b, ir_created_at_ms a ≤ ir_created_at_ms b) (intents_by_created rows)
}.

Definition has_status (ss : list W5hIntentStatus) (r : IntentRow) : bool :=
  existsb (λ s, bool_decide (ir_status r = intent_as_str s)) ss.

(** [rows.into_iter().map(row_to_intent).collect()] *)
Fixpoint collect_intents (rows : list IntentRow) : SRes (list W5hFundingIntent) :=
  match rows with
  | [] => Ok []
  | r :: rows => i ← row_to_intent r; l ← collect_intents rows; Ok (i :: l)
  end.

Section reads.
Context `{IntentOrder}.

Definition select_intents (p : IntentRow → bool) (t : IntentTable) : list IntentRow :=
  intents_by_created (List.filter p (map snd (map_to_list t))).

Definition get_intent (intent_id : string) (t : IntentTable) : SRes (option W5hFundingIntent) :=
  match t !! intent_id with
  | None => Ok None
  | Some row => i ← row_to_intent row; Ok (Some i)
  end.

Definition list_eligible_for_refund (now_ms limit : Z) (t : IntentTable) :
    SRes (list W5hFundingIntent) :=
  if limit =? 0 then Ok [] else
  collect_intents (take (Z.to_nat limit) (select_intents
    (λ r, (ir_expires_at_ms r <=? now_ms) && has_status [BudgetReserved; IntentExpired] r) t)).

Definition list_budget_reserved (limit : Z) (t : IntentTable) : SRes (list W5hFundingIntent) :=
  if limit =? 0 then Ok [] else
  collect_intents (take (Z.to_nat limit) (select_intents (has_status [BudgetReserved]) t)).
End reads.

(** ** Statements *)
Definition new_intent_row (i : NewW5hFundingIntent) (now : Z) : IntentRow :=
  MkIntentRow (ni_intent_id i) (ni_rule_id_hex i) (ni_canonical_rule_hash_hex i)
    (ni_user_wallet i) (ni_user_usdc_ata i) (ni_controlled_wallet i)
    (ni_controlled_usdc_ata i) (as_i64 (ni_amount_raw i)) (ni_threshold_bps i)
    (ni_save_display_apy_bps_at_creation i) (ni_native_onchain_apr_bps_at_creation i)
    (ni_created_at_ms i) (ni_expires_at_ms i) (intent_as_str FundingRequired) None None None
    None None now.

Definition insert_intent (i : NewW5hFundingIntent) (now : Z) (t : IntentTable) :
    SRes unit * IntentTable :=
  match t !! ni_intent_id i with
  | Some _ =>
      (Err (Sqlx "UNIQUE constraint failed: stage2_w5h_funding_intents.intent_id"), t)
  | None => (Ok tt, <[ni_intent_id i := new_intent_row i now]> t)
  end.

(** [UPDATE .. SET f WHERE intent_id = id AND p] *)
Definition update_intent (id : string) (p : IntentRow → bool) (f : IntentRow → IntentRow)
    (t : IntentTable) : Z * IntentTable :=
  match t !! id with
  | Some r => if p r then (1, <[id := f r]> t) else (0, t)
  | None => (0, t)
  end.

(** [SET status = s, updated_at_ms = now] and the same with [last_error]. *)
Definition to_status (s : W5hIntentStatus) (now : Z) (r : IntentRow) : IntentRow :=
  set_intent r (intent_as_str s) (ir_funding_signature r) (ir_funding_finalized_slot r)
    (ir_execution_signature r) (ir_refund_signature r) (ir_last_error r) now.
Definition to_status_error (s : W5hIntentStatus) (error : string) (now : Z) (r : IntentRow) :
    IntentRow :=
  set_intent r (intent_as_str s) (ir_funding_signature r) (ir_funding_finalized_slot r)
    (ir_execution_signature r) (ir_refund_signature r) (Some error) now.

(** [funding_signature = ?]: not true of NULL. *)
Definition funded_by (signature : string) (r : IntentRow) : bool :=
  bool_decide (ir_funding_signature r = Some signature).

Definition mark_funding_submitted_if_required (id signature : string) (now : Z) :
    IntentTable → Z * IntentTable :=
  update_intent id
    (λ r, has_status [FundingRequired] r ||
       has_status [FundingSubmitted] r &&
       (bool_decide (ir_funding_signature r = None) || funded_by signature r))
    (λ r, set_intent r (intent_as_str FundingSubmitted) (Some signature)
       (ir_funding_finalized_slot r) (ir_execution_signature r) (ir_refund_signature r)
       (ir_last_error r) now).

Definition mark_budget_reserved_if_submitted (id expected_signature : string)
    (finalized_slot now : Z) : IntentTable → Z * IntentTable :=
  update_intent id
    (λ r, has_status [FundingSubmitted] r && funded_by expected_signature r)
    (λ r, set_intent r (intent_as_str BudgetReserved) (ir_funding_signature r)
       (Some (as_i64 finalized_slot)) (ir_execution_signature r) (ir_refund_signature r)
       (ir_last_error r) now).

Definition mark_funding_invalid_if_submitted (id expected_signature reason : string) (now : Z) :
    IntentTable → Z * IntentTable :=
  update_intent id
    (λ r, has_status [FundingSubmitted] r && funded_by expected_signature r)
    (to_status_error FundingInvalid reason now).

Definition lease_execution_if_budget_reserved (id : string) (now_ms : Z) :
    IntentTable → Z * IntentTable :=
  update_intent id
    (λ r, has_status [BudgetReserved] r && (now_ms <? ir_expires_at_ms r))
    (to_status IntentExecuting now_ms).

Definition mark_completed_if_executing (id execution_signature : string) (now : Z) :
    IntentTable → Z * IntentTable :=
  update_intent id (has_status [IntentExecuting])
    (λ r, set_intent r (intent_as_str IntentCompleted) (ir_funding_signature r)
       (ir_funding_finalized_slot r) (Some execution_signature) (ir_refund_signature r)
       (ir_last_error r) now).

Definition release_execution_lease_to_budget_reserved (id reason : string) (now : Z) :
    IntentTable → Z * IntentTable :=
  update_intent id (has_status [IntentExecuting]) (to_status_error BudgetReserved reason now).

Definition mark_expired_if_past (id : string) (now_ms : Z) : IntentTable → Z * IntentTable :=
  update_intent id
    (λ r, has_status [BudgetReserved] r && (ir_expires_at_ms r <=? now_ms))
    (to_status IntentExpired now_ms).

Definition lease_refund_if_expired_or_past (id : string) (now_ms : Z) :
    IntentTable → Z * IntentTable :=
  update_intent id
    (λ r, has_status [BudgetReserved; IntentExpired] r && (ir_expires_at_ms r <=? now_ms))
    (to_status Refunding now_ms).

Definition mark_refunded_if_refunding (id refund_signature : string) (now : Z) :
    IntentTable → Z * IntentTable :=
  update_intent id (has_status [Refunding])
    (λ r, set_intent r (intent_as_str Refunded) (ir_funding_signature r)
       (ir_funding_finalized_slot r) (ir_execution_signature r) (Some refund_signature)
       (ir_last_error r) now).

Definition mark_intent_failed (id reason : string) (now : Z) : IntentTable → Z * IntentTable :=
  update_intent id
    (λ r, negb (has_status [IntentCompleted; Refunded; IntentFailed; FundingInvalid] r))
    (to_status_error IntentFailed reason now).
