(* ===== verification/FundingSafety.v ===== *)
(** * Funding intents under any use of the store

    The repository's calls come from the chat bridge, the funding verifier, the
    executor and the refund route, in any order and any number.  A history is
    the list of calls with the rows each changed, newest first. *)
From S2P Require Import Prelude Borsh WatcherBase RuleStore FundingStore.
#[local] Open Scope string_scope.
#[local] Open Scope Z_scope.

(** ** Calls *)
Inductive FundingCall :=
| FInsert (i : NewW5hFundingIntent)
| FSubmitted (id signature : string)
| FReserved (id signature : string) (slot : Z)
| FInvalid (id signature reason : string)
| FLeaseExecution (id : string) (now_ms : Z)
| FCompleted (id signature : string)
| FRelease (id reason : string)
| FExpired (id : string) (now_ms : Z)
| FLeaseRefund (id : string) (now_ms : Z)
| FRefunded (id signature : string)
| FFailed (id reason : string).

Definition funding_key (c : FundingCall) : string :=
  match c with
  | FInsert i => ni_intent_id i
  | FSubmitted id _ | FReserved id _ _ | FInvalid id _ _ | FLeaseExecution id _
  | FCompleted id _ | FRelease id _ | FExpired id _ | FLeaseRefund id _
  | FRefunded id _ | FFailed id _ => id
  end.

(** The rows a call changes at wall-clock time [now], and the table it leaves. *)
Definition apply_funding (c : FundingCall) (now : Z) (t : IntentTable) : Z * IntentTable :=
  match c with
  | FInsert i =>
      let '(r, t) := insert_intent i now t in (match r with Ok _ => 1 | Err _ => 0 end, t)
  | FSubmitted id sig => mark_funding_submitted_if_required id sig now t
  | FReserved id sig slot => mark_budget_reserved_if_submitted id sig slot now t
  | FInvalid id sig reason => mark_funding_invalid_if_submitted id sig reason now t
  | FLeaseExecution id now_ms => lease_execution_if_budget_reserved id now_ms t
  | FCompleted id sig => mark_completed_if_executing id sig now t
  | FRelease id reason => release_execution_lease_to_budget_reserved id reason now t
  | FExpired id now_ms => mark_expired_if_past id now_ms t
  | FLeaseRefund id now_ms => lease_refund_if_expired_or_past id now_ms t
  | FRefunded id sig => mark_refunded_if_refunding id sig now t
  | FFailed id reason => mark_intent_failed id reason now t
  end.

Notation FundingLog := (list (FundingCall * Z)).

Inductive funding_history : IntentTable → FundingLog → Prop :=
| funding_start : funding_history ∅ []
| funding_call t h c now n t' :
    funding_history t h → apply_funding c now t = (n, t') →
    funding_history t' ((c, n) :: h).

(** The call changed its row. *)
Definition done (c : FundingCall) (h : FundingLog) : Prop := (c, 1) ∈ h.

(** ** What the history tells of a row *)

(** The fixed columns are those of the intent. *)
Definition terms_of (i : NewW5hFundingIntent) (r : IntentRow) : Prop :=
  set_intent (new_intent_row i 0) (ir_status r) (ir_funding_signature r)
    (ir_funding_finalized_slot r) (ir_execution_signature r) (ir_refund_signature r)
    (ir_last_error r) (ir_updated_at_ms r) = r.

(** The budget was submitted and verified under one signature. *)
Definition reserved (h : FundingLog) (k : string) (r : IntentRow) : Prop :=
  ∃ sig slot, ir_funding_signature r = Some sig ∧ done (FSubmitted k sig) h ∧
    done (FReserved k sig slot) h ∧ ir_funding_finalized_slot r = Some (as_i64 slot).

Record story (h : FundingLog) (k : string) (r : IntentRow) (st : W5hIntentStatus) : Prop := {
  so_status : ir_status r = intent_as_str st;
  so_insert : ∃ i, done (FInsert i) h ∧ ni_intent_id i = k ∧ terms_of i r;
  so_funded : match st with
    | FundingRequired | IntentFailed => True
    | FundingSubmitted | FundingInvalid =>
        ∃ sig, ir_funding_signature r = Some sig ∧ done (FSubmitted k sig) h
    | _ => reserved h k r
    end;
  so_running : match st with
    | IntentExecuting | IntentCompleted => ∃ now, done (FLeaseExecution k now) h
    | Refunding | Refunded => ∃ now, done (FLeaseRefund k now) h
    | _ => True
    end;
  so_completed sig : done (FCompleted k sig) h → st = IntentCompleted;
  so_refunded sig : done (FRefunded k sig) h → st = Refunded;
  so_refunding now : done (FLeaseRefund k now) h →
    st = Refunding ∨ st = Refunded ∨ st = IntentFailed
}.

Lemma intent_as_str_inj s1 s2 : intent_as_str s1 = intent_as_str s2 → s1 = s2.
Proof. by destruct s1, s2. Qed.
Lemma parse_intent_as_str s : parse_intent_status (intent_as_str s) = Some s.
Proof. by destruct s. Qed.

Lemma has_status_spec r st ss : ir_status r = intent_as_str st →
  has_status ss r = existsb (λ s, bool_decide (st = s)) ss.
Proof.
  intros Hst. unfold has_status. rewrite Hst. induction ss as [|s ss IH]; [done|]. simpl.
  rewrite IH. f_equal. apply bool_decide_ext. split; [apply intent_as_str_inj|by intros ->].
Qed.

(** *** Calls as guard and effect *)
Definition guard (c : FundingCall) (r : IntentRow) : bool :=
  match c with
  | FInsert _ => false
  | FSubmitted _ sig => has_status [FundingRequired] r ||
      has_status [FundingSubmitted] r &&
      (bool_decide (ir_funding_signature r = None) || funded_by sig r)
  | FReserved _ sig _ | FInvalid _ sig _ => has_status [FundingSubmitted] r && funded_by sig r
  | FLeaseExecution _ now => has_status [BudgetReserved] r && (now <? ir_expires_at_ms r)
  | FCompleted _ _ | FRelease _ _ => has_status [IntentExecuting] r
  | FExpired _ now => has_status [BudgetReserved] r && (ir_expires_at_ms r <=? now)
  | FLeaseRefund _ now =>
      has_status [BudgetReserved; IntentExpired] r && (ir_expires_at_ms r <=? now)
  | FRefunded _ _ => has_status [Refunding] r
  | FFailed _ _ =>
      negb (has_status [IntentCompleted; Refunded; IntentFailed; FundingInvalid] r)
  end.

(** The status, funding signature and finalised slot an update leaves; the other
    fixed columns stay. *)
Definition leaves (c : FundingCall) (r r' : IntentRow) : Prop :=
  (∀ i, terms_of i r → terms_of i r') ∧
  ir_status r' = intent_as_str match c with
    | FInsert _ => FundingRequired
    | FSubmitted _ _ => FundingSubmitted
    | FReserved _ _ _ | FRelease _ _ => BudgetReserved
    | FInvalid _ _ _ => FundingInvalid
    | FLeaseExecution _ _ => IntentExecuting
    | FCompleted _ _ => IntentCompleted
    | FExpired _ _ => IntentExpired
    | FLeaseRefund _ _ => Refunding
    | FRefunded _ _ => Refunded
    | FFailed _ _ => IntentFailed
    end ∧
  ir_funding_signature r' =
    match c with FSubmitted _ sig => Some sig | _ => ir_funding_signature r end ∧
  ir_funding_finalized_slot r' =
    match c with FReserved _ _ slot => Some (as_i64 slot) | _ => ir_funding_finalized_slot r end.

Lemma terms_of_set i r s f sl e rf le u :
  terms_of i r → terms_of i (set_intent r s f sl e rf le u).
Proof. unfold terms_of. intros <-. done. Qed.

Lemma apply_funding_cases c now t n t' : apply_funding c now t = (n, t') →
  n = 0 ∧ t' = t ∨
  n = 1 ∧
    ((∃ i, c = FInsert i ∧ t !! ni_intent_id i = None ∧
        t' = <[ni_intent_id i := new_intent_row i now]> t) ∨
     ∃ r r', t !! funding_key c = Some r ∧ guard c r = true ∧ leaves c r r' ∧
       t' = <[funding_key c := r']> t).
Proof.
  intros Ha. destruct (match c with FInsert i => Some i | _ => None end) as [i|] eqn:Hc.
  - destruct c; try done. injection Hc as ->. cbn [apply_funding] in Ha.
    unfold insert_intent in Ha. destruct (t !! ni_intent_id i) eqn:Hrow.
    + left. by injection Ha as <- <-.
    + right. injection Ha as <- <-. split; [done|]. left. by exists i.
  - assert (∃ f, apply_funding c now t = update_intent (funding_key c) (guard c) f t ∧
      ∀ r, leaves c r (f r)) as (f & Hf & Hl).
    { destruct c; try done; eexists; (split; [reflexivity|]); intros r;
        (split; [intros i; apply terms_of_set|done]). }
    rewrite Hf in Ha. unfold update_intent in Ha.
    destruct (t !! funding_key c) as [r|] eqn:Hrow; [|left; by injection Ha as <- <-].
    destruct (guard c r) eqn:Hg; [|left; by injection Ha as <- <-].
    right. injection Ha as <- <-. split; [done|]. right. by exists r, (f r).
Qed.

(** *** Preservation *)
Lemma done_cons c c' n h : done c ((c', n) :: h) ↔ (c = c' ∧ n = 1) ∨ done c h.
Proof. unfold done. rewrite elem_of_cons. naive_solver. Qed.

Lemma done_later c x h : done c h → done c (x :: h).
Proof. by right. Qed.
#[local] Hint Resolve done_later : core.

Lemma reserved_later h k r x : reserved h k r → reserved (x :: h) k r.
Proof. intros (sig & slot & ? & ? & ? & ?). exists sig, slot. split_and!; eauto. Qed.
#[local] Hint Resolve reserved_later : core.

(** A call that changed nothing, or another row. *)
Lemma story_other h k r st c n :
  n = 0 ∨ funding_key c ≠ k → story h k r st → story ((c, n) :: h) k r st.
Proof.
  intros Hc [Hst (i & Hi & Hid & Ht) Hf Hr Hco Hre Hl].
  assert (∀ c', funding_key c' = k → done c' ((c, n) :: h) → done c' h) as Hold.
  { intros c' Hk [[-> ->]|]%done_cons; [|done]. by destruct Hc. }
  constructor; [done|exists i; split_and!; eauto| | |intros ? ?%Hold; eauto..].
  - destruct st; naive_solver eauto.
  - destruct st; naive_solver eauto.
Qed.

(** A call that changed the row. *)
Lemma story_step h k r r' st c :
  story h k r st → funding_key c = k → guard c r = true → leaves c r r' →
  ∃ st', story ((c, 1) :: h) k r' st'.
Proof.
  intros [Hst (i & Hi & Hid & Ht) Hf Hr Hco Hre Hl] Hk Hg (Hterms & Hst' & Hsig & Hslot).
  assert (∀ c', done c' ((c, 1) :: h) → c' = c ∨ done c' h) as Hold
    by (intros c' [[-> _]|]%done_cons; auto).
  assert (done c ((c, 1) :: h)) as Hnew by (apply done_cons; by left).
  eexists. constructor; [exact Hst'|exists i; split_and!; eauto|..]; clear i Hi Hid Ht Hterms;
    destruct c; cbn [guard funding_key] in Hg, Hk; subst k; try done;
    rewrite ?(has_status_spec _ _ _ Hst) in Hg;
    destruct st; cbn in Hg; rewrite ?andb_false_r in Hg; try done; cbn in *; b2p.
  all: try (intros ? [|Hd]%Hold; [congruence|];
    first [apply Hco in Hd | apply Hre in Hd | destruct (Hl _ Hd) as [|[|]]]; by auto).
  all: try (by eexists; eauto).
  all: try (destruct Hr as [? ?]; by eexists; eauto).
  all: try (destruct Hf as (sig & ? & ?); exists sig; split; [congruence|by auto]).
  all: try (destruct Hf as (sig & slot' & ? & ? & ? & ?); exists sig, slot';
    split_and!; [congruence|by auto|by auto|congruence]).
  2,3: by left.
  destruct Hg as [_ Hg], Hf as (sig & Hs & Hd). unfold funded_by in Hg. b2p.
  exists signature, slot. split_and!; [congruence| |done|done].
  replace signature with sig by congruence. by auto.
Qed.

(** The table of a history: every row has its story, every changed key a row. *)
Lemma funding_history_sound t h : funding_history t h →
  (∀ k r, t !! k = Some r → ∃ st, story h k r st) ∧
  ∀ c, done c h → is_Some (t !! funding_key c).
Proof.
  induction 1 as [|t h c now n t' _ [IHrow IHkey] Ha]; [split; [done|]|].
  { by intros c ?%elem_of_nil. }
  apply apply_funding_cases in Ha as [[-> ->]|[-> Ha]].
  - split.
    + intros k r Hr. destruct (IHrow k r Hr) as [st Hst]. exists st.
      apply story_other; [by left|done].
    + intros c' [[_ ?]|Hd]%done_cons; [done|]. by apply IHkey.
  - destruct Ha as [(i & -> & Hnone & ->)|(r0 & r0' & Hr0 & Hg & Hl & ->)]; split.
    + intros k r [[<- <-]|[Hne Hr]]%lookup_insert_Some.
      * assert (∀ c, funding_key c = ni_intent_id i → ¬ done c h) as Hno.
        { intros c Hk Hd. apply IHkey in Hd. rewrite Hk, Hnone in Hd. by destruct Hd. }
        exists FundingRequired.
        constructor; try done; [by exists i; split_and!; [apply done_cons; by left|..]|..];
          intros ? [[? _]|Hd]%done_cons; try done; by apply Hno in Hd.
      * destruct (IHrow k r Hr) as [st Hst]. exists st. by apply story_other; [right|].
    + intros c' Hd. destruct (decide (funding_key c' = ni_intent_id i)) as [->|Hne].
      { rewrite lookup_insert_eq. by eexists. }
      rewrite lookup_insert_ne by done. apply done_cons in Hd as [[-> _]|Hd]; [done|].
      by apply IHkey.
    + intros k r [[<- <-]|[Hne Hr]]%lookup_insert_Some.
      * destruct (IHrow _ _ Hr0) as [st Hst]. by eapply story_step.
      * destruct (IHrow k r Hr) as [st Hst]. exists st. by apply story_other; [right|].
    + intros c' Hd. destruct (decide (funding_key c' = funding_key c)) as [->|Hne].
      { rewrite lookup_insert_eq. by eexists. }
      rewrite lookup_insert_ne by done. apply done_cons in Hd as [[-> _]|Hd]; [done|].
      by apply IHkey.
Qed.

Lemma funding_history_app t h2 h1 : funding_history t (h2 ++ h1)%list →
  ∃ t1, funding_history t1 h1.
Proof.
  revert t. induction h2 as [|x h2 IH]; intros t Hh; [by exists t|].
  inversion Hh; subst. by eapply IH.
Qed.

(** What a call that changed an existing row found. *)
Lemma funding_last t c h : funding_history t ((c, 1) :: h) →
  match c with FInsert _ => True | _ =>
    ∃ t1 r st, funding_history t1 h ∧ t1 !! funding_key c = Some r ∧ guard c r = true ∧
      story h (funding_key c) r st
  end.
Proof.
  inversion 1 as [|t1 ? ? now ? ? Hh Ha]; subst.
  apply apply_funding_cases in Ha as [[? _]|[_ Ha]]; [done|].
  destruct Ha as [(i & -> & _)|(r & r' & Hr & Hg & _)]; [done|].
  destruct (proj1 (funding_history_sound _ _ Hh) _ _ Hr) as [st Hst].
  destruct c; try done; by exists t1, r, st.
Qed.

(** ** Properties *)

(** Calls that end an intent by spending or by returning its budget. *)
Definition settles (k : string) (x : FundingCall * Z) : bool :=
  match x with
  | (FCompleted id _, 1) | (FRefunded id _, 1) => bool_decide (id = k)
  | _ => false
  end.

(** Calls that work towards spending it. *)
Definition spends (k : string) (x : FundingCall * Z) : bool :=
  match x with
  | (FLeaseExecution id _, 1) | (FCompleted id _, 1) | (FRelease id _, 1) => bool_decide (id = k)
  | _ => false
  end.

Lemma filter_none {A} (p : A → bool) l : (∀ x, x ∈ l → p x = false) → List.filter p l = [].
Proof.
  induction l as [|x l IH]; intros Hp; [done|]. simpl. rewrite Hp by left.
  apply IH. intros y Hy. apply Hp. by right.
Qed.

Lemma settles_done k x h : x ∈ h → settles k x = true →
  ∃ sig, done (FCompleted k sig) h ∨ done (FRefunded k sig) h.
Proof.
  destruct x as [c n]. intros Hx Hs. destruct c; try done; cbn in Hs;
    destruct n as [|[]|]; try done; b2p; subst; eexists; unfold done; eauto.
Qed.

(** A settled intent is settled for good: its row refuses both ways out. *)
Lemma settled_story h k r st x :
  story h k r st → x ∈ h → settles k x = true → st = IntentCompleted ∨ st = Refunded.
Proof.
  intros Hst Hx Hs. destruct (settles_done k x h Hx Hs) as (sig & [Hd|Hd]).
  - left. by eapply so_completed.
  - right. by eapply so_refunded.
Qed.

Lemma settled_at_most_once t h k :
  funding_history t h → (length (List.filter (settles k) h) ≤ 1)%nat.
Proof.
  intros Hh. induction Hh as [|t h c now n t' Hh IH Ha]; [simpl; lia|]. cbn [List.filter].
  destruct (settles k (c, n)) eqn:Hs; [|done]. rewrite filter_none; [simpl; lia|].
  intros x Hx. apply not_true_is_false. intros Hsx.
  assert (n = 1) as -> by (destruct c; try done; cbn in Hs; by destruct n as [|[]|]).
  assert (funding_history t' ((c, 1) :: h)) as Hh' by by econstructor.
  apply funding_last in Hh'.
  destruct c; try done; cbn in Hs; b2p; subst;
    destruct Hh' as (t1 & r & st & _ & _ & Hg & Hst);
    destruct (settled_story _ _ _ _ x Hst Hx Hsx) as [-> | ->];
    cbn [guard] in Hg; by rewrite (has_status_spec _ _ _ (so_status _ _ _ _ Hst)) in Hg.
Qed.

(** C28: the budget of an intent is spent or returned, never both and never
    twice: over any history of calls at most one completion or refund of an
    intent takes effect, and once a refund lease was granted no execution lease,
    completion or release takes effect any more. *)
Theorem budget_settled_once t h k :
  funding_history t h →
  (length (List.filter (settles k) h) ≤ 1)%nat ∧
  ∀ h2 h1 now, h = (h2 ++ (FLeaseRefund k now, 1) :: h1)%list → List.filter (spends k) h2 = [].
Proof.
  intros Hh. split; [by eapply settled_at_most_once|]. intros h2 h1 now ->.
  revert t Hh. induction h2 as [|[c n] h2 IH]; intros t Hh; [done|]. cbn [List.filter].
  destruct (funding_history_app t [(c, n)] _ Hh) as [t1 Ht1]. rewrite (IH t1 Ht1).
  destruct (spends k (c, n)) eqn:Hs; [|done]. exfalso.
  assert (n = 1) as -> by (destruct c; try done; cbn in Hs; by destruct n as [|[]|]).
  assert (done (FLeaseRefund k now) (h2 ++ (FLeaseRefund k now, 1) :: h1)) as Hd
    by (apply elem_of_app; right; left).
  apply funding_last in Hh. destruct c; try done; cbn in Hs; b2p; subst;
    destruct Hh as (t2 & r & st & _ & _ & Hg & Hst);
    destruct (so_refunding _ _ _ _ Hst _ Hd) as [->|[->| ->]];
    cbn [guard] in Hg; rewrite (has_status_spec _ _ _ (so_status _ _ _ _ Hst)) in Hg; done.
Qed.

(** What an intent's history holds when its budget is leased. *)
Definition funded_intent (h : FundingLog) (k : string) (i : NewW5hFundingIntent) : Prop :=
  done (FInsert i) h ∧ ni_intent_id i = k ∧
  (∃ sig slot, done (FSubmitted k sig) h ∧ done (FReserved k sig slot) h) ∧
  List.filter (settles k) h = [].

Lemma story_funded h k r st :
  story h k r st → st = BudgetReserved ∨ st = IntentExpired →
  ∃ i, funded_intent h k i ∧ ir_expires_at_ms r = ni_expires_at_ms i.
Proof.
  intros Hst Hs. destruct (so_insert _ _ _ _ Hst) as (i & Hi & Hid & Ht).
  exists i. split; [|by rewrite <- Ht]. split_and!; [done|done| |].
  - pose proof (so_funded _ _ _ _ Hst) as Hf.
    destruct Hs as [-> | ->]; destruct Hf as (sig & slot & _ & ? & ? & _); by exists sig, slot.
  - apply filter_none. intros x Hx. apply not_true_is_false. intros Hsx.
    destruct (settled_story _ _ _ _ _ Hst Hx Hsx) as [-> | ->]; by destruct Hs.
Qed.

(** A lease is granted only on a funded intent and within its terms: at that
    moment the intent was inserted, its funding was submitted and verified under
    one signature, nothing had settled it, and the clock the caller passed was
    before the expiry for an execution lease, at or after it for a refund
    lease. *)
Theorem leases_within_terms t h c h1 :
  funding_history t h → (c, 1) :: h1 `suffix_of` h →
  match c with
  | FLeaseExecution k now => ∃ i, funded_intent h1 k i ∧ now < ni_expires_at_ms i
  | FLeaseRefund k now => ∃ i, funded_intent h1 k i ∧ ni_expires_at_ms i ≤ now
  | _ => True
  end.
Proof.
  intros Hh [h2 ->]. apply funding_history_app in Hh as [t1 Hh]. apply funding_last in Hh.
  destruct c; try done; destruct Hh as (t2 & r & st & _ & _ & Hg & Hst);
    cbn [guard funding_key] in *; rewrite (has_status_spec _ _ _ (so_status _ _ _ _ Hst)) in Hg;
    apply andb_true_iff in Hg as [Hs Htime]; b2p;
    destruct (story_funded _ _ _ _ Hst) as (i & Hi & He);
    try (exists i; split; [done|lia]); destruct st; try done; auto.
Qed.

(** What an inserted intent reads back as: itself, at [funding_required],
    when its amount fits an [i64]; an amount of 2^63 or more is accepted by the
    insertion and makes the row unreadable. *)
Theorem inserted_intent_reads_back i now t :
  is_u 64 (ni_amount_raw i) → is_u 32 (ni_threshold_bps i) →
  is_u 32 (ni_save_display_apy_bps_at_creation i) →
  is_u 32 (ni_native_onchain_apr_bps_at_creation i) →
  t !! ni_intent_id i = None →
  let '(r, t') := insert_intent i now t in
  r = Ok tt ∧
  if ni_amount_raw i <? 2 ^ 63
  then get_intent (ni_intent_id i) t' =
         Ok (Some (MkIntent i FundingRequired None None None None None now))
  else ∃ m, get_intent (ni_intent_id i) t' = Err (IntegrityCheckFailed m).
Proof.
  intros Ha Hb1 Hb2 Hb3 Hnone. unfold insert_intent. rewrite Hnone. split; [done|].
  unfold get_intent. rewrite lookup_insert_eq. unfold row_to_intent, new_intent_row.
  cbn [ir_status]. rewrite parse_intent_as_str. cbn [ok_or mbind result_bind ir_amount_raw].
  assert (as_i64 (ni_amount_raw i) =
    if ni_amount_raw i <? 2 ^ 63 then ni_amount_raw i else ni_amount_raw i - 2 ^ 64) as ->.
  { unfold as_i64. rewrite wrap_small by done. unfold to_signed. unfold is_u in Ha.
    destruct (Z.ltb_spec (ni_amount_raw i) (2 ^ 63)); repeat case_match; b2p; lia. }
  destruct (Z.ltb_spec (ni_amount_raw i) (2 ^ 63)) as [Hlt|Hge].
  - rewrite (checked_u_ok 64) by (unfold is_u in *; lia). cbn.
    unfold as_u32. rewrite !wrap_small by done. by destruct i.
  - rewrite (proj2 (checked_u_None 64 _)) by (unfold is_u in *; lia). by eexists.
Qed.

(** ** An example *)

(** The calls one after the other, each with the wall clock. *)
Fixpoint play (calls : list (FundingCall * Z)) : IntentTable * FundingLog :=
  match calls with
  | [] => (∅, [])
  | (c, now) :: calls =>
      let '(t, h) := play calls in
      let '(n, t) := apply_funding c now t in (t, (c, n) :: h)
  end.

Lemma play_history calls : funding_history (play calls).1 (play calls).2.
Proof.
  induction calls as [|[c now] calls IH]; [constructor|]. cbn [play].
  destruct (play calls) as [t h]. destruct (apply_funding c now t) as [n t'] eqn:Ha.
  by eapply funding_call.
Qed.

Definition demo_intent : NewW5hFundingIntent :=
  MkNewIntent "intent" "11" "22" "user" "user-ata" "wallet" "wallet-ata" 250000 600 610 590
    1000 5000.

(** Funded, leased for execution, released, and refunded after the expiry; a late
    completion and a second refund change nothing.  Newest first. *)
Definition demo_calls : list (FundingCall * Z) :=
  [(FRefunded "intent" "again", 6400); (FCompleted "intent" "late", 6300);
   (FRefunded "intent" "refund", 6200); (FLeaseRefund "intent" 6000, 6000);
   (FRelease "intent" "send failed", 1500); (FLeaseExecution "intent" 1400, 1400);
   (FReserved "intent" "sig" 77, 1300); (FSubmitted "intent" "sig", 1200);
   (FInsert demo_intent, 1100)].

Lemma demo_calls_rows : map snd (play demo_calls).2 = [0; 0; 1; 1; 1; 1; 1; 1; 1].
Proof. by vm_compute. Qed.

Lemma budget_settled_once_witness :
  length (List.filter (settles "intent") (play demo_calls).2) = 1%nat ∧
  (length (List.filter (settles "intent") (play demo_calls).2) ≤ 1)%nat ∧
  List.filter (spends "intent") (take 3 (play demo_calls).2) = [].
Proof.
  split; [by vm_compute|].
  destruct (budget_settled_once _ _ "intent" (play_history demo_calls)) as [Hone Hafter].
  split; [exact Hone|]. apply (Hafter _ (drop 4 (play demo_calls).2) 6000). by vm_compute.
Defined.

Lemma leases_within_terms_witness : ∃ i,
  funded_intent (drop 4 (play demo_calls).2) "intent" i ∧ ni_expires_at_ms i ≤ 6000.
Proof.
  apply (leases_within_terms _ _ (FLeaseRefund "intent" 6000) (drop 4 (play demo_calls).2)
    (play_history demo_calls)).
  exists (take 3 (play demo_calls).2). by vm_compute.
Defined.

Lemma inserted_intent_reads_back_witness :
  get_intent "intent" (insert_intent demo_intent 1100 ∅).2 =
  Ok (Some (MkIntent demo_intent FundingRequired None None None None None 1100)).
Proof.
  assert (Hi : let '(r, t') := insert_intent demo_intent 1100 ∅ in r = Ok tt ∧
    get_intent "intent" t' =
      Ok (Some (MkIntent demo_intent FundingRequired None None None None None 1100))).
  { apply (inserted_intent_reads_back demo_intent 1100 ∅); try (by vm_compute);
      unfold is_u; cbn; lia. }
  destruct (insert_intent demo_intent 1100 ∅) as [r t']. destruct Hi as [_ Hi]. exact Hi.
Defined.
