(* ===== verification/Float64.v ===== *)
(** * Floating point

    The operations on [f64] the code uses, over the IEEE values of the Standard
    Library: products, comparisons, rounding to an integer, saturating casts, and
    the reading of decimal text. *)
From Stdlib Require Export SpecFloat.
From S2P Require Import Prelude WatcherBase RuleStore RustText.
#[local] Open Scope Z_scope.

(** An [f64] is its IEEE value. *)
Notation f64 := spec_float.

(** The product rounds to nearest even; the cast truncates and saturates. *)
Definition f64_mul : f64 → f64 → f64 := SFmul 53 1024.
Definition f64_as_u (w : Z) (x : f64) : Z :=
  match x with
  | S754_zero _ | S754_nan | S754_infinity true | S754_finite true _ _ => 0
  | S754_infinity false => 2 ^ w - 1
  | S754_finite false m e => Z.min (2 ^ w - 1) (Z.shiftl (Z.pos m) e)
  end.
Definition f64_as_u64 : f64 → Z := f64_as_u 64.
Definition f64_as_u32 : f64 → Z := f64_as_u 32.

Definition f64_is_finite (x : f64) : bool :=
  match x with S754_zero _ | S754_finite _ _ _ => true | _ => false end.

(** An integer, rounded to nearest even when it has more than 53 bits. *)
Definition f64_of_Z (negative : bool) (n : Z) : f64 :=
  binary_normalize 53 1024 (if negative then - n else n) 0 negative.

(** [f64::round]: to the nearest integer, halves away from zero. *)
Definition f64_round (x : f64) : f64 :=
  match x with
  | S754_finite s m e =>
      if 0 <=? e then x else f64_of_Z s ((Z.pos m + 2 ^ (- e - 1)) / 2 ^ (- e))
  | _ => x
  end.

(** ** [f64::from_str] *)
Inductive ParseFloatError := FloatEmpty | FloatInvalid.
Definition show_parse_float_error (e : ParseFloatError) : string :=
  match e with
  | FloatEmpty => "cannot parse float from empty string"
  | FloatInvalid => "invalid float literal"
  end%string.

(** The digits at the front, and what follows them. *)
Fixpoint span_digits (l : list byte) : list byte * list byte :=
  match l with
  | b :: l' => if is_ascii_digit b then let '(d, r) := span_digits l' in (b :: d, r) else ([], l)
  | [] => ([], [])
  end.
Definition digits_value (l : list byte) : Z :=
  foldl (λ a b, a * 10 + (byte_val b - 48)) 0 l.

(** [e] or [E], a sign, at least one digit, and nothing more. *)
Definition parse_exponent (l : list byte) : option Z :=
  match l with
  | [] => Some 0
  | b :: l =>
      if (byte_val b =? 101) || (byte_val b =? 69) then
        let '(negative, l) := match l with
                              | Byte.x2d :: l => (true, l)
                              | Byte.x2b :: l => (false, l)
                              | _ => (false, l)
                              end in
        match span_digits l with
        | ([], _) => None
        | (d, []) => Some (if negative then - digits_value d else digits_value d)
        | _ => None
        end
      else None
  end.

(** The number nearest to [n * 10 ^ e]. *)
Definition f64_of_decimal (negative : bool) (n e : Z) : f64 :=
  match n with
  | Z.pos m =>
      if 0 <=? e then f64_of_Z negative (n * 10 ^ e)
      else SFdiv 53 1024 (S754_finite negative m 0) (S754_finite false (Z.to_pos (10 ^ (- e))) 0)
  | _ => S754_zero negative
  end.

Definition parse_decimal (negative : bool) (l : list byte) : option f64 :=
  let '(whole, l) := span_digits l in
  let '(frac, l) := match l with
                    | Byte.x2e :: l => span_digits l
                    | _ => ([], l)
                    end in
  match (whole ++ frac)%list with
  | [] => None
  | digits =>
      e ← parse_exponent l;
      Some (f64_of_decimal negative (digits_value digits) (e - Z.of_nat (length frac)))
  end.

Definition parse_inf_nan (negative : bool) (l : list byte) : option f64 :=
  let named s := bool_decide (to_ascii_lowercase l = str_bytes s) in
  if named "nan"%string then Some S754_nan
  else if named "inf"%string || named "infinity"%string then Some (S754_infinity negative)
  else None.

Definition parse_f64 (l : list byte) : Result ParseFloatError f64 :=
  match l with
  | [] => Err FloatEmpty
  | b :: l' =>
      let negative := byte_val b =? 45 in
      let l := if negative || (byte_val b =? 43) then l' else l in
      match l with
      | [] => Err FloatInvalid
      | _ =>
          ok_or (match parse_decimal negative l with
                 | Some x => Some x
                 | None => parse_inf_nan negative l
                 end) FloatInvalid
      end
  end.

(** [{}] of an [f64] needs the shortest decimal that reads back; it stays a
    parameter, used in one error text. *)
Class FloatText := display_f64 : f64 → string.
