(* ===== verification/PolicyEngine.v ===== *)
(** * The policy engine ([risk-engine], [types/policy.rs])

    An ordered list of rules is evaluated on a transaction proposal and its
    simulation; the first rule whose condition matches gives the verdict.  The
    clock crate [chrono] is a parameter.  The second part shows what is decided. *)
From Stdlib Require Import SpecFloat.
From S2P Require Import Prelude Float64.
#[local] Open Scope string_scope.
#[local] Open Scope Z_scope.

(** ** Transactions ([types/transaction.rs], [types/solana.rs]) *)
Inductive SolanaNetwork := MainnetBeta | Devnet | Testnet | Localnet.
#[export] Instance network_eq_dec : EqDecision SolanaNetwork.
Proof. solve_decision. Defined.

Record TokenTransfer := MkTokenTransfer {
  tt_mint : string;
  tt_amount : Z;
  tt_decimals : option Z;
  tt_source : string;
  tt_destination : string
}.

Record AccountRole := MkAccountRole {
  ar_pubkey : string;
  ar_label : option string;
  ar_is_signer : bool;
  ar_is_writable : bool
}.

Record InstructionSummary := MkSummary {
  ix_program_id : string;
  ix_program_name : option string;
  ix_description : string;
  ix_transfer_lamports : option Z;
  ix_token_transfer : option TokenTransfer;
  ix_is_legacy_token_transfer : bool;
  ix_accounts : list AccountRole
}.

(** Identifiers are 128-bit numbers, instants milliseconds. *)
Record TransactionProposal := MkProposal {
  tp_id : N;
  tp_session_id : N;
  tp_wallet_pubkey : string;
  tp_network : SolanaNetwork;
  tp_description : string;
  tp_transaction_b64 : string;
  tp_instructions_summary : list InstructionSummary;
  tp_created_at : Z
}.

Record AccountDiff := MkDiff {
  ad_pubkey : string;
  ad_lamports_before : option Z;
  ad_lamports_after : option Z;
  ad_data_changed : bool
}.

Record SimulationResult := MkSimulation {
  sr_success : bool;
  sr_error : option string;
  sr_compute_units_used : option Z;
  sr_logs : list string;
  sr_return_data : option string;
  sr_account_diffs : list AccountDiff;
  sr_fee_lamports : option Z
}.

(** ** Policies ([types/policy.rs]) *)
Record ApprovalChainStage := MkStage {
  as_role : string;
  as_description : string;
  as_min_approvals : Z
}.

Inductive PolicyVerdict :=
| Approved (rule_name : string)
| RequiresHumanApproval (reason rule_name : string) (required_approver_role : option string)
    (approval_chain : option (list ApprovalChainStage))
| Rejected (reason rule_name : string)
| SimulationRequired
| SimulationFailed (simulation_error : string).

Definition is_auto_approved (v : PolicyVerdict) : bool :=
  match v with Approved _ => true | _ => false end.
Definition is_blocked (v : PolicyVerdict) : bool :=
  match v with Rejected _ _ | SimulationFailed _ => true | _ => false end.
Definition requires_human (v : PolicyVerdict) : bool :=
  match v with RequiresHumanApproval _ _ _ _ => true | _ => false end.
Definition verdict_label (v : PolicyVerdict) : string :=
  match v with
  | Approved _ => "approved"
  | RequiresHumanApproval _ _ _ _ => "requires_human_approval"
  | Rejected _ _ => "rejected"
  | SimulationRequired => "simulation_required"
  | SimulationFailed _ => "simulation_failed"
  end.
Definition verdict_rule_name (v : PolicyVerdict) : option string :=
  match v with
  | Approved n | RequiresHumanApproval _ n _ _ | Rejected _ n => Some n
  | SimulationRequired | SimulationFailed _ => None
  end.
Definition verdict_reason (v : PolicyVerdict) : option string :=
  match v with
  | RequiresHumanApproval r _ _ _ | Rejected r _ => Some r
  | _ => None
  end.

Record PolicyEvaluationResult := MkEvaluation {
  pe_verdict : PolicyVerdict;
  pe_rules_total : nat;
  pe_rules_evaluated : nat;
  pe_matched_rule_index : option nat
}.

Inductive PolicyCondition :=
| NetworkIn (networks : list SolanaNetwork)
| ProgramNotInAllowlist
| DestinationInDenylist
| CostExceedsSol (threshold : f64)
| DailySpendExceedsSol (cap : f64)
| AmountExceedsLamports (threshold : Z)
| SimulationNotPassed
| TokenAmountExceeds (mint : string) (threshold : Z)
| MintNotInAllowlist (allowed_mints : list string)
| LegacyTokenTransferPresent
| OutsideAllowedHours (start_hour end_hour : Z) (allowed_days : list Z) (utc_offset_hours : Z)
| Always.

Inductive PolicyAction :=
| Approve
| RequireHumanApproval (reason : string) (required_approver_role : option string)
| RequireApprovalChain (reason : string) (stages : list ApprovalChainStage)
| Reject (reason : string).

Record PolicyRule := MkPolicyRule {
  pr_name : string;
  pr_description : string;
  pr_condition : PolicyCondition;
  pr_action : PolicyAction
}.

(** The names [parse_policy_condition_unit] and [parse_policy_action_unit] accept. *)
Definition parse_policy_condition_unit (name : string) : option PolicyCondition :=
  let either a b := bool_decide (name = a) || bool_decide (name = b) in
  if either "ProgramNotInAllowlist" "program_not_in_allowlist" then Some ProgramNotInAllowlist
  else if either "DestinationInDenylist" "destination_in_denylist" then Some DestinationInDenylist
  else if either "SimulationNotPassed" "simulation_not_passed" then Some SimulationNotPassed
  else if either "Always" "always" then Some Always
  else if either "LegacyTokenTransferPresent" "legacy_token_transfer_present"
  then Some LegacyTokenTransferPresent
  else None.
Definition parse_policy_action_unit (name : string) : option PolicyAction :=
  if bool_decide (name = "Approve") || bool_decide (name = "approve") then Some Approve
  else None.

(** ** Amounts *)

(** [(x * 1_000_000_000.0) as u64] *)
Definition f64_1e9 : f64 := S754_finite false (5 ^ 9 * 2 ^ 32)%positive (-23).
Definition sol_to_lamports (sol : f64) : Z := f64_as_u64 (f64_mul sol f64_1e9).

(** ** Rule helpers ([rules/spend_cap.rs], [rules/allowlist.rs]) *)
Definition exceeds_cap (current proposed cap : Z) : bool :=
  match checked_u 64 (current + proposed) with
  | Some total => cap <? total
  | None => true
  end.

Definition contains (l : list string) (x : string) : bool :=
  existsb (λ y, bool_decide (y = x)) l.
Definition is_nil {A} (l : list A) : bool := match l with [] => true | _ => false end.

Definition all_programs_allowed (program_ids allowlist : list string) : bool :=
  if is_nil allowlist then true else forallb (contains allowlist) program_ids.
Definition any_account_denied (account_pubkeys denylist : list string) : bool :=
  if is_nil denylist then false else existsb (contains denylist) account_pubkeys.

(** ** Evaluation ([policy.rs]) *)

(** What [chrono] provides: [FixedOffset::east_opt], and the local hour ([%H])
    and ISO day of the week ([%u]) of an instant. *)
Class Chrono := {
  DateTime : Type;
  FixedOffset : Type;
  utc : FixedOffset;
  east_opt : Z → option FixedOffset;
  local_hour : DateTime → FixedOffset → Z;
  local_weekday : DateTime → FixedOffset → Z
}.

Record PolicySet := MkPolicySet {
  ps_rules : list PolicyRule;
  ps_program_allowlist : list string;
  ps_destination_denylist : list string
}.

Definition with_session_rules (session_rules : list PolicyRule) (p : PolicySet) : PolicySet :=
  MkPolicySet (session_rules ++ ps_rules p) (ps_program_allowlist p)
    (ps_destination_denylist p).

Definition permissive_default : PolicySet :=
  MkPolicySet
    [MkPolicyRule "allow-all" "Approve all transactions (devnet/testnet only)" Always Approve]
    [] [].

Definition mainnet_safe_default : PolicySet :=
  MkPolicySet
    [MkPolicyRule "mainnet-requires-human" "All mainnet transactions require human approval"
       (NetworkIn [MainnetBeta])
       (RequireHumanApproval "mainnet transaction requires explicit operator approval" None);
     MkPolicyRule "devnet-allow" "Allow devnet transactions automatically"
       (NetworkIn [Devnet; Testnet; Localnet]) Approve]
    [] [].

(** The session's identifier plays no part. *)
Record PolicyEvaluationContext := MkPolicyContext {
  pc_proposal : TransactionProposal;
  pc_simulation_result : option SimulationResult;
  pc_network : SolanaNetwork;
  pc_session_spend_lamports : Z;
  pc_wallet_daily_spend_lamports : Z
}.

Definition instructions (ctx : PolicyEvaluationContext) : list InstructionSummary :=
  tp_instructions_summary (pc_proposal ctx).

(** [u64::saturating_add] and [u64::saturating_sub]; [Iterator::sum] wraps in a
    release build. *)
Definition saturating_add_u64 (a b : Z) : Z := Z.min (2 ^ 64 - 1) (a + b).
Definition saturating_sub_u64 (a b : Z) : Z := Z.max 0 (a - b).
Definition sum_u64 (l : list Z) : Z := foldl (λ acc v, wrap 64 (acc + v)) 0 l.

Definition transfer_amount_lamports (ctx : PolicyEvaluationContext) : option Z :=
  let proposal_amounts := omap ix_transfer_lamports (instructions ctx) in
  if negb (is_nil proposal_amounts) then Some (foldl saturating_add_u64 0 proposal_amounts)
  else
    simulation ← pc_simulation_result ctx;
    wallet_diff ← List.find
      (λ d, bool_decide (ad_pubkey d = tp_wallet_pubkey (pc_proposal ctx)))
      (sr_account_diffs simulation);
    before ← ad_lamports_before wallet_diff;
    after ← ad_lamports_after wallet_diff;
    lamports_spent ← checked_u 64 (before - after);
    Some (match sr_fee_lamports simulation with
          | Some fee_lamports => saturating_sub_u64 lamports_spent fee_lamports
          | None => lamports_spent
          end).

Definition action_to_verdict (action : PolicyAction) (rule_name : string) : PolicyVerdict :=
  match action with
  | Approve => Approved rule_name
  | RequireHumanApproval reason role => RequiresHumanApproval reason rule_name role None
  | RequireApprovalChain reason stages =>
      RequiresHumanApproval reason rule_name None (Some stages)
  | Reject reason => Rejected reason rule_name
  end.

Section evaluation.
Context `{Chrono}.

(** The product is an [i32]. *)
Definition is_outside_allowed_hours_at (now : DateTime) (start_hour end_hour : Z)
    (allowed_days : list Z) (utc_offset_hours : Z) : bool :=
  let secs := wrap 32 (utc_offset_hours * 3600) in
  let secs := if secs <? 2 ^ 31 then secs else secs - 2 ^ 32 in
  let offset := default utc (east_opt secs) in
  let hour := local_hour now offset in
  let day_of_week := local_weekday now offset in
  if negb (is_nil allowed_days) && negb (existsb (Z.eqb day_of_week) allowed_days) then true
  else
    negb (if start_hour <=? end_hour
          then (start_hour <=? hour) && (hour <=? end_hour)
          else (start_hour <=? hour) || (hour <=? end_hour)).

Definition token_transfers (ctx : PolicyEvaluationContext) : list TokenTransfer :=
  omap ix_token_transfer (instructions ctx).

Definition condition_matches_at (p : PolicySet) (rule : PolicyRule)
    (ctx : PolicyEvaluationContext) (now : DateTime) : bool :=
  match pr_condition rule with
  | NetworkIn networks => existsb (λ n, bool_decide (n = pc_network ctx)) networks
  | ProgramNotInAllowlist =>
      if is_nil (ps_program_allowlist p) then false
      else existsb (λ ix, negb (contains (ps_program_allowlist p) (ix_program_id ix)))
             (instructions ctx)
  | DestinationInDenylist =>
      if is_nil (ps_destination_denylist p) then false
      else existsb (λ acc, contains (ps_destination_denylist p) (ar_pubkey acc))
             (mjoin (map ix_accounts (instructions ctx)))
  | CostExceedsSol threshold_sol =>
      let threshold_lamports := sol_to_lamports threshold_sol in
      match pc_simulation_result ctx with
      | Some sim =>
          match sr_fee_lamports sim with Some f => threshold_lamports <? f | None => false end
      | None => false
      end
  | DailySpendExceedsSol cap_sol =>
      sol_to_lamports cap_sol <? pc_wallet_daily_spend_lamports ctx
  | AmountExceedsLamports threshold_lamports =>
      match transfer_amount_lamports ctx with
      | Some amount => threshold_lamports <=? amount
      | None => false
      end
  | SimulationNotPassed =>
      match pc_simulation_result ctx with Some s => negb (sr_success s) | None => true end
  | TokenAmountExceeds mint threshold =>
      threshold <=? sum_u64 (map tt_amount
        (List.filter (λ tt, bool_decide (tt_mint tt = mint)) (token_transfers ctx)))
  | MintNotInAllowlist allowed_mints =>
      if is_nil allowed_mints then false
      else existsb (λ tt, negb (contains allowed_mints (tt_mint tt))) (token_transfers ctx)
  | LegacyTokenTransferPresent => existsb ix_is_legacy_token_transfer (instructions ctx)
  | OutsideAllowedHours start_hour end_hour allowed_days utc_offset_hours =>
      is_outside_allowed_hours_at now start_hour end_hour allowed_days utc_offset_hours
  | Always => true
  end.

(** [for (i, rule) in self.rules.iter().enumerate()] *)
Fixpoint evaluate_rules (p : PolicySet) (ctx : PolicyEvaluationContext) (now : DateTime)
    (rules_total i : nat) (rules : list PolicyRule) : PolicyEvaluationResult :=
  match rules with
  | [] =>
      MkEvaluation
        (RequiresHumanApproval "no matching policy rule; failing closed" "default-fail-closed"
           None None)
        rules_total rules_total None
  | rule :: rules =>
      if condition_matches_at p rule ctx now
      then MkEvaluation (action_to_verdict (pr_action rule) (pr_name rule)) rules_total (S i)
             (Some i)
      else evaluate_rules p ctx now rules_total (S i) rules
  end.

Definition evaluate_at (p : PolicySet) (ctx : PolicyEvaluationContext) (now : DateTime) :
    PolicyEvaluationResult :=
  let rules_total := length (ps_rules p) in
  let evaluate := evaluate_rules p ctx now rules_total 0 (ps_rules p) in
  match pc_simulation_result ctx with
  | Some sim =>
      if negb (sr_success sim)
      then MkEvaluation (SimulationFailed (default "unknown simulation error" (sr_error sim)))
             rules_total 0 None
      else evaluate
  | None => evaluate
  end.
End evaluation.

(** * What the policy engine decides *)

Section facts.
Context `{Chrono}.
Implicit Types (p : PolicySet) (ctx : PolicyEvaluationContext) (now : DateTime).

Definition simulation_failed ctx : bool :=
  match pc_simulation_result ctx with Some sim => negb (sr_success sim) | None => false end.

(** The rule at [i] is the first that matches. *)
Definition first_match p ctx now (i : nat) (rule : PolicyRule) : Prop :=
  ps_rules p !! i = Some rule ∧ condition_matches_at p rule ctx now = true ∧
  ∀ j r, (j < i)%nat → ps_rules p !! j = Some r → condition_matches_at p r ctx now = false.

Definition no_match p ctx now : Prop :=
  ∀ r, r ∈ ps_rules p → condition_matches_at p r ctx now = false.

Definition fail_closed : PolicyVerdict :=
  RequiresHumanApproval "no matching policy rule; failing closed" "default-fail-closed"
    None None.

Lemma evaluate_rules_spec p ctx now total i rules :
  let res := evaluate_rules p ctx now total i rules in
  (∃ k rule, rules !! k = Some rule ∧ condition_matches_at p rule ctx now = true ∧
     (∀ j r, (j < k)%nat → rules !! j = Some r → condition_matches_at p r ctx now = false) ∧
     res = MkEvaluation (action_to_verdict (pr_action rule) (pr_name rule)) total
             (S (i + k)) (Some (i + k)%nat)) ∨
  ((∀ r, r ∈ rules → condition_matches_at p r ctx now = false) ∧
   res = MkEvaluation fail_closed total total None).
Proof.
  revert i. induction rules as [|rule rules IH]; intros i; cbn [evaluate_rules].
  { right. split; [by intros r ?%elem_of_nil|done]. }
  destruct (condition_matches_at p rule ctx now) eqn:Hm.
  - left. exists 0%nat, rule. split_and!; [done|done|by intros; lia|]. by rewrite Nat.add_0_r.
  - destruct (IH (S i)) as [(k & r & Hk & Hr & Hbefore & Heq)|[Hno Heq]].
    + left. exists (S k), r. split_and!; [done|done| |by rewrite Heq, Nat.add_succ_r].
      intros [|j] r' Hj Hr'; [by injection Hr' as <-|]. eapply Hbefore; [|done]. lia.
    + right. split; [|done]. intros r [->|Hr]%elem_of_cons; [done|by apply Hno].
Qed.

(** A failed simulation blocks whatever the rules say; otherwise the first
    rule in declaration order whose condition matches decides, with its index
    and the number of rules looked at; if none matches the verdict is human
    approval.  In particular a transaction is approved without a human exactly
    when its simulation did not fail and the first matching rule says so. *)
Theorem evaluate_first_match p ctx now :
  let res := evaluate_at p ctx now in
  (if simulation_failed ctx then
     ∃ e, res = MkEvaluation (SimulationFailed e) (length (ps_rules p)) 0 None
   else
     (∃ i rule, first_match p ctx now i rule ∧
        res = MkEvaluation (action_to_verdict (pr_action rule) (pr_name rule))
                (length (ps_rules p)) (S i) (Some i)) ∨
     (no_match p ctx now ∧
        res = MkEvaluation fail_closed (length (ps_rules p)) (length (ps_rules p)) None)) ∧
  (is_auto_approved (pe_verdict res) = true ↔
     simulation_failed ctx = false ∧
     ∃ i rule, first_match p ctx now i rule ∧ pr_action rule = Approve).
Proof.
  intros res. assert (if simulation_failed ctx
    then ∃ e, res = MkEvaluation (SimulationFailed e) (length (ps_rules p)) 0 None
    else res = evaluate_rules p ctx now (length (ps_rules p)) 0 (ps_rules p)) as Hres.
  { unfold res, evaluate_at, simulation_failed.
    destruct (pc_simulation_result ctx) as [sim|]; [|done].
    destruct (negb _); [by eexists|done]. }
  destruct (simulation_failed ctx).
  { split; [done|]. destruct Hres as [e ->]. split; [done|by intros [? _]]. }
  destruct (evaluate_rules_spec p ctx now (length (ps_rules p)) 0 (ps_rules p))
    as [(i & rule & Hi & Hm & Hbefore & Heq)|[Hno Heq]]; rewrite Heq in Hres.
  - cbn [Nat.add] in Hres.
    assert (first_match p ctx now i rule) as Hf by done. split; [left; by exists i, rule|].
    rewrite Hres. cbn [pe_verdict]. split.
    + intros Ha. split; [done|]. exists i, rule. split; [done|].
      by destruct (pr_action rule).
    + intros (_ & i' & rule' & (Hi' & Hm' & Hb') & Ha).
      destruct (Nat.lt_trichotomy i i') as [Hlt|[->|Hlt]].
      * by rewrite (Hb' i rule Hlt Hi) in Hm.
      * rewrite Hi in Hi'. injection Hi' as <-. by rewrite Ha.
      * by rewrite (Hbefore i' rule' Hlt Hi') in Hm'.
  - split; [by right|]. rewrite Hres. split; [done|]. intros (_ & i & rule & (Hi & Hm & _) & _).
    rewrite Hno in Hm; [done|]. by eapply list_elem_of_lookup_2.
Qed.

Definition same_lists p q : Prop :=
  ps_program_allowlist q = ps_program_allowlist p ∧
  ps_destination_denylist q = ps_destination_denylist p.

Lemma condition_matches_ext p q ctx now rule : same_lists p q →
  condition_matches_at q rule ctx now = condition_matches_at p rule ctx now.
Proof. intros [Ha Hd]. unfold condition_matches_at. by rewrite Ha, Hd. Qed.

(** The verdict depends on the rules walked and on the two lists only. *)
Lemma evaluate_rules_verdict p q ctx now t1 t2 i1 i2 rules : same_lists p q →
  pe_verdict (evaluate_rules p ctx now t1 i1 rules) =
  pe_verdict (evaluate_rules q ctx now t2 i2 rules).
Proof.
  intros Hs. revert i1 i2. induction rules as [|r rules IH]; intros i1 i2; [done|]. cbn.
  rewrite (condition_matches_ext p q) by done. by destruct (condition_matches_at _ _ _ _).
Qed.

Lemma evaluate_rules_app p q ctx now t1 t2 i rules1 rules2 : same_lists p q →
  let alone := evaluate_rules q ctx now t2 i rules1 in
  pe_verdict (evaluate_rules p ctx now t1 i (rules1 ++ rules2)) =
  if pe_matched_rule_index alone then pe_verdict alone
  else pe_verdict (evaluate_rules p ctx now t1 (i + length rules1) rules2).
Proof.
  intros Hs. revert i. induction rules1 as [|r rules1 IH]; intros i; cbn.
  { by rewrite Nat.add_0_r. }
  rewrite (condition_matches_ext p q) by done.
  destruct (condition_matches_at p r ctx now); [done|]. rewrite IH.
  by rewrite <- Nat.add_succ_comm.
Qed.

(** Session rules come first and only first: with them the verdict is theirs
    when one of them matches and the underlying set's otherwise; they share its
    allowlist and denylist and cannot lift a failed simulation. *)
Theorem session_rules_take_precedence p session_rules ctx now :
  let alone := evaluate_at (MkPolicySet session_rules (ps_program_allowlist p)
                 (ps_destination_denylist p)) ctx now in
  pe_verdict (evaluate_at (with_session_rules session_rules p) ctx now) =
  if pe_matched_rule_index alone then pe_verdict alone else pe_verdict (evaluate_at p ctx now).
Proof.
  intros alone. unfold alone, evaluate_at. cbn [ps_rules with_session_rules].
  destruct (pc_simulation_result ctx) as [sim|]; [destruct (negb (sr_success sim)); [done|]|].
  all: rewrite (evaluate_rules_app _ (MkPolicySet session_rules (ps_program_allowlist p)
    (ps_destination_denylist p)) _ _ _ (length session_rules)) by done.
  all: destruct (pe_matched_rule_index _); [done|].
  all: by apply evaluate_rules_verdict.
Qed.

(** *** Amounts *)
Fixpoint total (l : list Z) : Z :=
  match l with [] => 0 | x :: l => x + total l end.

Lemma total_nonneg l : Forall (is_u 64) l → 0 ≤ total l.
Proof. induction 1 as [|x l [Hx _] _ IH]; cbn; lia. Qed.

Lemma saturating_total l a : Forall (is_u 64) l → is_u 64 a →
  foldl saturating_add_u64 a l = Z.min (2 ^ 64 - 1) (a + total l).
Proof.
  intros Hl. revert a. induction Hl as [|x l [Hx1 Hx2] Hl IH]; intros a [Ha1 Ha2]; cbn; [lia|].
  pose proof (total_nonneg l Hl). rewrite IH by (unfold saturating_add_u64, is_u; lia).
  unfold saturating_add_u64. lia.
Qed.

Lemma wrapping_total l a : foldl (λ acc v, wrap 64 (acc + v)) (wrap 64 a) l = wrap 64 (a + total l).
Proof.
  revert a. induction l as [|x l IH]; intros a; cbn; [by rewrite Z.add_0_r|].
  replace (wrap 64 (wrap 64 a + x)) with (wrap 64 (a + x))
    by (unfold wrap; by rewrite Z.add_mod_idemp_l).
  rewrite IH. by rewrite Z.add_assoc.
Qed.

Definition transfers_of (mint : string) ctx : list Z :=
  map tt_amount (List.filter (λ tt, bool_decide (tt_mint tt = mint)) (token_transfers ctx)).

(** The two amount limits differ at the top of the range: with explicit SOL
    transfers the lamport limit compares the true sum, however large, while the
    token limit compares the sum modulo 2^64, so transfers that add up to 2^64
    pass under any positive threshold. *)
Theorem amount_limits p ctx now rule :
  Forall (is_u 64) (omap ix_transfer_lamports (instructions ctx)) →
  match pr_condition rule with
  | AmountExceedsLamports threshold =>
      is_u 64 threshold → omap ix_transfer_lamports (instructions ctx) ≠ [] →
      condition_matches_at p rule ctx now =
        (threshold <=? total (omap ix_transfer_lamports (instructions ctx)))
  | TokenAmountExceeds mint threshold =>
      condition_matches_at p rule ctx now =
        (threshold <=? total (transfers_of mint ctx) mod 2 ^ 64)
  | _ => True
  end.
Proof.
  intros Hu. unfold condition_matches_at. destruct (pr_condition rule); try done.
  - intros [Ht1 Ht2] Hne. unfold transfer_amount_lamports.
    destruct (is_nil _) eqn:Hnil; [by destruct (omap _ _)|]. cbn [negb].
    rewrite saturating_total by (done || (unfold is_u; lia)).
    apply eq_true_iff_eq. rewrite !Z.leb_le. pose proof (total_nonneg _ Hu). lia.
  - fold (transfers_of mint ctx). unfold sum_u64.
    change 0 with (wrap 64 0) at 1. by rewrite wrapping_total.
Qed.

(** The helpers of [rules/] say what the conditions say, and the cap helper is
    exact. *)
Lemma allowlist_condition p ctx now rule : pr_condition rule = ProgramNotInAllowlist →
  condition_matches_at p rule ctx now =
  negb (all_programs_allowed (map ix_program_id (instructions ctx)) (ps_program_allowlist p)).
Proof.
  intros Hc. unfold condition_matches_at, all_programs_allowed. rewrite Hc.
  destruct (is_nil _); [done|].
  induction (instructions ctx) as [|ix l IH]; [done|]. cbn. by rewrite IH, negb_andb.
Qed.

Lemma exceeds_cap_exact current proposed cap : is_u 64 current → is_u 64 proposed → is_u 64 cap →
  exceeds_cap current proposed cap = (cap <? current + proposed).
Proof.
  intros [? ?] [? ?] [? ?]. unfold exceeds_cap.
  destruct (checked_u 64 (current + proposed)) as [t|] eqn:Ht.
  - apply checked_u_Some in Ht as [<- _]. done.
  - apply checked_u_None in Ht. unfold is_u in Ht. symmetry. apply Z.ltb_lt. lia.
Qed.
End facts.

(** ** Examples *)

(** A clock that ignores offsets: noon on a Monday. *)
#[local] Instance demo_chrono : Chrono := {|
  DateTime := unit; FixedOffset := Z; utc := 0;
  east_opt secs := if (-86400 <? secs) && (secs <? 86400) then Some secs else None;
  local_hour _ _ := 12; local_weekday _ _ := 1 |}.

Definition demo_transfer (amount : Z) : InstructionSummary :=
  MkSummary "token" None "" None (Some (MkTokenTransfer "usdc" amount (Some 6) "a" "b")) false [].
Definition demo_policy_ctx (ixs : list InstructionSummary) : PolicyEvaluationContext :=
  MkPolicyContext (MkProposal 1 2 "wallet" Devnet "" "" ixs 0) None Devnet 0 0.
Definition demo_token_cap : PolicyRule :=
  MkPolicyRule "usdc-cap" "" (TokenAmountExceeds "usdc" 1000) (Reject "too much").

Definition demo_sol_cap : PolicyRule :=
  MkPolicyRule "sol-cap" "" (AmountExceedsLamports 1000) (Reject "too much").
Definition demo_sol_transfer (amount : Z) : InstructionSummary :=
  MkSummary "system" None "" (Some amount) None false [].

(** Two token transfers of 2^63 pass a limit of 1000; as SOL transfers they do not. *)
Lemma amount_limits_witness :
  let tokens := demo_policy_ctx [demo_transfer (2 ^ 63); demo_transfer (2 ^ 63)] in
  let sol := demo_policy_ctx [demo_sol_transfer (2 ^ 63); demo_sol_transfer (2 ^ 63)] in
  @condition_matches_at demo_chrono permissive_default demo_token_cap tokens tt = false ∧
  @condition_matches_at demo_chrono permissive_default demo_sol_cap sol tt = true.
Proof.
  intros tokens sol. split.
  - rewrite (@amount_limits demo_chrono permissive_default tokens tt demo_token_cap);
      [by vm_compute|constructor].
  - rewrite (@amount_limits demo_chrono permissive_default sol tt demo_sol_cap);
      [by vm_compute| |unfold is_u; cbn; lia|done].
    by repeat constructor.
Defined.

(** The conversion of SOL thresholds: 0.1 and one SOL, an infinite,
    a negative and an undefined amount. *)
Lemma sol_to_lamports_values :
  sol_to_lamports (S754_finite false 7205759403792794 (-56)) = 100000000 ∧
  sol_to_lamports (S754_finite false (2 ^ 52) (-52)) = 1000000000 ∧
  sol_to_lamports (S754_infinity false) = 2 ^ 64 - 1 ∧
  sol_to_lamports (S754_finite true (2 ^ 52) (-52)) = 0 ∧ sol_to_lamports S754_nan = 0.
Proof. by vm_compute. Qed.
