(* ===== verification/Approval.v ===== *)
(** * Human approval

    types/approval.rs: requests, decisions and the workflow of stages with their
    quorums; and the workflow built for a verdict (tools/signing.rs, and again on
    recovery in durable_pending.rs).  Instants are milliseconds. *)
From S2P Require Import Prelude RuleStore.
From S2P Require PolicyEngine.
#[local] Open Scope string_scope.
#[local] Open Scope Z_scope.

Definition Uuid : Type := N.
Notation PolicyVerdict := PolicyEngine.PolicyVerdict.

(** ** Requests and decisions *)
Record ApprovalRequest := MkRequest {
  rq_id : Uuid;
  rq_session_id : Uuid;
  rq_transaction_id : Uuid;
  rq_description : string;
  rq_policy_verdict : PolicyVerdict;
  rq_simulation : PolicyEngine.SimulationResult;
  rq_requested_at : Z;
  rq_decided : bool;
  rq_required_approver_role : option string
}.

(** [ApprovalRequest::new], with the id it draws and the clock it reads. *)
Definition new_request (id : Uuid) (now : Z) (session_id transaction_id : Uuid)
    (description : string) (policy_verdict : PolicyVerdict)
    (simulation : PolicyEngine.SimulationResult) : ApprovalRequest :=
  let required_approver_role :=
    match policy_verdict with
    | PolicyEngine.RequiresHumanApproval _ _ role _ => role
    | _ => None
    end in
  MkRequest id session_id transaction_id description policy_verdict simulation now false
    required_approver_role.

Record ApprovalDecision := MkDecision {
  ad_request_id : Uuid;
  ad_approved : bool;
  ad_note : option string;
  ad_approver_role : option string;
  ad_operator_id : option string;
  ad_decided_at : Z
}.
Definition approve (now : Z) (request_id : Uuid) (note : option string) : ApprovalDecision :=
  MkDecision request_id true note None None now.
Definition approve_as (now : Z) (request_id : Uuid) (note : option string) (role : string) :
    ApprovalDecision := MkDecision request_id true note (Some role) None now.
Definition reject (now : Z) (request_id : Uuid) (note : option string) : ApprovalDecision :=
  MkDecision request_id false note None None now.

Inductive ApprovalOutcome :=
| OApproved
| ORejected
| AlreadyDecided
| NotFound
| RoleMismatch (required : string) (provided : option string)
| StageAdvanced (completed_stage next_stage : nat) (next_required_role : option string)
| QuorumProgress (stage approvals_so_far : nat) (approvals_required : Z)
| DuplicateOperator (operator_id : string) (stage : nat)
| OExpired.

(** ** Stages *)
Inductive ApprovalWorkflowState := Pending | Approved | Rejected | Expired.
#[export] Instance workflow_state_eq_dec : EqDecision ApprovalWorkflowState.
Proof. solve_decision. Defined.

Definition is_terminal (s : ApprovalWorkflowState) : bool :=
  match s with Pending => false | _ => true end.
Definition is_approved (s : ApprovalWorkflowState) : bool :=
  match s with Approved => true | _ => false end.
Definition state_label (s : ApprovalWorkflowState) : string :=
  match s with
  | Pending => "pending" | Approved => "approved" | Rejected => "rejected" | Expired => "expired"
  end.

Record StageDecision := MkStageDecision {
  sd_approved : bool;
  sd_operator_id : option string;
  sd_approver_role : option string;
  sd_decided_at : Z
}.

Record ApprovalStage := MkStage {
  sg_index : nat;
  sg_allowed_roles : list string;
  sg_min_approvals : Z;
  sg_decisions : list StageDecision
}.

Definition default_min_approvals : Z := 1.

Definition approval_count (s : ApprovalStage) : nat :=
  length (List.filter sd_approved (sg_decisions s)).
Definition quorum_met (s : ApprovalStage) : bool :=
  sg_min_approvals s <=? Z.of_nat (approval_count s).
Definition has_rejection (s : ApprovalStage) : bool :=
  existsb (λ d, negb (sd_approved d)) (sg_decisions s).
Definition is_pending (s : ApprovalStage) : bool := negb (quorum_met s) && negb (has_rejection s).
Definition has_operator_voted (operator_id : string) (s : ApprovalStage) : bool :=
  existsb (λ d, bool_decide (sd_operator_id d = Some operator_id)) (sg_decisions s).

(** ** Workflows *)
Record ApprovalWorkflow := MkWorkflow {
  wf_request_id : Uuid;
  wf_session_id : Uuid;
  wf_state : ApprovalWorkflowState;
  wf_stages : list ApprovalStage;
  wf_created_at : Z;
  wf_updated_at : Z;
  wf_expires_at : option Z
}.

Definition new_workflow (now : Z) (request_id session_id : Uuid) (stages : list ApprovalStage) :
    ApprovalWorkflow := MkWorkflow request_id session_id Pending stages now now None.

Definition single_stage (now : Z) (request_id session_id : Uuid) (required_role : option string) :
    ApprovalWorkflow :=
  let allowed_roles := match required_role with Some r => [r] | None => [] end in
  new_workflow now request_id session_id [MkStage 0 allowed_roles 1 []].

(** The calendar of the crate chrono: an instant so many seconds later, or a panic. *)
Class Calendar := add_seconds : Z → Z → option Z.

Definition with_lease_seconds `{Calendar} (now seconds : Z) (w : ApprovalWorkflow) :
    option ApprovalWorkflow :=
  if 0 <? seconds then
    t ← add_seconds now (as_i64 seconds);
    Some (MkWorkflow (wf_request_id w) (wf_session_id w) (wf_state w) (wf_stages w)
            (wf_created_at w) (wf_updated_at w) (Some t))
  else Some w.

Definition is_expired (now : Z) (w : ApprovalWorkflow) : bool :=
  match wf_expires_at w with Some exp => exp <? now | None => false end.

Definition current_stage (w : ApprovalWorkflow) : option ApprovalStage :=
  List.find is_pending (wf_stages w).

(** The position of the first pending stage, and the stage. *)
Fixpoint pending_from (i : nat) (stages : list ApprovalStage) : option (nat * ApprovalStage) :=
  match stages with
  | [] => None
  | s :: stages => if is_pending s then Some (i, s) else pending_from (S i) stages
  end.

Definition push_decision (d : StageDecision) (s : ApprovalStage) : ApprovalStage :=
  MkStage (sg_index s) (sg_allowed_roles s) (sg_min_approvals s) (sg_decisions s ++ [d]).

Definition apply_decision (now : Z) (decision : StageDecision) (w : ApprovalWorkflow) :
    bool * ApprovalWorkflow :=
  if is_terminal (wf_state w) then (false, w) else
  match pending_from 0 (wf_stages w) with
  | None => (false, w)
  | Some (stage_idx, stage) =>
      let stage := push_decision decision stage in
      let stages := <[stage_idx := stage]> (wf_stages w) in
      let state :=
        if negb (sd_approved decision) then Rejected
        else if quorum_met stage then
          if forallb quorum_met stages then Approved else wf_state w
        else wf_state w in
      (true, MkWorkflow (wf_request_id w) (wf_session_id w) state stages (wf_created_at w) now
               (wf_expires_at w))
  end.

Definition expire (now : Z) (w : ApprovalWorkflow) : bool * ApprovalWorkflow :=
  if bool_decide (wf_state w = Pending) then
    (true, MkWorkflow (wf_request_id w) (wf_session_id w) Expired (wf_stages w) (wf_created_at w)
             now (wf_expires_at w))
  else (false, w).

(** ** The workflow of a verdict *)
Definition stage_of_chain (i : nat) (cs : PolicyEngine.ApprovalChainStage) : ApprovalStage :=
  MkStage i [PolicyEngine.as_role cs] (PolicyEngine.as_min_approvals cs) [].
Definition stages_of_chain (chain : list PolicyEngine.ApprovalChainStage) : list ApprovalStage :=
  imap stage_of_chain chain.

Definition workflow_of_verdict `{Calendar} (now lease_now : Z) (request_id session_id : Uuid)
    (policy_verdict : PolicyVerdict) (approval_lease_seconds : Z) : option ApprovalWorkflow :=
  let '(required_approver_role, approval_chain) :=
    match policy_verdict with
    | PolicyEngine.RequiresHumanApproval _ _ role chain => (role, chain)
    | _ => (None, None)
    end in
  with_lease_seconds lease_now approval_lease_seconds
    (match approval_chain with
     | Some chain => new_workflow now request_id session_id (stages_of_chain chain)
     | None => single_stage now request_id session_id required_approver_role
     end).

(** On recovery the lease is not set again. *)
Definition recovered_workflow (now : Z) (request_id : Uuid) (approval : ApprovalRequest)
    (verdict : PolicyVerdict) : ApprovalWorkflow :=
  match verdict with
  | PolicyEngine.RequiresHumanApproval _ _ _ (Some chain) =>
      new_workflow now request_id (rq_session_id approval) (stages_of_chain chain)
  | _ => single_stage now request_id (rq_session_id approval) (rq_required_approver_role approval)
  end.
