(* ===== verification/ApprovalStore.v ===== *)
(** * The approval store

    approval_store.rs, approval_audit.rs, approval_routing.rs and the handler of
    daemon.rs that joins them: one operator's decision is applied to the workflow,
    audited, announced and routed to the signing tasks that wait.  A call is one
    step; the concurrent maps are finite maps. *)
From S2P Require Import Prelude WatcherBase RustText RuleStore Approval.
From S2P Require PolicyEngine.
#[local] Open Scope string_scope.
#[local] Open Scope Z_scope.

Record ApprovalStore := MkStore {
  st_pending : gmap Uuid ApprovalRequest;
  st_workflows : gmap Uuid ApprovalWorkflow
}.
Definition new_store : ApprovalStore := MkStore ∅ ∅.

Definition register (request : ApprovalRequest) (workflow : ApprovalWorkflow)
    (s : ApprovalStore) : Uuid * ApprovalStore :=
  let id := rq_id request in
  (id, MkStore (<[id := request]> (st_pending s)) (<[id := workflow]> (st_workflows s))).

Definition get (request_id : Uuid) (s : ApprovalStore) : option ApprovalRequest :=
  st_pending s !! request_id.
Definition get_workflow (request_id : Uuid) (s : ApprovalStore) : option ApprovalWorkflow :=
  st_workflows s !! request_id.
Definition session_for_request (request_id : Uuid) (s : ApprovalStore) : option Uuid :=
  r ← st_pending s !! request_id;
  if rq_decided r then None else Some (rq_session_id r).
Definition pending_count (s : ApprovalStore) : nat := size (st_pending s).

(** ** Listings: the maps' own order, then a stable sort *)
Class MapOrder := iter : gmap Uuid ApprovalRequest → list ApprovalRequest.
Class MapOrderLaws `{MapOrder} : Prop := iter_perm m : iter m ≡ₚ (map_to_list m).*2.

Fixpoint insert_by_time {A} (time : A → Z) (x : A) (l : list A) : list A :=
  match l with
  | [] => [x]
  | y :: l' => if time x <=? time y then x :: l else y :: insert_by_time time x l'
  end.
Definition sort_by_time {A} (time : A → Z) (l : list A) : list A :=
  foldr (insert_by_time time) [] l.

Definition pending_for_session `{MapOrder} (session_id : Uuid) (s : ApprovalStore) :
    list ApprovalRequest :=
  sort_by_time rq_requested_at
    (List.filter (λ r, bool_decide (rq_session_id r = session_id) && negb (rq_decided r))
       (iter (st_pending s))).

Definition all_pending_with_workflow `{MapOrder} (s : ApprovalStore) :
    list (ApprovalRequest * ApprovalWorkflow) :=
  sort_by_time (λ x, rq_requested_at x.1)
    (omap (λ r, if rq_decided r then None else
                wf ← st_workflows s !! rq_id r; Some (r, wf)) (iter (st_pending s))).

(** ** A decision *)
Definition mark_decided (r : ApprovalRequest) : ApprovalRequest :=
  MkRequest (rq_id r) (rq_session_id r) (rq_transaction_id r) (rq_description r)
    (rq_policy_verdict r) (rq_simulation r) (rq_requested_at r) true
    (rq_required_approver_role r).

(** The request is marked and removed. *)
Definition take_request (id : Uuid) (s : ApprovalStore) : option ApprovalRequest * ApprovalStore :=
  (mark_decided <$> st_pending s !! id, MkStore (delete id (st_pending s)) (st_workflows s)).
Definition put_workflow (id : Uuid) (w : ApprovalWorkflow) (s : ApprovalStore) : ApprovalStore :=
  MkStore (st_pending s) (<[id := w]> (st_workflows s)).

Definition role_allowed (stage : ApprovalStage) (decision : ApprovalDecision) : bool :=
  match sg_allowed_roles stage with
  | [] => true
  | roles =>
      match ad_approver_role decision with
      | Some provided => existsb (λ r, bool_decide (r = provided)) roles
      | None => false
      end
  end.

(** [.join(", ")] *)
Fixpoint join_comma (l : list string) : string :=
  match l with
  | [] => ""
  | [x] => x
  | x :: l => x +:+ ", " +:+ join_comma l
  end.

Definition decision_of (d : ApprovalDecision) : StageDecision :=
  MkStageDecision (ad_approved d) (ad_operator_id d) (ad_approver_role d) (ad_decided_at d).

(** The outcome of an applied decision; [workflow.stages[stage_index]] panics out of
    range. *)
Definition applied_outcome (id : Uuid) (stage_index : nat) (w : ApprovalWorkflow)
    (s : ApprovalStore) : option (ApprovalOutcome * option ApprovalRequest * ApprovalStore) :=
  if is_terminal (wf_state w) then
    let outcome := if bool_decide (wf_state w = Approved) then OApproved else ORejected in
    let '(request, s) := take_request id s in
    Some (outcome, request, s)
  else
    let next_pending := current_stage w in
    let next_index := match next_pending with Some st => sg_index st | None => 0%nat end in
    if (next_index =? stage_index)%nat then
      stage ← wf_stages w !! stage_index;
      Some (QuorumProgress stage_index (approval_count stage) (sg_min_approvals stage), None, s)
    else
      let next_role := st ← next_pending; head (sg_allowed_roles st) in
      Some (StageAdvanced stage_index next_index next_role, None, s).

(** [now] is what [is_expired] reads of the clock, [now'] what the update does. *)
Definition decide (now now' : Z) (decision : ApprovalDecision) (s : ApprovalStore) :
    option (ApprovalOutcome * option ApprovalRequest * ApprovalStore) :=
  let id := ad_request_id decision in
  match st_workflows s !! id with
  | None => Some (NotFound, None, s)
  | Some workflow =>
      if is_terminal (wf_state workflow) then Some (AlreadyDecided, None, s) else
      if is_expired now workflow then
        let '(_, s) := take_request id (put_workflow id (expire now' workflow).2 s) in
        Some (OExpired, None, s)
      else
        match current_stage workflow with
        | None => Some (AlreadyDecided, None, s)
        | Some stage =>
            let stage_index := sg_index stage in
            if negb (role_allowed stage decision) then
              Some (RoleMismatch (join_comma (sg_allowed_roles stage)) (ad_approver_role decision),
                    None, s)
            else
              match ad_operator_id decision with
              | Some op_id =>
                  if has_operator_voted op_id stage then
                    Some (DuplicateOperator op_id stage_index, None, s)
                  else
                    let w := (apply_decision now' (decision_of decision) workflow).2 in
                    applied_outcome id stage_index w (put_workflow id w s)
              | None =>
                  let w := (apply_decision now' (decision_of decision) workflow).2 in
                  applied_outcome id stage_index w (put_workflow id w s)
              end
        end
  end.

(** ** What follows a decision *)

(** The values of the JSON payloads. *)
Inductive PayloadValue :=
| PId (id : Uuid)
| PText (s : string)
| POptText (s : option string)
| PNumber (n : Z)
| POptNumber (n : option Z)
| PTexts (l : list string)
| PBool (b : bool).
Notation Payload := (list (string * PayloadValue)).

Inductive Severity := SevInfo | SevWarning | SevError | SevCritical.

Inductive Effect :=
| Audit (session : option Uuid) (request : Uuid) (event_type actor : string) (payload : Payload)
    (severity : Severity)
| ApprovalReceived (session request transaction : Uuid) (approved : bool)
| Alert (kind : string) (severity : Severity) (message : string) (payload : Payload)
| SignalSigning (request : Uuid) (state : ApprovalWorkflowState)
| SignalJupiterPark (request : Uuid) (state : ApprovalWorkflowState)
| SignalSolendPark (request : Uuid) (state : ApprovalWorkflowState)
| SignalWithdrawPark (request : Uuid) (state : ApprovalWorkflowState).

(** *** approval_audit.rs *)
Definition is_real_decision (outcome : ApprovalOutcome) : bool :=
  match outcome with OApproved | ORejected => true | _ => false end.

Definition progress_audit (decision : ApprovalDecision) (outcome : ApprovalOutcome) : list Effect :=
  let id := ad_request_id decision in
  let actor := default "operator" (ad_operator_id decision) in
  match outcome with
  | RoleMismatch required provided =>
      [Audit None id "approval_role_mismatch" "operator"
         [("request_id", PId id); ("required_role", PText required);
          ("provided_role", POptText provided)] SevWarning]
  | StageAdvanced completed_stage next_stage next_required_role =>
      [Audit None id "approval_stage_advanced" actor
         [("request_id", PId id); ("completed_stage", PNumber (Z.of_nat completed_stage));
          ("next_stage", PNumber (Z.of_nat next_stage));
          ("next_required_role", POptText next_required_role);
          ("operator_id", POptText (ad_operator_id decision));
          ("approver_role", POptText (ad_approver_role decision))] SevInfo]
  | QuorumProgress stage approvals_so_far approvals_required =>
      [Audit None id "approval_quorum_progress" actor
         [("request_id", PId id); ("stage", PNumber (Z.of_nat stage));
          ("approvals_so_far", PNumber (Z.of_nat approvals_so_far));
          ("approvals_required", PNumber approvals_required);
          ("operator_id", POptText (ad_operator_id decision));
          ("approver_role", POptText (ad_approver_role decision))] SevInfo]
  | OExpired =>
      [Audit None id "approval_lease_expired" actor
         [("request_id", PId id); ("operator_id", POptText (ad_operator_id decision));
          ("reason", PText "late decision arrived after lease expiry")] SevWarning]
  | _ => []
  end.

Definition emit_decide_audit (decision : ApprovalDecision) (outcome : ApprovalOutcome)
    (maybe_request : option ApprovalRequest) : list Effect :=
  let id := ad_request_id decision in
  let actor := default "operator" (ad_operator_id decision) in
  progress_audit decision outcome ++
  match is_real_decision outcome, maybe_request with
  | true, Some request =>
      let '(event_type, severity) :=
        if ad_approved decision then ("human_approved", SevInfo)
        else ("human_rejected", SevWarning) in
      [Audit (Some (rq_session_id request)) id event_type actor
         [("request_id", PId id); ("transaction_id", PId (rq_transaction_id request));
          ("approved", PBool (ad_approved decision)); ("note", POptText (ad_note decision));
          ("operator_id", POptText (ad_operator_id decision));
          ("approver_role", POptText (ad_approver_role decision))] severity]
  | _, _ => []
  end.

(** *** approval_routing.rs *)
Inductive RoutingAction := Signaled (state : ApprovalWorkflowState) | NoSignal | RouteRejected.

(** The id as it is displayed. *)
Class UuidText := uuid_text : Uuid → string.

Definition signal_all (id : Uuid) (state : ApprovalWorkflowState) : list Effect :=
  [SignalSigning id state; SignalJupiterPark id state; SignalSolendPark id state;
   SignalWithdrawPark id state].

Definition build_rejection_alert_payload (id : Uuid) (request : ApprovalRequest) : Payload :=
  [("request_id", PId id); ("session_id", PId (rq_session_id request));
   ("transaction_id", PId (rq_transaction_id request));
   ("description", PText (rq_description request));
   ("policy_verdict", PText (PolicyEngine.verdict_label (rq_policy_verdict request)));
   ("rule_name", POptText (PolicyEngine.verdict_rule_name (rq_policy_verdict request)))].

Definition route_approval_outcome `{UuidText} (outcome : ApprovalOutcome) (id : Uuid)
    (request : option ApprovalRequest) : list Effect * RoutingAction :=
  match outcome with
  | StageAdvanced _ _ _ | QuorumProgress _ _ _ => ([], NoSignal)
  | DuplicateOperator operator_id stage =>
      ([Alert "approval_duplicate_operator" SevWarning
          ("Operator '" +:+ operator_id +:+ "' duplicate vote on " +:+ uuid_text id +:+
           " stage " +:+ fmt (Z.of_nat stage))
          [("request_id", PId id); ("operator_id", PText operator_id);
           ("stage", PNumber (Z.of_nat stage))]], RouteRejected)
  | RoleMismatch required provided =>
      ([Alert "approval_role_mismatch" SevWarning
          ("Role mismatch on " +:+ uuid_text id +:+ ": required '" +:+ required +:+
           "', got '" +:+ default "none" provided +:+ "'")
          [("request_id", PId id); ("required_role", PText required);
           ("provided_role", POptText provided)]], RouteRejected)
  | AlreadyDecided | NotFound => ([], RouteRejected)
  | OExpired => (signal_all id Expired, Signaled Expired)
  | OApproved => (signal_all id Approved, Signaled Approved)
  | ORejected =>
      ((match request with
       | Some req =>
           [Alert "approval_rejected" SevWarning
              ("Transaction " +:+ uuid_text (rq_transaction_id req) +:+ " rejected by operator")
              (build_rejection_alert_payload id req)]
       | None => []
       end ++ signal_all id Rejected)%list, Signaled Rejected)
  end.

(** *** The handler of daemon.rs *)
Definition decide_inner `{UuidText} (now now' : Z) (decision : ApprovalDecision)
    (s : ApprovalStore) :
    option (ApprovalOutcome * option ApprovalRequest * ApprovalStore * list Effect) :=
  '(outcome, maybe_request, s) ← decide now now' decision s;
  let audit := emit_decide_audit decision outcome maybe_request in
  let events :=
    match is_real_decision outcome, maybe_request with
    | true, Some request =>
        [ApprovalReceived (rq_session_id request) (rq_id request) (rq_transaction_id request)
           (ad_approved decision)]
    | _, _ => []
    end in
  let '(signals, _) := route_approval_outcome outcome (ad_request_id decision) maybe_request in
  Some (outcome, maybe_request, s, audit ++ events ++ signals)%list.
