(* ===== verification/ApprovalFacts.v ===== *)
(** * What holds of human approvals

    A signing task is told to go on only after every stage of the policy's chain had
    its quorum, of decisions by allowed roles and distinct operators; it is told
    once.  Concrete runs of the store come last. *)
From S2P Require Import Prelude WatcherBase RuleStore RustText Approval ApprovalStore.
From S2P Require PolicyEngine.
#[local] Open Scope string_scope.
#[local] Open Scope Z_scope.

(** ** Stages *)

(** A decision that a stage may record. *)
Definition by_allowed_role (s : ApprovalStage) (d : StageDecision) : Prop :=
  sg_allowed_roles s = [] ∨ ∃ r, sd_approver_role d = Some r ∧ r ∈ sg_allowed_roles s.

Record stage_ok (s : ApprovalStage) : Prop := {
  so_roles d : d ∈ sg_decisions s → by_allowed_role s d;
  so_operators : NoDup (omap sd_operator_id (sg_decisions s));
  so_count : Z.of_nat (approval_count s) ≤ Z.max 0 (sg_min_approvals s)
}.

Definition same_stage (a b : ApprovalStage) : Prop :=
  sg_index a = sg_index b ∧ sg_allowed_roles a = sg_allowed_roles b ∧
  sg_min_approvals a = sg_min_approvals b.

(** What a stage still needs. *)
Definition missing (s : ApprovalStage) : Z :=
  Z.max 0 (sg_min_approvals s - Z.of_nat (approval_count s)).

Lemma count_push d s : approval_count (push_decision d s) =
  (approval_count s + if sd_approved d then 1 else 0)%nat.
Proof.
  unfold approval_count. cbn [sg_decisions push_decision].
  rewrite List.filter_app, length_app. cbn [List.filter]. by destruct (sd_approved d).
Qed.

Lemma has_rejection_push d s :
  has_rejection (push_decision d s) = has_rejection s || negb (sd_approved d).
Proof.
  unfold has_rejection. cbn [sg_decisions push_decision]. rewrite existsb_app. cbn [existsb].
  by rewrite orb_false_r.
Qed.

Lemma has_operator_voted_spec op s :
  has_operator_voted op s = true ↔ op ∈ omap sd_operator_id (sg_decisions s).
Proof.
  unfold has_operator_voted. rewrite existsb_exists, list_elem_of_omap.
  split; intros (d & Hd & Ho); exists d; [apply list_elem_of_In in Hd|apply list_elem_of_In in Hd];
    by rewrite ?bool_decide_eq_true in *.
Qed.

Lemma stage_ok_push d s : stage_ok s → is_pending s = true → by_allowed_role s d →
  (∀ op, sd_operator_id d = Some op → has_operator_voted op s = false) →
  stage_ok (push_decision d s).
Proof.
  intros [Hr Ho Hc] Hp Hrole Hop. apply andb_true_iff in Hp as [Hq _]. apply negb_true_iff, Z.leb_gt in Hq.
  split.
  - cbn [sg_decisions push_decision]. intros d' [Hd'|Hd']%elem_of_app; [by apply Hr|].
    apply list_elem_of_singleton in Hd' as ->. done.
  - cbn [sg_decisions push_decision]. rewrite omap_app. apply NoDup_app. split_and!; [done| |].
    + intros op Hin Hop'. cbn in Hop'. destruct (sd_operator_id d) as [op'|] eqn:Hd;
        [|by apply not_elem_of_nil in Hop'].
      apply list_elem_of_singleton in Hop' as ->. apply has_operator_voted_spec in Hin.
      by rewrite (Hop _ eq_refl) in Hin.
    + cbn. destruct (sd_operator_id d); [apply NoDup_singleton|apply NoDup_nil_2].
  - rewrite count_push. cbn [push_decision sg_min_approvals]. destruct (sd_approved d); lia.
Qed.

(** ** Workflows *)
Record workflow_ok (w : ApprovalWorkflow) : Prop := {
  wo_index i s : wf_stages w !! i = Some s → sg_index s = i;
  wo_stages s : s ∈ wf_stages w → stage_ok s;
  wo_open : wf_state w = Pending → Forall (λ s, has_rejection s = false) (wf_stages w);
  wo_approved : wf_state w = Approved →
    Forall (λ s, quorum_met s = true ∧ has_rejection s = false) (wf_stages w);
  wo_order i j si sj : (i < j)%nat → wf_stages w !! i = Some si → wf_stages w !! j = Some sj →
    sg_decisions sj ≠ [] → quorum_met si = true
}.

(** A workflow as it is registered. *)
Definition fresh (w : ApprovalWorkflow) : Prop :=
  wf_state w = Pending ∧
  ∀ i s, wf_stages w !! i = Some s → sg_index s = i ∧ sg_decisions s = [].

Definition same_workflow (a b : ApprovalWorkflow) : Prop :=
  wf_expires_at a = wf_expires_at b ∧ Forall2 same_stage (wf_stages a) (wf_stages b).

Lemma fresh_ok w : fresh w → workflow_ok w.
Proof.
  intros [Hst Hs]. split.
  - intros i s Hi. by apply Hs in Hi as [? _].
  - intros s Hin. apply list_elem_of_lookup in Hin as [i [_ Hd]%Hs].
    unfold approval_count. split; rewrite ?Hd; [by intros ? ?%not_elem_of_nil|apply NoDup_nil_2|].
    unfold approval_count. rewrite Hd. cbn. lia.
  - intros _. apply Forall_lookup. intros i s [_ Hd]%Hs. unfold has_rejection. by rewrite Hd.
  - by rewrite Hst.
  - intros i j si sj _ _ [_ Hd]%Hs Hne. by rewrite Hd in Hne.
Qed.

(** *** The current stage *)
Lemma pending_from_spec k stages : 
  match pending_from k stages with
  | Some (i, s) => ∃ j, i = (k + j)%nat ∧ stages !! j = Some s ∧ is_pending s = true ∧
      ∀ j' s', (j' < j)%nat → stages !! j' = Some s' → is_pending s' = false
  | None => Forall (λ s, is_pending s = false) stages
  end.
Proof.
  revert k. induction stages as [|s stages IH]; intros k; cbn [pending_from]; [done|].
  destruct (is_pending s) eqn:Hs.
  - exists 0%nat. split_and!; [lia|done|done|]. intros j' s' Hj'. lia.
  - specialize (IH (S k)). destruct (pending_from (S k) stages) as [[i s1]|].
    + destruct IH as (j & -> & Hl & Hp & Hb). exists (S j). split_and!; [lia|done|done|].
      intros [|j'] s' Hj' Hs'; [by injection Hs' as <-|]. by apply (Hb j'); [lia|].
    + by constructor.
Qed.

Lemma current_stage_from stages k :
  List.find is_pending stages = snd <$> pending_from k stages.
Proof.
  revert k. induction stages as [|s stages IH]; intros k; [done|]. cbn. 
  destruct (is_pending s); [done|]. apply IH.
Qed.

(** The current stage of an open workflow: everything before it has its quorum. *)
Lemma current_stage_spec w s : workflow_ok w → wf_state w = Pending → current_stage w = Some s →
  wf_stages w !! sg_index s = Some s ∧ is_pending s = true ∧
  pending_from 0 (wf_stages w) = Some (sg_index s, s) ∧
  ∀ i s', (i < sg_index s)%nat → wf_stages w !! i = Some s' → quorum_met s' = true.
Proof.
  intros Hok Hopen Hs. unfold current_stage in Hs. rewrite (current_stage_from _ 0) in Hs.
  pose proof (pending_from_spec 0 (wf_stages w)) as Hp.
  destruct (pending_from 0 (wf_stages w)) as [[i s']|]; [|done]. injection Hs as ->.
  destruct Hp as (j & -> & Hl & Hp & Hb). pose proof (wo_index _ Hok _ _ Hl) as ->.
  split_and!; [done|done|done|]. intros i' s' Hi' Hs'. specialize (Hb i' s' Hi' Hs').
  pose proof (wo_open _ Hok Hopen) as Hr. rewrite Forall_lookup in Hr. specialize (Hr _ _ Hs').
  unfold is_pending in Hb. rewrite Hr in Hb. cbn in Hb. rewrite andb_true_r in Hb.
  by apply negb_false_iff.
Qed.

(** *** Applying a decision *)
Section apply.
Context (w : ApprovalWorkflow) (s : ApprovalStage) (d : StageDecision) (now : Z).
Hypothesis Hok : workflow_ok w.
Hypothesis Hopen : wf_state w = Pending.
Hypothesis Hcur : current_stage w = Some s.
Hypothesis Hrole : by_allowed_role s d.
Hypothesis Hop : ∀ op, sd_operator_id d = Some op → has_operator_voted op s = false.
Let k : nat := sg_index s.
Let stages : list ApprovalStage := <[k := push_decision d s]> (wf_stages w).

Lemma apply_eq : apply_decision now d w =
  (true, MkWorkflow (wf_request_id w) (wf_session_id w)
     (if negb (sd_approved d) then Rejected
      else if quorum_met (push_decision d s) then
        if forallb quorum_met stages then Approved else Pending
      else Pending) stages (wf_created_at w) now (wf_expires_at w)).
Proof.
  destruct (current_stage_spec w s Hok Hopen Hcur) as (_ & _ & Hp & _).
  unfold apply_decision. by rewrite Hp, Hopen.
Qed.

Lemma apply_lookup i s' : stages !! i = Some s' →
  i = k ∧ s' = push_decision d s ∨ i ≠ k ∧ wf_stages w !! i = Some s'.
Proof.
  unfold stages. intros [(<- & <- & _)|(? & ?)]%list_lookup_insert_Some; [by left|by right].
Qed.

Lemma apply_ok : workflow_ok (apply_decision now d w).2.
Proof.
  destruct (current_stage_spec w s Hok Hopen Hcur) as (Hl & Hp & _ & Hb).
  rewrite apply_eq. cbn [snd]. pose proof (wo_open _ Hok Hopen) as Hr. rewrite Forall_lookup in Hr.
  assert (sd_approved d = true → Forall (λ s, has_rejection s = false) stages) as Hr'.
  { intros Ha. apply Forall_lookup. intros i s' [[-> ->]|[_ Hi]]%apply_lookup; [|by eapply Hr].
    rewrite has_rejection_push, Ha. cbn. rewrite orb_false_r. by eapply Hr. }
  split; cbn [wf_stages wf_state].
  - intros i s' [[-> ->]|[_ Hi]]%apply_lookup; [done|by eapply wo_index].
  - intros s' Hin. apply list_elem_of_lookup in Hin as [i [[-> ->]|[_ Hi]]%apply_lookup].
    + apply stage_ok_push; try done. by eapply (wo_stages _ Hok), list_elem_of_lookup_2.
    + by eapply (wo_stages _ Hok), list_elem_of_lookup_2.
  - destruct (sd_approved d); cbn [negb]; [by auto|done].
  - destruct (sd_approved d); cbn [negb]; [|done]. destruct (quorum_met _); [|done].
    destruct (forallb quorum_met stages) eqn:Hall; [|done]. intros _. specialize (Hr' eq_refl).
    rewrite forallb_forall in Hall. rewrite Forall_forall in *. intros s' Hs'. split; [|by auto].
    by apply Hall, list_elem_of_In.
  - intros i j si sj Hij Hi Hj Hne.
    assert (∀ i' si', (i' < k)%nat → stages !! i' = Some si' → quorum_met si' = true) as Hb'.
    { intros i' si' Hlt [[-> ->]|[_ Hi']]%apply_lookup; [lia|]. by eapply Hb. }
    apply apply_lookup in Hj as [[-> ->]|[Hjk Hj]]; [by eapply Hb'|].
    apply apply_lookup in Hi as [[-> ->]|[_ Hi]]; [|by eapply wo_order].
    exfalso. assert (quorum_met s = true) as Hq by by eapply (wo_order _ Hok k j).
    unfold is_pending in Hp. by rewrite Hq in Hp.
Qed.

Lemma apply_same : same_workflow w (apply_decision now d w).2.
Proof.
  destruct (current_stage_spec w s Hok Hopen Hcur) as (Hl & _).
  rewrite apply_eq. split; [done|]. cbn [snd wf_stages]. unfold stages.
  rewrite <- (list_insert_id (wf_stages w) k s) at 1 by done.
  apply Forall2_insert; [|done]. by apply Forall_Forall2_diag, Forall_true.
Qed.
End apply.

Lemma apply_decisions w d now s v : s ∈ wf_stages (apply_decision now d w).2 → v ∈ sg_decisions s →
  v = d ∨ ∃ s', s' ∈ wf_stages w ∧ v ∈ sg_decisions s'.
Proof.
  unfold apply_decision. destruct (is_terminal _); [by eauto|].
  pose proof (pending_from_spec 0 (wf_stages w)) as Hp.
  destruct (pending_from 0 (wf_stages w)) as [[i s0]|]; [|by eauto]. cbn [snd wf_stages].
  destruct Hp as (j & -> & Hl & _). intros Hin Hv. apply list_elem_of_lookup in Hin as [k Hk].
  apply list_lookup_insert_Some in Hk as [(_ & <- & _)|(_ & Hk)].
  - cbn [sg_decisions push_decision] in Hv. apply elem_of_app in Hv as [Hv|Hv].
    + right. exists s0. split; [by eapply list_elem_of_lookup_2|done].
    + left. by apply list_elem_of_singleton in Hv.
  - right. exists s. split; [by eapply list_elem_of_lookup_2|done].
Qed.

(** ** One decision *)
Definition is_final (o : ApprovalOutcome) : bool :=
  match o with OApproved | ORejected | OExpired => true | _ => false end.

(** The outcome reported for the state a workflow is left in. *)
Definition reports (o : ApprovalOutcome) (w : ApprovalWorkflow) : Prop :=
  match wf_state w with
  | Approved => o = OApproved
  | Rejected => o = ORejected
  | Pending => is_final o = false
  | Expired => False
  end.

(** What a call does: nothing; or the lease has run out; or the decision is recorded
    in the current stage. *)
Inductive decided (now now' : Z) (d : ApprovalDecision) (s : ApprovalStore) :
    ApprovalOutcome → ApprovalStore → Prop :=
| de_nothing o : is_final o = false → decided now now' d s o s
| de_expired w s' :
    st_workflows s !! ad_request_id d = Some w → wf_state w = Pending → is_expired now w = true →
    st_workflows s' = <[ad_request_id d := (expire now' w).2]> (st_workflows s) →
    decided now now' d s OExpired s'
| de_applied w stage o s' :
    st_workflows s !! ad_request_id d = Some w → wf_state w = Pending → is_expired now w = false →
    current_stage w = Some stage → by_allowed_role stage (decision_of d) →
    (∀ op, ad_operator_id d = Some op → has_operator_voted op stage = false) →
    st_workflows s' =
      <[ad_request_id d := (apply_decision now' (decision_of d) w).2]> (st_workflows s) →
    reports o (apply_decision now' (decision_of d) w).2 →
    decided now now' d s o s'.

Lemma role_allowed_spec stage d : role_allowed stage d = true → by_allowed_role stage (decision_of d).
Proof.
  unfold role_allowed, by_allowed_role. destruct (sg_allowed_roles stage) as [|r rs]; [by left|].
  cbn [decision_of sd_approver_role]. destruct (ad_approver_role d) as [p|]; [|done].
  rewrite existsb_exists. intros (r' & Hr & <-%bool_decide_eq_true). right. exists r'.
  split; [done|by apply list_elem_of_In].
Qed.

(** A stage index is a position, so the slice of stages never panics. *)
Lemma applied_outcome_spec id stage_index w s :
  workflow_ok w → wf_state w ≠ Expired →
  (wf_state w = Pending → ∃ st, wf_stages w !! stage_index = Some st) →
  ∃ o r s', applied_outcome id stage_index w s = Some (o, r, s') ∧ reports o w ∧
    st_workflows s' = st_workflows s.
Proof.
  intros Hok Hne Hl. unfold applied_outcome, reports.
  destruct (wf_state w) eqn:Hst; cbn [is_terminal]; [|by eexists _, _, _..|done].
  destruct (Hl eq_refl) as [st Hst']. case_match; [|by eexists _, _, _].
  rewrite Hst'. by eexists _, _, _.
Qed.

Lemma decide_spec now now' d s :
  (∀ w, st_workflows s !! ad_request_id d = Some w → workflow_ok w) →
  ∃ o r s', decide now now' d s = Some (o, r, s') ∧ decided now now' d s o s'.
Proof.
  intros Hall. unfold decide. destruct (st_workflows s !! ad_request_id d) as [w|] eqn:Hw.
  2: by eexists _, _, _; split; [done|by constructor].
  specialize (Hall w eq_refl). destruct (is_terminal (wf_state w)) eqn:Hterm.
  { by eexists _, _, _; split; [done|by constructor]. }
  assert (wf_state w = Pending) as Hopen by by destruct (wf_state w).
  destruct (is_expired now w) eqn:Hexp.
  { eexists _, _, _. split; [done|]. by eapply de_expired. }
  destruct (current_stage w) as [stage|] eqn:Hcur.
  2: by eexists _, _, _; split; [done|by constructor].
  destruct (role_allowed stage d) eqn:Hrole; cbn [negb].
  2: by eexists _, _, _; split; [done|by constructor].
  apply role_allowed_spec in Hrole.
  assert ((∀ op, ad_operator_id d = Some op → has_operator_voted op stage = false) →
    ∃ o r s', applied_outcome (ad_request_id d) (sg_index stage)
      (apply_decision now' (decision_of d) w).2
      (put_workflow (ad_request_id d) (apply_decision now' (decision_of d) w).2 s) =
      Some (o, r, s') ∧ decided now now' d s o s') as Happly.
  { intros Hop. destruct (applied_outcome_spec (ad_request_id d) (sg_index stage)
      (apply_decision now' (decision_of d) w).2
      (put_workflow (ad_request_id d) (apply_decision now' (decision_of d) w).2 s))
      as (o & r & s' & He & Hr & Hs).
    - by eapply apply_ok.
    - rewrite (apply_eq w stage _ _ Hall Hopen Hcur). cbn. by repeat case_match.
    - intros _. rewrite (apply_eq w stage _ _ Hall Hopen Hcur). cbn.
      destruct (current_stage_spec w stage Hall Hopen Hcur) as (Hl & _).
      rewrite list_lookup_insert_eq by by eapply lookup_lt_Some. by eexists.
    - exists o, r, s'. split; [exact He|]. by eapply de_applied. }
  destruct (ad_operator_id d) as [op|]; [|by apply Happly].
  destruct (has_operator_voted op stage) eqn:Hvoted.
  { by eexists _, _, _; split; [done|by constructor]. }
  apply Happly. by intros ? [= <-].
Qed.

(** *** What is signalled *)
Definition signal_state (o : ApprovalOutcome) : option ApprovalWorkflowState :=
  match o with
  | OApproved => Some Approved | ORejected => Some Rejected | OExpired => Some Expired
  | _ => None
  end.

Definition is_signal (x : Effect) : bool :=
  match x with SignalSigning _ _ => true | _ => false end.

Lemma audit_no_signal d o r x : x ∈ emit_decide_audit d o r → is_signal x = false.
Proof.
  unfold emit_decide_audit. intros [Hx|Hx]%elem_of_app.
  - destruct o; cbn in Hx; try (by apply not_elem_of_nil in Hx);
      by apply list_elem_of_singleton in Hx as ->.
  - destruct (is_real_decision o), r, (ad_approved d); cbn in Hx;
      try (by apply not_elem_of_nil in Hx); by apply list_elem_of_singleton in Hx as ->.
Qed.

Lemma route_signals `{UuidText} o id r id' st :
  SignalSigning id' st ∈ (route_approval_outcome o id r).1 ↔ id' = id ∧ signal_state o = Some st.
Proof.
  split.
  - destruct o, r; cbn; intros Hin;
      repeat (apply elem_of_cons in Hin as [Hin|Hin]; [first [discriminate Hin|by injection Hin as -> ->]|]);
      by apply not_elem_of_nil in Hin.
  - intros [-> Ho]. destruct o, r; try discriminate Ho; injection Ho as <-; cbn; set_solver.
Qed.

Lemma decide_inner_signals `{UuidText} now now' d s o r s' es :
  decide_inner now now' d s = Some (o, r, s', es) →
  decide now now' d s = Some (o, r, s') ∧
  ∀ id st, SignalSigning id st ∈ es ↔ id = ad_request_id d ∧ signal_state o = Some st.
Proof.
  unfold decide_inner. destruct (decide now now' d s) as [[[o' r'] s'']|]; [|done].
  cbn [mbind option_bind]. pose proof (route_signals o' (ad_request_id d) r') as Hr.
  destruct (route_approval_outcome o' (ad_request_id d) r') as [signals action].
  intros [= <- <- <- <-]. split; [done|]. intros id st. rewrite <- Hr. cbn [fst].
  rewrite !elem_of_app. split; [|by auto]. intros [Ha|[He|?]]; [| |done].
  - by apply audit_no_signal in Ha.
  - exfalso. destruct (is_real_decision o'), r'; try (by apply not_elem_of_nil in He).
    by apply list_elem_of_singleton in He.
Qed.

(** ** The store over time *)
Inductive ApprovalEvent :=
| ERegister (id : Uuid) (w : ApprovalWorkflow)
| EDecide (now : Z) (d : ApprovalDecision) (effects : list Effect).

(** The workflow last registered under an id, and what happened since; newest first. *)
Fixpoint registered (id : Uuid) (l : list ApprovalEvent) : option ApprovalWorkflow :=
  match l with
  | [] => None
  | ERegister id' w :: l => if bool_decide (id' = id) then Some w else registered id l
  | _ :: l => registered id l
  end.
Fixpoint since (id : Uuid) (l : list ApprovalEvent) : list ApprovalEvent :=
  match l with
  | [] => []
  | ERegister id' w :: l =>
      if bool_decide (id' = id) then [] else ERegister id' w :: since id l
  | e :: l => e :: since id l
  end.

Section history.
Context `{UuidText}.

(** A store with the calls made on it since it was created. *)
Inductive approvals : ApprovalStore → list ApprovalEvent → Prop :=
| ap_new : approvals new_store []
| ap_register s l request w : approvals s l → fresh w →
    approvals (register request w s).2 (ERegister (rq_id request) w :: l)
| ap_decide s l now now' d o r s' es : approvals s l →
    decide_inner now now' d s = Some (o, r, s', es) → approvals s' (EDecide now d es :: l).

(** A decision that was taken on the id since its registration, before the lease
    ended. *)
Definition taken (id : Uuid) (l : list ApprovalEvent) (w : ApprovalWorkflow) (v : StageDecision) :
    Prop :=
  ∃ now d es, EDecide now d es ∈ since id l ∧ ad_request_id d = id ∧ decision_of d = v ∧
    is_expired now w = false.

Definition signalled (id : Uuid) (l : list ApprovalEvent) : Prop :=
  ∃ now d es st, EDecide now d es ∈ since id l ∧ SignalSigning id st ∈ es.

(** What a stored workflow says of the log. *)
Record story (id : Uuid) (l : list ApprovalEvent) (w : ApprovalWorkflow) : Prop := {
  sy_origin : ∃ w0, registered id l = Some w0 ∧ fresh w0 ∧ same_workflow w0 w;
  sy_ok : workflow_ok w;
  sy_taken s v : s ∈ wf_stages w → v ∈ sg_decisions s → taken id l w v;
  sy_quiet : wf_state w = Pending → ¬ signalled id l
}.

Lemma same_workflow_trans a b c : same_workflow a b → same_workflow b c → same_workflow a c.
Proof.
  intros [Hab1 Hab] [Hbc1 Hbc]. split; [congruence|]. clear Hab1 Hbc1. revert Hab Hbc.
  generalize (wf_stages a), (wf_stages b), (wf_stages c). intros la lb lc Hab. revert lc.
  induction Hab as [|x y la lb Hxy Hab IH]; intros lc Hbc; inversion Hbc; subst; constructor.
  - unfold same_stage in *. intuition congruence.
  - by apply IH.
Qed.

Lemma taken_more id l w v e : (∀ w', e ≠ ERegister id w') → taken id l w v → taken id (e :: l) w v.
Proof.
  intros He (now & d & es & Hin & ?). exists now, d, es. split; [|done].
  destruct e as [id' w'|now' d' es']; cbn [since]; [|by right].
  rewrite bool_decide_eq_false_2; [by right|]. intros ->. by eapply He.
Qed.

(** A workflow untouched by an event keeps its story. *)
Lemma story_more id l w e :
  (∀ w', e ≠ ERegister id w') →
  (∀ now d es st, e = EDecide now d es → SignalSigning id st ∈ es → wf_state w ≠ Pending) →
  story id l w → story id (e :: l) w.
Proof.
  intros He Hq [(w0 & Hreg & Hfresh & Hsame) Hok Ht Hquiet].
  assert (registered id (e :: l) = registered id l) as Hr.
  { destruct e as [id' w'|]; [|done]. cbn. rewrite bool_decide_eq_false_2; [done|].
    intros ->. by eapply He. }
  split; [exists w0; by rewrite Hr|done| |].
  - intros s v Hs Hv. apply taken_more; [done|by eapply Ht].
  - intros Hopen (now & d & es & st & Hin & Hsig). apply Hquiet; [done|].
    destruct e as [id' w'|now' d' es']; cbn [since] in Hin.
    + rewrite bool_decide_eq_false_2 in Hin by (intros ->; by eapply He).
      apply elem_of_cons in Hin as [|Hin]; [done|]. by exists now, d, es, st.
    + apply elem_of_cons in Hin as [[= -> -> ->]|Hin].
      * exfalso. by eapply Hq.
      * by exists now, d, es, st.
Qed.

Definition stories (s : ApprovalStore) (l : list ApprovalEvent) : Prop :=
  ∀ id w, st_workflows s !! id = Some w → story id l w.

Lemma stories_decided s l now now' d o s' es :
  stories s l → decided now now' d s o s' →
  (∀ id st, SignalSigning id st ∈ es ↔ id = ad_request_id d ∧ signal_state o = Some st) →
  stories s' (EDecide now d es :: l).
Proof.
  intros Hs Hd Hsig. assert (∀ id, is_final o = false → ∀ st, SignalSigning id st ∉ es) as Hno.
  { intros id Ho st [_ Hst]%Hsig. by destruct o. }
  destruct Hd as [o Ho|w s' Hw Hopen Hexp Hs'|w stage o s' Hw Hopen Hexp Hcur Hrole Hop Hs' Hrep];
    intros id w1 Hw1.
  - apply story_more; [done| |by apply Hs]. intros ? ? ? ? [= <- <- <-] Hin. exfalso. by eapply Hno.
  - rewrite Hs' in Hw1. apply lookup_insert_Some in Hw1 as [[<- <-]|[Hne Hw1]].
    2: { apply story_more; [done| |by apply Hs]. intros ? ? ? ? [= <- <- <-] [? _]%Hsig. by subst. }
    unfold expire. rewrite bool_decide_eq_true_2 by done. cbn [snd].
    pose proof (Hs _ _ Hw) as [Ho Hok Ht _]. split; cbn.
    + done.
    + by destruct Hok.
    + intros st v Hst Hv. apply taken_more; [done|]. by eapply Ht.
    + done.
  - rewrite Hs' in Hw1. apply lookup_insert_Some in Hw1 as [[<- <-]|[Hne Hw1]].
    2: { apply story_more; [done| |by apply Hs]. intros ? ? ? ? [= <- <- <-] [? _]%Hsig. by subst. }
    pose proof (Hs _ _ Hw) as Hst. pose proof (sy_ok _ _ _ Hst) as Hok.
    pose proof (apply_same w stage (decision_of d) now' Hok Hopen Hcur) as Hsame.
    destruct (sy_origin _ _ _ Hst) as (w0 & Hreg & Hfresh & Hsame0). split.
    + exists w0. split_and!; [done|done|by eapply same_workflow_trans].
    + by eapply apply_ok.
    + assert (∀ now1, is_expired now1 (apply_decision now' (decision_of d) w).2 = is_expired now1 w)
        as Hlease by (intros now1; unfold is_expired; by rewrite (proj1 Hsame)).
      intros st v Hin Hv. destruct (apply_decisions _ _ _ _ _ Hin Hv) as [->|(st' & Hin' & Hv')].
      * exists now, d, es. split_and!; [by left|done|done|by rewrite Hlease].
      * apply taken_more; [done|]. destruct (sy_taken _ _ _ Hst _ _ Hin' Hv')
          as (now1 & d1 & es1 & ? & ? & ? & ?).
        exists now1, d1, es1. by rewrite Hlease.
    + intros Hopen'. unfold reports in Hrep. rewrite Hopen' in Hrep.
      intros (now1 & d1 & es1 & st & Hin & Hs1). cbn [since] in Hin.
      apply elem_of_cons in Hin as [[= -> -> ->]|Hin]; [by eapply Hno|].
      apply (sy_quiet _ _ _ Hst Hopen). by exists now1, d1, es1, st.
Qed.

Lemma approvals_stories s l : approvals s l → stories s l.
Proof.
  induction 1 as [|s l request w _ IH Hf|s l now now' d o r s' es _ IH Hd].
  - by intros id w.
  - intros id w1 Hw1. cbn in Hw1. apply lookup_insert_Some in Hw1 as [[<- <-]|[Hne Hw1]].
    + split; cbn; rewrite ?bool_decide_eq_true_2 by done.
      * exists w. split_and!; [done|done|]. split; [done|]. by apply Forall_Forall2_diag, Forall_true.
      * by apply fresh_ok.
      * intros st v Hst Hv. destruct Hf as [_ Hf]. apply list_elem_of_lookup in Hst as [i [_ Hd]%Hf].
        rewrite Hd in Hv. by apply not_elem_of_nil in Hv.
      * intros _ (? & ? & ? & ? & Hin & _). cbn in Hin.
        rewrite bool_decide_eq_true_2 in Hin by done. by apply not_elem_of_nil in Hin.
    + apply story_more; [congruence|done|by apply IH].
  - apply decide_inner_signals in Hd as [Hd Hsig].
    destruct (decide_spec now now' d s) as (o' & r' & s'' & Hd' & Hspec).
    { intros w Hw. by apply (sy_ok _ _ _ (IH _ _ Hw)). }
    rewrite Hd' in Hd. injection Hd as -> -> ->. by eapply stories_decided.
Qed.

(** ** Properties *)

(** What a stage had when its workflow was approved. *)
Record satisfied (s : ApprovalStage) : Prop := {
  sa_quorum : sg_min_approvals s ≤ Z.of_nat (approval_count s);
  sa_no_rejection : ∀ d, d ∈ sg_decisions s → sd_approved d = true;
  sa_roles : ∀ d, d ∈ sg_decisions s → by_allowed_role s d;
  sa_operators : NoDup (omap sd_operator_id (sg_decisions s))
}.

(** The workflow of a request whose signing task is told that it is approved. *)
Lemma approved_workflow s l now d es id :
  approvals s (EDecide now d es :: l) → SignalSigning id Approved ∈ es →
  ∃ w0 w, registered id l = Some w0 ∧ st_workflows s !! id = Some w ∧ same_workflow w0 w ∧
    Forall satisfied (wf_stages w) ∧
    ∀ stage v, stage ∈ wf_stages w → v ∈ sg_decisions stage →
      taken id (EDecide now d es :: l) w v.
Proof.
  intros Ha Hin. pose proof (approvals_stories _ _ Ha) as Hst.
  inversion Ha as [| |s0 l0 now0 now' d0 o r s' es0 Ha0 Hd]; subst.
  apply decide_inner_signals in Hd as [Hd Hsig]. apply Hsig in Hin as [-> Ho].
  destruct (decide_spec now now' d s0) as (o' & r' & s'' & Hd' & Hspec).
  { intros w Hw. by apply (sy_ok _ _ _ (approvals_stories _ _ Ha0 _ _ Hw)). }
  rewrite Hd' in Hd. injection Hd as -> -> ->. assert (o = OApproved) as -> by by destruct o.
  inversion Hspec as [|w|w stage o1 s1 Hw Hopen Hexp Hcur Hrole Hop Hs' Hrep]; subst; [done|].
  set (w' := (apply_decision now' (decision_of d) w).2) in *.
  assert (st_workflows s !! ad_request_id d = Some w') as Hw' by by rewrite Hs', lookup_insert_eq.
  destruct (Hst _ _ Hw') as [(w0 & Hreg & _ & Hsame) Hok Ht _]. exists w0, w'.
  split_and!; try done. assert (wf_state w' = Approved) as Happ.
  { unfold reports in Hrep. by destruct (wf_state w'). }
  pose proof (wo_approved _ Hok Happ) as Hall. rewrite Forall_forall in *.
  intros st Hin. destruct (Hall st Hin) as [Hq Hr]. destruct (wo_stages _ Hok st Hin) as [Hroles Hops _].
  split; [by apply Z.leb_le|..|done|done].
  intros v Hv. destruct (sd_approved v) eqn:Hva; [done|].
  assert (has_rejection st = true) as Hrej; [|congruence].
  apply existsb_exists. exists v. split; [by apply list_elem_of_In|by rewrite Hva].
Qed.

(** C34: signing goes on only with a quorum.  When a parked signing task is told that its
    transaction is approved, every stage of the workflow that was registered for it
    has its minimum of approvals and no rejection, each by a role the stage allows,
    no named operator twice; and each of these decisions was made on this request
    since its registration and before its lease ended. *)
Theorem approved_signal_has_quorum s l now d es id :
  approvals s (EDecide now d es :: l) → SignalSigning id Approved ∈ es →
  ∃ w0 w, registered id l = Some w0 ∧ st_workflows s !! id = Some w ∧ same_workflow w0 w ∧
    Forall satisfied (wf_stages w) ∧
    ∀ stage v, stage ∈ wf_stages w → v ∈ sg_decisions stage →
      taken id (EDecide now d es :: l) w v.
Proof. apply approved_workflow. Qed.

(** A signing task is told once.  After a signal for a request there is no other,
    of whatever state, until a workflow is registered for it anew. *)
Theorem signalled_once s l now d es id st :
  approvals s (EDecide now d es :: l) → SignalSigning id st ∈ es → ¬ signalled id l.
Proof.
  intros Ha Hin. inversion Ha as [| |s0 l0 now0 now' d0 o r s' es0 Ha0 Hd]; subst.
  pose proof (approvals_stories _ _ Ha0) as Hst.
  apply decide_inner_signals in Hd as [Hd Hsig]. apply Hsig in Hin as [-> Ho].
  destruct (decide_spec now now' d s0) as (o' & r' & s'' & Hd' & Hspec).
  { intros w Hw. by apply (sy_ok _ _ _ (Hst _ _ Hw)). }
  rewrite Hd' in Hd. injection Hd as -> -> ->.
  inversion Hspec as [o1 Hf|w s1 Hw Hopen|w stage o1 s1 Hw Hopen]; subst.
  - by destruct o.
  - by apply (sy_quiet _ _ _ (Hst _ _ Hw)).
  - by apply (sy_quiet _ _ _ (Hst _ _ Hw)).
Qed.

(** The handler is total: on a store built from the workflows the gateway registers,
    no decision panics. *)
Lemma decide_inner_total s l now now' d : approvals s l → ∃ x, decide_inner now now' d s = Some x.
Proof.
  intros Ha. destruct (decide_spec now now' d s) as (o & r & s' & Hd & _).
  { intros w Hw. by apply (sy_ok _ _ _ (approvals_stories _ _ Ha _ _ Hw)). }
  unfold decide_inner. rewrite Hd. cbn. case_match. by eexists.
Qed.
End history.

(** ** Progress *)
Definition missing_all (l : list ApprovalStage) : Z := foldr (λ s n, missing s + n) 0 l.
Definition total_missing (w : ApprovalWorkflow) : Z := missing_all (wf_stages w).

Lemma missing_cons s l : missing_all (s :: l) = missing s + missing_all l.
Proof. done. Qed.

Lemma total_insert (l : list ApprovalStage) k s s' : l !! k = Some s →
  missing_all (<[k := s']> l) = missing_all l - missing s + missing s'.
Proof.
  revert k. induction l as [|x l IH]; intros [|k] Hk; try done.
  - injection Hk as ->. cbn [insert list_insert]. rewrite !missing_cons. lia.
  - specialize (IH k Hk). change (<[S k := s']> (x :: l)) with (x :: <[k := s']> l).
    rewrite !missing_cons, IH. lia.
Qed.

Lemma total_zero (l : list ApprovalStage) :
  missing_all l = 0 ↔ forallb quorum_met l = true.
Proof.
  assert (∀ l', 0 ≤ missing_all l') as Hpos.
  { induction l' as [|x l' IH]; [done|]. rewrite missing_cons. unfold missing. lia. }
  induction l as [|x l IH]; [done|]. rewrite missing_cons. cbn [forallb].
  rewrite andb_true_iff, <- IH.
  pose proof (Hpos l). unfold quorum_met, missing. rewrite Z.leb_le. split; [split|]; lia.
Qed.

Lemma missing_push d s : is_pending s = true → sd_approved d = true →
  missing (push_decision d s) = missing s - 1.
Proof.
  intros Hp Ha. apply andb_true_iff in Hp as [Hq _]. apply negb_true_iff, Z.leb_gt in Hq.
  unfold missing. rewrite count_push, Ha. cbn [sg_min_approvals push_decision]. lia.
Qed.

(** Approvals add up.  On a workflow that is open and within its lease, an approval
    by a role of the current stage and an operator who has not voted there takes one
    off the approvals still missing; it is the one that approves the workflow exactly
    when it was the last missing, and otherwise the workflow stays open. *)
Theorem approval_progress `{UuidText} s l w stage now now' d :
  approvals s l → st_workflows s !! ad_request_id d = Some w → wf_state w = Pending →
  is_expired now w = false → current_stage w = Some stage → role_allowed stage d = true →
  (∀ op, ad_operator_id d = Some op → has_operator_voted op stage = false) →
  ad_approved d = true →
  ∃ o r s' es w', decide_inner now now' d s = Some (o, r, s', es) ∧
    st_workflows s' !! ad_request_id d = Some w' ∧ total_missing w' = total_missing w - 1 ∧
    (o = OApproved ↔ total_missing w = 1) ∧ (is_final o = true ↔ total_missing w = 1).
Proof.
  intros Ha Hw Hopen Hexp Hcur Hrole Hop Happ.
  pose proof (sy_ok _ _ _ (approvals_stories _ _ Ha _ _ Hw)) as Hok.
  pose proof (role_allowed_spec _ _ Hrole) as Hrole'.
  destruct (current_stage_spec w stage Hok Hopen Hcur) as (Hl & Hp & _).
  set (w' := (apply_decision now' (decision_of d) w).2).
  assert (∃ o r s', decide now now' d s = Some (o, r, s') ∧ reports o w' ∧
    st_workflows s' = <[ad_request_id d := w']> (st_workflows s)) as (o & r & s' & Hd & Hr & Hs').
  { unfold decide. rewrite Hw, Hopen, Hexp, Hcur, Hrole. cbn [is_terminal negb].
    assert (workflow_ok w') as Hok' by (by eapply apply_ok).
    destruct (applied_outcome_spec (ad_request_id d) (sg_index stage) w'
      (put_workflow (ad_request_id d) w' s) Hok') as (o & r & s' & He & Hr & Hs).
    - unfold w'. rewrite (apply_eq w stage _ _ Hok Hopen Hcur). cbn. by repeat case_match.
    - intros _. unfold w'. rewrite (apply_eq w stage _ _ Hok Hopen Hcur). cbn.
      rewrite list_lookup_insert_eq by (by eapply lookup_lt_Some). by eexists.
    - exists o, r, s'. split_and!; [|done|by rewrite Hs].
      destruct (ad_operator_id d) as [op|]; [|exact He]. by rewrite (Hop op). }
  unfold decide_inner. rewrite Hd. cbn [mbind option_bind].
  destruct (route_approval_outcome o (ad_request_id d) r) as [signals action].
  assert (total_missing w' = total_missing w - 1) as Htotal.
  { unfold total_missing, w'. rewrite (apply_eq w stage _ _ Hok Hopen Hcur). cbn [snd wf_stages].
    rewrite (total_insert _ _ _ _ Hl), (missing_push _ _ Hp) by done. lia. }
  eexists o, r, s', _, w'. split; [done|]. split; [by rewrite Hs', lookup_insert_eq|].
  split; [done|].
  assert (wf_state w' = if bool_decide (total_missing w = 1) then Approved else Pending) as Hstate.
  { assert (total_missing w = 1 ↔ forallb quorum_met (wf_stages w') = true) as Hz.
    { rewrite <- total_zero. fold (total_missing w'). lia. }
    revert Hz. unfold w'. rewrite (apply_eq w stage _ _ Hok Hopen Hcur).
    cbn [snd wf_stages wf_state decision_of sd_approved]. rewrite Happ. cbn [negb]. intros Hz.
    case_bool_decide as Hone.
    - apply Hz in Hone as Hall. rewrite Hall. rewrite forallb_forall in Hall.
      rewrite Hall; [done|]. apply list_elem_of_In. eapply list_elem_of_lookup_2.
      by eapply list_lookup_insert_eq, lookup_lt_Some.
    - destruct (quorum_met _); [|done]. destruct (forallb _ _); [|done]. by destruct Hone; apply Hz. }
  unfold reports in Hr. rewrite Hstate in Hr. case_bool_decide as Hone; subst; [done|].
  split; split; intros Ho; try done; by destruct o.
Qed.

(** ** Where workflows come from *)
Lemma chain_fresh now id session chain :
  fresh (new_workflow now id session (stages_of_chain chain)).
Proof.
  split; [done|]. intros i s Hi. cbn [wf_stages new_workflow] in Hi. unfold stages_of_chain in Hi.
  rewrite list_lookup_imap in Hi. by destruct (chain !! i); [injection Hi as <-|].
Qed.
Lemma single_fresh now id session role : fresh (single_stage now id session role).
Proof. split; [done|]. intros [|i] s Hi; [|done]. by injection Hi as <-. Qed.

(** The workflow of every verdict may be registered, and so may a recovered one. *)
Lemma verdict_fresh `{Calendar} now lease_now id session v lease w :
  workflow_of_verdict now lease_now id session v lease = Some w → fresh w.
Proof.
  unfold workflow_of_verdict, with_lease_seconds. intros Hw.
  assert (∀ w0 t, fresh w0 → fresh (MkWorkflow (wf_request_id w0) (wf_session_id w0) (wf_state w0)
    (wf_stages w0) (wf_created_at w0) (wf_updated_at w0) (Some t))) as Hlease by done.
  assert (∀ w0, fresh w0 → (if 0 <? lease then
      t ← add_seconds lease_now (as_i64 lease);
      Some (MkWorkflow (wf_request_id w0) (wf_session_id w0) (wf_state w0) (wf_stages w0)
        (wf_created_at w0) (wf_updated_at w0) (Some t)) else Some w0) = Some w → fresh w) as Hall.
  { intros w0 Hf. destruct (0 <? lease); [|by intros [= <-]].
    destruct (add_seconds _ _) as [t|]; [|done]. intros [= <-]. by apply Hlease. }
  destruct v as [|? ? role [chain|]| | |]; cbn in Hw; eapply Hall; try exact Hw;
    first [apply chain_fresh|apply single_fresh].
Qed.
Lemma recovered_fresh now id approval v : fresh (recovered_workflow now id approval v).
Proof.
  destruct v as [|? ? ? [chain|]| | |]; first [apply chain_fresh|apply single_fresh].
Qed.

(** ** What is left to the operators *)

(** A workflow none of whose stages is pending while it is open, such as one for an
    empty chain or for stages that ask for no approvals, is never decided: every
    decision within the lease is answered [AlreadyDecided] and changes nothing. *)
Lemma undecidable_workflow now now' d s w :
  st_workflows s !! ad_request_id d = Some w → Forall (λ st, sg_min_approvals st ≤ 0) (wf_stages w) →
  is_expired now w = false → decide now now' d s = Some (AlreadyDecided, None, s).
Proof.
  intros Hw Hz Hexp. unfold decide. rewrite Hw, Hexp. destruct (is_terminal _); [done|].
  assert (current_stage w = None) as ->; [|done]. unfold current_stage.
  induction Hz as [|st l Hst _ IH]; [done|]. cbn. unfold is_pending at 1, quorum_met.
  destruct (Z.leb_spec (sg_min_approvals st) (Z.of_nat (approval_count st))); [done|lia].
Qed.

(** An operator without a name is never a duplicate: its second decision is applied
    like the first. *)
Lemma anonymous_not_deduped now now' d s w stage :
  st_workflows s !! ad_request_id d = Some w → wf_state w = Pending → is_expired now w = false →
  current_stage w = Some stage → role_allowed stage d = true → ad_operator_id d = None →
  decide now now' d s =
  applied_outcome (ad_request_id d) (sg_index stage) (apply_decision now' (decision_of d) w).2
    (put_workflow (ad_request_id d) (apply_decision now' (decision_of d) w).2 s).
Proof.
  intros Hw Hopen Hexp Hcur Hrole Hop. unfold decide. by rewrite Hw, Hopen, Hexp, Hcur, Hrole, Hop.
Qed.

(** A recovered workflow starts again: no lease, and no decision of the stages of the
    one that was lost. *)
Lemma recovered_without_lease now id approval v :
  wf_expires_at (recovered_workflow now id approval v) = None ∧
  Forall (λ st, sg_decisions st = []) (wf_stages (recovered_workflow now id approval v)).
Proof.
  split; [by destruct v as [|? ? ? [chain|]| | |]|]. apply Forall_lookup. intros i st Hi.
  by apply (proj2 (recovered_fresh now id approval v)) in Hi as [_ ?].
Qed.

(** * Runs of the approval store

    A chain of two stages taken to its end, the witnesses of the properties of human
    approvals, and what the store does of what its documentation rules out. *)

#[local] Instance decimal_uuid : UuidText := λ u, fmt (Z.of_N u).

Definition chain : list PolicyEngine.ApprovalChainStage :=
  [PolicyEngine.MkStage "risk" "risk review" 1; PolicyEngine.MkStage "treasury" "release" 2].
Definition chain_verdict : PolicyVerdict :=
  PolicyEngine.RequiresHumanApproval "large transfer" "large-transfer" (Some "risk") (Some chain).
Definition request : ApprovalRequest :=
  new_request 7%N 1000 1%N 2%N "pay the supplier" chain_verdict 
    (PolicyEngine.MkSimulation true None None [] None [] None).
Definition two_stages : ApprovalWorkflow :=
  new_workflow 1000 (rq_id request) (rq_session_id request) (stages_of_chain chain).
Definition vote (now : Z) (approved : bool) (role operator : option string) : ApprovalDecision :=
  MkDecision 7%N approved None role operator now.

(** The calls of a run, each read by the clock at the decision's own time. *)
Definition step (s : ApprovalStore) (l : list ApprovalEvent) (d : ApprovalDecision) :
    option (ApprovalOutcome * ApprovalStore * list ApprovalEvent) :=
  '(o, r, s, es) ← decide_inner (ad_decided_at d) (ad_decided_at d) d s;
  Some (o, s, EDecide (ad_decided_at d) d es :: l).
Fixpoint steps (s : ApprovalStore) (l : list ApprovalEvent) (ds : list ApprovalDecision) :
    option (list ApprovalOutcome * ApprovalStore * list ApprovalEvent) :=
  match ds with
  | [] => Some ([], s, l)
  | d :: ds =>
      '(o, s, l) ← step s l d;
      '(os, s, l) ← steps s l ds;
      Some (o :: os, s, l)
  end.

Lemma steps_approvals ds s l os s' l' :
  approvals s l → steps s l ds = Some (os, s', l') → approvals s' l'.
Proof.
  revert s l os. induction ds as [|d ds IH]; intros s l os Ha; cbn; [by intros [= _ <- <-]|].
  unfold step. destruct (decide_inner _ _ d s) as [[[[o r] s1] es]|] eqn:Hd; [|done].
  cbn [mbind option_bind]. destruct (steps s1 _ ds) as [[[os1 s2] l2]|] eqn:Hs; [|done].
  intros [= _ <- <-]. eapply IH; [|exact Hs]. by eapply ap_decide.
Qed.

Definition opened : ApprovalStore * list ApprovalEvent :=
  ((register request two_stages new_store).2, [ERegister 7%N two_stages]).
Definition run (ds : list ApprovalDecision) :=
  steps opened.1 opened.2 ds.

Lemma run_approvals ds os s l : run ds = Some (os, s, l) → approvals s l.
Proof. apply steps_approvals. apply (ap_register new_store []); [by constructor|apply chain_fresh]. Qed.

(** The stages in order, a duplicate and a wrong role refused on the way. *)
Definition votes : list ApprovalDecision :=
  [vote 1001 true (Some "treasury") (Some "alice");
   vote 1002 true (Some "risk") (Some "alice");
   vote 1003 true (Some "treasury") (Some "bob");
   vote 1004 true (Some "treasury") (Some "bob");
   vote 1005 true (Some "treasury") (Some "carol");
   vote 1006 false (Some "treasury") (Some "dave")].
Lemma votes_outcomes : (λ x, x.1.1) <$> run votes =
  Some [RoleMismatch "risk" (Some "treasury"); StageAdvanced 0 1 (Some "treasury");
        QuorumProgress 1 1 2; DuplicateOperator "bob" 1; OApproved; AlreadyDecided].
Proof. by vm_compute. Qed.

Definition result (ds : list ApprovalDecision) : ApprovalStore * list ApprovalEvent :=
  match run ds with Some (_, s, l) => (s, l) | None => (new_store, []) end.
Definition effects_of (d : ApprovalDecision) (s : ApprovalStore) : list Effect :=
  match decide_inner (ad_decided_at d) (ad_decided_at d) d s with
  | Some (_, _, _, es) => es
  | None => []
  end.
Definition last_vote : ApprovalDecision := vote 1005 true (Some "treasury") (Some "carol").

Lemma result_approvals ds : run ds ≠ None → approvals (result ds).1 (result ds).2.
Proof.
  unfold result. destruct (run ds) as [[[os s] l]|] eqn:Hr; [|done]. intros _. by eapply run_approvals.
Qed.

Lemma approved_signal_has_quorum_witness :
  ∃ w, st_workflows (result (take 5 votes)).1 !! 7%N = Some w ∧ Forall satisfied (wf_stages w).
Proof.
  destruct (approved_signal_has_quorum (result (take 5 votes)).1 (result (take 4 votes)).2 1005
    last_vote (effects_of last_vote (result (take 4 votes)).1) 7%N) as (w0 & w & _ & Hw & _ & Hs & _).
  - apply (result_approvals (take 5 votes)). by vm_compute.
  - vm_compute. set_solver.
  - by exists w.
Defined.

Lemma signalled_once_witness : ¬ signalled 7%N (result (take 4 votes)).2.
Proof.
  apply (signalled_once (result (take 5 votes)).1 (result (take 4 votes)).2 1005 last_vote
    (effects_of last_vote (result (take 4 votes)).1) 7%N Approved).
  - apply (result_approvals (take 5 votes)). by vm_compute.
  - vm_compute. set_solver.
Defined.

Definition after_risk : ApprovalWorkflow :=
  default two_stages (st_workflows (result (take 2 votes)).1 !! 7%N).
Definition second_stage : ApprovalStage := MkStage 1 ["treasury"] 2 [].
Lemma approval_progress_witness :
  total_missing after_risk = 2 ∧
  ∃ o r s' es w', decide_inner 1003 1003 (vote 1003 true (Some "treasury") (Some "bob"))
      (result (take 2 votes)).1 = Some (o, r, s', es) ∧
    st_workflows s' !! 7%N = Some w' ∧ total_missing w' = 2 - 1 ∧
    (o = OApproved ↔ 2 = 1) ∧ (is_final o = true ↔ 2 = 1).
Proof.
  split; [by vm_compute|].
  apply (approval_progress (result (take 2 votes)).1 (result (take 2 votes)).2 after_risk second_stage
    1003 1003 (vote 1003 true (Some "treasury") (Some "bob"))).
  1: apply result_approvals.
  all: by vm_compute.
Defined.

(** Two decisions without an operator's name meet a quorum of two. *)
Lemma anonymous_votes_count : (λ x, x.1.1) <$> run
    [vote 1002 true (Some "risk") None; vote 1003 true (Some "treasury") None;
     vote 1004 true (Some "treasury") None] =
  Some [StageAdvanced 0 1 (Some "treasury"); QuorumProgress 1 1 2; OApproved].
Proof. by vm_compute. Qed.

(** A rejection ends the workflow at any stage. *)
Lemma rejection_is_final : (λ x, x.1.1) <$> run
    [vote 1002 true (Some "risk") (Some "alice"); vote 1003 true (Some "treasury") (Some "bob");
     vote 1004 false (Some "treasury") (Some "carol"); vote 1005 true (Some "treasury") (Some "dave")] =
  Some [StageAdvanced 0 1 (Some "treasury"); QuorumProgress 1 1 2; ORejected; AlreadyDecided].
Proof. by vm_compute. Qed.
