(* ===== verification/CanonicalIntent.v ===== *)
(** * Canonical intents

    types/canonical_intent.rs: the record of what a user is asked to review and sign,
    its bytes and hash, and the snapshot that the back end carries; and the expiry gate
    of canonical_intent_gate.rs. *)
From S2P Require Import Prelude Borsh WatcherBase RustText WatchRules.
From Stdlib Require String.
#[local] Open Scope string_scope.
#[local] Open Scope Z_scope.

Definition STAGE1_TAIL_SCHEMA_VERSION : Z := 1.

(** ** Public keys *)

(** The decoder of the crate [bs58]: the bytes, or the error's text. *)
Class Bs58Decode := bs58_decode : string → Result string (list byte).

Inductive PubkeyParseError := InvalidBase58 (message : string) | WrongLength (length : nat).
Definition pubkey_parse_error (e : PubkeyParseError) : string :=
  match e with
  | InvalidBase58 message => "invalid base58: " +:+ message
  | WrongLength n => "pubkey must be exactly 32 bytes, got " +:+ fmt (Z.of_nat n)
  end.

Definition from_base58 `{Bs58Decode} (s : string) : Result PubkeyParseError PubkeyBytes :=
  match bs58_decode s with
  | Err e => Err (InvalidBase58 e)
  | Ok v => if (length v =? 32)%nat then Ok v else Err (WrongLength (length v))
  end.

(** ** Intents *)
Inductive IntentAction :=
| SolendDeposit (wallet_pubkey input_mint reserve_pubkey lending_market : PubkeyBytes)
    (amount_raw amount_decimals : Z)
| SolendWithdrawAll (wallet_pubkey obligation_pubkey reserve_pubkey lending_market : PubkeyBytes)
| JupiterSwap (wallet_pubkey input_mint output_mint : PubkeyBytes)
    (input_amount_raw slippage_bps : Z).

Record CanonicalIntent := MkIntent {
  ci_schema_version : Z;
  ci_intent_id : list byte;
  ci_user : PubkeyBytes;
  ci_action : IntentAction;
  ci_expires_at_slot : Z
}.

#[export] Instance borsh_intent_action : Borsh IntentAction.
Proof.
  refine (c_iso
    (λ x : _ + (_ + (_ + Empty_set)), match x with
       | inl (w, (i, (r, (l, (a, d))))) => SolendDeposit w i r l a d
       | inr (inl (w, (o, (r, l)))) => SolendWithdrawAll w o r l
       | inr (inr (inl (w, (i, (o, (a, s)))))) => JupiterSwap w i o a s
       | inr (inr (inr e)) => match e with end
       end)
    (λ x, match x with
       | SolendDeposit w i r l a d => inl (w, (i, (r, (l, (a, d)))))
       | SolendWithdrawAll w o r l => inr (inl (w, (o, (r, l))))
       | JupiterSwap w i o a s => inr (inr (inl (w, (i, (o, (a, s))))))
       end) _ _
    (c_tagged
      (t_cons 0 ltac:(lia)
        (c_pair c_pubkey (c_pair c_pubkey (c_pair c_pubkey (c_pair c_pubkey (c_pair c_u64 c_u8)))))
      (t_cons 1 ltac:(lia) (c_pair c_pubkey (c_pair c_pubkey (c_pair c_pubkey c_pubkey)))
      (t_cons 2 ltac:(lia)
        (c_pair c_pubkey (c_pair c_pubkey (c_pair c_pubkey (c_pair c_u64 c_u16))))
      (t_nil 3))))));
  [by intros []|by intros [(?&?&?&?&?&?)|[(?&?&?&?)|[(?&?&?&?&?)|[]]]]].
Defined.

#[export] Instance borsh_canonical_intent : Borsh CanonicalIntent.
Proof.
  refine (c_iso
    (λ '(v, (i, (u, (a, e)))), MkIntent v i u a e)
    (λ c, (ci_schema_version c, (ci_intent_id c, (ci_user c, (ci_action c, ci_expires_at_slot c)))))
    _ _
    (c_pair c_u8 (c_pair (c_array 16) (c_pair c_pubkey (c_pair (borsh IntentAction) c_u64)))));
  [by intros []|by intros (?&?&?&?&?)].
Defined.

Definition canonical_bytes (intent : CanonicalIntent) : list byte := to_vec intent.
Definition canonical_hash `{Crates} (intent : CanonicalIntent) : list byte :=
  sha256 (canonical_bytes intent).

(** ** Expiry *)
Inductive IntentValidationError := IntentValidationExpired (current expires : Z).

Definition validate_not_expired (intent : CanonicalIntent) (current_slot : Z) :
    Result IntentValidationError unit :=
  if current_slot <? ci_expires_at_slot intent then Ok ()
  else Err (IntentValidationExpired current_slot (ci_expires_at_slot intent)).

Inductive CanonicalIntentActionType := TSolendDeposit | TSolendWithdrawAll | TJupiterSwap.
Definition action_type_label (t : CanonicalIntentActionType) : string :=
  match t with
  | TSolendDeposit => "solend_deposit"
  | TSolendWithdrawAll => "solend_withdraw_all"
  | TJupiterSwap => "jupiter_swap"
  end.
Definition action_type (a : IntentAction) : CanonicalIntentActionType :=
  match a with
  | SolendDeposit _ _ _ _ _ _ => TSolendDeposit
  | SolendWithdrawAll _ _ _ _ => TSolendWithdrawAll
  | JupiterSwap _ _ _ _ _ => TJupiterSwap
  end.

Record CanonicalIntentMetadata := MkMetadata {
  cm_schema_version : Z;
  cm_intent_id : list byte;
  cm_canonical_intent_hash : list byte;
  cm_expires_at_slot : Z;
  cm_action_type : CanonicalIntentActionType
}.
Definition from_intent `{Crates} (intent : CanonicalIntent) : CanonicalIntentMetadata :=
  MkMetadata (ci_schema_version intent) (ci_intent_id intent) (canonical_hash intent)
    (ci_expires_at_slot intent) (action_type (ci_action intent)).

Definition metadata_validate_not_expired (m : CanonicalIntentMetadata) (current_slot : Z) :
    Result IntentValidationError unit :=
  if current_slot <? cm_expires_at_slot m then Ok ()
  else Err (IntentValidationExpired current_slot (cm_expires_at_slot m)).

(** ** The gate *)

(** [IntentIdHex::from_bytes] *)
Definition HEX : list byte := String.list_byte_of_string "0123456789abcdef".
Definition hex_digit (n : Z) : byte := nth (Z.to_nat n) HEX (byte_of 0).
Definition intent_id_hex (b : list byte) : list byte :=
  b ≫= λ byte, [hex_digit (Z.shiftr (byte_val byte) 4); hex_digit (Z.land (byte_val byte) 15)].

Inductive GateOutcome :=
| NoCanonicalMetadata
| NotExpired (current_slot expires_at_slot : Z).
Inductive GateError :=
| IntentExpired (current_slot expires_at_slot : Z) (intent_id_hex : list byte).
Definition gate_error_type (e : GateError) : string :=
  match e with IntentExpired _ _ _ => "intent_expired" end.

Definition check_intent_expiry (metadata : option CanonicalIntentMetadata) (current_slot : Z) :
    Result GateError GateOutcome :=
  match metadata with
  | None => Ok NoCanonicalMetadata
  | Some m =>
      match metadata_validate_not_expired m current_slot with
      | Ok _ => Ok (NotExpired current_slot (cm_expires_at_slot m))
      | Err (IntentValidationExpired current expires) =>
          Err (IntentExpired current expires (intent_id_hex (cm_intent_id m)))
      end
  end.

(** ** What holds *)

(** Two intents with one hash are one intent, or their bytes collide. *)
Lemma canonical_hash_binds `{Crates} (a b : CanonicalIntent) :
  well_typed a → well_typed b → canonical_hash a = canonical_hash b →
  a = b ∨ canonical_bytes a ≠ canonical_bytes b ∧
          sha256 (canonical_bytes a) = sha256 (canonical_bytes b).
Proof.
  intros Ha Hb He. destruct (decide (canonical_bytes a = canonical_bytes b)) as [Hs|Hs]; [|by right].
  left. by apply to_vec_inj.
Qed.

(** The hex form of an id identifies it. *)
Lemma hex_digit_inj a b : 0 ≤ a < 16 → 0 ≤ b < 16 → hex_digit a = hex_digit b → a = b.
Proof.
  intros Ha Hb He.
  assert (∀ x, 0 ≤ x < 16 → x ∈ map Z.of_nat (seq 0 16)) as Hin.
  { intros x Hx. apply list_elem_of_In, in_map_iff. exists (Z.to_nat x).
    split; [lia|]. apply in_seq. lia. }
  apply Hin in Ha, Hb. clear Hin. cbn in Ha, Hb.
  repeat (apply elem_of_cons in Ha as [->|Ha]; [|]); [..|by apply elem_of_nil in Ha];
  repeat (apply elem_of_cons in Hb as [->|Hb]; [first [done|by vm_compute in He]|]);
    by apply elem_of_nil in Hb.
Qed.

Lemma intent_id_hex_inj a b : intent_id_hex a = intent_id_hex b → a = b.
Proof.
  revert b. induction a as [|x a IH]; intros [|y b] He; try done.
  unfold intent_id_hex in He. cbn [mbind list_bind app] in He.
  injection He as H1 H2 He. f_equal; [|by apply IH].
  pose proof (byte_val_range x). pose proof (byte_val_range y).
  assert (∀ n, 0 ≤ n < 256 → 0 ≤ Z.shiftr n 4 < 16 ∧ 0 ≤ Z.land n 15 < 16 ∧
    n = Z.shiftr n 4 * 16 + Z.land n 15) as Hn.
  { intros n ?. rewrite Z.shiftr_div_pow2 by lia. change 15 with (Z.ones 4).
    rewrite Z.land_ones by lia. change (2 ^ 4) with 16. Z.to_euclidean_division_equations. lia. }
  destruct (Hn (byte_val x)) as (? & ? & Hx); [done|].
  destruct (Hn (byte_val y)) as (? & ? & Hy); [done|].
  apply hex_digit_inj in H1, H2; try done. rewrite <- (byte_of_val x), <- (byte_of_val y). congruence.
Qed.

(** The gate on the snapshot of an intent decides as the intent itself, and names it
    when it refuses. *)
Lemma gate_of_intent `{Crates} intent slot :
  check_intent_expiry (Some (from_intent intent)) slot =
  match validate_not_expired intent slot with
  | Ok _ => Ok (NotExpired slot (ci_expires_at_slot intent))
  | Err _ => Err (IntentExpired slot (ci_expires_at_slot intent)
                    (intent_id_hex (ci_intent_id intent)))
  end.
Proof.
  unfold check_intent_expiry, metadata_validate_not_expired, validate_not_expired.
  cbn [from_intent cm_expires_at_slot cm_intent_id]. by destruct (slot <? ci_expires_at_slot intent).
Qed.

(** Once an intent expired it stays expired. *)
Lemma gate_expiry_final m slot slot' e : slot ≤ slot' →
  check_intent_expiry (Some m) slot = Err e →
  check_intent_expiry (Some m) slot' =
    Err (IntentExpired slot' (cm_expires_at_slot m) (intent_id_hex (cm_intent_id m))).
Proof.
  unfold check_intent_expiry, metadata_validate_not_expired. intros Hle.
  destruct (Z.ltb_spec slot (cm_expires_at_slot m)); [done|].
  destruct (Z.ltb_spec slot' (cm_expires_at_slot m)); [lia|done].
Qed.
