(* ===== verification/DemoCommand.v ===== *)
(** * The demo command

    The deterministic parser of stage2_demo_apr_bridge.rs: the conditional order
    typed as "If Solend Main Pool USDC deposit APR is above X%, deposit 0.25 USDC
    from my bounded executor wallet into Solend." *)
From S2P Require Import Prelude WatcherBase RuleStore RustText.
#[local] Open Scope string_scope.
#[local] Open Scope Z_scope.

Definition W5D_DEPOSIT_AMOUNT_RAW : Z := 250000.

Record DemoParsed := MkDemoParsed {
  dp_threshold_bps : Z;
  dp_threshold_pct_label : string;
  dp_amount_raw : Z
}.

Inductive ParseError :=
| MissingMarker (what : string)
| WrongPool (detail : string)
| WrongAsset (detail : string)
| WrongWallet (detail : string)
| UnsupportedAmount (detail : string)
| MalformedPercent (detail : string)
| NegativeThreshold (value : string)
| ThresholdOverflow (value : string).

Definition show_parse_error (e : ParseError) : string :=
  match e with
  | MissingMarker what => "missing marker: " +:+ what
  | WrongPool detail => "wrong pool: " +:+ detail
  | WrongAsset detail => "wrong asset: " +:+ detail
  | WrongWallet detail => "wrong/missing wallet phrase: " +:+ detail
  | UnsupportedAmount detail => "unsupported amount: " +:+ detail
  | MalformedPercent detail => "malformed percent: " +:+ detail
  | NegativeThreshold value => "negative threshold: " +:+ value
  | ThresholdOverflow value => "threshold overflow: " +:+ value
  end.

(** A text between double quotes. *)
Definition quoted (s : string) : string := String (Ascii.ascii_of_nat 34) s +:+ String (Ascii.ascii_of_nat 34) "".

Definition looks_like_w5d_command (text : string) : bool :=
  let lower := to_ascii_lowercase (str_bytes text) in
  let has s := contains_str (str_bytes s) lower in
  let pool_named := has "solend main pool usdc" || has "save main pool usdc" in
  let apr_phrase := has "deposit apr" in
  pool_named && apr_phrase.

(** [char::is_ascii_whitespace] *)
Definition is_ascii_whitespace (c : Char) : bool := existsb (Z.eqb c.1) [32; 9; 10; 12; 13].

(** The loop of [normalize_whitespace]. *)
Fixpoint collapse (cs : list Char) (in_ws : bool) (out : list byte) : list byte :=
  match cs with
  | [] => out
  | ch :: cs =>
      if is_ascii_whitespace ch then
        collapse cs true
          (if negb in_ws && negb (bool_decide (out = [])) then out ++ [Byte.x20] else out)
      else collapse cs false (out ++ ch.2)
  end.
Definition normalize_whitespace (s : list byte) : list byte :=
  pop_spaces (collapse (chars s) false []).

(** [push('0')] up to [n] bytes *)
Definition pad_zeros (n : nat) (l : list byte) : list byte := l ++ replicate (n - length l) Byte.x30.

Definition decimal_percent_to_bps (s : list byte) : Result ParseError Z :=
  _ ← throw_if (bool_decide (s = [])) (MalformedPercent "empty");
  let parts := split_at_dots s in
  _ ← throw_if (2 <? length parts)%nat
        (MalformedPercent ("multiple '.' in '" +:+ bytes_str s +:+ "'"));
  let int_str := default [] (parts !! 0%nat) in
  let frac_str := default [] (parts !! 1%nat) in
  int_val ← (match int_str with
             | [] => Ok 0
             | _ => map_err (λ e, MalformedPercent
                      ("int part '" +:+ bytes_str int_str +:+ "': " +:+ show_parse_int_error e))
                      (parse_u32 int_str)
             end);
  _ ← throw_if (2 <? length frac_str)%nat
        (MalformedPercent ("more than 2 fractional digits in '" +:+ bytes_str s +:+ "'"));
  let frac_padded := pad_zeros 2 frac_str in
  frac_val ← map_err (λ e, MalformedPercent
               ("frac part '" +:+ bytes_str frac_padded +:+ "': " +:+ show_parse_int_error e))
               (parse_u32 frac_padded);
  ok_or (n ← checked_u 32 (int_val * 100); checked_u 32 (n + frac_val))
    (ThresholdOverflow (bytes_str s)).

(** The percent between "above " and the next percent sign. *)
Definition threshold_text (normalized : list byte) : Result ParseError (list byte) :=
  let above_token := str_bytes "above " in
  i ← ok_or (find_str above_token normalized) (MissingMarker (quoted "above <X>%"));
  let after_above := drop (i + length above_token) normalized in
  pct_end ← ok_or (find_str (str_bytes "%") after_above)
              (MalformedPercent "expected '%' after the threshold percent");
  Ok (trim (take pct_end after_above)).

Definition parse_demo_command (text : string) : Result ParseError DemoParsed :=
  let normalized := normalize_whitespace (to_ascii_lowercase (str_bytes text)) in
  let has s := contains_str (str_bytes s) normalized in
  _ ← throw_if (negb (has "if ")) (MissingMarker (quoted "if" +:+ " clause"));
  let pool_ok := has "solend main pool usdc" || has "save main pool usdc" in
  _ ← throw_if (negb pool_ok)
        (if has "jupiter" then WrongPool "Jupiter is not supported in this demo"
         else if has "main pool" then WrongAsset "only Solend/Save Main Pool USDC is supported"
         else WrongPool "expected 'Solend Main Pool USDC' (or 'Save Main Pool USDC')");
  _ ← throw_if (negb (has "deposit apr")) (MissingMarker (quoted "deposit APR"));
  let wallet_ok := has "bounded executor wallet" || has "controlled wallet" in
  _ ← throw_if (negb wallet_ok)
        (WrongWallet "expected 'bounded executor wallet' or 'controlled wallet'");
  _ ← throw_if (negb (has "into solend") && negb (has "into save"))
        (MissingMarker (quoted "into Solend"));
  let amount_token := str_bytes "deposit 0.25" in
  idx ← ok_or (find_str amount_token normalized)
          (UnsupportedAmount "only 0.25 USDC is supported in the demo bridge");
  _ ← throw_if (negb (contains_str (str_bytes "usdc") (drop idx normalized)))
        (WrongAsset "amount must be denominated in USDC");
  pct_str ← threshold_text normalized;
  _ ← throw_if (bool_decide (pct_str = [])) (MalformedPercent "percent value is empty");
  _ ← throw_if (starts_with (str_bytes "-") pct_str) (NegativeThreshold (bytes_str pct_str));
  threshold_bps ← decimal_percent_to_bps pct_str;
  Ok (MkDemoParsed threshold_bps (bytes_str pct_str) W5D_DEPOSIT_AMOUNT_RAW).
