(* ===== verification/MarketReading.v ===== *)
(** * Market readings

    What stage2_demo_apr_bridge.rs reads of the market: the native APR of the
    pinned reserve with the wallet's budget, and the display APY of the Save API,
    checked against the pinned pool; the evaluation composed of them; and the two
    live fetchers over their HTTP calls. *)
From S2P Require Import Prelude Interaction WatchRules WatcherBase RuleStore RustText.
From S2P Require Import RuleEvaluator Float64 DemoCommand.
From S2P Require SolendRaw.
#[local] Open Scope string_scope.
#[local] Open Scope Z_scope.

Definition CONTROLLED_WALLET_BS58 : string := "BPfDMmeMBmCbMC1rWh7hwigMBoKGBrKwXxSeUu9hhs5L".
Definition W5D_RESERVE_BS58 : string := "BgxfHJDzm44T7XG68MYKx7YisTjZu73tVovyZSjJMpmw".
Definition APR_BPS_SANITY_MAX : Z := 10000.
Definition SOLEND_API_BASE_URL_DEFAULT : string := "https://api.solend.fi".
Definition SOLEND_API_SCOPE : string := "solend".
Definition W5F_MAIN_POOL_RESERVE_BS58 : string := "BgxfHJDzm44T7XG68MYKx7YisTjZu73tVovyZSjJMpmw".
Definition W5F_MAIN_POOL_LENDING_MARKET_BS58 : string :=
  "4UpD2fh7xH3VP9QQaXtsS1YY3bxzWhtfpks7FatyKvdY".
Definition W5F_MAIN_POOL_LIQUIDITY_MINT_BS58 : string :=
  "EPjFWdd5AufqSSqeM2qN1xzybapC8G4wEGGkZwyTDt1v".
Definition W5F_MAIN_POOL_COLLATERAL_MINT_BS58 : string :=
  "993dVFL2uXWYeoXuEBFXR4BijeXdTv4s6BzsCjJZuwqk".
Definition SAVE_DISPLAY_APY_PERCENT_SANITY_MAX : f64 := f64_of_Z false 1000.

(** ** Errors *)
Inductive EvaluationError :=
| ParseFailed (parse_error : ParseError)
| BridgeNotConfigured (reason : string)
| RpcFetchFailed (detail : string)
| ReserveAccountMissing (reserve : string)
| ReserveDecodeFailed (detail : string)
| AprComputationFailed (detail : string)
| AprOutOfRange (current_apr_bps_raw : Z)
| MarketDataUnavailable (reason : string)
| MainPoolMismatch (field expected actual : string).

Definition show_evaluation_error (e : EvaluationError) : string :=
  match e with
  | ParseFailed parse_error => "parse: " +:+ show_parse_error parse_error
  | BridgeNotConfigured reason => "bridge not configured: " +:+ reason
  | RpcFetchFailed detail => "rpc: " +:+ detail
  | ReserveAccountMissing reserve => "reserve account missing: " +:+ reserve
  | ReserveDecodeFailed detail => "reserve decode failed: " +:+ detail
  | AprComputationFailed detail => "APR computation failed: " +:+ detail
  | AprOutOfRange current_apr_bps_raw =>
      "APR out of plausible range: " +:+ fmt current_apr_bps_raw +:+ " bps > " +:+
      fmt APR_BPS_SANITY_MAX
  | MarketDataUnavailable reason => "save market data unavailable: " +:+ reason
  | MainPoolMismatch field expected actual =>
      "main pool mismatch: " +:+ field +:+ " expected " +:+ expected +:+ " got " +:+ actual
  end.

Notation ERes := (Result EvaluationError).

(** ** The evaluation *)
Record W5dEvaluationResult := MkEvaluation {
  er_input_text : string;
  er_source : string;
  er_reserve_pubkey : string;
  er_current_apr_bps : Z;
  er_threshold_bps : Z;
  er_threshold_pct_label : string;
  er_condition_met : bool;
  er_execution_attempted : bool;
  er_status : string;
  er_tx_signature : option string;
  er_controlled_wallet : string;
  er_source_usdc_ata : string;
  er_required_budget_raw : Z;
  er_current_budget_raw : Z;
  er_budget_status : string;
  er_last_checked_slot : Z;
  er_expires_at_slot : option Z;
  er_rule_id_hex : option string;
  er_canonical_rule_hash_hex : option string;
  er_rule_persisted : bool;
  er_decision_source : string;
  er_save_display_apy_bps : Z;
  er_native_onchain_apr_bps : Z;
  er_native_onchain_apr_source : string
}.

Record SaveDisplayApyReading := MkSaveReading {
  sr_save_display_apy_bps : Z;
  sr_raw_supply_interest_str : string;
  sr_reserve_pubkey : string;
  sr_lending_market : string;
  sr_liquidity_mint : string;
  sr_collateral_mint : string;
  sr_rewards_present : bool
}.

(** The status table: budget first, then the condition. *)
Definition status_of (budget_ok condition_met : bool) : string * string :=
  match budget_ok, condition_met with
  | false, _ => ("needs_funding", "needs_funding")
  | true, true => ("ready_to_execute", "reserved")
  | true, false => ("watching", "reserved")
  end.

Definition compose_w5e_result (input_text : string) (parsed : DemoParsed)
    (current_apr_bps current_budget_raw last_checked_slot : Z)
    (controlled_wallet source_usdc_ata : string) : W5dEvaluationResult :=
  let required_budget_raw := W5D_DEPOSIT_AMOUNT_RAW in
  let budget_ok := required_budget_raw <=? current_budget_raw in
  let condition_met := dp_threshold_bps parsed <? current_apr_bps in
  let '(status, budget_status) := status_of budget_ok condition_met in
  {| er_input_text := input_text;
     er_source := "save_display_apy";
     er_reserve_pubkey := W5D_RESERVE_BS58;
     er_current_apr_bps := current_apr_bps;
     er_threshold_bps := dp_threshold_bps parsed;
     er_threshold_pct_label := dp_threshold_pct_label parsed;
     er_condition_met := condition_met;
     er_execution_attempted := false;
     er_status := status;
     er_tx_signature := None;
     er_controlled_wallet := controlled_wallet;
     er_source_usdc_ata := source_usdc_ata;
     er_required_budget_raw := required_budget_raw;
     er_current_budget_raw := current_budget_raw;
     er_budget_status := budget_status;
     er_last_checked_slot := last_checked_slot;
     er_expires_at_slot := None;
     er_rule_id_hex := None;
     er_canonical_rule_hash_hex := None;
     er_rule_persisted := false;
     er_decision_source := "save_display_apy";
     er_save_display_apy_bps := current_apr_bps;
     er_native_onchain_apr_bps := current_apr_bps;
     er_native_onchain_apr_source := "b_o1_reserve_math" |}.

(** ** The Save answer *)
Section save.
Context `{DebugText, FloatText}.

Definition parse_percent_string_to_bps (s : string) : ERes Z :=
  let quoted := debug_str (str_bytes s) in
  value ← map_err (λ e, MarketDataUnavailable
            ("supplyInterest not a valid f64: " +:+ quoted +:+ " (" +:+ show_parse_float_error e
             +:+ ")")) (parse_f64 (trim (str_bytes s)));
  _ ← throw_if (negb (f64_is_finite value))
        (MarketDataUnavailable ("supplyInterest non-finite: " +:+ quoted));
  _ ← throw_if (SFltb value (S754_zero false) || SFltb SAVE_DISPLAY_APY_PERCENT_SANITY_MAX value)
        (MarketDataUnavailable
           ("supplyInterest out of plausible range [0, 1000]: " +:+ quoted));
  let bps_f := f64_round (f64_mul value (f64_of_Z false 100)) in
  _ ← throw_if (SFltb bps_f (S754_zero false) || SFltb (f64_of_Z false (2 ^ 32 - 1)) bps_f)
        (MarketDataUnavailable
           ("supplyInterest bps overflow after round: " +:+ display_f64 bps_f));
  Ok (f64_as_u32 bps_f).

Context `{Json}.

(** One pinned identifier: present, a string, and the expected one. *)
Definition pinned (r : json) (path : list string) (field expected : string) : ERes string :=
  actual ← ok_or (json_path path r ≫= json_as_str) (MarketDataUnavailable ("missing " +:+ field));
  _ ← throw_if (negb (bool_decide (actual = expected))) (MainPoolMismatch field expected actual);
  Ok actual.

Definition parse_save_reserves_response (body : json) : ERes SaveDisplayApyReading :=
  results ← ok_or (json_get "results" body ≫= json_as_array)
              (MarketDataUnavailable "missing or non-array `results`");
  r ← ok_or (head results) (MarketDataUnavailable "empty `results` array");
  reserve_pubkey ← pinned r ["reserve"; "pubkey"] "reserve.pubkey" W5F_MAIN_POOL_RESERVE_BS58;
  lending_market ← pinned r ["reserve"; "lendingMarket"] "reserve.lendingMarket"
                     W5F_MAIN_POOL_LENDING_MARKET_BS58;
  liquidity_mint ← pinned r ["reserve"; "liquidity"; "mintPubkey"] "reserve.liquidity.mintPubkey"
                     W5F_MAIN_POOL_LIQUIDITY_MINT_BS58;
  collateral_mint ← pinned r ["reserve"; "collateral"; "mintPubkey"]
                      "reserve.collateral.mintPubkey" W5F_MAIN_POOL_COLLATERAL_MINT_BS58;
  raw ← ok_or (json_path ["rates"; "supplyInterest"] r ≫= json_as_str)
          (MarketDataUnavailable "missing rates.supplyInterest (or non-string)");
  bps ← parse_percent_string_to_bps raw;
  let rewards_present := match json_get "rewards" r ≫= json_as_array with
                         | Some (_ :: _) => true | _ => false end in
  Ok (MkSaveReading bps raw reserve_pubkey lending_market liquidity_mint collateral_mint
        rewards_present).
End save.
