(* ===== verification/OrderDraft.v ===== *)
(** * Draft orders

    stage2_phase5c_draft.rs: the draft a model proposes and a user confirms, its
    canonical hash, the parsing of decimal amounts, and the in-process store of
    drafts. *)
From S2P Require Import Prelude WatchRules WatcherBase RuleStore RustText.
#[local] Open Scope string_scope.
#[local] Open Scope Z_scope.

Definition PHASE5C_EXPIRY_SECONDS_AFTER_FINALIZE : Z := 180.
Definition USDC_DECIMALS : nat := 6.
Definition USDC_RAW_PER_WHOLE : Z := 1000000.
Definition DEFAULT_DRAFT_TTL_SECONDS : Z := 15 * 60.
Definition TOMBSTONE_TTL_EXTRA_SECONDS : Z := 60.

(** ** The draft *)
Record DraftIntent := MkDraft {
  di_action : string;
  di_protocol : string;
  di_asset : string;
  di_display_source : string;
  di_comparison : string;
  di_threshold_bps : Z;
  di_amount_raw : Z;
  di_expiry_seconds_after_finalize : Z;
  di_controlled_wallet : string;
  di_controlled_usdc_ata : string;
  di_original_user_message_hash : string;
  di_draft_id : string;
  di_parser_source : string;
  di_warnings : list string;
  di_review_copy : string;
  di_created_at_ms : Z;
  di_session_id_hex : string
}.
#[export] Instance draft_eq_dec : EqDecision DraftIntent.
Proof. solve_decision. Defined.

Definition ACTION : string := "deposit".
Definition PROTOCOL : string := "solend".
Definition ASSET : string := "USDC".
Definition DISPLAY_SOURCE : string := "save".
Definition COMPARISON : string := "gt".
Definition PARSER_SOURCE : string := "llm_extractor".

Record CanonicalDraftPreimage := MkPreimage {
  cp_action : string;
  cp_amount_raw : string;
  cp_asset : string;
  cp_comparison : string;
  cp_controlled_usdc_ata : string;
  cp_controlled_wallet : string;
  cp_display_source : string;
  cp_expiry_seconds_after_finalize : Z;
  cp_original_user_message_hash : string;
  cp_protocol : string;
  cp_threshold_bps : Z
}.

Definition canonical_preimage (d : DraftIntent) : CanonicalDraftPreimage :=
  {| cp_action := di_action d;
     cp_protocol := di_protocol d;
     cp_asset := di_asset d;
     cp_display_source := di_display_source d;
     cp_comparison := di_comparison d;
     cp_threshold_bps := di_threshold_bps d;
     cp_amount_raw := fmt (di_amount_raw d);
     cp_expiry_seconds_after_finalize := di_expiry_seconds_after_finalize d;
     cp_controlled_wallet := di_controlled_wallet d;
     cp_controlled_usdc_ata := di_controlled_usdc_ata d;
     cp_original_user_message_hash := di_original_user_message_hash d |}.

(** ** The canonical hash *)

(** The values of the map that is serialized. *)
Inductive JsonValue := JString (s : string) | JNumber (n : Z).

(** What the compact JSON form of a sorted map provides: it parses back. *)
Class CanonicalJson := {
  json_to_vec : gmap string JsonValue → list byte;
  json_from_slice : list byte → option (gmap string JsonValue)
}.
Definition json_typed (v : JsonValue) : Prop :=
  match v with JString s => utf8_valid (str_bytes s) = true | JNumber n => is_u 64 n end.
Class CanonicalJsonLaws `{CanonicalJson} : Prop :=
  json_roundtrip m : map_Forall (λ _ v, json_typed v) m → json_from_slice (json_to_vec m) = Some m.

(** [const HEX: &[u8; 16]] *)
Definition HEX : list Ascii.ascii := String.list_ascii_of_string "0123456789abcdef".
Definition hex_at (n : Z) : Ascii.ascii := default Ascii.zero (HEX !! Z.to_nat n).
Fixpoint hex_lower_32 (b : list byte) : string :=
  match b with
  | [] => ""
  | x :: b => String (hex_at (Z.shiftr (byte_val x) 4))
                (String (hex_at (Z.land (byte_val x) 15)) (hex_lower_32 b))
  end.

Definition preimage_map (p : CanonicalDraftPreimage) : gmap string JsonValue :=
  <["threshold_bps" := JNumber (cp_threshold_bps p)]> (
  <["protocol" := JString (cp_protocol p)]> (
  <["original_user_message_hash" := JString (cp_original_user_message_hash p)]> (
  <["expiry_seconds_after_finalize" := JNumber (cp_expiry_seconds_after_finalize p)]> (
  <["display_source" := JString (cp_display_source p)]> (
  <["controlled_wallet" := JString (cp_controlled_wallet p)]> (
  <["controlled_usdc_ata" := JString (cp_controlled_usdc_ata p)]> (
  <["comparison" := JString (cp_comparison p)]> (
  <["asset" := JString (cp_asset p)]> (
  <["amount_raw" := JString (cp_amount_raw p)]> (
  <["action" := JString (cp_action p)]> ∅)))))))))).

Section hash.
Context `{Crates, CanonicalJson}.

Definition compute_draft_hash (p : CanonicalDraftPreimage) : string :=
  hex_lower_32 (sha256 (json_to_vec (preimage_map p))).

Definition compute_hash (d : DraftIntent) : string := compute_draft_hash (canonical_preimage d).

Definition sha256_hex (s : string) : string := hex_lower_32 (sha256 (str_bytes s)).
End hash.

(** ** Amounts *)
Inductive AmountParseError :=
| EmptyAmount | Negative | InvalidChar | MultipleDots | TooManyDecimals | AmountOverflow | Zero.

Definition show_amount_error (e : AmountParseError) : string :=
  match e with
  | EmptyAmount => "amount is empty"
  | Negative => "amount must be non-negative"
  | InvalidChar => "amount contains non-decimal characters"
  | MultipleDots => "amount has more than one decimal point"
  | TooManyDecimals => "amount has more than " +:+ fmt (Z.of_nat USDC_DECIMALS) +:+ " decimal places"
  | AmountOverflow => "amount overflows u64 when scaled to raw units"
  | Zero => "amount must be greater than zero"
  end.

Definition parse_usdc_amount_to_raw (s : string) : Result AmountParseError Z :=
  let s := trim (str_bytes s) in
  _ ← throw_if (bool_decide (s = [])) EmptyAmount;
  _ ← throw_if (starts_with (str_bytes "-") s) Negative;
  _ ← throw_if (starts_with (str_bytes "+") s) InvalidChar;
  let parts := split_at_dots s in
  let int_part := default [] (parts !! 0%nat) in
  let frac_part := parts !! 1%nat in
  _ ← throw_if (2 <? length parts)%nat MultipleDots;
  _ ← throw_if (negb (forallb is_ascii_digit int_part)) InvalidChar;
  _ ← (match frac_part with
       | Some f =>
           _ ← throw_if (negb (forallb is_ascii_digit f)) InvalidChar;
           throw_if (USDC_DECIMALS <? length f)%nat TooManyDecimals
       | None => Ok tt
       end);
  int_value ← (match int_part with
               | [] => Ok 0
               | _ => map_err (λ _, AmountOverflow) (from_str_radix 64 10 int_part)
               end);
  let frac_str := default [] frac_part in
  let frac_padded := (frac_str ++ replicate (USDC_DECIMALS - length frac_str) Byte.x30)%list in
  frac_value ← map_err (λ _, AmountOverflow) (from_str_radix 64 10 frac_padded);
  scaled_int ← ok_or (checked_u 64 (int_value * USDC_RAW_PER_WHOLE)) AmountOverflow;
  raw ← ok_or (checked_u 64 (scaled_int + frac_value)) AmountOverflow;
  _ ← throw_if (raw =? 0) Zero;
  Ok raw.

(** [{:02}] of a number below one hundred *)
Definition fmt_02 (n : Z) : string := if n <? 10 then "0" +:+ fmt n else fmt n.

Definition format_threshold_pct_label (bps : Z) : string :=
  if bps mod 100 =? 0 then fmt (bps / 100)
  else
    let whole := bps / 100 in
    let frac := bps mod 100 in
    if frac mod 10 =? 0 then fmt whole +:+ "." +:+ fmt (frac / 10)
    else fmt whole +:+ "." +:+ fmt_02 frac.

(** ** The store *)
Record StoredDraft := MkStored { sd_draft : DraftIntent; sd_expires_at_ms : Z }.
Record TombstoneEntry := MkTombstone { tb_expires_at_ms : Z; tb_consumed_at_ms : Z }.
Inductive StoredEntry := ActiveDraft (s : StoredDraft) | Tombstone (t : TombstoneEntry).

(** [DraftKey]: session and draft id *)
Definition DraftKey : Type := string * string.

Record DraftIntentStore := MkStore {
  ds_by_key : gmap DraftKey StoredEntry;
  ds_ttl_seconds : Z
}.

Inductive DraftConsumeOutcome :=
| Consumed (d : DraftIntent)
| NotFoundOrExpired
| AlreadyConsumed
| HashMismatch (provided backend : string).

(** [new] panics for a lifetime under ten minutes. *)
Definition new_store (ttl_seconds : Z) : option DraftIntentStore :=
  if 10 * 60 <=? ttl_seconds then Some (MkStore ∅ ttl_seconds) else None.

Definition tombstone_ttl_seconds (store : DraftIntentStore) : Z :=
  wrap 64 (ds_ttl_seconds store + TOMBSTONE_TTL_EXTRA_SECONDS).

(** [now_ms + (seconds as i64) * 1000] *)
Definition after_seconds (now_ms seconds : Z) : Z := as_i64 (now_ms + as_i64 (as_i64 seconds * 1000)).

Definition put (key : DraftKey) (e : StoredEntry) (store : DraftIntentStore) : DraftIntentStore :=
  MkStore (<[key := e]> (ds_by_key store)) (ds_ttl_seconds store).
Definition remove (key : DraftKey) (store : DraftIntentStore) : DraftIntentStore :=
  MkStore (delete key (ds_by_key store)) (ds_ttl_seconds store).

Definition draft_key (d : DraftIntent) : DraftKey := (di_session_id_hex d, di_draft_id d).

Definition insert_draft (now_ms : Z) (draft : DraftIntent) (store : DraftIntentStore) :
    string * DraftIntentStore :=
  let expires_at_ms := after_seconds now_ms (ds_ttl_seconds store) in
  (di_draft_id draft, put (draft_key draft) (ActiveDraft (MkStored draft expires_at_ms)) store).

Definition get_draft (now_ms : Z) (session_id_hex draft_id : string) (store : DraftIntentStore) :
    option DraftIntent * DraftIntentStore :=
  let key := (session_id_hex, draft_id) in
  match ds_by_key store !! key with
  | Some (ActiveDraft s) =>
      if now_ms <? sd_expires_at_ms s then (Some (sd_draft s), store)
      else (None, remove key store)
  | Some (Tombstone t) =>
      if now_ms <? tb_expires_at_ms t then (None, store) else (None, remove key store)
  | None => (None, store)
  end.

Definition drop_draft (session_id_hex draft_id : string) (store : DraftIntentStore) :
    DraftIntentStore := remove (session_id_hex, draft_id) store.

Definition store_len (store : DraftIntentStore) : nat := size (ds_by_key store).
Definition active_len (now_ms : Z) (store : DraftIntentStore) : nat :=
  length (List.filter (λ x, match x.2 with
                       | ActiveDraft s => now_ms <? sd_expires_at_ms s
                       | Tombstone _ => false end) (map_to_list (ds_by_key store))).
Definition tombstone_len (now_ms : Z) (store : DraftIntentStore) : nat :=
  length (List.filter (λ x, match x.2 with
                       | Tombstone t => now_ms <? tb_expires_at_ms t
                       | ActiveDraft _ => false end) (map_to_list (ds_by_key store))).
Definition store_is_empty (store : DraftIntentStore) : bool := (store_len store =? 0)%nat.

Section consume.
Context `{Crates, CanonicalJson}.

Definition consume_if_match (now_ms : Z) (session_id_hex draft_id expected_hash : string)
    (store : DraftIntentStore) : DraftConsumeOutcome * DraftIntentStore :=
  let key := (session_id_hex, draft_id) in
  match ds_by_key store !! key with
  | None => (NotFoundOrExpired, store)
  | Some (Tombstone t) =>
      if now_ms <? tb_expires_at_ms t then (AlreadyConsumed, store)
      else (NotFoundOrExpired, remove key store)
  | Some (ActiveDraft stored) =>
      if sd_expires_at_ms stored <=? now_ms then (NotFoundOrExpired, remove key store)
      else
        let backend := compute_hash (sd_draft stored) in
        if negb (bool_decide (backend = expected_hash)) then
          (HashMismatch expected_hash backend, store)
        else
          let tombstone_expires := after_seconds now_ms (tombstone_ttl_seconds store) in
          (Consumed (sd_draft stored),
           put key (Tombstone (MkTombstone tombstone_expires now_ms)) store)
  end.
End consume.
