(* ===== verification/FundingEvents.v ===== *)
(** * Events of the funding and chat-execution handlers, and the confirmation

    The seams of [stage2_w5h_funding_confirm.rs], [stage2_chat_execute.rs] and
    [stage2_w5i_auto_execute.rs]: what their handlers ask of the two stores, the
    clock, the chain and the market, with the types that cross each seam.  Then the
    confirmation of a deposit with the parser of the fetched transaction. *)
From S2P Require Import Prelude Interaction WatchRules WatcherBase RuleStore RustText.
From S2P Require Import FundingStore FundingSafety DemoCommand MarketReading OrderDraft.
#[local] Open Scope string_scope.
#[local] Open Scope Z_scope.

(** ** The transaction fetcher ([TxFetcher]) *)
Record FetchedTokenBalance := MkBalance {
  tb_account_index : Z;
  tb_pubkey : string;
  tb_mint : string;
  tb_owner : string;
  tb_amount_raw_str : string
}.

Record FetchedInstruction := MkFetchedInstruction {
  fx_program_id : string;
  fx_data : list byte
}.

Record FetchedTx := MkFetchedTx {
  ft_slot : Z;
  ft_err : option string;
  ft_pre_token_balances : list FetchedTokenBalance;
  ft_post_token_balances : list FetchedTokenBalance;
  ft_instructions : list FetchedInstruction
}.

Inductive TxFetchOutcome :=
| NotYetAvailable
| Available (tx : FetchedTx)
| VerifierUnsupported (reason : string).

(** ** The sender ([Stage2ChatExecuteSender]) *)
Record ChatExecuteSendRequest := MkSendRequest {
  sd_controlled_wallet : PubkeyBytes;
  sd_amount_raw : Z;
  sd_target_obligation : PubkeyBytes;
  sd_reserve_pubkey : PubkeyBytes
}.

Inductive ChatExecuteSendOutcome :=
| SendFinalized (tx_signature : string)
    (confirmation_slot serialized_tx_bytes instruction_count : Z)
    (ctoken_ata_create_included : bool)
    (before_usdc_raw after_usdc_raw before_ctoken_amount after_ctoken_amount : Z)
| SendTimeout (tx_signature : string) (serialized_tx_bytes instruction_count : Z)
    (ctoken_ata_create_included : bool) (last_status : option string)
| SendTxBuildFailed (reason : string)
| SendTxSizeExceeded (serialized_tx_bytes instruction_count : Z)
    (ctoken_ata_create_included : bool)
| SendBroadcastFailed (reason : string)
| SendOnChainFailure (tx_signature reason : string) (serialized_tx_bytes instruction_count : Z)
    (ctoken_ata_create_included : bool).

(** ** Events

    The market is read through [SaveDisplayApyFetcher] and [W5dAprFetcher]. *)
Inductive FundingEvent :=
| IntentGet (id : string)
| IntentListReserved (limit : Z)
| IntentCall (c : FundingCall)
| RuleGet (id : list byte)
| RuleMarkCompleted (id : list byte) (used_amount slot : Z)
| ClockNow
| FetchTx (signature : string)
| FetchSaveApy
| FetchNativeApr (input_text : string) (parsed : DemoParsed)
| RuleInsert (rule : WatchRule)
| DraftConsume (session_id_hex draft_id hash : string)
| DraftGet (session_id_hex draft_id : string)
| DraftDrop (session_id_hex draft_id : string)
| SessionWallet (session_id_hex : string)
| SendDeposit (intent_id : string) (req : ChatExecuteSendRequest)
(* what a client sends: a chat message, or its decision on a draft *)
| ChatMessage (session_id message : string)
| DraftDecision (session_id draft_id draft_hash : string) (user_confirmed : bool).

Definition FundingAnswer (e : FundingEvent) : Type :=
  match e with
  | IntentGet _ => SRes (option W5hFundingIntent)
  | IntentListReserved _ => SRes (list W5hFundingIntent)
  | IntentCall _ => SRes Z
  | RuleGet _ => SRes (option StoredWatchRule)
  | RuleMarkCompleted _ _ _ => SRes Z
  | ClockNow => Z
  | FetchTx _ => Result string TxFetchOutcome
  | FetchSaveApy => ERes SaveDisplayApyReading
  | FetchNativeApr _ _ => ERes W5dEvaluationResult
  | RuleInsert _ => SRes unit
  | DraftConsume _ _ _ => DraftConsumeOutcome
  | DraftGet _ _ => option DraftIntent
  | DraftDrop _ _ => unit
  | SessionWallet _ => option string
  | SendDeposit _ _ => ChatExecuteSendOutcome
  | ChatMessage _ _ | DraftDecision _ _ _ _ => unit
  end.

Notation FProg := (Interaction.Prog FundingAnswer).
Definition call (e : FundingEvent) : FProg (FundingAnswer e) := ask e.

(** * Funding confirmation ([stage2_w5h_funding_confirm.rs])

    The user posts the signature of the transfer that funds an order; the handler
    binds it to the intent, fetches the transaction, verifies its memo and the
    change of the controlled token account, and reserves the budget.  Also the
    parser that turns a [getTransaction] answer into what is verified. *)

Definition USDC_MINT_BS58 : string := "EPjFWdd5AufqSSqeM2qN1xzybapC8G4wEGGkZwyTDt1v".
Definition MEMO_PROGRAM_BS58 : string := "MemoSq4gqABAXKb96qnH8TysNcWxMyWCqXgDLGmfcHr".
Definition MEMO_PAYLOAD_PREFIX : string := "claw:w5h:".

(** ** Outcomes and requests *)
Inductive W5hFundingConfirmStatus :=
| StBudgetReserved | StFundingPending | StFundingInvalid | StAlreadyTerminal
| StIntentNotFound | StRequestMismatch | StRepoFailed.
#[export] Instance confirm_status_eq_dec : EqDecision W5hFundingConfirmStatus.
Proof. solve_decision. Defined.

Inductive W5hFundingConfirmErrorCode :=
| TxNotYetAvailable | OnChainError | WrongMint | DestinationNotControlledUsdcAta
| AmountDeltaMismatch | RequestMismatch | IntentNotFound | IntentAlreadyTerminal | RepoFailed
| CodeVerifierUnsupported | MemoMissingOrMismatch.

Record W5hFundingConfirmOutcome := MkConfirmOutcome {
  co_status : W5hFundingConfirmStatus;
  co_rule_id_hex : string;
  co_canonical_rule_hash_hex : string;
  co_funding_signature : string;
  co_funding_finalized_slot : option Z;
  co_expires_at_ms : Z;
  co_threshold_bps : Z;
  co_save_display_apy_bps : option Z;
  co_native_onchain_apr_bps : option Z;
  co_amount_raw : Z;
  co_user_wallet : string;
  co_user_usdc_ata : string;
  co_controlled_wallet : string;
  co_controlled_usdc_ata : string;
  co_error : option W5hFundingConfirmErrorCode;
  co_error_reason : option string
}.

Record W5hFundingConfirmRequest := MkConfirmRequest {
  cf_rule_id_hex : string;
  cf_funding_signature : string;
  cf_user_wallet : string;
  cf_user_usdc_ata : string;
  cf_controlled_wallet : string;
  cf_controlled_usdc_ata : string;
  cf_amount_raw : Z
}.

(** ** Verification *)
Notation VRes := (Result (W5hFundingConfirmErrorCode * string)).

Definition assert_balance_identity (b : FetchedTokenBalance) (controlled_wallet : string) :
    VRes unit :=
  _ ← throw_if (bool_decide (tb_mint b ≠ USDC_MINT_BS58))
        (WrongMint, "token-balance row mint " +:+ tb_mint b +:+ " ≠ USDC mint " +:+
           USDC_MINT_BS58);
  throw_if (bool_decide (tb_owner b ≠ controlled_wallet))
    (DestinationNotControlledUsdcAta, "token-balance row owner " +:+ tb_owner b +:+
       " ≠ controlled wallet " +:+ controlled_wallet).

Definition parse_raw_amount : string → Result IntErrorKind Z := parse_u64.

Definition find_balance_by_pubkey (pubkey : string) (l : list FetchedTokenBalance) :
    option FetchedTokenBalance :=
  List.find (λ b, bool_decide (tb_pubkey b = pubkey)) l.

(** The raw amount of the row that was found. *)
Definition balance_amount (when_ : string) (controlled_wallet : string)
    (b : FetchedTokenBalance) : VRes Z :=
  _ ← assert_balance_identity b controlled_wallet;
  map_err (λ e, (AmountDeltaMismatch, when_ +:+ " amount_raw_str parse: " +:+
                   show_parse_int_error e))
    (parse_raw_amount (tb_amount_raw_str b)).

Definition verify_funding_delta (tx : FetchedTx) (controlled_usdc_ata controlled_wallet : string)
    (amount_raw : Z) : VRes Z :=
  _ ← match ft_err tx with
      | Some err => Err (OnChainError, "on-chain err: " +:+ err)
      | None => Ok tt
      end;
  pre_raw ← match find_balance_by_pubkey controlled_usdc_ata (ft_pre_token_balances tx) with
            | Some b => balance_amount "pre" controlled_wallet b
            | None => Ok 0
            end;
  post_raw ← match find_balance_by_pubkey controlled_usdc_ata (ft_post_token_balances tx) with
             | Some b => balance_amount "post" controlled_wallet b
             | None =>
                 Err (DestinationNotControlledUsdcAta,
                   "post tx has no token-balance row for pubkey " +:+ controlled_usdc_ata +:+
                   " (resolved via message.accountKeys + meta.loadedAddresses)")
             end;
  _ ← throw_if (post_raw <? pre_raw)
        (AmountDeltaMismatch, "controlled ATA balance went down (pre=" +:+ fmt pre_raw +:+
           ", post=" +:+ fmt post_raw +:+
           "); funding tx must INCREASE the controlled ATA");
  let delta := post_raw - pre_raw in
  _ ← throw_if (negb (delta =? amount_raw))
        (AmountDeltaMismatch, "controlled ATA delta = +" +:+ fmt delta +:+
           " raw, expected +" +:+ fmt amount_raw +:+ " raw (pre=" +:+ fmt pre_raw +:+
           ", post=" +:+ fmt post_raw +:+ ")");
  Ok (ft_slot tx).

Definition memo_payload (rule_id_hex canonical_rule_hash_hex : string) : string :=
  MEMO_PAYLOAD_PREFIX +:+ rule_id_hex +:+ ":" +:+ canonical_rule_hash_hex.

(** [{:?}] of a [Vec<String>] *)
Fixpoint debug_items (l : list string) : string :=
  match l with
  | [] => ""
  | [s] => debug_str s
  | s :: l => debug_str s +:+ ", " +:+ debug_items l
  end.
Definition debug_vec (l : list string) : string := "[" +:+ debug_items l +:+ "]".

Definition observed_memo (m : FetchedInstruction) : string :=
  match from_utf8 (fx_data m) with
  | Some s => s
  | None => "<" +:+ fmt (Z.of_nat (length (fx_data m))) +:+ " non-utf8 bytes>"
  end.

Definition verify_funding_memo (tx : FetchedTx) (rule_id_hex canonical_rule_hash_hex : string) :
    VRes unit :=
  let expected := memo_payload rule_id_hex canonical_rule_hash_hex in
  let memos := List.filter (λ ix, bool_decide (fx_program_id ix = MEMO_PROGRAM_BS58))
                 (ft_instructions tx) in
  match memos with
  | [] =>
      Err (MemoMissingOrMismatch, "funding tx has no SPL Memo (program " +:+ MEMO_PROGRAM_BS58
             +:+ ") instruction; expected payload " +:+ debug_str expected)
  | _ =>
      if existsb (λ m, bool_decide (default "" (from_utf8 (fx_data m)) = expected)) memos
      then Ok tt
      else Err (MemoMissingOrMismatch, "no SPL Memo payload matched expected " +:+
             debug_str expected +:+ "; observed memos = " +:+
             debug_vec (map observed_memo memos))
  end.

(** ** The orchestrator ([Stage2W5hFundingConfirmExecutor])

    Which of the two metric fetchers are wired. *)
Record ConfirmWiring := MkWiring { cw_save_apy_fetcher : bool; cw_apr_fetcher : bool }.

Definition refresh_live_metrics (w : ConfirmWiring) : FProg (option Z * option Z) :=
  save_bps ←
    (if cw_save_apy_fetcher w
     then r ← call FetchSaveApy; mret (match r with Ok s => Some (sr_save_display_apy_bps s) | Err _ => None end)
     else mret None);
  native_bps ←
    (if cw_apr_fetcher w
     then r ← call (FetchNativeApr "" (MkDemoParsed 0 "0" 0));
          mret (match r with Ok n => Some (er_current_apr_bps n) | Err _ => None end)
     else mret None);
  mret (save_bps, native_bps).

Definition outcome_of (stored : W5hFundingIntent) (funding_signature : string)
    (status : W5hFundingConfirmStatus) (live : option Z * option Z)
    (error : option W5hFundingConfirmErrorCode) (reason : option string) :
    W5hFundingConfirmOutcome :=
  let t := fi_terms stored in
  MkConfirmOutcome status (ni_rule_id_hex t) (ni_canonical_rule_hash_hex t) funding_signature
    (fi_funding_finalized_slot stored) (ni_expires_at_ms t) (ni_threshold_bps t) live.1 live.2
    (ni_amount_raw t) (ni_user_wallet t) (ni_user_usdc_ata t) (ni_controlled_wallet t)
    (ni_controlled_usdc_ata t) error reason.

Definition success_outcome_with_status (w : ConfirmWiring) (stored : W5hFundingIntent)
    (funding_signature : string) (status : W5hFundingConfirmStatus)
    (error : option W5hFundingConfirmErrorCode) : FProg W5hFundingConfirmOutcome :=
  live ← refresh_live_metrics w;
  mret (outcome_of stored funding_signature status live error None).

Definition terminal_outcome (w : ConfirmWiring) (stored : W5hFundingIntent)
    (funding_signature : string) (status : W5hFundingConfirmStatus)
    (code : W5hFundingConfirmErrorCode) (reason : string) : FProg W5hFundingConfirmOutcome :=
  live ← refresh_live_metrics w;
  mret (outcome_of stored funding_signature status live (Some code) (Some reason)).

Definition with_reason (r : string) (o : W5hFundingConfirmOutcome) : W5hFundingConfirmOutcome :=
  MkConfirmOutcome (co_status o) (co_rule_id_hex o) (co_canonical_rule_hash_hex o)
    (co_funding_signature o) (co_funding_finalized_slot o) (co_expires_at_ms o)
    (co_threshold_bps o) (co_save_display_apy_bps o) (co_native_onchain_apr_bps o)
    (co_amount_raw o) (co_user_wallet o) (co_user_usdc_ata o) (co_controlled_wallet o)
    (co_controlled_usdc_ata o) (co_error o) (Some r).

(** Step 1: the intent is missing or the store failed. *)
Definition unread_outcome (request : W5hFundingConfirmRequest)
    (status : W5hFundingConfirmStatus) (code : W5hFundingConfirmErrorCode) (reason : string) :
    W5hFundingConfirmOutcome :=
  MkConfirmOutcome status (cf_rule_id_hex request) "" (cf_funding_signature request) None 0 0
    None None (cf_amount_raw request) (cf_user_wallet request) (cf_user_usdc_ata request)
    (cf_controlled_wallet request) (cf_controlled_usdc_ata request) (Some code) (Some reason).

(** Step 2. *)
Definition identity_matches (stored : W5hFundingIntent) (request : W5hFundingConfirmRequest) :
    bool :=
  let t := fi_terms stored in
  bool_decide (ni_user_wallet t = cf_user_wallet request) &&
  bool_decide (ni_user_usdc_ata t = cf_user_usdc_ata request) &&
  bool_decide (ni_controlled_wallet t = cf_controlled_wallet request) &&
  bool_decide (ni_controlled_usdc_ata t = cf_controlled_usdc_ata request) &&
  (ni_amount_raw t =? cf_amount_raw request).

(** Step 3: [None] when the intent can still be funded. *)
Definition echoed_status (s : W5hIntentStatus) : option W5hFundingConfirmStatus :=
  match s with
  | FundingRequired | FundingSubmitted => None
  | BudgetReserved => Some StBudgetReserved
  | FundingInvalid => Some StFundingInvalid
  | _ => Some StAlreadyTerminal
  end.

(** Step 7: the budget is reserved and the row read again. *)
Definition reserve_budget (w : ConfirmWiring) (request : W5hFundingConfirmRequest)
    (stored : W5hFundingIntent) (finalized_slot : Z) : FProg W5hFundingConfirmOutcome :=
  let sig := cf_funding_signature request in
  n ← call (IntentCall (FReserved (cf_rule_id_hex request) sig finalized_slot));
  match n with
  | Err e =>
      terminal_outcome w stored sig StRepoFailed RepoFailed
        ("repo CAS failed: " +:+ show_store_error e)
  | Ok _ =>
      again ← call (IntentGet (cf_rule_id_hex request));
      let refreshed := match again with Ok (Some s) => s | _ => stored end in
      live ← refresh_live_metrics w;
      let status := match fi_status refreshed with
                    | BudgetReserved => StBudgetReserved
                    | _ => StFundingPending
                    end in
      let o := outcome_of refreshed sig status live None None in
      mret (MkConfirmOutcome (co_status o) (co_rule_id_hex o) (co_canonical_rule_hash_hex o)
        (co_funding_signature o) (Some finalized_slot) (co_expires_at_ms o)
        (co_threshold_bps o) (co_save_display_apy_bps o) (co_native_onchain_apr_bps o)
        (co_amount_raw o) (co_user_wallet o) (co_user_usdc_ata o) (co_controlled_wallet o)
        (co_controlled_usdc_ata o) None None)
  end.

(** The transaction does not fund the intent: recorded, then reported. *)
Definition refuse_funding (w : ConfirmWiring) (request : W5hFundingConfirmRequest)
    (stored : W5hFundingIntent) (e : W5hFundingConfirmErrorCode * string) :
    FProg W5hFundingConfirmOutcome :=
  _ ← call (IntentCall (FInvalid (cf_rule_id_hex request) (cf_funding_signature request) e.2));
  terminal_outcome w stored (cf_funding_signature request) StFundingInvalid e.1 e.2.

(** Steps 6a, 6b. *)
Definition verify_funding (w : ConfirmWiring) (request : W5hFundingConfirmRequest)
    (stored : W5hFundingIntent) (tx : FetchedTx) : FProg W5hFundingConfirmOutcome :=
  match verify_funding_memo tx (ni_rule_id_hex (fi_terms stored))
          (ni_canonical_rule_hash_hex (fi_terms stored)) with
  | Err e => refuse_funding w request stored e
  | Ok _ =>
      match verify_funding_delta tx (cf_controlled_usdc_ata request)
              (cf_controlled_wallet request) (cf_amount_raw request) with
      | Err e => refuse_funding w request stored e
      | Ok finalized_slot => reserve_budget w request stored finalized_slot
      end
  end.

(** Step 5. *)
Definition fetch_funding (w : ConfirmWiring) (request : W5hFundingConfirmRequest)
    (stored : W5hFundingIntent) : FProg W5hFundingConfirmOutcome :=
  let sig := cf_funding_signature request in
  tx_outcome ← call (FetchTx sig);
  match tx_outcome with
  | Ok NotYetAvailable =>
      success_outcome_with_status w stored sig StFundingPending (Some TxNotYetAvailable)
  | Ok (VerifierUnsupported reason) =>
      o ← success_outcome_with_status w stored sig StFundingPending
            (Some CodeVerifierUnsupported);
      mret (with_reason ("verifier_unsupported: " +:+ reason) o)
  | Ok (Available tx) => verify_funding w request stored tx
  | Err e =>
      o ← success_outcome_with_status w stored sig StFundingPending (Some TxNotYetAvailable);
      mret (with_reason ("tx_fetcher: " +:+ e) o)
  end.

(** Step 4. *)
Definition submit_funding (w : ConfirmWiring) (request : W5hFundingConfirmRequest)
    (stored : W5hFundingIntent) : FProg W5hFundingConfirmOutcome :=
  let sig := cf_funding_signature request in
  submit_rows ← call (IntentCall (FSubmitted (cf_rule_id_hex request) sig));
  match submit_rows with
  | Ok n =>
      if n =? 0
      then terminal_outcome w stored sig StRequestMismatch RequestMismatch
             ("intent already submitted under a different funding_signature; " +:+
              "refusing to overwrite")
      else fetch_funding w request stored
  | Err e =>
      terminal_outcome w stored sig StRepoFailed RepoFailed
        ("repo CAS failed: " +:+ show_store_error e)
  end.

Definition execute (w : ConfirmWiring) (request : W5hFundingConfirmRequest) :
    FProg W5hFundingConfirmOutcome :=
  let rid := cf_rule_id_hex request in
  found ← call (IntentGet rid);
  match found with
  | Ok None =>
      mret (unread_outcome request StIntentNotFound IntentNotFound
              ("rule_id " +:+ rid +:+ " not found in W5h funding intent repo"))
  | Err e =>
      mret (unread_outcome request StRepoFailed RepoFailed
              ("repo.get failed: " +:+ show_store_error e))
  | Ok (Some stored) =>
      if negb (identity_matches stored request)
      then terminal_outcome w stored (cf_funding_signature request) StRequestMismatch
             RequestMismatch
             "request wallet/ATA/amount fields do not match persisted intent"
      else
        match echoed_status (fi_status stored) with
        | Some mapped_status =>
            success_outcome_with_status w stored
              (default (cf_funding_signature request) (fi_funding_signature stored))
              mapped_status
              (if bool_decide (mapped_status = StAlreadyTerminal)
               then Some IntentAlreadyTerminal else None)
        | None => submit_funding w request stored
        end
  end.

(** ** The [getTransaction] answer

    Read through what [serde_json::Value] and [bs58] provide. *)

Section parser.
Context `{Json}.

Definition account_keys (result meta : json) : list string :=
  strings_of (json_path ["transaction"; "message"; "accountKeys"] result) ++
  strings_of (json_path ["loadedAddresses"; "writable"] meta) ++
  strings_of (json_path ["loadedAddresses"; "readonly"] meta).

Definition alt_present (meta : json) : bool :=
  existsb (λ field,
    match json_path ["loadedAddresses"; field] meta ≫= json_as_array with
    | Some (_ :: _) => true
    | _ => false
    end) ["writable"; "readonly"].

(** [keys.get(idx as usize)] *)
Definition nth_key (keys : list string) (idx : Z) : option string := keys !! Z.to_nat idx.

Definition parse_instruction (keys : list string) (entry : json) :
    Result string FetchedInstruction :=
  program_id_index ← ok_or (json_get "programIdIndex" entry ≫= json_as_u64)
    "instruction missing programIdIndex";
  program_id ← ok_or (nth_key keys program_id_index)
    ("programIdIndex " +:+ fmt program_id_index +:+ " out of resolved-keys range (len=" +:+
     fmt (Z.of_nat (length keys)) +:+ "); unresolved address-table-lookup entry");
  let data_str := default "" (json_get "data" entry ≫= json_as_str) in
  data ← (if bool_decide (data_str = "") then Ok []
          else map_err (λ e, "instruction data base58 decode: " +:+ e) (bs58_decode data_str));
  Ok (MkFetchedInstruction program_id data).

Definition parse_token_balance (keys : list string) (entry : json) :
    Result string FetchedTokenBalance :=
  account_index ← ok_or (json_get "accountIndex" entry ≫= json_as_u64)
    "tokenBalance entry missing accountIndex";
  pubkey ← ok_or (nth_key keys account_index)
    ("accountIndex " +:+ fmt account_index +:+ " out of resolved-keys range (len=" +:+
     fmt (Z.of_nat (length keys)) +:+ "); unresolved address-table-lookup entry");
  mint ← ok_or (json_get "mint" entry ≫= json_as_str) "tokenBalance entry missing mint";
  owner ← ok_or (json_get "owner" entry ≫= json_as_str) "tokenBalance entry missing owner";
  amount_raw_str ← ok_or (json_path ["uiTokenAmount"; "amount"] entry ≫= json_as_str)
    "tokenBalance entry missing uiTokenAmount.amount";
  Ok (MkBalance (wrap 32 account_index) pubkey mint owner amount_raw_str).

(** The loop over an array: the first error is returned. *)
Fixpoint parse_entries {A} (parse : json → Result string A) (l : list json) :
    Result string (list A) :=
  match l with
  | [] => Ok []
  | v :: l => a ← parse v; out ← parse_entries parse l; Ok (a :: out)
  end.

Definition parse_array {A} (parse : json → Result string A) (o : option json) :
    Result string (list A) :=
  match o ≫= json_as_array with
  | None => Ok []
  | Some arr => parse_entries parse arr
  end.

Definition parse_instructions_array (result : json) (keys : list string) :
    Result string (list FetchedInstruction) :=
  parse_array (parse_instruction keys)
    (json_path ["transaction"; "message"; "instructions"] result).

Definition parse_token_balance_array (arr : option json) (keys : list string) :
    Result string (list FetchedTokenBalance) :=
  parse_array (parse_token_balance keys) arr.

(** What could not be resolved makes the answer unsupported, not invalid. *)
Definition or_unsupported {A} (what : string) (meta : json) (r : Result string A)
    (k : A → Result string TxFetchOutcome) : Result string TxFetchOutcome :=
  match r with
  | Ok a => k a
  | Err e =>
      Ok (VerifierUnsupported ("unresolved " +:+ what +:+ " (alt_present=" +:+
            fmt_bool (alt_present meta) +:+ "): " +:+ e))
  end.

Definition parse_get_transaction_result (result : json) : Result string TxFetchOutcome :=
  slot ← ok_or (json_get "slot" result ≫= json_as_u64) "missing/non-u64 slot";
  meta ← ok_or (json_get "meta" result) "missing meta";
  let err :=
    e ← json_get "err" meta;
    if json_is_null e then None
    else Some (match json_to_string e with Ok s => s | Err _ => "<unserializable>" end) in
  let keys := account_keys result meta in
  or_unsupported "preTokenBalances" meta
    (parse_token_balance_array (json_get "preTokenBalances" meta) keys) (λ pre,
  or_unsupported "postTokenBalances" meta
    (parse_token_balance_array (json_get "postTokenBalances" meta) keys) (λ post,
  or_unsupported "instructions" meta (parse_instructions_array result keys) (λ instructions,
  Ok (Available (MkFetchedTx slot err pre post instructions))))).

(** [LiveTxFetcher::fetch] after the request: the body that came back. *)
Definition fetch_of_body (v : json) : Result string TxFetchOutcome :=
  match json_get "error" v with
  | Some err =>
      let msg := match json_to_string err with Ok s => s | Err _ => "{}" end in
      let lower := to_ascii_lowercase (str_bytes msg) in
      if contains_str (str_bytes "version") lower && contains_str (str_bytes "unsupported") lower
      then Ok (VerifierUnsupported ("rpc rejected as unsupported version: " +:+ msg))
      else Err ("rpc error: " +:+ msg)
  | None =>
      match json_get "result" v with
      | None => Ok NotYetAvailable
      | Some result =>
          if json_is_null result then Ok NotYetAvailable
          else map_err (λ e, "getTransaction parse: " +:+ e)
                 (parse_get_transaction_result result)
      end
  end.
End parser.
