(* ===== verification/OrderCommand.v ===== *)
(** * The conditional-deposit command

    The parser of stage2_w5h_chat.rs: "If Solend Main Pool USDC deposit APY is above
    1%, deposit 0.25 USDC from my wallet, expires in 3 minutes", with its Chinese
    form.  A slice of the text that cuts a character panics. *)
From S2P Require Import Prelude WatcherBase RuleStore RustText.
#[local] Open Scope string_scope.
#[local] Open Scope Z_scope.

Record W5hParsed := MkW5hParsed {
  wp_threshold_bps : Z;
  wp_threshold_pct_label : string;
  wp_amount_raw : Z;
  wp_expires_seconds : Z
}.

Definition W5H_DEPOSIT_AMOUNT_RAW : Z := 250000.
Definition W5H_EXPIRY_SECONDS : Z := 180.

Inductive W5hParseError :=
| MissingMarker (what : string)
| WrongPool (detail : string)
| UnsupportedAmount (detail : string)
| UnsupportedExpiry (detail : string)
| MalformedPercent (detail : string)
| NegativeThreshold (value : string)
| ThresholdOverflow (value : string).

Definition show_w5h_parse_error (e : W5hParseError) : string :=
  match e with
  | MissingMarker what => "missing marker: " +:+ what
  | WrongPool detail => "wrong pool: " +:+ detail
  | UnsupportedAmount detail => "unsupported amount: " +:+ detail
  | UnsupportedExpiry detail => "unsupported expiry: " +:+ detail
  | MalformedPercent detail => "malformed percent: " +:+ detail
  | NegativeThreshold value => "negative threshold: " +:+ value
  | ThresholdOverflow value => "threshold overflow: " +:+ value
  end.

Definition looks_like_w5h_chat_command (text : string) : bool :=
  let lower := to_ascii_lowercase (str_bytes text) in
  let has s := contains_str (str_bytes s) lower in
  let pool_named := has "save" || has "solend" in
  let amount_named := has "0.25 usdc" || has "0.25usdc" || has "250000" in
  let bounded_executor_form := has "from my bounded executor wallet" || has "into solend." in
  let strict_threshold_marker := (has "above " || has "> " || has ">") && has "%" in
  pool_named && amount_named && negb bounded_executor_form && strict_threshold_marker.

(** The loop of [normalize_whitespace]. *)
Fixpoint collapse (cs : list Char) (last_space : bool) (out : list byte) : list byte :=
  match cs with
  | [] => out
  | c :: cs =>
      if is_whitespace c then
        if last_space then collapse cs true out else collapse cs true (out ++ [Byte.x20])
      else collapse cs false (out ++ c.2)
  end.
Definition normalize_whitespace (s : list byte) : list byte :=
  pop_spaces (collapse (chars s) true []).

(** ** The threshold *)

(** The text between a marker and the next percent sign, unless blank. *)
Definition pct_after (marker s : list byte) : option (list byte) :=
  idx ← find_str marker s;
  let after := drop (idx + length marker) s in
  pct_end ← find_str (str_bytes "%") after;
  let pct := trim (take pct_end after) in
  if bool_decide (pct = []) then None else Some pct.

(** The first marker that gives one. *)
Fixpoint find_pct (markers : list (list byte)) (s : list byte) : option (list byte) :=
  match markers with
  | [] => None
  | marker :: markers =>
      match pct_after marker s with Some pct => Some pct | None => find_pct markers s end
  end.
Definition find_threshold_pct (s : list byte) : option (list byte) :=
  find_pct [str_bytes "above "; str_bytes "> "; str_bytes ">"] s.

(** ** The amount *)

(** The bytes that continue a number. *)
Definition is_number_byte (b : byte) : bool := is_ascii_digit b || bool_decide (b = Byte.x2e).
Fixpoint number_length (l : list byte) : nat :=
  match l with
  | b :: l => if is_number_byte b then S (number_length l) else 0
  | [] => 0
  end.
Fixpoint spaces_length (l : list byte) : nat :=
  match l with Byte.x20 :: l => S (spaces_length l) | _ => 0 end.

(** [&s[j..j + 4]]: panics when the end cuts a character. *)
Definition four_at (s : list byte) (j : nat) : Result (Fault W5hParseError) (list byte) :=
  if is_char_boundary s j && is_char_boundary s (j + 4) then Ok (take 4 (drop j s))
  else Err Panic.

(** The loop of [find_explicit_amount_usdc] from byte [i], for at most [n] rounds:
    [None] when they do not suffice. *)
Fixpoint find_amount_from (n : nat) (s : list byte) (i : nat) :
    option (Result (Fault W5hParseError) (option (list byte))) :=
  match n with
  | O => None
  | S n =>
      match s !! i with
      | None => Some (Ok None)
      | Some b =>
          if negb (is_ascii_digit b) then find_amount_from n s (S i) else
          let start := i in
          let i := (i + number_length (drop i s))%nat in
          let num := take (i - start) (drop start s) in
          let j := (i + spaces_length (drop i s))%nat in
          if (j + 4 <=? length s)%nat then
            match four_at s j with
            | Err e => Some (Err e)
            | Ok unit_text =>
                if bool_decide (unit_text = str_bytes "usdc") then Some (Ok (Some num))
                else find_amount_from n s i
            end
          else find_amount_from n s i
      end
  end.
(** One round more than the bytes is enough. *)
Definition find_explicit_amount_usdc (s : list byte) :
    Result (Fault W5hParseError) (option (list byte)) :=
  default (Ok None) (find_amount_from (S (length s)) s 0).

(** ** The expiry *)
Definition no_spaces (s : list byte) : list byte :=
  join_chars (filter (λ c, is_whitespace c = false) (chars s)).

Definition matches_three_minute_expiry (s : list byte) : bool :=
  let trimmed := join_words (split_whitespace s) in
  contains_str (str_bytes "expires in 3 minute") trimmed
  || contains_str (str_bytes "expiry 3 minute") trimmed
  || contains_str (str_bytes "有效期3分鐘") (no_spaces s)
  || contains_str (str_bytes "有效期3分钟") (no_spaces s).

(** The digits between a prefix and " minute". *)
Definition minutes_after (prefix trimmed : list byte) : option (list byte) :=
  idx ← find_str prefix trimmed;
  let after := drop (idx + length prefix) trimmed in
  end_idx ← find_str (str_bytes " minute") after;
  let n := trim (take end_idx after) in
  if forallb is_ascii_digit n && negb (bool_decide (n = [])) then Some n else None.

Fixpoint leading_digits (l : list byte) : list byte :=
  match l with
  | b :: l => if is_ascii_digit b then b :: leading_digits l else []
  | [] => []
  end.

Definition find_expiry_minutes (s : list byte) : option (list byte) :=
  let trimmed := join_words (split_whitespace s) in
  match minutes_after (str_bytes "expires in ") trimmed with
  | Some n => Some n
  | None =>
      match minutes_after (str_bytes "expiry ") trimmed with
      | Some n => Some n
      | None =>
          let marker := str_bytes "有效期" in
          idx ← find_str marker (no_spaces s);
          match leading_digits (drop (idx + length marker) (no_spaces s)) with
          | [] => None
          | n => Some n
          end
      end
  end.

(** ** The parser *)

Section parser.
Context `{DebugText}.

Definition decimal_percent_to_bps (s : list byte) : Result W5hParseError Z :=
  _ ← throw_if (bool_decide (s = [])) (MalformedPercent "empty");
  let parts := split_at_dots s in
  _ ← throw_if (2 <? length parts)%nat (MalformedPercent "too many dots");
  let whole_str := match default [] (parts !! 0%nat) with [] => str_bytes "0" | p => p end in
  let frac_str := default [] (parts !! 1%nat) in
  _ ← throw_if (2 <? length frac_str)%nat (MalformedPercent "more than two fractional digits");
  whole ← map_err (λ _, MalformedPercent ("non-numeric whole part: " +:+ debug_str whole_str))
            (parse_u32 whole_str);
  frac ← (match frac_str with
          | [] => Ok 0
          | _ =>
              let padded := (frac_str ++ replicate (2 - length (chars frac_str)) Byte.x30)%list in
              map_err (λ _, MalformedPercent
                ("non-numeric fractional part: " +:+ debug_str frac_str)) (parse_u32 padded)
          end);
  ok_or (w ← checked_u 32 (whole * 100); checked_u 32 (w + frac))
    (ThresholdOverflow (bytes_str s)).

(** Which other expiry than three minutes the text names. *)
Definition other_expiry (normalized text : list byte) : option (list byte) :=
  let found := match find_expiry_minutes normalized with
               | Some n => Some n | None => find_expiry_minutes text end in
  if matches_three_minute_expiry normalized || matches_three_minute_expiry text then None
  else found.

Definition parse_w5h_chat_command (text : string) :
    Result (Fault W5hParseError) W5hParsed :=
  let normalized := normalize_whitespace (to_ascii_lowercase (str_bytes text)) in
  let has s := contains_str (str_bytes s) normalized in
  _ ← throw_if (negb (has "save" || has "solend"))
        (Fails (WrongPool "expected 'Save' / 'Solend' / 'Save Finance'"));
  let amount_ok := has "0.25 usdc" || has "0.25usdc" || (has "250000" && has "usdc") in
  _ ← throw_if (negb amount_ok) (Fails (UnsupportedAmount "only 0.25 USDC is supported in W5h"));
  amount ← find_explicit_amount_usdc normalized;
  _ ← (match amount with
       | Some amt_str =>
           throw_if (negb (bool_decide (amt_str = str_bytes "0.25")))
             (Fails (UnsupportedAmount ("amount " +:+ bytes_str amt_str +:+
                " USDC is not supported (only 0.25 USDC)")))
       | None => Ok tt
       end);
  _ ← (match other_expiry normalized (str_bytes text) with
       | Some n => Err (Fails (UnsupportedExpiry
                     ("expiry " +:+ bytes_str n +:+ " minutes is not supported (only 3 minutes)")))
       | None => Ok tt
       end);
  pct_str ← ok_or (find_threshold_pct normalized)
              (Fails (MissingMarker "'above X%' or '> X%'"));
  _ ← throw_if (starts_with (str_bytes "-") pct_str)
        (Fails (NegativeThreshold (bytes_str pct_str)));
  threshold_bps ← map_err Fails (decimal_percent_to_bps pct_str);
  Ok (MkW5hParsed threshold_bps (bytes_str pct_str) W5H_DEPOSIT_AMOUNT_RAW W5H_EXPIRY_SECONDS).
End parser.
