(* ===== verification/ChatExecute.v ===== *)
(** * Chat execution ([stage2_chat_execute.rs])

    An approved order is executed: every gate is passed in order, the rule and the
    market are read again, the intent's budget is leased, the deposit is handed to
    the sender and the answer is written back.  Also the chat command that asks
    for it.  The request may panic the task: [None] as the handler's result. *)
From S2P Require Import Prelude Interaction WatchRules WatcherBase RuleStore RustText.
From S2P Require Import FundingStore FundingSafety FundingEvents MarketReading DemoCommand.
#[local] Open Scope string_scope.
#[local] Open Scope Z_scope.

(** ** Constants *)
Definition W5G_TARGET_OBLIGATION_BS58 : string := "BdFLjCcP9mCy557vNNGVbTUuvHxXsh8hc6jXzaPra1wN".
Definition DEMO_RESERVE_BS58 : string := "BgxfHJDzm44T7XG68MYKx7YisTjZu73tVovyZSjJMpmw".
Definition W5G_SERIALIZED_TX_HARD_LIMIT_BYTES : Z := 1232.
Definition W5G_POLL_TOTAL_TIMEOUT_MS : Z := 120000.
Definition W5G_ENV_MASTER_GATE : string := "CLAW_STAGE2_LIVE_CHAT_EXECUTION".
Definition W5G_ENV_APPROVAL_PHRASE_OWNER : string := "CLAW_STAGE2_CHAT_EXECUTION_APPROVED".
Definition W5G_REQUIRED_APPROVAL_PHRASE : string := "W5G LIVE CHAT CONDITIONAL DEPOSIT APPROVED".
Definition W5G_ENV_DELEGATED_KEYPAIR_PATH : string := "CLAW_STAGE2_DELEGATED_KEYPAIR_PATH".
Definition W5G_ENV_CLUSTER : string := "CLAW_STAGE2_CLUSTER".
Definition W5G_CLUSTER_MAINNET : string := "mainnet-beta".
Definition PHASE5C_MIN_AMOUNT_RAW : Z := 100000.
Definition PHASE5C_MAX_AMOUNT_RAW : Z := 1000000.

Definition in_band (amount_raw : Z) : bool :=
  (PHASE5C_MIN_AMOUNT_RAW <=? amount_raw) && (amount_raw <=? PHASE5C_MAX_AMOUNT_RAW).

(** ** Requests and outcomes *)
Record ChatExecuteRequest := MkChatRequest {
  cx_rule_id_hex : string;
  cx_canonical_rule_hash_hex : string;
  cx_approval_phrase : string
}.

Inductive ChatExecuteStatus :=
| XCompleted | XBroadcastedTimeout | XPrechecksFailed | XExecutionFailed.
#[export] Instance chat_status_eq_dec : EqDecision ChatExecuteStatus.
Proof. solve_decision. Defined.

Inductive ChatExecuteErrorCode :=
| MasterGateMissing | EnvApprovalMismatch | RequestApprovalMismatch | ClusterMismatch
| KeypairPathMissing | KeypairLoadFailed | RpcUrlMissing | RuleNotFound
| CanonicalHashMismatch | RuleNotExecutable | BudgetInsufficient | SaveApyBelowThreshold
| MarketDataUnavailable | NativeAprFetchFailed | AmountMismatch | TxBuildFailed
| TxSizeExceeded | BroadcastFailed | OnChainFailure | PollExhausted | PostTxFetchFailed
| RepoUpdateFailed.

Record ChatExecuteOutcome := MkChatOutcome {
  xo_status : ChatExecuteStatus;
  xo_rule_id_hex : string;
  xo_canonical_rule_hash_hex : string;
  xo_tx_signature : option string;
  xo_solscan_url : option string;
  xo_confirmation_slot : option Z;
  xo_used_save_display_apy_bps : option Z;
  xo_used_native_onchain_apr_bps : option Z;
  xo_used_threshold_bps : option Z;
  xo_before_usdc_raw : option Z;
  xo_after_usdc_raw : option Z;
  xo_usdc_delta_raw : option Z;
  xo_before_ctoken_amount : option Z;
  xo_after_ctoken_amount : option Z;
  xo_ctoken_delta_raw : option Z;
  xo_serialized_tx_bytes : option Z;
  xo_instruction_count : option Z;
  xo_ctoken_ata_create_included : option bool;
  xo_error : option ChatExecuteErrorCode;
  xo_error_reason : option string
}.

Definition precheck_failure (request : ChatExecuteRequest) (code : ChatExecuteErrorCode)
    (reason : string) : ChatExecuteOutcome :=
  MkChatOutcome XPrechecksFailed (cx_rule_id_hex request) (cx_canonical_rule_hash_hex request)
    None None None None None None None None None None None None None None None (Some code)
    (Some reason).

(** ** The chat command *)
Inductive W5gChatCommandParseError :=
| MissingPrefix
| MissingRuleIdHex
| InvalidRuleIdHex (value : string)
| MissingCanonicalHashHex
| InvalidCanonicalHashHex (value : string)
| MissingApprovalPhraseMarker
| EmptyApprovalPhrase.

Definition show_command_error (e : W5gChatCommandParseError) : string :=
  match e with
  | MissingPrefix => "missing 'Execute W5g conditional deposit' prefix"
  | MissingRuleIdHex => "missing 32-char rule_id hex after the prefix"
  | InvalidRuleIdHex value =>
      "rule_id hex must be 32 lowercase/uppercase hex chars; got " +:+ debug_str value
  | MissingCanonicalHashHex => "missing 64-char canonical_rule_hash hex after rule_id"
  | InvalidCanonicalHashHex value =>
      "canonical_rule_hash hex must be 64 hex chars; got " +:+ debug_str value
  | MissingApprovalPhraseMarker => "missing 'approval phrase' marker after canonical hash"
  | EmptyApprovalPhrase => "approval phrase is empty"
  end.

Definition command_prefix : list byte := str_bytes "execute w5g conditional deposit".
Definition tail_marker : list byte := str_bytes "approval phrase".

Definition looks_like_w5g_chat_command (text : string) : bool :=
  let lower := to_ascii_lowercase (str_bytes text) in
  contains_str command_prefix lower && contains_str tail_marker lower.

Definition is_hex_token (n : nat) (token : list byte) : bool :=
  (length token =? n)%nat && forallb is_ascii_hexdigit token.

Definition parse_w5g_chat_command (text : string) :
    Result W5gChatCommandParseError ChatExecuteRequest :=
  let bytes := str_bytes text in
  let lower := to_ascii_lowercase bytes in
  prefix_idx ← ok_or (find_str command_prefix lower) MissingPrefix;
  let scan_from := (prefix_idx + length command_prefix)%nat in
  let tokens := split_whitespace (drop scan_from bytes) in
  rule_id_token ← ok_or (tokens !! 0%nat) MissingRuleIdHex;
  _ ← throw_if (negb (is_hex_token 32 rule_id_token))
        (InvalidRuleIdHex (bytes_str rule_id_token));
  canonical_hash_token ← ok_or (tokens !! 1%nat) MissingCanonicalHashHex;
  _ ← throw_if (negb (is_hex_token 64 canonical_hash_token))
        (InvalidCanonicalHashHex (bytes_str canonical_hash_token));
  i ← ok_or (find_str tail_marker (drop scan_from lower)) MissingApprovalPhraseMarker;
  let tail_idx := (scan_from + i + length tail_marker)%nat in
  let approval_phrase := bytes_str (trim (drop tail_idx bytes)) in
  _ ← throw_if (bool_decide (approval_phrase = "")) EmptyApprovalPhrase;
  Ok (MkChatRequest (bytes_str rule_id_token) (bytes_str canonical_hash_token) approval_phrase).

(** ** Configuration *)

(** [std::env::var(..).ok()] *)
Notation Env := (string → option string).

Record Stage2ChatExecuteConfig := MkChatConfig {
  cc_master_gate_on : bool;
  cc_env_approval_phrase : option string;
  cc_cluster : option string;
  cc_rpc_url_present : bool;
  cc_keypair_path_present : bool
}.

Definition not_blank (o : option string) : bool :=
  match o with Some s => negb (is_blank s) | None => false end.

Definition chat_config_from_std_env (env : Env) : Stage2ChatExecuteConfig :=
  MkChatConfig
    (match env W5G_ENV_MASTER_GATE with Some v => bool_decide (v = "1") | None => false end)
    (env W5G_ENV_APPROVAL_PHRASE_OWNER)
    (env W5G_ENV_CLUSTER)
    (not_blank (match env "HELIUS_RPC_URL" with Some s => Some s | None => env "CLAW_RPC_URL" end))
    (not_blank (env W5G_ENV_DELEGATED_KEYPAIR_PATH)).

(** ** Helpers *)

(** The loop of [decode_rule_id_hex] from byte [i]: a slice that cuts a character
    panics ([None]); an unreadable pair gives [Some None]. *)
Fixpoint decode_pairs (s : list byte) (i n : nat) : option (option (list byte)) :=
  match n with
  | O => Some (Some [])
  | S n =>
      if is_char_boundary s (2 * i) && is_char_boundary s (2 * i + 2) then
        match from_str_radix 8 16 (take 2 (drop (2 * i) s)) with
        | Ok v =>
            out ← decode_pairs s (S i) n;
            Some (match out with Some out => Some (byte_of v :: out) | None => None end)
        | Err _ => Some None
        end
      else None
  end.

Definition decode_rule_id_hex (hex_str : string) : option (option (list byte)) :=
  let s := trim (str_bytes hex_str) in
  if (length s =? 32)%nat then decode_pairs s 0 16 else Some None.

Definition equals_ci : string → string → bool := eq_ignore_ascii_case.

Definition rule_status_is_executable (status : WatchRuleStatus) : bool :=
  match status with Active | ConditionMet => true | _ => false end.

(** [{:?}] of [WatchRuleStatus] *)
Definition debug_status (s : WatchRuleStatus) : string :=
  match s with
  | Active => "Active" | ConditionMet => "ConditionMet" | Executing => "Executing"
  | Completed => "Completed" | StatusExpired => "Expired" | Revoked => "Revoked"
  | Failed => "Failed"
  end.

Fixpoint extract_threshold (conditions : list Condition) : option Z :=
  match conditions with
  | [] => None
  | SolendReserveSupplyRate _ _ _ _ threshold_bps _ _ _ _ :: _ => Some threshold_bps
  | _ :: conditions => extract_threshold conditions
  end.
Definition extract_threshold_bps (rule : WatchRule) : option Z :=
  extract_threshold (wr_conditions rule).

Definition bps_to_pct_label (bps : Z) : string :=
  let frac := bps mod 100 in
  fmt (bps / 100) +:+ "." +:+ (if frac <? 10 then "0" +:+ fmt frac else fmt frac).

Definition signed_delta (before after : Z) : Z := as_i64 (after - before).

(** ** The executor *)

(** Steps 1 to 5. *)
Definition gates (config : Stage2ChatExecuteConfig) (request : ChatExecuteRequest) :
    Result (ChatExecuteErrorCode * string) unit :=
  _ ← throw_if (negb (cc_master_gate_on config))
        (MasterGateMissing, W5G_ENV_MASTER_GATE +:+ " is not set to " +:+ debug_str "1");
  env_phrase ← ok_or (cc_env_approval_phrase config)
    (EnvApprovalMismatch, W5G_ENV_APPROVAL_PHRASE_OWNER +:+ " is not set");
  _ ← throw_if (bool_decide (env_phrase ≠ W5G_REQUIRED_APPROVAL_PHRASE))
        (EnvApprovalMismatch, W5G_ENV_APPROVAL_PHRASE_OWNER +:+
           " value does not match the required phrase");
  _ ← throw_if (bool_decide (cx_approval_phrase request ≠ W5G_REQUIRED_APPROVAL_PHRASE))
        (RequestApprovalMismatch,
           "request body approval_phrase does not match required phrase");
  cluster ← ok_or (cc_cluster config) (ClusterMismatch, W5G_ENV_CLUSTER +:+ " is not set");
  _ ← throw_if (bool_decide (cluster ≠ W5G_CLUSTER_MAINNET))
        (ClusterMismatch, W5G_ENV_CLUSTER +:+ "=" +:+ debug_str cluster +:+ ", expected " +:+
           debug_str W5G_CLUSTER_MAINNET);
  _ ← throw_if (negb (cc_keypair_path_present config))
        (KeypairPathMissing, W5G_ENV_DELEGATED_KEYPAIR_PATH +:+ " is not set");
  throw_if (negb (cc_rpc_url_present config))
    (RpcUrlMissing, "neither HELIUS_RPC_URL nor CLAW_RPC_URL is set").

(** [Pubkey::from_str(..).expect(..)] of the pinned constants. *)
Class Pubkeys := pubkey_from_str : string → PubkeyBytes.

(** What the re-checks found. *)
Record Rechecked := MkRechecked {
  rk_rule_id : list byte;
  rk_canonical_actual : string;
  rk_threshold_bps : Z;
  rk_amount_raw : Z;
  rk_save_bps : Z;
  rk_native_apr_bps : Z
}.

(** [base_outcome] with the fields its branches set. *)
Definition sent_outcome (request : ChatExecuteRequest) (k : Rechecked)
    (status : ChatExecuteStatus) (sig : option string) (slot : option Z)
    (usdc ctoken : option (Z * Z)) (bytes count : option Z) (ata : option bool)
    (error : option ChatExecuteErrorCode) (reason : option string) : ChatExecuteOutcome :=
  MkChatOutcome status (cx_rule_id_hex request) (rk_canonical_actual k) sig
    ((λ s, "https://solscan.io/tx/" +:+ s) <$> sig) slot (Some (rk_save_bps k))
    (Some (rk_native_apr_bps k)) (Some (rk_threshold_bps k))
    (fst <$> usdc) (snd <$> usdc) ((λ p, signed_delta p.1 p.2) <$> usdc)
    (fst <$> ctoken) (snd <$> ctoken) ((λ p, signed_delta p.1 p.2) <$> ctoken)
    bytes count ata error reason.

Definition debug_option_str (o : option string) : string :=
  match o with Some s => "Some(" +:+ debug_str s +:+ ")" | None => "None" end.

Section executor.
Context `{Crates, Pubkeys}.

(** Steps 6 to 9, once the rule has been read: what refuses it, or its threshold. *)
Definition rule_checks (request : ChatExecuteRequest) (stored : StoredWatchRule) :
    Result (ChatExecuteErrorCode * string) Z :=
  let rule := st_rule stored in
  let canonical_actual := hex_encode (canonical_rule_hash rule) in
  _ ← throw_if (negb (equals_ci canonical_actual (cx_canonical_rule_hash_hex request)))
        (CanonicalHashMismatch, "submitted canonical_rule_hash " +:+
           cx_canonical_rule_hash_hex request +:+ " does not match persisted " +:+
           canonical_actual);
  _ ← throw_if (negb (rule_status_is_executable (st_status stored)))
        (RuleNotExecutable, "rule status " +:+ debug_status (st_status stored) +:+
           " is not executable for W5g (must be active or condition_met)");
  threshold_bps ← ok_or (extract_threshold_bps rule)
    (RuleNotExecutable, "rule does not carry a SolendReserveSupplyRate condition");
  _ ← throw_if (negb (in_band (wr_max_input_amount_raw rule)))
        (AmountMismatch, "rule.max_input_amount_raw " +:+ fmt (wr_max_input_amount_raw rule)
           +:+ " outside Phase 5c-lite band [" +:+ fmt PHASE5C_MIN_AMOUNT_RAW +:+ ", " +:+
           fmt PHASE5C_MAX_AMOUNT_RAW +:+ "]");
  Ok threshold_bps.

Notation refuse request code reason := (mret (Some (precheck_failure request code reason))).

(** Step 12: what the sender reported is written back. *)
Definition settle (wired : bool) (request : ChatExecuteRequest) (k : Rechecked)
    (send_outcome : ChatExecuteSendOutcome) : FProg (option ChatExecuteOutcome) :=
  let id := cx_rule_id_hex request in
  let intent_call c : FProg unit :=
    if wired then _ ← call (IntentCall c); mret tt else mret tt in
  let out status sig slot usdc ctoken bytes count ata error reason :
      FProg (option ChatExecuteOutcome) :=
    mret (Some (sent_outcome request k status sig slot usdc ctoken bytes count ata error
                  reason)) in
  match send_outcome with
  | SendFinalized sig slot bytes count ata bu au bc ac =>
      r ← call (RuleMarkCompleted (rk_rule_id k) (rk_amount_raw k) slot);
      let repo_marked := match r with Ok n => n =? 1 | Err _ => false end in
      _ ← intent_call (FCompleted id sig);
      out XCompleted (Some sig) (Some slot) (Some (bu, au)) (Some (bc, ac)) (Some bytes)
        (Some count) (Some ata)
        (if repo_marked then None else Some RepoUpdateFailed)
        (if repo_marked then None
         else Some ("rule was finalized on-chain but the repo update returned 0 rows; " +:+
                "the signature is real, the rule may already be in a non-active state"))
  | SendTimeout sig bytes count ata last_status =>
      out XBroadcastedTimeout (Some sig) None None None (Some bytes) (Some count) (Some ata)
        (Some PollExhausted)
        (Some ("polling deadline " +:+ fmt W5G_POLL_TOTAL_TIMEOUT_MS +:+
               " ms hit; last status " +:+ debug_option_str last_status))
  | SendTxBuildFailed reason =>
      _ ← intent_call (FRelease id ("tx build failed: " +:+ reason));
      out XExecutionFailed None None None None None None None (Some TxBuildFailed) (Some reason)
  | SendTxSizeExceeded bytes count ata =>
      _ ← intent_call (FRelease id ("tx size " +:+ fmt bytes +:+ " > 1232 limit"));
      out XExecutionFailed None None None None (Some bytes) (Some count) (Some ata)
        (Some TxSizeExceeded)
        (Some ("serialized tx " +:+ fmt bytes +:+ " bytes > " +:+
               fmt W5G_SERIALIZED_TX_HARD_LIMIT_BYTES +:+ " hard limit"))
  | SendBroadcastFailed reason =>
      _ ← intent_call (FRelease id ("broadcast failed: " +:+ reason));
      out XExecutionFailed None None None None None None None (Some BroadcastFailed)
        (Some reason)
  | SendOnChainFailure sig reason bytes count ata =>
      _ ← intent_call (FFailed id ("on-chain failure: " +:+ reason));
      out XExecutionFailed (Some sig) None None None (Some bytes) (Some count) (Some ata)
        (Some OnChainFailure) (Some reason)
  end.

(** Steps 11a, 11b. *)
Definition lease_and_send (wired : bool) (request : ChatExecuteRequest) (k : Rechecked)
    (send_request : ChatExecuteSendRequest) : FProg (option ChatExecuteOutcome) :=
  let id := cx_rule_id_hex request in
  let send : FProg (option ChatExecuteOutcome) :=
    o ← call (SendDeposit id send_request); settle wired request k o in
  if wired then
    now_ms ← call ClockNow;
    r ← call (IntentCall (FLeaseExecution id now_ms));
    match r with
    | Ok n =>
        if n =? 1 then send
        else refuse request RuleNotExecutable
               ("W5h funding intent is not in `budget_reserved` (or already leased / " +:+
                "refunding / completed / expired); execution lease could not be acquired")
    | Err e =>
        refuse request RepoUpdateFailed
          ("W5h intent_repo.lease_execution failed: " +:+ show_store_error e)
    end
  else send.

(** Step 10. *)
Definition recheck_and_send (wired : bool) (request : ChatExecuteRequest)
    (rule_id : list byte) (rule : WatchRule) (threshold_bps : Z) :
    FProg (option ChatExecuteOutcome) :=
  let amount_raw := wr_max_input_amount_raw rule in
  save ← call FetchSaveApy;
  match save with
  | Err e => refuse request MarketDataUnavailable
             ("save APY fetch failed: " +:+ show_evaluation_error e)
  | Ok save =>
      let save_bps := sr_save_display_apy_bps save in
      if save_bps <=? threshold_bps
      then refuse request SaveApyBelowThreshold
             ("Save APY " +:+ fmt save_bps +:+ " bps <= threshold " +:+ fmt threshold_bps +:+
              " bps at re-check time")
      else
        native ← call (FetchNativeApr ""
          (MkDemoParsed threshold_bps (bps_to_pct_label threshold_bps) amount_raw));
        match native with
        | Err e => refuse request NativeAprFetchFailed
                       ("native APR fetch failed: " +:+ show_evaluation_error e)
        | Ok native =>
            if er_current_budget_raw native <? amount_raw
            then refuse request BudgetInsufficient
                   ("controlled wallet USDC balance " +:+ fmt (er_current_budget_raw native)
                    +:+ " raw < required " +:+ fmt amount_raw +:+ " raw")
            else
              lease_and_send wired request
                (MkRechecked rule_id (hex_encode (canonical_rule_hash rule)) threshold_bps
                   amount_raw save_bps (er_current_apr_bps native))
                (MkSendRequest (wr_delegated_wallet rule) amount_raw
                   (pubkey_from_str W5G_TARGET_OBLIGATION_BS58)
                   (pubkey_from_str DEMO_RESERVE_BS58))
        end
  end.

(** [wired]: the intent repository is attached ([with_w5h_intent_repo]). *)
Definition execute (config : Stage2ChatExecuteConfig) (wired : bool)
    (request : ChatExecuteRequest) : FProg (option ChatExecuteOutcome) :=
  match gates config request with
  | Err e => refuse request e.1 e.2
  | Ok _ =>
      match decode_rule_id_hex (cx_rule_id_hex request) with
      | None => mret None
      | Some None =>
          refuse request RuleNotFound ("rule_id_hex is not a 32-char hex string: " +:+
            debug_str (cx_rule_id_hex request))
      | Some (Some rule_id) =>
          found ← call (RuleGet rule_id);
          match found with
          | Ok None =>
              refuse request RuleNotFound
                ("rule_id " +:+ cx_rule_id_hex request +:+ " not found in repo")
          | Err e =>
              refuse request RuleNotFound ("repo.get failed: " +:+ show_store_error e)
          | Ok (Some stored) =>
              match rule_checks request stored with
              | Err e => refuse request e.1 e.2
              | Ok threshold_bps =>
                  recheck_and_send wired request rule_id (st_rule stored) threshold_bps
              end
          end
      end
  end.
End executor.
