(* ===== verification/DraftFacts.v ===== *)
(** * What holds of draft orders

    A draft is confirmed at most once, in time, under its own hash; the hash binds
    the terms; amounts and percent labels are read exactly. *)
From S2P Require Import Prelude WatchRules WatcherBase RuleStore RustText OrderDraft ChatExecute.
From S2P Require DemoCommand OrderCommand.
#[local] Open Scope string_scope.
#[local] Open Scope Z_scope.

(** ** The store over time *)
Inductive DraftEvent :=
| EvInsert (now : Z) (d : DraftIntent)
| EvGet (now : Z) (key : DraftKey) (found : option DraftIntent)
| EvConsume (now : Z) (key : DraftKey) (hash : string) (o : DraftConsumeOutcome)
| EvDrop (key : DraftKey).

(** The events that replace or remove what is stored under a key. *)
Definition touches (key : DraftKey) (e : DraftEvent) : bool :=
  match e with
  | EvInsert _ d => bool_decide (draft_key d = key)
  | EvConsume _ k _ (Consumed _) => bool_decide (k = key)
  | EvDrop k => bool_decide (k = key)
  | _ => false
  end.

(** The latest of them; logs are newest first. *)
Definition last_touch (key : DraftKey) (l : list DraftEvent) : option DraftEvent :=
  List.find (touches key) l.

Section store.
Context `{Crates, CanonicalJson}.

(** A store with the calls made on it since it was created. *)
Inductive draft_history (ttl : Z) : DraftIntentStore → list DraftEvent → Prop :=
| dh_new s : new_store ttl = Some s → draft_history ttl s []
| dh_insert s l now d : draft_history ttl s l →
    draft_history ttl (insert_draft now d s).2 (EvInsert now d :: l)
| dh_get s l now session id : draft_history ttl s l →
    draft_history ttl (get_draft now session id s).2
      (EvGet now (session, id) (get_draft now session id s).1 :: l)
| dh_consume s l now session id hash : draft_history ttl s l →
    draft_history ttl (consume_if_match now session id hash s).2
      (EvConsume now (session, id) hash (consume_if_match now session id hash s).1 :: l)
| dh_drop s l session id : draft_history ttl s l →
    draft_history ttl (drop_draft session id s) (EvDrop (session, id) :: l).

(** What a slot says of the log. *)
Definition slot_ok (ttl : Z) (l : list DraftEvent) (key : DraftKey) (e : StoredEntry) : Prop :=
  match e with
  | ActiveDraft s => ∃ t, last_touch key l = Some (EvInsert t (sd_draft s)) ∧
      draft_key (sd_draft s) = key ∧ sd_expires_at_ms s = after_seconds t ttl
  | Tombstone _ => ∃ now hash d, last_touch key l = Some (EvConsume now key hash (Consumed d))
  end.
Definition store_ok (ttl : Z) (s : DraftIntentStore) (l : list DraftEvent) : Prop :=
  ds_ttl_seconds s = ttl ∧ ∀ key e, ds_by_key s !! key = Some e → slot_ok ttl l key e.

Lemma slot_ok_cons ttl l key e x : touches key x = false → slot_ok ttl l key e →
  slot_ok ttl (x :: l) key e.
Proof. intros Hx. unfold slot_ok, last_touch. cbn [List.find]. by rewrite Hx. Qed.

Lemma store_ok_quiet ttl s s' l x :
  (∀ key e, ds_by_key s' !! key = Some e → ds_by_key s !! key = Some e ∧ touches key x = false) →
  ds_ttl_seconds s' = ds_ttl_seconds s → store_ok ttl s l → store_ok ttl s' (x :: l).
Proof.
  intros Hsub Ht [Httl Hok]. split; [by rewrite Ht|]. intros key e [He Hx]%Hsub.
  apply slot_ok_cons; [done|by apply Hok].
Qed.

Lemma store_ok_put ttl s l key x e : touches key x = true →
  (∀ key', key' ≠ key → touches key' x = false) →
  slot_ok ttl (x :: l) key e → store_ok ttl s l → store_ok ttl (put key e s) (x :: l).
Proof.
  intros Hx Hother He [Httl Hok]. split; [done|]. cbn [ds_by_key put].
  intros key' e' [[<- <-]|[Hne Hl]]%lookup_insert_Some; [done|].
  apply slot_ok_cons; [by apply Hother|by apply Hok].
Qed.

Lemma remove_sub key s key' e : ds_by_key (remove key s) !! key' = Some e →
  ds_by_key s !! key' = Some e ∧ key' ≠ key.
Proof. cbn. intros [Hne Hl]%lookup_delete_Some. by split. Qed.

Lemma draft_history_ok ttl s l : draft_history ttl s l → store_ok ttl s l.
Proof.
  induction 1 as [s Hs|s l now d _ IH|s l now session id _ IH|s l now session id hash _ IH
    |s l session id _ IH].
  - unfold new_store in Hs. case_match; [|done]. injection Hs as <-. split; [done|].
    intros key e He. cbn in He. by rewrite lookup_empty in He.
  - cbn [insert_draft snd]. apply store_ok_put; [by apply bool_decide_eq_true| | |done].
    + intros key' Hne. by apply bool_decide_eq_false.
    + exists now. cbn. rewrite bool_decide_eq_true_2 by done. destruct IH as [-> _]. done.
  - assert (∀ o, store_ok ttl s (EvGet now (session, id) o :: l) ∧
      store_ok ttl (remove (session, id) s) (EvGet now (session, id) o :: l)) as Hg.
    { intros o. split; (apply (store_ok_quiet ttl s); [|done|exact IH]); [done|].
      intros key e [? _]%remove_sub. done. }
    unfold get_draft. repeat case_match; apply Hg.
  - unfold consume_if_match. destruct (ds_by_key s !! _) as [[stored|t]|] eqn:He.
    2: { case_match; (apply (store_ok_quiet ttl s); [|done|exact IH]); [done|].
         by intros key e [? _]%remove_sub. }
    2: by (apply (store_ok_quiet ttl s); [|done|exact IH]).
    case_match; [apply (store_ok_quiet ttl s); [|done|exact IH]; by intros key e [? _]%remove_sub|].
    case_match; [by (apply (store_ok_quiet ttl s); [|done|exact IH])|]. cbn [fst snd].
    apply store_ok_put; [by apply bool_decide_eq_true| | |done].
    + intros key' Hne. by apply bool_decide_eq_false.
    + exists now, hash, (sd_draft stored). cbn. by rewrite bool_decide_eq_true_2.
  - apply (store_ok_quiet ttl s); [|done|exact IH]. cbn [drop_draft].
    intros key e [? Hne]%remove_sub. split; [done|]. by apply bool_decide_eq_false.
Qed.

(** C20: A draft is confirmed at most once.  In every sequence of insertions, lookups,
    confirmations and rejections on a store, a confirmation that goes through
    returns the draft last inserted under its session and id, with nothing
    confirmed or dropped there since, before its lifetime ended, and only for the
    hash of that very draft; and "already consumed" is answered only when the
    latest change there was such a confirmation. *)
Theorem draft_confirmed_once ttl s l now key hash o :
  draft_history ttl s (EvConsume now key hash o :: l) →
  match o with
  | Consumed d => ∃ t, last_touch key l = Some (EvInsert t d) ∧ draft_key d = key ∧
      now < after_seconds t ttl ∧ hash = compute_hash d
  | AlreadyConsumed => ∃ t hash' d,
      last_touch key l = Some (EvConsume t key hash' (Consumed d))
  | _ => True
  end.
Proof.
  intros Hh. inversion Hh as [| | |s0 l0 now0 session id hash0 Hh0|]; subst. clear Hh.
  apply draft_history_ok in Hh0 as [_ Hok]. unfold consume_if_match.
  destruct (ds_by_key s0 !! (session, id)) as [[stored|t]|] eqn:He; [| |done];
    pose proof (Hok _ _ He) as Hslot.
  - destruct (sd_expires_at_ms stored <=? now) eqn:Htime; [done|].
    destruct (negb (bool_decide _)) eqn:Hh; [done|]. cbn [fst]. b2p. destruct Hslot as (t & Hl & Hk & Hexp).
    exists t. split_and!; try done. by rewrite <- Hexp.
  - destruct (_ <? _); [|done]. destruct Hslot as (t' & hash' & d & Hl). by exists t', hash', d.
Qed.
End store.

(** ** The hash binds the terms *)
Lemma hex_at_inj n m : 0 ≤ n < 16 → 0 ≤ m < 16 → hex_at n = hex_at m → n = m.
Proof.
  intros Hn Hm. assert (forallb (λ i, forallb (λ j,
    implb (bool_decide (hex_at i = hex_at j)) (i =? j)) (seqZ 0 16)) (seqZ 0 16) = true) as Hall
    by by vm_compute.
  rewrite forallb_forall in Hall. specialize (Hall n). rewrite forallb_forall in Hall.
  intros Heq. assert (∀ i, 0 ≤ i < 16 → In i (seqZ 0 16)) as Hin
    by (intros i Hi; apply list_elem_of_In, elem_of_seqZ; lia).
  specialize (Hall (Hin n Hn) m (Hin m Hm)). rewrite bool_decide_eq_true_2 in Hall by done.
  by apply Z.eqb_eq.
Qed.

Lemma byte_nibbles x : Z.shiftr (byte_val x) 4 = byte_val x / 16 ∧
  Z.land (byte_val x) 15 = byte_val x mod 16.
Proof.
  split; [by rewrite Z.shiftr_div_pow2|]. by rewrite (Z.land_ones _ 4).
Qed.

Lemma nibble_ranges x : 0 ≤ byte_val x / 16 < 16 ∧ 0 ≤ byte_val x mod 16 < 16.
Proof.
  pose proof (byte_val_range x). unfold is_u in *. split; [|by apply Z.mod_pos_bound].
  split; [apply Z.div_pos; lia|apply Z.div_lt_upper_bound; lia].
Qed.

Lemma hex_lower_32_inj a b : hex_lower_32 a = hex_lower_32 b → a = b.
Proof.
  revert b. induction a as [|x a IH]; intros [|y b]; cbn [hex_lower_32]; try done.
  destruct (byte_nibbles x) as [-> ->], (byte_nibbles y) as [-> ->].
  intros [= Hhi Hlo Hrest]. f_equal; [|by apply IH]. apply byte_val_inj.
  destruct (nibble_ranges x), (nibble_ranges y).
  apply hex_at_inj in Hhi; [|done..]. apply hex_at_inj in Hlo; [|done..].
  rewrite (Z_div_mod_eq_full (byte_val x) 16), (Z_div_mod_eq_full (byte_val y) 16). congruence.
Qed.

Lemma preimage_map_inj p q : preimage_map p = preimage_map q → p = q.
Proof.
  intros Heq.
  assert (∀ k, preimage_map p !! k = preimage_map q !! k) as Hk by by rewrite Heq.
  destruct p, q.
  pose proof (Hk "action"); pose proof (Hk "amount_raw"); pose proof (Hk "asset");
  pose proof (Hk "comparison"); pose proof (Hk "controlled_usdc_ata");
  pose proof (Hk "controlled_wallet"); pose proof (Hk "display_source");
  pose proof (Hk "expiry_seconds_after_finalize");
  pose proof (Hk "original_user_message_hash"); pose proof (Hk "protocol");
  pose proof (Hk "threshold_bps"). clear Hk Heq.
  unfold preimage_map in *. cbn in *. simplify_map_eq. done.
Qed.

Record preimage_typed (p : CanonicalDraftPreimage) : Prop := {
  pt_text : Forall (λ s, utf8_valid (str_bytes s) = true)
    [cp_action p; cp_amount_raw p; cp_asset p; cp_comparison p; cp_controlled_usdc_ata p;
     cp_controlled_wallet p; cp_display_source p; cp_original_user_message_hash p; cp_protocol p];
  pt_expiry : is_u 64 (cp_expiry_seconds_after_finalize p);
  pt_threshold : is_u 32 (cp_threshold_bps p)
}.

Lemma preimage_map_typed p : preimage_typed p → map_Forall (λ _ v, json_typed v) (preimage_map p).
Proof.
  intros [Ht He Hb]. repeat (apply Forall_cons in Ht as [? Ht]). unfold preimage_map.
  repeat (apply map_Forall_insert_2; [first [done | unfold json_typed, is_u in *; lia]|]).
  apply map_Forall_empty.
Qed.

Definition preimage_bytes `{CanonicalJson} (d : DraftIntent) : list byte :=
  json_to_vec (preimage_map (canonical_preimage d)).

(** The hash a user confirms binds the order: two drafts with the same hash have
    the same terms (action, pool, threshold, amount, window, wallets and the
    message they came from), unless their two serialized forms are a collision of
    SHA-256. *)
Theorem draft_hash_binds_terms `{CratesLaws, CanonicalJsonLaws} d1 d2 :
  preimage_typed (canonical_preimage d1) → preimage_typed (canonical_preimage d2) →
  compute_hash d1 = compute_hash d2 →
  canonical_preimage d1 = canonical_preimage d2 ∨
  preimage_bytes d1 ≠ preimage_bytes d2 ∧ sha256 (preimage_bytes d1) = sha256 (preimage_bytes d2).
Proof.
  intros Ht1 Ht2 Heq%hex_lower_32_inj.
  destruct (decide (preimage_bytes d1 = preimage_bytes d2)) as [Hj|Hj]; [left|by right].
  apply preimage_map_inj. apply (f_equal json_from_slice) in Hj. unfold preimage_bytes in Hj.
  rewrite json_roundtrip in Hj; [|by apply preimage_map_typed].
  rewrite json_roundtrip in Hj; [|by apply preimage_map_typed]. by apply (inj Some) in Hj.
Qed.

(** ** Amounts *)

(** A decimal text: digits, and after a point more digits. *)
Definition decimal_text (l int_part frac : list byte) : Prop :=
  all_digits int_part = true ∧ all_digits frac = true ∧ l ≠ [] ∧
  (l = int_part ∧ frac = [] ∨ l = (int_part ++ Byte.x2e :: frac)%list).

Lemma split_on_digits piece l : all_digits l = true →
  split_on Byte.x2e piece l = [(piece ++ l)%list].
Proof.
  revert piece. induction l as [|b l IH]; intros piece; [by rewrite app_nil_r|].
  cbn [all_digits forallb split_on]. intros [Hb Hl]%andb_true_iff.
  rewrite bool_decide_eq_false_2 by (by intros ->).
  rewrite IH by done. by rewrite <- app_assoc.
Qed.

Lemma split_on_dot piece l rest : all_digits l = true →
  split_on Byte.x2e piece (l ++ Byte.x2e :: rest) = (piece ++ l)%list :: split_on Byte.x2e [] rest.
Proof.
  revert piece. induction l as [|b l IH]; intros piece; [by rewrite app_nil_r|].
  cbn [all_digits forallb split_on app]. intros [Hb Hl]%andb_true_iff.
  rewrite bool_decide_eq_false_2 by (by intros ->).
  rewrite IH by done. by rewrite <- app_assoc.
Qed.

(** The pieces, put together again. *)
Lemma split_on_join piece l : ∃ p ps, split_on Byte.x2e piece l = p :: ps ∧
  (piece ++ l)%list = (p ++ mjoin (map (cons Byte.x2e) ps))%list.
Proof.
  revert piece. induction l as [|b l IH]; intros piece.
  { exists piece, []. split; [done|]. cbn. by rewrite app_nil_r. }
  cbn [split_on]. case_bool_decide as Hb.
  - subst b. destruct (IH []) as (p & ps & -> & He). exists piece, (p :: ps).
    split; [done|]. cbn. f_equal. f_equal. exact He.
  - destruct (IH (piece ++ [b])%list) as (p & ps & -> & He). exists p, ps.
    split; [done|]. by rewrite <- He, <- app_assoc.
Qed.
(** The whole part of a number, empty for none. *)
Lemma parse_whole w l e : 0 ≤ w → all_digits l = true →
  match l with [] => Ok 0 | _ => map_err (λ _, e) (from_str_radix w 10 l) end =
  (if fits_u w (dec_value 0 l) then Ok (dec_value 0 l) else Err e : Result AmountParseError Z).
Proof.
  intros Hw Hl. destruct l as [|b l].
  - cbn [dec_value foldl]. unfold fits_u. rewrite (proj2 (Z.ltb_lt 0 (2 ^ w))); [done|].
    by apply Z.pow_pos_nonneg.
  - destruct (fits_u w _) eqn:Hf.
    + apply fits_u_spec in Hf. by rewrite from_str_radix_ok.
    + destruct (from_str_radix w 10 (b :: l)) as [z|] eqn:Hz; [|done].
      apply from_str_radix_digits in Hz as (_ & -> & Hu); [|done..].
      apply fits_u_spec in Hu. congruence.
Qed.

Definition amount_value (int_part frac : list byte) : Z :=
  dec_value 0 int_part * 10 ^ 6 + dec_value 0 frac * 10 ^ (6 - Z.of_nat (length frac)).

Lemma padded_value n frac : (length frac ≤ n)%nat → all_digits frac = true →
  all_digits (frac ++ replicate (n - length frac) Byte.x30) = true ∧
  dec_value 0 (frac ++ replicate (n - length frac) Byte.x30) =
    dec_value 0 frac * 10 ^ (Z.of_nat n - Z.of_nat (length frac)) ∧
  0 ≤ dec_value 0 frac * 10 ^ (Z.of_nat n - Z.of_nat (length frac)) < 10 ^ Z.of_nat n.
Proof.
  intros Hlen Hd. rewrite all_digits_app, all_digits_zeros, Hd, dec_value_app, dec_value_zeros.
  rewrite Nat2Z.inj_sub by done. split_and!; [done|done| |].
  - pose proof (dec_value_bounds frac Hd). pose proof (Z.pow_nonneg 10 (Z.of_nat n - Z.of_nat (length frac))). nia.
  - pose proof (dec_value_bounds frac Hd) as [_ Hlt].
    replace (Z.of_nat n) with (Z.of_nat (length frac) + (Z.of_nat n - Z.of_nat (length frac))) at 2 by lia.
    rewrite Z.pow_add_r by lia. apply Z.mul_lt_mono_pos_r; [apply Z.pow_pos_nonneg; lia|done].
Qed.

(** Once split, the amount is its value, when that is positive and fits. *)
Lemma amount_of_parts int_part frac raw :
  all_digits int_part = true → all_digits frac = true → (length frac ≤ 6)%nat →
  (int_value ← (match int_part with
                | [] => Ok 0
                | _ => map_err (λ _, AmountOverflow) (from_str_radix 64 10 int_part)
                end);
   frac_value ← map_err (λ _, AmountOverflow)
     (from_str_radix 64 10 (frac ++ replicate (USDC_DECIMALS - length frac) Byte.x30));
   scaled_int ← ok_or (checked_u 64 (int_value * USDC_RAW_PER_WHOLE)) AmountOverflow;
   raw ← ok_or (checked_u 64 (scaled_int + frac_value)) AmountOverflow;
   _ ← throw_if (raw =? 0) Zero;
   Ok raw) = Ok raw ↔
  raw = amount_value int_part frac ∧ 0 < raw < 2 ^ 64.
Proof.
  intros Hi Hf Hlen. destruct (padded_value 6 frac Hlen Hf) as (Hpd & Hpv & Hpr).
  rewrite parse_whole by done. unfold amount_value, USDC_RAW_PER_WHOLE, USDC_DECIMALS.
  change (Z.of_nat 6) with 6 in *.
  pose proof (proj1 (dec_value_bounds _ Hi)) as Hi0.
  assert (from_str_radix 64 10 (frac ++ replicate (6 - length frac) Byte.x30) =
    Ok (dec_value 0 frac * 10 ^ (6 - Z.of_nat (length frac)))) as ->.
  { rewrite <- Hpv. apply from_str_radix_ok; try done.
    - intros [Hnil Hr]%app_nil. by rewrite Hnil in Hr.
    - rewrite Hpv. unfold is_u. lia. }
  set (iv := dec_value 0 int_part) in *.
  set (fv := dec_value 0 frac * _) in *. clearbody iv fv. unfold fits_u.
  destruct ((0 <=? iv) && (iv <? 2 ^ 64)) eqn:H1; cbn [mbind result_bind map_err].
  2: { b2p. split; [done|]. lia. }
  unfold checked_u, fits_u.
  destruct ((0 <=? iv * 1000000) && _) eqn:H2; cbn [ok_or mbind result_bind].
  2: { b2p. split; [done|]. lia. }
  destruct ((0 <=? iv * 1000000 + fv) && _) eqn:H3; cbn [ok_or mbind result_bind].
  2: { b2p. split; [done|]. lia. }
  change (10 ^ 6) with 1000000 in *.
  destruct (_ =? 0) eqn:H4; cbn [throw_if mbind result_bind]; b2p.
  - split; [done|]. lia.
  - split; [intros [= <-]; split; [done|lia]|]. by intros [-> _].
Qed.

(** A decimal amount is read exactly.  The parser accepts a text exactly when,
    trimmed, it is digits with at most six more after one point, and the amount,
    scaled by a million with no rounding, is positive and fits in 64 bits; and it
    then returns this amount. *)
Theorem parse_usdc_amount_exact s raw :
  parse_usdc_amount_to_raw s = Ok raw ↔
  ∃ int_part frac, decimal_text (trim (str_bytes s)) int_part frac ∧ (length frac ≤ 6)%nat ∧
    raw = amount_value int_part frac ∧ 0 < raw < 2 ^ 64.
Proof.
  unfold parse_usdc_amount_to_raw, split_at_dots.
  generalize (trim (str_bytes s)) as l. intros l. split.
  - destruct (split_on_join [] l) as (p & ps & Hsplit & Hl). rewrite Hsplit. cbn [app] in Hl.
    intros Hp. rewrite !bind_Ok in Hp. destruct Hp as (? & Hne%throw_if_Ok & Hp).
    do 2 (rewrite bind_Ok in Hp; destruct Hp as (? & _ & Hp)).
    rewrite bind_Ok in Hp. destruct Hp as (? & Hlen%throw_if_Ok & Hp).
    rewrite bind_Ok in Hp. destruct Hp as (? & Hpd%throw_if_Ok & Hp).
    rewrite bind_Ok in Hp. destruct Hp as (? & Hfrac & Hp).
    cbn [lookup list_lookup default] in *. b2p. destruct ps as [|f [|? ?]]; [..|cbn in Hlen; lia].
    + apply (amount_of_parts p []) in Hp; [|done|done|cbn; lia]. exists p, [].
      cbn in Hl. rewrite app_nil_r in Hl. subst l.
      split; [split_and!; [done..|by left]|]. split; [cbn; lia|exact Hp].
    + cbn [lookup list_lookup] in Hfrac. rewrite bind_Ok in Hfrac.
      destruct Hfrac as (? & Hfd%throw_if_Ok & Hfl%throw_if_Ok). b2p.
      apply (amount_of_parts p f) in Hp; [|done..]. exists p, f. cbn in Hl. rewrite app_nil_r in Hl.
      split; [split_and!; [done..|by right]|]. split; [done|exact Hp].
  - intros (ip & frac & (Hi & Hf & Hne & Hl) & Hlen & Hraw & Hrange).
    rewrite bool_decide_eq_false_2 by done. cbn [throw_if mbind result_bind].
    assert (∀ c, is_ascii_digit c = false → c ≠ Byte.x2e → starts_with [c] l = false) as Hsign.
    { intros c Hc Hdot. destruct l as [|b l]; [done|]. cbn [starts_with]. rewrite andb_true_r.
      apply bool_decide_eq_false. intros <-. destruct ip as [|b' ip].
      - by destruct Hl as [[[=] _]|[= ? _]].
      - assert (c = b') as -> by (by destruct Hl as [[[=] _]|[= ? _]]).
        cbn in Hi. by rewrite Hc in Hi. }
    change (str_bytes "-") with [Byte.x2d]. change (str_bytes "+") with [Byte.x2b].
    rewrite !Hsign by done. cbn [throw_if mbind result_bind].
    assert (split_on Byte.x2e [] l = [ip] ∧ frac = [] ∨
      split_on Byte.x2e [] l = [ip; frac]) as Hs.
    { destruct Hl as [[-> ->]| ->]; [left|right].
      - by rewrite split_on_digits.
      - rewrite split_on_dot by done. by rewrite split_on_digits. }
    destruct Hs as [[-> ->]| ->]; cbn [lookup list_lookup default length Nat.ltb Nat.leb throw_if
      from_option id mbind result_bind]; unfold all_digits in Hi; rewrite Hi; cbn [negb throw_if mbind result_bind].
    + by apply (amount_of_parts ip []).
    + unfold all_digits in Hf. rewrite Hf. cbn [negb throw_if mbind result_bind].
      rewrite throw_if_false by exact (proj2 (Nat.ltb_ge 6 (length frac)) Hlen).
      by apply (amount_of_parts ip frac).
Qed.

(** ** Percents *)
Definition percent_value (int_part frac : list byte) : Z :=
  dec_value 0 int_part * 100 + dec_value 0 frac * 10 ^ (2 - Z.of_nat (length frac)).

Lemma split_decimal l int_part frac : decimal_text l int_part frac →
  split_at_dots l = [int_part] ∧ frac = [] ∨ split_at_dots l = [int_part; frac].
Proof.
  intros (Hi & Hf & _ & [[-> ->]| ->]); unfold split_at_dots; [left|right].
  - by rewrite split_on_digits.
  - rewrite split_on_dot by done. by rewrite split_on_digits.
Qed.

Lemma percent_ranges int_part frac : all_digits int_part = true → all_digits frac = true →
  is_u 32 (percent_value int_part frac) → (length frac ≤ 2)%nat →
  is_u 32 (dec_value 0 int_part) ∧ is_u 32 (dec_value 0 int_part * 100) ∧
  is_u 32 (dec_value 0 frac * 10 ^ (2 - Z.of_nat (length frac))).
Proof.
  intros Hi Hf Hr Hlen. destruct (padded_value 2 frac Hlen Hf) as (_ & _ & H0).
  change (Z.of_nat 2) with 2 in *. pose proof (proj1 (dec_value_bounds _ Hi)).
  unfold percent_value, is_u in *. lia.
Qed.

Lemma padded_nonempty frac : (frac ++ replicate (2 - length frac) Byte.x30)%list ≠ [].
Proof. intros [-> Hr]%app_nil. done. Qed.

Lemma demo_percent l int_part frac : decimal_text l int_part frac → (length frac ≤ 2)%nat →
  is_u 32 (percent_value int_part frac) →
  DemoCommand.decimal_percent_to_bps l = Ok (percent_value int_part frac).
Proof.
  intros Hd Hlen Hr. pose proof Hd as (Hi & Hf & Hne & _).
  destruct (percent_ranges _ _ Hi Hf Hr Hlen) as (Hr1 & Hr2 & Hr3).
  destruct (padded_value 2 frac Hlen Hf) as (Hpd & Hpv & _). change (Z.of_nat 2) with 2 in *.
  unfold DemoCommand.decimal_percent_to_bps. rewrite bool_decide_eq_false_2 by done.
  assert (∀ e, match int_part with [] => Ok 0 | _ => map_err e (parse_u32 int_part) end =
    (Ok (dec_value 0 int_part) : Result DemoCommand.ParseError Z)) as Hint.
  { intros e. destruct int_part; [done|]. unfold parse_u32. by rewrite from_str_radix_ok. }
  assert (∀ e, map_err e (parse_u32 (DemoCommand.pad_zeros 2 frac)) =
    (Ok (dec_value 0 frac * 10 ^ (2 - Z.of_nat (length frac))) : Result DemoCommand.ParseError Z))
    as Hfrac.
  { intros e. unfold parse_u32, DemoCommand.pad_zeros.
    rewrite from_str_radix_ok, Hpv; try done; [apply padded_nonempty|by rewrite Hpv]. }
  destruct (split_decimal l int_part frac Hd) as [[-> ->]| ->];
    cbn [throw_if mbind result_bind length Nat.ltb Nat.leb lookup list_lookup default from_option id];
    rewrite Hint; cbn [mbind result_bind].
  - rewrite Hfrac. cbn [mbind result_bind]. rewrite checked_u_ok by done.
    cbn [mbind option_bind]. by rewrite checked_u_ok by done.
  - rewrite throw_if_false by exact (proj2 (Nat.ltb_ge 2 (length frac)) Hlen).
    rewrite Hfrac. cbn [mbind result_bind]. rewrite checked_u_ok by done.
    cbn [mbind option_bind]. by rewrite checked_u_ok by done.
Qed.

Lemma digits_ascii l : all_digits l = true → is_ascii l.
Proof.
  unfold all_digits. rewrite forallb_forall. intros Hl. apply Forall_forall. intros b Hb.
  apply list_elem_of_In, Hl in Hb. apply digit_range in Hb. lia.
Qed.

Lemma length_chars_ascii l : is_ascii l → length (chars l) = length l.
Proof.
  intros Hl. rewrite <- (app_nil_r l) at 1. rewrite chars_ascii_app by done.
  by rewrite app_nil_r, length_map.
Qed.

Lemma order_percent `{DebugText} l int_part frac :
  decimal_text l int_part frac → (length frac ≤ 2)%nat → is_u 32 (percent_value int_part frac) →
  OrderCommand.decimal_percent_to_bps l = Ok (percent_value int_part frac).
Proof.
  intros Hd Hlen Hr. pose proof Hd as (Hi & Hf & Hne & _).
  destruct (percent_ranges _ _ Hi Hf Hr Hlen) as (Hr1 & Hr2 & Hr3).
  destruct (padded_value 2 frac Hlen Hf) as (Hpd & Hpv & _). change (Z.of_nat 2) with 2 in *.
  unfold OrderCommand.decimal_percent_to_bps. rewrite bool_decide_eq_false_2 by done.
  assert (∀ e, map_err e (parse_u32 match int_part with [] => str_bytes "0" | b :: p => b :: p end) =
    (Ok (dec_value 0 int_part) : Result OrderCommand.W5hParseError Z)) as Hint.
  { intros e. destruct int_part; [done|]. unfold parse_u32. by rewrite from_str_radix_ok. }
  assert (∀ e, match frac with
    | [] => Ok 0
    | _ => map_err e (parse_u32 (frac ++ replicate (2 - length (chars frac)) Byte.x30))
    end = (Ok (dec_value 0 frac * 10 ^ (2 - Z.of_nat (length frac)))
      : Result OrderCommand.W5hParseError Z)) as Hfrac.
  { intros e. rewrite length_chars_ascii by by apply digits_ascii. destruct frac; [done|].
    unfold parse_u32. rewrite from_str_radix_ok, Hpv; try done. by rewrite Hpv. }
  destruct (split_decimal l int_part frac Hd) as [[-> ->]| ->];
    cbn [throw_if mbind result_bind length Nat.ltb Nat.leb lookup list_lookup default from_option id].
  - rewrite Hint. cbn [mbind result_bind]. rewrite checked_u_ok by done. cbn [mbind option_bind].
    replace (percent_value int_part []) with (dec_value 0 int_part * 100 + 0) in * by done.
    by rewrite checked_u_ok by done.
  - rewrite throw_if_false by exact (proj2 (Nat.ltb_ge 2 (length frac)) Hlen).
    rewrite Hint. cbn [mbind result_bind]. rewrite Hfrac. cbn [mbind result_bind].
    rewrite checked_u_ok by done. cbn [mbind option_bind]. by rewrite checked_u_ok by done.
Qed.

(** The label is a decimal text of the threshold. *)
Lemma label_decimal bps : is_u 32 bps → ∃ int_part frac,
  decimal_text (str_bytes (format_threshold_pct_label bps)) int_part frac ∧
  (length frac ≤ 2)%nat ∧ percent_value int_part frac = bps.
Proof.
  intros Hb. unfold is_u in Hb. pose proof (Z_div_mod_eq_full bps 100).
  pose proof (Z.mod_pos_bound bps 100 ltac:(lia)).
  destruct (fmt_digits (bps / 100)) as (Hw & Hwv & Hwne); [apply Z.div_pos; lia|].
  assert (forallb (λ d, all_digits (str_bytes (fmt d)) &&
    (dec_value 0 (str_bytes (fmt d)) =? d) &&
    (length (str_bytes (fmt d)) =? (if (d <? 10)%Z then 1 else 2))%nat) (seqZ 0 100) = true) as Hsmall
    by by vm_compute.
  assert (∀ d, 0 ≤ d < 100 → all_digits (str_bytes (fmt d)) = true ∧
    dec_value 0 (str_bytes (fmt d)) = d ∧
    length (str_bytes (fmt d)) = if d <? 10 then 1%nat else 2%nat) as Hd.
  { intros d Hd. rewrite forallb_forall in Hsmall.
    specialize (Hsmall d ltac:(apply list_elem_of_In, elem_of_seqZ; lia)). b2p.
    destruct Hsmall as [[? ?] ?]. split_and!; try done; by apply Nat.eqb_eq. }
  unfold format_threshold_pct_label. destruct (bps mod 100 =? 0) eqn:Hz; b2p.
  { exists (str_bytes (fmt (bps / 100))), []. split; [split_and!; [done..|by left]|].
    split; [cbn; lia|]. unfold percent_value. rewrite Hwv. cbn. lia. }
  set (frac := bps mod 100) in *.
  assert (∀ s f, s = fmt (bps / 100) +:+ "." +:+ f → all_digits (str_bytes f) = true →
    decimal_text (str_bytes s) (str_bytes (fmt (bps / 100))) (str_bytes f)) as Hdec.
  { intros s f -> Hf. rewrite !str_bytes_app. split_and!; [done|done| |by right].
    by intros [? _]%app_nil. }
  unfold percent_value. destruct (frac mod 10 =? 0) eqn:Hten; b2p.
  - assert (0 ≤ frac / 10 < 10) as Hq
      by (split; [apply Z.div_pos; lia|apply Z.div_lt_upper_bound; lia]).
    destruct (Hd (frac / 10)) as (Ha & Hv & Hl); [lia|].
    rewrite (proj2 (Z.ltb_lt _ _)) in Hl by lia.
    exists (str_bytes (fmt (bps / 100))), (str_bytes (fmt (frac / 10))).
    split; [by apply Hdec|]. rewrite Hl, Hwv, Hv. split; [lia|].
    change (10 ^ (2 - Z.of_nat 1)) with 10. pose proof (Z_div_mod_eq_full frac 10). lia.
  - destruct (Hd frac) as (Ha & Hv & Hl); [lia|].
    exists (str_bytes (fmt (bps / 100))), (str_bytes (fmt_02 frac)). unfold fmt_02.
    destruct (frac <? 10) eqn:Hone.
    + split; [apply Hdec; [done|]; by rewrite str_bytes_app, all_digits_app, Ha|].
      rewrite str_bytes_app, length_app, dec_value_app, Hl, Hwv. cbn [str_bytes length].
      change (dec_value 0 (str_bytes "0")) with 0. rewrite Hv. split; [done|].
      change (Z.of_nat _) with 2. lia.
    + split; [by apply Hdec|]. rewrite Hl, Hwv, Hv. split; [done|].
      change (10 ^ (2 - Z.of_nat 2)) with 1. lia.
Qed.

(** The percent label shown to the user reads back, in both command parsers, as
    the threshold it was made from, for every threshold of 32 bits. *)
Theorem threshold_label_roundtrip `{DebugText} bps : is_u 32 bps →
  let label := str_bytes (format_threshold_pct_label bps) in
  OrderCommand.decimal_percent_to_bps label = Ok bps ∧
  DemoCommand.decimal_percent_to_bps label = Ok bps.
Proof.
  intros Hb label. destruct (label_decimal bps Hb) as (ip & frac & Hd & Hlen & Hv).
  pose proof (order_percent _ _ _ Hd Hlen) as Ho. pose proof (demo_percent _ _ _ Hd Hlen) as Hm.
  rewrite Hv in Ho, Hm. by split; [apply Ho|apply Hm].
Qed.
