(* ===== verification/OrderBridge.v ===== *)
(** * Creating orders

    From a command to a watch rule and a funding intent: the rule of the demo
    (stage2_demo_apr_bridge.rs), the bridge of conditional deposits
    (stage2_w5h_bridge.rs), the confirmation of drafts
    (runtime/stage2_w5h_intent_finalize_wiring.rs) and the route by which chat messages
    become orders (runtime/chat_wiring.rs). *)
From S2P Require Import Prelude Interaction WatchRules WatcherBase RuleStore RustText.
From S2P Require Import FundingStore FundingSafety DemoCommand MarketReading OrderDraft.
From S2P Require Import FundingEvents OrderCommand ChatExecute.
#[local] Open Scope string_scope.
#[local] Open Scope Z_scope.

Definition W5E_DEMO_EXPIRY_SLOTS : Z := 50000.
Definition DEMO_LENDING_MARKET_BS58 : string := "4UpD2fh7xH3VP9QQaXtsS1YY3bxzWhtfpks7FatyKvdY".
Definition DEMO_LIQUIDITY_MINT_BS58 : string := "EPjFWdd5AufqSSqeM2qN1xzybapC8G4wEGGkZwyTDt1v".
Definition SOLEND_PROGRAM_BS58 : string := "So1endDq2YkqhipRh3WViPa8hdiSpxWy6z3Z6tMCpAo".
Definition TARGET_OBLIGATION_BS58 : string := "BdFLjCcP9mCy557vNNGVbTUuvHxXsh8hc6jXzaPra1wN".

(** What the address crates provide. *)
Class Addresses := {
  pubkey_try_from_str : string → Result string PubkeyBytes;
  get_associated_token_address : PubkeyBytes → PubkeyBytes → PubkeyBytes
}.

(** [u64::saturating_add] *)
Definition saturating_add (a b : Z) : Z := Z.min (2 ^ 64 - 1) (a + b).

(** ** The rule *)
Definition derive_w5e_rule_id (parsed : DemoParsed) (controlled_wallet : PubkeyBytes) : list byte :=
  to_le 4 (dp_threshold_bps parsed) ++ to_le 8 (dp_amount_raw parsed) ++ take 4 controlled_wallet.

Section bridge.
Context `{Crates, Pubkeys, Addresses}.

Definition controlled_wallet_addresses : string * string :=
  let owner := pubkey_from_str CONTROLLED_WALLET_BS58 in
  let mint := pubkey_from_str DEMO_LIQUIDITY_MINT_BS58 in
  (base58 owner, base58 (get_associated_token_address owner mint)).

Definition build_w5e_watch_rule (parsed : DemoParsed) (last_checked_slot : Z) : WatchRule :=
  let controlled := pubkey_from_str CONTROLLED_WALLET_BS58 in
  let reserve := pubkey_from_str DEMO_RESERVE_BS58 in
  let lending_market := pubkey_from_str DEMO_LENDING_MARKET_BS58 in
  let solend_program_id := pubkey_from_str SOLEND_PROGRAM_BS58 in
  {| wr_schema_version := STAGE2_WATCH_RULE_SCHEMA_VERSION;
     wr_rule_id := derive_w5e_rule_id parsed controlled;
     wr_user := controlled;
     wr_executor := controlled;
     wr_delegated_wallet := controlled;
     wr_created_at_slot := last_checked_slot;
     wr_expires_at_slot := saturating_add last_checked_slot W5E_DEMO_EXPIRY_SLOTS;
     wr_one_shot := true;
     wr_condition_logic := WatchRules.All;
     wr_conditions :=
       [SolendReserveSupplyRate reserve lending_market solend_program_id Gt
          (dp_threshold_bps parsed) Apr 1 16 true];
     wr_action :=
       SolendWithdrawAllDelegated (pubkey_from_str TARGET_OBLIGATION_BS58) reserve
         lending_market controlled WithdrawAllDelegatedPosition;
     wr_max_input_amount_raw := dp_amount_raw parsed;
     wr_used_amount_raw := 0;
     wr_destination := controlled;
     wr_slippage_bps := 0 |}.

Inductive PersistOutcome :=
| Inserted
| AlreadyPresent (persisted : WatchRule)
| PersistFailed.

Definition persist_rule_idempotent (rule : WatchRule) : FProg PersistOutcome :=
  r ← call (RuleInsert rule);
  match r with
  | Ok _ => mret Inserted
  | Err _ =>
      g ← call (RuleGet (wr_rule_id rule));
      mret (match g with
            | Ok (Some stored) => AlreadyPresent (st_rule stored)
            | _ => PersistFailed
            end)
  end.

(** ** The demo order *)
Definition apply_rule_metadata_to_result (rule : WatchRule) (result : W5dEvaluationResult) :
    W5dEvaluationResult :=
  {| er_input_text := er_input_text result; er_source := er_source result;
     er_reserve_pubkey := er_reserve_pubkey result;
     er_current_apr_bps := er_current_apr_bps result;
     er_threshold_bps := er_threshold_bps result;
     er_threshold_pct_label := er_threshold_pct_label result;
     er_condition_met := er_condition_met result;
     er_execution_attempted := er_execution_attempted result;
     er_status := er_status result; er_tx_signature := er_tx_signature result;
     er_controlled_wallet := er_controlled_wallet result;
     er_source_usdc_ata := er_source_usdc_ata result;
     er_required_budget_raw := er_required_budget_raw result;
     er_current_budget_raw := er_current_budget_raw result;
     er_budget_status := er_budget_status result;
     er_last_checked_slot := er_last_checked_slot result;
     er_expires_at_slot := Some (wr_expires_at_slot rule);
     er_rule_id_hex := Some (hex_encode (wr_rule_id rule));
     er_canonical_rule_hash_hex := Some (hex_encode (canonical_rule_hash rule));
     er_rule_persisted := er_rule_persisted result;
     er_decision_source := er_decision_source result;
     er_save_display_apy_bps := er_save_display_apy_bps result;
     er_native_onchain_apr_bps := er_native_onchain_apr_bps result;
     er_native_onchain_apr_source := er_native_onchain_apr_source result |}.

(** Steps 3 and 4: the display APY decides. *)
Definition decide_by_save (parsed : DemoParsed) (save : SaveDisplayApyReading)
    (result : W5dEvaluationResult) : W5dEvaluationResult :=
  let save_bps := sr_save_display_apy_bps save in
  let condition_met := dp_threshold_bps parsed <? save_bps in
  let budget_ok := er_required_budget_raw result <=? er_current_budget_raw result in
  let '(status, budget_status) := status_of budget_ok condition_met in
  {| er_input_text := er_input_text result; er_source := "save_display_apy";
     er_reserve_pubkey := er_reserve_pubkey result;
     er_current_apr_bps := save_bps;
     er_threshold_bps := er_threshold_bps result;
     er_threshold_pct_label := er_threshold_pct_label result;
     er_condition_met := condition_met;
     er_execution_attempted := er_execution_attempted result;
     er_status := status; er_tx_signature := er_tx_signature result;
     er_controlled_wallet := er_controlled_wallet result;
     er_source_usdc_ata := er_source_usdc_ata result;
     er_required_budget_raw := er_required_budget_raw result;
     er_current_budget_raw := er_current_budget_raw result;
     er_budget_status := budget_status;
     er_last_checked_slot := er_last_checked_slot result;
     er_expires_at_slot := er_expires_at_slot result;
     er_rule_id_hex := er_rule_id_hex result;
     er_canonical_rule_hash_hex := er_canonical_rule_hash_hex result;
     er_rule_persisted := er_rule_persisted result;
     er_decision_source := "save_display_apy";
     er_save_display_apy_bps := save_bps;
     er_native_onchain_apr_bps := er_current_apr_bps result;
     er_native_onchain_apr_source := "b_o1_reserve_math" |}.

Definition set_persisted (b : bool) (result : W5dEvaluationResult) : W5dEvaluationResult :=
  {| er_input_text := er_input_text result; er_source := er_source result;
     er_reserve_pubkey := er_reserve_pubkey result;
     er_current_apr_bps := er_current_apr_bps result;
     er_threshold_bps := er_threshold_bps result;
     er_threshold_pct_label := er_threshold_pct_label result;
     er_condition_met := er_condition_met result;
     er_execution_attempted := er_execution_attempted result;
     er_status := er_status result; er_tx_signature := er_tx_signature result;
     er_controlled_wallet := er_controlled_wallet result;
     er_source_usdc_ata := er_source_usdc_ata result;
     er_required_budget_raw := er_required_budget_raw result;
     er_current_budget_raw := er_current_budget_raw result;
     er_budget_status := er_budget_status result;
     er_last_checked_slot := er_last_checked_slot result;
     er_expires_at_slot := er_expires_at_slot result;
     er_rule_id_hex := er_rule_id_hex result;
     er_canonical_rule_hash_hex := er_canonical_rule_hash_hex result;
     er_rule_persisted := b;
     er_decision_source := er_decision_source result;
     er_save_display_apy_bps := er_save_display_apy_bps result;
     er_native_onchain_apr_bps := er_native_onchain_apr_bps result;
     er_native_onchain_apr_source := er_native_onchain_apr_source result |}.

(** The last step of both versions: echo the fresh rule, persist it when a
    repository is wired, and echo the persisted one instead when it was there. *)
Definition register_rule (repo : bool) (parsed : DemoParsed) (result : W5dEvaluationResult) :
    FProg W5dEvaluationResult :=
  let fresh_rule := build_w5e_watch_rule parsed (er_last_checked_slot result) in
  let result := apply_rule_metadata_to_result fresh_rule result in
  if repo then
    o ← persist_rule_idempotent fresh_rule;
    mret (match o with
          | Inserted => set_persisted true result
          | AlreadyPresent persisted =>
              apply_rule_metadata_to_result persisted (set_persisted true result)
          | PersistFailed => set_persisted false result
          end)
  else mret result.

Definition handle_demo_command_v3 (repo : bool) (input_text : string) :
    FProg (ERes W5dEvaluationResult) :=
  match parse_demo_command input_text with
  | Err e => mret (Err (ParseFailed e))
  | Ok parsed =>
      r ← call (FetchNativeApr input_text parsed);
      match r with
      | Err e => mret (Err e)
      | Ok result =>
          s ← call FetchSaveApy;
          match s with
          | Err e => mret (Err e)
          | Ok save =>
              result ← register_rule repo parsed (decide_by_save parsed save result);
              mret (Ok result)
          end
      end
  end.

Definition handle_demo_command_v2 (repo : bool) (input_text : string) :
    FProg (ERes W5dEvaluationResult) :=
  match parse_demo_command input_text with
  | Err e => mret (Err (ParseFailed e))
  | Ok parsed =>
      r ← call (FetchNativeApr input_text parsed);
      match r with
      | Err e => mret (Err e)
      | Ok result => result ← register_rule repo parsed result; mret (Ok result)
      end
  end.

Definition handle_demo_command : string → FProg (ERes W5dEvaluationResult) :=
  handle_demo_command_v2 false.
End bridge.

(** * Funded orders

    stage2_w5h_bridge.rs and runtime/stage2_w5h_intent_finalize_wiring.rs: a
    conditional deposit becomes a watch rule and a funding intent, from the typed
    command or from a draft its user confirms. *)

Inductive W5hBridgeError :=
| BridgeParse (e : W5hParseError)
| SaveApyUnavailable (r : string)
| NativeAprUnavailable (r : string)
| RepoFailed (r : string)
| UserWalletInvalid (r : string).

Definition show_bridge_error (e : W5hBridgeError) : string :=
  match e with
  | BridgeParse e => "parse: " +:+ show_w5h_parse_error e
  | SaveApyUnavailable r => "save apy unavailable: " +:+ r
  | NativeAprUnavailable r => "native apr unavailable: " +:+ r
  | RepoFailed r => "repo failed: " +:+ r
  | UserWalletInvalid r => "user wallet invalid: " +:+ r
  end.

Record W5hConditionalOrderResultDto := MkOrderDto {
  od_input_text : string;
  od_status : string;
  od_rule_id_hex : string;
  od_canonical_rule_hash_hex : string;
  od_user_wallet : string;
  od_user_usdc_ata : string;
  od_controlled_wallet : string;
  od_controlled_usdc_ata : string;
  od_amount_raw : Z;
  od_threshold_bps : Z;
  od_threshold_pct_label : string;
  od_save_display_apy_bps_at_creation : Z;
  od_native_onchain_apr_bps_at_creation : Z;
  od_created_at_ms : Z;
  od_expires_at_ms : Z;
  od_funding_signature : option string;
  od_execution_signature : option string;
  od_refund_signature : option string;
  od_last_error : option string
}.

Record IntentResponseTemplate := MkTemplate {
  it_status : string;
  it_created_at_ms : Z;
  it_expires_at_ms : Z;
  it_funding_signature : option string;
  it_execution_signature : option string;
  it_refund_signature : option string;
  it_last_error : option string
}.

Definition intent_to_response_template (intent : NewW5hFundingIntent) : IntentResponseTemplate :=
  MkTemplate "funding_required" (ni_created_at_ms intent) (ni_expires_at_ms intent)
    None None None None.

Definition persisted_intent_to_response (intent : W5hFundingIntent) : IntentResponseTemplate :=
  MkTemplate (intent_as_str (fi_status intent)) (ni_created_at_ms (fi_terms intent))
    (ni_expires_at_ms (fi_terms intent)) (fi_funding_signature intent)
    (fi_execution_signature intent) (fi_refund_signature intent) (fi_last_error intent).

(** [intent_repo.insert]: one row, or the error of the UNIQUE constraint. *)
Definition insert_funding_intent (intent : NewW5hFundingIntent) : FProg (SRes unit) :=
  r ← call (IntentCall (FInsert intent));
  mret (match r with
        | Ok n => if n =? 1 then Ok tt
                  else Err (Sqlx "UNIQUE constraint failed: stage2_w5h_funding_intents.intent_id")
        | Err e => Err e
        end).

Section bridge.
Context `{Crates, Pubkeys, Addresses, DebugText}.

Definition demo_of (parsed : W5hParsed) : DemoParsed :=
  MkDemoParsed (wp_threshold_bps parsed) (wp_threshold_pct_label parsed) (wp_amount_raw parsed).

(** The demo's rule with the expiry of a three-minute order. *)
Definition order_rule (parsed : W5hParsed) (last_checked_slot : Z) : WatchRule :=
  let rule := build_w5e_watch_rule (demo_of parsed) last_checked_slot in
  {| wr_schema_version := wr_schema_version rule;
     wr_rule_id := wr_rule_id rule;
     wr_user := wr_user rule;
     wr_executor := wr_executor rule;
     wr_delegated_wallet := wr_delegated_wallet rule;
     wr_created_at_slot := wr_created_at_slot rule;
     wr_expires_at_slot := saturating_add last_checked_slot 480;
     wr_one_shot := wr_one_shot rule;
     wr_condition_logic := wr_condition_logic rule;
     wr_conditions := wr_conditions rule;
     wr_action := wr_action rule;
     wr_max_input_amount_raw := wr_max_input_amount_raw rule;
     wr_used_amount_raw := wr_used_amount_raw rule;
     wr_destination := wr_destination rule;
     wr_slippage_bps := wr_slippage_bps rule |}.

(** The intent of the order. *)
Definition order_intent (parsed : W5hParsed) (user_pk : PubkeyBytes) (rule : WatchRule)
    (save : SaveDisplayApyReading) (native : W5dEvaluationResult) (now_ms : Z) :
    NewW5hFundingIntent :=
  let rule_id_hex := hex_encode (wr_rule_id rule) in
  let usdc_mint := pubkey_from_str DEMO_LIQUIDITY_MINT_BS58 in
  {| ni_intent_id := rule_id_hex;
     ni_rule_id_hex := rule_id_hex;
     ni_canonical_rule_hash_hex := hex_encode (canonical_rule_hash rule);
     ni_user_wallet := base58 user_pk;
     ni_user_usdc_ata := base58 (get_associated_token_address user_pk usdc_mint);
     ni_controlled_wallet := controlled_wallet_addresses.1;
     ni_controlled_usdc_ata := controlled_wallet_addresses.2;
     ni_amount_raw := wp_amount_raw parsed;
     ni_threshold_bps := wp_threshold_bps parsed;
     ni_save_display_apy_bps_at_creation := sr_save_display_apy_bps save;
     ni_native_onchain_apr_bps_at_creation := er_current_apr_bps native;
     ni_created_at_ms := now_ms;
     ni_expires_at_ms := as_i64 (now_ms + W5H_EXPIRY_SECONDS * 1000) |}.

(** The answer: the order's terms, and where the intent stands. *)
Definition order_dto (input_text : string) (parsed : W5hParsed) (intent : NewW5hFundingIntent)
    (now : IntentResponseTemplate) : W5hConditionalOrderResultDto :=
  {| od_input_text := input_text;
     od_status := it_status now;
     od_rule_id_hex := ni_rule_id_hex intent;
     od_canonical_rule_hash_hex := ni_canonical_rule_hash_hex intent;
     od_user_wallet := ni_user_wallet intent;
     od_user_usdc_ata := ni_user_usdc_ata intent;
     od_controlled_wallet := CONTROLLED_WALLET_BS58;
     od_controlled_usdc_ata := ni_controlled_usdc_ata intent;
     od_amount_raw := wp_amount_raw parsed;
     od_threshold_bps := wp_threshold_bps parsed;
     od_threshold_pct_label := wp_threshold_pct_label parsed;
     od_save_display_apy_bps_at_creation := ni_save_display_apy_bps_at_creation intent;
     od_native_onchain_apr_bps_at_creation := ni_native_onchain_apr_bps_at_creation intent;
     od_created_at_ms := it_created_at_ms now;
     od_expires_at_ms := it_expires_at_ms now;
     od_funding_signature := it_funding_signature now;
     od_execution_signature := it_execution_signature now;
     od_refund_signature := it_refund_signature now;
     od_last_error := it_last_error now |}.

Notation BRes := (Result W5hBridgeError).

(** Insert the intent, or answer with the one that is there. *)
Definition register_intent (input_text : string) (parsed : W5hParsed)
    (intent : NewW5hFundingIntent) : FProg (BRes W5hConditionalOrderResultDto) :=
  inserted ← insert_funding_intent intent;
  match inserted with
  | Ok _ => mret (Ok (order_dto input_text parsed intent (intent_to_response_template intent)))
  | Err _ =>
      again ← call (IntentGet (ni_intent_id intent));
      mret (match again with
            | Ok (Some existing) =>
                Ok (order_dto input_text parsed intent (persisted_intent_to_response existing))
            | Ok None => Err (RepoFailed "intent_repo.insert failed AND repo.get returned None")
            | Err e => Err (RepoFailed (show_store_error e))
            end)
  end.

Definition handle_w5h_from_parsed (user_wallet_bs58 input_text : string) (parsed : W5hParsed) :
    FProg (BRes W5hConditionalOrderResultDto) :=
  r ← call (FetchNativeApr input_text (demo_of parsed));
  match r with
  | Err e => mret (Err (NativeAprUnavailable (show_evaluation_error e)))
  | Ok native =>
      s ← call FetchSaveApy;
      match s with
      | Err e => mret (Err (SaveApyUnavailable (show_evaluation_error e)))
      | Ok save =>
          match pubkey_try_from_str user_wallet_bs58 with
          | Err e => mret (Err (UserWalletInvalid e))
          | Ok user_pk =>
              let rule := order_rule parsed (er_last_checked_slot native) in
              outcome ← persist_rule_idempotent rule;
              let rule_for_response :=
                match outcome with
                | Inserted | PersistFailed => rule
                | AlreadyPresent persisted => persisted
                end in
              now_ms ← call ClockNow;
              register_intent input_text parsed
                (order_intent parsed user_pk rule_for_response save native now_ms)
          end
      end
  end.

(** The parser may panic. *)
Definition handle_w5h_chat_command (user_wallet_bs58 input_text : string) :
    FProg (Result (Fault W5hBridgeError) W5hConditionalOrderResultDto) :=
  match parse_w5h_chat_command input_text with
  | Err Panic => mret (Err Panic)
  | Err (Fails e) => mret (Err (Fails (BridgeParse e)))
  | Ok parsed =>
      r ← handle_w5h_from_parsed user_wallet_bs58 input_text parsed;
      mret (map_err Fails r)
  end.

Definition parsed_of_draft (draft : DraftIntent) : W5hParsed :=
  MkW5hParsed (di_threshold_bps draft) (format_threshold_pct_label (di_threshold_bps draft))
    (di_amount_raw draft) (di_expiry_seconds_after_finalize draft).

(** [dto.created_at_ms = ..; dto.expires_at_ms = ..] *)
Definition set_times (created_at_ms expires_at_ms : Z) (d : W5hConditionalOrderResultDto) :
    W5hConditionalOrderResultDto :=
  {| od_input_text := od_input_text d; od_status := od_status d;
     od_rule_id_hex := od_rule_id_hex d;
     od_canonical_rule_hash_hex := od_canonical_rule_hash_hex d;
     od_user_wallet := od_user_wallet d; od_user_usdc_ata := od_user_usdc_ata d;
     od_controlled_wallet := od_controlled_wallet d;
     od_controlled_usdc_ata := od_controlled_usdc_ata d;
     od_amount_raw := od_amount_raw d; od_threshold_bps := od_threshold_bps d;
     od_threshold_pct_label := od_threshold_pct_label d;
     od_save_display_apy_bps_at_creation := od_save_display_apy_bps_at_creation d;
     od_native_onchain_apr_bps_at_creation := od_native_onchain_apr_bps_at_creation d;
     od_created_at_ms := created_at_ms; od_expires_at_ms := expires_at_ms;
     od_funding_signature := od_funding_signature d;
     od_execution_signature := od_execution_signature d;
     od_refund_signature := od_refund_signature d; od_last_error := od_last_error d |}.

Definition handle_w5h_from_finalized_intent (user_wallet_bs58 : string) (finalize_unix_ms : Z)
    (draft : DraftIntent) : FProg (BRes W5hConditionalOrderResultDto) :=
  r ← handle_w5h_from_parsed user_wallet_bs58 (di_review_copy draft) (parsed_of_draft draft);
  mret (match r with
        | Ok dto =>
            Ok (set_times finalize_unix_ms
                  (after_seconds finalize_unix_ms (di_expiry_seconds_after_finalize draft)) dto)
        | Err e => Err e
        end).

(** ** Confirming a draft ([Phase5cIntentFinalizeAdapter]) *)
Record W5hIntentFinalizeRequestDto := MkFinalizeRequest {
  fr_draft_id : string;
  fr_draft_hash : string;
  fr_user_confirmed : bool
}.

Record W5hIntentFinalizationAuditDto := MkAudit {
  fa_parser_source : string;
  fa_original_user_message_hash : string;
  fa_draft_id : string;
  fa_draft_hash : string;
  fa_finalized_at_ms : Z
}.

Record W5hIntentFinalizeResultDto := MkFinalizeResult {
  fz_status : string;
  fz_funding : option W5hConditionalOrderResultDto;
  fz_finalization : W5hIntentFinalizationAuditDto
}.

Inductive W5hIntentFinalizeRouteOutcome :=
| RouteOk (r : W5hIntentFinalizeResultDto)
| RouteNotFoundOrExpired
| RouteHashMismatch (provided backend : string)
| RouteAlreadyFinalizedOrMissing
| RouteBridgeFailed (reason : string)
| RouteBadRequest (reason : string)
| RouteSessionNotActive
| RouteDisabled (reason : string).

Definition audit_envelope (draft : DraftIntent) (request : W5hIntentFinalizeRequestDto)
    (finalize_unix_ms : Z) : W5hIntentFinalizationAuditDto :=
  MkAudit (di_parser_source draft) (di_original_user_message_hash draft) (fr_draft_id request)
    (fr_draft_hash request) finalize_unix_ms.

Definition finalize_bridge_error_to_outcome (err : W5hBridgeError) :
    W5hIntentFinalizeRouteOutcome :=
  match err with
  | UserWalletInvalid reason => RouteBadRequest ("user wallet invalid: " +:+ reason)
  | other => RouteBridgeFailed (show_bridge_error other)
  end.

Definition unbound_wallet : string :=
  "session has no bound external wallet — bind a Phantom wallet via the challenge/response flow before finalizing".

(** A session is its displayed id. *)
Definition run_confirm (session_id : string) (request : W5hIntentFinalizeRequestDto) :
    FProg W5hIntentFinalizeRouteOutcome :=
  o ← call (DraftConsume session_id (fr_draft_id request) (fr_draft_hash request));
  match o with
  | NotFoundOrExpired => mret RouteNotFoundOrExpired
  | AlreadyConsumed => mret RouteAlreadyFinalizedOrMissing
  | HashMismatch provided backend => mret (RouteHashMismatch provided backend)
  | Consumed draft =>
      if negb (bool_decide (di_session_id_hex draft = session_id)) then mret RouteNotFoundOrExpired
      else
        wallet ← call (SessionWallet session_id);
        match wallet with
        | Some pk =>
            if is_blank pk then mret (RouteBadRequest unbound_wallet) else
            finalize_unix_ms ← call ClockNow;
            r ← handle_w5h_from_finalized_intent pk finalize_unix_ms draft;
            mret (match r with
                  | Ok dto =>
                      RouteOk (MkFinalizeResult (od_status dto) (Some dto)
                        (audit_envelope draft request finalize_unix_ms))
                  | Err e => finalize_bridge_error_to_outcome e
                  end)
        | None => mret (RouteBadRequest unbound_wallet)
        end
  end.

Definition run_reject (session_id : string) (request : W5hIntentFinalizeRequestDto) :
    FProg W5hIntentFinalizeRouteOutcome :=
  lookup ← call (DraftGet session_id (fr_draft_id request));
  finalize_unix_ms ← call ClockNow;
  let finalization :=
    match lookup with
    | Some draft => audit_envelope draft request finalize_unix_ms
    | None => MkAudit PARSER_SOURCE "" (fr_draft_id request) (fr_draft_hash request) finalize_unix_ms
    end in
  _ ← call (DraftDrop session_id (fr_draft_id request));
  mret (RouteOk (MkFinalizeResult "rejected" None finalization)).

Definition run_finalize (session_id : string) (request : W5hIntentFinalizeRequestDto) :
    FProg W5hIntentFinalizeRouteOutcome :=
  if fr_user_confirmed request then run_confirm session_id request
  else run_reject session_id request.

(** ** The chat route

    runtime/chat_wiring.rs: which messages are commands, what a command needs, and whose
    wallet it is for.  What comes after the two commands (the extractor, which makes
    drafts, the approval command and the conversation) is not followed here. *)
Record ChatWiring := MkChatWiring {
  ch_w5d_bridge : bool;
  ch_w5f_save_apy : bool;
  ch_w5e_repo : bool;
  ch_w5h_intent_repo : bool;
  ch_session_wallet_lookup : bool
}.
Inductive ChatRouteOutcome :=
| W5dConditionalDeposit (result : W5dEvaluationResult)
| W5hConditionalOrder (result : W5hConditionalOrderResultDto)
| ToolError (tool_name message : string)
| PassedOn.

Definition handle_w5d_demo_command (save_apy repo : bool) (message : string) : FProg ChatRouteOutcome :=
  r ← (if save_apy then handle_demo_command_v3 repo message else handle_demo_command_v2 repo message);
  mret (match r with
        | Ok result => W5dConditionalDeposit result
        | Err e => ToolError "w5d_conditional_deposit" (show_evaluation_error e)
        end).

Definition w5h_error : string → ChatRouteOutcome := ToolError "w5h_conditional_order".
Definition unavailable (what : string) : option string :=
  Some ("W5h is not available in this daemon (" +:+ what +:+ ").").
(** The dependencies, in the order they are asked for. *)
Definition w5h_missing (w : ChatWiring) : option string :=
  if negb (ch_w5d_bridge w) then
    unavailable "B-O1 APR fetcher missing — start the daemon with HELIUS_RPC_URL or CLAW_RPC_URL set"
  else if negb (ch_w5f_save_apy w) then unavailable "Save display APY fetcher not wired"
  else if negb (ch_w5e_repo w) then unavailable "Stage 2 WatchRule repository not wired"
  else if negb (ch_w5h_intent_repo w) then
    unavailable "Stage 2 W5h funding-intent repository not wired"
  else if negb (ch_session_wallet_lookup w) then unavailable "session→wallet lookup not wired"
  else None.
Definition connect_wallet : string :=
  "Connect wallet before creating a funded conditional order. " +:+
  "Use the wallet-bind challenge/response flow to bind a Phantom wallet to this session, " +:+
  "then re-issue the W5h command.".

(** [handle_w5h_chat_command] of the route: no outcome when the parser panics. *)
Definition route_w5h_chat_command (w : ChatWiring) (session_id message : string) :
    FProg (option ChatRouteOutcome) :=
  match w5h_missing w with
  | Some m => mret (Some (w5h_error m))
  | None =>
      wallet ← call (SessionWallet session_id);
      match wallet with
      | Some pk =>
          if is_blank pk then mret (Some (w5h_error connect_wallet)) else
          r ← handle_w5h_chat_command pk message;
          mret (match r with
                | Ok dto => Some (W5hConditionalOrder dto)
                | Err (Fails e) => Some (w5h_error (show_bridge_error e))
                | Err Panic => None
                end)
      | None => mret (Some (w5h_error connect_wallet))
      end
  end.

(** [GatewayChatHandler::handle_chat] *)
Definition handle_chat (w : ChatWiring) (session_id message : string) : FProg (option ChatRouteOutcome) :=
  if ch_w5d_bridge w && looks_like_w5d_command message
  then r ← handle_w5d_demo_command (ch_w5f_save_apy w) (ch_w5e_repo w) message; mret (Some r)
  else if looks_like_w5h_chat_command message then route_w5h_chat_command w session_id message
  else mret (Some PassedOn).

(** A client's request, from what it sends. *)
Definition chat_request (w : ChatWiring) (session_id message : string) : FProg (option ChatRouteOutcome) :=
  _ ← call (ChatMessage session_id message);
  handle_chat w session_id message.
Definition finalize_request (session_id : string) (request : W5hIntentFinalizeRequestDto) :
    FProg W5hIntentFinalizeRouteOutcome :=
  _ ← call (DraftDecision session_id (fr_draft_id request) (fr_draft_hash request) (fr_user_confirmed request));
  run_finalize session_id request.
End bridge.
