(* ===== verification/MarketFetch.v ===== *)
(** * The live market fetchers

    [LiveW5dAprFetcher] and [LiveSaveDisplayApyFetcher] of stage2_demo_apr_bridge.rs:
    three JSON-RPC calls and one REST call, each an event.  Building the HTTP client
    may fail, which the constructors take as an argument.  Then what holds of the
    readings. *)
From S2P Require Import Prelude Interaction WatchRules WatcherBase RuleStore RustText.
From S2P Require Import RuleEvaluator FundingStore Float64 ChatExecute OrderBridge OrderDraft.
From S2P Require Import SolendRaw DemoCommand MarketReading.
#[local] Open Scope string_scope.
#[local] Open Scope Z_scope.

(** ** Requests *)

(** The bodies that are posted, all at commitment "confirmed". *)
Inductive RpcBody :=
| GetSlot
| GetAccountInfo (address : string)
| GetTokenAccountBalance (ata : string).

Inductive MarketEvent :=
| HttpPost (url : string) (body : RpcBody)
| HttpGet (url : string).

(** The transport error, or the status with the body, if it is JSON. *)
Definition MarketAnswer `{Json} (_ : MarketEvent) : Type := Result string (Z * Result string json).

Class Base64 := base64_decode : string → Result string (list byte).

(** ** Constructors *)

(** [trim_end_matches('/')] *)
Fixpoint drop_slashes (l : list byte) : list byte :=
  match l with Byte.x2f :: l => drop_slashes l | _ => l end.
Definition trim_end_slashes (l : list byte) : list byte := rev (drop_slashes (rev l)).

Definition new_apr_fetcher (client_builds : bool) (rpc_url : string) : option string :=
  if is_blank rpc_url then None else if client_builds then Some rpc_url else None.
Definition new_save_fetcher (client_builds : bool) (base_url : string) : option string :=
  let trimmed_url := trim_end_slashes (trim (str_bytes base_url)) in
  if bool_decide (trimmed_url = []) then None
  else if client_builds then Some (bytes_str trimmed_url) else None.
(** [with_default_base_url] *)
Definition default_save_fetcher (client_builds : bool) : option string :=
  new_save_fetcher client_builds SOLEND_API_BASE_URL_DEFAULT.

(** ** The text of errors, with [{:?}] *)
Section debug.
Context `{DebugText}.
Definition debug_decode_error (e : SolendRaw.DecodeError) : string :=
  match e with
  | SolendRaw.ObligationWrongSize n => "ObligationWrongSize(" +:+ fmt n +:+ ")"
  | SolendRaw.ReserveWrongSize n => "ReserveWrongSize(" +:+ fmt n +:+ ")"
  | SolendRaw.ObligationPaddingNonZero => "ObligationPaddingNonZero"
  | SolendRaw.ObligationArrayOverflow deposits borrows =>
      "ObligationArrayOverflow { deposits: " +:+ fmt deposits +:+ ", borrows: " +:+
      fmt borrows +:+ " }"
  | SolendRaw.ObligationStaleBitInvalid b => "ObligationStaleBitInvalid(" +:+ fmt b +:+ ")"
  | SolendRaw.ReserveStaleBitInvalid b => "ReserveStaleBitInvalid(" +:+ fmt b +:+ ")"
  | SolendRaw.ObligationBoolInvalid offset value field =>
      "ObligationBoolInvalid { offset: " +:+ fmt (Z.of_nat offset) +:+ ", value: " +:+
      fmt value +:+ ", field: " +:+ RustText.debug_str (str_bytes field) +:+ " }"
  end.
Definition debug_watcher_error (e : Stage2WatcherError) : string :=
  match e with
  | Transient m => "Transient(" +:+ RustText.debug_str (str_bytes m) +:+ ")"
  | Terminal m => "Terminal(" +:+ RustText.debug_str (str_bytes m) +:+ ")"
  | Internal m => "Internal(" +:+ RustText.debug_str (str_bytes m) +:+ ")"
  end.
End debug.

(** ** The native APR *)
Section apr.
Context `{Json, Base64, DebugText, Crates, Pubkeys, Addresses}.
Notation MProg := (Interaction.Prog MarketAnswer).
Context (rpc_url : string).

Definition read_rpc_answer (resp : Result string (Z * Result string json)) : ERes json :=
  match resp with
  | Err e => Err (RpcFetchFailed ("transport: " +:+ e))
  | Ok (status, body) =>
      _ ← throw_if (400 <=? status) (RpcFetchFailed ("http " +:+ fmt status));
      v ← map_err (λ e, RpcFetchFailed ("body: " +:+ e)) body;
      match json_get "error" v with
      | Some err => Err (RpcFetchFailed ("rpc error: " +:+ json_display err))
      | None => Ok v
      end
  end.
Definition rpc_post (body : RpcBody) : MProg (ERes json) :=
  resp ← ask (Answer := MarketAnswer) (HttpPost rpc_url body);
  mret (read_rpc_answer resp).

Definition read_reserve_bytes (v : json) : ERes (list byte) :=
  match json_path ["result"; "value"] v with
  | None => Err (ReserveAccountMissing W5D_RESERVE_BS58)
  | Some val =>
      if json_is_null val then Err (ReserveAccountMissing W5D_RESERVE_BS58) else
      b64 ← ok_or (d ← json_get "data" val; a ← json_as_array d; x ← head a; json_as_str x)
              (RpcFetchFailed "missing data[0] base64 string");
      map_err (λ e, RpcFetchFailed ("base64 decode: " +:+ e)) (base64_decode b64)
  end.
Definition fetch_reserve_bytes : MProg (ERes (list byte)) :=
  v ← rpc_post (GetAccountInfo W5D_RESERVE_BS58);
  mret (v ← v; read_reserve_bytes v).

Definition fetch_slot : MProg (ERes Z) :=
  v ← rpc_post GetSlot;
  mret (v ← v; ok_or (json_get "result" v ≫= json_as_u64)
                 (RpcFetchFailed "missing slot in getSlot response")).

(** An account that does not exist has no balance. *)
Definition read_token_balance (v : ERes json) : ERes (option Z) :=
  match v with
  | Ok value =>
      amount_str ← ok_or (json_path ["result"; "value"; "amount"] value ≫= json_as_str)
                     (RpcFetchFailed "missing amount in getTokenAccountBalance");
      raw ← map_err (λ e, RpcFetchFailed ("amount parse: " +:+ show_parse_int_error e))
              (parse_u64 amount_str);
      Ok (Some raw)
  | Err (RpcFetchFailed detail) =>
      let has s := contains_str (str_bytes s) (str_bytes detail) in
      if has "could not find account" || has "Invalid param" || has "not found" then Ok None
      else Err (RpcFetchFailed detail)
  | Err e => Err e
  end.
Definition fetch_token_balance (ata : string) : MProg (ERes (option Z)) :=
  v ← rpc_post (GetTokenAccountBalance ata);
  mret (read_token_balance v).

(** The rate of the reserve, in basis points and in range; a slice of the account
    out of bounds would panic. *)
Definition reserve_apr_bps (reserve_bytes : list byte) : Result (Fault EvaluationError) Z :=
  raw ← (match SolendRaw.decode_reserve reserve_bytes with
         | Ok raw => Ok raw
         | Err Panic => Err Panic
         | Err (Fails e) => Err (Fails (ReserveDecodeFailed (debug_decode_error e)))
         end);
  let snapshot :=
    solend_snapshot_value_from_reserve_raw (pubkey_from_str W5D_RESERVE_BS58) raw in
  apr_wad ← map_err (λ e, Fails (AprComputationFailed (debug_watcher_error e)))
              (solend_supply_apr_wad_for_snapshot snapshot);
  let apr_bps_raw := solend_supply_apr_bps_from_wad apr_wad in
  _ ← throw_if (APR_BPS_SANITY_MAX <? apr_bps_raw) (Fails (AprOutOfRange apr_bps_raw));
  Ok (as_u32 apr_bps_raw).

Definition evaluate (input_text : string) (parsed : DemoParsed) :
    MProg (Result (Fault EvaluationError) W5dEvaluationResult) :=
  slot ← fetch_slot;
  match slot with
  | Err e => mret (Err (Fails e))
  | Ok last_checked_slot =>
      bytes ← fetch_reserve_bytes;
      match map_err Fails bytes ≫= reserve_apr_bps with
      | Err e => mret (Err e)
      | Ok current_apr_bps =>
          let '(controlled_wallet, source_usdc_ata) := controlled_wallet_addresses in
          balance ← fetch_token_balance source_usdc_ata;
          mret (balance ← map_err Fails balance;
                Ok (compose_w5e_result input_text parsed current_apr_bps (default 0 balance)
                      last_checked_slot controlled_wallet source_usdc_ata))
      end
  end.
End apr.

(** ** The Save APY *)
Section save.
Context `{Json, DebugText, FloatText}.
Notation MProg := (Interaction.Prog MarketAnswer).

Definition save_url (base_url : string) : string :=
  base_url +:+ "/v1/reserves?scope=" +:+ SOLEND_API_SCOPE +:+ "&ids=" +:+
  W5F_MAIN_POOL_RESERVE_BS58.

Definition read_save_answer (resp : Result string (Z * Result string json)) :
    ERes SaveDisplayApyReading :=
  match resp with
  | Err e => Err (MarketDataUnavailable ("transport: " +:+ e))
  | Ok (status, body) =>
      _ ← throw_if (400 <=? status) (MarketDataUnavailable ("http " +:+ fmt status));
      body ← map_err (λ e, MarketDataUnavailable ("body: " +:+ e)) body;
      parse_save_reserves_response body
  end.
Definition fetch_main_pool_usdc (base_url : string) : MProg (ERes SaveDisplayApyReading) :=
  resp ← ask (Answer := MarketAnswer) (HttpGet (save_url base_url));
  mret (read_save_answer resp).
End save.

(** * What holds of the market readings

    A native evaluation is in range and says what its numbers say; a Save reading is
    of the pinned pool; display rates are read to the basis point. *)

Section facts.
Context `{Json, Base64, DebugText, FloatText, Crates, Pubkeys, Addresses}.

(** ** The native rate *)
Lemma reserve_apr_range bytes :
  match reserve_apr_bps bytes with
  | Ok bps => 0 ≤ bps ≤ APR_BPS_SANITY_MAX
  | Err Panic => False
  | Err (Fails _) => True
  end.
Proof.
  unfold reserve_apr_bps. pose proof (proj2 (decoders_never_panic bytes)) as Hp.
  destruct (SolendRaw.decode_reserve bytes) as [raw|[|e]]; [|done|done]. cbn [mbind result_bind].
  destruct (solend_supply_apr_wad_for_snapshot _) as [wad|e]; [|done]. cbn [map_err mbind result_bind].
  destruct (throw_if _ _) as [[]|e] eqn:Ht; cbn [mbind result_bind].
  - apply throw_if_Ok, Z.ltb_ge in Ht. revert Ht. unfold solend_supply_apr_bps_from_wad.
    destruct (checked_u 64 _) as [bps|] eqn:Hc; cbn [default]; [|by vm_compute].
    apply checked_u_Some in Hc as [-> Hu]. intros Ht. unfold id, as_u32, APR_BPS_SANITY_MAX in *.
    rewrite wrap_small; unfold is_u in *; lia.
  - unfold throw_if in Ht. case_match; [|done]. by injection Ht as <-.
Qed.

(** What an evaluation says of itself. *)
Record evaluation_ok (text : string) (parsed : DemoParsed) (r : W5dEvaluationResult) : Prop := {
  ev_text : er_input_text r = text;
  ev_rate : 0 ≤ er_current_apr_bps r ≤ APR_BPS_SANITY_MAX;
  ev_met : er_condition_met r = (dp_threshold_bps parsed <? er_current_apr_bps r);
  ev_idle : er_execution_attempted r = false ∧ er_tx_signature r = None;
  ev_wallet : (er_controlled_wallet r, er_source_usdc_ata r) = controlled_wallet_addresses;
  ev_ready : er_status r = "ready_to_execute" ↔
    er_condition_met r = true ∧ W5D_DEPOSIT_AMOUNT_RAW ≤ er_current_budget_raw r
}.

(** The live evaluation never panics, and what it returns is consistent.  Whatever the
    RPC node answers, a result has a rate of at most a hundred percent, says that its
    condition is met exactly when the rate exceeds the threshold, and is ready to
    execute exactly when, besides, the controlled account holds the amount. *)
Theorem live_evaluation_consistent url text parsed :
  always (λ r, match r with
    | Ok r => evaluation_ok text parsed r
    | Err Panic => False
    | Err (Fails _) => True
    end) (evaluate url text parsed).
Proof.
  unfold evaluate. apply always_bind. intros [slot|e]; [|done].
  apply always_bind. intros [bytes|e]; [|done]. cbn [map_err mbind result_bind].
  pose proof (reserve_apr_range bytes) as Hr.
  destruct (reserve_apr_bps bytes) as [bps|[|e]]; [|done|done].
  destruct controlled_wallet_addresses as [cw ata] eqn:Hcw.
  apply always_bind. intros [balance|e]; [|done]. cbn.
  unfold compose_w5e_result, status_of. 
  destruct (W5D_DEPOSIT_AMOUNT_RAW <=? default 0 balance) eqn:Hb,
    (dp_threshold_bps parsed <? bps) eqn:Hm; (split; cbn; [done|done|done|done|done|]); b2p;
    split; intros; destruct_and?; done || lia.
Qed.

(** ** The Save reading *)

(** A Save reading is of the pinned pool: all four addresses were checked. *)
Theorem save_reading_pinned url :
  always (λ r, match r with
    | Ok s => sr_reserve_pubkey s = W5F_MAIN_POOL_RESERVE_BS58 ∧
        sr_lending_market s = W5F_MAIN_POOL_LENDING_MARKET_BS58 ∧
        sr_liquidity_mint s = W5F_MAIN_POOL_LIQUIDITY_MINT_BS58 ∧
        sr_collateral_mint s = W5F_MAIN_POOL_COLLATERAL_MINT_BS58 ∧
        parse_percent_string_to_bps (sr_raw_supply_interest_str s) = Ok (sr_save_display_apy_bps s)
    | Err _ => True
    end) (fetch_main_pool_usdc url).
Proof.
  intros resp. cbn. destruct (read_save_answer resp) as [s|e] eqn:Hr; [|done].
  unfold read_save_answer, parse_save_reserves_response, pinned in Hr.
  destruct resp as [[status body]|]; [|done]. inv_ok Hr. b2p. by subst.
Qed.

(** *** To the basis point *)
Definition apy_text (n : Z) : string := fmt (n / 100) +:+ "." +:+ fmt_02 (n mod 100).

(** The percent text of every rate up to ten percent is read as exactly its basis
    points, for all the rounding of floating point. *)
Theorem display_apy_exact n : 0 ≤ n ≤ 1000 → parse_percent_string_to_bps (apy_text n) = Ok n.
Proof.
  intros Hn.
  assert (forallb (λ n, match parse_percent_string_to_bps (apy_text n) with
                        | Ok m => m =? n | Err _ => false end) (seqZ 0 1001) = true) as Hall
    by by vm_compute.
  rewrite forallb_forall in Hall. specialize (Hall n).
  destruct (parse_percent_string_to_bps (apy_text n)) as [m|e].
  - f_equal. apply Z.eqb_eq, Hall, list_elem_of_In, elem_of_seqZ. lia.
  - discriminate Hall. apply list_elem_of_In, elem_of_seqZ. lia.
Qed.
End facts.

Lemma display_apy_exact_witness :
  parse_percent_string_to_bps (H := λ s, bytes_str s) (H0 := λ _, "") "4.75" = Ok 475.
Proof. apply (display_apy_exact (H1 := λ s, bytes_str s) (H2 := λ _, "") 475). lia. Defined.

(** Half a basis point rounds up. *)
Lemma half_basis_point_rounds_up `{DebugText, FloatText} :
  parse_percent_string_to_bps "0.005" = Ok 1.
Proof. by vm_compute. Qed.
