(* ===== verification/AutoExecute.v ===== *)
(** * Automatic execution ([stage2_w5i_auto_execute.rs])

    The background loop: list the reserved intents, read the market once, and
    hand every intent of the pinned shape whose threshold is exceeded to the chat
    executor, which takes the lease. *)
From S2P Require Import Prelude Interaction WatchRules WatcherBase RuleStore RustText.
From S2P Require Import FundingStore FundingSafety FundingEvents MarketReading ChatExecute.
#[local] Open Scope string_scope.
#[local] Open Scope Z_scope.

Definition PINNED_CONTROLLED_WALLET : string := "BPfDMmeMBmCbMC1rWh7hwigMBoKGBrKwXxSeUu9hhs5L".
Definition PINNED_CONTROLLED_USDC_ATA : string := "7LFdKcSV7JQYi3or5y9phHVPjhGigu5DDjUakAFbBmk3".
Definition MAX_INTENTS_PER_TICK : Z := 16.
Definition W5I_ENV_MASTER_GATE : string := "CLAW_STAGE2_W5I_AUTO_EXECUTION".

Inductive TickError :=
| RepoListFailed (m : string)
| SaveApyFailed (m : string).

(** ** Configuration *)
Record Stage2W5iAutoExecuteConfig := MkAutoConfig {
  ac_w5i_master_gate_on : bool;
  ac_w5g_master_gate_on : bool;
  ac_w5g_env_approval_matches : bool;
  ac_w5g_cluster_mainnet_beta : bool;
  ac_w5g_keypair_path_present : bool;
  ac_rpc_url_present : bool
}.

Definition auto_config_from_std_env (vars : Env) : Stage2W5iAutoExecuteConfig :=
  let env key := match vars key with
                 | Some s => if is_blank s then None else Some s
                 | None => None
                 end in
  let is_some key := match env key with Some _ => true | None => false end in
  MkAutoConfig
    (bool_decide (env W5I_ENV_MASTER_GATE = Some "1"))
    (bool_decide (env W5G_ENV_MASTER_GATE = Some "1"))
    (bool_decide (env W5G_ENV_APPROVAL_PHRASE_OWNER = Some W5G_REQUIRED_APPROVAL_PHRASE))
    (bool_decide (env W5G_ENV_CLUSTER = Some "mainnet-beta"))
    (is_some W5G_ENV_DELEGATED_KEYPAIR_PATH)
    (is_some "HELIUS_RPC_URL" || is_some "CLAW_RPC_URL").

Definition fully_enabled (c : Stage2W5iAutoExecuteConfig) : bool :=
  ac_w5i_master_gate_on c && ac_w5g_master_gate_on c && ac_w5g_env_approval_matches c &&
  ac_w5g_cluster_mainnet_beta c && ac_w5g_keypair_path_present c && ac_rpc_url_present c.

Fixpoint join_str (sep : string) (l : list string) : string :=
  match l with
  | [] => ""
  | [s] => s
  | s :: l => s +:+ sep +:+ join_str sep l
  end.

Definition disabled_reason (c : Stage2W5iAutoExecuteConfig) : string :=
  let push (b : bool) (s : string) : list string := if b then [] else [s] in
  let missing :=
    (push (ac_w5i_master_gate_on c) "CLAW_STAGE2_W5I_AUTO_EXECUTION" ++
     push (ac_w5g_master_gate_on c) "CLAW_STAGE2_LIVE_CHAT_EXECUTION" ++
     push (ac_w5g_env_approval_matches c) "CLAW_STAGE2_CHAT_EXECUTION_APPROVED" ++
     push (ac_w5g_cluster_mainnet_beta c) "CLAW_STAGE2_CLUSTER (must be mainnet-beta)" ++
     push (ac_w5g_keypair_path_present c) "CLAW_STAGE2_DELEGATED_KEYPAIR_PATH" ++
     push (ac_rpc_url_present c) "HELIUS_RPC_URL or CLAW_RPC_URL")%list in
  match missing with
  | [] => "all gates satisfied"
  | _ => "missing: " +:+ join_str ", " missing
  end.

(** ** The tick *)
Record TickReport := MkTickReport {
  tr_scanned : nat;
  tr_skipped_not_pinned_shape : nat;
  tr_skipped_condition_false : nat;
  tr_dispatched : nat;
  tr_completed : nat;
  tr_broadcasted_timeout : nat;
  tr_prechecks_failed : nat;
  tr_execution_failed : nat
}.

Definition is_pinned_demo_shape (i : W5hFundingIntent) : bool :=
  let t := fi_terms i in
  in_band (ni_amount_raw t) &&
  bool_decide (ni_controlled_wallet t = PINNED_CONTROLLED_WALLET) &&
  bool_decide (ni_controlled_usdc_ata t = PINNED_CONTROLLED_USDC_ATA).

Definition skip_shape (r : TickReport) : TickReport :=
  MkTickReport (tr_scanned r) (S (tr_skipped_not_pinned_shape r)) (tr_skipped_condition_false r)
    (tr_dispatched r) (tr_completed r) (tr_broadcasted_timeout r) (tr_prechecks_failed r)
    (tr_execution_failed r).
Definition skip_condition (r : TickReport) : TickReport :=
  MkTickReport (tr_scanned r) (tr_skipped_not_pinned_shape r) (S (tr_skipped_condition_false r))
    (tr_dispatched r) (tr_completed r) (tr_broadcasted_timeout r) (tr_prechecks_failed r)
    (tr_execution_failed r).
Definition count_dispatched (r : TickReport) : TickReport :=
  MkTickReport (tr_scanned r) (tr_skipped_not_pinned_shape r) (tr_skipped_condition_false r)
    (S (tr_dispatched r)) (tr_completed r) (tr_broadcasted_timeout r) (tr_prechecks_failed r)
    (tr_execution_failed r).
Definition count_outcome (status : ChatExecuteStatus) (r : TickReport) : TickReport :=
  let add s n := if bool_decide (status = s) then S n else n in
  MkTickReport (tr_scanned r) (tr_skipped_not_pinned_shape r) (tr_skipped_condition_false r)
    (tr_dispatched r) (add XCompleted (tr_completed r))
    (add XBroadcastedTimeout (tr_broadcasted_timeout r))
    (add XPrechecksFailed (tr_prechecks_failed r))
    (add XExecutionFailed (tr_execution_failed r)).

Section watcher.
(** [W5iExecutionDispatcher::execute]; [None] when it panics. *)
Context (dispatch : ChatExecuteRequest → FProg (option ChatExecuteOutcome)).

Definition auto_request (i : W5hFundingIntent) : ChatExecuteRequest :=
  MkChatRequest (ni_rule_id_hex (fi_terms i)) (ni_canonical_rule_hash_hex (fi_terms i))
    W5G_REQUIRED_APPROVAL_PHRASE.

(** The loop; a panic of the dispatcher ends the tick with it. *)
Fixpoint dispatch_intents (save_bps : Z) (intents : list W5hFundingIntent) (r : TickReport) :
    FProg (option TickReport) :=
  match intents with
  | [] => mret (Some r)
  | i :: intents =>
      if negb (is_pinned_demo_shape i) then dispatch_intents save_bps intents (skip_shape r)
      else if save_bps <=? ni_threshold_bps (fi_terms i)
      then dispatch_intents save_bps intents (skip_condition r)
      else
        outcome ← dispatch (auto_request i);
        match outcome with
        | None => mret None
        | Some o =>
            dispatch_intents save_bps intents (count_outcome (xo_status o) (count_dispatched r))
        end
  end.

Definition auto_tick : FProg (option (Result TickError TickReport)) :=
  listed ← call (IntentListReserved MAX_INTENTS_PER_TICK);
  match listed with
  | Err e => mret (Some (Err (RepoListFailed (show_store_error e))))
  | Ok [] => mret (Some (Ok (MkTickReport 0 0 0 0 0 0 0 0)))
  | Ok intents =>
      save ← call FetchSaveApy;
      match save with
      | Err e => mret (Some (Err (SaveApyFailed (show_evaluation_error e))))
      | Ok save =>
          r ← dispatch_intents (sr_save_display_apy_bps save) intents (MkTickReport (length intents) 0 0 0 0 0 0 0);
          mret (match r with Some r => Some (Ok r) | None => None end)
      end
  end.
End watcher.
