(* ===== verification/FundingFlow.v ===== *)
(** * Orders, confirmations and executions over one funding store

    Any number of chat messages, decisions on drafts, funding confirmations, chat
    executions, automatic ticks and client calls, interleaved at every await and
    stopped anywhere, while the rule table changes at will.  What comes out: an
    order exists only when a user asked for it, a budget is reserved only for a
    verified deposit, and an order's budget reaches the chain at most once. *)
From stdpp Require Import functions.
From S2P Require Import Prelude Interaction WatchRules WatcherBase RuleStore RustText.
From S2P Require Import FundingStore FundingSafety DemoCommand MarketReading OrderDraft.
From S2P Require Import FundingEvents OrderCommand ChatExecute OrderBridge AutoExecute.
#[local] Open Scope string_scope.
#[local] Open Scope Z_scope.

(** ** State and events *)
Inductive FlowEntry :=
| ECall (c : FundingCall) (rows : Z)
| EFetched (signature : string) (r : Result string TxFetchOutcome)
| ESent (intent_id : string) (req : ChatExecuteSendRequest) (o : ChatExecuteSendOutcome)
| EConsumed (session_id_hex draft_id hash : string) (o : DraftConsumeOutcome)
| EWallet (session_id_hex : string) (wallet : option string)
| EMessage (session_id message : string)
| EDecision (session_id draft_id draft_hash : string) (user_confirmed : bool).
Notation FlowLog := (list FlowEntry).

Record FlowState := MkFlow {
  fw_intents : IntentTable;
  fw_rules : Table;
  fw_log : FlowLog
}.

(** Everything the environment decides. *)
Record FlowEnv := MkFlowEnv {
  fe_now : Z;
  fe_fault : option string;
  fe_tx : string → Result string TxFetchOutcome;
  fe_save : ERes SaveDisplayApyReading;
  fe_native : string → DemoParsed → ERes W5dEvaluationResult;
  fe_send : ChatExecuteSendRequest → ChatExecuteSendOutcome;
  fe_consume : string → string → string → DraftConsumeOutcome;
  fe_draft : string → string → option DraftIntent;
  fe_wallet : string → option string
}.

(** Amounts of drafts are 64-bit. *)
Definition env_typed (env : FlowEnv) : Prop :=
  ∀ session id hash d, fe_consume env session id hash = Consumed d → is_u 64 (di_amount_raw d).

Definition flow_entries (e : FundingEvent) : FundingAnswer e → FlowLog :=
  match e with
  | IntentCall c => λ a, match a with Ok n => [ECall c n] | Err _ => [] end
  | FetchTx sig => λ a, [EFetched sig a]
  | SendDeposit id req => λ a, [ESent id req a]
  | DraftConsume session id hash => λ a, [EConsumed session id hash a]
  | SessionWallet session => λ a, [EWallet session a]
  | ChatMessage session message => λ _, [EMessage session message]
  | DraftDecision session id hash confirmed => λ _, [EDecision session id hash confirmed]
  | _ => λ _, []
  end.

Section semantics.
Context `{Crates, IntentOrder}.

(** A statement that the database refuses leaves its table alone. *)
Definition or_fault {A} (env : FlowEnv) (a : SRes A) : SRes A :=
  match fe_fault env with Some m => Err (Sqlx m) | None => a end.

Definition flow_answer (env : FlowEnv) (e : FundingEvent) (t : IntentTable) (rules : Table) :
    FundingAnswer e * IntentTable * Table :=
  match e with
  | IntentGet id => (or_fault env (get_intent id t), t, rules)
  | IntentListReserved limit => (or_fault env (list_budget_reserved limit t), t, rules)
  | IntentCall c =>
      match fe_fault env with
      | Some m => (Err (Sqlx m), t, rules)
      | None => let '(n, t') := apply_funding c (fe_now env) t in (Ok n, t', rules)
      end
  | RuleGet id => (or_fault env (get id rules), t, rules)
  | RuleMarkCompleted id used slot =>
      match fe_fault env with
      | Some m => (Err (Sqlx m), t, rules)
      | None => let '(n, rules') := mark_completed id used slot (fe_now env) rules in
                (Ok n, t, rules')
      end
  | ClockNow => (fe_now env, t, rules)
  | FetchTx sig => (fe_tx env sig, t, rules)
  | FetchSaveApy => (fe_save env, t, rules)
  | FetchNativeApr text parsed => (fe_native env text parsed, t, rules)
  | RuleInsert rule =>
      match fe_fault env with
      | Some m => (Err (Sqlx m), t, rules)
      | None => let '(r, rules') := insert_rule rule (fe_now env) rules in (r, t, rules')
      end
  | DraftConsume session id hash => (fe_consume env session id hash, t, rules)
  | DraftGet session id => (fe_draft env session id, t, rules)
  | DraftDrop _ _ => (tt, t, rules)
  | SessionWallet session => (fe_wallet env session, t, rules)
  | SendDeposit _ req => (fe_send env req, t, rules)
  | ChatMessage _ _ | DraftDecision _ _ _ _ => (tt, t, rules)
  end.

Definition flow_event (env : FlowEnv) (e : FundingEvent) (s : FlowState) :
    FundingAnswer e * FlowState :=
  let '(a, t, rules) := flow_answer env e (fw_intents s) (fw_rules s) in
  (a, MkFlow t rules (flow_entries e a ++ fw_log s)).

(** One program alone, to its end. *)
Fixpoint run_flow {A} (env : FlowEnv) (p : FProg A) (s : FlowState) : A * FlowState :=
  match p with
  | Ret a => (a, s)
  | Vis e k => let '(a, s) := flow_event env e s in run_flow env (k a) s
  end.

(** ** Interleaving *)
Record FlowPool := MkFlowPool { fp_threads : gmap nat (FProg unit); fp_state : FlowState }.

Inductive flow_step (allowed : FProg unit → Prop) : FlowPool → FlowPool → Prop :=
| flow_spawn ts s n p :
    ts !! n = None → allowed p →
    flow_step allowed (MkFlowPool ts s) (MkFlowPool (<[n := p]> ts) s)
| flow_thread ts s n e k env a s' :
    ts !! n = Some (Vis e k) → env_typed env → flow_event env e s = (a, s') →
    flow_step allowed (MkFlowPool ts s) (MkFlowPool (<[n := k a]> ts) s')
| flow_stop ts s n : flow_step allowed (MkFlowPool ts s) (MkFlowPool (delete n ts) s)
| flow_rules ts t rules rules' l :
    flow_step allowed (MkFlowPool ts (MkFlow t rules l)) (MkFlowPool ts (MkFlow t rules' l)).

Inductive flow_reachable (allowed : FProg unit → Prop) : FlowPool → Prop :=
| flow_start rules : flow_reachable allowed (MkFlowPool ∅ (MkFlow ∅ rules []))
| flow_more pl pl' :
    flow_reachable allowed pl → flow_step allowed pl pl' → flow_reachable allowed pl'.
End semantics.

(** ** Reading the history *)
Definition calls (l : FlowLog) : FundingLog :=
  omap (λ x, match x with ECall c n => Some (c, n) | _ => None end) l.

Lemma done_calls c l : done c (calls l) ↔ ECall c 1 ∈ l.
Proof.
  unfold done, calls. rewrite list_elem_of_omap. split.
  - intros (x & Hx & Heq). destruct x; try done. by injection Heq as -> ->.
  - intros Hx. by exists (ECall c 1).
Qed.

Lemma calls_app l1 l2 : calls (l1 ++ l2) = (calls l1 ++ calls l2)%list.
Proof. apply omap_app. Qed.

(** The sender reached the chain: the deposit is, or may be, on it. *)
Definition is_final (o : ChatExecuteSendOutcome) : bool :=
  match o with
  | SendFinalized _ _ _ _ _ _ _ _ _ | SendTimeout _ _ _ _ _ | SendOnChainFailure _ _ _ _ _ =>
      true
  | _ => false
  end.

Definition final_sent (id : string) (l : FlowLog) : Prop :=
  ∃ req o, ESent id req o ∈ l ∧ is_final o = true.

(** The transaction funds the intent: its memo names the rule and its hash, and the
    intent's token account gained the amount. *)
Definition funds (i : NewW5hFundingIntent) (tx : FetchedTx) (slot : Z) : Prop :=
  verify_funding_memo tx (ni_rule_id_hex i) (ni_canonical_rule_hash_hex i) = Ok tt ∧
  verify_funding_delta tx (ni_controlled_usdc_ata i) (ni_controlled_wallet i)
    (ni_amount_raw i) = Ok slot.

Definition deposited (id sig : string) (slot : Z) (l : FlowLog) : Prop :=
  ∃ i tx, ECall (FInsert i) 1 ∈ l ∧ ni_intent_id i = id ∧
    EFetched sig (Ok (Available tx)) ∈ l ∧ funds i tx slot.

(** The intent was leased for execution and not released since. *)
Definition leased (id : string) (l : FlowLog) : Prop :=
  ∃ now l2 l1, l = (l2 ++ ECall (FLeaseExecution id now) 1 :: l1)%list ∧
    ∀ reason, ECall (FRelease id reason) 1 ∉ l2.

Lemma deposited_mono id sig slot l l' :
  l `suffix_of` l' → deposited id sig slot l → deposited id sig slot l'.
Proof.
  intros Hl (i & tx & ? & ? & ? & ?). exists i, tx. split_and!; try done; by eapply elem_of_suffix.
Qed.

Lemma final_sent_mono id l l' : l `suffix_of` l' → final_sent id l → final_sent id l'.
Proof. intros Hl (req & o & ? & ?). exists req, o. split; [by eapply elem_of_suffix|done]. Qed.

(** ** The program logic *)
Definition same_terms (a b : NewW5hFundingIntent) : Prop :=
  ni_rule_id_hex a = ni_rule_id_hex b ∧
  ni_canonical_rule_hash_hex a = ni_canonical_rule_hash_hex b ∧
  ni_controlled_usdc_ata a = ni_controlled_usdc_ata b ∧
  ni_controlled_wallet a = ni_controlled_wallet b ∧ ni_amount_raw a = ni_amount_raw b.

(** What was asked for is what the order says: the amount and the threshold, from
    the wallet given to the pinned account, for three minutes. *)
Record asked_for `{Crates, Pubkeys, Addresses} (parsed : W5hParsed) (wallet : string)
    (i : NewW5hFundingIntent) : Prop := {
  af_amount : ni_amount_raw i = wp_amount_raw parsed;
  af_threshold : ni_threshold_bps i = wp_threshold_bps parsed;
  af_controlled : (ni_controlled_wallet i, ni_controlled_usdc_ata i) = controlled_wallet_addresses;
  af_expiry : ni_expires_at_ms i = as_i64 (ni_created_at_ms i + 180000);
  af_wallet : ∃ pk, pubkey_try_from_str wallet = Ok pk ∧ ni_user_wallet i = base58 pk ∧
    ni_user_usdc_ata i =
      base58 (get_associated_token_address pk (pubkey_from_str DEMO_LIQUIDITY_MINT_BS58))
}.

(** What its user did for it, newest first: the session sent the command, or confirmed
    the draft and its hash, which was then consumed; and the session's bound wallet was
    looked up. *)
Inductive requested `{DebugText} (l : FlowLog) (parsed : W5hParsed) (wallet : string) : Prop :=
| by_command session message :
    looks_like_w5h_chat_command message = true → parse_w5h_chat_command message = Ok parsed →
    [EWallet session (Some wallet); EMessage session message] `sublist_of` l →
    requested l parsed wallet
| by_draft session id hash d :
    parsed = parsed_of_draft d → di_session_id_hex d = session →
    [EWallet session (Some wallet); EConsumed session id hash (Consumed d);
     EDecision session id hash true] `sublist_of` l →
    requested l parsed wallet.
Definition ordered `{Crates, Pubkeys, Addresses, DebugText} (i : NewW5hFundingIntent)
    (l : FlowLog) : Prop :=
  ∃ parsed wallet, asked_for parsed wallet i ∧ is_blank wallet = false ∧ requested l parsed wallet.

Section programs.
Context `{!Crates, !Pubkeys, !Addresses, !DebugText}.

Lemma sublist_suffix (l l1 l2 : FlowLog) : l1 `suffix_of` l2 → l `sublist_of` l1 → l `sublist_of` l2.
Proof. intros [k ->] Hl. by apply sublist_inserts_l. Qed.
Lemma requested_mono l l' parsed wallet :
  l `suffix_of` l' → requested l parsed wallet → requested l' parsed wallet.
Proof.
  intros Hl [session message ? ? Hs|session id hash d ? ? Hs].
  - by eapply by_command, sublist_suffix.
  - by eapply by_draft, sublist_suffix.
Qed.
Lemma ordered_mono i l l' : l `suffix_of` l' → ordered i l → ordered i l'.
Proof.
  intros Hl (parsed & wallet & ? & ? & Hd). exists parsed, wallet. split_and!; [done..|].
  by eapply requested_mono.
Qed.

Definition flow_pre (L : gset string) (l : FlowLog) (e : FundingEvent) : Prop :=
  match e with
  | SendDeposit id _ | IntentCall (FRelease id _) => id ∈ L
  | IntentCall (FCompleted id _) | IntentCall (FFailed id _) => final_sent id l
  | IntentCall (FReserved id sig slot) => deposited id sig slot l
  | IntentCall (FInsert i) => is_u 64 (ni_amount_raw i) ∧ ordered i l
  | _ => True
  end.

Definition flow_told (l : FlowLog) (e : FundingEvent) : FundingAnswer e → Prop :=
  match e with
  | IntentGet id => λ a, ∀ s, a = Ok (Some s) →
      ∃ i, ECall (FInsert i) 1 ∈ l ∧ ni_intent_id i = id ∧ same_terms (fi_terms s) i
  | DraftConsume _ _ _ => λ o, ∀ d, o = Consumed d → is_u 64 (di_amount_raw d)
  | _ => λ _, True
  end.

Definition flow_leases (L : gset string) (e : FundingEvent) : FundingAnswer e → gset string :=
  match e with
  | IntentCall (FLeaseExecution id _) => λ a,
      match a with Ok n => if n =? 1 then {[id]} ∪ L else L | Err _ => L end
  | IntentCall (FRelease id _) => λ _, L ∖ {[id]}
  | SendDeposit id _ => λ o, if is_final o then L ∖ {[id]} else L
  | _ => λ _, L
  end.

Notation fsafe := (Interaction.safe flow_pre flow_told flow_leases flow_entries).

(** A program that respects the logic and says nothing of its end. *)
Definition tame {A : Type} (L : gset string) (l : FlowLog) (p : FProg A) : Prop :=
  fsafe (λ _ _ _, True) L l p.

Lemma tame_ret {A : Type} L l (a : A) : tame L l (Ret a).
Proof. by intros l' _. Qed.

Lemma tame_bind {A B : Type} L l (p : FProg A) (f : A → FProg B) :
  tame L l p → (∀ a L' l', l `suffix_of` l' → tame L' l' (f a)) → tame L l (p ≫= f).
Proof.
  intros Hp Hf. apply safe_bind. eapply safe_conseq; [|done]. intros a L' l' Hl _. by apply Hf.
Qed.

Lemma tame_call {A : Type} L l e (k : FundingAnswer e → FProg A) :
  (∀ l', l `suffix_of` l' → flow_pre L l' e) →
  (∀ a l', l `suffix_of` l' → flow_told l' e a →
     tame (flow_leases L e a) (flow_entries e a ++ l') (k a)) →
  tame L l (Vis e k).
Proof. intros Hp Hk l' Hl. split; [by apply Hp|]. intros a Ha. by apply Hk. Qed.

(** Walk a program: events with nothing to show are passed. *)
Ltac walk := repeat first
  [ apply tame_ret
  | apply tame_call; [by intros ? _|intros ? ? ? ?; cbn [prog_bind]]
  | case_match
  | progress cbn [mbind prog_mbind prog_bind call ask mret prog_ret] ].

(** *** Confirmation *)
Lemma refresh_live_metrics_tame w L l : tame L l (refresh_live_metrics w).
Proof. unfold refresh_live_metrics. walk. Qed.

Lemma success_outcome_tame w s sig st e L l :
  tame L l (success_outcome_with_status w s sig st e).
Proof. apply tame_bind; [apply refresh_live_metrics_tame|]. intros. apply tame_ret. Qed.

Lemma terminal_outcome_tame w s sig st c r L l : tame L l (terminal_outcome w s sig st c r).
Proof. apply tame_bind; [apply refresh_live_metrics_tame|]. intros. apply tame_ret. Qed.

Lemma reserve_budget_tame w req stored slot L l :
  deposited (cf_rule_id_hex req) (cf_funding_signature req) slot l →
  tame L l (reserve_budget w req stored slot).
Proof.
  intros Hd. apply tame_call; [intros l' Hl; by eapply deposited_mono|]. intros [n|e] l1 _ _.
  - cbn [prog_bind]. apply tame_call; [by intros ? _|]. intros again l2 _ _.
    apply tame_bind; [apply refresh_live_metrics_tame|]. intros. apply tame_ret.
  - apply terminal_outcome_tame.
Qed.

Lemma refuse_funding_tame w req stored e L l : tame L l (refuse_funding w req stored e).
Proof. apply tame_call; [by intros ? _|]. intros. apply terminal_outcome_tame. Qed.

Lemma identity_matches_terms stored req i :
  identity_matches stored req = true → same_terms (fi_terms stored) i →
  cf_controlled_usdc_ata req = ni_controlled_usdc_ata i ∧
  cf_controlled_wallet req = ni_controlled_wallet i ∧ cf_amount_raw req = ni_amount_raw i.
Proof.
  unfold identity_matches, same_terms. intros Hm (_ & _ & <- & <- & <-). b2p. naive_solver.
Qed.

Lemma verify_funding_tame w req stored tx i L l :
  ECall (FInsert i) 1 ∈ l → ni_intent_id i = cf_rule_id_hex req →
  same_terms (fi_terms stored) i → identity_matches stored req = true →
  EFetched (cf_funding_signature req) (Ok (Available tx)) ∈ l →
  tame L l (verify_funding w req stored tx).
Proof.
  intros Hi Hid Hst Hm Hf. unfold verify_funding.
  destruct (identity_matches_terms _ _ _ Hm Hst) as (-> & -> & ->).
  destruct Hst as (-> & -> & _).
  destruct (verify_funding_memo _ _ _) as [[]|e] eqn:Hmemo; [|apply refuse_funding_tame].
  destruct (verify_funding_delta _ _ _ _) as [slot|e] eqn:Hdelta; [|apply refuse_funding_tame].
  apply reserve_budget_tame. by exists i, tx.
Qed.

Lemma fetch_funding_tame w req stored i L l :
  ECall (FInsert i) 1 ∈ l → ni_intent_id i = cf_rule_id_hex req →
  same_terms (fi_terms stored) i → identity_matches stored req = true →
  tame L l (fetch_funding w req stored).
Proof.
  intros Hi Hid Hst Hm. apply tame_call; [by intros ? _|]. intros [[|tx|r]|e] l1 Hl _;
    cbn [prog_bind flow_entries].
  - apply success_outcome_tame.
  - eapply verify_funding_tame; try done; [|by left]. right. by eapply elem_of_suffix.
  - apply tame_bind; [apply success_outcome_tame|]. intros. apply tame_ret.
  - apply tame_bind; [apply success_outcome_tame|]. intros. apply tame_ret.
Qed.

Lemma confirm_tame w req L l : tame L l (FundingEvents.execute w req).
Proof.
  apply tame_call; [by intros ? _|]. intros [[stored|]|e] l1 _ Htold; try apply tame_ret.
  cbn [prog_bind]. destruct (identity_matches stored req) eqn:Hm; cbn [negb];
    [|apply terminal_outcome_tame].
  destruct (echoed_status _); [apply success_outcome_tame|].
  destruct (Htold stored eq_refl) as (i & Hi & Hid & Hst).
  apply tame_call; [by intros ? _|]. intros [n|e] l2 Hl2 _; cbn [prog_bind];
    [|apply terminal_outcome_tame].
  destruct (n =? 0); [apply terminal_outcome_tame|].
  eapply fetch_funding_tame; try done. right. by eapply elem_of_suffix.
Qed.

(** *** Execution *)

Lemma settle_tame request k req o L l :
  ESent (cx_rule_id_hex request) req o ∈ l →
  (is_final o = false → cx_rule_id_hex request ∈ L) →
  tame L l (settle true request k o).
Proof.
  intros Hs Hl. destruct o; cbn [settle];
    try (apply tame_call; [intros l' _; by apply Hl|]; intros; apply tame_ret).
  - apply tame_call; [by intros ? _|]. intros r l1 Hl1 _. cbn [prog_bind flow_entries app].
    apply tame_call; [|intros; apply tame_ret].
    intros l2 Hl2. apply (final_sent_mono _ l); [by etransitivity|]. by eexists _, _.
  - apply tame_ret.
  - apply tame_call; [|intros; apply tame_ret].
    intros l1 Hl1. apply (final_sent_mono _ l); [done|]. by eexists _, _.
Qed.

Lemma lease_and_send_tame request k send L l : tame L l (lease_and_send true request k send).
Proof.
  apply tame_call; [by intros ? _|]. intros now l1 _ _. apply tame_call; [by intros ? _|].
  intros [n|e] l2 _ _; cbn [prog_bind flow_leases]; [|apply tame_ret].
  destruct (n =? 1); [|apply tame_ret]. apply tame_call; [intros l3 _; cbn; set_solver|].
  intros o l3 _ _. eapply settle_tame; [by left|]. intros Ho. cbn [flow_leases]. rewrite Ho.
  set_solver.
Qed.

Lemma chat_execute_tame config request L l : tame L l (ChatExecute.execute config true request).
Proof.
  unfold ChatExecute.execute. destruct (gates _ _); [|apply tame_ret].
  destruct (decode_rule_id_hex _) as [[id|]|]; try apply tame_ret.
  apply tame_call; [by intros ? _|]. intros [[stored|]|e] l1 _ _; try apply tame_ret.
  cbn [prog_bind]. destruct (rule_checks _ _); [|apply tame_ret].
  unfold recheck_and_send. apply tame_call; [by intros ? _|]. intros [save|e] l2 _ _;
    [|apply tame_ret]. cbn [prog_bind]. destruct (_ <=? _); [apply tame_ret|].
  apply tame_call; [by intros ? _|]. intros [native|e] l3 _ _; [|apply tame_ret].
  cbn [prog_bind]. destruct (_ <? _); [apply tame_ret|]. apply lease_and_send_tame.
Qed.

Lemma dispatch_intents_tame dispatch save intents r L l :
  (∀ request L l, tame L l (dispatch request)) →
  tame L l (dispatch_intents dispatch save intents r).
Proof.
  intros Hd. revert L l r. induction intents as [|i intents IH]; intros L l r;
    cbn [dispatch_intents]; [apply tame_ret|].
  destruct (negb _); [apply IH|]. destruct (_ <=? _); [apply IH|].
  apply tame_bind; [apply Hd|]. intros [o|] L' l' _; [apply IH|apply tame_ret].
Qed.

Lemma auto_tick_tame dispatch L l :
  (∀ request L l, tame L l (dispatch request)) → tame L l (auto_tick dispatch).
Proof.
  intros Hd. apply tame_call; [by intros ? _|]. intros [[|i rest]|e] l1 _ _; try apply tame_ret.
  cbn [prog_bind]. apply tame_call; [by intros ? _|]. intros [save|e] l2 _ _; [|apply tame_ret].
  apply tame_bind; [by apply dispatch_intents_tame|]. intros. apply tame_ret.
Qed.

(** *** Orders *)
Lemma order_intent_asked parsed wallet pk rule save native now :
  pubkey_try_from_str wallet = Ok pk →
  asked_for parsed wallet (order_intent parsed pk rule save native now).
Proof. intros Hpk. by split; [..|exists pk]. Qed.

Lemma register_intent_tame text parsed i L l :
  is_u 64 (ni_amount_raw i) → ordered i l → tame L l (register_intent text parsed i).
Proof.
  intros Ha Hi. apply tame_call; [intros l' Hl; split; [done|by eapply ordered_mono]|].
  intros [n|e] l1 _ _; walk.
Qed.

Lemma from_parsed_tame wallet text parsed L l :
  is_u 64 (wp_amount_raw parsed) → is_blank wallet = false → requested l parsed wallet →
  tame L l (handle_w5h_from_parsed wallet text parsed).
Proof.
  intros Ha Hblank Hasked. apply tame_call; [by intros ? _|]. intros [native|e] l1 Hl1 _; [|apply tame_ret].
  cbn [prog_bind flow_entries app]. apply tame_call; [by intros ? _|].
  intros [save|e] l2 Hl2 _; [|apply tame_ret]. cbn [prog_bind flow_entries app].
  destruct (pubkey_try_from_str wallet) as [pk|e] eqn:Hpk; [|apply tame_ret].
  apply tame_bind; [unfold persist_rule_idempotent; walk|]. intros o L3 l3 Hl3.
  apply tame_call; [by intros ? _|]. intros now l4 Hl4 _. cbn [prog_bind flow_entries app].
  apply register_intent_tame; [done|]. apply (ordered_mono _ l); [by repeat (etransitivity; [eassumption|])|].
  exists parsed, wallet. split; [by apply order_intent_asked|done].
Qed.

Lemma parsed_amount text parsed : parse_w5h_chat_command text = Ok parsed →
  wp_amount_raw parsed = W5H_DEPOSIT_AMOUNT_RAW.
Proof. unfold parse_w5h_chat_command. intros Hp. inv_ok Hp. done. Qed.

(** What was there is below what came after. *)
Lemma then_sublist (x : FlowEntry) s l l' : l `suffix_of` l' → s `sublist_of` l → x :: s `sublist_of` x :: l'.
Proof. intros Hl Hs. by apply sublist_skip, (sublist_suffix _ l). Qed.

Lemma demo_order_tame (save_apy repo : bool) text L l :
  tame L l (handle_w5d_demo_command save_apy repo text).
Proof.
  apply tame_bind; [|intros; apply tame_ret]. destruct save_apy.
  - unfold handle_demo_command_v3, register_rule, persist_rule_idempotent. walk.
  - unfold handle_demo_command_v2, register_rule, persist_rule_idempotent. walk.
Qed.

Lemma chat_request_tame w session message L l : tame L l (chat_request w session message).
Proof.
  apply tame_call; [by intros ? _|]. intros [] l1 Hl1 _. cbn [prog_bind flow_entries app]. unfold handle_chat.
  destruct (_ && _); [apply tame_bind; [apply demo_order_tame|intros; apply tame_ret]|].
  destruct (looks_like_w5h_chat_command message) eqn:Hlike; [|apply tame_ret].
  unfold route_w5h_chat_command. destruct (w5h_missing w); [apply tame_ret|].
  apply tame_call; [by intros ? _|]. intros [pk|] l2 Hl2 _; [|apply tame_ret]. cbn [prog_bind flow_entries app].
  destruct (is_blank pk) eqn:Hblank; [apply tame_ret|]. apply tame_bind; [|intros; case_match; [|case_match]; apply tame_ret].
  unfold handle_w5h_chat_command.
  destruct (parse_w5h_chat_command message) as [parsed|[|e]] eqn:Hp; try apply tame_ret.
  apply tame_bind; [|intros; apply tame_ret].
  apply from_parsed_tame; [by rewrite (parsed_amount _ _ Hp)|done|].
  apply (by_command _ _ _ session message); [done|done|].
  eapply then_sublist; [exact Hl2|]. by apply sublist_skip, sublist_nil_l.
Qed.

Lemma finalize_request_tame session request L l : tame L l (finalize_request session request).
Proof.
  apply tame_call; [by intros ? _|]. intros [] l0 _ _. cbn [prog_bind flow_entries app].
  unfold run_finalize. destruct (fr_user_confirmed request); [|unfold run_reject; walk].
  unfold run_confirm. apply tame_call; [by intros ? _|]. intros [d| | |] l1 Hl1 Htold;
    try apply tame_ret. cbn [prog_bind flow_entries app].
  case_bool_decide as Hsession; cbn [negb]; [|apply tame_ret]. apply tame_call; [by intros ? _|].
  intros [pk|] l2 Hl2 _; [|apply tame_ret]. cbn [prog_bind flow_entries app].
  destruct (is_blank pk) eqn:Hblank; [apply tame_ret|]. apply tame_call; [by intros ? _|].
  intros now l3 Hl3 _. cbn [prog_bind flow_entries app].
  apply tame_bind; [|intros; apply tame_ret].
  apply tame_bind; [|intros; apply tame_ret].
  apply from_parsed_tame; [by apply Htold|done|].
  apply (by_draft _ _ _ session (fr_draft_id request) (fr_draft_hash request) d); [done|done|].
  eapply sublist_suffix; [exact Hl3|]. eapply then_sublist; [exact Hl2|].
  eapply then_sublist; [exact Hl1|]. apply sublist_skip, sublist_nil_l.
Qed.

(** ** Programs that may run *)
Definition ignore {A : Type} (p : FProg A) : FProg unit := _ ← p; mret tt.

(** One call of a client: orders are expired and refunded. *)
Definition funding_client_call (c : FundingCall) : Prop :=
  match c with
  | FExpired _ _ | FLeaseRefund _ _ | FRefunded _ _ => True
  | _ => False
  end.

Inductive funding_program : FProg unit → Prop :=
| run_chat_order w session message : funding_program (ignore (chat_request w session message))
| run_draft_order session request : funding_program (ignore (finalize_request session request))
| run_funding_confirm w req : funding_program (ignore (FundingEvents.execute w req))
| run_chat_execute config request :
    funding_program (ignore (ChatExecute.execute config true request))
| run_auto_tick config :
    funding_program (ignore (auto_tick (ChatExecute.execute config true)))
| run_funding_client c :
    funding_client_call c → funding_program (ignore (call (IntentCall c))).

Lemma funding_program_tame p L l : funding_program p → tame L l p.
Proof.
  intros Hp. destruct Hp as [| | | | |c Hc]; apply tame_bind; try (intros; apply tame_ret).
  - apply chat_request_tame.
  - apply finalize_request_tame.
  - apply confirm_tame.
  - apply chat_execute_tame.
  - apply auto_tick_tame. intros. apply chat_execute_tame.
  - apply tame_call; [|intros; apply tame_ret]. intros l' _. by destruct c.
Qed.
End programs.
