(* ===== verification/FlowSafety.v ===== *)
(** * What the funding flow guarantees

    The invariant of a pool of funding programs: which thread holds which lease,
    which deposits were verified, which sends reached the chain; and the
    properties it gives. *)
From stdpp Require Import functions.
From S2P Require Import Prelude Interaction Borsh WatchRules WatcherBase RuleStore RustText.
From S2P Require Import FundingStore FundingSafety OrderDraft FundingEvents OrderCommand.
From S2P Require Import ChatExecute OrderBridge AutoExecute FundingFlow.
#[local] Open Scope string_scope.
#[local] Open Scope Z_scope.

(** ** Rows *)
Definition row_in (t : IntentTable) (id : string) (ss : list W5hIntentStatus) : Prop :=
  ∃ r st, t !! id = Some r ∧ ir_status r = intent_as_str st ∧ st ∈ ss.

(** A call that took effect on a row of known status. *)
Lemma guard_on c r st : guard c r = true → ir_status r = intent_as_str st →
  match c with
  | FCompleted _ _ | FRelease _ _ => st = IntentExecuting
  | FFailed _ _ => st ≠ IntentCompleted ∧ st ≠ IntentFailed
  | FLeaseExecution _ _ => st = BudgetReserved
  | _ => st ≠ IntentExecuting ∧ st ≠ IntentCompleted ∧ st ≠ IntentFailed
  end.
Proof.
  intros Hg Hst. destruct c; cbn [guard] in Hg; rewrite ?(has_status_spec _ _ _ Hst) in Hg;
    by destruct st.
Qed.

(** What a readable intent says is what was inserted. *)
Lemma get_intent_terms t h id s :
  funding_history t h → (∀ i, done (FInsert i) h → is_u 64 (ni_amount_raw i)) →
  get_intent id t = Ok (Some s) →
  ∃ i, done (FInsert i) h ∧ ni_intent_id i = id ∧ same_terms (fi_terms s) i.
Proof.
  intros Hh Htyped Hget. unfold get_intent in Hget. destruct (t !! id) as [r|] eqn:Hr; [|done].
  inv_ok Hget. destruct (proj1 (funding_history_sound _ _ Hh) _ _ Hr) as [st Hst].
  destruct (so_insert _ _ _ _ Hst) as (i & Hi & Hid & Ht). exists i. split; [done|].
  split; [done|]. match goal with H : row_to_intent r = Ok _ |- _ => rename H into Hrow end.
  unfold row_to_intent in Hrow. inv_ok Hrow.
  match goal with H : checked_u 64 _ = Some _ |- _ =>
    rewrite <- Ht in H; cbn in H; apply checked_u_Some in H as [-> Hrange] end.
  specialize (Htyped i Hi). rewrite <- Ht. unfold same_terms. cbn. split_and!; try done.
  revert Hrange. unfold as_i64. rewrite wrap_small by done. unfold to_signed, is_u in *.
  case_match; b2p; lia.
Qed.

Section safety.
Context `{!Crates, !Pubkeys, !Addresses, !DebugText}.

(** ** The invariant *)
Record flow_ok (Ls : nat → gset string) (l : FlowLog) (t : IntentTable) : Prop := {
  fo_history : funding_history t (calls l);
  fo_typed i : ECall (FInsert i) 1 ∈ l → is_u 64 (ni_amount_raw i);
  fo_ordered i l0 : ECall (FInsert i) 1 :: l0 `suffix_of` l → ordered i l0;
  fo_reserved id sig slot l0 :
    ECall (FReserved id sig slot) 1 :: l0 `suffix_of` l → deposited id sig slot l0;
  fo_sent id req o l0 :
    ESent id req o :: l0 `suffix_of` l → leased id l0 ∧ ¬ final_sent id l0;
  fo_refunding id now l0 :
    ECall (FLeaseRefund id now) 1 :: l0 `suffix_of` l → ¬ final_sent id l0;
  fo_final id : final_sent id l → row_in t id [IntentExecuting; IntentCompleted; IntentFailed];
  fo_disjoint n m id : id ∈ Ls n → id ∈ Ls m → n = m;
  fo_held n id : id ∈ Ls n → leased id l ∧ ¬ final_sent id l ∧ row_in t id [IntentExecuting]
}.

(** Entries that say nothing of sends, reservations and leases. *)
Definition flow_quiet (x : FlowEntry) : Prop :=
  match x with ECall _ n => n = 0 | ESent _ _ _ => False | _ => True end.

Lemma leased_cons id x l :
  (∀ reason, x ≠ ECall (FRelease id reason) 1) → leased id l → leased id (x :: l).
Proof.
  intros Hx (now & l2 & l1 & -> & Hno). exists now, (x :: l2), l1. split; [done|].
  intros reason [E|Hin]%elem_of_cons; [by eapply Hx|by eapply Hno].
Qed.

Lemma final_sent_cons id x l :
  (∀ req o, is_final o = true → x ≠ ESent id req o) → final_sent id (x :: l) → final_sent id l.
Proof.
  intros Hx (req & o & [E|Hin]%elem_of_cons & Ho); [by destruct (Hx req o Ho)|by exists req, o].
Qed.

Lemma flow_ok_quiet Ls x l t :
  flow_quiet x → funding_history t (calls (x :: l)) → flow_ok Ls l t → flow_ok Ls (x :: l) t.
Proof.
  intros Hx Hh Hok.
  assert (∀ id, final_sent id (x :: l) → final_sent id l) as Hfin.
  { intros id. apply final_sent_cons. intros req o _ ->. done. }
  constructor; [done|..].
  - intros i [<-|Hi]%elem_of_cons; [done|by apply (fo_typed _ _ _ Hok)].
  - intros i l0 [[= <- _]|Hs]%suffix_cons_inv; [done|]. by apply (fo_ordered _ _ _ Hok).
  - intros id sig slot l0 [[= <- _]|Hs]%suffix_cons_inv; [done|].
    by apply (fo_reserved _ _ _ Hok).
  - intros id req o l0 [[= <- _]|Hs]%suffix_cons_inv; [done|].
    by eapply (fo_sent _ _ _ Hok).
  - intros id now l0 [[= <- _]|Hs]%suffix_cons_inv; [done|].
    by eapply (fo_refunding _ _ _ Hok).
  - intros id Hf%Hfin. by apply (fo_final _ _ _ Hok).
  - apply (fo_disjoint _ _ _ Hok).
  - intros n id Hn. destruct (fo_held _ _ _ Hok n id Hn) as (Hl & Hnf & Hr). split_and!; [|by auto|done].
    apply leased_cons; [|done]. by intros reason ->.
Qed.

Lemma flow_ok_shrink Ls Ls' l t :
  (∀ n id, id ∈ Ls' n → id ∈ Ls n) → flow_ok Ls l t → flow_ok Ls' l t.
Proof.
  intros Hsub Hok. constructor; try apply Hok.
  - intros n m id Hn Hm. by eapply (fo_disjoint _ _ _ Hok); apply Hsub.
  - intros n id Hn. eapply (fo_held _ _ _ Hok). by apply Hsub.
Qed.

(** *** Sends *)
Lemma flow_ok_send Ls n id req o l t :
  id ∈ Ls n → flow_ok Ls l t →
  flow_ok (<[n := if is_final o then Ls n ∖ {[id]} else Ls n]> Ls) (ESent id req o :: l) t.
Proof.
  intros Hn Hok. destruct (fo_held _ _ _ Hok n id Hn) as (Hl & Hnf & Hr).
  set (Ls' := <[n := _]> Ls : nat → gset string).
  assert (∀ m id', id' ∈ Ls' m → id' ∈ Ls m ∧ (is_final o = true → id' ≠ id)) as Hin.
  { unfold Ls'. intros m id' Hid. destruct (decide (n = m)) as [<-|Hne].
    - rewrite fn_lookup_insert in Hid. destruct (is_final o); set_solver.
    - rewrite fn_lookup_insert_ne in Hid by done. split; [done|]. intros _ ->.
      by apply Hne, (fo_disjoint _ _ _ Hok _ _ id). }
  constructor.
  - apply (fo_history _ _ _ Hok).
  - intros i [|Hi]%elem_of_cons; [done|by apply (fo_typed _ _ _ Hok)].
  - intros i l0 [|Hs]%suffix_cons_inv; [done|]. by apply (fo_ordered _ _ _ Hok).
  - intros id' sig slot l0 [|Hs]%suffix_cons_inv; [done|]. by apply (fo_reserved _ _ _ Hok).
  - intros id' req' o' l0 [[= -> _ _ ->]|Hs]%suffix_cons_inv; [done|].
    by eapply (fo_sent _ _ _ Hok).
  - intros id' now l0 [|Hs]%suffix_cons_inv; [done|]. by eapply (fo_refunding _ _ _ Hok).
  - intros id' (req' & o' & [[= -> _ ->]|Hi]%elem_of_cons & Ho').
    + destruct Hr as (r & st & Hrow & Hst & Hin'). exists r, st. split_and!; [done..|set_solver].
    + apply (fo_final _ _ _ Hok). by exists req', o'.
  - intros m m' id' [Hm _]%Hin [Hm' _]%Hin. by eapply (fo_disjoint _ _ _ Hok).
  - intros m id' [Hm Hne]%Hin. destruct (fo_held _ _ _ Hok m id' Hm) as (Hl' & Hnf' & Hr').
    split_and!; [by apply leased_cons| |done]. intros Hf. apply Hnf'.
    eapply final_sent_cons; [|done]. intros req' o' Ho' [= -> _ ->]. by apply Hne.
Qed.

(** *** Calls *)

(** The leases after a call that took effect. *)
Lemma call_leases Ls n c m id :
  id ∈ (<[n := flow_leases (Ls n) (IntentCall c) (Ok 1)]> Ls : nat → gset string) m →
  (m = n ∧ ∃ now, c = FLeaseExecution id now) ∨
  id ∈ Ls m ∧ (m = n → ∀ reason, c ≠ FRelease id reason).
Proof.
  destruct (decide (n = m)) as [<-|Hne].
  - rewrite fn_lookup_insert. destruct c; cbn; try (intros; right; split; [done|by intros ? ? ?]).
    + rewrite elem_of_union, elem_of_singleton.
      intros [->|Hin]; [left; by eauto|right; split; [done|by intros ? ? ?]].
    + intros [Hin Hne]%elem_of_difference. right. split; [done|]. intros _ r [= -> _].
      by apply Hne, elem_of_singleton.
  - rewrite fn_lookup_insert_ne by done. intros Hin. right. by split.
Qed.

Lemma row_in_other t k r id ss : id ≠ k → row_in t id ss → row_in (<[k := r]> t) id ss.
Proof.
  intros Hne (r' & st & Hr & Hst & Hin). exists r', st. by rewrite lookup_insert_ne by done.
Qed.

Section call.
Context (Ls : nat → gset string) (n : nat) (c : FundingCall) (l : FlowLog) (t t' : IntentTable).
Hypothesis Hok : flow_ok Ls l t.
Hypothesis Hpre : flow_pre (Ls n) l (IntentCall c).

(** What holds of the row that is changed. *)
Hypothesis Hkey : t !! funding_key c = None ∨ ∃ r, t !! funding_key c = Some r ∧ guard c r = true.
Hypothesis Hother : ∀ id ss, id ≠ funding_key c → row_in t id ss → row_in t' id ss.
Hypothesis Hleft : ∀ st,
  match c with
  | FLeaseExecution _ _ => st = IntentExecuting
  | FCompleted _ _ => st = IntentCompleted
  | FFailed _ _ => st = IntentFailed
  | _ => False
  end → row_in t' (funding_key c) [st].

Lemma key_row ss : row_in t (funding_key c) ss →
  (∀ st, st ∈ ss → st = IntentExecuting ∨ st = IntentCompleted ∨ st = IntentFailed) →
  match c with FCompleted _ _ | FRelease _ _ | FFailed _ _ => True | _ => False end.
Proof.
  intros (r & st' & Hr & Hst & Hin) Hss. destruct Hkey as [Hnone|(r' & Hr' & Hg)]; [by simplify_eq|].
  assert (r' = r) as -> by congruence. pose proof (guard_on c r st' Hg Hst) as Hgo.
  destruct (Hss st' Hin) as [->|[-> | ->]], c; naive_solver.
Qed.

(** A lease that someone holds is not touched by the call, unless it is its
    release by the holder. *)
Lemma held_row m id : id ∈ Ls m → (m = n → ∀ reason, c ≠ FRelease id reason) →
  funding_key c ≠ id ∧ ∀ reason, c ≠ FRelease id reason.
Proof.
  intros Hm Hrel. destruct (fo_held _ _ _ Hok m id Hm) as (_ & Hnf & Hr).
  assert (∀ reason, c ≠ FRelease id reason) as Hno.
  { intros reason ->. cbn in Hpre. eapply Hrel; [|done]. by eapply (fo_disjoint _ _ _ Hok). }
  split; [|done]. intros <-. pose proof (key_row _ Hr) as Hk.
  destruct c; try (by apply Hk; intros ? ->%list_elem_of_singleton; auto); cbn in *;
    [by apply Hnf|by eapply Hno|by apply Hnf].
Qed.

Lemma flow_ok_effect : funding_history t' (calls (ECall c 1 :: l)) →
  flow_ok (<[n := flow_leases (Ls n) (IntentCall c) (Ok 1)]> Ls) (ECall c 1 :: l) t'.
Proof.
  intros Hh. assert (∀ id, final_sent id (ECall c 1 :: l) → final_sent id l) as Hfin
    by (intros id; by apply final_sent_cons). constructor; [done|..].
  - intros i [[= <-]|Hi]%elem_of_cons; [apply Hpre|by apply (fo_typed _ _ _ Hok)].
  - intros i l0 [[= <- ->]|Hs]%suffix_cons_inv; [apply Hpre|]. by apply (fo_ordered _ _ _ Hok).
  - intros id sig slot l0 [[= <- ->]|Hs]%suffix_cons_inv; [done|].
    by apply (fo_reserved _ _ _ Hok).
  - intros id req o l0 [|Hs]%suffix_cons_inv; [done|]. by eapply (fo_sent _ _ _ Hok).
  - intros id now l0 [E|Hs]%suffix_cons_inv; [|by eapply (fo_refunding _ _ _ Hok)].
    injection E as Hc El. intros Hf. rewrite El in Hf.
    assert (id = funding_key c) as Hid by by rewrite <- Hc.
    pose proof (fo_final _ _ _ Hok id Hf) as Hr. rewrite Hid in Hr.
    pose proof (key_row _ Hr) as Hk. rewrite <- Hc in Hk. apply Hk. intros. set_solver.
  - intros id Hf%Hfin. pose proof (fo_final _ _ _ Hok id Hf) as Hr.
    destruct (decide (id = funding_key c)) as [->|]; [|by apply Hother].
    pose proof (key_row _ Hr) as Hk.
    destruct c; try (exfalso; by apply Hk; intros ? Hin; set_solver); cbn in *.
    + destruct (Hleft _ eq_refl) as (r & st & ? & ? & ?). exists r, st. set_solver.
    + by destruct (fo_held _ _ _ Hok n _ Hpre) as (_ & Hnf & _).
    + destruct (Hleft _ eq_refl) as (r & st & ? & ? & ?). exists r, st. set_solver.
  - intros m m' id Hm Hm'.
    apply call_leases in Hm as [[-> [now Hc]]|[Hm Hr]], Hm' as [[-> [now' Hc']]|[Hm' Hr']].
    + done.
    + by destruct (held_row m' id Hm' Hr') as [[] _]; rewrite Hc.
    + by destruct (held_row m id Hm Hr) as [[] _]; rewrite Hc'.
    + by eapply (fo_disjoint _ _ _ Hok).
  - intros m id Hm. apply call_leases in Hm as [[-> [now Hc]]|[Hm Hrel]].
    + split_and!.
      * exists now, [], l. rewrite Hc. split; [done|]. by intros ? ?%not_elem_of_nil.
      * intros Hf%Hfin. pose proof (fo_final _ _ _ Hok id Hf) as Hr.
        assert (id = funding_key c) as -> by by rewrite Hc.
        pose proof (key_row _ Hr) as Hk. rewrite Hc in Hk. apply Hk. intros. set_solver.
      * assert (id = funding_key c) as -> by by rewrite Hc. apply Hleft. by rewrite Hc.
    + destruct (held_row m id Hm Hrel) as [Hne Hno].
      destruct (fo_held _ _ _ Hok m id Hm) as (Hl & Hnf & Hr). split_and!.
      * apply leased_cons; [|done]. intros reason [= ->]. by eapply Hno.
      * by intros ?%Hfin.
      * by apply Hother.
Qed.
End call.

(** *** Events *)
Lemma flow_ok_apply Ls n c k now l t t' :
  flow_ok Ls l t → flow_pre (Ls n) l (IntentCall c) → apply_funding c now t = (k, t') →
  flow_ok (<[n := flow_leases (Ls n) (IntentCall c) (Ok k)]> Ls) (ECall c k :: l) t'.
Proof.
  intros Hok Hpre Ha.
  assert (funding_history t' (calls (ECall c k :: l))) as Hh
    by (eapply funding_call; [apply (fo_history _ _ _ Hok)|done]).
  apply apply_funding_cases in Ha as [[-> ->]|[-> Ha]].
  - eapply flow_ok_shrink; [|by apply flow_ok_quiet]. intros m id.
    destruct (decide (n = m)) as [<-|Hne]; [|by rewrite fn_lookup_insert_ne].
    rewrite fn_lookup_insert. destruct c; cbn; set_solver.
  - destruct Ha as [(i & -> & Hnone & ->)|(r & r' & Hr & Hg & Hl & ->)].
    + apply (flow_ok_effect Ls n _ l t); try done; [by left|by apply row_in_other].
    + apply (flow_ok_effect Ls n _ l t); try done.
      * right. by exists r.
      * intros id ss. by apply row_in_other.
      * destruct Hl as (_ & Hst & _). intros st Hc. exists r', st.
        rewrite lookup_insert_eq, Hst. split_and!; [done| |by left].
        by destruct c; subst.
Qed.

Section pool.
Context `{!IntentOrder}.

Lemma flow_ok_same Ls n l t : flow_ok Ls l t → flow_ok (<[n := Ls n]> Ls) l t.
Proof.
  apply flow_ok_shrink. intros m id. destruct (decide (n = m)) as [<-|];
    [by rewrite fn_lookup_insert|by rewrite fn_lookup_insert_ne].
Qed.

Lemma flow_ok_event Ls n e env a t t' rules rules' l :
  flow_ok Ls l t → flow_pre (Ls n) l e → env_typed env →
  flow_answer env e t rules = (a, t', rules') →
  flow_told l e a ∧ flow_ok (<[n := flow_leases (Ls n) e a]> Ls) (flow_entries e a ++ l) t'.
Proof.
  intros Hok Hpre Henv Ha.
  assert (∀ x, flow_quiet x → calls (x :: l) = calls l → flow_ok (<[n := Ls n]> Ls) (x :: l) t)
    as Hquiet.
  { intros x Hx Hc. apply flow_ok_quiet; [done| |by apply flow_ok_same]. rewrite Hc.
    apply (fo_history _ _ _ Hok). }
  destruct e; cbn [flow_answer flow_told] in *.
  1: { injection Ha as <- <- <-. split; [|by apply flow_ok_same]. intros s.
       unfold or_fault. destruct (fe_fault env); [done|]. intros Hs.
       destruct (get_intent_terms _ _ _ _ (fo_history _ _ _ Hok)
         (λ i Hi, fo_typed _ _ _ Hok i (proj1 (done_calls _ _) Hi)) Hs) as (i & Hi & ?).
       exists i. by rewrite <- done_calls. }
  2: { destruct (fe_fault env) as [m|]; [injection Ha as <- <- <-; split; [done|]|].
       - replace (flow_leases _ _ _) with (flow_leases (Ls n) (IntentCall c) (Ok 0))
           by (destruct c; done). cbn [flow_entries app].
         eapply flow_ok_shrink; [|exact Hok]. intros m' id.
         destruct (decide (n = m')) as [<-|]; [|by rewrite fn_lookup_insert_ne].
         rewrite fn_lookup_insert. destruct c; cbn; set_solver.
       - destruct (apply_funding c (fe_now env) t) as [k t1] eqn:Hc.
         injection Ha as <- <- <-. split; [done|]. by eapply flow_ok_apply. }
  3: { destruct (fe_fault env); [|destruct (mark_completed _ _ _ _ _)];
       injection Ha as <- <- <-; (split; [done|by apply flow_ok_same]). }
  7: { destruct (fe_fault env); [|destruct (insert_rule _ _ _)];
       injection Ha as <- <- <-; (split; [done|by apply flow_ok_same]). }
  all: injection Ha as <- <- <-; (split; [first [done|intros d; apply Henv]|]);
    try by apply flow_ok_same.
  4: by apply flow_ok_send.
  all: by apply Hquiet.
Qed.

Definition flow_pool_ok (pl : FlowPool) : Prop :=
  ∃ Ls, flow_ok Ls (fw_log (fp_state pl)) (fw_intents (fp_state pl)) ∧
    ∀ n p, fp_threads pl !! n = Some p → tame (Ls n) (fw_log (fp_state pl)) p.

Lemma flow_reachable_ok pl : flow_reachable funding_program pl → flow_pool_ok pl.
Proof.
  unfold flow_pool_ok. induction 1 as [rules|pl pl' _ IH Hstep].
  { exists (λ _, ∅). split; [|by intros ? ?]. constructor; cbn; try set_solver.
    - constructor.
    - intros i l0 [k Hk]. by destruct k.
    - intros id sig slot l0 [k Hk]. by destruct k.
    - intros id req o l0 [k Hk]. by destruct k.
    - intros id now l0 [k Hk]. by destruct k.
    - by intros id (? & ? & ?%not_elem_of_nil & _). }
  destruct IH as (Ls & Hok & Hp).
  destruct Hstep as [ts s n p Hn Hall|ts s n e k env a s' Hn Henv Hev|ts s n|ts t rules rules' l];
    cbn [fp_threads fp_state] in *.
  - exists Ls. split; [done|]. intros m q [[<- <-]|[Hne Hq]]%lookup_insert_Some;
      [by apply funding_program_tame|by apply Hp].
  - destruct (Hp n _ Hn (fw_log s) ltac:(reflexivity)) as [Hpre Hk].
    unfold flow_event in Hev. destruct (flow_answer _ _ _ _) as [[a' t'] rules'] eqn:Ha.
    injection Hev as <- <-. cbn [fw_log fw_intents] in *.
    destruct (flow_ok_event Ls n e env a' _ _ _ _ _ Hok Hpre Henv Ha) as [Htold Hok'].
    exists (<[n := flow_leases (Ls n) e a']> Ls). split; [done|].
    intros m q [[<- <-]|[Hne Hq]]%lookup_insert_Some.
    + rewrite fn_lookup_insert. by apply Hk.
    + rewrite fn_lookup_insert_ne by done. eapply safe_mono; [|by apply Hp].
      by apply suffix_app_r.
  - exists Ls. split; [done|]. intros m q [_ Hq]%lookup_delete_Some. by apply Hp.
  - exists Ls. done.
Qed.
End pool.

(** ** Properties *)
Section properties.
Context `{!IntentOrder}.
Implicit Types (pl : FlowPool).

Lemma inserted_unique t h i1 i2 :
  funding_history t h → done (FInsert i1) h → done (FInsert i2) h →
  ni_intent_id i1 = ni_intent_id i2 → i1 = i2.
Proof.
  induction 1 as [|t h c now n t' Hh IH Ha]; [by intros ?%not_elem_of_nil|].
  assert (∀ i, c = FInsert i → n = 1 → ∀ j, done (FInsert j) h →
    ni_intent_id j ≠ ni_intent_id i) as Hnew.
  { intros i -> -> j Hj Heq. apply apply_funding_cases in Ha as [[? _]|[_ Ha]]; [done|].
    apply (proj2 (funding_history_sound _ _ Hh)) in Hj as [r Hr]. cbn in Hr.
    destruct Ha as [(i' & [= <-] & Hnone & _)|(r1 & r2 & _ & Hg & _)]; [|done].
    by rewrite Heq, Hnone in Hr. }
  intros [[E1 En1]|Hd1]%done_cons [[E2 En2]|Hd2]%done_cons Heq.
  - by rewrite <- E1 in E2; injection E2.
  - by destruct (Hnew i1 (eq_sym E1) En1 i2 Hd2).
  - by destruct (Hnew i2 (eq_sym E2) En2 i1 Hd1).
  - by apply IH.
Qed.

(** C19: an order exists only because a user asked for it, on the user's terms.  Whatever
    runs besides, when an order is created then on record before it are: either a chat
    message of a session that reads as an order command, whose amount and threshold the
    order has; or a session's confirmation of a draft by its id and hash, followed by the
    consumption of that draft of this same session, whose amount and threshold the order
    has.  After it the wallet bound to that session was looked up, and the order names
    this wallet and its USDC account, pays into the pinned account and expires after
    three minutes. *)
Theorem orders_come_from_users pl i l0 :
  flow_reachable funding_program pl →
  ECall (FInsert i) 1 :: l0 `suffix_of` fw_log (fp_state pl) → ordered i l0.
Proof. intros (Ls & Hok & _)%flow_reachable_ok Hs. by eapply (fo_ordered _ _ _ Hok). Qed.

(** C6: a budget is reserved only for a deposit that was verified.  Whatever runs
    besides, when [budget_reserved] takes effect for an order under a signature,
    the order had been created and the fetcher had returned, for this signature,
    a transaction without error whose memo names the order's rule and hash and
    which raised the order's own controlled USDC account by exactly its amount. *)
Theorem budget_reserved_only_if_deposited pl id sig slot l0 :
  flow_reachable funding_program pl →
  ECall (FReserved id sig slot) 1 :: l0 `suffix_of` fw_log (fp_state pl) →
  deposited id sig slot l0.
Proof.
  intros (Ls & Hok & _)%flow_reachable_ok Hs. by eapply (fo_reserved _ _ _ Hok).
Qed.

(** C7: an order's deposit reaches the chain at most once.  After the sender
    answered that the transaction was finalised, timed out after its broadcast or
    failed on chain, nothing is sent for this order again, by the loop or by an
    operator, and its budget is never leased for a refund. *)
Theorem deposit_sent_at_most_once pl id req o h1 h2 :
  flow_reachable funding_program pl →
  fw_log (fp_state pl) = (h2 ++ ESent id req o :: h1)%list → is_final o = true →
  (∀ req' o', ESent id req' o' ∉ h2) ∧ ∀ now, ECall (FLeaseRefund id now) 1 ∉ h2.
Proof.
  intros (Ls & Hok & _)%flow_reachable_ok Hl Ho.
  assert (∀ x, x ∈ h2 → ∃ l0, x :: l0 `suffix_of` fw_log (fp_state pl) ∧ final_sent id l0) as Hx.
  { intros x (h & h' & ->)%list_elem_of_split. exists (h' ++ ESent id req o :: h1)%list. split.
    - exists h. by rewrite Hl, <- app_assoc.
    - exists req, o. split; [|done]. apply elem_of_app. right. left. }
  split.
  - intros req' o' (l0 & Hs & Hf)%Hx. by destruct (fo_sent _ _ _ Hok _ _ _ _ Hs).
  - intros now (l0 & Hs & Hf)%Hx. by destruct (fo_refunding _ _ _ Hok _ _ _ Hs).
Qed.

(** C8: a deposit is handed to the sender only for a funded order, under a lease.
    Whenever the sender is called for an order, the order had been leased before
    its expiry and not released since, and before the lease it was created, its
    deposit verified, and nothing had settled it. *)
Theorem deposit_sent_only_if_funded pl id req o l0 :
  flow_reachable funding_program pl →
  ESent id req o :: l0 `suffix_of` fw_log (fp_state pl) →
  ∃ now l2 l1 i sig slot tx,
    l0 = (l2 ++ ECall (FLeaseExecution id now) 1 :: l1)%list ∧
    (∀ reason, ECall (FRelease id reason) 1 ∉ l2) ∧
    ECall (FInsert i) 1 ∈ l1 ∧ ni_intent_id i = id ∧ now < ni_expires_at_ms i ∧
    EFetched sig (Ok (Available tx)) ∈ l1 ∧ funds i tx slot ∧
    List.filter (settles id) (calls l1) = [].
Proof.
  intros (Ls & Hok & _)%flow_reachable_ok Hs.
  destruct (fo_sent _ _ _ Hok _ _ _ _ Hs) as [(now & l2 & l1 & -> & Hno) _].
  assert (ECall (FLeaseExecution id now) 1 :: l1 `suffix_of` fw_log (fp_state pl)) as Hl.
  { etransitivity; [|exact Hs]. exists (ESent id req o :: l2). done. }
  destruct Hl as [l3 Hl]. pose proof (fo_history _ _ _ Hok) as Hh.
  rewrite Hl, calls_app in Hh. cbn [calls omap list_omap] in Hh. fold (calls l1) in Hh.
  destruct (funding_history_app _ _ _ Hh) as [t1 Hh1].
  destruct (funding_last _ _ _ Hh1) as (t2 & r & st & Hh2 & _ & Hg & Hst).
  cbn [guard funding_key] in *.
  rewrite (has_status_spec _ _ _ (so_status _ _ _ _ Hst)) in Hg.
  apply andb_true_iff in Hg as [Hb Htime]. b2p.
  assert (st = BudgetReserved) as -> by by destruct st.
  destruct (story_funded _ _ _ _ Hst) as (i & (Hi & Hid & Hf & Hset) & He); [by left|].
  destruct Hf as (sig & slot & _ & Hres%done_calls).
  apply list_elem_of_split in Hres as (l4 & l5 & Hl1).
  destruct (fo_reserved _ _ _ Hok id sig slot l5) as (i' & tx & Hi' & Hid' & Hfetch & Hfunds).
  { rewrite Hl, Hl1. exists (l3 ++ ECall (FLeaseExecution id now) 1 :: l4)%list.
    by rewrite <- app_assoc. }
  assert (l5 `suffix_of` l1) as Hsuf.
  { rewrite Hl1. exists (l4 ++ [ECall (FReserved id sig slot) 1])%list. by rewrite <- app_assoc. }
  assert (i' = i) as ->.
  { eapply inserted_unique; [exact Hh2| |done|congruence].
    apply done_calls. by eapply elem_of_suffix. }
  exists now, l2, l1, i, sig, slot, tx. split_and!; try done; [by apply done_calls|lia|].
  by eapply elem_of_suffix.
Qed.
End properties.
End safety.
