(* ===== verification/FundingFacts.v ===== *)
(** * What funding verification accepts *)
From S2P Require Import Prelude Interaction WatchRules WatcherBase RuleStore RustText.
From S2P Require Import FundingStore FundingSafety FundingEvents FundingFlow.
#[local] Open Scope string_scope.
#[local] Open Scope Z_scope.

(** ** Deposits *)

(** The account's balance in a list: its first row, of USDC and of this owner. *)
Definition balance_is (ata wallet : string) (rows : list FetchedTokenBalance) (z : Z) : Prop :=
  match find_balance_by_pubkey ata rows with
  | Some b => tb_mint b = USDC_MINT_BS58 ∧ tb_owner b = wallet ∧
      parse_raw_amount (tb_amount_raw_str b) = Ok z
  | None => z = 0
  end.

Definition has_memo (tx : FetchedTx) (payload : string) : Prop :=
  ∃ m, m ∈ ft_instructions tx ∧ fx_program_id m = MEMO_PROGRAM_BS58 ∧
    from_utf8 (fx_data m) = Some payload.

Lemma balance_amount_Ok w wallet b z :
  balance_amount w wallet b = Ok z ↔
  tb_mint b = USDC_MINT_BS58 ∧ tb_owner b = wallet ∧ parse_raw_amount (tb_amount_raw_str b) = Ok z.
Proof.
  unfold balance_amount, assert_balance_identity. split.
  - intros Hb. inv_ok Hb. b2p. naive_solver.
  - intros (Hm & Ho & Hp). rewrite throw_if_false by (rewrite bool_decide_eq_false; naive_solver).
    rewrite (proj2 (throw_if_Ok _ _ tt)) by (rewrite bool_decide_eq_false; naive_solver).
    cbn. by rewrite Hp.
Qed.

Lemma verify_funding_memo_Ok tx rid hash :
  verify_funding_memo tx rid hash = Ok tt ↔ has_memo tx (memo_payload rid hash).
Proof.
  unfold verify_funding_memo, has_memo. set (p := memo_payload rid hash).
  assert (p ≠ "") as Hp by by unfold p, memo_payload.
  assert (∀ m, bool_decide (default "" (from_utf8 (fx_data m)) = p) = true ↔
    from_utf8 (fx_data m) = Some p) as Hm.
  { intros m. rewrite bool_decide_eq_true. destruct (from_utf8 (fx_data m)) as [s|]; cbn;
      naive_solver. }
  set (memos := List.filter _ _).
  assert (∀ m, m ∈ memos ↔ m ∈ ft_instructions tx ∧ fx_program_id m = MEMO_PROGRAM_BS58) as Hin.
  { intros m. unfold memos. rewrite !list_elem_of_In, List.filter_In, bool_decide_eq_true. done. }
  assert (existsb (λ m, bool_decide (default "" (from_utf8 (fx_data m)) = p)) memos = true ↔
    ∃ m, m ∈ ft_instructions tx ∧ fx_program_id m = MEMO_PROGRAM_BS58 ∧
      from_utf8 (fx_data m) = Some p) as Hex.
  { rewrite existsb_exists. setoid_rewrite <- list_elem_of_In. setoid_rewrite Hm.
    setoid_rewrite Hin. naive_solver. }
  rewrite <- Hex. destruct memos as [|m memos']; [done|]. by destruct (existsb _ _).
Qed.

Lemma verify_funding_delta_Ok tx ata wallet amount slot :
  0 ≤ amount →
  verify_funding_delta tx ata wallet amount = Ok slot ↔
  ft_err tx = None ∧ slot = ft_slot tx ∧
  is_Some (find_balance_by_pubkey ata (ft_post_token_balances tx)) ∧
  ∃ pre, balance_is ata wallet (ft_pre_token_balances tx) pre ∧
    balance_is ata wallet (ft_post_token_balances tx) (pre + amount).
Proof.
  intros Hamount. unfold verify_funding_delta, balance_is.
  destruct (ft_err tx); [by split; [|intros [? _]]|]. cbn [mbind result_bind].
  set (pre := match find_balance_by_pubkey ata (ft_pre_token_balances tx) with
              | Some b => _ | None => _ end).
  assert (∀ z, pre = Ok z ↔ match find_balance_by_pubkey ata (ft_pre_token_balances tx) with
    | Some b => tb_mint b = USDC_MINT_BS58 ∧ tb_owner b = wallet ∧
        parse_raw_amount (tb_amount_raw_str b) = Ok z
    | None => z = 0 end) as Hpre.
  { intros z. unfold pre. destruct (find_balance_by_pubkey _ _); [apply balance_amount_Ok|].
    split; [by intros [= ->]|by intros ->]. }
  setoid_rewrite <- Hpre. clearbody pre.
  destruct (find_balance_by_pubkey ata (ft_post_token_balances tx)) as [b|]; split.
  - intros Hok. inv_ok Hok. b2p.
    match goal with H : balance_amount _ _ _ = Ok _ |- _ => apply balance_amount_Ok in H end.
    split_and!; [done..|by eexists|]. eexists. split; [done|].
    match goal with H : _ ∧ _ |- _ => destruct H as (? & ? & Hp) end.
    split_and!; [done..|]. rewrite Hp. f_equal. lia.
  - intros (_ & -> & _ & z & -> & Hb%(balance_amount_Ok "post")). cbn [mbind result_bind].
    rewrite Hb. cbn [mbind result_bind]. rewrite throw_if_false by (apply Z.ltb_ge; lia).
    rewrite throw_if_false; [done|]. apply negb_false_iff, Z.eqb_eq. lia.
  - intros Hok. inv_ok Hok.
  - by intros (_ & _ & [? ?] & _).
Qed.

(** What counts as the deposit of an order, exactly: a transaction without
    error, with a memo instruction whose text is the prefix, the order's rule and
    its hash, whose balance rows for the order's USDC account, matched by key and
    checked for mint and owner, go up by exactly the amount, a missing first row
    counting as zero. *)
Theorem funding_verified_iff i tx slot :
  is_u 64 (ni_amount_raw i) →
  funds i tx slot ↔
  ft_err tx = None ∧ slot = ft_slot tx ∧
  has_memo tx ("claw:w5h:" +:+ ni_rule_id_hex i +:+ ":" +:+ ni_canonical_rule_hash_hex i) ∧
  is_Some (find_balance_by_pubkey (ni_controlled_usdc_ata i) (ft_post_token_balances tx)) ∧
  ∃ pre,
    balance_is (ni_controlled_usdc_ata i) (ni_controlled_wallet i) (ft_pre_token_balances tx) pre ∧
    balance_is (ni_controlled_usdc_ata i) (ni_controlled_wallet i) (ft_post_token_balances tx)
      (pre + ni_amount_raw i).
Proof.
  intros [Ha _]. unfold funds. rewrite verify_funding_memo_Ok, verify_funding_delta_Ok by done.
  unfold memo_payload, MEMO_PAYLOAD_PREFIX. naive_solver.
Qed.

(** ** Fetched transactions *)
Section parser.
Context `{Json}.

Lemma parse_entries_Ok {A} (parse : json → Result string A) l out (P : A → Prop) :
  (∀ v a, parse v = Ok a → P a) → parse_entries parse l = Ok out → Forall P out.
Proof.
  intros HP. revert out. induction l as [|v l IH]; intros out Hp; cbn [parse_entries] in Hp.
  - injection Hp as <-. constructor.
  - inv_ok Hp. constructor; [by eapply HP|by apply IH].
Qed.

Lemma parse_array_Ok {A} (parse : json → Result string A) o out (P : A → Prop) :
  (∀ v a, parse v = Ok a → P a) → parse_array parse o = Ok out → Forall P out.
Proof.
  intros HP. unfold parse_array. destruct (o ≫= json_as_array).
  - by apply parse_entries_Ok.
  - intros [= <-]. constructor.
Qed.

(** Nothing unresolved is ever verified.  In a transaction the fetcher offers
    for verification every balance row and every instruction names a key of the
    merged list (the message's keys, then the loaded writable, then the loaded
    read-only ones); the slot is there; and any row or instruction that could not
    be resolved or decoded makes the answer unsupported, never invalid. *)
Theorem fetched_keys_resolved result :
  match parse_get_transaction_result result with
  | Ok (Available tx) => ∃ meta, json_get "meta" result = Some meta ∧
      (json_get "slot" result ≫= json_as_u64) = Some (ft_slot tx) ∧
      (∀ b, b ∈ (ft_pre_token_balances tx ++ ft_post_token_balances tx)%list →
        tb_pubkey b ∈ account_keys result meta) ∧
      (∀ ix, ix ∈ ft_instructions tx → fx_program_id ix ∈ account_keys result meta)
  | Ok NotYetAvailable => False
  | Ok (VerifierUnsupported _) => is_Some (json_get "meta" result)
  | Err m => m = "missing/non-u64 slot" ∨ m = "missing meta"
  end.
Proof.
  unfold parse_get_transaction_result.
  destruct (json_get "slot" result ≫= json_as_u64) as [slot|] eqn:Hslot; cbn [ok_or mbind result_bind];
    [|by left].
  destruct (json_get "meta" result) as [meta|] eqn:Hmeta; cbn [ok_or mbind result_bind]; [|by right].
  unfold or_unsupported. set (keys := account_keys result meta).
  assert (∀ o out, parse_token_balance_array o keys = Ok out → Forall (λ b, tb_pubkey b ∈ keys) out)
    as Hrows.
  { intros o out. apply parse_array_Ok. intros v a Ha. unfold parse_token_balance in Ha. inv_ok Ha.
    cbn. by eapply list_elem_of_lookup_2. }
  destruct (parse_token_balance_array _ keys) as [pre|] eqn:Hpre; [|by eexists].
  destruct (parse_token_balance_array (json_get "postTokenBalances" meta) keys) as [post|] eqn:Hpost;
    [|by eexists].
  destruct (parse_instructions_array result keys) as [ixs|] eqn:Hix; [|by eexists].
  exists meta. cbn [ft_slot ft_pre_token_balances ft_post_token_balances ft_instructions].
  apply Hrows in Hpre, Hpost. rewrite Forall_forall in Hpre, Hpost.
  split; [done|]. split; [done|]. split.
  - intros b [Hb|Hb]%elem_of_app; auto.
  - apply Forall_forall. eapply parse_array_Ok; [|exact Hix]. intros v a Ha.
    unfold parse_instruction in Ha. inv_ok Ha. cbn. by eapply list_elem_of_lookup_2.
Qed.
End parser.
