(* ===== verification/FlowRuns.v ===== *)
(** * Funding handlers run alone, and concrete runs

    What one confirmation and one chat execution do when nothing interferes, the
    bookkeeping of the automatic tick, and the flow on concrete orders; then each
    handler branch by branch. *)
From stdpp Require Import sorting.
From S2P Require Import Prelude Interaction Borsh WatchRules WatcherBase RuleStore RustText.
From S2P Require Import EvaluatorFacts FundingStore FundingSafety DemoCommand MarketReading.
From S2P Require Import OrderDraft FundingEvents OrderCommand ChatExecute OrderBridge.
From S2P Require Import AutoExecute FundingFlow FlowSafety FundingFacts.
#[local] Open Scope string_scope.
#[local] Open Scope Z_scope.

(** ** Running alone is a run of the pool *)
Section alone.
Context `{!Crates, !IntentOrder}.

Lemma run_flow_bind {A B} env (p : FProg A) (f : A → FProg B) s :
  run_flow env (p ≫= f) s = let '(a, s') := run_flow env p s in run_flow env (f a) s'.
Proof.
  revert s. induction p as [a|e k IH]; intros s; [done|]. simpl.
  destruct (flow_event env e s). apply IH.
Qed.

Lemma run_flow_thread allowed ts s n env p :
  flow_reachable allowed (MkFlowPool ts s) → ts !! n = Some p → env_typed env →
  ∃ ts', flow_reachable allowed (MkFlowPool ts' (run_flow env p s).2).
Proof.
  revert ts s. induction p as [u|e k IH]; intros ts s Hr Hn Henv; [by exists ts|]. cbn [run_flow].
  destruct (flow_event env e s) as [a s'] eqn:He.
  apply (IH a (<[n := k a]> ts)); [|apply lookup_insert_eq|done].
  eapply flow_more; [done|]. by eapply flow_thread.
Qed.

Lemma run_flow_reachable allowed ts s env p :
  flow_reachable allowed (MkFlowPool ts s) → allowed p → env_typed env →
  ∃ ts', flow_reachable allowed (MkFlowPool ts' (run_flow env p s).2).
Proof.
  intros Hr Hp Henv. set (n := fresh (dom ts)).
  assert (ts !! n = None) as Hn by (apply not_elem_of_dom, is_fresh).
  apply (run_flow_thread allowed (<[n := p]> ts) s n); [|apply lookup_insert_eq|done].
  eapply flow_more; [done|]. by constructor.
Qed.
End alone.

(** ** Concrete runs *)

(** *** Addresses in base 58 *)
Definition base58_digits : list Ascii.ascii :=
  String.list_ascii_of_string "123456789ABCDEFGHJKLMNPQRSTUVWXYZabcdefghijkmnopqrstuvwxyz".
Definition base58_digit (c : Ascii.ascii) : Z :=
  match list_find (λ d, d = c) base58_digits with Some (i, _) => Z.of_nat i | None => 0 end.
Definition base58_decode (s : string) : PubkeyBytes :=
  rev (to_le 32 (foldl (λ n c, n * 58 + base58_digit c) 0 (String.list_ascii_of_string s))).
Fixpoint base58_text (fuel : nat) (n : Z) (out : string) : string :=
  match fuel with
  | O => out
  | S fuel => if n =? 0 then out else
      base58_text fuel (n / 58) (String (default Ascii.zero (base58_digits !! Z.to_nat (n mod 58))) out)
  end.
Definition base58_encode (k : PubkeyBytes) : string := base58_text 64 (from_le (rev k)) "".

Definition demo_keys : Pubkeys := base58_decode.
Definition demo_addresses : Addresses := {|
  pubkey_try_from_str s := Ok (base58_decode s);
  get_associated_token_address owner mint :=
    if bool_decide (owner = base58_decode PINNED_CONTROLLED_WALLET)
    then base58_decode PINNED_CONTROLLED_USDC_ATA else owner
|}.
Definition flow_crates : Crates := {|
  sha256 bs := take 32 (bs ++ replicate 32 Byte.x00);
  base58 := base58_encode;
  serde_to_string := @serde_to_string demo_crates;
  serde_from_str := @serde_from_str demo_crates |}.
Definition demo_debug : DebugText := λ s, String.string_of_list_byte s.
Definition by_intent_created (a b : IntentRow) : Prop := ir_created_at_ms a ≤ ir_created_at_ms b.
#[export] Instance by_intent_created_dec : RelDecision by_intent_created.
Proof. intros a b. apply Z_le_dec. Defined.
Definition demo_intent_order : IntentOrder := merge_sort by_intent_created.
#[local] Existing Instances flow_crates demo_keys demo_addresses demo_debug demo_intent_order.

(** *** Orders *)
Definition demo_user_wallet : string := SOLEND_PROGRAM_BS58.
Definition demo_save : SaveDisplayApyReading :=
  MkSaveReading 250 "2.50" W5F_MAIN_POOL_RESERVE_BS58 W5F_MAIN_POOL_LENDING_MARKET_BS58
    W5F_MAIN_POOL_LIQUIDITY_MINT_BS58 W5F_MAIN_POOL_COLLATERAL_MINT_BS58 false.
Definition demo_evaluation (text : string) (parsed : DemoParsed) : W5dEvaluationResult :=
  compose_w5e_result text parsed 240 900000 1000 PINNED_CONTROLLED_WALLET
    PINNED_CONTROLLED_USDC_ATA.
Definition demo_native (text : string) (parsed : DemoParsed) : ERes W5dEvaluationResult :=
  Ok (demo_evaluation text parsed).

(** A quarter of a dollar when the rate exceeds a percent. *)
Definition demo_text (pct : string) : string :=
  "If Solend Main Pool USDC deposit APY is above " +:+ pct +:+
  "%, deposit 0.25 USDC from my wallet, expires in 3 minutes.".
Definition demo_order (bps : Z) (pct : string) : NewW5hFundingIntent :=
  let parsed := MkW5hParsed bps pct 250000 180 in
  order_intent parsed (base58_decode demo_user_wallet) (order_rule parsed 1000) demo_save
    (demo_evaluation (demo_text pct) (demo_of parsed)) 5000.
Definition demo_order1 : NewW5hFundingIntent := demo_order 100 "1".
Definition demo_order2 : NewW5hFundingIntent := demo_order 200 "2".

(** The same as a draft. *)
Definition demo_draft (draft_id : string) : DraftIntent := {|
  di_action := ACTION; di_protocol := PROTOCOL; di_asset := ASSET;
  di_display_source := DISPLAY_SOURCE; di_comparison := COMPARISON;
  di_threshold_bps := 475; di_amount_raw := 250000;
  di_expiry_seconds_after_finalize := PHASE5C_EXPIRY_SECONDS_AFTER_FINALIZE;
  di_controlled_wallet := PINNED_CONTROLLED_WALLET;
  di_controlled_usdc_ata := PINNED_CONTROLLED_USDC_ATA;
  di_original_user_message_hash := "00ff"; di_draft_id := draft_id;
  di_parser_source := PARSER_SOURCE; di_warnings := []; di_review_copy := "review";
  di_created_at_ms := 1000; di_session_id_hex := "session"
|}.

Definition demo_memo (i : NewW5hFundingIntent) : FetchedInstruction :=
  MkFetchedInstruction MEMO_PROGRAM_BS58
    (str_bytes (memo_payload (ni_rule_id_hex i) (ni_canonical_rule_hash_hex i))).
Definition demo_balance (amount : string) : FetchedTokenBalance :=
  MkBalance 3 PINNED_CONTROLLED_USDC_ATA USDC_MINT_BS58 PINNED_CONTROLLED_WALLET amount.
Definition demo_tx (memos : list FetchedInstruction) : FetchedTx :=
  MkFetchedTx 77 None [demo_balance "100"] [demo_balance "250100"] memos.

Definition demo_flow_env (tx : FetchedTx) (o : ChatExecuteSendOutcome) : FlowEnv :=
  MkFlowEnv 5000 None (λ _, Ok (Available tx)) (Ok demo_save) demo_native (λ _, o)
    (λ _ id _, Consumed (demo_draft id)) (λ _ id, Some (demo_draft id))
    (λ _, Some demo_user_wallet).
Lemma demo_env_typed tx o : env_typed (demo_flow_env tx o).
Proof. intros session id hash d [= <-]. by vm_compute. Qed.
Definition demo_finalized : ChatExecuteSendOutcome :=
  SendFinalized "tx" 99 700 4 false 900000 650000 0 249000.

Definition demo_request (i : NewW5hFundingIntent) (sig : string) : W5hFundingConfirmRequest :=
  MkConfirmRequest (ni_intent_id i) sig (ni_user_wallet i) (ni_user_usdc_ata i)
    (ni_controlled_wallet i) (ni_controlled_usdc_ata i) (ni_amount_raw i).
Definition demo_config : Stage2ChatExecuteConfig :=
  MkChatConfig true (Some W5G_REQUIRED_APPROVAL_PHRASE) (Some W5G_CLUSTER_MAINNET) true true.

Definition demo_create (pct : string) : FProg unit :=
  ignore (chat_request (MkChatWiring true true true true true) "session" (demo_text pct)).
Definition demo_finalize : FProg unit :=
  ignore (finalize_request "session" (MkFinalizeRequest "draft" "hash" true)).
Definition demo_confirm (i : NewW5hFundingIntent) : FProg unit :=
  ignore (FundingEvents.execute (MkWiring true true) (demo_request i "deposit")).
Definition demo_auto_tick : FProg unit :=
  ignore (auto_tick (ChatExecute.execute demo_config true)).

(** The programs one after the other, each with its environment. *)
Fixpoint play_flow (ps : list (FlowEnv * FProg unit)) (s : FlowState) : FlowState :=
  match ps with
  | [] => s
  | (env, p) :: ps => play_flow ps (run_flow env p s).2
  end.

Lemma play_flow_reachable ps ts s :
  flow_reachable funding_program (MkFlowPool ts s) →
  Forall (λ x, env_typed x.1 ∧ funding_program x.2) ps →
  ∃ ts', flow_reachable funding_program (MkFlowPool ts' (play_flow ps s)).
Proof.
  intros Hr Hps. revert ts s Hr. induction Hps as [|[env p] ps [Henv Hp] _ IH]; intros ts s Hr.
  { by exists ts. }
  destruct (run_flow_reachable _ _ _ env p Hr Hp Henv) as [ts' Hr']. by eapply IH.
Qed.

Definition demo_start : FlowState := MkFlow ∅ ∅ [].

(** Created, confirmed, executed; a second confirmation and a second tick find
    nothing to do. *)
Definition demo_env1 : FlowEnv := demo_flow_env (demo_tx [demo_memo demo_order1]) demo_finalized.
Definition demo_life : list (FlowEnv * FProg unit) :=
  [(demo_env1, demo_create "1"); (demo_env1, demo_confirm demo_order1);
   (demo_env1, demo_auto_tick); (demo_env1, demo_confirm demo_order1);
   (demo_env1, demo_auto_tick)].

Lemma demo_create_runs pct : funding_program (demo_create pct).
Proof. constructor. Qed.
Lemma demo_finalize_runs : funding_program demo_finalize.
Proof. constructor. Qed.
Lemma demo_confirm_runs i : funding_program (demo_confirm i).
Proof. constructor. Qed.
Lemma demo_tick_runs : funding_program demo_auto_tick.
Proof. constructor. Qed.

(** Each step of a run is one of these. *)
Ltac demo_steps := repeat (apply Forall_cons; cbn [fst snd]; split; [split;
  [apply demo_env_typed|
   lazymatch goal with
   | |- funding_program (demo_create _) => apply demo_create_runs
   | |- funding_program demo_finalize => apply demo_finalize_runs
   | |- funding_program (demo_confirm _) => apply demo_confirm_runs
   | |- funding_program demo_auto_tick => apply demo_tick_runs
   end]|]); apply Forall_nil_2.

Definition demo_final : FlowState := play_flow demo_life demo_start.

Lemma demo_final_reachable :
  ∃ ts, flow_reachable funding_program (MkFlowPool ts demo_final).
Proof.
  apply (play_flow_reachable demo_life ∅ demo_start); [constructor|].
  demo_steps.
Qed.
Lemma budget_reserved_only_if_deposited_witness : ∃ id slot l0,
  ECall (FReserved id "deposit" slot) 1 :: l0 `suffix_of` fw_log demo_final ∧
  deposited id "deposit" slot l0.
Proof.
  destruct demo_final_reachable as [ts Hr].
  assert (ECall (FReserved (ni_intent_id demo_order1) "deposit" 77) 1 :: drop 4 (fw_log demo_final)
    `suffix_of` fw_log demo_final) as Hs.
  { exists (take 3 (fw_log demo_final)). by vm_compute. }
  eexists _, _, _. split; [exact Hs|].
  by apply (budget_reserved_only_if_deposited (MkFlowPool ts demo_final)).
Defined.

(** The send of the first tick. *)
Definition demo_send : ChatExecuteSendRequest :=
  MkSendRequest (base58_decode PINNED_CONTROLLED_WALLET) 250000
    (base58_decode W5G_TARGET_OBLIGATION_BS58) (base58_decode DEMO_RESERVE_BS58).

Lemma demo_final_log :
  fw_log demo_final = (take 1 (fw_log demo_final) ++
    ESent (ni_intent_id demo_order1) demo_send demo_finalized :: drop 2 (fw_log demo_final))%list.
Proof. by vm_compute. Qed.

Lemma deposit_sent_at_most_once_witness :
  ESent (ni_intent_id demo_order1) demo_send demo_finalized ∉ take 1 (fw_log demo_final).
Proof.
  destruct demo_final_reachable as [ts Hr].
  by apply (deposit_sent_at_most_once (MkFlowPool ts demo_final) _ _ _ _ _ Hr demo_final_log).
Defined.

Lemma deposit_sent_only_if_funded_witness : ∃ i sig slot tx,
  ECall (FInsert i) 1 ∈ fw_log demo_final ∧
  EFetched sig (Ok (Available tx)) ∈ fw_log demo_final ∧ funds i tx slot.
Proof.
  destruct demo_final_reachable as [ts Hr].
  destruct (deposit_sent_only_if_funded (MkFlowPool ts demo_final)
    (ni_intent_id demo_order1) demo_send demo_finalized (drop 2 (fw_log demo_final)) Hr)
    as (now & l2 & l1 & i & sig & slot & tx & Hl & _ & Hi & _ & _ & Hf & Hfunds & _).
  { exists (take 1 (fw_log demo_final)). by vm_compute. }
  assert (∀ x, x ∈ l1 → x ∈ fw_log demo_final) as Hin.
  { intros x Hx. rewrite demo_final_log, Hl. apply elem_of_app. right. right.
    apply elem_of_app. right. by right. }
  exists i, sig, slot, tx. split_and!; [by apply Hin..|done].
Defined.

(** *** A command and a confirmed draft *)
Definition demo_asked : list (FlowEnv * FProg unit) :=
  [(demo_env1, demo_create "1"); (demo_env1, demo_finalize)].
Definition demo_order3 : NewW5hFundingIntent := demo_order 475 "4.75".
Definition by_message : FlowLog :=
  [EWallet "session" (Some demo_user_wallet); EMessage "session" (demo_text "1")].
Definition by_decision : FlowLog :=
  [EWallet "session" (Some demo_user_wallet);
   EConsumed "session" "draft" "hash" (Consumed (demo_draft "draft"));
   EDecision "session" "draft" "hash" true].

Lemma orders_come_from_users_witness :
  ni_threshold_bps demo_order1 = 100 ∧ ordered demo_order1 by_message ∧
  ni_threshold_bps demo_order3 = 475 ∧
  ordered demo_order3 (by_decision ++ ECall (FInsert demo_order1) 1 :: by_message).
Proof.
  destruct (play_flow_reachable demo_asked ∅ demo_start) as [ts Hr]; [constructor|demo_steps|].
  assert (fw_log (play_flow demo_asked demo_start) = (ECall (FInsert demo_order3) 1 ::
    by_decision ++ ECall (FInsert demo_order1) 1 :: by_message)%list) as Hl by by vm_compute.
  split; [by vm_compute|]. split; [|split; [by vm_compute|]];
    apply (orders_come_from_users _ _ _ Hr); cbn [fp_state]; rewrite Hl; [|done].
  by exists (ECall (FInsert demo_order3) 1 :: by_decision).
Defined.

(** *** One deposit, two orders *)
Definition demo_both : FetchedTx := demo_tx [demo_memo demo_order1; demo_memo demo_order2].
Definition demo_double : list (FlowEnv * FProg unit) :=
  map (λ p, (demo_flow_env demo_both demo_finalized, p))
    [demo_create "1"; demo_create "2"; demo_confirm demo_order1;
     demo_confirm demo_order2].

(** One deposit can reserve two budgets.  A single transaction that raises the
    controlled account by 250000 and carries the memos of two orders of 250000
    each is accepted for both: signatures are bound per order and nothing ties a
    transaction to one order. *)
Theorem one_deposit_funds_two_orders : ∃ pl i1 i2 tx slot1 slot2,
  flow_reachable funding_program pl ∧ ni_intent_id i1 ≠ ni_intent_id i2 ∧
  ECall (FReserved (ni_intent_id i1) "deposit" slot1) 1 ∈ fw_log (fp_state pl) ∧
  ECall (FReserved (ni_intent_id i2) "deposit" slot2) 1 ∈ fw_log (fp_state pl) ∧
  (∀ sig r, EFetched sig r ∈ fw_log (fp_state pl) → r = Ok (Available tx)) ∧
  funds i1 tx slot1 ∧ funds i2 tx slot2 ∧
  tb_amount_raw_str <$> ft_pre_token_balances tx = ["100"] ∧
  tb_amount_raw_str <$> ft_post_token_balances tx = ["250100"] ∧
  ni_amount_raw i1 + ni_amount_raw i2 = 500000.
Proof.
  destruct (play_flow_reachable demo_double ∅ demo_start) as [ts Hr]; [constructor| |].
  { demo_steps. }
  set (s := play_flow demo_double demo_start) in Hr.
  assert (fw_log s =
    [ECall (FReserved (ni_intent_id demo_order2) "deposit" 77) 1;
     EFetched "deposit" (Ok (Available demo_both));
     ECall (FSubmitted (ni_intent_id demo_order2) "deposit") 1;
     ECall (FReserved (ni_intent_id demo_order1) "deposit" 77) 1;
     EFetched "deposit" (Ok (Available demo_both));
     ECall (FSubmitted (ni_intent_id demo_order1) "deposit") 1;
     ECall (FInsert demo_order2) 1; EWallet "session" (Some demo_user_wallet);
     EMessage "session" (demo_text "2");
     ECall (FInsert demo_order1) 1; EWallet "session" (Some demo_user_wallet);
     EMessage "session" (demo_text "1")]) as Hl by by vm_compute.
  exists (MkFlowPool ts s), demo_order1, demo_order2, demo_both, 77, 77. cbn [fp_state].
  rewrite Hl. split; [exact Hr|]. clear Hr Hl s. split; [vm_compute; discriminate|].
  split; [right; right; right; left|]. split; [left|]. split.
  { intros sig r Hin. repeat (apply elem_of_cons in Hin as [Hin|Hin];
      [first [discriminate Hin|by injection Hin as _ ->]|]). by apply not_elem_of_nil in Hin. }
  split_and!; by vm_compute.
Qed.

(** *** A broadcast that is reported failed is repeated

    The lease is released, and the next tick sends the deposit again. *)
Definition demo_lost : FlowEnv :=
  demo_flow_env (demo_tx [demo_memo demo_order1]) (SendBroadcastFailed "sendTransaction: transport").
Definition demo_resent : FlowState :=
  play_flow [(demo_env1, demo_create "1"); (demo_env1, demo_confirm demo_order1);
             (demo_lost, demo_auto_tick); (demo_env1, demo_auto_tick)] demo_start.

Lemma broadcast_failure_is_resent :
  (∃ ts, flow_reachable funding_program (MkFlowPool ts demo_resent)) ∧
  length (List.filter (λ x, match x with ESent _ _ _ => true | _ => false end)
            (fw_log demo_resent)) = 2%nat.
Proof.
  split; [|by vm_compute].
  apply (play_flow_reachable _ ∅ demo_start); [constructor|].
  demo_steps.
Qed.

(** *** One order for two users

    A second user who asks for the same threshold is told to fund an order in their
    own name, while the one that is stored is the first user's. *)
Definition other_wallet : string := W5F_MAIN_POOL_LIQUIDITY_MINT_BS58.
Definition demo_shared : Result (Fault W5hBridgeError) W5hConditionalOrderResultDto * FlowState :=
  run_flow demo_env1 (handle_w5h_chat_command other_wallet (demo_text "1"))
    (play_flow [(demo_env1, demo_create "1")] demo_start).

Lemma second_user_told_to_fund_first_order : ∃ dto stored,
  demo_shared.1 = Ok dto ∧ od_status dto = "funding_required" ∧
  od_user_wallet dto = other_wallet ∧
  get_intent (od_rule_id_hex dto) (fw_intents demo_shared.2) = Ok (Some stored) ∧
  ni_user_wallet (fi_terms stored) = demo_user_wallet.
Proof.
  destruct demo_shared.1 as [dto|e] eqn:Hd; [|by vm_compute in Hd]. exists dto.
  destruct (get_intent (od_rule_id_hex dto) (fw_intents demo_shared.2)) as [[stored|]|e] eqn:Hg;
    vm_compute in Hd; injection Hd as <-; vm_compute in Hg; try done.
  injection Hg as <-. eexists. split_and!; by vm_compute.
Qed.

(** * What the funding handlers do, branch by branch

    The bookkeeping of the automatic tick under any answers; one confirmation and
    one chat execution run without interference. *)

(** ** The tick *)

(** Every listed intent is skipped or dispatched, every dispatch has its outcome. *)
Definition accounted (r : TickReport) (left_ : nat) : Prop :=
  tr_scanned r = (tr_skipped_not_pinned_shape r + tr_skipped_condition_false r +
                  tr_dispatched r + left_)%nat ∧
  tr_dispatched r = (tr_completed r + tr_broadcasted_timeout r + tr_prechecks_failed r +
                     tr_execution_failed r)%nat.

Lemma dispatch_intents_accounted dispatch save intents r :
  accounted r (length intents) →
  always (λ o, match o with Some r' => accounted r' 0 ∧ tr_scanned r' = tr_scanned r | None => True end)
    (dispatch_intents dispatch save intents r).
Proof.
  revert r. induction intents as [|i intents IH]; intros r [Hs Hd]; cbn [dispatch_intents].
  { done. }
  cbn [length] in Hs. destruct (negb _); [|destruct (_ <=? _)].
  - apply (IH (skip_shape r)). split; cbn; lia.
  - apply (IH (skip_condition r)). split; cbn; lia.
  - apply always_bind. intros [o|]; [|done].
    apply (IH (count_outcome (xo_status o) (count_dispatched r))).
    split; cbn; [lia|]. repeat case_bool_decide; destruct (xo_status o); simplify_eq; lia.
Qed.

(** The tick's report adds up, whatever the stores, the market and the executor
    answer: the intents scanned are those skipped for their shape, those skipped
    for the rate and those dispatched, and each dispatch is counted under exactly
    one outcome. *)
Theorem auto_tick_accounts dispatch :
  always (λ o, match o with
    | Some (Ok r) => accounted r 0
    | _ => True
    end) (auto_tick dispatch).
Proof.
  intros [[|i intents]|e]; [done| |done]. intros [save|e]; [|done].
  apply (always_seq (λ o, match o with Some r => accounted r 0 | None => True end)).
  - eapply always_mono; [|apply dispatch_intents_accounted; split; cbn; lia]. by intros [r|] [].
  - by intros [r|].
Qed.

(** ** One confirmation alone *)
Lemma parse_intent_status_Some s st : parse_intent_status s = Some st → s = intent_as_str st.
Proof. unfold parse_intent_status. repeat case_bool_decide; intros [= <-]; by subst. Qed.

Lemma row_to_intent_Ok r i : row_to_intent r = Ok i →
  ir_status r = intent_as_str (fi_status i) ∧ ir_funding_signature r = fi_funding_signature i ∧
  is_u 64 (ir_amount_raw r).
Proof.
  intros Hr. unfold row_to_intent in Hr. inv_ok Hr.
  match goal with H : parse_intent_status _ = Some _ |- _ => apply parse_intent_status_Some in H end.
  match goal with H : checked_u 64 _ = Some _ |- _ => apply checked_u_Some in H as [_ ?] end.
  done.
Qed.

(** A readable row stays readable under any status. *)
Lemma row_to_intent_set r st f sl e rf le now : is_u 64 (ir_amount_raw r) →
  ∃ i, row_to_intent (set_intent r (intent_as_str st) f sl e rf le now) = Ok i ∧ fi_status i = st.
Proof.
  intros Ha. unfold row_to_intent. cbn [ir_status set_intent]. rewrite parse_intent_as_str.
  cbn [ok_or mbind result_bind ir_amount_raw]. rewrite checked_u_ok by done. by eexists.
Qed.

Section confirmation.
Context `{!Crates, !IntentOrder} (env : FlowEnv) (w : ConfirmWiring).

Lemma run_flow_ask {A} e (k : FundingAnswer e → FProg A) s :
  run_flow env (Vis e k) s = let '(a, s') := flow_event env e s in run_flow env (k a) s'.
Proof. done. Qed.

Lemma run_metrics s : ∃ live, run_flow env (refresh_live_metrics w) s = (live, s).
Proof.
  destruct s as [t rules l]. unfold refresh_live_metrics.
  destruct (cw_save_apy_fetcher w), (cw_apr_fetcher w); by eexists.
Qed.

Lemma run_terminal stored sig st c r s : ∃ o,
  run_flow env (terminal_outcome w stored sig st c r) s = (o, s) ∧
  co_status o = st ∧ co_error o = Some c.
Proof.
  unfold terminal_outcome. rewrite run_flow_bind. destruct (run_metrics s) as [live ->].
  by eexists.
Qed.

Lemma run_success stored sig st e s : ∃ o,
  run_flow env (success_outcome_with_status w stored sig st e) s = (o, s) ∧ co_status o = st.
Proof.
  unfold success_outcome_with_status. rewrite run_flow_bind. destruct (run_metrics s) as [live ->].
  by eexists.
Qed.

(** An update of an existing row whose guard holds. *)
Lemma run_call {A} c (k : SRes Z → FProg A) t rules l r :
  fe_fault env = None → t !! funding_key c = Some r → guard c r = true → 
  (match c with FInsert _ => False | _ => True end) →
  ∃ r', leaves c r r' ∧
    apply_funding c (fe_now env) t = (1, <[funding_key c := r']> t) ∧
    run_flow env (Vis (IntentCall c) k) (MkFlow t rules l) =
    run_flow env (k (Ok 1)) (MkFlow (<[funding_key c := r']> t) rules (ECall c 1 :: l)).
Proof.
  intros Hf Hr Hg Hc. destruct (apply_funding c (fe_now env) t) as [n t'] eqn:Ha.
  pose proof Ha as Ha'. apply apply_funding_cases in Ha as [[-> ->]|[-> Ha]].
  - exfalso. destruct c; try done; cbn [apply_funding funding_key] in *;
      unfold mark_funding_submitted_if_required, mark_budget_reserved_if_submitted,
        mark_funding_invalid_if_submitted, lease_execution_if_budget_reserved,
        mark_completed_if_executing, release_execution_lease_to_budget_reserved,
        mark_expired_if_past, lease_refund_if_expired_or_past, mark_refunded_if_refunding,
        mark_intent_failed, update_intent in Ha'; rewrite Hr in Ha'; cbn [guard] in Hg;
      rewrite Hg in Ha'; by injection Ha'.
  - destruct Ha as [(i & -> & _)|(r0 & r' & Hr0 & _ & Hl & ->)]; [done|].
    assert (r0 = r) as -> by congruence. exists r'. split; [done|]. split; [done|].
    rewrite run_flow_ask. unfold flow_event. cbn [flow_answer fw_intents fw_rules].
    by rewrite Hf, Ha'.
Qed.
(** The verdict on the fetched transaction: the finalised slot or what is wrong. *)
Definition funding_verdict (stored : W5hFundingIntent) (tx : FetchedTx) : VRes Z :=
  let t := fi_terms stored in
  _ ← verify_funding_memo tx (ni_rule_id_hex t) (ni_canonical_rule_hash_hex t);
  verify_funding_delta tx (ni_controlled_usdc_ata t) (ni_controlled_wallet t) (ni_amount_raw t).

(** What a confirmation leaves of the row and reports. *)
Definition confirmed (req : W5hFundingConfirmRequest) (stored : W5hFundingIntent)
    (row' : IntentRow) (o : W5hFundingConfirmOutcome) : Prop :=
  match fe_tx env (cf_funding_signature req) with
  | Ok (Available tx) =>
      match funding_verdict stored tx with
      | Ok slot => ir_status row' = intent_as_str BudgetReserved ∧
          ir_funding_finalized_slot row' = Some (as_i64 slot) ∧
          co_status o = StBudgetReserved ∧ co_funding_finalized_slot o = Some slot
      | Err e => ir_status row' = intent_as_str FundingInvalid ∧
          co_status o = StFundingInvalid ∧ co_error o = Some e.1
      end
  | _ => ir_status row' = intent_as_str FundingSubmitted ∧ co_status o = StFundingPending
  end.

Section submitted.
Context (req : W5hFundingConfirmRequest) (stored : W5hFundingIntent).
Notation rid := (cf_rule_id_hex req).
Notation sig := (cf_funding_signature req).
Hypothesis Hfault : fe_fault env = None.

(** The state of a row that the request has submitted. *)
Definition submitted_row (r : IntentRow) : Prop :=
  ir_status r = intent_as_str FundingSubmitted ∧ ir_funding_signature r = Some sig ∧
  is_u 64 (ir_amount_raw r).

(** The row of the request, changed, and nothing else. *)
Definition ends_with (P : IntentRow → W5hFundingConfirmOutcome → Prop) (t : IntentTable)
    (rules : Table) (x : W5hFundingConfirmOutcome * FlowState) : Prop :=
  ∃ row', fw_intents x.2 = <[rid := row']> t ∧ fw_rules x.2 = rules ∧
    ir_funding_signature row' = Some sig ∧ P row' x.1.

Lemma submitted_guard r : submitted_row r →
  has_status [FundingSubmitted] r && funded_by sig r = true.
Proof.
  intros (Hst & Hs & _). rewrite (has_status_spec _ _ _ Hst). unfold funded_by. rewrite Hs.
  by rewrite !bool_decide_eq_true_2.
Qed.

Lemma run_refuse e t rules l r : t !! rid = Some r → submitted_row r →
  ends_with (λ row' o, ir_status row' = intent_as_str FundingInvalid ∧
    co_status o = StFundingInvalid ∧ co_error o = Some e.1) t rules
    (run_flow env (refuse_funding w req stored e) (MkFlow t rules l)).
Proof.
  intros Hr Hsub. unfold refuse_funding. cbn [call ask mbind prog_mbind prog_bind].
  match goal with |- context [Vis (IntentCall ?c) ?k] =>
    destruct (run_call c k t rules l r Hfault Hr (submitted_guard r Hsub) I)
      as (r' & (_ & Hst & Hsig & _) & _ & Hrun) end.
  rewrite Hrun. cbn [prog_bind funding_key].
  match goal with |- context [run_flow env _ ?s] =>
    destruct (run_terminal stored sig StFundingInvalid e.1 e.2 s) as (o & -> & Ho & He) end.
  exists r'. split_and!; try done. cbn in Hsig. rewrite Hsig. apply Hsub.
Qed.

Lemma run_reserve slot t rules l r : t !! rid = Some r → submitted_row r →
  ends_with (λ row' o, ir_status row' = intent_as_str BudgetReserved ∧
    ir_funding_finalized_slot row' = Some (as_i64 slot) ∧
    co_status o = StBudgetReserved ∧ co_funding_finalized_slot o = Some slot) t rules
    (run_flow env (reserve_budget w req stored slot) (MkFlow t rules l)).
Proof.
  intros Hr Hsub. unfold reserve_budget. cbn [call ask mbind prog_mbind prog_bind].
  match goal with |- context [Vis (IntentCall ?c) ?k] =>
    destruct (run_call c k t rules l r Hfault Hr (submitted_guard r Hsub) I)
      as (r' & (Hterms & Hst & Hsig & Hslot) & Ha & Hrun) end.
  rewrite Hrun. cbn [funding_key] in *. rewrite run_flow_ask. unfold flow_event.
  cbn [flow_answer fw_intents fw_rules fw_log]. unfold or_fault. rewrite Hfault.
  assert (∃ i, get_intent rid (<[rid := r']> t) = Ok (Some i) ∧ fi_status i = BudgetReserved)
    as (i & Hget & Hi).
  { unfold get_intent. rewrite lookup_insert_eq.
    cbn [apply_funding] in Ha. unfold mark_budget_reserved_if_submitted, update_intent in Ha.
    rewrite Hr, (submitted_guard r Hsub) in Ha. injection Ha as Ht.
    apply (f_equal (lookup rid)) in Ht. rewrite !lookup_insert_eq in Ht. injection Ht as <-.
    destruct (row_to_intent_set r BudgetReserved (ir_funding_signature r) (Some (as_i64 slot))
      (ir_execution_signature r) (ir_refund_signature r) (ir_last_error r) (fe_now env))
      as (i & Hrow & Hi); [apply Hsub|]. cbn [intent_as_str] in Hrow. rewrite Hrow. by exists i. }
  rewrite Hget. cbn [flow_entries app]. rewrite run_flow_bind.
  match goal with |- context [run_flow env (refresh_live_metrics w) ?s] =>
    destruct (run_metrics s) as [live ->] end.
  exists r'. cbn. rewrite Hi. split_and!; try done. cbn in Hsig. rewrite Hsig. apply Hsub.
Qed.
(** Steps 5 to 7 on a submitted row. *)
Lemma run_fetch t rules l r :
  identity_matches stored req = true → t !! rid = Some r → submitted_row r →
  ends_with (confirmed req stored) t rules
    (run_flow env (fetch_funding w req stored) (MkFlow t rules l)).
Proof.
  intros Hm Hr Hsub. unfold fetch_funding. cbn [call ask mbind prog_mbind prog_bind].
  rewrite run_flow_ask. unfold flow_event.
  cbn [flow_answer flow_entries fw_intents fw_rules fw_log app]. unfold ends_with, confirmed.
  assert (<[rid := r]> t = t) as Ht by by apply insert_id.
  destruct (fe_tx env sig) as [[|tx|reason]|e]; cbn [prog_bind].
  - match goal with |- context [run_flow env _ ?s] =>
      destruct (run_success stored sig StFundingPending (Some TxNotYetAvailable) s)
        as (o & -> & Ho) end.
    exists r. cbn. rewrite Ht. split_and!; try done; apply Hsub.
  - unfold verify_funding, funding_verdict.
    destruct (identity_matches_terms stored req (fi_terms stored) Hm) as (-> & -> & ->); [done|].
    destruct (verify_funding_memo _ _ _) as [[]|e]; [|by apply (run_refuse e t rules _ r)].
    cbn [mbind result_bind].
    destruct (verify_funding_delta _ _ _ _) as [slot|e]; [by apply (run_reserve slot t rules _ r)|].
    by apply (run_refuse e t rules _ r).
  - rewrite run_flow_bind. match goal with |- context [run_flow env _ ?s] =>
      destruct (run_success stored sig StFundingPending (Some CodeVerifierUnsupported) s)
        as (o & -> & Ho) end.
    exists r. cbn. rewrite Ht. split_and!; try done; apply Hsub.
  - rewrite run_flow_bind. match goal with |- context [run_flow env _ ?s] =>
      destruct (run_success stored sig StFundingPending (Some TxNotYetAvailable) s)
        as (o & -> & Ho) end.
    exists r. cbn. rewrite Ht. split_and!; try done; apply Hsub.
Qed.

(** One confirmation, run with no interference on an intent that can still be
    funded and is not bound to another signature, binds the request's signature
    and then does exactly what the transaction calls for: reserves the budget at
    its slot when it is verified, records the intent as invalid when it is not,
    and leaves it submitted and pending when the transaction cannot be had; no
    other row and no rule changes. *)
Theorem confirm_settles s :
  get_intent rid (fw_intents s) = Ok (Some stored) → identity_matches stored req = true →
  echoed_status (fi_status stored) = None →
  (fi_status stored = FundingSubmitted →
     fi_funding_signature stored = None ∨ fi_funding_signature stored = Some sig) →
  ends_with (confirmed req stored) (fw_intents s) (fw_rules s)
    (run_flow env (FundingEvents.execute w req) s).
Proof.
  destruct s as [t rules l]. cbn [fw_intents fw_rules]. intros Hget Hm Hecho Hsig.
  unfold FundingEvents.execute. cbn [call ask mbind prog_mbind prog_bind].
  rewrite run_flow_ask. unfold flow_event. cbn [flow_answer fw_intents fw_rules fw_log].
  unfold or_fault. rewrite Hfault, Hget, Hm, Hecho. cbn [negb flow_entries app].
  unfold get_intent in Hget. destruct (t !! rid) as [r|] eqn:Hr; [|done]. inv_ok Hget.
  match goal with H : row_to_intent r = Ok _ |- _ => apply row_to_intent_Ok in H as (Hst & Hs & Ha) end.
  unfold submit_funding. cbn [call ask mbind prog_mbind prog_bind].
  assert (guard (FSubmitted rid sig) r = true) as Hg.
  { cbn [guard]. rewrite !(has_status_spec _ _ _ Hst). unfold funded_by. rewrite Hs.
    destruct (fi_status stored); try done. cbn.
    destruct (Hsig eq_refl) as [-> | ->]; [done|].
    by rewrite (bool_decide_eq_true_2 (Some sig = Some sig)), orb_true_r by done. }
  match goal with |- context [Vis (IntentCall ?c) ?k] =>
    destruct (run_call c k t rules l r Hfault Hr Hg I) as (r' & (Hterms & Hst' & Hsig' & _) & Hap & Hrun)
  end.
  rewrite Hrun. cbn [prog_bind funding_key Z.eqb]. cbn [funding_key] in *.
  assert (submitted_row r') as Hsub.
  { split; [done|]. split; [done|]. revert Ha.
    cbn [apply_funding] in Hap. unfold mark_funding_submitted_if_required, update_intent in Hap.
    rewrite Hr in Hap. cbn [guard] in Hg. rewrite Hg in Hap. injection Hap as Ht.
    apply (f_equal (lookup rid)) in Ht. rewrite !lookup_insert_eq in Ht. by injection Ht as <-. }
  destruct (run_fetch (<[rid := r']> t) rules (ECall (FSubmitted rid sig) 1 :: l) r' Hm
    (lookup_insert_eq _ _ _) Hsub) as (row' & Hi & Hrest).
  exists row'. rewrite insert_insert_eq in Hi. by split.
Qed.
End submitted.
End confirmation.

(** ** Concrete runs *)
#[local] Existing Instances flow_crates demo_intent_order.

Lemma funding_verified_iff_witness :
  funds demo_order1 (demo_tx [demo_memo demo_order1]) 77 ∧
  has_memo (demo_tx [demo_memo demo_order1]) ("claw:w5h:" +:+ ni_rule_id_hex demo_order1 +:+ ":" +:+
    ni_canonical_rule_hash_hex demo_order1).
Proof.
  assert (is_u 64 (ni_amount_raw demo_order1)) as Ha by by vm_compute.
  assert (funds demo_order1 (demo_tx [demo_memo demo_order1]) 77) as Hf
    by by split; vm_compute.
  split; [done|]. by apply (funding_verified_iff _ _ 77 Ha) in Hf as (_ & _ & ? & _).
Defined.

(** The second step of [demo_life]. *)
Definition demo_created : FlowState := play_flow [(demo_env1, demo_create "1")] demo_start.
Lemma confirm_settles_witness : ∃ stored row' o,
  get_intent (ni_intent_id demo_order1) (fw_intents demo_created) = Ok (Some stored) ∧
  confirmed demo_env1 (demo_request demo_order1 "deposit") stored row' o ∧
  ir_status row' = "budget_reserved".
Proof.
  destruct (get_intent (ni_intent_id demo_order1) (fw_intents demo_created)) as [[stored|]|] eqn:Hget;
    try by vm_compute in Hget.
  destruct (confirm_settles demo_env1 (MkWiring true true) (demo_request demo_order1 "deposit")
    stored eq_refl demo_created Hget) as (row' & _ & _ & _ & Hc).
  - vm_compute in Hget. injection Hget as <-. by vm_compute.
  - vm_compute in Hget. injection Hget as <-. by vm_compute.
  - vm_compute in Hget. injection Hget as <-. by vm_compute.
  - exists stored, row'. eexists. split; [done|]. split; [exact Hc|]. revert Hc.
    assert (funding_verdict stored (demo_tx [demo_memo demo_order1]) = Ok 77) as Hv
      by (vm_compute in Hget; injection Hget as <-; by vm_compute).
    unfold confirmed, demo_env1, demo_flow_env. cbn [fe_tx]. rewrite Hv. by intros [-> _].
Defined.
