(* ===== verification/ChatFacts.v ===== *)
(** * The chat command and the gates of the two executors *)
From S2P Require Import Prelude Interaction WatchRules WatcherBase RuleStore RustText.
From S2P Require Import FundingStore FundingSafety FundingEvents ChatExecute AutoExecute.
#[local] Open Scope string_scope.
#[local] Open Scope Z_scope.

(** ** Tokens *)

(** Bytes that are characters of their own and not white space. *)
Definition plain_byte (b : byte) : bool :=
  (byte_val b <? 128) && negb (is_whitespace (byte_val b, [b])).

Lemma hexdigit_plain b : is_ascii_hexdigit b = true → plain_byte b = true.
Proof. by destruct b; vm_compute. Qed.

Lemma split_chars_token l cs token : forallb plain_byte l = true →
  split_chars (map (λ b, (byte_val b, [b])) l ++ cs) token = split_chars cs (token ++ l).
Proof.
  revert token. induction l as [|b l IH]; intros token Hl; cbn; [by rewrite app_nil_r|].
  cbn in Hl. apply andb_true_iff in Hl as [[_ Hb]%andb_true_iff Hl].
  apply negb_true_iff in Hb. rewrite Hb, IH by done. by rewrite <- app_assoc.
Qed.

Lemma plain_is_ascii l : forallb plain_byte l = true → is_ascii l.
Proof.
  intros Hl. apply Forall_forall. intros b Hb.
  assert (plain_byte b = true) as Hp by (eapply forallb_forall; [done|by apply list_elem_of_In]).
  apply andb_true_iff in Hp as [Hp _]. by apply Z.ltb_lt.
Qed.

(** White space, a token, white space: the token comes out. *)
Notation space := Byte.x20.
Lemma space_whitespace : is_whitespace (byte_val space, [space]) = true.
Proof. by vm_compute. Qed.

Lemma split_whitespace_space rest :
  split_whitespace (space :: rest) = split_whitespace rest.
Proof.
  unfold split_whitespace. change (space :: rest) with ([space] ++ rest)%list.
  rewrite (chars_ascii_app [space]) by (by repeat constructor).
  cbn [map app split_chars]. by rewrite space_whitespace.
Qed.

Lemma split_whitespace_token l rest : forallb plain_byte l = true → l ≠ [] →
  split_whitespace (space :: l ++ space :: rest) = l :: split_whitespace rest.
Proof.
  intros Hl Hne. rewrite split_whitespace_space. unfold split_whitespace.
  rewrite chars_ascii_app by by apply plain_is_ascii.
  rewrite split_chars_token by done. cbn [app].
  change (space :: rest) with ([space] ++ rest)%list.
  rewrite (chars_ascii_app [space]) by (by repeat constructor). cbn [map app split_chars].
  rewrite space_whitespace. by destruct l.
Qed.

Lemma trim_space rest : trim (space :: rest) = trim rest.
Proof.
  unfold trim. change (space :: rest) with ([space] ++ rest)%list.
  rewrite (chars_ascii_app [space]) by (by repeat constructor). cbn [map app].
  unfold trim_chars at 1. cbn [trim_start_chars]. by rewrite space_whitespace.
Qed.

(** ** The command *)
Lemma hex_token_plain n l : is_hex_token n l = true →
  length l = n ∧ forallb plain_byte l = true ∧ Forall (λ b, is_ascii_hexdigit b = true) l.
Proof.
  unfold is_hex_token. intros [Hn Hl]%andb_true_iff. apply Nat.eqb_eq in Hn.
  rewrite forallb_forall in Hl. split_and!; [done| |].
  - apply forallb_forall. intros b Hb. by apply hexdigit_plain, Hl.
  - apply Forall_forall. intros b Hb. by apply Hl, list_elem_of_In.
Qed.

(** The frontend's [buildW5gExecuteCommand], with any phrase. *)
Definition build_command (rule_id hash phrase : list byte) : list byte :=
  str_bytes "Execute W5g conditional deposit" ++
  (space :: rule_id ++ space :: hash ++ str_bytes " with ") ++
  str_bytes "approval phrase" ++ space :: phrase.

(** The marker cannot start inside what stands before it: its second letter is not
    among the letters there, which end in a space. *)
Lemma marker_not_before a b : Forall (λ x, x ≠ Byte.x70) a → last a = Some space →
  ∀ a1 a2, a = (a1 ++ a2)%list → a2 ≠ [] → starts_with tail_marker (a2 ++ tail_marker ++ b) = false.
Proof.
  intros Hno Hlast a1 a2 -> Hne. apply Forall_app in Hno as [_ Hno].
  rewrite last_app in Hlast.
  change tail_marker with (Byte.x61 :: Byte.x70 :: drop 2 tail_marker).
  destruct a2 as [|x [|y a2]]; [done|..]; cbn [app starts_with].
  - injection Hlast as ->. done.
  - apply Forall_cons in Hno as [_ [Hy _]%Forall_cons].
    rewrite (bool_decide_eq_false_2 (Byte.x70 = y)) by (intros E; by apply Hy).
    by rewrite andb_false_r.
Qed.

Lemma lower_hexdigit b : is_ascii_hexdigit b = true → lower_byte b ≠ Byte.x70.
Proof. by destruct b; vm_compute. Qed.

Lemma lower_hex_token n l : is_hex_token n l = true → Forall (λ x, x ≠ Byte.x70) (map lower_byte l).
Proof.
  intros (_ & _ & Hl)%hex_token_plain. apply Forall_fmap. eapply Forall_impl; [exact Hl|].
  apply lower_hexdigit.
Qed.

Lemma drop_prefix {A} (a b : list A) n : n = length a → drop n (a ++ b) = b.
Proof. intros ->. apply drop_app_length. Qed.

(** The command the frontend builds is read back: rule, hash and phrase, for
    any hexadecimal tokens of the right lengths in either case and any phrase
    without white space at its ends. *)
Theorem w5g_command_roundtrip rule_id hash phrase :
  is_hex_token 32 rule_id = true → is_hex_token 64 hash = true →
  trim phrase = phrase → phrase ≠ [] →
  parse_w5g_chat_command (bytes_str (build_command rule_id hash phrase)) =
  Ok (MkChatRequest (bytes_str rule_id) (bytes_str hash) (bytes_str phrase)).
Proof.
  intros Hrid Hhash Htrim Hne. unfold parse_w5g_chat_command.
  rewrite String.list_byte_of_string_of_list_byte.
  destruct (hex_token_plain _ _ Hrid) as (Hlr & Hpr & _).
  destruct (hex_token_plain _ _ Hhash) as (Hlh & Hph & _).
  set (mid := (space :: rule_id ++ space :: hash ++ str_bytes " with ")%list).
  assert (to_ascii_lowercase (build_command rule_id hash phrase) =
    command_prefix ++ map lower_byte mid ++ tail_marker ++ space :: map lower_byte phrase)%list
    as Hlow.
  { unfold to_ascii_lowercase, build_command. fold mid. rewrite !map_app. by rewrite map_cons. }
  rewrite Hlow. match goal with |- context [find_str ?pat (?pat ++ ?l)] =>
    assert (find_str pat (pat ++ l) = Some 0%nat) as -> by
      (apply (find_str_first pat []); intros a1 a2 Hnil%eq_sym%app_nil; naive_solver) end.
  cbn [ok_or mbind result_bind length Nat.add].
  assert (drop (length command_prefix) (build_command rule_id hash phrase) =
    mid ++ str_bytes "approval phrase" ++ space :: phrase)%list as ->
    by (unfold build_command; fold mid; by rewrite drop_prefix).
  assert (split_whitespace (mid ++ str_bytes "approval phrase" ++ space :: phrase) =
    rule_id :: hash :: split_whitespace (drop 1 (str_bytes " with ") ++
      str_bytes "approval phrase" ++ space :: phrase))%list as Htok.
  { unfold mid. cbn [app]. rewrite <- app_assoc. cbn [app]. rewrite <- app_assoc.
    rewrite split_whitespace_token by (done || by intros ->).
    f_equal. rewrite <- split_whitespace_space.
    change (str_bytes " with ") with (space :: drop 1 (str_bytes " with ")) at 1. cbn [app].
    by rewrite split_whitespace_token by (done || by intros ->). }
  rewrite Htok. cbn [lookup list_lookup ok_or mbind result_bind].
  rewrite Hrid, Hhash. cbn [negb throw_if mbind result_bind].
  rewrite (drop_prefix command_prefix) by done.
  rewrite (find_str_first tail_marker (map lower_byte mid)).
  2: { apply marker_not_before.
       - unfold mid. rewrite map_cons, map_app, map_cons, map_app. apply Forall_cons.
         split; [done|]. apply Forall_app. split; [by eapply lower_hex_token|].
         apply Forall_cons. split; [done|]. apply Forall_app. split; [by eapply lower_hex_token|].
         by repeat constructor.
       - unfold mid. rewrite map_cons, map_app, map_cons, map_app.
         rewrite app_comm_cons, last_app. rewrite app_comm_cons, last_app. done. }
  cbn [ok_or mbind result_bind]. unfold build_command. fold mid. rewrite !app_assoc.
  rewrite drop_prefix. 2: { rewrite !length_app, length_map. done. }
  rewrite trim_space, Htrim. rewrite bool_decide_eq_false_2; [done|].
  destruct phrase; done.
Qed.

Lemma w5g_command_roundtrip_witness :
  let rule_id := replicate 32 Byte.x41 in
  let hash := replicate 64 Byte.x62 in
  let phrase := str_bytes W5G_REQUIRED_APPROVAL_PHRASE in
  parse_w5g_chat_command (bytes_str (build_command rule_id hash phrase)) =
  Ok (MkChatRequest (bytes_str rule_id) (bytes_str hash) (bytes_str phrase)).
Proof. apply w5g_command_roundtrip; by vm_compute. Defined.

(** ** The gates *)

(** When the loop is enabled, what it dispatches passes the executor's gates,
    but for one setting: a blank [HELIUS_RPC_URL] beside a good [CLAW_RPC_URL]
    enables the loop and has the executor refuse everything it is given. *)
Theorem enabled_loop_passes_gates env request :
  fully_enabled (auto_config_from_std_env env) = true →
  cx_approval_phrase request = W5G_REQUIRED_APPROVAL_PHRASE →
  gates (chat_config_from_std_env env) request =
  if bool_decide (not_blank (env "HELIUS_RPC_URL") = false ∧ env "HELIUS_RPC_URL" ≠ None)
  then Err (RpcUrlMissing, "neither HELIUS_RPC_URL nor CLAW_RPC_URL is set") else Ok tt.
Proof.
  unfold fully_enabled, gates. intros Hon Hphrase.
  cbn [auto_config_from_std_env ac_w5i_master_gate_on ac_w5g_master_gate_on
    ac_w5g_env_approval_matches ac_w5g_cluster_mainnet_beta ac_w5g_keypair_path_present
    ac_rpc_url_present] in Hon.
  cbn [chat_config_from_std_env cc_master_gate_on cc_env_approval_phrase cc_cluster
    cc_rpc_url_present cc_keypair_path_present].
  rewrite !andb_true_iff, !bool_decide_eq_true in Hon.
  destruct Hon as (((((_ & Hgate) & Happ) & Hcluster) & Hkey) & Hrpc).
  assert (∀ k v, match env k with Some s => if is_blank s then None else Some s | None => None end
    = Some v → env k = Some v) as Henv.
  { intros k v Hk. destruct (env k) as [s|]; [|done]. destruct (is_blank s); naive_solver. }
  rewrite (Henv _ _ Hgate), (Henv _ _ Happ), (Henv _ _ Hcluster), Hphrase.
  assert (not_blank (env W5G_ENV_DELEGATED_KEYPAIR_PATH) = true) as ->.
  { revert Hkey. unfold not_blank.
    destruct (env W5G_ENV_DELEGATED_KEYPAIR_PATH) as [s|]; [|done]. by destruct (is_blank s). }
  do 5 (rewrite throw_if_false by done; cbn [ok_or mbind result_bind]).
  revert Hrpc. unfold not_blank, throw_if. destruct (env "HELIUS_RPC_URL") as [s|].
  - destruct (is_blank s); cbn; [by rewrite bool_decide_eq_true_2|].
    by rewrite bool_decide_eq_false_2 by naive_solver.
  - rewrite bool_decide_eq_false_2 by naive_solver.
    destruct (env "CLAW_RPC_URL") as [s|]; [|done]. by destruct (is_blank s).
Qed.

Definition demo_vars : Env := λ k,
  if bool_decide (k = W5I_ENV_MASTER_GATE) || bool_decide (k = W5G_ENV_MASTER_GATE) then Some "1"
  else if bool_decide (k = W5G_ENV_APPROVAL_PHRASE_OWNER) then Some W5G_REQUIRED_APPROVAL_PHRASE
  else if bool_decide (k = W5G_ENV_CLUSTER) then Some W5G_CLUSTER_MAINNET
  else if bool_decide (k = W5G_ENV_DELEGATED_KEYPAIR_PATH) then Some "/keys/wallet.json"
  else if bool_decide (k = "HELIUS_RPC_URL") then Some " "
  else if bool_decide (k = "CLAW_RPC_URL") then Some "https://rpc" else None.

Lemma enabled_loop_passes_gates_witness :
  fully_enabled (auto_config_from_std_env demo_vars) = true ∧
  gates (chat_config_from_std_env demo_vars) (MkChatRequest "" "" W5G_REQUIRED_APPROVAL_PHRASE) =
  Err (RpcUrlMissing, "neither HELIUS_RPC_URL nor CLAW_RPC_URL is set").
Proof.
  split; [by vm_compute|].
  rewrite (enabled_loop_passes_gates demo_vars); [|by vm_compute|done].
  by rewrite bool_decide_eq_true_2 by (split; [by vm_compute|done]).
Defined.

(** A request with a character of two bytes at an odd place panics the handler, and
    a plus sign is read as part of a byte. *)
Lemma decode_rule_id_hex_panics :
  decode_rule_id_hex "aé0000000000000000000000000000a" = None ∧
  decode_rule_id_hex "+1000000000000000000000000000000" =
    Some (Some (Byte.x01 :: replicate 15 Byte.x00)).
Proof. by vm_compute. Qed.
