(* ===== verification/OrderFacts.v ===== *)
(** * What holds of the order commands

    The documented command is read back with its threshold; which texts make the
    parser panic or accept more than was meant.  Concrete runs of drafts come last. *)
From S2P Require Import Prelude WatchRules WatcherBase RuleStore RustText EvaluatorFacts.
From S2P Require Import OrderDraft FundingEvents OrderCommand DraftFacts FlowRuns ChatFacts.
From S2P Require DemoCommand.
#[local] Open Scope string_scope.
#[local] Open Scope Z_scope.

(** ** Texts of words *)
Definition plain_word (w : list byte) : Prop := forallb plain_byte w = true ∧ w ≠ [].

Notation ascii_chars l := (map (λ b, (byte_val b, [b])) l).

Lemma plain_not_space b : plain_byte b = true → b ≠ space.
Proof. by intros ? ->. Qed.

Lemma chars_word w rest : forallb plain_byte w = true →
  chars (w ++ rest) = (ascii_chars w ++ chars rest)%list.
Proof. intros. by apply chars_ascii_app, plain_is_ascii. Qed.

Lemma chars_space rest : chars (space :: rest) = (byte_val space, [space]) :: chars rest.
Proof. by apply (chars_ascii_app [space]); repeat constructor. Qed.

(** *** Normalizing leaves them alone *)
Lemma collapse_word w cs last_space out : plain_word w →
  collapse (ascii_chars w ++ cs) last_space out = collapse cs false (out ++ w).
Proof.
  intros [Hw Hne]. revert last_space out Hne.
  induction w as [|b w IH]; intros ls out Hne; [done|].
  cbn in Hw. apply andb_true_iff in Hw as [[_ Hb]%andb_true_iff Hw]. apply negb_true_iff in Hb.
  cbn [map app collapse]. rewrite Hb. destruct w as [|b' w]; [done|].
  rewrite IH by done. cbn [snd]. by rewrite <- app_assoc.
Qed.

Lemma collapse_join ws out : Forall plain_word ws →
  collapse (chars (join_words ws)) true out = (out ++ join_words ws)%list.
Proof.
  intros Hws. revert out. induction Hws as [|w ws Hw Hws IH]; intros out; cbn [join_words].
  { by rewrite app_nil_r. }
  destruct ws as [|w' ws].
  - rewrite <- (app_nil_r w) at 1. rewrite chars_word by apply Hw. by rewrite collapse_word by done.
  - rewrite chars_word by apply Hw. rewrite collapse_word by done. rewrite chars_space.
    cbn [collapse]. rewrite space_whitespace, IH. by rewrite <- !app_assoc.
Qed.

Lemma pop_spaces_snoc l b : b ≠ space → pop_spaces (l ++ [b]) = (l ++ [b])%list.
Proof.
  intros Hb. unfold pop_spaces. rewrite rev_app_distr. cbn [rev app].
  assert (∀ l', drop_spaces (b :: l') = b :: l') as -> by (intros l'; by destruct b).
  cbn [rev]. by rewrite rev_involutive.
Qed.

Lemma join_words_last ws : Forall plain_word ws → ws ≠ [] →
  ∃ l b, join_words ws = (l ++ [b])%list ∧ plain_byte b = true.
Proof.
  induction 1 as [|w ws [Hw Hne] Hws IH]; intros Hnil; [done|]. cbn [join_words].
  destruct ws as [|w' ws].
  - destruct (exists_last Hne) as (l & b & ->). exists l, b. split; [done|].
    rewrite forallb_app in Hw. apply andb_true_iff in Hw as [_ Hb]. cbn in Hb.
    by rewrite andb_true_r in Hb.
  - destruct IH as (l & b & -> & Hb); [done|]. exists (w ++ space :: l)%list, b.
    by rewrite <- app_assoc.
Qed.

Lemma normalize_join ws : Forall plain_word ws →
  normalize_whitespace (join_words ws) = join_words ws.
Proof.
  intros Hws. unfold normalize_whitespace. rewrite collapse_join by done. cbn [app].
  destruct (decide (ws = [])) as [->|Hne]; [done|].
  destruct (join_words_last ws Hws Hne) as (l & b & -> & Hb).
  by apply pop_spaces_snoc, plain_not_space.
Qed.

(** *** And so does splitting and joining *)
Lemma split_join ws : Forall plain_word ws → split_whitespace (join_words ws) = ws.
Proof.
  intros Hws. unfold split_whitespace. induction Hws as [|w ws [Hw Hne] Hws IH]; [done|].
  cbn [join_words]. destruct ws as [|w' ws].
  - rewrite <- (app_nil_r w) at 1. rewrite chars_word by done. rewrite split_chars_token by done.
    cbn. by destruct w.
  - rewrite chars_word by done. rewrite split_chars_token by done. rewrite chars_space.
    cbn [split_chars app]. rewrite space_whitespace, IH. by destruct w.
Qed.

(** ** Searching in two parts *)
Lemma starts_with_app pat l rest : starts_with pat l = true → starts_with pat (l ++ rest) = true.
Proof. rewrite !starts_with_spec. intros [r ->]. exists (r ++ rest)%list. by rewrite app_assoc. Qed.

Lemma contains_spec pat l : contains_str pat l = true ↔
  ∃ a b, l = (a ++ b)%list ∧ starts_with pat b = true.
Proof.
  unfold contains_str, find_str. generalize 0%nat as i.
  induction l as [|x l IH]; intros i; cbn [find_from].
  - destruct (starts_with pat []) eqn:Hs.
    + split; [intros _; by exists [], []|done].
    + split; [done|]. intros (a & b & Heq & Hb). apply eq_sym, app_nil in Heq as [-> ->]. congruence.
  - destruct (starts_with pat (x :: l)) eqn:Hs.
    + split; [intros _; by exists [], (x :: l)|done].
    + rewrite IH. split.
      * intros (a & b & -> & Hb). by exists (x :: a), b.
      * intros ([|y a] & b & Heq & Hb); cbn in Heq; [by subst; congruence|].
        injection Heq as <- ->. by exists a, b.
Qed.

Lemma contains_app_l pat a b : contains_str pat a = true → contains_str pat (a ++ b) = true.
Proof.
  rewrite !contains_spec. intros (x & y & -> & Hy). exists x, (y ++ b)%list.
  rewrite app_assoc. split; [done|by apply starts_with_app].
Qed.
Lemma contains_app_r pat a b : contains_str pat b = true → contains_str pat (a ++ b) = true.
Proof.
  rewrite !contains_spec. intros (x & y & -> & Hy). exists (a ++ x)%list, y. by rewrite app_assoc.
Qed.

(** ** The scan for an amount, on what is left of an ASCII text *)
Fixpoint scan_amount (n : nat) (l : list byte) : option (list byte) :=
  match n, l with
  | S n, b :: l' =>
      if negb (is_ascii_digit b) then scan_amount n l' else
      let rest := drop (number_length l) l in
      let sp := spaces_length rest in
      if (sp + 4 <=? length rest)%nat && bool_decide (take 4 (drop sp rest) = str_bytes "usdc")
      then Some (take (number_length l) l)
      else scan_amount n rest
  | _, _ => None
  end.

Lemma ascii_boundary s i : is_ascii s → (i ≤ length s)%nat → is_char_boundary s i = true.
Proof.
  intros Hs Hi. unfold is_char_boundary. case_match eqn:Hl; [done|].
  apply Nat.eqb_neq in Hl. destruct (lookup_lt_is_Some_2 s i) as [b Hb]; [lia|]. rewrite Hb.
  pose proof (Forall_lookup_1 _ _ _ _ Hs Hb) as Hv. cbn in Hv. unfold cont, between.
  apply negb_true_iff, andb_false_iff. left. apply Z.leb_gt. lia.
Qed.

Lemma number_length_pos s i b : s !! i = Some b → negb (is_ascii_digit b) = false →
  (1 ≤ number_length (drop i s))%nat.
Proof.
  intros Hb Hd. rewrite (drop_S _ _ _ Hb). cbn. unfold is_number_byte.
  apply negb_false_iff in Hd as ->. cbn. lia.
Qed.

Lemma find_amount_scan s n i : is_ascii s → (length s - i < n)%nat →
  find_amount_from n s i = Some (Ok (scan_amount n (drop i s))).
Proof.
  intros Hs. revert i. induction n as [|n IH]; intros i Hn; [lia|]. cbn [find_amount_from].
  destruct (s !! i) as [b|] eqn:Hb.
  2: { apply lookup_ge_None in Hb. by rewrite drop_ge. }
  pose proof (lookup_lt_Some _ _ _ Hb). rewrite (drop_S _ _ _ Hb). cbn [scan_amount].
  destruct (negb (is_ascii_digit b)) eqn:Hd; [by rewrite IH by lia|].
  pose proof (number_length_pos _ _ _ Hb Hd) as Hpos. rewrite <- (drop_S _ _ _ Hb).
  set (k := number_length (drop i s)) in *. rewrite drop_drop.
  set (sp := spaces_length (drop (i + k) s)).
  replace (i + k - i)%nat with k by lia. rewrite length_drop.
  assert ((i + k + sp + 4 <=? length s)%nat = (sp + 4 <=? length s - (i + k))%nat) as ->.
  { destruct (_ <=? _)%nat eqn:H1, (sp + 4 <=? _)%nat eqn:H2; b2p; lia. }
  destruct (sp + 4 <=? _)%nat eqn:Hle; cbn [andb]; [|by rewrite IH by lia].
  b2p. unfold four_at. rewrite !ascii_boundary by (done || lia). cbn [andb].
  rewrite drop_drop. case_bool_decide; [done|]. by rewrite IH by lia.
Qed.

Lemma scan_skip n a l : forallb (λ b, negb (is_ascii_digit b)) a = true →
  scan_amount (length a + n) (a ++ l) = scan_amount n l.
Proof.
  induction a as [|b a IH]; [done|]. cbn [forallb]. intros [Hb Ha]%andb_true_iff.
  cbn [length Nat.add app scan_amount]. rewrite Hb. by apply IH.
Qed.

(** ** Numbers in the text *)
Lemma number_length_app a x l : forallb is_number_byte a = true → is_number_byte x = false →
  number_length (a ++ x :: l) = length a.
Proof.
  intros Ha Hx. induction a as [|b a IH]; cbn in *; [by rewrite Hx|].
  apply andb_true_iff in Ha as [-> Ha]. by rewrite IH.
Qed.

Lemma number_byte_facts b : is_number_byte b = true →
  plain_byte b = true ∧ lower_byte b = b ∧ b ≠ Byte.x25.
Proof. by destruct b; vm_compute. Qed.

Lemma decimal_number l int_part frac : decimal_text l int_part frac →
  forallb is_number_byte l = true.
Proof.
  intros (Hi & Hf & _ & Hl).
  assert (∀ d, all_digits d = true → forallb is_number_byte d = true) as Hd.
  { intros d. unfold all_digits. rewrite !forallb_forall. intros Hd b Hb.
    unfold is_number_byte. by rewrite (Hd b Hb). }
  destruct Hl as [[-> ->]| ->]; [by apply Hd|].
  rewrite forallb_app. cbn [forallb]. by rewrite !Hd.
Qed.

Lemma forallb_impl {A} (p q : A → bool) l : (∀ x, p x = true → q x = true) →
  forallb p l = true → forallb q l = true.
Proof. rewrite !forallb_forall. auto. Qed.

Lemma trim_plain l : forallb plain_byte l = true → trim l = l.
Proof.
  intros Hl. unfold trim. rewrite <- (app_nil_r l) at 1. rewrite chars_word by done.
  rewrite app_nil_r. unfold trim_chars, join_chars.
  assert (∀ cs, (∀ c, c ∈ cs → is_whitespace c = false) → trim_start_chars cs = cs) as Ht.
  { intros [|c cs] Hc; [done|]. cbn. by rewrite Hc by (by left). }
  assert (∀ c, c ∈ ascii_chars l → is_whitespace c = false) as Hws.
  { intros c (b & -> & Hb)%list_elem_of_fmap. rewrite forallb_forall in Hl.
    apply list_elem_of_In, Hl, andb_true_iff in Hb as [_ Hb]. by apply negb_true_iff. }
  rewrite (Ht (ascii_chars l)) by done. rewrite Ht, rev_involutive.
  - induction l as [|b l IH]; [done|]. cbn. f_equal. cbn in Hl.
    apply andb_true_iff in Hl as [_ Hl]. apply IH; [done|]. intros c Hc. apply Hws. by right.
  - intros c Hc. apply Hws. apply list_elem_of_In, in_rev in Hc. by apply list_elem_of_In.
Qed.

(** ** The command *)
Definition command_head : list byte := str_bytes "If Solend Main Pool USDC deposit APY is above ".
Definition command_rest : list byte :=
  str_bytes "%, deposit 0.25 USDC from my wallet, expires in 3 minutes.".
Definition order_command (label : list byte) : list byte :=
  (command_head ++ label ++ command_rest)%list.

Definition command_words (label : list byte) : list (list byte) :=
  (map (λ s, str_bytes s)
    ["if"; "solend"; "main"; "pool"; "usdc"; "deposit"; "apy"; "is"; "above"]%string ++
  (label ++ str_bytes "%,")%list ::
  map (λ s, str_bytes s)
    ["deposit"; "0.25"; "usdc"; "from"; "my"; "wallet,"; "expires"; "in"; "3"; "minutes."]%string)%list.

Section command.
Context (label : list byte).
Hypothesis Hnum : forallb is_number_byte label = true.
Let norm : list byte :=
  (to_ascii_lowercase command_head ++ label ++ to_ascii_lowercase command_rest)%list.

Lemma label_plain : forallb plain_byte label = true.
Proof. eapply forallb_impl; [|exact Hnum]. intros b Hb. by apply number_byte_facts. Qed.

Lemma lower_command : to_ascii_lowercase (order_command label) = norm.
Proof.
  unfold order_command, norm, to_ascii_lowercase. rewrite !map_app. do 2 f_equal.
  clear norm. induction label as [|b l IH]; [done|]. cbn in Hnum.
  apply andb_true_iff in Hnum as [Hb Hl]. cbn. f_equal; [|by apply IH]. by apply number_byte_facts.
Qed.

Lemma norm_words : norm = join_words (command_words label).
Proof.
  unfold norm, command_words. cbn [map app join_words]. rewrite <- !app_assoc. reflexivity.
Qed.

Lemma command_words_plain : Forall plain_word (command_words label).
Proof.
  unfold command_words. apply Forall_app. split; [|apply Forall_cons; split].
  - repeat (apply Forall_cons; split; [by vm_compute|]). apply Forall_nil_2.
  - split; [|by intros [_ ?]%app_nil]. rewrite forallb_app, label_plain. done.
  - repeat (apply Forall_cons; split; [by vm_compute|]). apply Forall_nil_2.
Qed.

Lemma norm_normal : normalize_whitespace norm = norm.
Proof. rewrite norm_words. apply normalize_join, command_words_plain. Qed.

Lemma norm_expiry text : other_expiry norm text = None.
Proof.
  unfold other_expiry, matches_three_minute_expiry at 1.
  assert (join_words (split_whitespace norm) = norm) as ->.
  { rewrite norm_words. by rewrite split_join by apply command_words_plain. }
  assert (contains_str (str_bytes "expires in 3 minute") norm = true) as ->; [|done].
  apply contains_app_r, contains_app_r. by vm_compute.
Qed.

Lemma norm_ascii : is_ascii norm.
Proof.
  apply Forall_app. split; [by repeat constructor|].
  apply Forall_app. split; [apply plain_is_ascii, label_plain|by repeat constructor].
Qed.

(** The scan passes the threshold and finds the amount. *)
Lemma norm_amount : (∃ b l, label = b :: l ∧ is_ascii_digit b = true) →
  find_explicit_amount_usdc norm = Ok (Some (str_bytes "0.25")).
Proof.
  intros (b & l & Hlabel & Hb). unfold find_explicit_amount_usdc.
  rewrite find_amount_scan by (apply norm_ascii || lia). cbn [default]. f_equal. rewrite drop_0. unfold norm.
  rewrite length_app, <- Nat.add_succ_r. rewrite scan_skip by by vm_compute.
  set (rest := to_ascii_lowercase command_rest).
  assert (number_length (label ++ rest) = length label) as Hlen
    by by apply number_length_app.
  assert (∀ n, scan_amount (S n) (label ++ rest) = scan_amount n rest) as Hstep.
  { intros n. rewrite Hlabel at 1. cbn [app scan_amount]. rewrite Hb. cbn [negb].
    change (b :: l ++ rest) with ((b :: l) ++ rest)%list. rewrite <- Hlabel, Hlen.
    rewrite drop_app_length. done. }
  rewrite Hstep, length_app, Nat.add_comm. generalize (length label) as n. intros n.
  unfold rest. by vm_compute.
Qed.

Lemma norm_threshold : label ≠ [] → find_threshold_pct norm = Some label.
Proof.
  intros Hne. unfold find_threshold_pct. cbn [find_pct]. unfold pct_after.
  assert (find_str (str_bytes "above ") norm = Some 40%nat) as -> by by vm_compute.
  cbn [mbind option_bind]. change (40 + length (str_bytes "above "))%nat with 46%nat.
  assert (drop 46 norm = label ++ to_ascii_lowercase command_rest)%list as -> by done.
  change (to_ascii_lowercase command_rest) with
    ([Byte.x25] ++ drop 1 (to_ascii_lowercase command_rest))%list.
  change (str_bytes "%") with [Byte.x25]. rewrite find_str_first.
  - cbn [mbind option_bind]. rewrite take_app_length, trim_plain by apply label_plain.
    by rewrite bool_decide_eq_false_2.
  - intros a1 [|x a2] Heq ?; [done|]. cbn [app starts_with]. rewrite bool_decide_eq_false_2; [done|].
    intros <-. rewrite Heq, forallb_app in Hnum. apply andb_true_iff in Hnum as [_ Hx].
    cbn in Hx. done.
Qed.
End command.

(** C32: the documented command is read back.  For every decimal percent with at most two
    fractional digits whose basis points fit in 32 bits, the parser accepts the
    documented English command with it, and returns this threshold, the label as
    typed, a quarter of a dollar and three minutes. *)
Theorem order_command_roundtrip `{DebugText} label int_part frac :
  decimal_text label int_part frac → int_part ≠ [] → (length frac ≤ 2)%nat →
  is_u 32 (percent_value int_part frac) →
  parse_w5h_chat_command (bytes_str (order_command label)) =
  Ok (MkW5hParsed (percent_value int_part frac) (bytes_str label) 250000 180).
Proof.
  intros Hd Hne Hlen Hr. pose proof (decimal_number _ _ _ Hd) as Hnum.
  assert (∃ b l, label = b :: l ∧ is_ascii_digit b = true) as Hfirst.
  { destruct Hd as (Hi & _ & _ & Hl). destruct int_part as [|b ip]; [done|].
    apply andb_true_iff in Hi as [Hb _]. by destruct Hl as [[-> _]| ->]; eauto. }
  unfold parse_w5h_chat_command. rewrite String.list_byte_of_string_of_list_byte.
  rewrite lower_command, norm_normal, norm_amount, norm_expiry, norm_threshold;
    try (done || apply Hd).
  set (norm := (to_ascii_lowercase command_head ++ label ++ to_ascii_lowercase command_rest)%list).
  assert (contains_str (str_bytes "solend") norm = true) as -> by (apply contains_app_l; by vm_compute).
  assert (contains_str (str_bytes "0.25 usdc") norm = true) as ->
    by (apply contains_app_r, contains_app_r; by vm_compute).
  rewrite orb_true_r. cbn [negb orb throw_if mbind result_bind ok_or].
  rewrite bool_decide_eq_true_2 by done. cbn [negb throw_if mbind result_bind].
  destruct Hfirst as (b & l & Hlabel & Hb).
  rewrite Hlabel at 1. assert (starts_with (str_bytes "-") (b :: l) = false) as ->.
  { cbn [str_bytes String.list_byte_of_string map]. by destruct b. }
  cbn [throw_if mbind result_bind]. by rewrite (order_percent _ _ _ Hd).
Qed.

(** ** The scan terminates *)

(** C33: the scan for an amount ends on every text: with one round more than the bytes
    it does not run out of rounds, so it gives a result, and with more rounds it gives
    the same. *)
Theorem amount_scan_terminates s n : (length s < n)%nat →
  find_amount_from n s 0 = Some (find_explicit_amount_usdc s).
Proof.
  assert (∀ n i, (length s - i < n)%nat → ∃ r, ∀ m, (length s - i < m)%nat →
    find_amount_from m s i = Some r) as Hend.
  { clear n. induction n as [|n IH]; intros i Hn; [lia|].
    destruct (s !! i) as [b|] eqn:Hb.
    2: { exists (Ok None). intros [|m] Hm; [lia|]. cbn. by rewrite Hb. }
    pose proof (lookup_lt_Some _ _ _ Hb) as Hi.
    assert (∀ i', (i < i')%nat → ∃ r, ∀ m, (length s - i < S m)%nat →
      find_amount_from m s i' = Some r) as Hnext.
    { intros i' ?. destruct (IH i') as [r Hr]; [lia|]. exists r. intros m Hm. apply Hr. lia. }
    assert (∃ r, ∀ m, (length s - i < S m)%nat → find_amount_from (S m) s i = Some r) as [r Hr].
    2: { exists r. intros [|m] Hm; [lia|by apply Hr]. }
    cbn [find_amount_from]. rewrite Hb. destruct (negb (is_ascii_digit b)) eqn:Hd; [apply Hnext; lia|].
    pose proof (number_length_pos _ _ _ Hb Hd) as Hpos. case_match; [|apply Hnext; lia].
    destruct (four_at s _) as [u|e]; [|by exists (Err e)].
    destruct (bool_decide (u = _)); [by eexists|apply Hnext; lia]. }
  intros Hn. destruct (Hend n 0%nat) as [r Hr]; [lia|]. unfold find_explicit_amount_usdc.
  rewrite !Hr by lia. done.
Qed.

Lemma amount_scan_terminates_witness :
  find_amount_from 100 (str_bytes "deposit 0.25 usdc") 0 = Some (Ok (Some (str_bytes "0.25"))).
Proof.
  rewrite (amount_scan_terminates (str_bytes "deposit 0.25 usdc") 100).
  - vm_compute. reflexivity.
  - apply Nat.ltb_lt. vm_compute. reflexivity.
Defined.

(** ** The documented command, evaluated *)
Definition plain_debug : DebugText := λ s, bytes_str s.

Lemma order_command_roundtrip_witness :
  parse_w5h_chat_command (H := plain_debug)
    "If Solend Main Pool USDC deposit APY is above 4.75%, deposit 0.25 USDC from my wallet, expires in 3 minutes."
  = Ok (MkW5hParsed 475 "4.75" 250000 180).
Proof.
  apply (order_command_roundtrip (H := plain_debug) (str_bytes "4.75") (str_bytes "4") (str_bytes "75")).
  - unfold decimal_text. repeat split; try (vm_compute; reflexivity).
    + discriminate.
    + right. vm_compute. reflexivity.
  - discriminate.
  - vm_compute. lia.
  - vm_compute. split; congruence.
Defined.

(** ** Surprises *)

(** A three-minute order in Chinese makes the scan slice a character. *)
Lemma chinese_command_panics `{DebugText} :
  parse_w5h_chat_command "如果 有效期 3 分鐘 Save APY > 1%, deposit 0.25 USDC" = Err Panic.
Proof. vm_compute. reflexivity. Qed.

(** A sign is read in the fractional part. *)
Lemma signed_fraction_read `{DebugText} :
  OrderCommand.decimal_percent_to_bps (str_bytes "5.+1") = Ok 501.
Proof. vm_compute. reflexivity. Qed.

(** Only the first amount is checked. *)
Lemma second_amount_ignored `{DebugText} :
  parse_w5h_chat_command "If Save USDC APY > 1%, deposit 0.25 USDC and 5 USDC" =
  Ok (MkW5hParsed 100 "1" 250000 180).
Proof. vm_compute. reflexivity. Qed.

(** A longer amount that starts with the supported one is taken for it. *)
Lemma longer_amount_accepted :
  DemoCommand.parse_demo_command
    "If Solend Main Pool USDC deposit APR is above 1%, deposit 0.255 USDC from my bounded executor wallet into Solend."
  = Ok (DemoCommand.MkDemoParsed 100 "1" 250000).
Proof. vm_compute. reflexivity. Qed.

(** * Runs of draft orders

    A codec for the preimages, one draft through its store. *)

(** ** A codec *)
#[local] Instance json_value_eq_dec : EqDecision JsonValue.
Proof. solve_decision. Defined.
#[local] Instance json_value_countable : Countable JsonValue.
Proof.
  apply (inj_countable'
    (λ v, match v with JString s => inl s | JNumber n => inr n end)
    (λ v, match v with inl s => JString s | inr n => JNumber n end)).
  by intros [].
Defined.

Fixpoint pos_bytes (p : positive) : list byte :=
  match p with
  | xI p => Byte.x31 :: pos_bytes p
  | xO p => Byte.x30 :: pos_bytes p
  | xH => []
  end.
Fixpoint bytes_pos (l : list byte) : positive :=
  match l with
  | [] => xH
  | b :: l => if bool_decide (b = Byte.x31) then xI (bytes_pos l) else xO (bytes_pos l)
  end.
Lemma bytes_pos_bytes p : bytes_pos (pos_bytes p) = p.
Proof. induction p as [p IH|p IH|]; cbn; by rewrite ?IH. Qed.

#[local] Instance binary_json : CanonicalJson := {|
  json_to_vec m := pos_bytes (encode m);
  json_from_slice l := decode (bytes_pos l)
|}.
#[local] Instance binary_json_laws : CanonicalJsonLaws.
Proof. intros m _. cbn. by rewrite bytes_pos_bytes, decode_encode. Qed.

#[local] Existing Instance demo_crates.

(** ** One draft *)
Definition empty_store : DraftIntentStore := MkStore ∅ DEFAULT_DRAFT_TTL_SECONDS.
Definition demo_consume : DraftConsumeOutcome * DraftIntentStore :=
  consume_if_match 2000 "session" "draft" (compute_hash (demo_draft "draft"))
    (insert_draft 1000 (demo_draft "draft") empty_store).2.

Lemma demo_consume_eq : demo_consume.1 = Consumed (demo_draft "draft").
Proof.
  unfold demo_consume, consume_if_match. cbn [insert_draft put snd ds_by_key draft_key].
  change (di_session_id_hex _, di_draft_id _) with ("session", "draft").
  rewrite lookup_insert_eq. change (_ <=? 2000) with false. cbv iota beta. cbn [sd_draft].
  by rewrite bool_decide_eq_true_2.
Qed.

(** The draft is confirmed under its hash, a second later. *)
Lemma draft_confirmed_once_witness :
  ∃ t, last_touch ("session", "draft") [EvInsert 1000 (demo_draft "draft")] =
         Some (EvInsert t (demo_draft "draft")) ∧
    draft_key (demo_draft "draft") = ("session", "draft") ∧
    2000 < after_seconds t 900 ∧
    compute_hash (demo_draft "draft") = compute_hash (demo_draft "draft").
Proof.
  apply (draft_confirmed_once 900 demo_consume.2 [EvInsert 1000 (demo_draft "draft")] 2000
    ("session", "draft") (compute_hash (demo_draft "draft")) (Consumed (demo_draft "draft"))).
  rewrite <- demo_consume_eq. apply dh_consume.
  apply (dh_insert 900 empty_store). by apply dh_new.
Defined.

Lemma demo_preimage_typed id : preimage_typed (canonical_preimage (demo_draft id)).
Proof.
  split; [by repeat (apply Forall_cons; split; [by vm_compute|])|..];
    cbn; unfold is_u; cbv; split; congruence.
Qed.

(** Two drafts of one order have one hash, and one set of terms. *)
Lemma draft_hash_binds_terms_witness :
  canonical_preimage (demo_draft "a") = canonical_preimage (demo_draft "b") ∨
  preimage_bytes (demo_draft "a") ≠ preimage_bytes (demo_draft "b") ∧
  sha256 (preimage_bytes (demo_draft "a")) = sha256 (preimage_bytes (demo_draft "b")).
Proof.
  apply (draft_hash_binds_terms (demo_draft "a") (demo_draft "b")).
  - apply demo_preimage_typed.
  - apply demo_preimage_typed.
  - reflexivity.
Defined.

(** ** Labels *)
Lemma threshold_label_roundtrip_witness :
  OrderCommand.decimal_percent_to_bps (H := plain_debug) (str_bytes "4.05") = Ok 405 ∧
  DemoCommand.decimal_percent_to_bps (str_bytes "4.05") = Ok 405.
Proof.
  apply (threshold_label_roundtrip (H := plain_debug) 405). vm_compute. split; congruence.
Defined.
