(* ===== verification/SdkTypes.v ===== *)
(** * Transactions of the crate [solana_sdk]

    The public data of legacy and versioned transactions, which the gateway builds,
    stores and compares, and the crate's functions on them, which are parameters. *)
From S2P Require Import Prelude Solana.
#[local] Open Scope Z_scope.

(** ** Legacy transactions *)
Record CompiledInstruction := MkCompiled {
  cx_program_id_index : Z;
  cx_accounts : list Z;
  cx_data : list byte
}.
Record MessageHeader := MkHeader {
  num_required_signatures : Z;
  num_readonly_signed_accounts : Z;
  num_readonly_unsigned_accounts : Z
}.
Record Message := MkMessage {
  header : MessageHeader;
  account_keys : list Pubkey;
  recent_blockhash : list byte;
  msg_instructions : list CompiledInstruction
}.
Notation Signature := (list byte) (only parsing).
Record Transaction := MkTransaction {
  signatures : list Signature;
  message : Message
}.

(** ** Versioned transactions *)
Record MessageAddressTableLookup := MkLookup {
  lk_account_key : Pubkey;
  lk_writable_indexes : list Z;
  lk_readonly_indexes : list Z
}.
Record MessageV0 := MkMessageV0 {
  v0_header : MessageHeader;
  v0_account_keys : list Pubkey;
  v0_recent_blockhash : list byte;
  v0_instructions : list CompiledInstruction;
  v0_lookups : list MessageAddressTableLookup
}.
Inductive VersionedMessage := LegacyMessage (m : Message) | V0Message (m : MessageV0).
Record VersionedTransaction := MkVersioned {
  vt_signatures : list Signature;
  vt_message : VersionedMessage
}.

#[export] Instance compiled_eq_dec : EqDecision CompiledInstruction.
Proof. solve_decision. Defined.
#[export] Instance header_eq_dec : EqDecision MessageHeader.
Proof. solve_decision. Defined.
#[export] Instance message_eq_dec : EqDecision Message.
Proof. solve_decision. Defined.
#[export] Instance transaction_eq_dec : EqDecision Transaction.
Proof. solve_decision. Defined.

Definition is_v0 (m : VersionedMessage) : bool :=
  match m with V0Message _ => true | LegacyMessage _ => false end.
Definition static_account_keys (m : VersionedMessage) : list Pubkey :=
  match m with LegacyMessage m => account_keys m | V0Message m => v0_account_keys m end.
Definition vm_instructions (m : VersionedMessage) : list CompiledInstruction :=
  match m with LegacyMessage m => msg_instructions m | V0Message m => v0_instructions m end.
Definition vm_blockhash (m : VersionedMessage) : list byte :=
  match m with LegacyMessage m => recent_blockhash m | V0Message m => v0_recent_blockhash m end.
Definition vm_header (m : VersionedMessage) : MessageHeader :=
  match m with LegacyMessage m => header m | V0Message m => v0_header m end.

Definition set_blockhash (h : list byte) (tx : Transaction) : Transaction :=
  let m := message tx in
  MkTransaction (signatures tx)
    (MkMessage (header m) (account_keys m) h (msg_instructions m)).
Definition set_message (m : Message) (tx : Transaction) : Transaction :=
  MkTransaction (signatures tx) m.

(** [keys.get(i as usize)] of an index that is a byte. *)
Definition key_at (keys : list Pubkey) (i : Z) : option Pubkey := keys !! Z.to_nat i.

(** [Signature::default()] *)
Definition default_signature : Signature := replicate 64 (byte_of 0).

(** ** The crate's functions *)
Class Sdk := {
  (** [bincode::deserialize] and [bincode::serialize] *)
  tx_from_bytes : list byte → Result string Transaction;
  tx_to_bytes : Transaction → Result string (list byte);
  vtx_from_bytes : list byte → Result string VersionedTransaction;
  vtx_to_bytes : VersionedTransaction → Result string (list byte);
  (** [Message::new], [is_signer], [is_maybe_writable], [serialize] *)
  message_new : list Instruction → option Pubkey → Message;
  msg_is_signer : Message → nat → bool;
  msg_is_maybe_writable : Message → nat → bool;
  message_bytes : VersionedMessage → list byte;
  (** [ComputeBudgetInstruction::set_compute_unit_limit] and [.._price] *)
  set_compute_unit_limit : Z → Instruction;
  set_compute_unit_price : Z → Instruction;
  compute_budget_id : Pubkey;
  (** The signature of a key's pair on bytes, and its check. *)
  sign_message : Pubkey → list byte → Signature;
  sig_verify : Signature → Pubkey → list byte → bool;
  (** [partial_sign] with the pair of a key, at the message's own blockhash; or a panic *)
  partial_sign : Pubkey → Transaction → option Transaction;
  (** The texts of keys and signatures. *)
  show_pubkey : Pubkey → string;
  parse_pubkey : string → Result string Pubkey;
  show_signature : Signature → string
}.

(** *** What an instruction says, its indices resolved *)
Record Resolved := MkResolved {
  rs_program : option Pubkey;
  rs_accounts : list (option Pubkey);
  rs_data : list byte
}.
Definition resolve (keys : list Pubkey) (ix : CompiledInstruction) : Resolved :=
  MkResolved (key_at keys (cx_program_id_index ix)) (map (key_at keys) (cx_accounts ix)) (cx_data ix).
Definition resolved (m : Message) : list Resolved :=
  map (resolve (account_keys m)) (msg_instructions m).
Definition resolved_of (ix : Instruction) : Resolved :=
  MkResolved (Some (ix_program_id ix)) (map (λ a, Some (meta_key a)) (ix_accounts ix)) (ix_data ix).

(** The accounts that a message of these instructions has to name. *)
Definition keys_of (ixs : list Instruction) (payer : option Pubkey) : list Pubkey :=
  remove_dups (option_list payer ++ mjoin (map (λ ix, ix_program_id ix :: map meta_key (ix_accounts ix)) ixs)).

(** Documented behaviour: what is written is read back, and not as version 0 unless the
    first bit of the message is set; a message compiled of instructions over at most
    256 accounts resolves to them and names these accounts; the budget instructions
    are of the budget program and name no accounts, the limit being five bytes that begin with 2; a
    signature of the pair of a key verifies under the key; signing puts it at the
    key's place among the required signers and leaves the message alone. *)
Class SdkLaws `{Sdk} : Prop := {
  tx_roundtrip tx bs : tx_to_bytes tx = Ok bs → tx_from_bytes bs = Ok tx;
  legacy_bytes tx bs vtx : tx_to_bytes tx = Ok bs →
    num_required_signatures (header (message tx)) < 128 →
    vtx_from_bytes bs = Ok vtx → is_v0 (vt_message vtx) = false;
  message_new_keys ixs payer k : (length (keys_of ixs payer) ≤ 256)%nat →
    k ∈ account_keys (message_new ixs payer) → k ∈ keys_of ixs payer;
  message_new_resolves ixs payer : (length (keys_of ixs payer) ≤ 256)%nat →
    resolved (message_new ixs payer) = map resolved_of ixs;
  limit_program n : ix_program_id (set_compute_unit_limit n) = compute_budget_id;
  limit_accounts n : ix_accounts (set_compute_unit_limit n) = [];
  limit_data n : length (ix_data (set_compute_unit_limit n)) = 5%nat ∧
    head (ix_data (set_compute_unit_limit n)) = Some (byte_of 2);
  price_program n : ix_program_id (set_compute_unit_price n) = compute_budget_id;
  price_accounts n : ix_accounts (set_compute_unit_price n) = [];
  sign_verifies key bs : sig_verify (sign_message key bs) key bs = true;
  partial_sign_spec key tx tx' : partial_sign key tx = Some tx' →
    message tx' = message tx ∧
    ∃ i, take (Z.to_nat (num_required_signatures (header (message tx)))) (account_keys (message tx)) !! i
           = Some key ∧
      signatures tx' = <[i := sign_message key (message_bytes (LegacyMessage (message tx)))]> (signatures tx)
}.
