(* ===== verification/ComputeBudget.v ===== *)
(** * The compute budget of a transaction

    solana-core/compute.rs: the instructions that are put in front of a submitted
    transaction, and the limit that is tightened after a simulation; and that both leave the other instructions alone. *)
From S2P Require Import Prelude Solana Float64 SdkTypes.
#[local] Open Scope Z_scope.

Definition DEFAULT_COMPUTE_UNITS : Z := 200000.
(** 1.1 and 0.1, to the nearest double. *)
Definition CU_HEADROOM_FACTOR : f64 := S754_finite false 4953959590107546 (-52).
Definition TWO_PASS_THRESHOLD : f64 := S754_finite false 7205759403792794 (-56).

(** [x.clamp(lo, hi)] *)
Definition clamp (lo hi x : Z) : Z := Z.min hi (Z.max lo x).

Definition compute_limit_from_simulation (simulated_units : Z) : Z :=
  let with_headroom := f64_as_u64 (f64_mul (f64_of_Z false simulated_units) CU_HEADROOM_FACTOR) in
  wrap 32 (clamp 1000 1400000 with_headroom).

Definition should_tighten (current_limit derived_limit : Z) : bool :=
  let savings := SFdiv 53 1024 (f64_of_Z false (Z.max 0 (current_limit - derived_limit)))
                   (f64_of_Z false current_limit) in
  SFltb TWO_PASS_THRESHOLD savings.

Section budget.
Context `{Sdk}.

Definition is_set_compute_unit_limit_data (data : list byte) : bool :=
  (length data =? 5)%nat && bool_decide (head data = Some (byte_of 2)).

Definition has_compute_budget_instructions (tx : Transaction) : bool :=
  existsb (λ ix, bool_decide (key_at (account_keys (message tx)) (cx_program_id_index ix) =
                              Some compute_budget_id))
    (msg_instructions (message tx)).

(** One instruction decompiled; an index out of range panics. *)
Definition account_meta (m : Message) (idx : Z) : option AccountMeta :=
  pubkey ← key_at (account_keys m) idx;
  Some (MkMeta pubkey (msg_is_signer m (Z.to_nat idx)) (msg_is_maybe_writable m (Z.to_nat idx))).
Definition decompile (m : Message) (ix : CompiledInstruction) : option Instruction :=
  program_id ← key_at (account_keys m) (cx_program_id_index ix);
  accounts ← mapM (account_meta m) (cx_accounts ix);
  Some (MkInstruction program_id accounts (cx_data ix)).

Definition prepend_compute_budget (tx : Transaction) (compute_unit_limit price : Z) :
    option (bool * Transaction) :=
  if has_compute_budget_instructions tx then Some (false, tx)
  else
    let payer := head (account_keys (message tx)) in
    original ← mapM (decompile (message tx)) (msg_instructions (message tx));
    let new_instructions :=
      (set_compute_unit_limit compute_unit_limit ::
       (if 0 <? price then [set_compute_unit_price price] else []) ++ original)%list in
    Some (true, set_message (message_new new_instructions payer) tx).

(** One instruction of the rebuilt message, and whether it was the limit. *)
Definition replaced (m : Message) (new_limit : Z) (ix : CompiledInstruction) :
    option (bool * Instruction) :=
  program_id ← key_at (account_keys m) (cx_program_id_index ix);
  if bool_decide (program_id = compute_budget_id) && is_set_compute_unit_limit_data (cx_data ix)
  then Some (true, set_compute_unit_limit new_limit)
  else ix ← decompile m ix; Some (false, ix).

Definition replace_compute_unit_limit (tx : Transaction) (new_limit : Z) :
    option (bool * Transaction) :=
  let m := message tx in
  new_instructions ← mapM (replaced m new_limit) (msg_instructions m);
  let found := existsb fst new_instructions in
  Some (found,
    if found then
      set_blockhash (recent_blockhash m)
        (set_message (message_new (map snd new_instructions) (head (account_keys m))) tx)
    else tx).
End budget.

(** * What a compute budget leaves alone

    Prepending a budget, refreshing the blockhash and tightening the limit change only
    the instructions of the budget program. *)

Section facts.
Context `{SdkLaws}.
Implicit Types (tx : Transaction) (m : Message) (ix : CompiledInstruction) (base : list Pubkey).

(** What a transaction does, apart from its budget. *)
Definition of_budget (r : Resolved) : bool := bool_decide (rs_program r = Some compute_budget_id).
Definition without_budget (l : list Resolved) : list Resolved :=
  List.filter (λ r, negb (of_budget r)) l.
Definition payload tx : list Resolved := without_budget (resolved (message tx)).

(** ** Decompiling *)
Lemma account_meta_key m i a : account_meta m i = Some a → key_at (account_keys m) i = Some (meta_key a).
Proof. unfold account_meta. destruct (key_at _ i); [|done]. by intros [= <-]. Qed.

Lemma decompile_resolves m ix inst : decompile m ix = Some inst →
  resolved_of inst = resolve (account_keys m) ix.
Proof.
  unfold decompile, resolved_of, resolve.
  destruct (key_at _ (cx_program_id_index ix)) as [k|]; cbn [mbind option_bind]; [|done].
  destruct (mapM _ (cx_accounts ix)) as [metas|] eqn:Hm; [|done].
  intros [= <-]. cbn. f_equal. apply mapM_Some_1 in Hm.
  induction Hm as [|i a idxs metas Ha%account_meta_key Hm IH]; [done|]. cbn. by rewrite IH, Ha.
Qed.

Definition names (inst : Instruction) : list Pubkey := ix_program_id inst :: map meta_key (ix_accounts inst).

Lemma decompile_names m ix inst k : decompile m ix = Some inst → k ∈ names inst → k ∈ account_keys m.
Proof.
  unfold decompile. destruct (key_at _ _) as [p|] eqn:Hp; cbn [mbind option_bind]; [|done].
  destruct (mapM _ (cx_accounts ix)) as [metas|] eqn:Hm; [|done]. intros [= <-]. unfold names. cbn.
  intros [->|Hk]%elem_of_cons; [by eapply list_elem_of_lookup_2|]. apply mapM_Some_1 in Hm.
  induction Hm as [|i a idxs metas Ha%account_meta_key Hm IH]; [by apply not_elem_of_nil in Hk|].
  apply elem_of_cons in Hk as [->|Hk]; [by eapply list_elem_of_lookup_2|by apply IH].
Qed.

(** ** Compiling *)

(** Everything a transaction and its budget name. *)
Definition within base tx : Prop := compute_budget_id ∈ base ∧ ∀ k, k ∈ account_keys (message tx) → k ∈ base.

Lemma compiled base tx insts : (length base ≤ 256)%nat → within base tx →
  (∀ inst k, inst ∈ insts → k ∈ names inst → k ∈ base) →
  let m := message_new insts (head (account_keys (message tx))) in
  resolved m = map resolved_of insts ∧ within base (set_message m tx).
Proof.
  intros Hlen [Hb Hw] Hin m.
  assert (∀ k, k ∈ keys_of insts (head (account_keys (message tx))) → k ∈ base) as Hk.
  { unfold keys_of. intros k Hk. rewrite elem_of_remove_dups in Hk. apply elem_of_app in Hk as [Hk|Hk].
    - destruct (account_keys (message tx)) as [|p ks] eqn:Hks; [by apply not_elem_of_nil in Hk|].
      apply list_elem_of_singleton in Hk as ->. apply Hw. by left.
    - apply list_elem_of_join in Hk as (ks & Hk & Hks).
      apply list_elem_of_In, in_map_iff in Hks as (inst & <- & Hinst%list_elem_of_In). by eapply Hin. }
  assert (length (keys_of insts (head (account_keys (message tx)))) ≤ 256)%nat as Hl.
  { etransitivity; [|exact Hlen]. apply submseteq_length, NoDup_submseteq; [apply NoDup_remove_dups|done]. }
  split; [by apply message_new_resolves|]. split; [done|]. cbn. intros k Hin'.
  by apply Hk, (message_new_keys _ _ _ Hl).
Qed.

(** The budget's own instructions. *)
Definition budget_inst (inst : Instruction) : Prop :=
  ix_program_id inst = compute_budget_id ∧ ix_accounts inst = [].
Lemma limit_inst n : budget_inst (set_compute_unit_limit n).
Proof. split; [apply limit_program|apply limit_accounts]. Qed.
Lemma price_inst n : budget_inst (set_compute_unit_price n).
Proof. split; [apply price_program|apply price_accounts]. Qed.
Lemma budget_names inst k : budget_inst inst → k ∈ names inst → k = compute_budget_id.
Proof. intros [Hp Ha]. unfold names. rewrite Hp, Ha. by intros ->%list_elem_of_singleton. Qed.
Lemma filtered r l : rs_program r = Some compute_budget_id →
  without_budget (r :: l) = without_budget l.
Proof.
  intros Hr. unfold without_budget. cbn [List.filter].
  assert (of_budget r = true) as -> by (by apply bool_decide_eq_true). done.
Qed.
Lemma budget_filtered inst l : budget_inst inst →
  without_budget (resolved_of inst :: l) = without_budget l.
Proof. intros [Hp _]. apply filtered. cbn. by rewrite Hp. Qed.

Lemma decompiled_all m insts : mapM (decompile m) (msg_instructions m) = Some insts →
  map resolved_of insts = resolved m ∧ ∀ inst k, inst ∈ insts → k ∈ names inst → k ∈ account_keys m.
Proof.
  unfold resolved. intros Hm%mapM_Some_1.
  induction Hm as [|ix inst ixs insts Hd Hm [IH1 IH2]]; [split; [done|by intros ? ? ?%not_elem_of_nil]|].
  split; [cbn; by rewrite IH1, (decompile_resolves _ _ _ Hd)|].
  intros inst' k [->|Hin]%elem_of_cons; [by eapply decompile_names|by apply IH2].
Qed.

(** ** The three changes *)
Lemma prepend_payload base tx n price b tx' : (length base ≤ 256)%nat → within base tx →
  prepend_compute_budget tx n price = Some (b, tx') → payload tx' = payload tx ∧ within base tx'.
Proof.
  intros Hlen Hw. unfold prepend_compute_budget. destruct (has_compute_budget_instructions tx);
    [by intros [= <- <-]|].
  destruct (mapM _ _) as [insts|] eqn:Hm; [|done]. apply decompiled_all in Hm as [Hres Hnames].
  cbn [mbind option_bind]. intros [= <- <-].
  match goal with |- context [message_new ?is0 _] => set (all := is0) end.
  destruct (compiled base tx all Hlen Hw) as [Hr Hw'].
  - intros inst k Hin Hk. destruct Hw as [Hb Hw].
    assert (budget_inst inst ∨ inst ∈ insts) as [Hbi|Hi]; [|by rewrite (budget_names _ _ Hbi Hk)|
      by eapply Hw, Hnames].
    unfold all in Hin. apply elem_of_cons in Hin as [->|Hin]; [left; apply limit_inst|].
    apply elem_of_app in Hin as [Hin|Hin]; [left|by right].
    destruct (0 <? price); [|by apply not_elem_of_nil in Hin].
    apply list_elem_of_singleton in Hin as ->. apply price_inst.
  - split; [|done]. unfold payload. cbn [set_message message]. rewrite Hr. unfold all.
    rewrite map_cons, budget_filtered by apply limit_inst. rewrite map_app, Hres.
    destruct (0 <? price); cbn [map app]; [|done]. by rewrite budget_filtered by apply price_inst.
Qed.

Lemma blockhash_payload base tx h : payload (set_blockhash h tx) = payload tx ∧
  (within base tx → within base (set_blockhash h tx)).
Proof. done. Qed.

Lemma replaced_all m n insts : mapM (replaced m n) (msg_instructions m) = Some insts →
  without_budget (map resolved_of (map snd insts)) = without_budget (resolved m) ∧
  ∀ inst k, inst ∈ map snd insts → k ∈ names inst → k = compute_budget_id ∨ k ∈ account_keys m.
Proof.
  unfold resolved. intros Hm%mapM_Some_1.
  induction Hm as [|ix [b inst] ixs insts Hd Hm [IH1 IH2]]; [split; [done|by intros ? ? ?%not_elem_of_nil]|].
  unfold replaced in Hd. destruct (key_at _ _) as [p|] eqn:Hp; cbn [mbind option_bind] in Hd; [|done].
  destruct (bool_decide (p = compute_budget_id) && _) eqn:Hlim.
  - injection Hd as <- <-. apply andb_true_iff in Hlim as [->%bool_decide_eq_true _]. split.
    + cbn [map snd]. rewrite budget_filtered by apply limit_inst. by rewrite filtered.
    + intros inst' k [->|Hin]%elem_of_cons Hk; [|by eapply IH2]. left. by eapply budget_names, Hk; apply limit_inst.
  - destruct (decompile m ix) as [i|] eqn:Hdec; [|done]. injection Hd as <- <-. split.
    + cbn [map snd]. rewrite (decompile_resolves _ _ _ Hdec). unfold without_budget in *. cbn [List.filter].
      by rewrite IH1.
    + intros inst' k [->|Hin]%elem_of_cons Hk; [|by eapply IH2]. right. by eapply decompile_names.
Qed.

(** Without a limit to replace the transaction stays as it is. *)
Lemma replace_absent tx n tx' : replace_compute_unit_limit tx n = Some (false, tx') → tx' = tx.
Proof.
  unfold replace_compute_unit_limit. destruct (mapM _ _); [|done]. cbn [mbind option_bind].
  intros [= Hf Ht]. by rewrite Hf in Ht.
Qed.
Lemma replace_payload base tx n b tx' : (length base ≤ 256)%nat → within base tx →
  replace_compute_unit_limit tx n = Some (b, tx') → payload tx' = payload tx ∧ within base tx'.
Proof.
  intros Hlen Hw. unfold replace_compute_unit_limit.
  destruct (mapM _ _) as [insts|] eqn:Hm; [|done]. apply replaced_all in Hm as [Hres Hnames].
  cbn [mbind option_bind]. intros [= <- <-]. destruct (existsb _ _); [|done].
  destruct (compiled base tx (map snd insts) Hlen Hw) as [Hr Hw'].
  - intros inst k Hin Hk. destruct Hw as [Hb Hw]. destruct (Hnames _ _ Hin Hk) as [->|?]; [done|by apply Hw].
  - split; [|by apply blockhash_payload]. unfold payload. cbn [set_blockhash set_message message].
    unfold resolved in *. cbn [account_keys msg_instructions]. by rewrite Hr.
Qed.
End facts.
