(* ===== verification/SigningEvents.v ===== *)
(** * What the signing path asks of the outside

    The data that crosses the seams of tools/signing.rs, wallet-engine/pipeline.rs,
    orchestrator/ and the wallet handler of daemon.rs, and the events of their
    programs: RPC calls, the database, the shared in-memory stores, the keys, and the
    audit log and event bus. *)
From S2P Require Import Prelude Interaction Solana SdkTypes RuleStore Approval ApprovalStore.
From S2P Require PolicyEngine.
#[local] Open Scope string_scope.
#[local] Open Scope Z_scope.

Notation TransactionProposal := PolicyEngine.TransactionProposal.
Notation SimulationResult := PolicyEngine.SimulationResult.
Notation PolicyRule := PolicyEngine.PolicyRule.

(** ** Simulation (solana-core/simulation.rs) *)
Record SimulationOutput := MkOutput {
  so_success : bool;
  so_error : option string;
  so_compute_units_used : option Z;
  so_logs : list string;
  so_return_data : option string;
  so_fee_lamports : option Z;
  so_account_diffs : list PolicyEngine.AccountDiff
}.
Definition into_result (o : SimulationOutput) : SimulationResult :=
  PolicyEngine.MkSimulation (so_success o) (so_error o) (so_compute_units_used o) (so_logs o)
    (so_return_data o) (so_account_diffs o) (so_fee_lamports o).

(** The answer of the node: the debug text of the error, the logs, the data. *)
Record SimulationValue := MkSimulationValue {
  sv_err : option string;
  sv_logs : option (list string);
  sv_return_data : option string
}.

(** ** Parked approvals (pending_signing.rs) *)
Record ParkedApproval := MkParked {
  pk_proposal : TransactionProposal;
  pk_tx_bytes : list byte;
  pk_simulation : SimulationResult;
  pk_policy_verdict : PolicyVerdict;
  pk_last_valid_block_height : Z
}.

(** What the waiting task reads of its channel within the lease. *)
Inductive Awaited := Decided (state : ApprovalWorkflowState) | ChannelDropped | LeaseElapsed.

(** ** Signature orchestration (orchestrator/types.rs) *)
Record SignatureRequest := MkSignatureRequest {
  sq_id : Uuid;
  sq_session_id : Uuid;
  sq_transaction_id : Uuid;
  sq_finalized_tx_bytes : list byte;
  sq_expected_signer : Pubkey;
  sq_description : string
}.

Inductive SignatureOutcome :=
| Signed (request_id : Uuid) (signature : string) (signed_tx_bytes : list byte)
    (adapter_type : string) (transaction_id : Uuid) (expected_signer : string)
| SignaturePending (request_id : Uuid) (adapter_type : string) (finalized_tx_bytes : list byte).

Inductive SignatureError :=
| NoAdapter
| DuplicateRequestId
| SigningFailed (message : string)
| VerificationFailed (message : string)
| BlockhashModified
| RequestNotFound
| InvalidTransaction (message : string).
Definition show_signature_error (e : SignatureError) : string :=
  match e with
  | NoAdapter => "no wallet adapter supports this request"
  | DuplicateRequestId => "duplicate signature request ID"
  | SigningFailed m => "signing failed: " +:+ m
  | VerificationFailed m => "verification failed: " +:+ m
  | RequestNotFound => "no pending request with this ID"
  | InvalidTransaction m => "invalid transaction bytes: " +:+ m
  | BlockhashModified =>
      "wallet modified blockhash; rebuild required — resubmit a fresh JIT build from the approved intent"
  end.

Record PendingEntry := MkPendingEntry {
  pn_request : SignatureRequest;
  pn_adapter_type : string
}.

(** completion_metadata.rs *)
Record CompletionMeta := MkMeta {
  cm_fee_lamports : option Z;
  cm_last_valid_block_height : option Z
}.

(** ** Announcements (types/events.rs), without their headers *)
Inductive TransactionStatus := StSigned | StSent | StAwaitingApproval.
Inductive GatewayEvent :=
| ApprovalRequested (session request transaction : Uuid)
| TransactionSigned (session transaction : Uuid) (wallet signature : string)
| TransactionSent (session transaction : Uuid) (wallet signature : string)
| TransactionFailed (session transaction : Uuid) (wallet error : string)
    (at_stage : TransactionStatus)
| WalletSignatureRequested (session request transaction : Uuid) (wallet : string)
| WalletSignatureReceived (session request transaction : Uuid) (wallet : string)
| WalletSignatureRejected (session request : Uuid) (error : string).

(** ** Rows of the durable copy (durable_pending.rs) *)
Record ApprovalRow := MkApprovalRow {
  aw_request_id : Uuid;
  aw_approval : ApprovalRequest;
  aw_proposal : TransactionProposal;
  aw_tx_bytes : list byte;
  aw_simulation : SimulationResult;
  aw_policy_verdict : PolicyVerdict
}.
Record SignatureRow := MkSignatureRow {
  sw_request_id : Uuid;
  sw_session_id : Uuid;
  sw_transaction_id : Uuid;
  sw_expected_signer : string;
  sw_description : string;
  sw_finalized_tx_bytes : list byte;
  sw_adapter_type : string;
  sw_fee_lamports : option Z
}.
Record TrackingRow := MkTrackingRow {
  tr_signature : string;
  tr_transaction_id : Uuid;
  tr_request_id : Uuid;
  tr_session : Uuid;
  tr_wallet : string;
  tr_last_valid_block_height : Z;
  tr_submission_block_height : Z
}.

(** What the resume task is started with. *)
Record ResumeArgs := MkResume {
  ra_channel : nat;
  ra_request_id : Uuid;
  ra_proposal : TransactionProposal;
  ra_session_id : Uuid;
  ra_wallet_pubkey : string;
  ra_lease_seconds : Z
}.

(** ** Events *)
Section events.
Context `{PolicyEngine.Chrono}.

Inductive SignEvent :=
(* clocks, ids, the database, the node *)
| NewUuid
| UtcNow
| PolicyClock
| Today
| WalletDailySpend (wallet day : string)
| SessionSpend (session : Uuid)
| RecordSpend (wallet : string) (session transaction : Uuid) (fee : Z)
| GetPriorityFees (accounts : list string)
| GetBlockhash
| SimulateRpc (tx : Transaction)
| SendRaw (bytes : list byte)
| SendRawV0 (bytes : list byte)
| GetBlockHeight
| PersistApproval (row : ApprovalRow)
| MarkApprovalTerminal (id : Uuid) (state : string) (reason : option string)
| PersistSignature (row : SignatureRow)
| MarkSignatureTerminal (id : Uuid) (state : string) (reason : option string)
| MarkMetaTerminal (id : Uuid) (state : string)
| TrackingInsert (row : TrackingRow)
| Track (row : TrackingRow) (bytes : list byte)
(* shared stores *)
| SessionRules (session : Uuid)
| IsBound (session : Uuid) (pubkey : string)
| RegisterApproval (request : ApprovalRequest) (workflow : ApprovalWorkflow)
| DecideApproval (decision : ApprovalDecision)
| Park (id : Uuid) (parked : ParkedApproval)
| SignalParked (id : Uuid) (state : ApprovalWorkflowState)
| TakeParked (id : Uuid)
| RemoveParked (id : Uuid)
| AwaitDecision (channel : nat) (seconds : Z)
| PendingContains (id : Uuid)
| PendingInsert (id : Uuid) (entry : PendingEntry)
| PendingRemove (id : Uuid)
| PendingSession (id : Uuid)
| MetaInsert (id : Uuid) (meta : CompletionMeta)
| MetaTake (id : Uuid)
(* keys *)
| KeystoreContains (key : Pubkey)
| PartialSign (key : Pubkey) (tx : Transaction)
| SignMessage (key : Pubkey) (bytes : list byte)
(* announcements and tasks *)
| Emit (x : Effect)
| Publish (x : GatewayEvent)
| SpawnResume (args : ResumeArgs).

(** A decision is answered with its effects, and with the instant at which its lease
    was checked, for the record; [None] is a panic. *)
Definition SignAnswer (e : SignEvent) : Type :=
  match e with
  | NewUuid => Uuid
  | UtcNow => Z
  | PolicyClock => PolicyEngine.DateTime
  | Today => string
  | WalletDailySpend _ _ | SessionSpend _ => Result string Z
  | GetPriorityFees _ => Result string (list Z)
  | GetBlockhash => Result string (list byte * Z)
  | SimulateRpc _ => Result string SimulationValue
  | SendRaw _ | SendRawV0 _ => Result string string
  | GetBlockHeight => Result string Z
  | PersistApproval _ | PersistSignature _ | TrackingInsert _ => Result string unit
  | SessionRules _ => option (list PolicyRule)
  | IsBound _ _ | PendingContains _ | KeystoreContains _ | SignalParked _ _ => bool
  | DecideApproval _ =>
      option (ApprovalOutcome * option ApprovalRequest * list Effect * Z)
  | Park _ _ => nat
  | TakeParked _ => option ParkedApproval
  | AwaitDecision _ _ => Awaited
  | PendingRemove _ => option PendingEntry
  | PendingSession _ => option Uuid
  | MetaTake _ => option CompletionMeta
  | PartialSign _ _ => option Transaction
  | SignMessage _ _ => Signature
  | _ => unit
  end.
Notation SProg := (Prog SignAnswer).

(** ** Programs that fail or panic *)
Inductive Outcome (E A : Type) :=
| Done (a : A)
| Failed (e : E)
| Panicked.
#[global] Arguments Done {E A} a.
#[global] Arguments Failed {E A} e.
#[global] Arguments Panicked {E A}.

Definition RProg (E A : Type) : Type := SProg (Outcome E A).
Definition done {E A} (a : A) : RProg E A := Ret (Done a).
Definition rbind {E A B} (p : RProg E A) (f : A → RProg E B) : RProg E B :=
  prog_bind (λ o, match o with
                  | Done a => f a
                  | Failed e => Ret (Failed e)
                  | Panicked => Ret Panicked
                  end) p.

Definition run_event {E} (e : SignEvent) : RProg E (SignAnswer e) := Vis e (λ a, Ret (Done a)).
Definition fail {E A} (e : E) : RProg E A := Ret (Failed e).
Definition panic {E A} : RProg E A := Ret Panicked.
Definition of_option {E A} (o : option A) : RProg E A :=
  match o with Some a => Ret (Done a) | None => Ret Panicked end.
Definition of_result {E A} (r : Result E A) : RProg E A :=
  match r with Ok a => Ret (Done a) | Err e => Ret (Failed e) end.
(** [.map_err(f)] and a caught failure. *)
Definition mapping_err {E F A} (f : E → F) (p : RProg E A) : RProg F A :=
  prog_bind (λ o, Ret (match o with
                       | Done a => Done a
                       | Failed e => Failed (f e)
                       | Panicked => Panicked
                       end)) p.
Definition attempt {E F A} (p : RProg E A) : RProg F (Result E A) :=
  prog_bind (λ o, Ret (match o with
                       | Done a => Done (Ok a)
                       | Failed e => Done (Err e)
                       | Panicked => Panicked
                       end)) p.
End events.
Notation SProg := (Prog SignAnswer).

Declare Scope rprog_scope.
Delimit Scope rprog_scope with rprog.
Notation "x ← p ; q" := (rbind p (λ x, q))
  (at level 20, p at level 100, q at level 200, only parsing) : rprog_scope.
Notation "' x ← p ; q" := (rbind p (λ x, q))
  (at level 20, x pattern, p at level 100, q at level 200, only parsing) : rprog_scope.
