(* ===== verification/TxReview.v ===== *)
(** * The transaction review pipeline

    wallet-engine/pipeline.rs with solana-core/simulation.rs and fees.rs: a transaction
    is given a compute budget and a fresh blockhash, simulated, put to the policy and
    only then signed. *)
From S2P Require Import Prelude Interaction RustText Solana SdkTypes ComputeBudget.
From S2P Require Import Approval ApprovalStore SigningEvents.
From S2P Require PolicyEngine.
#[local] Open Scope string_scope.
#[local] Open Scope Z_scope.

Inductive WalletError :=
| KeyNotFound (pubkey : string)
| WalletSigningFailed (message : string)
| WalletSimulationFailed (error : string)
| PolicyBlocked (verdict : PolicyVerdict)
| ApprovalTxDrift (expected actual : list byte)
| Solana (message : string).

(** ** Fees *)
Inductive PriorityFeeStrategy :=
| NoFee
| Fixed (fee : Z)
| Percentile (percentile : Z) (accounts : list string)
| Dynamic (max_microlamports : Z).

Fixpoint insert_sorted (x : Z) (l : list Z) : list Z :=
  match l with
  | [] => [x]
  | y :: l' => if x <=? y then x :: l else y :: insert_sorted x l'
  end.
Definition sort_fees (l : list Z) : list Z := foldr insert_sorted [] l.

Definition estimate_percentile (fees : list Z) (percentile : Z) : Z :=
  match fees with
  | [] => 0
  | _ =>
      let values := sort_fees fees in
      let idx := (Z.to_nat percentile * length values / 100)%nat in
      nth (Nat.min idx (length values - 1)) values 0
  end.

(** ** Simulation *)

(** The last log line with a number after the word consumed. *)
Definition consumed_in (log : string) : option Z :=
  let l := str_bytes log in
  if contains_str (str_bytes "consumed") l && contains_str (str_bytes "compute units") l then
    let parts := split_whitespace l in
    '(i, _) ← list_find (λ p, p = str_bytes "consumed") parts;
    s ← parts !! S i;
    match parse_u64 (bytes_str s) with Ok n => Some n | Err _ => None end
  else None.
Definition compute_units_used (logs : list string) : option Z :=
  head (omap consumed_in (rev logs)).

Definition read_simulation (value : SimulationValue) : SimulationOutput :=
  let logs := default [] (sv_logs value) in
  MkOutput (match sv_err value with None => true | Some _ => false end) (sv_err value)
    (compute_units_used logs) logs (sv_return_data value) None [].

(** ** Reviewed transactions *)
Record SimulatedTransaction := MkSimulated {
  sx_inner : Transaction;
  sx_simulation : SimulationResult;
  sx_last_valid_block_height : Z
}.
Record ApprovedTransaction := MkApproved {
  ax_inner : SimulatedTransaction;
  ax_policy_verdict : PolicyVerdict;
  ax_approval_tx_hash : list byte
}.

Definition APPROVAL_TX_DOMAIN : list byte := str_bytes "clawsol-approval-tx-v1".

Inductive ApprovalMode := Automatic | RequireHuman (timeout : Z) | DryRun | HumanGranted.
#[export] Instance approval_mode_eq_dec : EqDecision ApprovalMode.
Proof. solve_decision. Defined.

Inductive PipelineResult :=
| PSigned (simulation : SimulationResult) (policy_verdict : PolicyVerdict) (signature : string)
| PDryRun (simulation : SimulationResult) (policy_verdict : PolicyVerdict)
| PAwaitingApproval (simulation : SimulationResult) (policy_verdict : PolicyVerdict)
    (finalized_tx : Transaction)
| PPolicyBlocked (simulation : SimulationResult) (policy_verdict : PolicyVerdict)
| PSimulationFailed (error : string).

Class Sha256 := digest : list byte → list byte.

Section pipeline.
Context `{PolicyEngine.Chrono, Sdk, Sha256}.
Implicit Types (tx : Transaction).
#[local] Open Scope rprog_scope.

Definition wallet_error (e : WalletError) : string :=
  match e with
  | KeyNotFound p => "key not found for pubkey: " +:+ p
  | WalletSigningFailed m => "signing failed: " +:+ m
  | WalletSimulationFailed e => "simulation failed: " +:+ e
  | PolicyBlocked v => "policy blocked transaction: " +:+ PolicyEngine.verdict_label v
  | ApprovalTxDrift a b =>
      "approval drift detected: expected " +:+ WatcherBase.hex_encode a +:+ ", actual " +:+
      WatcherBase.hex_encode b
  | Solana m => "Solana error: " +:+ m
  end.

(** [PriorityFeeStrategy::resolve] *)
Definition resolve_fee (strategy : PriorityFeeStrategy) (relevant_accounts : list string) :
    RProg string Z :=
  match strategy with
  | NoFee => done 0
  | Fixed fee => done fee
  | Percentile percentile accounts =>
      r ← run_event (GetPriorityFees accounts);
      fees ← of_result r;
      done (estimate_percentile fees percentile)
  | Dynamic max_microlamports =>
      r ← run_event (GetPriorityFees relevant_accounts);
      fees ← of_result r;
      done (Z.min (estimate_percentile fees 75) max_microlamports)
  end.

(** [SimulationClient::simulate] *)
Definition simulate_client tx : RProg WalletError SimulationOutput :=
  r ← run_event (SimulateRpc tx);
  value ← of_result (map_err Solana r);
  done (read_simulation value).

Definition get_fresh : RProg WalletError (list byte * Z) :=
  r ← run_event GetBlockhash;
  of_result (map_err Solana r).

(** *** Stage 1 *)

(** The second pass with a tighter limit, after a first that went well. *)
Definition second_pass tx (sim_output : SimulationOutput) (derived_limit : Z) (height : Z) :
    RProg WalletError (Transaction * SimulationOutput * Z) :=
  '(found, tx) ← of_option (replace_compute_unit_limit tx derived_limit);
  if found then
    '(bh2, lvbh2) ← get_fresh;
    let tx := set_blockhash bh2 tx in
    r ← attempt (simulate_client tx);
    let fall_back :=
      '(_, tx) ← of_option (replace_compute_unit_limit tx DEFAULT_COMPUTE_UNITS);
      done (tx, sim_output, lvbh2) in
    match r with
    | Ok sim2 => if so_success sim2 then done (tx, sim2, lvbh2) else fall_back
    | Err _ => fall_back
    end
  else done (tx, sim_output, height).

Definition simulate (priority_fee : PriorityFeeStrategy) tx :
    RProg WalletError SimulatedTransaction :=
  fee ← attempt (resolve_fee priority_fee []);
  let fee := match fee with Ok f => f | Err _ => 0 end in
  '(prepended, tx) ← of_option (prepend_compute_budget tx DEFAULT_COMPUTE_UNITS fee);
  '(recent_blockhash, height) ← get_fresh;
  let tx := set_blockhash recent_blockhash tx in
  sim_output ← simulate_client tx;
  if negb (so_success sim_output) then
    fail (WalletSimulationFailed (default "unknown simulation error" (so_error sim_output)))
  else
    '(final_tx, final_sim_output, height) ←
      match so_compute_units_used sim_output with
      | Some cu_used =>
          let derived_limit := compute_limit_from_simulation cu_used in
          if prepended && should_tighten DEFAULT_COMPUTE_UNITS derived_limit
          then second_pass tx sim_output derived_limit height
          else done (tx, sim_output, height)
      | None => done (tx, sim_output, height)
      end;
    done (MkSimulated final_tx (into_result final_sim_output) height).

(** *** Stage 2 *)
Definition approval_tx_hash (message_bytes : list byte) : list byte :=
  digest (APPROVAL_TX_DOMAIN ++ [byte_of 0] ++ message_bytes)%list.
Definition message_of tx : list byte := message_bytes (LegacyMessage (message tx)).

Definition new_unchecked (inner : SimulatedTransaction) (policy_verdict : PolicyVerdict) :
    ApprovedTransaction :=
  MkApproved inner policy_verdict (approval_tx_hash (message_of (sx_inner inner))).

Definition evaluate_policy (simulated : SimulatedTransaction)
    (policy_check : SimulationResult → PolicyVerdict) : Result WalletError ApprovedTransaction :=
  let verdict := policy_check (sx_simulation simulated) in
  if PolicyEngine.is_blocked verdict then Err (PolicyBlocked verdict)
  else Ok (new_unchecked simulated verdict).

(** *** Stage 3 *)

(** [LocalKeypairSigner::sign_transaction]; indexing the signatures can panic. *)
Definition sign_transaction (pubkey : Pubkey) tx : RProg WalletError (Signature * Transaction) :=
  present ← run_event (KeystoreContains pubkey);
  if negb present then fail (KeyNotFound (show_pubkey pubkey)) else
  r ← run_event (PartialSign pubkey tx);
  tx ← of_option r;
  match list_find (λ k, k = pubkey) (account_keys (message tx)) with
  | None => fail (WalletSigningFailed ("pubkey " +:+ show_pubkey pubkey +:+ " not found in transaction"))
  | Some (sig_idx, _) => s ← of_option (signatures tx !! sig_idx); done (s, tx)
  end.

Definition sign (approval_mode : ApprovalMode) (approved : ApprovedTransaction) (signer : Pubkey) :
    RProg WalletError PipelineResult :=
  let simulation := sx_simulation (ax_inner approved) in
  let policy_verdict := ax_policy_verdict approved in
  let tx := sx_inner (ax_inner approved) in
  let signing :=
    '(signature, _) ← sign_transaction signer tx;
    done (PSigned simulation policy_verdict (show_signature signature)) in
  if bool_decide (approval_mode = DryRun) then done (PDryRun simulation policy_verdict) else
  let current_hash := approval_tx_hash (message_of tx) in
  if bool_decide (current_hash ≠ ax_approval_tx_hash approved)
  then fail (ApprovalTxDrift (ax_approval_tx_hash approved) current_hash) else
  if bool_decide (approval_mode = HumanGranted) then signing else
  if PolicyEngine.requires_human policy_verdict && bool_decide (approval_mode = Automatic)
  then done (PAwaitingApproval simulation policy_verdict tx) else
  match approval_mode with
  | RequireHuman _ =>
      if PolicyEngine.requires_human policy_verdict ||
         negb (PolicyEngine.is_auto_approved policy_verdict)
      then done (PAwaitingApproval simulation policy_verdict tx) else signing
  | _ => signing
  end.

(** All stages. *)
Definition run_pipeline (approval_mode : ApprovalMode) (priority_fee : PriorityFeeStrategy) tx
    (signer : Pubkey) (policy_check : SimulationResult → PolicyVerdict) :
    RProg WalletError PipelineResult :=
  s ← attempt (simulate priority_fee tx);
  match s with
  | Err (WalletSimulationFailed error) => done (PSimulationFailed error)
  | Err e => done (PSimulationFailed ("simulation error: " +:+ wallet_error e))
  | Ok simulated =>
      match evaluate_policy simulated policy_check with
      | Err (PolicyBlocked verdict) => done (PPolicyBlocked (sx_simulation simulated) verdict)
      | Err e => done (PSimulationFailed ("policy evaluation error: " +:+ wallet_error e))
      | Ok approved =>
          r ← attempt (sign approval_mode approved signer);
          match r with
          | Ok result => done result
          | Err e => done (PSimulationFailed ("signing error: " +:+ wallet_error e))
          end
      end
  end.
End pipeline.
