(* ===== verification/WalletAdapters.v ===== *)
(** * Checking what an external wallet signed

    orchestrator/external_adapter.rs and signed_tx_kind.rs: the transaction that comes
    back from a browser wallet is compared with the one that was approved; and what that lets
    a wallet change, exactly. *)
From S2P Require Import Prelude Solana WatcherBase Approval SdkTypes SigningEvents.
#[local] Open Scope string_scope.
#[local] Open Scope Z_scope.

Inductive SignedTxKind := KindV0 | KindLegacy.

(** ** Account identities of versioned messages *)
Inductive V0AcctIdentity :=
| Static (key : Pubkey)
| Alt (table : Pubkey) (inner : Z) (writable : bool)
| OutOfRange.
#[export] Instance identity_eq_dec : EqDecision V0AcctIdentity.
Proof. solve_decision. Defined.

(** The slots after the static keys: the writable ones of every table, then the
    readonly ones. *)
Definition alt_slots (alt_lookups : list MessageAddressTableLookup) : list V0AcctIdentity :=
  mjoin (map (λ alt, map (λ inner, Alt (lk_account_key alt) inner true) (lk_writable_indexes alt))
           alt_lookups) ++
  mjoin (map (λ alt, map (λ inner, Alt (lk_account_key alt) inner false) (lk_readonly_indexes alt))
           alt_lookups).

Definition resolve_v0_account_identity (idx : Z) (static_keys : list Pubkey)
    (alt_lookups : list MessageAddressTableLookup) : V0AcctIdentity :=
  let i := Z.to_nat idx in
  match static_keys !! i with
  | Some key => Static key
  | None => default OutOfRange (alt_slots alt_lookups !! (i - length static_keys)%nat)
  end.

Definition lookups_of (m : VersionedMessage) : list MessageAddressTableLookup :=
  match m with V0Message m => v0_lookups m | LegacyMessage _ => [] end.

Definition vfail {A} (s : string) : Result SignatureError A := Err (VerificationFailed s).

Section adapters.
Context `{Sdk}.

Definition classify_signed_tx_kind (bytes : list byte) : SignedTxKind :=
  match vtx_from_bytes bytes with
  | Ok vtx => if is_v0 (vt_message vtx) then KindV0 else KindLegacy
  | Err _ => KindLegacy
  end.

(** ** Legacy transactions *)

(** The keys of an instruction's accounts, indices out of range left out. *)
Definition ix_keys (keys : list Pubkey) (ix : CompiledInstruction) : list Pubkey :=
  omap (key_at keys) (cx_accounts ix).

Fixpoint check_legacy_ixs (i : Z) (orig_keys signed_keys : list Pubkey)
    (orig_ixs signed_ixs : list CompiledInstruction) : Result SignatureError unit :=
  match orig_ixs, signed_ixs with
  | orig_ix :: orig_ixs, signed_ix :: signed_ixs =>
      if bool_decide (key_at orig_keys (cx_program_id_index orig_ix) ≠
                      key_at signed_keys (cx_program_id_index signed_ix))
      then vfail ("instruction " +:+ fmt i +:+ " program ID mismatch")
      else if bool_decide (cx_data orig_ix ≠ cx_data signed_ix)
      then vfail ("instruction " +:+ fmt i +:+ " data mismatch")
      else if bool_decide (ix_keys orig_keys orig_ix ≠ ix_keys signed_keys signed_ix)
      then vfail ("instruction " +:+ fmt i +:+ " account keys mismatch")
      else check_legacy_ixs (i + 1) orig_keys signed_keys orig_ixs signed_ixs
  | _, _ => Ok tt
  end.

(** Where the expected signer signed; [what] tells the kinds of errors apart. *)
Definition find_signature (keys : list Pubkey) (sigs : list Signature) (expected_signer : Pubkey)
    (not_found not_signed : string) : Result SignatureError Signature :=
  match list_find (λ k, k = expected_signer) keys with
  | None => vfail not_found
  | Some (signer_index, _) =>
      match sigs !! signer_index with
      | Some s => if bool_decide (s = default_signature) then vfail not_signed else Ok s
      | None => vfail not_signed
      end
  end.

Definition accepted (request : SignatureRequest) (sig : Signature) (signed_bytes : list byte) :
    SignatureOutcome :=
  Signed (sq_id request) (show_signature sig) signed_bytes "external" (sq_transaction_id request)
    (show_pubkey (sq_expected_signer request)).

Definition complete_legacy (request : SignatureRequest) (signed_tx_bytes : list byte) :
    Result SignatureError SignatureOutcome :=
  original_tx ← map_err (λ e, InvalidTransaction ("invalid original tx: " +:+ e))
                  (tx_from_bytes (sq_finalized_tx_bytes request));
  signed_tx ← map_err (λ e, VerificationFailed ("invalid signed tx bytes: " +:+ e))
                (tx_from_bytes signed_tx_bytes);
  let signed := message signed_tx in
  let orig_ixs := msg_instructions (message original_tx) in
  let signed_ixs := msg_instructions signed in
  sig ← find_signature (account_keys signed) (signatures signed_tx) (sq_expected_signer request)
          "expected signer not in account keys" "expected signer did not sign";
  _ ← throw_if (length signed_ixs <? length orig_ixs)%nat
        (VerificationFailed "signed transaction has fewer instructions");
  let offset := (length signed_ixs - length orig_ixs)%nat in
  _ ← check_legacy_ixs 0 (account_keys (message original_tx)) (account_keys signed) orig_ixs
        (drop offset signed_ixs);
  _ ← throw_if (negb (sig_verify sig (sq_expected_signer request)
                        (message_bytes (LegacyMessage signed))))
        (VerificationFailed "signature verification failed");
  signed_bytes ← map_err (λ e, SigningFailed ("serialize signed tx: " +:+ e)) (tx_to_bytes signed_tx);
  Ok (accepted request sig signed_bytes).

(** ** Versioned transactions *)
Fixpoint check_accounts (i pos : Z) (orig signed : VersionedMessage) (l : list (Z * Z)) :
    Result SignatureError unit :=
  match l with
  | [] => Ok tt
  | (orig_idx, signed_idx) :: l =>
      let orig_id := resolve_v0_account_identity orig_idx (static_account_keys orig) (lookups_of orig) in
      let signed_id :=
        resolve_v0_account_identity signed_idx (static_account_keys signed) (lookups_of signed) in
      if bool_decide (orig_id ≠ signed_id) || bool_decide (orig_id = OutOfRange)
      then vfail ("V0 instruction " +:+ fmt i +:+ " account " +:+ fmt pos +:+
                  " resolved-identity mismatch")
      else check_accounts i (pos + 1) orig signed l
  end.

Fixpoint check_v0_ixs (i : Z) (orig signed : VersionedMessage)
    (orig_ixs signed_ixs : list CompiledInstruction) : Result SignatureError unit :=
  match orig_ixs, signed_ixs with
  | orig_ix :: orig_ixs, signed_ix :: signed_ixs =>
      let orig_prog := key_at (static_account_keys orig) (cx_program_id_index orig_ix) in
      let signed_prog := key_at (static_account_keys signed) (cx_program_id_index signed_ix) in
      if bool_decide (orig_prog = None) || bool_decide (signed_prog = None) ||
         bool_decide (orig_prog ≠ signed_prog)
      then vfail ("V0 instruction " +:+ fmt i +:+ " program ID mismatch")
      else if bool_decide (cx_data orig_ix ≠ cx_data signed_ix)
      then vfail ("V0 instruction " +:+ fmt i +:+ " data mismatch")
      else if negb (length (cx_accounts orig_ix) =? length (cx_accounts signed_ix))%nat
      then vfail ("V0 instruction " +:+ fmt i +:+ " account count mismatch")
      else
        _ ← check_accounts i 0 orig signed (zip (cx_accounts orig_ix) (cx_accounts signed_ix));
        check_v0_ixs (i + 1) orig signed orig_ixs signed_ixs
  | _, _ => Ok tt
  end.

Definition complete_v0 (request : SignatureRequest) (signed_tx_bytes : list byte)
    (original : VersionedTransaction) : Result SignatureError SignatureOutcome :=
  signed ← map_err (λ e, VerificationFailed ("invalid signed V0 tx bytes: " +:+ e))
             (vtx_from_bytes signed_tx_bytes);
  let om := vt_message original in
  let sm := vt_message signed in
  _ ← throw_if (negb (is_v0 sm))
        (VerificationFailed "expected V0 signed transaction but received legacy format");
  sig ← find_signature (static_account_keys sm) (vt_signatures signed) (sq_expected_signer request)
          "expected signer not in static account keys" "expected signer did not sign";
  _ ← throw_if (bool_decide (vm_blockhash om ≠ vm_blockhash sm)) BlockhashModified;
  let orig_ixs := vm_instructions om in
  let signed_ixs := vm_instructions sm in
  _ ← throw_if (length signed_ixs <? length orig_ixs)%nat
        (VerificationFailed "signed V0 transaction has fewer instructions");
  _ ← check_v0_ixs 0 om sm orig_ixs (drop (length signed_ixs - length orig_ixs) signed_ixs);
  _ ← throw_if (negb (sig_verify sig (sq_expected_signer request) (message_bytes sm)))
        (VerificationFailed "V0 signature verification failed");
  signed_bytes ← map_err (λ e, SigningFailed ("serialize signed V0 tx: " +:+ e)) (vtx_to_bytes signed);
  Ok (accepted request sig signed_bytes).

Definition external_complete (request : SignatureRequest) (signed_tx_bytes : list byte) :
    Result SignatureError SignatureOutcome :=
  match vtx_from_bytes (sq_finalized_tx_bytes request) with
  | Ok original_v0 =>
      if is_v0 (vt_message original_v0) then complete_v0 request signed_tx_bytes original_v0
      else complete_legacy request signed_tx_bytes
  | Err _ => complete_legacy request signed_tx_bytes
  end.
End adapters.

(** * What an external wallet may change

    The exact condition under which the gateway takes back a transaction from a
    browser wallet. *)

Section facts.
Context `{Sdk}.
Implicit Types (request : SignatureRequest) (bytes : list byte).

(** The same program, data and account keys, indices out of range left out. *)
Definition same_legacy (okeys skeys : list Pubkey) (a b : CompiledInstruction) : Prop :=
  key_at okeys (cx_program_id_index a) = key_at skeys (cx_program_id_index b) ∧
  cx_data a = cx_data b ∧ ix_keys okeys a = ix_keys skeys b.

(** The same program and data, and accounts that are the same static key or the same
    slot of the same table, none out of range. *)
Definition identity (m : VersionedMessage) (i : Z) : V0AcctIdentity :=
  resolve_v0_account_identity i (static_account_keys m) (lookups_of m).
Definition same_v0 (om sm : VersionedMessage) (a b : CompiledInstruction) : Prop :=
  (∃ k, key_at (static_account_keys om) (cx_program_id_index a) = Some k ∧
     key_at (static_account_keys sm) (cx_program_id_index b) = Some k) ∧
  cx_data a = cx_data b ∧
  Forall2 (λ i j, identity om i = identity sm j ∧ identity om i ≠ OutOfRange)
    (cx_accounts a) (cx_accounts b).

(** The signer's first place among the keys holds a signature. *)
Definition signed_by (keys : list Pubkey) (sigs : list Signature) (signer : Pubkey) (s : Signature) :
    Prop :=
  ∃ i, keys !! i = Some signer ∧ (∀ j k, keys !! j = Some k → (j < i)%nat → k ≠ signer) ∧
    sigs !! i = Some s ∧ s ≠ default_signature.

Definition takes_legacy request bytes (o : SignatureOutcome) : Prop :=
  ∃ original signed sig front back out,
    tx_from_bytes (sq_finalized_tx_bytes request) = Ok original ∧
    tx_from_bytes bytes = Ok signed ∧
    msg_instructions (message signed) = (front ++ back)%list ∧
    Forall2 (same_legacy (account_keys (message original)) (account_keys (message signed)))
      (msg_instructions (message original)) back ∧
    signed_by (account_keys (message signed)) (signatures signed) (sq_expected_signer request) sig ∧
    sig_verify sig (sq_expected_signer request) (message_bytes (LegacyMessage (message signed))) = true ∧
    tx_to_bytes signed = Ok out ∧ o = accepted request sig out.

Definition takes_v0 request bytes (original : VersionedTransaction) (o : SignatureOutcome) : Prop :=
  ∃ signed sig front back out,
    vtx_from_bytes bytes = Ok signed ∧ is_v0 (vt_message signed) = true ∧
    vm_blockhash (vt_message original) = vm_blockhash (vt_message signed) ∧
    vm_instructions (vt_message signed) = (front ++ back)%list ∧
    Forall2 (same_v0 (vt_message original) (vt_message signed))
      (vm_instructions (vt_message original)) back ∧
    signed_by (static_account_keys (vt_message signed)) (vt_signatures signed)
      (sq_expected_signer request) sig ∧
    sig_verify sig (sq_expected_signer request) (message_bytes (vt_message signed)) = true ∧
    vtx_to_bytes signed = Ok out ∧ o = accepted request sig out.

(** ** The checks *)
Lemma throw_if_spec {E} (b : bool) (e : E) : throw_if b e = Ok () ↔ b = false.
Proof. by destruct b. Qed.
Lemma map_err_spec {E F A} (f : E → F) (r : Result E A) a : map_err f r = Ok a ↔ r = Ok a.
Proof. destruct r; cbn; split; intros [=]; by subst. Qed.
Lemma bind_spec {E A B} (r : Result E A) (f : A → Result E B) b :
  r ≫= f = Ok b ↔ ∃ a, r = Ok a ∧ f a = Ok b.
Proof. destruct r as [a|e]; cbn; split; [by exists a|by intros (? & [= ->] & ?)|done|by intros (? & ? & ?)]. Qed.
Lemma bind_unit_spec {E B} (r : Result E unit) (f : unit → Result E B) b :
  r ≫= f = Ok b ↔ r = Ok tt ∧ f tt = Ok b.
Proof. rewrite bind_spec. split; [by intros ([] & ? & ?)|intros [? ?]; by exists tt]. Qed.

Lemma find_signature_spec keys sigs signer e1 e2 s :
  find_signature keys sigs signer e1 e2 = Ok s ↔ signed_by keys sigs signer s.
Proof.
  unfold find_signature, signed_by, vfail. destruct (list_find _ keys) as [[i k]|] eqn:Hf.
  - apply list_find_Some in Hf as (Hk & -> & Hmin). split.
    + destruct (sigs !! i) as [s'|] eqn:Hs; [|done]. case_bool_decide; [done|]. intros [= <-].
      exists i. split_and!; [done| |done|done]. intros j k Hj Hji ->. by eapply Hmin.
    + intros (j & Hj & Hmin' & Hs & Hne). assert (i = j) as ->.
      { destruct (Nat.lt_trichotomy i j) as [Hlt|[|Hlt]]; [|done|].
        - by destruct (Hmin' _ _ Hk Hlt).
        - by destruct (Hmin _ _ Hj Hlt). }
      rewrite Hs. by rewrite bool_decide_eq_false_2.
  - apply list_find_None in Hf. split; [done|]. intros (j & Hj & _). rewrite Forall_forall in Hf.
    by destruct (Hf signer); [eapply list_elem_of_lookup_2|].
Qed.

Lemma check_legacy_spec i okeys skeys os ss : length os = length ss →
  check_legacy_ixs i okeys skeys os ss = Ok tt ↔ Forall2 (same_legacy okeys skeys) os ss.
Proof.
  revert i ss. induction os as [|o os IH]; intros i [|s ss] Hlen; try done.
  cbn [check_legacy_ixs]; unfold vfail. injection Hlen as Hlen. rewrite Forall2_cons. unfold same_legacy at 1.
  rewrite <- (IH (i + 1) ss Hlen).
  repeat (case_bool_decide; [split; [done|naive_solver]|]).
  naive_solver.
Qed.

Lemma check_accounts_spec i pos om sm l l' : length l = length l' →
  check_accounts i pos om sm (zip l l') = Ok tt ↔
  Forall2 (λ a b, identity om a = identity sm b ∧ identity om a ≠ OutOfRange) l l'.
Proof.
  revert pos l'. induction l as [|a l IH]; intros pos [|b l'] Hlen; try done.
  cbn [zip zip_with check_accounts]; unfold vfail. injection Hlen as Hlen. rewrite Forall2_cons.
  rewrite <- (IH (pos + 1) l' Hlen). fold (identity om a) (identity sm b).
  destruct (bool_decide_reflect (identity om a ≠ identity sm b)), (bool_decide_reflect (identity om a = OutOfRange));
    cbn [orb]; split; try done; try naive_solver.
  intros Hc. split; [split; [by apply dec_stable|done]|done].
Qed.

Lemma check_v0_spec i om sm os ss : length os = length ss →
  check_v0_ixs i om sm os ss = Ok tt ↔ Forall2 (same_v0 om sm) os ss.
Proof.
  revert i ss. induction os as [|o os IH]; intros i [|s ss] Hlen; try done.
  cbn [check_v0_ixs]; unfold vfail. injection Hlen as Hlen. rewrite Forall2_cons, <- (IH (i + 1) ss Hlen).
  unfold same_v0 at 1.
  destruct (key_at (static_account_keys om) _) as [k|] eqn:Ho.
  2: { rewrite bool_decide_eq_true_2 by done. split; [done|]. by intros (((k & [=] & _) & _) & _). }
  destruct (key_at (static_account_keys sm) _) as [k'|] eqn:Hs.
  2: { rewrite (bool_decide_eq_true_2 (None = None)) by done. rewrite orb_true_r.
       split; [done|]. by intros (((k' & _ & [=]) & _) & _). }
  rewrite (bool_decide_eq_false_2 (Some k = None)), (bool_decide_eq_false_2 (Some k' = None)) by done.
  cbn [orb]. case_bool_decide as Hk; [split; [done|]; intros (((k0 & [= ->] & [= ->]) & _) & _); by destruct Hk|].
  assert (k = k') as -> by congruence.
  case_bool_decide as Hd; [split; [done|naive_solver]|].
  destruct (Nat.eqb_spec (length (cx_accounts o)) (length (cx_accounts s))) as [Hl|Hl]; cbn [negb].
  - rewrite bind_unit_spec, check_accounts_spec by done. split; [|naive_solver].
    intros [Ha Hc]. split; [|done]. split; [by exists k'|done].
  - split; [done|]. intros ((_ & _ & Hf) & _). by apply Forall2_length in Hf.
Qed.

(** The front that a list has over a shorter one. *)
Lemma back_of {A B} (R : A → B → Prop) (l : list A) (l' : list B) :
  (length l ≤ length l')%nat ∧ Forall2 R l (drop (length l' - length l) l') ↔
  ∃ front back, l' = (front ++ back)%list ∧ Forall2 R l back.
Proof.
  split.
  - intros [_ Hf]. exists (take (length l' - length l) l'), (drop (length l' - length l) l').
    by rewrite take_drop.
  - intros (front & back & -> & Hf). pose proof (Forall2_length _ _ _ Hf) as Hlen.
    rewrite length_app. split; [lia|]. replace _ with (length front) by lia. by rewrite drop_app_length.
Qed.

Lemma complete_legacy_spec request bytes o :
  complete_legacy request bytes = Ok o ↔ takes_legacy request bytes o.
Proof.
  unfold complete_legacy, takes_legacy. rewrite bind_spec. setoid_rewrite map_err_spec.
  setoid_rewrite bind_spec. setoid_rewrite map_err_spec. split.
  - intros (original & Ho & signed & Hs & Hrest).
    apply bind_spec in Hrest as (sig & Hsig%find_signature_spec & Hrest). apply bind_unit_spec in Hrest as [Hlen Hrest].
    apply bind_unit_spec in Hrest as [Hix Hrest]. apply bind_unit_spec in Hrest as [Hv Hrest].
    apply bind_spec in Hrest as (out & Hout%map_err_spec & Hres).
    apply throw_if_spec, Nat.ltb_ge in Hlen. apply throw_if_spec, negb_false_iff in Hv.
    apply check_legacy_spec in Hix; [|rewrite length_drop; lia].
    destruct (proj1 (back_of _ _ _) (conj Hlen Hix)) as (front & back & Hb & Hf).
    exists original, signed, sig, front, back, out. by injection Hres as <-.
  - intros (original & signed & sig & front & back & out & Ho & Hs & Hb & Hf & Hsig & Hv & Hout & ->).
    exists original. split; [done|]. exists signed. split; [done|].
    rewrite (proj2 (find_signature_spec _ _ _ _ _ _) Hsig). cbn [mbind result_bind].
    destruct (proj2 (back_of _ (msg_instructions (message original)) (msg_instructions (message signed)))
      (ex_intro _ front (ex_intro _ back (conj Hb Hf)))) as [Hlen Hix].
    apply bind_unit_spec. split; [apply throw_if_spec; by apply Nat.ltb_ge|].
    apply bind_unit_spec. split; [apply check_legacy_spec; [rewrite length_drop; lia|done]|].
    apply bind_unit_spec. split; [by rewrite Hv|]. by rewrite Hout.
Qed.

Lemma complete_v0_spec request bytes original o :
  complete_v0 request bytes original = Ok o ↔ takes_v0 request bytes original o.
Proof.
  unfold complete_v0, takes_v0. rewrite bind_spec. setoid_rewrite map_err_spec.
  setoid_rewrite bind_unit_spec. split.
  - intros (signed & Hs & H0 & Hrest). apply throw_if_spec, negb_false_iff in H0.
    apply bind_spec in Hrest as (sig & Hsig%find_signature_spec & Hrest).
    apply bind_unit_spec in Hrest as [Hbh Hrest]. apply bind_unit_spec in Hrest as [Hlen Hrest].
    apply bind_unit_spec in Hrest as [Hix Hrest]. apply bind_unit_spec in Hrest as [Hv Hrest].
    apply bind_spec in Hrest as (out & Hout%map_err_spec & Hres).
    apply throw_if_spec, bool_decide_eq_false in Hbh. apply dec_stable in Hbh.
    apply throw_if_spec, Nat.ltb_ge in Hlen. apply throw_if_spec, negb_false_iff in Hv.
    apply check_v0_spec in Hix; [|rewrite length_drop; lia].
    destruct (proj1 (back_of _ _ _) (conj Hlen Hix)) as (front & back & Hb & Hf).
    exists signed, sig, front, back, out. by injection Hres as <-.
  - intros (signed & sig & front & back & out & Hs & H0 & Hbh & Hb & Hf & Hsig & Hv & Hout & ->).
    exists signed. split; [done|]. rewrite H0, Hbh. split; [done|].
    rewrite (proj2 (find_signature_spec _ _ _ _ _ _) Hsig). cbn [mbind result_bind].
    rewrite bool_decide_eq_false_2 by (by intros []). cbn [throw_if mbind result_bind].
    destruct (proj2 (back_of _ (vm_instructions (vt_message original)) (vm_instructions (vt_message signed)))
      (ex_intro _ front (ex_intro _ back (conj Hb Hf)))) as [Hlen Hix].
    apply bind_unit_spec. split; [apply throw_if_spec; by apply Nat.ltb_ge|].
    apply bind_unit_spec. split; [apply check_v0_spec; [rewrite length_drop; lia|done]|].
    apply bind_unit_spec. split; [by rewrite Hv|]. by rewrite Hout.
Qed.

(** C29: what an external wallet may hand back.  A returned transaction is accepted exactly
    when it is of the kind that was asked for; its last instructions are, one for
    one, those of the approved transaction: same program and data, and the same
    accounts, compared by key, or in a version 0 message by static key or table slot,
    none out of range; the expected signer's first place holds a signature that
    verifies on the returned message; and a version 0 message has its blockhash
    unchanged.  The answer names the bytes re-serialised. *)
Theorem external_complete_exact request bytes o :
  external_complete request bytes = Ok o ↔
  (∃ original, vtx_from_bytes (sq_finalized_tx_bytes request) = Ok original ∧
     is_v0 (vt_message original) = true ∧ takes_v0 request bytes original o) ∨
  ((∀ original, vtx_from_bytes (sq_finalized_tx_bytes request) = Ok original →
     is_v0 (vt_message original) = false) ∧ takes_legacy request bytes o).
Proof.
  unfold external_complete. destruct (vtx_from_bytes _) as [original|e] eqn:Hv.
  - destruct (is_v0 (vt_message original)) eqn:H0.
    + rewrite complete_v0_spec. split; [intros; left; by exists original|].
      intros [(original' & [= <-] & _ & ?)|[Hno _]]; [done|]. by rewrite (Hno _ eq_refl) in H0.
    + rewrite complete_legacy_spec. split; [intros; right; split; [by intros ? [= <-]|done]|].
      intros [(original' & [= <-] & ? & _)|[_ ?]]; [congruence|done].
  - rewrite complete_legacy_spec. split; [by right|]. by intros [(? & [=] & _)|[_ ?]].
Qed.
End facts.
