(* ===== verification/Orchestrator.v ===== *)
(** * The signature orchestrator

    orchestrator/mod.rs and its two adapters: a request is routed to the adapter that
    supports its signer; a local key signs at once, an external wallet later, the
    request being kept meanwhile in the pending map. *)
From S2P Require Import Prelude Interaction Solana SdkTypes Approval ApprovalStore.
From S2P Require Import SigningEvents TxReview WalletAdapters.
From S2P Require PolicyEngine.
#[local] Open Scope string_scope.
#[local] Open Scope Z_scope.

(** The two adapters; the local one holds the signer that was configured first. *)
Inductive WalletAdapter := ExternalWalletAdapter | LocalWalletAdapter (signer : Pubkey).
Definition adapter_type (a : WalletAdapter) : string :=
  match a with ExternalWalletAdapter => "external" | LocalWalletAdapter _ => "local" end.

Record PendingSummary := MkSummary {
  ps_request_id : Uuid;
  ps_transaction_id : Uuid;
  ps_adapter_type : string;
  ps_description : string;
  ps_expected_signer : string;
  ps_finalized_tx_bytes : list byte
}.

Section orchestrator.
Context `{PolicyEngine.Chrono, Sdk}.
#[local] Open Scope rprog_scope.

(** ** Adapters *)
Definition supports (a : WalletAdapter) (request : SignatureRequest) : RProg SignatureError bool :=
  match a with
  | ExternalWalletAdapter =>
      run_event (IsBound (sq_session_id request) (show_pubkey (sq_expected_signer request)))
  | LocalWalletAdapter _ => run_event (KeystoreContains (sq_expected_signer request))
  end.

(** [LocalKeypairSigner::sign_versioned] *)
Definition sign_versioned (pubkey : Pubkey) (tx : VersionedTransaction) :
    RProg WalletError (Signature * VersionedTransaction) :=
  present ← run_event (KeystoreContains pubkey);
  if negb present then fail (KeyNotFound (show_pubkey pubkey)) else
  match list_find (λ k, k = pubkey) (static_account_keys (vt_message tx)) with
  | None =>
      fail (WalletSigningFailed
              ("pubkey " +:+ show_pubkey pubkey +:+ " not found in static account keys"))
  | Some (sig_idx, _) =>
      signature ← run_event (SignMessage pubkey (message_bytes (vt_message tx)));
      let required := Z.to_nat (num_required_signatures (vm_header (vt_message tx))) in
      let sigs := (vt_signatures tx ++
                   replicate (required - length (vt_signatures tx)) default_signature)%list in
      if (length sigs <=? sig_idx)%nat then
        fail (WalletSigningFailed
                ("signer index " +:+ WatcherBase.fmt (Z.of_nat sig_idx) +:+
                 " exceeds signatures vec length " +:+ WatcherBase.fmt (Z.of_nat (length sigs))))
      else done (signature, MkVersioned (<[sig_idx := signature]> sigs) (vt_message tx))
  end.

Definition signed_locally (request : SignatureRequest) (signature : Signature)
    (signed_tx_bytes : list byte) : SignatureOutcome :=
  Signed (sq_id request) (show_signature signature) signed_tx_bytes "local"
    (sq_transaction_id request) (show_pubkey (sq_expected_signer request)).
Definition signing_failed (e : WalletError) : SignatureError := SigningFailed (wallet_error e).

Definition sign_local_legacy (signer : Pubkey) (request : SignatureRequest) :
    RProg SignatureError SignatureOutcome :=
  tx ← of_result (map_err InvalidTransaction (tx_from_bytes (sq_finalized_tx_bytes request)));
  '(signature, tx) ← mapping_err signing_failed (sign_transaction signer tx);
  bytes ← of_result (map_err (λ e, SigningFailed ("failed to serialize signed tx: " +:+ e))
                       (tx_to_bytes tx));
  done (signed_locally request signature bytes).

Definition sign_local (signer : Pubkey) (request : SignatureRequest) :
    RProg SignatureError SignatureOutcome :=
  match vtx_from_bytes (sq_finalized_tx_bytes request) with
  | Ok v0_tx =>
      if is_v0 (vt_message v0_tx) then
        '(signature, v0_tx) ← mapping_err signing_failed (sign_versioned signer v0_tx);
        bytes ← of_result (map_err (λ e, SigningFailed ("failed to serialize signed v0 tx: " +:+ e))
                             (vtx_to_bytes v0_tx));
        done (signed_locally request signature bytes)
      else sign_local_legacy signer request
  | Err _ => sign_local_legacy signer request
  end.

Definition adapter_sign (a : WalletAdapter) (request : SignatureRequest) :
    RProg SignatureError SignatureOutcome :=
  match a with
  | ExternalWalletAdapter =>
      done (SignaturePending (sq_id request) "external" (sq_finalized_tx_bytes request))
  | LocalWalletAdapter signer => sign_local signer request
  end.

Definition adapter_complete (a : WalletAdapter) (request : SignatureRequest)
    (signed_tx_bytes : list byte) : Result SignatureError SignatureOutcome :=
  match a with
  | ExternalWalletAdapter => external_complete request signed_tx_bytes
  | LocalWalletAdapter _ => Err (SigningFailed "local adapter does not support async completion")
  end.

(** ** The orchestrator *)
Section with_adapters.
Context (adapters : list WalletAdapter).

Fixpoint find_supporting (l : list WalletAdapter) (request : SignatureRequest) :
    RProg SignatureError WalletAdapter :=
  match l with
  | [] => fail NoAdapter
  | a :: l => yes ← supports a request; if (yes : bool) then done a else find_supporting l request
  end.

Definition submit (request : SignatureRequest) : RProg SignatureError SignatureOutcome :=
  dup ← run_event (PendingContains (sq_id request));
  if (dup : bool) then fail DuplicateRequestId else
  adapter ← find_supporting adapters request;
  outcome ← adapter_sign adapter request;
  match outcome with
  | SignaturePending _ _ _ =>
      dup ← run_event (PendingContains (sq_id request));
      if (dup : bool) then fail DuplicateRequestId else
      _ ← run_event (PendingInsert (sq_id request) (MkPendingEntry request (adapter_type adapter)));
      done outcome
  | Signed _ _ _ _ _ _ => done outcome
  end.

Definition find_adapter (type : string) : Result SignatureError WalletAdapter :=
  match list_find (λ a, adapter_type a = type) adapters with
  | Some (_, a) => Ok a
  | None => Err NoAdapter
  end.

(** A pending entry is consumed before its signature is looked at. *)
Definition complete (request_id : Uuid) (signed_tx_bytes : list byte) :
    RProg SignatureError SignatureOutcome :=
  removed ← run_event (PendingRemove request_id);
  match removed with
  | None => fail RequestNotFound
  | Some entry =>
      adapter ← of_result (find_adapter (pn_adapter_type entry));
      of_result (adapter_complete adapter (pn_request entry) signed_tx_bytes)
  end.

(** [expire] and [abort_pending]; the clean-up of both adapters is empty. *)
Definition expire_pending (request_id : Uuid) : RProg SignatureError SignatureRequest :=
  removed ← run_event (PendingRemove request_id);
  match removed with
  | None => fail RequestNotFound
  | Some entry => done (pn_request entry)
  end.
Definition abort_pending : Uuid → RProg SignatureError SignatureRequest := expire_pending.

Definition recover_pending (show_id : Uuid → string) (request : SignatureRequest)
    (type : string) : RProg string unit :=
  dup ← run_event (PendingContains (sq_id request));
  if (dup : bool) then fail ("duplicate request ID during recovery: " +:+ show_id (sq_id request))
  else run_event (PendingInsert (sq_id request) (MkPendingEntry request type)).

Definition summary_of (entry : PendingEntry) : PendingSummary :=
  let r := pn_request entry in
  MkSummary (sq_id r) (sq_transaction_id r) (pn_adapter_type entry) (sq_description r)
    (show_pubkey (sq_expected_signer r)) (sq_finalized_tx_bytes r).
Definition pending_for_session (session_id : Uuid) (entries : list PendingEntry) :
    list PendingSummary :=
  map summary_of
    (List.filter (λ e, bool_decide (sq_session_id (pn_request e) = session_id)) entries).
End with_adapters.
End orchestrator.
