(* ===== verification/TxSummary.v ===== *)
(** * What the policy is told of a transaction

    The second half of tools/signing.rs: the instructions of a submitted transaction
    are decoded into the summary that the policy rules read, and the texts of what was
    blocked. *)
From S2P Require Import Prelude WatcherBase RustText Solana SdkTypes Approval ApprovalStore.
From S2P Require PolicyEngine.
#[local] Open Scope string_scope.
#[local] Open Scope Z_scope.

Notation InstructionSummary := PolicyEngine.InstructionSummary.

(** The crate's decoding of a system instruction, and the debug text of the others. *)
Inductive SystemInstruction :=
| Transfer (lamports : Z)
| CreateAccount (lamports space : Z) (owner : Pubkey)
| OtherSystem (debug : string).
Class SystemDecode := system_from_bytes : list byte → option SystemInstruction.

Record DecodedInstruction := MkDecoded {
  dc_program_name : option string;
  dc_description : string;
  dc_transfer_lamports : option Z;
  dc_token_transfer : option PolicyEngine.TokenTransfer;
  dc_is_legacy_token_transfer : bool
}.

Definition SPL_TOKEN_PROGRAM_ID : string := "TokenkegQfeZyiNwAJbNbGKPFXCWuBvf9Ss623VQ5DA".
Definition SPL_TOKEN_2022_PROGRAM_ID : string := "TokenzQdBNbLqP5VEhdkAS6EPFLC1PHnBqCXEpPxuEb".

(** [u64::from_le_bytes(data[1..9])] *)
Definition amount_at_1 (data : list byte) : Z := from_le (take 8 (drop 1 data)).
Definition byte_at (data : list byte) (i : nat) : Z := byte_val (nth i data (byte_of 0)).

Section summary.
Context `{Sdk, SystemDecode}.

(** [account_keys.get(account_indices[k] as usize)?.to_string()] *)
Definition account_text (account_keys : list Pubkey) (account_indices : list Z) (k : nat) :
    option string :=
  i ← account_indices !! k;
  show_pubkey <$> key_at account_keys i.

Definition decode_spl_token_instruction (data : list byte) (account_keys : list Pubkey)
    (account_indices : list Z) : option DecodedInstruction :=
  match data with
  | [] => None
  | _ =>
      let tag := byte_at data 0 in
      if tag =? 12 then
        if (length data <? 10)%nat || (length account_indices <? 4)%nat then None else
        let amount := amount_at_1 data in
        let decimals := byte_at data 9 in
        source ← account_text account_keys account_indices 0;
        mint ← account_text account_keys account_indices 1;
        destination ← account_text account_keys account_indices 2;
        Some (MkDecoded (Some "SPL Token")
                ("TransferChecked: " +:+ fmt amount +:+ " (raw units, " +:+ fmt decimals +:+
                 " decimals) of mint " +:+ mint +:+ " → " +:+ destination)
                None
                (Some (PolicyEngine.MkTokenTransfer mint amount (Some decimals) source destination))
                false)
      else if tag =? 3 then
        if (length data <? 9)%nat || (length account_indices <? 3)%nat then None else
        let amount := amount_at_1 data in
        source ← account_text account_keys account_indices 0;
        destination ← account_text account_keys account_indices 1;
        Some (MkDecoded (Some "SPL Token")
                ("Transfer (legacy): " +:+ fmt amount +:+ " raw units " +:+ source +:+ " → " +:+
                 destination +:+ " (mint not resolved)")
                None None true)
      else None
  end.

Definition plain (name : option string) (description : string) : DecodedInstruction :=
  MkDecoded name description None None false.

(** What follows the system program: the budget, the token programs, anything else.
    The text of a key is ASCII, so its first eight bytes can be cut off. *)
Definition decode_other (program_id : string) (data : list byte) (account_keys : list Pubkey)
    (account_indices : list Z) : DecodedInstruction :=
  if bool_decide (program_id = show_pubkey compute_budget_id) then
    plain (Some "Compute Budget") "ComputeBudget instruction"
  else if bool_decide (program_id = SPL_TOKEN_PROGRAM_ID) ||
          bool_decide (program_id = SPL_TOKEN_2022_PROGRAM_ID) then
    default (plain (Some "SPL Token") "SPL Token instruction")
      (decode_spl_token_instruction data account_keys account_indices)
  else plain None ("Instruction for program " +:+ String.substring 0 8 program_id).

Definition decode_instruction (program_id : string) (data : list byte) (account_keys : list Pubkey)
    (account_indices : list Z) : DecodedInstruction :=
  if bool_decide (program_id = show_pubkey system_program_id) then
    match system_from_bytes data with
    | Some (Transfer lamports) =>
        let to := default "unknown" (account_text account_keys account_indices 1) in
        MkDecoded (Some "System Program") ("Transfer " +:+ fmt lamports +:+ " lamports to " +:+ to)
          (Some lamports) None false
    | Some (CreateAccount lamports space owner) =>
        MkDecoded (Some "System Program")
          ("CreateAccount: " +:+ fmt lamports +:+ " lamports, " +:+ fmt space +:+ " bytes, owner " +:+
           show_pubkey owner)
          (Some lamports) None false
    | Some (OtherSystem debug) => plain (Some "System Program") debug
    | None => decode_other program_id data account_keys account_indices
    end
  else decode_other program_id data account_keys account_indices.

Definition account_role (m : Message) (idx : Z) : option PolicyEngine.AccountRole :=
  pubkey ← key_at (account_keys m) idx;
  Some (PolicyEngine.MkAccountRole (show_pubkey pubkey) None
          (idx <? num_required_signatures (header m)) (msg_is_maybe_writable m (Z.to_nat idx))).

Definition summarize_instruction (m : Message) (ix : CompiledInstruction) :
    option InstructionSummary :=
  program ← key_at (account_keys m) (cx_program_id_index ix);
  let program_id := show_pubkey program in
  let decoded := decode_instruction program_id (cx_data ix) (account_keys m) (cx_accounts ix) in
  Some (PolicyEngine.MkSummary program_id (dc_program_name decoded) (dc_description decoded)
          (dc_transfer_lamports decoded) (dc_token_transfer decoded)
          (dc_is_legacy_token_transfer decoded) (omap (account_role m) (cx_accounts ix))).

Definition summarize_transaction_instructions (tx : Transaction) : list InstructionSummary :=
  omap (summarize_instruction (message tx)) (msg_instructions (message tx)).
End summary.

(** ** Texts and records *)
Definition policy_blocked_error (verdict : PolicyVerdict) : string :=
  match PolicyEngine.verdict_rule_name verdict, PolicyEngine.verdict_reason verdict with
  | Some rule, Some reason => "policy blocked by rule '" +:+ rule +:+ "': " +:+ reason
  | Some rule, None => "policy blocked by rule '" +:+ rule +:+ "'"
  | None, Some reason => "policy blocked: " +:+ reason
  | None, None => "policy blocked: " +:+ PolicyEngine.verdict_label verdict
  end.

(** The fields that [with_policy_fields] adds to an answer. *)
Definition with_policy_fields (data : Payload) (verdict : PolicyVerdict) : Payload :=
  (data ++
   match PolicyEngine.verdict_rule_name verdict with
   | Some n => [("policy_rule_name", PText n)] | None => [] end ++
   match PolicyEngine.verdict_reason verdict with
   | Some r => [("policy_reason", PText r)] | None => [] end)%list.

Definition policy_evaluation_audit (proposal : PolicyEngine.TransactionProposal)
    (verdict : PolicyVerdict) (meta : PolicyEngine.PolicyEvaluationResult) : Payload :=
  let summaries := PolicyEngine.tp_instructions_summary proposal in
  let destinations :=
    map PolicyEngine.ar_pubkey
      (List.filter (λ acc, negb (PolicyEngine.ar_is_signer acc) && PolicyEngine.ar_is_writable acc)
         (mjoin (map PolicyEngine.ix_accounts summaries))) in
  [("proposal_id", PId (PolicyEngine.tp_id proposal));
   ("verdict", PText (PolicyEngine.verdict_label verdict));
   ("matched_rule", POptText (PolicyEngine.verdict_rule_name verdict));
   ("reason", POptText (PolicyEngine.verdict_reason verdict));
   ("rules_total", PNumber (Z.of_nat (PolicyEngine.pe_rules_total meta)));
   ("rules_evaluated", PNumber (Z.of_nat (PolicyEngine.pe_rules_evaluated meta)));
   ("matched_rule_index", POptNumber (Z.of_nat <$> PolicyEngine.pe_matched_rule_index meta));
   ("instructions_count", PNumber (Z.of_nat (length summaries)));
   ("programs", PTexts (map PolicyEngine.ix_program_id summaries));
   ("destinations", PTexts destinations);
   ("total_transfer_lamports",
    PNumber (PolicyEngine.sum_u64 (omap PolicyEngine.ix_transfer_lamports summaries)))].
