(* ===== verification/PolicyStores.v ===== *)
(** * The rules of wallets and sessions

    wallet_policy.rs and session_policy.rs, and the part of daemon.rs that fills them
    at startup: the rules that are put before the global ones; and that the
    rules of sessions survive a restart. *)
From S2P Require Import Prelude WatcherBase RustText Approval.
From S2P Require PolicyEngine.
#[local] Open Scope string_scope.
#[local] Open Scope Z_scope.

Notation PolicyRule := PolicyEngine.PolicyRule.
Notation PolicySet := PolicyEngine.PolicySet.

(** ** Wallets *)
Inductive SignerType := LocalKeypair | Ledger | External | ReadOnly.
#[export] Instance signer_type_eq_dec : EqDecision SignerType.
Proof. solve_decision. Defined.

Record WalletPolicyConfig := MkWalletPolicy {
  wp_max_amount_lamports : option Z;
  wp_program_allowlist : list string;
  wp_required_approver_role : option string;
  wp_rules : list PolicyRule
}.
Record WalletConfig := MkWallet {
  wc_label : string;
  wc_signer_type : SignerType;
  wc_keypair_path : option string;
  wc_keypair_base58 : option string;
  wc_pubkey : option string;
  wc_policy : option WalletPolicyConfig
}.

Notation WalletPolicyStore := (gmap string (list PolicyRule)).

(** [&pubkey[..8.min(pubkey.len())]], which panics within a character. *)
Definition first_eight (pubkey : string) : option string :=
  let l := str_bytes pubkey in
  let n := Nat.min 8 (length l) in
  if is_char_boundary l n then Some (bytes_str (take n l)) else None.

Definition compile_wallet_rules (pubkey label : string) (policy : WalletPolicyConfig) :
    option (list PolicyRule) :=
  let cap :=
    match wp_max_amount_lamports policy with
    | Some max_amount =>
        short ← first_eight pubkey;
        Some [PolicyEngine.MkPolicyRule ("wallet-" +:+ short +:+ "-amount-cap")
                ("Wallet " +:+ label +:+ " amount cap: " +:+ fmt max_amount +:+ " lamports")
                (PolicyEngine.AmountExceedsLamports max_amount)
                (PolicyEngine.RequireHumanApproval
                   ("wallet '" +:+ label +:+ "': amount exceeds " +:+ fmt max_amount +:+ " lamports")
                   (wp_required_approver_role policy))]
    | None => Some []
    end in
  let allowlist :=
    match wp_program_allowlist policy with
    | [] => Some []
    | _ =>
        short ← first_eight pubkey;
        Some [PolicyEngine.MkPolicyRule ("wallet-" +:+ short +:+ "-program-allowlist")
                ("Wallet " +:+ label +:+ " program allowlist") PolicyEngine.ProgramNotInAllowlist
                (PolicyEngine.Reject ("wallet '" +:+ label +:+ "': program not in wallet allowlist"))]
    end in
  let role :=
    match wp_required_approver_role policy, wp_max_amount_lamports policy with
    | Some _, None =>
        short ← first_eight pubkey;
        Some [PolicyEngine.MkPolicyRule ("wallet-" +:+ short +:+ "-requires-role")
                ("Wallet " +:+ label +:+ " requires specific approver") PolicyEngine.Always
                (PolicyEngine.RequireHumanApproval
                   ("wallet '" +:+ label +:+ "': requires designated approver")
                   (wp_required_approver_role policy))]
    | _, _ => Some []
    end in
  cap ← cap; allowlist ← allowlist; role ← role;
  Some (cap ++ allowlist ++ role ++ wp_rules policy)%list.

Definition register (pubkey : string) (wallet_cfg : WalletConfig) (s : WalletPolicyStore) :
    option WalletPolicyStore :=
  match wc_policy wallet_cfg with
  | None => Some s
  | Some policy =>
      wallet_rules ← compile_wallet_rules pubkey (wc_label wallet_cfg) policy;
      Some (match wallet_rules with [] => s | _ => <[pubkey := wallet_rules]> s end)
  end.

(** The wallets whose key the configuration names. *)
Fixpoint from_config (wallets : list WalletConfig) (rules : WalletPolicyStore) :
    option WalletPolicyStore :=
  match wallets with
  | [] => Some rules
  | wallet :: wallets =>
      match wc_pubkey wallet with
      | None => from_config wallets rules
      | Some pubkey => rules ← register pubkey wallet rules; from_config wallets rules
      end
  end.

Definition wallet_rules_of (pubkey : string) (s : WalletPolicyStore) : option (list PolicyRule) :=
  s !! pubkey.
Definition wallet_store_is_empty (s : WalletPolicyStore) : bool := bool_decide (s = ∅).

(** *** Startup *)

(** Loading a key pair into the keystore: the text of its public key, or an error. *)
Class KeyLoading := {
  load_json_file : string → Result string string;
  load_base58 : string → Result string string
}.

Definition load_wallet_into_keystore `{KeyLoading} (w : WalletConfig) : Result string string :=
  match wc_signer_type w with
  | LocalKeypair =>
      match wc_keypair_path w, wc_keypair_base58 w with
      | Some path, _ => load_json_file path
      | None, Some b58 =>
          map_err (λ e, "invalid base58 keypair for '" +:+ wc_label w +:+ "': " +:+ e) (load_base58 b58)
      | None, None =>
          Err ("wallet '" +:+ wc_label w +:+
               "' is LocalKeypair but neither keypair_path nor keypair_base58 is set")
      end
  | Ledger =>
      Err ("wallet '" +:+ wc_label w +:+ "': Ledger signer is not yet supported in V1 — deferred")
  | External =>
      match wc_pubkey w with
      | Some pubkey =>
          if bool_decide (pubkey = "")
          then Err ("wallet '" +:+ wc_label w +:+ "' is External but 'pubkey' is not set in config")
          else Ok pubkey
      | None => Err ("wallet '" +:+ wc_label w +:+ "' is External but 'pubkey' is not set in config")
      end
  | ReadOnly =>
      Err ("wallet '" +:+ wc_label w +:+ "' is ReadOnly — no key material to load (this is expected)")
  end.

Definition loaded_wallets `{KeyLoading} (wallets : list WalletConfig) : list string :=
  omap (λ w, match load_wallet_into_keystore w with Ok pubkey => Some pubkey | Err _ => None end)
    wallets.

(** The configurations are matched with the keys loaded by their position. *)
Fixpoint register_loaded (wallets : list WalletConfig) (loaded : list string)
    (s : WalletPolicyStore) : option WalletPolicyStore :=
  match wallets, loaded with
  | w :: wallets, pubkey :: loaded => s ← register pubkey w s; register_loaded wallets loaded s
  | _, _ => Some s
  end.
Definition wallet_policy_store `{KeyLoading} (wallets : list WalletConfig) :
    option WalletPolicyStore := register_loaded wallets (loaded_wallets wallets) ∅.

(** The key of the local adapter. *)
Definition local_wallet `{KeyLoading} (wallets : list WalletConfig) : option string :=
  '(pubkey, _) ← List.find (λ '(_, cfg), bool_decide (wc_signer_type cfg = LocalKeypair))
                   (zip (loaded_wallets wallets) wallets);
  Some pubkey.

(** ** Sessions *)
Inductive AgentRole := Research | Execution | Risk | Ops.
Definition role_name (r : AgentRole) : string :=
  match r with
  | Research => "research" | Execution => "execution" | Risk => "risk" | Ops => "ops"
  end.
Record RolePolicyProfile := MkProfile { rp_role : string; rp_rules : list PolicyRule }.

Definition build_session_rules (role : AgentRole) (caller_overrides : option (list PolicyRule))
    (role_profiles : list RolePolicyProfile) : list PolicyRule :=
  let caller_rules := default [] caller_overrides in
  let profile_rules :=
    default [] (rp_rules <$> List.find (λ p, bool_decide (rp_role p = role_name role)) role_profiles) in
  (caller_rules ++ profile_rules)%list.

(** The overrides in memory and, when a repository is attached, its rows: a session's
    text and the JSON of its rules. *)
Record SessionPolicyStore := MkSessionPolicies {
  sp_overrides : gmap Uuid (list PolicyRule);
  sp_repo : option (list (string * string))
}.
Class RulesJson := {
  rules_to_json : list PolicyRule → Result string string;
  rules_from_json : string → Result string (list PolicyRule);
  session_text : Uuid → string;
  session_parse : string → option Uuid
}.

Section sessions.
Context `{RulesJson}.





Definition has_overrides (session_id : Uuid) (s : SessionPolicyStore) : bool :=
  bool_decide (is_Some (sp_overrides s !! session_id)).


End sessions.

(** ** The global rules *)
Record PolicyConfig := MkPolicyConfig {
  pf_rules : list PolicyRule;
  pf_program_allowlist : list string;
  pf_destination_denylist : list string;
  pf_mainnet_safe_defaults : bool;
  pf_role_profiles : list RolePolicyProfile;
  pf_approval_lease_seconds : Z
}.

Definition default_policy_rules (network : PolicyEngine.SolanaNetwork)
    (mainnet_safe_defaults : bool) : list PolicyRule :=
  if mainnet_safe_defaults &&
     match network with PolicyEngine.MainnetBeta => true | _ => false end then
    [PolicyEngine.MkPolicyRule "mainnet-requires-human"
       "All mainnet transactions require human approval"
       (PolicyEngine.NetworkIn [PolicyEngine.MainnetBeta])
       (PolicyEngine.RequireHumanApproval
          "mainnet transaction requires explicit operator approval" None);
     PolicyEngine.MkPolicyRule "devnet-allow" "Allow devnet transactions automatically"
       (PolicyEngine.NetworkIn
          [PolicyEngine.Devnet; PolicyEngine.Testnet; PolicyEngine.Localnet]) PolicyEngine.Approve]
  else
    [PolicyEngine.MkPolicyRule "allow-all" "Approve all transactions (devnet/testnet only)"
       PolicyEngine.Always PolicyEngine.Approve].

Definition build_policy_set (network : PolicyEngine.SolanaNetwork) (config : PolicyConfig) :
    PolicySet :=
  PolicyEngine.MkPolicySet
    (pf_rules config ++ default_policy_rules network (pf_mainnet_safe_defaults config))
    (pf_program_allowlist config) (pf_destination_denylist config).

(** ** The policy of a transaction: wallet, then session, then global rules *)
Definition effective_policy (policy_set : PolicySet)
    (session_rules wallet_rules : option (list PolicyRule)) : PolicySet :=
  let p := match session_rules with
           | Some rules => PolicyEngine.with_session_rules rules policy_set
           | None => policy_set
           end in
  match wallet_rules with
  | Some rules => PolicyEngine.with_session_rules rules p
  | None => p
  end.

(** * What the rule stores keep

    Session rules survive a restart; and what startup makes of wallets that do not
    load. *)

(** ** Sessions *)
Section sessions.
Context `{RulesJson}.

(** Ids are read back. *)
Class SessionText : Prop := session_read id : session_parse (session_text id) = Some id.




(** *** Rows *)
Context `{!SessionText}.
Definition row_of (id : Uuid) (json : string) (rows : list (string * string)) : Prop :=
  (session_text id, json) ∈ rows.









End sessions.

(** ** Wallets *)

(** A wallet's own list of programs becomes a rule that reads the global list, and
    while that is empty the rule never matches. *)
Lemma wallet_allowlist_ignored `{PolicyEngine.Chrono} rules denylist ctx now :
  PolicyEngine.condition_matches_at (PolicyEngine.MkPolicySet rules [] denylist)
    (PolicyEngine.MkPolicyRule "" "" PolicyEngine.ProgramNotInAllowlist (PolicyEngine.Reject "")) ctx now
  = false.
Proof. done. Qed.

Section runs.
(** Ids and rule lists in unary. *)
Fixpoint ticks (n : nat) : string := match n with O => "" | S n => "|" +:+ ticks n end.
Lemma length_ticks n : String.length (ticks n) = n.
Proof.
  induction n as [|n IH]; [done|]. change (S (String.length (ticks n)) = S n). by rewrite IH.
Qed.

Definition run_rule : PolicyRule :=
  PolicyEngine.MkPolicyRule "r" "" PolicyEngine.Always PolicyEngine.Approve.
#[local] Instance run_json : RulesJson := {|
  rules_to_json l := Ok (ticks (length l));
  rules_from_json s := Ok (replicate (String.length s) run_rule);
  session_text id := ticks (N.to_nat id);
  session_parse s := Some (N.of_nat (String.length s))
|}.
#[local] Instance run_text : SessionText.
Proof. intros id. cbn. by rewrite length_ticks, N2Nat.id. Qed.


End runs.

Section startup.
#[local] Instance demo_loading : KeyLoading := {| load_json_file := Ok; load_base58 := Ok |}.
Definition capped : WalletPolicyConfig := MkWalletPolicy (Some 1000) [] None [].
Definition watch_only : WalletConfig := MkWallet "watch" ReadOnly None None None None.
Definition hot : WalletConfig := MkWallet "hot" LocalKeypair None (Some "HotWallet") None (Some capped).

(** A read-only wallet, which never loads, shifts the keys that did against the
    configurations: the cap of the wallet after it is not registered, and no local
    signer is found. *)
Lemma unloaded_wallet_shifts_policies :
  wallet_policy_store [hot] ≠ Some ∅ ∧ local_wallet [hot] = Some "HotWallet" ∧
  wallet_policy_store [watch_only; hot] = Some ∅ ∧ local_wallet [watch_only; hot] = None.
Proof. split_and!; by vm_compute. Qed.
End startup.
