(* ===== verification/SigningTool.v ===== *)
(** * The signing tool

    tools/signing.rs: an agent's transaction is simulated, put to the policy and then
    signed, refused, or parked until operators decide; and the task that goes on after
    the decision. *)
From S2P Require Import Prelude Interaction WatcherBase Solana SdkTypes Approval ApprovalStore.
From S2P Require Import SigningEvents TxReview TxSummary PolicyStores Orchestrator.
From S2P Require PolicyEngine.
#[local] Open Scope string_scope.
#[local] Open Scope Z_scope.

(** The parameters of a call that the tool reads, where they are strings. *)
Record ToolInput := MkInput {
  ti_session_id : Uuid;
  ti_transaction_b64 : option string;
  ti_description : option string;
  ti_wallet_pubkey : option string
}.
Record ToolOutput := MkToolOutput {
  to_success : bool;
  to_data : Payload;
  to_error : option string
}.
Inductive ToolError := InvalidInput (reason : string) | ExecutionFailed (reason : string).

(** Base64 decoding; the error's text. *)
Class Base64 := base64_bytes : string → Result string (list byte).
Class Base64Encode := base64_text : list byte → string.

(** What the tool is constructed with. *)
Record SigningConfig := MkSigningConfig {
  sc_priority_fee : PriorityFeeStrategy;
  sc_adapters : list WalletAdapter;
  sc_policy_set : PolicySet;
  sc_network : PolicyEngine.SolanaNetwork;
  sc_wallet_policy : WalletPolicyStore;
  sc_durable : bool;
  sc_approval_lease_seconds : Z;
  sc_rpc_client : bool
}.

Section tool.
Context `{PolicyEngine.Chrono, Sdk, Sha256, SystemDecode, Calendar, UuidText, Base64, Base64Encode}.
Context (cfg : SigningConfig).
#[local] Open Scope rprog_scope.
Notation TProg := (RProg ToolError).

(** An audit record of a session. *)
Definition audit {E} (session id : Uuid) (event_type actor : string) (payload : Payload)
    (severity : Severity) : RProg E unit :=
  run_event (Emit (Audit (Some session) id event_type actor payload severity)).

Definition refused_output (proposal : TransactionProposal) (verdict : PolicyVerdict) : ToolOutput :=
  MkToolOutput false
    (with_policy_fields [("status", PText "policy_blocked");
                         ("policy_verdict", PText (PolicyEngine.verdict_label verdict))] verdict)
    (Some (policy_blocked_error verdict)).

(** A blocked verdict is audited and announced. *)
Definition report_blocked (proposal : TransactionProposal) (verdict : PolicyVerdict)
    (meta : PolicyEngine.PolicyEvaluationResult) : TProg ToolOutput :=
  let details := policy_evaluation_audit proposal verdict meta in
  _ ← audit (PolicyEngine.tp_session_id proposal) (PolicyEngine.tp_id proposal) "policy_evaluation"
        "pipeline" details SevWarning;
  _ ← run_event (Emit (Alert "policy_rejected" SevWarning (policy_blocked_error verdict) details));
  done (refused_output proposal verdict).

(** ** Parking *)
Definition park_for_approval (proposal : TransactionProposal) (approved : ApprovedTransaction) :
    TProg ToolOutput :=
  let session := PolicyEngine.tp_session_id proposal in
  let wallet := PolicyEngine.tp_wallet_pubkey proposal in
  let simulation := sx_simulation (ax_inner approved) in
  let verdict := ax_policy_verdict approved in
  let tx := sx_inner (ax_inner approved) in
  is_external ← run_event (IsBound session wallet);
  request_id ← run_event NewUuid;
  now ← run_event UtcNow;
  let approval_request :=
    MkRequest request_id session (PolicyEngine.tp_id proposal) (PolicyEngine.tp_description proposal)
      verdict simulation now false
      (match verdict with
       | PolicyEngine.RequiresHumanApproval _ _ role _ => role
       | _ => None
       end) in
  created ← run_event UtcNow;
  lease_now ← run_event UtcNow;
  workflow ← of_option (workflow_of_verdict created lease_now request_id session verdict
                          (sc_approval_lease_seconds cfg));
  _ ← (if sc_durable cfg then
         bytes ← of_result (map_err (λ e, ExecutionFailed ("serialize tx: " +:+ e)) (tx_to_bytes tx));
         r ← run_event (PersistApproval
                          (MkApprovalRow request_id approval_request proposal bytes simulation verdict));
         of_result (map_err (λ e, ExecutionFailed ("failed to persist pending approval: " +:+ e)) r)
       else done tt);
  tx_bytes ← of_result (map_err (λ e, ExecutionFailed
                                   ("failed to serialize parked transaction: " +:+ e))
                          (tx_to_bytes tx));
  channel ← run_event (Park request_id
                         (MkParked proposal tx_bytes simulation verdict
                            (sx_last_valid_block_height (ax_inner approved))));
  _ ← run_event (RegisterApproval approval_request workflow);
  _ ← audit session request_id
        (if (is_external : bool) then "approval_requested_external_wallet" else "approval_requested")
        "pipeline"
        [("request_id", PId request_id); ("proposal_id", PId (PolicyEngine.tp_id proposal));
         ("description", PText (PolicyEngine.tp_description proposal));
         ("policy_verdict", PText (PolicyEngine.verdict_label verdict));
         ("wallet_pubkey", PText wallet);
         ("signer_type", PText (if is_external then "external" else "local"))] SevWarning;
  _ ← run_event (Publish (ApprovalRequested session request_id (PolicyEngine.tp_id proposal)));
  _ ← run_event (SpawnResume (MkResume channel request_id proposal session wallet
                                (sc_approval_lease_seconds cfg)));
  done (MkToolOutput true
    (with_policy_fields
       ([("status", PText "awaiting_approval"); ("approval_request_id", PText (uuid_text request_id));
         ("message", PText "Transaction is awaiting operator approval. Use POST /sessions/:id/approve with this request_id.")]
        ++ (if is_external then [("signer_type", PText "external")] else []))%list verdict) None).

(** ** Signing at once *)

(** The signed transaction is sent when there is a client. *)
Definition auto_submit (proposal : TransactionProposal) (signature : string)
    (signed_tx_bytes : list byte) : TProg (bool * option string) :=
  if sc_rpc_client cfg then
    r ← run_event (SendRaw signed_tx_bytes);
    match r with
    | Ok sig =>
        _ ← run_event (Publish (TransactionSent (PolicyEngine.tp_session_id proposal)
                         (PolicyEngine.tp_id proposal) (PolicyEngine.tp_wallet_pubkey proposal) signature));
        done (true, Some sig)
    | Err _ => done (false, None)
    end
  else done (false, None).

Definition record_fee {E} (wallet : string) (session transaction : Uuid) (fee : option Z) :
    RProg E unit :=
  match fee with
  | Some fee => run_event (RecordSpend wallet session transaction fee)
  | None => done tt
  end.

Definition signed_now (proposal : TransactionProposal) (simulation : SimulationResult)
    (verdict : PolicyVerdict) (signature : string) (signed_tx_bytes : list byte) :
    TProg ToolOutput :=
  let session := PolicyEngine.tp_session_id proposal in
  let wallet := PolicyEngine.tp_wallet_pubkey proposal in
  _ ← record_fee wallet session (PolicyEngine.tp_id proposal) (PolicyEngine.sr_fee_lamports simulation);
  _ ← audit session (PolicyEngine.tp_id proposal) "transaction_signed" "pipeline"
        [("proposal_id", PId (PolicyEngine.tp_id proposal)); ("wallet_pubkey", PText wallet);
         ("signature", PText signature); ("description", PText (PolicyEngine.tp_description proposal));
         ("policy_verdict", PText (PolicyEngine.verdict_label verdict));
         ("compute_units", POptNumber (PolicyEngine.sr_compute_units_used simulation))] SevInfo;
  _ ← run_event (Publish (TransactionSigned session (PolicyEngine.tp_id proposal) wallet signature));
  '(submitted, tx_signature) ← auto_submit proposal signature signed_tx_bytes;
  done (MkToolOutput true
    (with_policy_fields
       [("status", PText "signed"); ("signature", PText signature); ("submitted", PBool submitted);
        ("tx_signature", POptText tx_signature)] verdict) None).

(** *** Waiting for an external wallet *)

(** The durable copy comes first; without it the pending request is taken back. *)
Definition persist_signature {E} (session : Uuid) (proposal : TransactionProposal)
    (wallet : string) (request_id : Uuid) (adapter : string) (bytes : list byte) (fee : option Z) :
    RProg E (Result string unit) :=
  if sc_durable cfg then
    r ← run_event (PersistSignature
           (MkSignatureRow request_id session (PolicyEngine.tp_id proposal)
              wallet (PolicyEngine.tp_description proposal) bytes adapter fee));
    match r with
    | Ok _ => done (Ok tt)
    | Err e => _ ← attempt (abort_pending request_id); done (Err e)
    end
  else done (Ok tt).

Definition pending_now (proposal : TransactionProposal) (simulation : SimulationResult)
    (verdict : PolicyVerdict) (height : Z) (request_id : Uuid) (adapter : string)
    (bytes : list byte) : TProg ToolOutput :=
  let session := PolicyEngine.tp_session_id proposal in
  let wallet := PolicyEngine.tp_wallet_pubkey proposal in
  p ← persist_signature session proposal wallet request_id adapter bytes
        (PolicyEngine.sr_fee_lamports simulation);
  match p with
  | Err e =>
      _ ← audit session request_id "persistence_failed_rollback" "pipeline"
            [("request_id", PId request_id); ("proposal_id", PId (PolicyEngine.tp_id proposal));
             ("wallet_pubkey", PText wallet); ("error", PText e)] SevError;
      fail (ExecutionFailed ("failed to establish durable pending state: " +:+ e))
  | Ok _ =>
      _ ← run_event (MetaInsert request_id
                       (MkMeta (PolicyEngine.sr_fee_lamports simulation) (Some height)));
      _ ← audit session request_id "wallet_signature_requested" "pipeline"
            [("request_id", PId request_id); ("proposal_id", PId (PolicyEngine.tp_id proposal));
             ("description", PText (PolicyEngine.tp_description proposal)); ("wallet_pubkey", PText wallet);
             ("policy_verdict", PText (PolicyEngine.verdict_label verdict));
             ("signer_type", PText "external")] SevInfo;
      _ ← run_event (Publish (WalletSignatureRequested session request_id
                                (PolicyEngine.tp_id proposal) wallet));
      done (MkToolOutput true
        (with_policy_fields
           [("status", PText "awaiting_wallet_signature");
            ("wallet_signature_request_id", PText (uuid_text request_id));
            ("unsigned_tx_b64", PText (base64_text bytes)); ("wallet_pubkey", PText wallet);
            ("message", PText "Transaction is awaiting signature from the external wallet. Sign the unsigned_tx_b64 and submit via POST /sessions/:id/wallet-signatures.")]
           verdict) None)
  end.

Definition sign_now (proposal : TransactionProposal) (approved : ApprovedTransaction) :
    TProg ToolOutput :=
  let simulation := sx_simulation (ax_inner approved) in
  let verdict := ax_policy_verdict approved in
  bytes ← of_result (map_err (λ e, ExecutionFailed ("failed to serialize tx: " +:+ e))
                       (tx_to_bytes (sx_inner (ax_inner approved))));
  signer ← of_result (map_err (λ e, ExecutionFailed ("invalid wallet pubkey: " +:+ e))
                        (parse_pubkey (PolicyEngine.tp_wallet_pubkey proposal)));
  id ← run_event NewUuid;
  outcome ← mapping_err (λ e, ExecutionFailed ("orchestrator: " +:+ show_signature_error e))
    (submit (sc_adapters cfg)
       (MkSignatureRequest id (PolicyEngine.tp_session_id proposal) (PolicyEngine.tp_id proposal) bytes
          signer (PolicyEngine.tp_description proposal)));
  match outcome with
  | Signed _ signature signed_tx_bytes _ _ _ =>
      signed_now proposal simulation verdict signature signed_tx_bytes
  | SignaturePending request_id adapter bytes =>
      pending_now proposal simulation verdict (sx_last_valid_block_height (ax_inner approved))
        request_id adapter bytes
  end.

(** ** The tool *)
Definition simulation_error (e : WalletError) : ToolError :=
  match e with
  | WalletSimulationFailed error => ExecutionFailed ("simulation failed: " +:+ error)
  | other => ExecutionFailed ("simulation error: " +:+ wallet_error other)
  end.

(** After the review. *)
Definition route (proposal : TransactionProposal) (approved : ApprovedTransaction)
    (meta : PolicyEngine.PolicyEvaluationResult) : TProg ToolOutput :=
  let verdict := ax_policy_verdict approved in
  _ ← audit (PolicyEngine.tp_session_id proposal) (PolicyEngine.tp_id proposal) "policy_evaluation"
        "pipeline" (policy_evaluation_audit proposal verdict meta)
        (if PolicyEngine.requires_human verdict then SevWarning else SevInfo);
  if PolicyEngine.requires_human verdict then park_for_approval proposal approved
  else sign_now proposal approved.

Definition unwrap_or_zero (r : Result string Z) : Z := match r with Ok n => n | Err _ => 0 end.

(** The review of a decoded transaction. *)
Definition review (proposal : TransactionProposal) (tx : Transaction) : TProg ToolOutput :=
  let session := PolicyEngine.tp_session_id proposal in
  let wallet := PolicyEngine.tp_wallet_pubkey proposal in
  today ← run_event Today;
  daily ← run_event (WalletDailySpend wallet today);
  session_spend ← run_event (SessionSpend session);
  rules ← run_event (SessionRules session);
  let policy := effective_policy (sc_policy_set cfg) rules
                  (wallet_rules_of wallet (sc_wallet_policy cfg)) in
  simulated ← mapping_err simulation_error (simulate (sc_priority_fee cfg) tx);
  now ← run_event PolicyClock;
  let evaluate sim :=
    PolicyEngine.evaluate_at policy
      (PolicyEngine.MkPolicyContext proposal (Some sim) (sc_network cfg)
         (unwrap_or_zero session_spend) (unwrap_or_zero daily)) now in
  let meta := evaluate (sx_simulation simulated) in
  match evaluate_policy simulated (λ sim, PolicyEngine.pe_verdict (evaluate sim)) with
  | Ok approved => route proposal approved meta
  | Err (PolicyBlocked verdict) => report_blocked proposal verdict meta
  | Err other => fail (ExecutionFailed ("policy error: " +:+ wallet_error other))
  end.

Definition execute (input : ToolInput) : TProg ToolOutput :=
  tx_b64 ← of_result (ok_or (ti_transaction_b64 input) (InvalidInput "transaction_b64 required"));
  let description := default "agent-submitted transaction" (ti_description input) in
  let wallet_pubkey := default "" (ti_wallet_pubkey input) in
  bytes ← of_result (map_err (λ e, InvalidInput ("invalid base64: " +:+ e)) (base64_bytes tx_b64));
  tx ← of_result (map_err (λ e, InvalidInput ("invalid transaction bytes: " +:+ e))
                    (tx_from_bytes bytes));
  id ← run_event NewUuid;
  created_at ← run_event UtcNow;
  review (PolicyEngine.MkProposal id (ti_session_id input) wallet_pubkey (sc_network cfg) description
            tx_b64 (summarize_transaction_instructions tx) created_at) tx.
End tool.
