(* ===== verification/SigningTasks.v ===== *)
(** * What follows a decision or a wallet's signature

    The task of tools/signing.rs that waits for the operators, and the handlers of
    daemon.rs for a decision and for a transaction signed by an external wallet; then
    all programs of the signing path interleaved over the state they share. *)
From stdpp Require Import functions.
From S2P Require Import Prelude Interaction Solana WatcherBase RustText Approval ApprovalStore.
From S2P Require Import ApprovalFacts SdkTypes ComputeBudget SigningEvents TxReview.
From S2P Require Import WalletAdapters Orchestrator TxSummary PolicyStores SigningTool.
From S2P Require PolicyEngine.
#[local] Open Scope string_scope.
#[local] Open Scope Z_scope.

(** The answer to a submitted signature. *)
Record WalletSignatureOutcome := MkWalletOutcome {
  wo_request_id : Uuid;
  wo_accepted : bool;
  wo_signature : option string;
  wo_tx_signature : option string;
  wo_submitted : bool;
  wo_error : option string;
  wo_rebuild_required : bool
}.

Section tasks.
Context `{PolicyEngine.Chrono, Sdk, Sha256, SystemDecode, Calendar, UuidText, Base64, Base64Encode}.
Context (cfg : SigningConfig).
#[local] Open Scope rprog_scope.
Notation Task := (RProg Empty_set).

(** ** The task that waits for the operators *)
Definition mark_approval {E} (id : Uuid) (state : string) (reason : option string) : RProg E unit :=
  if sc_durable cfg then run_event (MarkApprovalTerminal id state reason) else done tt.

Definition publish_failed {E} (args : ResumeArgs) (error : string) : RProg E unit :=
  run_event (Publish (TransactionFailed (ra_session_id args)
    (PolicyEngine.tp_id (ra_proposal args)) (ra_wallet_pubkey args) error StAwaitingApproval)).

(** 0 stands for a day. *)
Definition lease_duration (lease_seconds : Z) : Z :=
  if 0 <? lease_seconds then lease_seconds else 86400.

Definition not_decided (args : ResumeArgs) (reason kind : string) (details : Payload) : Task unit :=
  let id := ra_request_id args in
  _ ← mark_approval id "expired" (Some reason);
  _ ← run_event (RemoveParked id);
  audit (ra_session_id args) id kind "system" (("request_id", PId id) :: details) SevWarning.

Definition not_approved (args : ResumeArgs) (state : ApprovalWorkflowState) : Task unit :=
  let id := ra_request_id args in
  _ ← mark_approval id (state_label state) None;
  _ ← run_event (RemoveParked id);
  publish_failed args "operator rejected".

Definition resumed_signed (args : ResumeArgs) (parked : ParkedApproval) (signature : string) :
    Task unit :=
  let session := ra_session_id args in
  let proposal := pk_proposal parked in
  let simulation := pk_simulation parked in
  _ ← record_fee (PolicyEngine.tp_wallet_pubkey proposal) session (PolicyEngine.tp_id proposal)
        (PolicyEngine.sr_fee_lamports simulation);
  _ ← audit session (ra_request_id args) "transaction_signed_after_approval" "pipeline"
        [("request_id", PId (ra_request_id args)); ("proposal_id", PId (PolicyEngine.tp_id proposal));
         ("signature", PText signature);
         ("policy_verdict", PText (PolicyEngine.verdict_label (pk_policy_verdict parked)));
         ("compute_units", POptNumber (PolicyEngine.sr_compute_units_used simulation))] SevInfo;
  run_event (Publish (TransactionSigned session (PolicyEngine.tp_id proposal)
                        (PolicyEngine.tp_wallet_pubkey proposal) signature)).

Definition resumed_pending (args : ResumeArgs) (parked : ParkedApproval) (pending_id : Uuid)
    (adapter : string) (bytes : list byte) : Task unit :=
  let session := ra_session_id args in
  let proposal := ra_proposal args in
  let wallet := ra_wallet_pubkey args in
  let fee := PolicyEngine.sr_fee_lamports (pk_simulation parked) in
  let height := pk_last_valid_block_height parked in
  p ← persist_signature cfg session proposal wallet pending_id adapter bytes fee;
  match p with
  | Err e =>
      _ ← audit session pending_id "wallet_signature_persistence_failed" "pipeline"
            [("request_id", PId pending_id); ("approval_request_id", PId (ra_request_id args));
             ("proposal_id", PId (PolicyEngine.tp_id proposal)); ("wallet_pubkey", PText wallet);
             ("error", PText e)] SevError;
      run_event (Publish (TransactionFailed session (PolicyEngine.tp_id proposal) wallet
                            ("durable persist failed after approval: " +:+ e) StSigned))
  | Ok _ =>
      _ ← run_event (MetaInsert pending_id
                       (MkMeta fee (if 0 <? height then Some height else None)));
      _ ← audit session pending_id "wallet_signature_requested_after_approval" "pipeline"
            [("request_id", PId pending_id); ("approval_request_id", PId (ra_request_id args));
             ("proposal_id", PId (PolicyEngine.tp_id proposal)); ("wallet_pubkey", PText wallet)] SevInfo;
      run_event (Publish (WalletSignatureRequested session pending_id (PolicyEngine.tp_id proposal)
                            wallet))
  end.

Definition resumed_failed (args : ResumeArgs) (parked : ParkedApproval) (e : SignatureError) :
    Task unit :=
  _ ← audit (ra_session_id args) (ra_request_id args) "transaction_sign_failed" "pipeline"
        [("error", PText (show_signature_error e)); ("request_id", PId (ra_request_id args))] SevError;
  run_event (Publish (TransactionFailed (ra_session_id args)
    (PolicyEngine.tp_id (pk_proposal parked)) (PolicyEngine.tp_wallet_pubkey (pk_proposal parked))
    (show_signature_error e) StSigned)).

Definition resume_approved (args : ResumeArgs) : Task unit :=
  let id := ra_request_id args in
  _ ← mark_approval id "consumed" (Some "operator approved");
  taken ← run_event (TakeParked id);
  match taken with
  | None => done tt
  | Some parked =>
      match parse_pubkey (ra_wallet_pubkey args) with
      | Err _ => done tt
      | Ok expected_signer =>
          sig_request_id ← run_event NewUuid;
          outcome ← attempt (submit (sc_adapters cfg)
            (MkSignatureRequest sig_request_id (ra_session_id args)
               (PolicyEngine.tp_id (pk_proposal parked)) (pk_tx_bytes parked) expected_signer
               (PolicyEngine.tp_description (pk_proposal parked))));
          match outcome with
          | Ok (Signed _ signature _ _ _ _) => resumed_signed args parked signature
          | Ok (SignaturePending pending_id adapter bytes) =>
              resumed_pending args parked pending_id adapter bytes
          | Err e => resumed_failed args parked e
          end
      end
  end.

Definition resume_after_approval (args : ResumeArgs) : Task unit :=
  awaited ← run_event (AwaitDecision (ra_channel args) (lease_duration (ra_lease_seconds args)));
  match awaited with
  | ChannelDropped => not_decided args "channel dropped" "approval_channel_dropped" []
  | LeaseElapsed =>
      _ ← not_decided args "lease timeout" "approval_lease_expired_no_action"
            [("lease_seconds", PNumber (ra_lease_seconds args));
             ("reason", PText "no operator decision within lease window")];
      publish_failed args "approval lease expired"
  | Decided state =>
      if is_approved state then resume_approved args else not_approved args state
  end.

(** ** The handler of a decision *)
Definition perform {E} (x : Effect) : RProg E unit :=
  match x with
  | SignalSigning id state => _ ← run_event (SignalParked id state); done tt
  | x => run_event (Emit x)
  end.
Fixpoint perform_all {E} (l : list Effect) : RProg E unit :=
  match l with [] => done tt | x :: l => _ ← perform x; perform_all l end.

Definition handle_decision {E} (decision : ApprovalDecision) :
    RProg E (ApprovalOutcome * option ApprovalRequest) :=
  r ← run_event (DecideApproval decision);
  '(outcome, request, effects, _) ← of_option r;
  _ ← perform_all effects;
  done (outcome, request).

(** ** The handler of a wallet's signature *)
Definition wallet_refused (request_id : Uuid) (error : string) (rebuild : bool) :
    WalletSignatureOutcome :=
  MkWalletOutcome request_id false None None false (Some error) rebuild.

(** The height written to the tracking row; never 0. *)
Definition submission_height (answer : Result string Z) (last_valid : Z) : Z :=
  match answer with
  | Ok h => h
  | Err _ => let fallback := Z.max 0 (last_valid - 150) in if fallback =? 0 then 1 else fallback
  end.

(** [parse_signature] reads the text of a signature. *)
Class SignatureText := parse_signature : string → option Signature.

Definition track_submission `{SignatureText} {E} (session request_id transaction_id : Uuid)
    (signer tx_sig : string) (last_valid : Z) (bytes : list byte) : RProg E unit :=
  match parse_signature tx_sig with
  | None => done tt
  | Some _ =>
      h ← run_event GetBlockHeight;
      let row := MkTrackingRow tx_sig transaction_id request_id session signer last_valid
                   (submission_height h last_valid) in
      r ← run_event (TrackingInsert row);
      match r with
      | Ok _ => run_event (Track row bytes)
      | Err e =>
          audit session request_id "tracking_persistence_failed" "execution"
            [("request_id", PId request_id); ("transaction_id", PId transaction_id);
             ("tx_signature", PText tx_sig); ("error", PText e)] SevWarning
      end
  end.

(** The bytes as they came are broadcast; what the adapter serialized is not used. *)
Definition broadcast `{SignatureText} {E} (session request_id transaction_id : Uuid)
    (signer : string) (last_valid : Z) (bytes : list byte) :
    RProg E (option string * bool * option string) :=
  r ← (match classify_signed_tx_kind bytes with
       | KindV0 => run_event (SendRawV0 bytes)
       | KindLegacy => run_event (SendRaw bytes)
       end : RProg E (Result string string));
  match r with
  | Ok tx_sig =>
      _ ← track_submission session request_id transaction_id signer tx_sig last_valid bytes;
      _ ← audit session request_id "transaction_submitted" "execution"
            [("request_id", PId request_id); ("transaction_id", PId transaction_id);
             ("wallet_pubkey", PText signer); ("tx_signature", PText tx_sig)] SevInfo;
      _ ← run_event (Publish (TransactionSent session transaction_id signer tx_sig));
      done (Some tx_sig, true, None)
  | Err reason =>
      _ ← audit session request_id "transaction_send_failed" "execution"
            [("request_id", PId request_id); ("transaction_id", PId transaction_id);
             ("wallet_pubkey", PText signer); ("error", PText reason)] SevWarning;
      done (None, false, Some reason)
  end.

Definition signature_accepted `{SignatureText} (session request_id : Uuid)
    (signature : string) (transaction_id : Uuid) (signer : string) (bytes : list byte) :
    Task WalletSignatureOutcome :=
  meta ← run_event (MetaTake request_id);
  let fee := (meta : option CompletionMeta) ≫= cm_fee_lamports in
  let last_valid := default 0 ((meta : option CompletionMeta) ≫= cm_last_valid_block_height) in
  _ ← run_event (MarkSignatureTerminal request_id "consumed" (Some "signature accepted"));
  _ ← run_event (MarkMetaTerminal request_id "consumed");
  _ ← record_fee signer session transaction_id fee;
  _ ← audit session request_id "wallet_signature_received" "external_wallet"
        [("request_id", PId request_id); ("transaction_id", PId transaction_id);
         ("wallet_pubkey", PText signer); ("signature", PText signature)] SevInfo;
  _ ← run_event (Publish (WalletSignatureReceived session request_id transaction_id signer));
  _ ← run_event (Publish (TransactionSigned session transaction_id signer signature));
  '(tx_signature, submitted, error) ← broadcast session request_id transaction_id signer last_valid bytes;
  done (MkWalletOutcome request_id true (Some signature) tx_signature submitted error false).

Definition signature_rejected (session request_id : Uuid) (e : SignatureError) :
    Task WalletSignatureOutcome :=
  let rebuild := match e with BlockhashModified => true | _ => false end in
  let reason := show_signature_error e in
  let terminal := if rebuild then "blockhash_modified" else "rejected" in
  _ ← run_event (MarkSignatureTerminal request_id terminal (Some reason));
  _ ← run_event (MarkMetaTerminal request_id terminal);
  _ ← run_event (MetaTake request_id);
  _ ← audit session request_id
        (if rebuild then "wallet_blockhash_modified_rebuild_required" else "wallet_signature_rejected")
        "external_wallet"
        [("request_id", PId request_id); ("reason", PText reason); ("rebuild_required", PBool rebuild)]
        SevWarning;
  _ ← run_event (Publish (WalletSignatureRejected session request_id reason));
  done (wallet_refused request_id reason rebuild).

Definition submit_signed_tx `{SignatureText} (session_id request_id : Uuid)
    (signed_tx_b64 : string) : Task WalletSignatureOutcome :=
  match base64_bytes signed_tx_b64 with
  | Err e => done (wallet_refused request_id ("invalid base64: " +:+ e) false)
  | Ok signed_tx_bytes =>
      owner ← run_event (PendingSession request_id);
      match owner with
      | None => done (wallet_refused request_id "no pending request with this ID" false)
      | Some owner =>
          if bool_decide (owner ≠ session_id)
          then done (wallet_refused request_id "request not found for this session" false)
          else
            r ← attempt (complete (sc_adapters cfg) request_id signed_tx_bytes);
            match r with
            | Ok (Signed _ signature _ _ transaction_id signer) =>
                signature_accepted session_id request_id signature transaction_id signer signed_tx_bytes
            | Ok (SignaturePending _ _ _) =>
                done (wallet_refused request_id "internal error: unexpected pending state" false)
            | Err e => signature_rejected session_id request_id e
            end
      end
  end.
End tasks.

(** * Signing tasks over the shared stores

    Any number of tool calls, decisions, resumed tasks and wallet signatures,
    interleaved at every await: the stores they share, what is written to their common
    history, and what a program must know before it parks, signs or sends. *)

Section flow.
Context `{PolicyEngine.Chrono, Sdk, Sha256, SystemDecode, Calendar, UuidText, Base64, Base64Encode,
  SignatureText}.
Context (cfg : SigningConfig).

(** ** The history, newest first *)
Inductive SignEntry :=
| XUuid (id : Uuid)
| XClock (now : PolicyEngine.DateTime)
| XDaily (wallet day : string) (r : Result string Z)
| XSession (session : Uuid) (r : Result string Z)
| XRules (session : Uuid) (rules : option (list PolicyRule))
| XSimulated (tx : Transaction) (r : Result string SimulationValue)
| XParked (id : Uuid) (p : ParkedApproval) (channel : nat)
| XApproval (e : ApprovalEvent)
| XSignalled (id : Uuid) (state : ApprovalWorkflowState)
| XKeyUsed (key : Pubkey) (bytes : list byte)
| XPending (id : Uuid) (entry : PendingEntry)
| XReleased (id : Uuid) (entry : PendingEntry)
| XSent (bytes : list byte)
| XSpent (wallet : string) (fee : Z).
Notation SignLog := (list SignEntry).

Definition sign_entries (e : SignEvent) : SignAnswer e → SignLog :=
  match e return SignAnswer e → SignLog with
  | NewUuid => λ id, [XUuid id]
  | PolicyClock => λ now, [XClock now]
  | WalletDailySpend w d => λ r, [XDaily w d r]
  | SessionSpend s => λ r, [XSession s r]
  | SessionRules s => λ rules, [XRules s rules]
  | SimulateRpc tx => λ r, [XSimulated tx r]
  | Park id p => λ ch, [XParked id p ch]
  | RegisterApproval rq w => λ _, [XApproval (ERegister (rq_id rq) w)]
  | DecideApproval d => λ r,
      match r with Some (_, _, es, now) => [XApproval (EDecide now d es)] | None => [] end
  | SignalParked id st => λ delivered, if delivered then [XSignalled id st] else []
  | PartialSign k tx => λ r,
      match r with Some _ => [XKeyUsed k (message_of tx)] | None => [] end
  | SignMessage k m => λ _, [XKeyUsed k m]
  | PendingInsert id en => λ _, [XPending id en]
  | PendingRemove id => λ r, match r with Some en => [XReleased id en] | None => [] end
  | SendRaw b | SendRawV0 b => λ _, [XSent b]
  | RecordSpend w _ _ fee => λ _, [XSpent w fee]
  | _ => λ _, []
  end.

Definition approvals_of (l : SignLog) : list ApprovalEvent :=
  omap (λ x, match x with XApproval e => Some e | _ => None end) l.

(** ** The stores *)
Record SignState := MkSign {
  ss_approvals : ApprovalStore;
  ss_parked : gmap Uuid (ParkedApproval * option nat);
  ss_sent : gmap nat ApprovalWorkflowState;
  ss_pending : gmap Uuid PendingEntry;
  ss_meta : gmap Uuid CompletionMeta;
  ss_log : SignLog
}.

(** Everything the environment decides. *)
Record SignEnv := MkSignEnv {
  se_uuid : Uuid;
  se_channel : nat;
  se_now : Z;
  se_now' : Z;
  se_clock : PolicyEngine.DateTime;
  se_today : string;
  se_daily : string → string → Result string Z;
  se_session_spend : Uuid → Result string Z;
  se_fees : list string → Result string (list Z);
  se_blockhash : Result string (list byte * Z);
  se_simulate : Transaction → Result string SimulationValue;
  se_send : list byte → Result string string;
  se_height : Result string Z;
  se_db : Result string unit;
  se_rules : Uuid → option (list PolicyRule);
  se_bound : Uuid → string → bool;
  se_keys : Pubkey → bool;
  se_elapsed : bool
}.

(** A random id is new, and so is a channel. *)
Definition env_fresh (env : SignEnv) (l : SignLog) : Prop :=
  XUuid (se_uuid env) ∉ l ∧ ∀ id p, XParked id p (se_channel env) ∉ l.

Definition with_approvals (a : ApprovalStore) (s : SignState) : SignState :=
  MkSign a (ss_parked s) (ss_sent s) (ss_pending s) (ss_meta s) (ss_log s).
Definition with_parked (p : gmap Uuid (ParkedApproval * option nat)) (s : SignState) : SignState :=
  MkSign (ss_approvals s) p (ss_sent s) (ss_pending s) (ss_meta s) (ss_log s).
Definition with_pending (p : gmap Uuid PendingEntry) (s : SignState) : SignState :=
  MkSign (ss_approvals s) (ss_parked s) (ss_sent s) p (ss_meta s) (ss_log s).
Definition with_meta (m : gmap Uuid CompletionMeta) (s : SignState) : SignState :=
  MkSign (ss_approvals s) (ss_parked s) (ss_sent s) (ss_pending s) m (ss_log s).

(** A channel's sender is alive while its entry holds it. *)
Definition sender_alive (channel : nat) (s : SignState) : bool :=
  existsb (λ x, bool_decide (x.2.2 = Some channel)) (map_to_list (ss_parked s)).

(** [PendingSigningStore::signal] *)
Definition signal (id : Uuid) (state : ApprovalWorkflowState) (s : SignState) : bool * SignState :=
  match ss_parked s !! id with
  | Some (p, Some ch) =>
      (true, MkSign (ss_approvals s) (<[id := (p, None)]> (ss_parked s)) (<[ch := state]> (ss_sent s))
               (ss_pending s) (ss_meta s) (ss_log s))
  | _ => (false, s)
  end.

(** What the task reads; [None] while it has to wait. *)
Definition await (elapsed : bool) (channel : nat) (s : SignState) : option Awaited :=
  if elapsed then Some LeaseElapsed
  else match ss_sent s !! channel with
       | Some state => Some (Decided state)
       | None => if sender_alive channel s then None else Some ChannelDropped
       end.

Definition sign_answer (env : SignEnv) (e : SignEvent) (s : SignState) :
    option (SignAnswer e * SignState) :=
  match e return option (SignAnswer e * SignState) with
  | NewUuid => Some (se_uuid env, s)
  | UtcNow => Some (se_now env, s)
  | PolicyClock => Some (se_clock env, s)
  | Today => Some (se_today env, s)
  | WalletDailySpend w d => Some (se_daily env w d, s)
  | SessionSpend id => Some (se_session_spend env id, s)
  | GetPriorityFees a => Some (se_fees env a, s)
  | GetBlockhash => Some (se_blockhash env, s)
  | SimulateRpc tx => Some (se_simulate env tx, s)
  | SendRaw b | SendRawV0 b => Some (se_send env b, s)
  | GetBlockHeight => Some (se_height env, s)
  | PersistApproval _ | PersistSignature _ | TrackingInsert _ => Some (se_db env, s)
  | SessionRules id => Some (se_rules env id, s)
  | IsBound id k => Some (se_bound env id k, s)
  | KeystoreContains k => Some (se_keys env k, s)
  | RegisterApproval rq w => Some (tt, with_approvals (ApprovalStore.register rq w (ss_approvals s)).2 s)
  | DecideApproval d =>
      Some (match decide_inner (se_now env) (se_now' env) d (ss_approvals s) with
            | Some (o, r, a, es) => (Some (o, r, es, se_now env), with_approvals a s)
            | None => (None, s)
            end)
  | Park id p => Some (se_channel env,
                       with_parked (<[id := (p, Some (se_channel env))]> (ss_parked s)) s)
  | SignalParked id st => Some (signal id st s)
  | TakeParked id => Some (fst <$> ss_parked s !! id, with_parked (delete id (ss_parked s)) s)
  | RemoveParked id => Some (tt, with_parked (delete id (ss_parked s)) s)
  | AwaitDecision ch _ => a ← await (se_elapsed env) ch s; Some (a, s)
  | PendingContains id => Some (bool_decide (is_Some (ss_pending s !! id)), s)
  | PendingInsert id en => Some (tt, with_pending (<[id := en]> (ss_pending s)) s)
  | PendingRemove id => Some (ss_pending s !! id, with_pending (delete id (ss_pending s)) s)
  | PendingSession id => Some ((λ en, sq_session_id (pn_request en)) <$> ss_pending s !! id, s)
  | MetaInsert id m => Some (tt, with_meta (<[id := m]> (ss_meta s)) s)
  | MetaTake id => Some (ss_meta s !! id, with_meta (delete id (ss_meta s)) s)
  | PartialSign k tx => Some (partial_sign k tx, s)
  | SignMessage k m => Some (sign_message k m, s)
  | _ => Some (tt, s)
  end.

Definition logged (entries : SignLog) (s : SignState) : SignState :=
  MkSign (ss_approvals s) (ss_parked s) (ss_sent s) (ss_pending s) (ss_meta s)
    (entries ++ ss_log s).
Definition sign_event (env : SignEnv) (e : SignEvent) (s : SignState) :
    option (SignAnswer e * SignState) :=
  '(a, s) ← sign_answer env e s;
  Some (a, logged (sign_entries e a) s).

(** ** Interleaving *)
Record SignPool := MkSignPool { sp_threads : gmap nat (SProg unit); sp_state : SignState }.

(** A program whose result nobody reads. *)
Definition task {E A} (p : RProg E A) : SProg unit := prog_bind (λ _, Ret tt) p.

Definition spawned (e : SignEvent) (n : nat) (ts : gmap nat (SProg unit)) : gmap nat (SProg unit) :=
  match e with
  | SpawnResume args => <[n := task (resume_after_approval cfg args)]> ts
  | _ => ts
  end.

(** The programs of the signing tool.  The executor of Jupiter swaps, which goes through
    the same orchestrator with transactions of its own (their version 0 bytes come back
    through [submit_signed_tx] too), is not one of them. *)
Inductive signing_program : SProg unit → Prop :=
| run_tool input : signing_program (task (SigningTool.execute cfg input))
| run_decision d : signing_program (task (handle_decision (E := Empty_set) d))
| run_wallet session id b64 : signing_program (task (submit_signed_tx cfg session id b64))
| run_reaper id : signing_program (task (expire_pending id)).

Inductive sign_step : SignPool → SignPool → Prop :=
| sign_start ts s n p : ts !! n = None → signing_program p →
    sign_step (MkSignPool ts s) (MkSignPool (<[n := p]> ts) s)
| sign_thread ts s n m e k env a s' :
    ts !! n = Some (Vis e k) → ts !! m = None → env_fresh env (ss_log s) →
    sign_event env e s = Some (a, s') →
    sign_step (MkSignPool ts s) (MkSignPool (spawned e m (<[n := k a]> ts)) s')
| sign_stop ts s n : sign_step (MkSignPool ts s) (MkSignPool (delete n ts) s).

Inductive sign_reachable : SignPool → Prop :=
| sign_empty : sign_reachable (MkSignPool ∅ (MkSign new_store ∅ ∅ ∅ ∅ []))
| sign_more pl pl' : sign_reachable pl → sign_step pl pl' → sign_reachable pl'.
End flow.
Notation SignLog := (list SignEntry).
