(* ===== verification/SigningLogic.v ===== *)
(** * What a signing program knows before it acts

    The facts of the shared history that a signature rests on, and the logic in which
    the programs of the signing path are checked one by one, whatever the others do; then the programs in it. *)
From S2P Require Import Prelude Interaction Solana Approval ApprovalStore ApprovalFacts SdkTypes.
From S2P Require Import ComputeBudget SigningEvents TxReview WalletAdapters Orchestrator.
From S2P Require Import TxSummary PolicyStores SigningTool SigningTasks.
From S2P Require PolicyEngine.
#[local] Open Scope string_scope.
#[local] Open Scope Z_scope.

(** What was on record stays there. *)
Ltac later := repeat match goal with
  | H : ?x ∈ ?l, S : ?l `suffix_of` ?l' |- ?x ∈ ?l' => by eapply elem_of_suffix
  end.

Section facts.
Context `{PolicyEngine.Chrono, Sdk, Sha256, SystemDecode, Calendar, UuidText, Base64, Base64Encode,
  SignatureText}.
Context (cfg : SigningConfig).
Implicit Types (l : SignLog) (p : TransactionProposal) (sim : SimulationResult) (v : PolicyVerdict).

(** ** What was reviewed *)

(** The agent's transaction with a budget, if it had none, and a blockhash of the node. *)
Definition budgeted_as (agent : Transaction) (prepended : bool) (first : Transaction) : Prop :=
  ∃ fee tx h, prepend_compute_budget agent DEFAULT_COMPUTE_UNITS fee = Some (prepended, tx) ∧
    first = set_blockhash h tx.
(** The node simulated it and reported no error. *)
Definition simulated_well l (tx : Transaction) (value : SimulationValue) : Prop :=
  XSimulated tx (Ok value) ∈ l ∧ sv_err value = None.
Definition simulation_failed l (tx : Transaction) : Prop :=
  ∃ r, XSimulated tx r ∈ l ∧ ∀ value, r = Ok value → sv_err value ≠ None.
(** The limit is lowered to what the simulation used, for another blockhash. *)
Definition tightened (first : Transaction) (value : SimulationValue) (second : Transaction) : Prop :=
  ∃ units tx h, let limit := compute_limit_from_simulation units in
    so_compute_units_used (read_simulation value) = Some units ∧
    should_tighten DEFAULT_COMPUTE_UNITS limit = true ∧
    replace_compute_unit_limit first limit = Some (true, tx) ∧ second = set_blockhash h tx.

(** How a transaction comes out of the review of what the agent submitted: as it was
    simulated, first or with the tightened limit; or, if the simulation with that limit
    failed, with the limit put back, the first simulation standing for it. *)
Inductive simulated_as l (agent : Transaction) : Transaction → SimulationResult → Prop :=
| first_simulated prepended first value :
    budgeted_as agent prepended first → simulated_well l first value →
    simulated_as l agent first (into_result (read_simulation value))
| second_simulated first value second value' :
    budgeted_as agent true first → simulated_well l first value → tightened first value second →
    simulated_well l second value' →
    simulated_as l agent second (into_result (read_simulation value'))
| limit_put_back first value second found tx :
    budgeted_as agent true first → simulated_well l first value → tightened first value second →
    simulation_failed l second →
    replace_compute_unit_limit second DEFAULT_COMPUTE_UNITS = Some (found, tx) →
    simulated_as l agent tx (into_result (read_simulation value)).

(** The proposal describes the transaction that the agent submitted. *)
Definition proposed p (agent : Transaction) : Prop :=
  PolicyEngine.tp_instructions_summary p = summarize_transaction_instructions agent ∧
  ∃ bytes, base64_bytes (PolicyEngine.tp_transaction_b64 p) = Ok bytes ∧ tx_from_bytes bytes = Ok agent.

(** The verdict of the rules of the wallet, the session and the gateway, in this
    order, on the proposal and its simulation, with the spending read before. *)
Definition judged l p sim v : Prop :=
  ∃ day daily spend rules now,
    XDaily (PolicyEngine.tp_wallet_pubkey p) day daily ∈ l ∧ XSession (PolicyEngine.tp_session_id p) spend ∈ l ∧
    XRules (PolicyEngine.tp_session_id p) rules ∈ l ∧ XClock now ∈ l ∧
    v = PolicyEngine.pe_verdict (PolicyEngine.evaluate_at
      (effective_policy (sc_policy_set cfg) rules
         (wallet_rules_of (PolicyEngine.tp_wallet_pubkey p) (sc_wallet_policy cfg)))
      (PolicyEngine.MkPolicyContext p (Some sim) (sc_network cfg)
         (unwrap_or_zero spend) (unwrap_or_zero daily)) now).

Record reviewed l p (tx : Transaction) sim v : Prop := {
  rv_agent : ∃ agent, proposed p agent ∧ simulated_as l agent tx sim;
  rv_judged : judged l p sim v;
  rv_unblocked : PolicyEngine.is_blocked v = false
}.

(** ** What operators agreed to *)
Definition quorum_reached (id : Uuid) (h : list ApprovalEvent) (w0 : ApprovalWorkflow) : Prop :=
  ∃ w, same_workflow w0 w ∧ Forall satisfied (wf_stages w) ∧
    ∀ stage d, stage ∈ wf_stages w → d ∈ sg_decisions stage → taken id h w d.

Definition workflow_for (id : Uuid) (parked : ParkedApproval) (w : ApprovalWorkflow) : Prop :=
  ∃ now lease_now, workflow_of_verdict now lease_now id (PolicyEngine.tp_session_id (pk_proposal parked))
    (pk_policy_verdict parked) (sc_approval_lease_seconds cfg) = Some w.

(** A decision completed the quorums of the workflow of the parked verdict. *)
Definition approved_by_operators l (id : Uuid) (parked : ParkedApproval) : Prop :=
  ∃ l0 now d es w0, XApproval (EDecide now d es) :: l0 `suffix_of` l ∧
    SignalSigning id Approved ∈ es ∧ registered id (approvals_of l0) = Some w0 ∧
    workflow_for id parked w0 ∧ quorum_reached id (EDecide now d es :: approvals_of l0) w0.

Record parked_ok l (parked : ParkedApproval) : Prop := {
  pa_reviewed : ∃ tx, reviewed l (pk_proposal parked) tx (pk_simulation parked)
      (pk_policy_verdict parked) ∧ tx_to_bytes tx = Ok (pk_tx_bytes parked);
  pa_human : PolicyEngine.requires_human (pk_policy_verdict parked) = true
}.

(** ** What may be signed *)
Definition authorized l p (bytes : list byte) : Prop :=
  ∃ tx sim v, reviewed l p tx sim v ∧ tx_to_bytes tx = Ok bytes ∧
    (PolicyEngine.requires_human v = true →
     ∃ id parked channel, XParked id parked channel ∈ l ∧ pk_proposal parked = p ∧
       pk_tx_bytes parked = bytes ∧ pk_policy_verdict parked = v ∧
       approved_by_operators l id parked).

(** The message that a key signs of such bytes. *)
Definition message_in (bytes m : list byte) : Prop :=
  (∃ tx, tx_from_bytes bytes = Ok tx ∧ m = message_of tx) ∨
  (∃ vtx, vtx_from_bytes bytes = Ok vtx ∧ is_v0 (vt_message vtx) = true ∧
     m = message_bytes (vt_message vtx)).

(** What is asked of an external wallet, and kept meanwhile. *)
Definition pending_ok l (id : Uuid) (en : PendingEntry) : Prop :=
  id = sq_id (pn_request en) ∧ pn_adapter_type en = "external" ∧
  ∃ p, authorized l p (sq_finalized_tx_bytes (pn_request en)) ∧
    parse_pubkey (PolicyEngine.tp_wallet_pubkey p) = Ok (sq_expected_signer (pn_request en)) ∧
    sq_session_id (pn_request en) = PolicyEngine.tp_session_id p.

(** ** What may be sent *)
Definition locally_signed l (bytes signed : list byte) : Prop :=
  ∃ key m, LocalWalletAdapter key ∈ sc_adapters cfg ∧ XKeyUsed key m ∈ l ∧
   ((∃ tx tx', tx_from_bytes bytes = Ok tx ∧ m = message_of tx ∧
       partial_sign key tx = Some tx' ∧ tx_to_bytes tx' = Ok signed) ∨
    (∃ vtx sigs i, vtx_from_bytes bytes = Ok vtx ∧ m = message_bytes (vt_message vtx) ∧
       sigs !! i = Some (sign_message key m) ∧
       vtx_to_bytes (MkVersioned sigs (vt_message vtx)) = Ok signed)).

Definition externally_signed l (bytes signed : list byte) : Prop :=
  ∃ id en outcome, XReleased id en ∈ l ∧ sq_finalized_tx_bytes (pn_request en) = bytes ∧
    external_complete (pn_request en) signed = Ok outcome.

Definition sendable l (signed : list byte) : Prop :=
  ∃ p bytes, authorized l p bytes ∧ (locally_signed l bytes signed ∨ externally_signed l bytes signed).

(** ** More history *)
Lemma simulated_well_mono l l' tx value :
  l `suffix_of` l' → simulated_well l tx value → simulated_well l' tx value.
Proof. intros Hl [? ?]. split; [later|done]. Qed.
Lemma simulated_as_mono l l' agent tx sim :
  l `suffix_of` l' → simulated_as l agent tx sim → simulated_as l' agent tx sim.
Proof.
  intros Hl [| |first value second found tx' ? ? ? (r & ? & ?)].
  - by eapply first_simulated, simulated_well_mono.
  - by eapply second_simulated; [|eapply simulated_well_mono|..|eapply simulated_well_mono].
  - eapply limit_put_back; [done|by eapply simulated_well_mono|done| |done]. exists r. split; [later|done].
Qed.
Lemma judged_mono l l' p sim v : l `suffix_of` l' → judged l p sim v → judged l' p sim v.
Proof.
  intros Hl (day & daily & spend & rules & now & ? & ? & ? & ? & ?).
  exists day, daily, spend, rules, now. split_and!; try done; later.
Qed.
Lemma reviewed_mono l l' p tx sim v :
  l `suffix_of` l' → reviewed l p tx sim v → reviewed l' p tx sim v.
Proof.
  intros Hl [(agent & ? & Hs) Hj ?]. split; [|by eapply judged_mono|done].
  exists agent. split; [done|by eapply simulated_as_mono].
Qed.
Lemma approved_by_operators_mono l l' id parked :
  l `suffix_of` l' → approved_by_operators l id parked → approved_by_operators l' id parked.
Proof.
  intros Hl (l0 & now & d & es & w0 & ? & ?). exists l0, now, d, es, w0.
  split; [by etransitivity|done].
Qed.
Lemma parked_ok_mono l l' parked : l `suffix_of` l' → parked_ok l parked → parked_ok l' parked.
Proof. intros Hl [(tx & ? & ?) ?]. split; [exists tx; split; [by eapply reviewed_mono|done]|done]. Qed.
Lemma authorized_mono l l' p bytes : l `suffix_of` l' → authorized l p bytes → authorized l' p bytes.
Proof.
  intros Hl (tx & sim & v & ? & ? & Hh). exists tx, sim, v. split_and!; [by eapply reviewed_mono|done|].
  intros Hv. destruct (Hh Hv) as (id & parked & ch & ? & ? & ? & ? & ?). exists id, parked, ch.
  split_and!; try done; [later|by eapply approved_by_operators_mono].
Qed.
Lemma pending_ok_mono l l' id en : l `suffix_of` l' → pending_ok l id en → pending_ok l' id en.
Proof.
  intros Hl (? & ? & p & ? & ?). split_and!; [done..|]. exists p.
  split; [by eapply authorized_mono|done].
Qed.
Lemma sendable_mono l l' signed : l `suffix_of` l' → sendable l signed → sendable l' signed.
Proof.
  intros Hl (p & bytes & ? & Hs). exists p, bytes. split; [by eapply authorized_mono|].
  destruct Hs as [(key & m & ? & ? & ?)|(id & en & o & ? & ? & ?)]; [left; exists key, m|right; exists id, en, o];
    split_and!; try done; later.
Qed.

(** ** The logic *)
Definition sign_pre (G : gset Uuid) l (e : SignEvent) : Prop :=
  match e with
  | Park id parked => id ∈ G ∧ parked_ok l parked
  | RegisterApproval request w =>
      ∃ parked channel, XParked (rq_id request) parked channel ∈ l ∧
        workflow_for (rq_id request) parked w
  | SignalParked id state =>
      ∃ now d es, XApproval (EDecide now d es) ∈ l ∧ SignalSigning id state ∈ es
  | PartialSign key tx =>
      LocalWalletAdapter key ∈ sc_adapters cfg ∧
      ∃ p bytes, authorized l p bytes ∧ tx_from_bytes bytes = Ok tx
  | SignMessage key m =>
      LocalWalletAdapter key ∈ sc_adapters cfg ∧
      ∃ p bytes vtx, authorized l p bytes ∧ vtx_from_bytes bytes = Ok vtx ∧
        is_v0 (vt_message vtx) = true ∧ m = message_bytes (vt_message vtx)
  | PendingInsert id en => pending_ok l id en
  | SendRaw bytes | SendRawV0 bytes => sendable l bytes
  | RecordSpend _ _ _ _ => False
  | MetaInsert _ meta => cm_fee_lamports meta = None
  | SpawnResume args =>
      ∃ parked, XParked (ra_request_id args) parked (ra_channel args) ∈ l ∧
        pk_proposal parked = ra_proposal args ∧
        ra_session_id args = PolicyEngine.tp_session_id (ra_proposal args) ∧
        ra_wallet_pubkey args = PolicyEngine.tp_wallet_pubkey (ra_proposal args)
  | _ => True
  end.

Definition sign_told l (e : SignEvent) : SignAnswer e → Prop :=
  match e return SignAnswer e → Prop with
  | AwaitDecision channel _ => λ a, ∀ state, a = Decided state →
      ∀ id parked, XParked id parked channel ∈ l → XSignalled id state ∈ l
  | TakeParked id => λ a, ∀ parked, a = Some parked →
      (∃ channel, XParked id parked channel ∈ l) ∧ parked_ok l parked ∧
      (∀ parked' channel, XParked id parked' channel ∈ l → parked' = parked) ∧
      (XSignalled id Approved ∈ l → approved_by_operators l id parked)
  | PendingRemove id => λ a, ∀ en, a = Some en → pending_ok l id en
  | MetaTake _ => λ a, ∀ meta, a = Some meta → cm_fee_lamports meta = None
  | PartialSign key tx => λ a, a = partial_sign key tx
  | SignMessage key m => λ a, a = sign_message key m
  | _ => λ _, True
  end.

(** A program owns the ids it drew and has not parked under. *)
Definition sign_leases (G : gset Uuid) (e : SignEvent) : SignAnswer e → gset Uuid :=
  match e return SignAnswer e → gset Uuid with
  | NewUuid => λ id, {[id]} ∪ G
  | Park id _ => λ _, G ∖ {[id]}
  | _ => λ _, G
  end.

Notation ssafe := (Interaction.safe sign_pre sign_told sign_leases sign_entries).

(** A program that respects the logic, and [Q] of the value it is done with. *)
Definition rsafe {E A : Type} (Q : A → gset Uuid → SignLog → Prop) G l (p : RProg E A) : Prop :=
  ssafe (λ o G' l', ∀ a, o = Done a → Q a G' l') G l p.
Definition tame {E A : Type} G l (p : RProg E A) : Prop := rsafe (λ _ _ _, True) G l p.

Lemma rsafe_done {E A : Type} (Q : A → gset Uuid → SignLog → Prop) G l a :
  (∀ l', l `suffix_of` l' → Q a G l') → rsafe Q G l (done a : RProg E A).
Proof. intros HQ l' Hl b [= <-]. by apply HQ. Qed.
Lemma rsafe_fail {E A : Type} (Q : A → gset Uuid → SignLog → Prop) G l e :
  rsafe Q G l (fail e : RProg E A).
Proof. by intros l' Hl b [=]. Qed.

Lemma rsafe_bind {E A B : Type} Q G l (p : RProg E A) (f : A → RProg E B) :
  rsafe (λ a G' l', rsafe Q G' l' (f a)) G l p → rsafe Q G l (rbind p f).
Proof.
  intros Hp. apply safe_bind. eapply safe_conseq; [|exact Hp]. intros o G' l' _ Ho.
  destruct o as [a|e|]; [by apply Ho|..]; by intros l'' _ b [=].
Qed.

Lemma rsafe_conseq {E A : Type} (Q Q' : A → gset Uuid → SignLog → Prop) G l (p : RProg E A) :
  (∀ a G' l', l `suffix_of` l' → Q a G' l' → Q' a G' l') → rsafe Q G l p → rsafe Q' G l p.
Proof. intros HQ. apply safe_conseq. intros o G' l' Hl Ho a ->. by apply HQ, Ho. Qed.

Lemma rsafe_event {E A : Type} Q G l e (f : SignAnswer e → RProg E A) :
  (∀ l', l `suffix_of` l' → sign_pre G l' e) →
  (∀ a l', l `suffix_of` l' → sign_told l' e a →
     rsafe Q (sign_leases G e a) (sign_entries e a ++ l')%list (f a)) →
  rsafe Q G l (rbind (run_event e) f).
Proof. intros Hp Hf l' Hl. split; [by apply Hp|]. intros a Ha. by apply Hf. Qed.

Lemma rsafe_last {E : Type} e (Q : SignAnswer e → gset Uuid → SignLog → Prop) G l :
  (∀ l', l `suffix_of` l' → sign_pre G l' e) →
  (∀ a l' l'', l `suffix_of` l' → sign_told l' e a → (sign_entries e a ++ l')%list `suffix_of` l'' →
     Q a (sign_leases G e a) l'') →
  rsafe Q G l (run_event e : RProg E _).
Proof.
  intros Hp Hf l' Hl. split; [by apply Hp|]. intros a Ha l'' Hl'' b [= <-]. by eapply Hf.
Qed.

Lemma rsafe_result {E A B : Type} Q G l (r : Result E A) (f : A → RProg E B) :
  (∀ a, r = Ok a → rsafe Q G l (f a)) → rsafe Q G l (rbind (of_result r) f).
Proof. destruct r as [a|e]; intros Hf; [by apply Hf|apply rsafe_fail]. Qed.
Lemma rsafe_answer {E A : Type} (Q : A → gset Uuid → SignLog → Prop) G l (r : Result E A) :
  (∀ a l', r = Ok a → l `suffix_of` l' → Q a G l') → rsafe Q G l (of_result r).
Proof. destruct r as [b|e]; intros HQ l' Hl a [=]; subst; by apply HQ. Qed.
Lemma rsafe_option {E A B : Type} Q G l (o : option A) (f : A → RProg E B) :
  (∀ a, o = Some a → rsafe Q G l (f a)) → rsafe Q G l (rbind (of_option o) f).
Proof. destruct o as [a|]; intros Hf; [by apply Hf|by intros l' _ b [=]]. Qed.

Lemma rsafe_map {E F A B : Type} (Q : B → gset Uuid → SignLog → Prop) R G l (p : RProg E A)
    (g : Outcome E A → Outcome F B) :
  rsafe R G l p →
  (∀ o b G' l', (∀ a, o = Done a → R a G' l') → g o = Done b → Q b G' l') →
  rsafe Q G l (prog_bind (λ o, Ret (g o)) p).
Proof.
  intros Hp HQ. apply safe_bind. eapply safe_conseq; [|by apply safe_stable].
  intros o G' l' _ Ho l'' Hl b Hb. eapply HQ; [|exact Hb]. by apply Ho.
Qed.
Lemma rsafe_attempt {E F A : Type} (R : A → gset Uuid → SignLog → Prop) G l (p : RProg E A) :
  rsafe R G l p →
  rsafe (λ r G' l', ∀ a, r = Ok a → R a G' l') G l (attempt p : RProg F _).
Proof.
  intros Hp. eapply rsafe_map; [exact Hp|]. intros [a|e|] r G' l' Ho [= <-]; [|done].
  intros b [= <-]. by apply Ho.
Qed.
Lemma rsafe_mapping {E F A : Type} Q G l (g : E → F) (p : RProg E A) :
  rsafe Q G l p → rsafe Q G l (mapping_err g p).
Proof.
  intros Hp. eapply rsafe_map; [exact Hp|]. intros [a|e|] b G' l' Ho [= <-]. by apply Ho.
Qed.
End facts.

(** Walk a program: events with nothing to show are passed. *)
Ltac rstep := first
  [ apply rsafe_done; first [by intros ? _|intros ? ?]
  | apply rsafe_fail
  | apply rsafe_event; [by intros ? _|intros ? ? ? ?]
  | apply rsafe_last; [by intros ? _|by intros]
  | apply rsafe_result; intros ? ?
  | apply rsafe_answer; by intros
  | apply rsafe_option; intros ? ?
  | progress cbn [sign_leases sign_entries app]
  | case_match ].
Ltac rwalk := repeat rstep.

(** A history that others made longer, step by step. *)
Ltac grown := match goal with
  | |- ?l `suffix_of` ?l => reflexivity
  | |- _ `suffix_of` _ :: _ => apply suffix_cons_r; grown
  | |- _ `suffix_of` app _ _ => apply suffix_app_r; grown
  | S : ?a `suffix_of` ?b |- _ `suffix_of` ?b => transitivity a; [grown|exact S]
  end.

(** An entry that the program itself left there. *)
Ltac on_record := match goal with
  | S : (?x :: ?l0) `suffix_of` _ |- ?x ∈ ?l =>
      apply (λ Hs, elem_of_suffix (x :: l0) l x (list_elem_of_here x l0) Hs); grown
  end.

(** * The signing programs respect the logic

    Program by program: the review, the orchestrator, the tool, the resumed task and
    the wallet handler act only on what they may act on. *)

Section programs.
Context `{PolicyEngine.Chrono, Sdk, Sha256, SystemDecode, Calendar, UuidText, Base64, Base64Encode,
  SignatureText}.
Context (cfg : SigningConfig).
Implicit Types (l : SignLog) (G : gset Uuid).
Notation rsafe := (rsafe cfg).
Notation tame := (tame cfg).

Lemma rsafe_seq {E A B : Type} R Q G l (p : RProg E A) (f : A → RProg E B) :
  rsafe R G l p → (∀ a G' l', l `suffix_of` l' → R a G' l' → rsafe Q G' l' (f a)) →
  rsafe Q G l (rbind p f).
Proof. intros Hp Hf. apply rsafe_bind. by eapply rsafe_conseq. Qed.
Lemma rsafe_tame {E A : Type} Q G l (p : RProg E A) : rsafe Q G l p → tame G l p.
Proof. by apply rsafe_conseq. Qed.

(** ** The review *)
Lemma simulate_client_safe G l tx :
  rsafe (λ o _ l', ∃ value, XSimulated tx (Ok value) ∈ l' ∧ o = read_simulation value) G l
    (simulate_client tx).
Proof.
  apply rsafe_event; [by intros ? _|]. intros [value|e] l' Hl _; [|apply rsafe_fail].
  apply rsafe_done. intros l'' Hl''. exists value. split; [|done].
  eapply elem_of_suffix; [|exact Hl'']. by left.
Qed.

Lemma get_fresh_tame G l : tame G l get_fresh.
Proof. apply rsafe_event; [by intros ? _|]. intros [a|e] l' Hl _; [by apply rsafe_done|apply rsafe_fail]. Qed.

Lemma resolve_fee_tame G l strategy accounts : tame G l (resolve_fee strategy accounts).
Proof. destruct strategy; cbn [resolve_fee]; rwalk. Qed.

Lemma second_simulation_safe G l tx :
  rsafe (λ r _ l', match r with
                   | Ok out => ∃ value, XSimulated tx (Ok value) ∈ l' ∧ out = read_simulation value
                   | Err _ => simulation_failed l' tx
                   end) G l
    (attempt (simulate_client tx) : RProg WalletError _).
Proof.
  intros l1 Hl1. split; [done|]. intros [value|e] _ l2 Hl2 r [= <-].
  - exists value. split; [|done]. eapply elem_of_suffix; [|exact Hl2]. by left.
  - exists (Err e). split; [|done]. eapply elem_of_suffix; [|exact Hl2]. by left.
Qed.

Lemma reported_none value : so_success (read_simulation value) = true → sv_err value = None.
Proof. cbn. by destruct (sv_err value). Qed.
Lemma second_pass_safe G l agent first value units height :
  budgeted_as agent true first → simulated_well l first value →
  so_compute_units_used (read_simulation value) = Some units →
  should_tighten DEFAULT_COMPUTE_UNITS (compute_limit_from_simulation units) = true →
  rsafe (λ r _ l', simulated_as l' agent r.1.1 (into_result r.1.2)) G l
    (second_pass first (read_simulation value) (compute_limit_from_simulation units) height).
Proof.
  intros Hb Hw Hu Hs. apply rsafe_option. intros [[|] tx1] Hr.
  2: { apply replace_absent in Hr as ->. apply rsafe_done. intros l' Hl.
       by eapply first_simulated, simulated_well_mono. }
  eapply rsafe_seq; [apply get_fresh_tame|]. intros [h2 lv2] G' l1 Hl1 _.
  set (second := set_blockhash h2 tx1).
  assert (tightened first value second) as Ht by (by exists units, tx1, h2).
  assert (∀ G' l2, l1 `suffix_of` l2 → simulation_failed l2 second →
    rsafe (λ r _ l', simulated_as l' agent r.1.1 (into_result r.1.2)) G' l2
      ('(_, tx) ← of_option (replace_compute_unit_limit second DEFAULT_COMPUTE_UNITS);
       done (tx, read_simulation value, lv2) : RProg WalletError _)%rprog) as Hfall.
  { intros G2 l2 Hl2 Hf. apply rsafe_option. intros [found tx] Hr2. apply rsafe_done.
    intros l3 Hl3. eapply simulated_as_mono; [exact Hl3|]. eapply limit_put_back; [done| |done..].
    eapply simulated_well_mono; [|exact Hw]. by etransitivity. }
  eapply rsafe_seq; [apply second_simulation_safe|].
  intros [out|e] G2 l2 Hl2 Hr2; [|by apply Hfall]. destruct Hr2 as (value' & Hin & ->).
  destruct (so_success (read_simulation value')) eqn:Hok.
  - apply rsafe_done. intros l3 Hl3. eapply simulated_as_mono; [exact Hl3|].
    eapply second_simulated; [done| |done|split; [done|by apply reported_none]].
    eapply simulated_well_mono; [|exact Hw]. by etransitivity.
  - apply Hfall; [done|]. exists (Ok value'). split; [done|]. intros ? [= <-] He. cbn in Hok. by rewrite He in Hok.
Qed.

Lemma simulate_safe G l fee agent :
  rsafe (λ s _ l', simulated_as l' agent (sx_inner s) (sx_simulation s)) G l (simulate fee agent).
Proof.
  eapply rsafe_seq; [apply rsafe_attempt, resolve_fee_tame|].
  intros f G1 l1 _ _. set (f' := match f with Ok f => f | Err _ => 0 end).
  apply rsafe_option. intros [prepended tx1] Hpre.
  eapply rsafe_seq; [apply get_fresh_tame|]. intros [h height] G2 l2 _ _.
  set (first := set_blockhash h tx1).
  assert (budgeted_as agent prepended first) as Hb by (by exists f', tx1, h).
  eapply rsafe_seq; [apply simulate_client_safe|]. intros out G3 l3 _ (value & Hin & ->).
  destruct (so_success (read_simulation value)) eqn:Hok; [|apply rsafe_fail]. cbn [negb].
  assert (simulated_well l3 first value) as Hw by (split; [done|by apply reported_none]).
  apply (rsafe_seq (λ r _ l', simulated_as l' agent r.1.1 (into_result r.1.2))).
  2: { intros [[tx out] ht] G4 l4 _ Hs. apply rsafe_done. intros l5 Hl5. by eapply simulated_as_mono. }
  assert (rsafe (λ r _ l', simulated_as l' agent r.1.1 (into_result r.1.2)) G3 l3
    (done (first, read_simulation value, height) : RProg WalletError _)) as Hdone.
  { apply rsafe_done. intros l4 Hl4. by eapply first_simulated, simulated_well_mono. }
  destruct (so_compute_units_used _) eqn:Hu; [|done].
  destruct (prepended && _) eqn:Hp; [|done]. apply andb_true_iff in Hp as [-> Htight].
  by apply second_pass_safe.
Qed.

(** ** The orchestrator *)
Section submit.
Context (p : TransactionProposal) (request : SignatureRequest).
Definition may_submit l : Prop :=
  authorized cfg l p (sq_finalized_tx_bytes request) ∧
  parse_pubkey (PolicyEngine.tp_wallet_pubkey p) = Ok (sq_expected_signer request) ∧
  sq_session_id request = PolicyEngine.tp_session_id p.

Lemma may_submit_mono l l' : l `suffix_of` l' → may_submit l → may_submit l'.
Proof. intros Hl [? ?]. split; [by eapply authorized_mono|done]. Qed.

Definition signed_ok l (o : SignatureOutcome) : Prop :=
  match o with
  | Signed _ _ bytes _ _ _ => locally_signed cfg l (sq_finalized_tx_bytes request) bytes
  | SignaturePending _ _ _ => True
  end.

Lemma sign_transaction_safe G l key tx bytes :
  LocalWalletAdapter key ∈ sc_adapters cfg → authorized cfg l p bytes → tx_from_bytes bytes = Ok tx →
  rsafe (λ r _ l', partial_sign key tx = Some r.2 ∧ XKeyUsed key (message_of tx) ∈ l') G l
    (sign_transaction key tx).
Proof.
  intros Hkey Ha Htx. apply rsafe_event; [by intros ? _|]. intros [|] l1 Hl1 _; [|apply rsafe_fail].
  cbn [negb]. apply rsafe_event.
  { intros l2 Hl2. split; [done|]. exists p, bytes. split; [|done].
    eapply authorized_mono; [|done]. by etransitivity. }
  intros r l2 Hl2 Hr. apply rsafe_option. intros tx' ->. cbn [sign_entries app].
  destruct (list_find _ _) as [[i k]|]; [|apply rsafe_fail]. apply rsafe_option. intros s _.
  apply rsafe_done. intros l3 Hl3. split; [by symmetry|]. eapply elem_of_suffix; [|exact Hl3]. by left.
Qed.

Lemma sign_local_legacy_safe G l key : LocalWalletAdapter key ∈ sc_adapters cfg → may_submit l →
  rsafe (λ o _ l', signed_ok l' o ∧ ∃ i s b a t x, o = Signed i s b a t x) G l
    (sign_local_legacy key request).
Proof.
  intros Hkey [Ha _]. apply rsafe_result. intros tx Htx. apply map_err_Ok in Htx.
  eapply rsafe_seq; [by apply rsafe_mapping; eapply sign_transaction_safe|].
  intros [s tx'] G1 l1 _ [Hs Hin]. cbn [snd] in Hs. apply rsafe_result. intros bytes Hb.
  apply map_err_Ok in Hb. apply rsafe_done. intros l2 Hl2. split; [|by eexists _, _, _, _, _, _].
  exists key, (message_of tx). split_and!; [done|by eapply elem_of_suffix|]. left. by exists tx, tx'.
Qed.

Lemma sign_versioned_safe G l key vtx : LocalWalletAdapter key ∈ sc_adapters cfg → may_submit l →
  vtx_from_bytes (sq_finalized_tx_bytes request) = Ok vtx → is_v0 (vt_message vtx) = true →
  rsafe (λ r _ l', XKeyUsed key (message_bytes (vt_message vtx)) ∈ l' ∧
      vt_message r.2 = vt_message vtx ∧
      ∃ i, vt_signatures r.2 !! i = Some (sign_message key (message_bytes (vt_message vtx)))) G l
    (sign_versioned key vtx).
Proof.
  intros Hkey [Ha _] Hv H0'. apply rsafe_event; [by intros ? _|].
  intros [|] l1 Hl1 _; [|apply rsafe_fail]. cbn [negb].
  destruct (list_find _ _) as [[i k]|]; [|apply rsafe_fail]. apply rsafe_event.
  { intros l2 Hl2. split; [done|]. exists p, (sq_finalized_tx_bytes request), vtx. split_and!; try done.
    eapply authorized_mono; [|done]. by etransitivity. }
  intros s l2 Hl2 ->. cbn [sign_entries app].
  destruct (Nat.leb_spec (length (vt_signatures vtx ++ replicate
    (Z.to_nat (num_required_signatures (vm_header (vt_message vtx))) - length (vt_signatures vtx))
    default_signature)%list) i); [apply rsafe_fail|].
  apply rsafe_done. intros l3 Hl3. split_and!; [|done|].
  - eapply elem_of_suffix; [|exact Hl3]. by left.
  - exists i. by apply list_lookup_insert_eq.
Qed.

Lemma sign_local_safe G l key : LocalWalletAdapter key ∈ sc_adapters cfg → may_submit l →
  rsafe (λ o _ l', signed_ok l' o ∧ ∃ i s b a t x, o = Signed i s b a t x) G l (sign_local key request).
Proof.
  intros Hkey Hm. unfold sign_local.
  destruct (vtx_from_bytes _) as [vtx|] eqn:Hv; [|by apply sign_local_legacy_safe].
  destruct (is_v0 _) eqn:H0'; [|by apply sign_local_legacy_safe].
  eapply rsafe_seq; [by apply rsafe_mapping, sign_versioned_safe|].
  intros [s [sigs m]] G1 l1 _ (Hin & Hmsg & i & Hi). cbn in Hmsg, Hi. subst m.
  apply rsafe_result. intros bytes Hb. apply map_err_Ok in Hb. apply rsafe_done. intros l2 Hl2.
  split; [|by eexists _, _, _, _, _, _]. eexists key, _. split_and!; [done|by eapply elem_of_suffix|].
  right. by exists vtx, sigs, i.
Qed.

Lemma find_supporting_safe G l adapters :
  rsafe (λ a _ _, a ∈ adapters) G l (find_supporting adapters request).
Proof.
  revert G l. induction adapters as [|a adapters IH]; intros G l; cbn [find_supporting]; [apply rsafe_fail|].
  apply (rsafe_seq (λ _ _ _, True)); [destruct a; rwalk|]. intros [|] G1 l1 _ _.
  - apply rsafe_done. intros l2 _. by left.
  - eapply rsafe_conseq; [|apply IH]. intros b G2 l2 _ Hb. by right.
Qed.

Lemma submit_safe G l : may_submit l →
  rsafe (λ o _ l', signed_ok l' o) G l (submit (sc_adapters cfg) request).
Proof.
  intros Hm. apply rsafe_event; [by intros ? _|]. intros [|] l1 Hl1 _; [apply rsafe_fail|].
  eapply rsafe_seq; [apply find_supporting_safe|]. intros a G2 l2 Hl2 Ha.
  assert (may_submit l2) as Hm2.
  { eapply may_submit_mono; [|done]. by etransitivity. }
  apply (rsafe_seq (λ o _ l', signed_ok l' o ∧
    match o with SignaturePending _ _ _ => a = ExternalWalletAdapter | _ => True end)).
  { destruct a as [|key]; [by apply rsafe_done; intros; split|].
    eapply rsafe_conseq; [|by apply sign_local_safe]. intros o G3 l3 _ (? & ? & ? & ? & ? & ? & ? & ->).
    done. }
  intros o G3 l3 Hl3 [Hok Hp]. destruct o as [i s b ad t x|i ad b].
  { apply rsafe_done. intros l4 Hl4. destruct Hok as (key & m & ? & ? & ?).
    exists key, m. split_and!; try done. by eapply elem_of_suffix. }
  subst a. apply rsafe_event; [by intros ? _|]. intros [|] l4 Hl4 _; [apply rsafe_fail|].
  apply rsafe_event; [|intros; by apply rsafe_done].
  intros l5 Hl5. destruct Hm2 as (Ha2 & Hw & Hs). split_and!; [done|done|]. exists p.
  split_and!; [|done|done]. eapply authorized_mono; [|done]. etransitivity; [exact Hl3|].
  etransitivity; [exact Hl4|]. exact Hl5.
Qed.
End submit.
End programs.

(** * The tool and the tasks respect the logic

    Whatever the others do, a call of the tool parks or signs only what it reviewed,
    a resumed task signs only what operators approved, and the wallet handler sends
    only what it verified. *)

Section programs.
Context `{PolicyEngine.Chrono, Sdk, Sha256, SystemDecode, Calendar, UuidText, Base64, Base64Encode,
  SignatureText}.
Context (cfg : SigningConfig).
Implicit Types (l : SignLog) (G : gset Uuid).
Notation rsafe := (rsafe cfg).
Notation tame := (tame cfg).

Lemma no_fee l p tx sim v : reviewed cfg l p tx sim v → PolicyEngine.sr_fee_lamports sim = None.
Proof. by intros [(agent & _ & []) _ _]. Qed.

(** ** Parking *)
Lemma park_tame G l proposal approved :
  reviewed cfg l proposal (sx_inner (ax_inner approved)) (sx_simulation (ax_inner approved))
    (ax_policy_verdict approved) →
  PolicyEngine.requires_human (ax_policy_verdict approved) = true →
  tame G l (park_for_approval cfg proposal approved).
Proof.
  intros Hrev Hhuman. unfold park_for_approval.
  apply rsafe_event; [by intros ? _|]. intros ext l1 Hl1 _.
  apply rsafe_event; [by intros ? _|]. intros id l2 Hl2 _. cbn [sign_leases].
  apply rsafe_event; [by intros ? _|]. intros now l3 Hl3 _.
  apply rsafe_event; [by intros ? _|]. intros created l4 Hl4 _.
  apply rsafe_event; [by intros ? _|]. intros lease_now l5 Hl5 _. cbn [sign_leases].
  apply rsafe_option. intros w Hw.
  apply (rsafe_seq cfg (λ _ G' _, G' = {[id]} ∪ G)); [destruct (sc_durable cfg); rwalk|].
  intros _ G6 l6 Hl6 ->. apply rsafe_result. intros bytes Hb. apply map_err_Ok in Hb.
  assert (parked_ok cfg l6 (MkParked proposal bytes (sx_simulation (ax_inner approved))
    (ax_policy_verdict approved) (sx_last_valid_block_height (ax_inner approved)))) as Hok.
  { eapply parked_ok_mono with (l := l); [grown|]. split; [|done]. by exists (sx_inner (ax_inner approved)). }
  apply rsafe_event.
  { intros l7 Hl7. split; [set_solver|]. by eapply parked_ok_mono. }
  intros channel l7 Hl7 _. cbn [sign_entries app].
  match goal with |- context [XParked id ?parked channel :: l7] => set (p := parked) in * end.
  assert (∀ l', (XParked id p channel :: l7) `suffix_of` l' → XParked id p channel ∈ l') as Hin.
  { intros l' Hl. eapply elem_of_suffix; [|exact Hl]. by left. }
  apply rsafe_event.
  { intros l8 Hl8. exists p, channel. split; [by apply Hin|by exists created, lease_now]. }
  intros u8 l8 Hl8 _. apply rsafe_event; [by intros ? _|]. intros u9 l9 Hl9 _.
  apply rsafe_event; [by intros ? _|]. intros u10 l10 Hl10 _.
  apply rsafe_event; [|intros; by apply rsafe_done].
  intros l11 Hl11. exists p. split; [|done]. apply Hin. grown.
Qed.

(** ** Signing at once *)
Lemma auto_submit_tame G l proposal signature bytes :
  sendable cfg l bytes → tame G l (auto_submit cfg proposal signature bytes).
Proof.
  intros Hs. unfold auto_submit. destruct (sc_rpc_client cfg); [|by apply rsafe_done].
  apply rsafe_event; [intros l' Hl; by eapply sendable_mono|]. intros r l1 _ _. rwalk.
Qed.

Lemma signed_now_tame G l proposal sim v signature bytes :
  PolicyEngine.sr_fee_lamports sim = None → sendable cfg l bytes →
  tame G l (signed_now cfg proposal sim v signature bytes).
Proof.
  intros Hfee Hs. unfold signed_now. rewrite Hfee. apply rsafe_event; [by intros ? _|]. intros u1 l1 Hl1 _.
  apply rsafe_event; [by intros ? _|]. intros u2 l2 Hl2 _.
  eapply rsafe_seq; [apply auto_submit_tame|].
  - eapply sendable_mono; [|exact Hs]. grown.
  - intros [submitted sig] G3 l3 _ _. by apply rsafe_done.
Qed.

Lemma persist_signature_tame {E} G l session proposal wallet id adapter bytes fee :
  tame G l (persist_signature (E := E) cfg session proposal wallet id adapter bytes fee).
Proof.
  unfold persist_signature. destruct (sc_durable cfg); [|by apply rsafe_done].
  apply rsafe_event; [by intros ? _|]. intros [a|e] l1 _ _; [by apply rsafe_done|].
  apply (rsafe_seq cfg (λ _ _ _, True)); [|intros; by apply rsafe_done].
  eapply rsafe_tame, (rsafe_attempt cfg (λ _ _ _, True)). unfold abort_pending, expire_pending. rwalk.
Qed.

Lemma pending_now_tame G l proposal sim v height id adapter bytes :
  PolicyEngine.sr_fee_lamports sim = None →
  tame G l (pending_now cfg proposal sim v height id adapter bytes).
Proof.
  intros Hfee. unfold pending_now. rewrite Hfee.
  eapply rsafe_seq; [apply persist_signature_tame|]. intros [a|e] G1 l1 _ _; rwalk.
Qed.

Lemma sign_now_tame G l proposal approved :
  reviewed cfg l proposal (sx_inner (ax_inner approved)) (sx_simulation (ax_inner approved))
    (ax_policy_verdict approved) →
  PolicyEngine.requires_human (ax_policy_verdict approved) = false →
  tame G l (sign_now cfg proposal approved).
Proof.
  intros Hrev Hauto. unfold sign_now. apply rsafe_result. intros bytes Hb%map_err_Ok.
  apply rsafe_result. intros signer Hsigner%map_err_Ok.
  apply rsafe_event; [by intros ? _|]. intros id l1 Hl1 _.
  assert (authorized cfg l proposal bytes) as Ha.
  { eexists _, _, _. split_and!; [exact Hrev|done|]. by rewrite Hauto. }
  match goal with |- context [submit _ ?r] => set (request := r) end.
  assert (may_submit cfg proposal request l1) as Hm.
  { split_and!; [|done|done]. by eapply authorized_mono. }
  eapply rsafe_seq; [apply rsafe_mapping, (submit_safe cfg proposal)|].
  { eapply may_submit_mono; [|exact Hm]. grown. }
  intros [i s b ad t x|i ad b] G2 l2 Hl2 Ho.
  - apply signed_now_tame; [by eapply no_fee|]. exists proposal, bytes. split; [|by left].
    eapply authorized_mono; [|exact Ha]. grown.
  - apply pending_now_tame. by eapply no_fee.
Qed.

(** ** The tool *)
Lemma route_tame G l proposal approved meta :
  reviewed cfg l proposal (sx_inner (ax_inner approved)) (sx_simulation (ax_inner approved))
    (ax_policy_verdict approved) →
  tame G l (route cfg proposal approved meta).
Proof.
  intros Hrev. unfold route. apply rsafe_event; [by intros ? _|]. intros u l1 Hl1 _.
  assert (∀ l2, l1 `suffix_of` l2 → reviewed cfg l2 proposal (sx_inner (ax_inner approved))
    (sx_simulation (ax_inner approved)) (ax_policy_verdict approved)) as Hrev'.
  { intros l2 Hl2. eapply reviewed_mono; [|exact Hrev]. grown. }
  destruct (PolicyEngine.requires_human _) eqn:Hh.
  - apply park_tame; [apply Hrev'; grown|done].
  - apply sign_now_tame; [apply Hrev'; grown|done].
Qed.

Lemma report_blocked_tame G l proposal v meta : tame G l (report_blocked proposal v meta).
Proof. unfold report_blocked. rwalk. Qed.

Lemma review_tame G l proposal agent :
  proposed proposal agent → tame G l (review cfg proposal agent).
Proof.
  intros Hprop. unfold review. apply rsafe_event; [by intros ? _|]. intros today l1 Hl1 _.
  apply rsafe_event; [by intros ? _|]. intros daily l2 Hl2 _.
  apply rsafe_event; [by intros ? _|]. intros spend l3 Hl3 _.
  apply rsafe_event; [by intros ? _|]. intros rules l4 Hl4 _. cbn [sign_entries app] in *.
  eapply rsafe_seq; [apply rsafe_mapping, simulate_safe|]. intros s G5 l5 Hl5 Hsim.
  apply rsafe_event; [by intros ? _|]. intros now l6 Hl6 _. cbn [sign_entries app sign_leases].
  unfold evaluate_policy. match goal with |- context [PolicyEngine.is_blocked ?x] => set (v := x) end.
  destruct (PolicyEngine.is_blocked v) eqn:Hblocked; [apply report_blocked_tame|].
  apply route_tame. cbn [new_unchecked ax_inner ax_policy_verdict]. split; [| |done].
  - exists agent. split; [done|]. eapply simulated_as_mono; [|exact Hsim]. grown.
  - exists today, daily, spend, rules, now. split_and!; [..|by left|done]; on_record.
Qed.

Lemma execute_tame G l input : tame G l (SigningTool.execute cfg input).
Proof.
  unfold SigningTool.execute. apply rsafe_result. intros b64 _. apply rsafe_result.
  intros bytes Hb%map_err_Ok. apply rsafe_result. intros tx Htx%map_err_Ok.
  apply rsafe_event; [by intros ? _|]. intros id l1 _ _.
  apply rsafe_event; [by intros ? _|]. intros now l2 _ _. apply review_tame.
  split; [done|]. by exists bytes.
Qed.

(** ** The task that waits for the operators *)
Section resume.
Context (args : ResumeArgs).
Definition resume_ok l : Prop := ∃ parked,
  XParked (ra_request_id args) parked (ra_channel args) ∈ l ∧
  pk_proposal parked = ra_proposal args ∧
  ra_session_id args = PolicyEngine.tp_session_id (ra_proposal args) ∧
  ra_wallet_pubkey args = PolicyEngine.tp_wallet_pubkey (ra_proposal args).

Lemma mark_approval_tame {E} G l id state reason :
  tame G l (mark_approval (E := E) cfg id state reason).
Proof. unfold mark_approval. destruct (sc_durable cfg); rwalk. Qed.

Lemma resumed_pending_tame G l parked id adapter bytes :
  PolicyEngine.sr_fee_lamports (pk_simulation parked) = None →
  tame G l (resumed_pending cfg args parked id adapter bytes).
Proof.
  intros Hfee. unfold resumed_pending. rewrite Hfee.
  eapply rsafe_seq; [apply persist_signature_tame|]. intros [a|e] G1 l1 _ _; rwalk.
Qed.

Lemma approved_authorized l parked channel :
  XParked (ra_request_id args) parked channel ∈ l → parked_ok cfg l parked →
  approved_by_operators cfg l (ra_request_id args) parked →
  authorized cfg l (pk_proposal parked) (pk_tx_bytes parked).
Proof.
  intros Hin [(tx & Hrev & Hb) _] Happ. exists tx, (pk_simulation parked), (pk_policy_verdict parked).
  split_and!; [done|done|]. intros _. by exists (ra_request_id args), parked, channel.
Qed.

Lemma resume_approved_tame G l : resume_ok l → XSignalled (ra_request_id args) Approved ∈ l →
  tame G l (resume_approved cfg args).
Proof.
  intros (parked & Hin & Hprop & Hsession & Hwallet) Hsig. unfold resume_approved.
  eapply rsafe_seq; [apply mark_approval_tame|]. intros _ G1 l1 Hl1 _.
  apply rsafe_event; [by intros ? _|]. intros [parked'|] l2 Hl2 Htold; [|by apply rsafe_done].
  destruct (Htold _ eq_refl) as ((channel & Hin') & Hok & Huniq & Happ).
  assert (l `suffix_of` l2) as Hl by grown.
  assert (parked = parked') as <- by (eapply Huniq; eapply elem_of_suffix; [exact Hin|exact Hl]).
  assert (authorized cfg l2 (pk_proposal parked) (pk_tx_bytes parked)) as Ha.
  { eapply approved_authorized; [done|done|]. apply Happ. by eapply elem_of_suffix. }
  assert (PolicyEngine.sr_fee_lamports (pk_simulation parked) = None) as Hfee.
  { destruct Hok as [(tx & Hrev & _) _]. by eapply no_fee. }
  cbn [sign_entries app sign_leases]. destruct (parse_pubkey _) as [signer|e] eqn:Hp; [|by apply rsafe_done].
  apply rsafe_event; [by intros ? _|]. intros sid l3 Hl3 _.
  match goal with |- context [submit _ ?r] => set (request := r) end.
  assert (∀ l', l2 `suffix_of` l' → may_submit cfg (pk_proposal parked) request l') as Hm.
  { intros l' Hl'. split_and!; [by eapply authorized_mono|by rewrite Hprop, <- Hwallet|].
    by rewrite Hprop, <- Hsession. }
  eapply rsafe_seq; [apply rsafe_attempt, (submit_safe cfg (pk_proposal parked)), Hm; grown|].
  intros [[i s b ad t x|i ad b]|e] G4 l4 _ _.
  - unfold resumed_signed. rewrite Hfee. rwalk.
  - by apply resumed_pending_tame.
  - unfold resumed_failed. rwalk.
Qed.

Lemma not_decided_tame G l reason kind details : tame G l (not_decided cfg args reason kind details).
Proof.
  unfold not_decided. eapply rsafe_seq; [apply mark_approval_tame|]. intros _ G1 l1 _ _. rwalk.
Qed.

Lemma not_approved_tame G l state : tame G l (not_approved cfg args state).
Proof.
  unfold not_approved, publish_failed. eapply rsafe_seq; [apply mark_approval_tame|].
  intros _ G1 l1 _ _. rwalk.
Qed.

Lemma resume_tame G l : resume_ok l → tame G l (resume_after_approval cfg args).
Proof.
  intros Hr. apply rsafe_event; [by intros ? _|]. intros [state| |] l1 Hl1 Htold; cbn [sign_entries app].
  - destruct Hr as (parked & Hin & Hrest). assert (XParked (ra_request_id args) parked (ra_channel args) ∈ l1)
      as Hin1 by by eapply elem_of_suffix.
    specialize (Htold state eq_refl _ _ Hin1).
    destruct state; cbn [is_approved]; try apply not_approved_tame.
    apply resume_approved_tame; [by exists parked|done].
  - apply not_decided_tame.
  - eapply rsafe_seq; [apply not_decided_tame|]. intros _ G2 l2 _ _. unfold publish_failed. rwalk.
Qed.
End resume.

(** ** The handler of a decision *)
Lemma perform_all_tame {E} G l now d es xs : XApproval (EDecide now d es) ∈ l →
  (∀ x, x ∈ xs → x ∈ es) → tame G l (perform_all (E := E) xs).
Proof.
  intros Hin. revert G l Hin. induction xs as [|x xs IH]; intros G l Hin Hsub; [by apply rsafe_done|].
  cbn [perform_all]. apply (rsafe_seq cfg (λ _ _ _, True)).
  - destruct x; try (apply rsafe_last; [by intros ? _|by intros]). cbn [perform].
    apply rsafe_event; [|intros; by apply rsafe_done]. intros l' Hl. exists now, d, es.
    split; [by eapply elem_of_suffix|]. apply Hsub. by left.
  - intros _ G1 l1 Hl1 _. apply IH; [by eapply elem_of_suffix|]. intros y Hy. apply Hsub. by right.
Qed.

Lemma handle_decision_tame {E} G l d : tame G l (handle_decision (E := E) d).
Proof.
  unfold handle_decision. apply rsafe_event; [by intros ? _|]. intros r l1 Hl1 _.
  apply rsafe_option. intros [[[o rq] es] now] ->. cbn [sign_entries app].
  eapply rsafe_seq; [|intros; by apply rsafe_done].
  eapply perform_all_tame; [by left|done].
Qed.

(** ** The handler of a wallet's signature *)
Lemma broadcast_tame {E} G l session id t signer height bytes :
  sendable cfg l bytes → tame G l (broadcast (E := E) session id t signer height bytes).
Proof.
  intros Hs. unfold broadcast. apply (rsafe_seq cfg (λ _ _ _, True)).
  - destruct (classify_signed_tx_kind bytes);
      (apply rsafe_last; [intros l' Hl; by eapply sendable_mono|by intros]).
  - intros [sig|e] G1 l1 _ _; [|rwalk].
    apply (rsafe_seq cfg (λ _ _ _, True)); [unfold track_submission; rwalk|]. intros _ G2 l2 _ _. rwalk.
Qed.

Lemma signature_accepted_tame G l session id sig t signer bytes :
  sendable cfg l bytes → tame G l (signature_accepted session id sig t signer bytes).
Proof.
  intros Hs. unfold signature_accepted. apply rsafe_event; [by intros ? _|]. intros meta l1 Hl1 Htold.
  assert ((meta : option CompletionMeta) ≫= cm_fee_lamports = None) as ->.
  { destruct meta as [m|]; [|done]. by apply Htold. }
  apply rsafe_event; [by intros ? _|]. intros u2 l2 Hl2 _.
  apply rsafe_event; [by intros ? _|]. intros u3 l3 Hl3 _. cbn [record_fee].
  apply rsafe_event; [by intros ? _|]. intros u4 l4 Hl4 _.
  apply rsafe_event; [by intros ? _|]. intros u5 l5 Hl5 _.
  apply rsafe_event; [by intros ? _|]. intros u6 l6 Hl6 _.
  eapply rsafe_seq; [apply broadcast_tame; eapply sendable_mono; [|exact Hs]; grown|].
  intros [[a b] c] G7 l7 _ _. by apply rsafe_done.
Qed.

Lemma signature_rejected_tame G l session id e : tame G l (signature_rejected session id e).
Proof. unfold signature_rejected. rwalk. Qed.

(** What the orchestrator hands back was released and verified. *)
Lemma complete_safe G l id bytes :
  rsafe (λ _ _ l', sendable cfg l' bytes) G l (complete (sc_adapters cfg) id bytes).
Proof.
  unfold complete. apply rsafe_event; [by intros ? _|]. intros [en|] l1 Hl1 Htold; [|apply rsafe_fail].
  destruct (Htold _ eq_refl) as (_ & Hext & p & Ha & _). cbn [sign_entries app].
  apply rsafe_result. intros a Hfind. apply rsafe_answer. intros o l2 Hc Hl2.
  exists p, (sq_finalized_tx_bytes (pn_request en)). split; [eapply authorized_mono; [|exact Ha]; grown|].
  right. exists id, en, o. split_and!; [by eapply elem_of_suffix; [by left|]|done|].
  unfold find_adapter in Hfind. destruct (list_find _ _) as [[i a']|] eqn:Hl; [|done].
  injection Hfind as ->. apply list_find_Some in Hl as (_ & Ht & _). rewrite Hext in Ht. by destruct a.
Qed.

Lemma submit_signed_tx_tame G l session id b64 : tame G l (submit_signed_tx cfg session id b64).
Proof.
  unfold submit_signed_tx. destruct (base64_bytes b64) as [bytes|e]; [|by apply rsafe_done].
  apply rsafe_event; [by intros ? _|]. intros [owner|] l1 Hl1 _; [|by apply rsafe_done].
  case_bool_decide; [by apply rsafe_done|].
  eapply rsafe_seq; [apply rsafe_attempt, complete_safe|].
  intros [[i s b ad t x|i ad b]|e] G2 l2 Hl2 Hs; [|by apply rsafe_done|apply signature_rejected_tame].
  apply signature_accepted_tame. by apply (Hs _ eq_refl).
Qed.

Lemma expire_pending_tame G l id : tame G l (expire_pending id).
Proof. unfold expire_pending. rwalk. Qed.
End programs.
