(* ===== verification/SigningSafety.v ===== *)
(** * What the signing path guarantees

    The invariant of a pool of signing programs, and what it gives: a key signs, an
    external wallet is asked and bytes are sent only for a transaction that was
    simulated (or is the one simulated first at a newer blockhash, after its second
    simulation failed), passed the policy and, where the verdict asks for it, was approved
    by a quorum of operators. *)
From stdpp Require Import functions.
From S2P Require Import Prelude Interaction Solana Approval ApprovalStore ApprovalFacts SdkTypes.
From S2P Require Import ComputeBudget SigningEvents TxReview WalletAdapters Orchestrator.
From S2P Require Import TxSummary PolicyStores SigningTool SigningTasks SigningLogic.
From S2P Require PolicyEngine.
#[local] Open Scope string_scope.
#[local] Open Scope Z_scope.

Section safety.
Context `{PolicyEngine.Chrono, Sdk, Sha256, SystemDecode, Calendar, UuidText, Base64, Base64Encode,
  SignatureText}.
Context (cfg : SigningConfig).
Implicit Types (l : SignLog) (G : gset Uuid) (Gs : nat → gset Uuid) (env : SignEnv).
Notation tame := (tame cfg).
Notation parked_ok := (parked_ok cfg).
Notation pending_ok := (pending_ok cfg).
Notation authorized := (authorized cfg).

(** ** The history *)

(** What stood on record before an entry. *)
Definition justified l (x : SignEntry) : Prop :=
  match x with
  | XUuid id => XUuid id ∉ l
  | XParked id parked channel =>
      XUuid id ∈ l ∧ (∀ parked' channel', XParked id parked' channel' ∉ l) ∧
      (∀ id' parked', XParked id' parked' channel ∉ l) ∧ parked_ok l parked
  | XApproval (ERegister id w) =>
      ∃ parked channel, XParked id parked channel ∈ l ∧ workflow_for cfg id parked w
  | XSignalled id state => ∃ now d es, XApproval (EDecide now d es) ∈ l ∧ SignalSigning id state ∈ es
  | XKeyUsed key m => LocalWalletAdapter key ∈ sc_adapters cfg ∧
      ∃ p bytes, authorized l p bytes ∧ message_in bytes m
  | XPending id en => pending_ok l id en
  | XReleased id en => XPending id en ∈ l
  | XSent bytes => sendable cfg l bytes
  | XSpent _ _ => False
  | _ => True
  end.
Notation log_ok := (Interaction.log_ok justified).

Lemma suffix_cons x l0 l : x :: l0 `suffix_of` l → l0 `suffix_of` l.
Proof. intros [k ->]. exists (k ++ [x])%list. by rewrite <- app_assoc. Qed.

Lemma parked_unique l id p p' ch ch' :
  log_ok l → XParked id p ch ∈ l → XParked id p' ch' ∈ l → p = p' ∧ ch = ch'.
Proof.
  induction l as [|x l IH]; intros Hl; [by intros ?%not_elem_of_nil|].
  assert (log_ok l) as Hl' by (intros y l0 Hs; apply Hl; by apply suffix_cons_r).
  assert (justified l x) as Hx by by apply (Hl x l). intros Hp Hp'.
  apply elem_of_cons in Hp as [<-|Hp], Hp' as [E|Hp']; [by injection E as -> ->|..|by apply IH].
  - by destruct Hx as (_ & Hno & _); apply Hno in Hp'.
  - subst x. by destruct Hx as (_ & Hno & _); apply Hno in Hp.
Qed.
Lemma channel_unique l id id' p p' ch :
  log_ok l → XParked id p ch ∈ l → XParked id' p' ch ∈ l → id = id'.
Proof.
  induction l as [|x l IH]; intros Hl; [by intros ?%not_elem_of_nil|].
  assert (log_ok l) as Hl' by (intros y l0 Hs; apply Hl; by apply suffix_cons_r).
  assert (justified l x) as Hx by by apply (Hl x l). intros Hp Hp'.
  apply elem_of_cons in Hp as [<-|Hp], Hp' as [E|Hp']; [by injection E as -> _|..|by apply IH].
  - by destruct Hx as (_ & _ & Hno & _); apply Hno in Hp'.
  - subst x. by destruct Hx as (_ & _ & Hno & _); apply Hno in Hp.
Qed.

(** *** Approvals on record *)
Lemma approvals_of_cons x l : approvals_of (x :: l) =
  match x with XApproval e => e :: approvals_of l | _ => approvals_of l end.
Proof. by destruct x. Qed.
Lemma approvals_of_elem e l : e ∈ approvals_of l ↔ XApproval e ∈ l.
Proof.
  unfold approvals_of. rewrite list_elem_of_omap. split; [|intros Hx; by exists (XApproval e)].
  intros (x & Hx & He). destruct x; try done. by injection He as ->.
Qed.
Lemma approvals_suffix s h e h0 : approvals s h → e :: h0 `suffix_of` h →
  ∃ s0, approvals s0 (e :: h0).
Proof.
  induction 1 as [|s h request w Ha IH Hf|s h now now' d o r s' es Ha IH Hd];
    [by intros [[] ?]|..]; (intros [[= -> ->]|Hs]%suffix_cons_inv; [|by apply IH]).
  - eexists. by constructor.
  - eexists. by econstructor.
Qed.
Lemma approvals_of_suffix l l' : l `suffix_of` l' → approvals_of l `suffix_of` approvals_of l'.
Proof. intros [k ->]. exists (approvals_of k). apply omap_app. Qed.
Lemma registered_elem id h w : registered id h = Some w → ERegister id w ∈ h.
Proof.
  induction h as [|[id' w'|now d es] h IH]; cbn; [done|..].
  - case_bool_decide as Hid; [|intros; right; by apply IH]. intros [= <-]. subst. by left.
  - intros. right. by apply IH.
Qed.

(** A signal that tells a task of approval rests on a quorum. *)
Lemma signal_approved l s id parked channel :
  log_ok l → approvals s (approvals_of l) → XParked id parked channel ∈ l →
  XSignalled id Approved ∈ l → approved_by_operators cfg l id parked.
Proof.
  intros Hl Ha Hp Hsig. destruct (log_before _ _ _ Hl Hsig) as (l1 & Hs1 & now & d & es & Hd & Hin).
  assert (XApproval (EDecide now d es) ∈ l) as Hdl by (eapply elem_of_suffix; [exact Hd|by eapply suffix_cons]).
  destruct (log_before _ _ _ Hl Hdl) as (l0 & Hs0 & _).
  pose proof (approvals_of_suffix _ _ Hs0) as Hs. rewrite approvals_of_cons in Hs.
  destruct (approvals_suffix _ _ _ _ Ha Hs) as [s0 Ha0].
  destruct (approved_workflow _ _ _ _ _ _ Ha0 Hin) as (w0 & w & Hreg & _ & Hsame & Hall & Htaken).
  exists l0, now, d, es, w0. split_and!; [done..| |by exists w].
  apply registered_elem, approvals_of_elem in Hreg.
  assert (XApproval (ERegister id w0) ∈ l) as Hreg' by (eapply elem_of_suffix; [exact Hreg|by eapply suffix_cons]).
  destruct (log_before _ _ _ Hl Hreg') as (l2 & Hs2 & parked' & ch' & Hp' & Hw).
  assert (XParked id parked' ch' ∈ l) as Hpl by (eapply elem_of_suffix; [exact Hp'|by eapply suffix_cons]).
  by destruct (parked_unique _ _ _ _ _ _ Hl Hp Hpl) as [-> _].
Qed.

(** ** The stores *)
Record stores_ok (s : SignState) l : Prop := {
  sto_approvals : approvals (ss_approvals s) (approvals_of l);
  sto_parked id parked o : ss_parked s !! id = Some (parked, o) →
    ∃ channel, XParked id parked channel ∈ l ∧ (o = Some channel ∨ o = None);
  sto_sent channel state : ss_sent s !! channel = Some state →
    ∃ id parked, XParked id parked channel ∈ l ∧ XSignalled id state ∈ l;
  sto_pending id en : ss_pending s !! id = Some en → XPending id en ∈ l;
  sto_meta id meta : ss_meta s !! id = Some meta → cm_fee_lamports meta = None
}.

Lemma stores_quiet s x l : (∀ e, x ≠ XApproval e) → stores_ok s l → stores_ok s (x :: l).
Proof.
  intros Hx [Ha Hp Hs Hq Hm]. split.
  - rewrite approvals_of_cons. destruct x; try done. by destruct (Hx e).
  - intros id parked o (ch & ? & ?)%Hp. exists ch. split; [by right|done].
  - intros ch st (id & p & ? & ?)%Hs. exists id, p. by split; right.
  - intros id en ?%Hq. by right.
  - done.
Qed.

Record ghosts_ok Gs l : Prop := {
  gh_owned n id : id ∈ Gs n → XUuid id ∈ l ∧ ∀ parked channel, XParked id parked channel ∉ l;
  gh_disjoint n m id : id ∈ Gs n → id ∈ Gs m → n = m
}.
Lemma ghosts_same Gs n l : ghosts_ok Gs l → ghosts_ok (<[n := Gs n]> Gs) l.
Proof.
  assert (∀ m, (<[n := Gs n]> Gs) m = Gs m) as Heq.
  { intros m. destruct (base.decide (n = m)) as [<-|]; [by rewrite fn_lookup_insert|by rewrite fn_lookup_insert_ne]. }
  intros [Ho Hd]. split; [intros m id; rewrite Heq; apply Ho|intros m m' id; rewrite !Heq; apply Hd].
Qed.
Lemma ghosts_quiet Gs x l : (∀ id parked channel, x ≠ XParked id parked channel) →
  ghosts_ok Gs l → ghosts_ok Gs (x :: l).
Proof.
  intros Hx [Ho Hd]. split; [|done]. intros n id [Hu Hp]%Ho. split; [by right|].
  intros parked ch [E|Hin]%elem_of_cons; [by eapply Hx|by eapply Hp].
Qed.

(** ** One event *)
Lemma told_ok env e s a s1 l : log_ok l → stores_ok s l → sign_answer env e s = Some (a, s1) →
  sign_told cfg l e a.
Proof.
  intros Hl Hs Ha. destruct e; cbn [sign_told]; try exact I; cbn [sign_answer] in Ha.
  - injection Ha as <- _. intros parked Hp.
    destruct (ss_parked s !! id) as [[p o]|] eqn:Hlk; [|done]. injection Hp as ->.
    destruct (sto_parked _ _ Hs _ _ _ Hlk) as (ch & Hin & _).
    destruct (log_before _ _ _ Hl Hin) as (l0 & Hsuf & _ & _ & _ & Hok). split_and!.
    + by exists ch.
    + eapply parked_ok_mono; [by eapply suffix_cons|done].
    + intros p' ch' Hin'. by destruct (parked_unique _ _ _ _ _ _ Hl Hin Hin') as [-> _].
    + intros Hsig. eapply signal_approved; [done|by apply Hs|done..].
  - unfold await in Ha. intros state ->. destruct (se_elapsed env); [done|].
    destruct (ss_sent s !! channel) as [st|] eqn:Hsent; [|by destruct (sender_alive _ _)].
    injection Ha as -> _. destruct (sto_sent _ _ Hs _ _ Hsent) as (id0 & p0 & Hin & Hsig).
    intros id parked Hin'. by rewrite (channel_unique _ _ _ _ _ _ Hl Hin' Hin).
  - injection Ha as <- _. intros en Hen%(sto_pending _ _ Hs).
    destruct (log_before _ _ _ Hl Hen) as (l0 & Hsuf & Hok). eapply pending_ok_mono; [|exact Hok].
    by eapply suffix_cons.
  - injection Ha as <- _. intros meta Hm. by eapply (sto_meta _ _ Hs).
  - by injection Ha as <- _.
  - by injection Ha as <- _.
Qed.

Lemma log_step Gs n env e s a s1 l : log_ok l → stores_ok s l → ghosts_ok Gs l →
  env_fresh env l → sign_pre cfg (Gs n) l e → sign_answer env e s = Some (a, s1) →
  log_ok (sign_entries e a ++ l).
Proof.
  intros Hl Hs Hg [Hfresh Hchan] Hpre Ha.
  destruct e; cbn [sign_entries app] in *; try done; cbn [sign_answer] in Ha;
    try (injection Ha as <- _); try (apply log_ok_cons; [done|first [exact I|done]]).
  - destruct a as [[[[o r] es] now]|]; [|done]. by apply log_ok_cons.
  - apply log_ok_cons; [done|]. destruct Hpre as [Hid Hok]. destruct (gh_owned _ _ Hg _ _ Hid) as [Hu Hno].
    by split_and!.
  - destruct a; [|done]. apply log_ok_cons; [done|]. exact Hpre.
  - destruct (ss_pending s !! id) as [en|] eqn:Hen; [|done]. apply log_ok_cons; [done|].
    by eapply (sto_pending _ _ Hs).
  - destruct (partial_sign key tx); [|done]. apply log_ok_cons; [done|].
    destruct Hpre as (Hk & p & bytes & Ha & Htx). split; [done|]. exists p, bytes. split; [done|].
    left. by exists tx.
  - apply log_ok_cons; [done|]. destruct Hpre as (Hk & p & bs & vtx & Ha & Htx & Hv & Hm).
    split; [done|]. exists p, bs. split; [done|]. right. by exists vtx.
Qed.

(** The ghosts of one program change. *)
Definition owned l (id : Uuid) : Prop :=
  XUuid id ∈ l ∧ ∀ parked channel, XParked id parked channel ∉ l.
Lemma ghosts_insert Gs n G l l' : ghosts_ok Gs l → l `suffix_of` l' →
  (∀ id, id ∈ G → owned l' id) → (∀ m id, m ≠ n → id ∈ Gs m → id ∉ G ∧ owned l' id) →
  ghosts_ok (<[n := G]> Gs) l'.
Proof.
  intros [Ho Hd] Hl HG Hm. split.
  - intros m id. destruct (base.decide (n = m)) as [<-|Hne];
      [rewrite fn_lookup_insert; by apply HG|rewrite fn_lookup_insert_ne by done]. intros Hid.
    by apply Hm in Hid as [_ ?].
  - intros m m' id. destruct (base.decide (n = m)) as [<-|Hne], (base.decide (n = m')) as [<-|Hne'];
      rewrite ?fn_lookup_insert, ?fn_lookup_insert_ne by done.
    + done.
    + intros Hid Hid'. by apply Hm in Hid' as [? _].
    + intros Hid Hid'. by apply Hm in Hid as [? _].
    + apply Hd.
Qed.

Lemma parked_drawn l id parked channel : log_ok l → XParked id parked channel ∈ l → XUuid id ∈ l.
Proof.
  intros Hl Hin. destruct (log_before _ _ _ Hl Hin) as (l0 & Hs & Hu & _).
  eapply elem_of_suffix; [exact Hu|by eapply suffix_cons].
Qed.

Lemma ghosts_step Gs n env e s a s1 l : log_ok l → ghosts_ok Gs l → env_fresh env l →
  sign_pre cfg (Gs n) l e → sign_answer env e s = Some (a, s1) →
  ghosts_ok (<[n := sign_leases (Gs n) e a]> Gs) (sign_entries e a ++ l).
Proof.
  intros Hl Hg [Hfresh Hchan] Hpre Ha. pose proof (ghosts_same _ n _ Hg) as Hsame.
  destruct e; cbn [sign_entries sign_leases app]; cbn [sign_answer] in Ha;
    try exact Hsame; try (by apply ghosts_quiet); try (by case_match; [apply ghosts_quiet|]).
  - injection Ha as <- _.
    assert (∀ m id, id ∈ Gs m → id ≠ se_uuid env ∧ owned (XUuid (se_uuid env) :: l) id) as Hold.
    { intros m id [Hu Hno]%(gh_owned _ _ Hg). split; [by intros ->|]. split; [by right|].
      by intros p ch [|Hin%Hno]%elem_of_cons. }
    eapply ghosts_insert; [exact Hg|grown|..].
    + intros id [->%elem_of_singleton|Hid]%elem_of_union; [|by apply (Hold n)].
      split; [by left|]. intros p ch [|Hin]%elem_of_cons; [done|]. by eapply Hfresh, parked_drawn.
    + intros m id Hm Hid. destruct (Hold _ _ Hid) as [Hne Hown]. split; [|done].
      intros [->%elem_of_singleton|Hin]%elem_of_union; [done|]. by apply Hm, (gh_disjoint _ _ Hg _ _ id).
  - destruct a as [[[[o r] es] now]|]; [by apply ghosts_quiet|done].
  - injection Ha as <- _. destruct Hpre as [Hid Hok]. eapply ghosts_insert; [exact Hg|grown|..].
    + intros id' [Hid' Hne%not_elem_of_singleton]%elem_of_difference. destruct (gh_owned _ _ Hg _ _ Hid') as [Hu Hno].
      split; [by right|]. intros p ch [[= ->]|Hin]%elem_of_cons; [done|by eapply Hno].
    + intros m id' Hm Hid'. destruct (gh_owned _ _ Hg _ _ Hid') as [Hu Hno].
      assert (id' ≠ id) as Hne by (intros ->; by apply Hm, (gh_disjoint _ _ Hg _ _ id)).
      split; [intros [Hin _]%elem_of_difference; by apply Hm, (gh_disjoint _ _ Hg _ _ id')|].
      split; [by right|]. intros p ch [[= ->]|Hin]%elem_of_cons; [done|by eapply Hno].
Qed.

Lemma approval_step s l a e : stores_ok s l → approvals a (e :: approvals_of l) →
  stores_ok (with_approvals a s) (XApproval e :: l).
Proof.
  intros [_ Hp Hst Hq Hm] Ha. split; cbn; try done.
  - intros id parked o (ch & ? & ?)%Hp. exists ch. split; [by right|done].
  - intros ch st (id & p & ? & ?)%Hst. exists id, p. by split; right.
  - intros id en ?%Hq. by right.
Qed.

Lemma park_step id parked channel s l : stores_ok s l →
  stores_ok (with_parked (<[id := (parked, Some channel)]> (ss_parked s)) s)
    (XParked id parked channel :: l).
Proof.
  intros Hs. apply stores_quiet with (x := XParked id parked channel) in Hs as [Ha Hp Hst Hq Hm]; [|done].
  split; cbn; try done.
  intros id' p' o [[<- [= <- <-]]|[_ Hl]]%lookup_insert_Some; [|by apply Hp].
  exists channel. split; [by left|by left].
Qed.

Lemma signal_step id state s l : stores_ok s l →
  stores_ok (signal id state s).2
    ((if (signal id state s).1 then [XSignalled id state] else []) ++ l).
Proof.
  intros Hs. unfold signal. destruct (ss_parked s !! id) as [[p [ch|]]|] eqn:Hp; [|done..].
  cbn [fst snd app]. destruct (sto_parked _ _ Hs _ _ _ Hp) as (ch' & Hin & [[= <-]|]); [|done].
  apply stores_quiet with (x := XSignalled id state) in Hs as [Ha Hpk Hst Hq Hm]; [|done].
  split; cbn; try done.
  - intros id' p' o [[<- [= <- <-]]|[_ Hl]]%lookup_insert_Some; [|by apply Hpk].
    exists ch. split; [by right|by right].
  - intros c st [[<- <-]|[_ Hl]]%lookup_insert_Some; [|by apply Hst].
    exists id, p. split; [by right|by left].
Qed.

Lemma take_step id s l : stores_ok s l → stores_ok (with_parked (delete id (ss_parked s)) s) l.
Proof. intros [Ha Hp Hst Hq Hm]. split; cbn; try done. intros id' p o [_ Hl]%lookup_delete_Some. by apply Hp. Qed.

Lemma stores_step Gs n env e s a s1 l : log_ok l → stores_ok s l →
  sign_pre cfg (Gs n) l e → sign_answer env e s = Some (a, s1) →
  stores_ok s1 (sign_entries e a ++ l).
Proof.
  intros Hl Hs Hpre Ha.
  destruct e; cbn [sign_entries app]; cbn [sign_answer] in Ha;
    try (injection Ha as <- <-); try exact Hs; try (by apply stores_quiet);
    try (by case_match; [apply stores_quiet|]); try (by apply take_step).
  - destruct Hpre as (parked & ch & _ & now & lease_now & Hw).
    apply approval_step; [done|]. constructor; [by apply Hs|by eapply verdict_fresh].
  - destruct (decide_inner _ _ _ _) as [[[[o r] a'] es]|] eqn:Hd; injection Ha as <- <-; [|done].
    apply approval_step; [done|]. econstructor; [by apply Hs|exact Hd].
  - by apply park_step.
  - assert (a = (signal id state s).1 ∧ s1 = (signal id state s).2) as [-> ->]
      by (by destruct (signal id state s); injection Ha as <- <-).
    by apply signal_step.
  - destruct (await _ _ _); [|done]. by injection Ha as <- <-.
  - apply stores_quiet with (x := XPending id entry) in Hs as [? ? ? Hq ?]; [|done]. split; cbn; try done.
    intros id' en [[<- <-]|[_ Hlk]]%lookup_insert_Some; [by left|by apply Hq].
  - assert (stores_ok (with_pending (delete id (ss_pending s)) s) l) as Hs'.
    { destruct Hs as [? ? ? Hq ?]. split; cbn; try done. intros id' en [_ ?]%lookup_delete_Some. by apply Hq. }
    destruct (ss_pending s !! id); [by apply stores_quiet|done].
  - destruct Hs as [? ? ? ? Hm]. split; cbn; try done.
    intros id' m [[<- <-]|[_ Hlk]]%lookup_insert_Some; [done|by eapply Hm].
  - destruct Hs as [? ? ? ? Hm]. split; cbn; try done.
    intros id' m [_ Hlk]%lookup_delete_Some. by eapply Hm.
Qed.

(** ** The pool *)
Definition pool_ok (pl : SignPool) : Prop :=
  let l := ss_log (sp_state pl) in
  log_ok l ∧ stores_ok (sp_state pl) l ∧
  ∃ Gs, ghosts_ok Gs l ∧ ∀ n p, sp_threads pl !! n = Some p →
    Interaction.safe (sign_pre cfg) (sign_told cfg) sign_leases sign_entries
      (λ _ _ _, True) (Gs n) l p.

Lemma task_safe {E A : Type} G l (p : RProg E A) : tame G l p →
  Interaction.safe (sign_pre cfg) (sign_told cfg) sign_leases sign_entries (λ _ _ _, True) G l (task p).
Proof. intros Hp. apply safe_bind. eapply safe_conseq; [|exact Hp]. by intros o G' l' _ _ l'' _. Qed.

Lemma signing_program_safe G l p : signing_program cfg p →
  Interaction.safe (sign_pre cfg) (sign_told cfg) sign_leases sign_entries (λ _ _ _, True) G l p.
Proof.
  destruct 1; apply task_safe; [apply execute_tame|apply handle_decision_tame|
    apply submit_signed_tx_tame|apply expire_pending_tame].
Qed.

Lemma log_of_answer env e s a s1 : sign_answer env e s = Some (a, s1) → ss_log s1 = ss_log s.
Proof.
  destruct e; cbn [sign_answer]; intros Ha; try (by injection Ha as _ <-).
  - by destruct (decide_inner _ _ _ _) as [[[[o r] a'] es]|]; injection Ha as _ <-.
  - injection Ha as Ha. unfold signal in Ha.
    by destruct (ss_parked s !! id) as [[p [ch|]]|]; injection Ha as _ <-.
  - destruct (await _ _ _); [|done]. by injection Ha as _ <-.
Qed.

Lemma stores_logged s l k : stores_ok s l → stores_ok (logged k s) l.
Proof. by intros []. Qed.

Lemma spawned_Some e m ts n p : spawned cfg e m ts !! n = Some p →
  (∃ args, e = SpawnResume args ∧ m = n ∧ p = task (resume_after_approval cfg args)) ∨
  ts !! n = Some p.
Proof.
  destruct e; cbn [spawned]; eauto. intros [[<- <-]|[_ Hp]]%lookup_insert_Some; eauto.
Qed.

Lemma sign_reachable_ok pl : sign_reachable cfg pl → pool_ok pl.
Proof.
  induction 1 as [|pl pl' _ IH Hstep].
  - split; [intros x l0 [k Hk]; by destruct k|]. split; [by split; cbn; [constructor|..]|].
    exists (λ _, ∅). split; [by split; [intros ? ? ?%not_elem_of_empty|intros ? ? ? ?%not_elem_of_empty]|].
    by intros n p.
  - destruct IH as (Hl & Hs & Gs & Hg & Hsafe).
    destruct Hstep as [ts s n p Hn Hp|ts s n m e k env a s' Hn Hm Hfresh Hev|ts s n];
      unfold pool_ok; cbn [sp_threads sp_state] in *.
    + split; [done|]. split; [done|]. exists Gs. split; [done|].
      intros n' p' [[<- <-]|[_ Hp']]%lookup_insert_Some; [by apply signing_program_safe|by apply Hsafe].
    + destruct (Hsafe n _ Hn (ss_log s) ltac:(reflexivity)) as [Hpre Hk].
      unfold sign_event in Hev. destruct (sign_answer env e s) as [[a' s1]|] eqn:Ha; [|done].
      injection Hev as <- <-. pose proof (log_of_answer _ _ _ _ _ Ha) as Hlog.
      pose proof (told_ok _ _ _ _ _ _ Hl Hs Ha) as Htold.
      cbn [logged ss_log]. rewrite Hlog.
      split; [by eapply log_step|]. split.
      { eapply stores_logged, stores_step; [exact Hl|done..]. }
      exists (<[n := sign_leases (Gs n) e a']> Gs). split; [by eapply ghosts_step|].
      intros n' p' Hp'. apply spawned_Some in Hp' as [(args & -> & <- & ->)|Hp'].
      * apply task_safe, resume_tame. destruct Hpre as (parked & Hin & ?). exists parked.
        split; [|done]. exact Hin.
      * apply lookup_insert_Some in Hp' as [[<- <-]|[Hne Hp']].
        -- rewrite fn_lookup_insert. by apply Hk.
        -- rewrite fn_lookup_insert_ne by done. eapply safe_mono; [|by apply Hsafe].
           by apply suffix_app_r.
    + split; [done|]. split; [done|]. exists Gs. split; [done|].
      intros n' p' [_ Hp']%lookup_delete_Some. by apply Hsafe.
Qed.
(** ** Properties *)
Section properties.
Context `{!SdkLaws}.
Implicit Types (pl : SignPool) (p : TransactionProposal) (tx : Transaction).

(** The human approval that a verdict asks for. *)
Definition humans_agreed l p (v : PolicyVerdict) : Prop :=
  PolicyEngine.requires_human v = true →
  ∃ id parked channel, XParked id parked channel ∈ l ∧ pk_proposal parked = p ∧
    pk_policy_verdict parked = v ∧ approved_by_operators cfg l id parked.

Lemma authorized_reviewed l p bytes : authorized l p bytes →
  ∃ tx sim v, reviewed cfg l p tx sim v ∧ tx_to_bytes tx = Ok bytes ∧ humans_agreed l p v.
Proof.
  intros (tx & sim & v & Hrev & Hb & Hh). exists tx, sim, v. split_and!; [done|done|].
  intros Hv. destruct (Hh Hv) as (id & parked & ch & ? & ? & _ & ? & ?). by exists id, parked, ch.
Qed.

(** The message signed for a transaction given as bytes: its own; only where its header
    asks for 128 signatures or more can the bytes be read as a version 0 transaction,
    whose message it is then. *)
Definition message_signed (tx : Transaction) (m : list byte) : Prop :=
  m = message_of tx ∨
  128 ≤ num_required_signatures (header (message tx)) ∧
  ∃ bytes vtx, tx_to_bytes tx = Ok bytes ∧ vtx_from_bytes bytes = Ok vtx ∧
    is_v0 (vt_message vtx) = true ∧ m = message_bytes (vt_message vtx).
Lemma reviewed_message tx bytes m : tx_to_bytes tx = Ok bytes → message_in bytes m → message_signed tx m.
Proof.
  intros Hb [(tx' & Htx & ->)|(vtx & Hv & H0' & ->)].
  - rewrite (tx_roundtrip _ _ Hb) in Htx. injection Htx as ->. by left.
  - right. destruct (Z.lt_ge_cases (num_required_signatures (header (message tx))) 128) as [Hn|Hn].
    + by rewrite (legacy_bytes _ _ _ Hb Hn Hv) in H0'.
    + split; [done|]. by exists bytes, vtx.
Qed.

(** C9: A local key signs only what was reviewed.  Whatever tool calls, decisions, resumed
    tasks and wallet signatures run besides, when a local key is used, on record
    before it are: the agent's transaction that a proposal describes, given a budget and
    a blockhash, and its simulation without error; the rules of the proposal's wallet and
    session and the spending read for it, and on these the policy's verdict is not a
    rejection; when the verdict asks for humans, also a decision that completed every
    quorum of the workflow of this verdict.  The signed message is that of a transaction
    simulated without error, the first or the one with the tightened limit; or, when the
    simulation with the tightened limit failed, of one that was not itself simulated: the
    first with its limit put back and a newer blockhash.  A transaction whose header asks
    for 128 signatures or more may be read as one of version 0, and that message signed. *)
Theorem key_signs_only_reviewed pl key m l0 :
  sign_reachable cfg pl → XKeyUsed key m :: l0 `suffix_of` ss_log (sp_state pl) →
  LocalWalletAdapter key ∈ sc_adapters cfg ∧
  ∃ p tx sim v, reviewed cfg l0 p tx sim v ∧ humans_agreed l0 p v ∧ message_signed tx m.
Proof.
  intros (Hl & _)%sign_reachable_ok Hs. destruct (Hl _ _ Hs) as (Hkey & p & bytes & Ha & Hm). split; [done|].
  destruct (authorized_reviewed _ _ _ Ha) as (tx & sim & v & ? & Hb & ?). exists p, tx, sim, v.
  split_and!; [done|done|]. by eapply reviewed_message.
Qed.

(** C10: the signing tool asks an external wallet only to sign what was reviewed, and only
    the wallet whose rules were applied.  When a request for an external signature is stored,
    its bytes are those of a transaction that was reviewed, and where the verdict
    asks for it approved, as for a local key; and the expected signer is the wallet
    of the proposal, in the proposal's session. *)
Theorem wallet_asked_only_for_reviewed pl id en l0 :
  sign_reachable cfg pl → XPending id en :: l0 `suffix_of` ss_log (sp_state pl) →
  ∃ p tx sim v, reviewed cfg l0 p tx sim v ∧ humans_agreed l0 p v ∧
    tx_to_bytes tx = Ok (sq_finalized_tx_bytes (pn_request en)) ∧
    parse_pubkey (PolicyEngine.tp_wallet_pubkey p) = Ok (sq_expected_signer (pn_request en)) ∧
    sq_session_id (pn_request en) = PolicyEngine.tp_session_id p.
Proof.
  intros (Hl & _)%sign_reachable_ok Hs. destruct (Hl _ _ Hs) as (_ & _ & p & Ha & Hw & Hsession).
  destruct (authorized_reviewed _ _ _ Ha) as (tx & sim & v & ? & Hb & ?). by exists p, tx, sim, v.
Qed.

(** C11: the signing tool's programs broadcast bytes only if they are the signed form of a
    reviewed transaction.  When bytes are sent, they are either what a configured local key made of the
    bytes of a transaction that was reviewed (and approved, where the verdict asks
    for it), the signature being on record; or what an external wallet returned for
    such a transaction, its pending request released before and the completion
    verified against it. *)
Theorem sent_only_reviewed pl signed l0 :
  sign_reachable cfg pl → XSent signed :: l0 `suffix_of` ss_log (sp_state pl) →
  ∃ p tx sim v bytes, reviewed cfg l0 p tx sim v ∧ humans_agreed l0 p v ∧ tx_to_bytes tx = Ok bytes ∧
    (locally_signed cfg l0 bytes signed ∨ externally_signed l0 bytes signed).
Proof.
  intros (Hl & _)%sign_reachable_ok Hs. destruct (Hl _ _ Hs) as (p & bytes & Ha & Hsigned).
  destruct (authorized_reviewed _ _ _ Ha) as (tx & sim & v & ? & Hb & ?). by exists p, tx, sim, v, bytes.
Qed.

(** C30: the review changes only the compute budget.  Apart from the instructions of the
    budget program, the transaction that is signed consists of the instructions that
    the agent submitted: same programs, accounts and data, in the same order, as long
    as they and the budget name at most 256 accounts. *)
Theorem reviewed_keeps_instructions l p tx sim v :
  reviewed cfg l p tx sim v →
  ∃ agent, proposed p agent ∧
    ((length (remove_dups (compute_budget_id :: account_keys (message agent))) ≤ 256)%nat →
     payload tx = payload agent).
Proof.
  intros [(agent & Hprop & Hsim) _ _]. exists agent. split; [done|]. intros Hlen.
  set (base := remove_dups _) in Hlen.
  assert (within base agent) as Hw.
  { unfold base. split; [by rewrite elem_of_remove_dups; left|]. intros k Hk.
    rewrite elem_of_remove_dups. by right. }
  assert (∀ prepended first, budgeted_as agent prepended first →
    payload first = payload agent ∧ within base first) as Hfirst.
  { intros b first (fee & tx1 & h & Hpre & ->).
    exact (prepend_payload _ _ _ _ _ _ Hlen Hw Hpre). }
  assert (∀ first value second, payload first = payload agent ∧ within base first →
    tightened first value second → payload second = payload agent ∧ within base second) as Hsecond.
  { intros first value second [Hp1 Hw1] (units & tx1 & h & _ & _ & Hr & ->). rewrite <- Hp1.
    exact (replace_payload _ _ _ _ _ Hlen Hw1 Hr). }
  destruct Hsim as [b first value Hb _|first value second value' Hb _ Ht _|first value second found tx' Hb _ Ht _ Hr].
  - by eapply Hfirst.
  - by eapply Hsecond; [eapply Hfirst|].
  - destruct (Hsecond _ _ _ (Hfirst _ _ Hb) Ht) as [<- Hw2].
    by destruct (replace_payload _ _ _ _ _ Hlen Hw2 Hr) as [? _].
Qed.

(** No fee is ever recorded as spent: the simulation reports none, so neither the tool
    nor the resumed task nor the wallet handler has one to record, and the limits on
    daily and session spending compare what other parts of the gateway recorded. *)
Lemma no_spend_recorded pl wallet fee : sign_reachable cfg pl → XSpent wallet fee ∉ ss_log (sp_state pl).
Proof. intros (Hl & _)%sign_reachable_ok Hin. by destruct (log_before _ _ _ Hl Hin) as (l0 & _ & []). Qed.
End properties.
End safety.
