(* ===== verification/SigningRuns.v ===== *)
(** * Runs of the signing path

    A small transfer signed at once, a large one parked, approved and signed by an
    external wallet; the witnesses of the properties. *)
From S2P Require Import Prelude Interaction Borsh Solana WatcherBase RustText Approval.
From S2P Require Import ApprovalStore ApprovalFacts SdkTypes ComputeBudget SigningEvents.
From S2P Require Import TxReview WalletAdapters Orchestrator TxSummary PolicyStores SigningTool.
From S2P Require Import SigningTasks SigningLogic SigningSafety.
From S2P Require PolicyEngine.
#[local] Open Scope string_scope.
#[local] Open Scope Z_scope.

(** * A transaction crate for the runs

    A concrete instance of the class [Sdk], with its documented behaviour proved: a
    length-prefixed codec with the version bit, messages whose only signer is the
    payer, and signatures that repeat key and message. *)

(** ** The codec *)
Definition c_signatures : Codec (list Signature) := c_vec (c_array 64).
Definition c_header : Codec MessageHeader.
Proof.
  refine (c_iso (λ '(a, b, c), MkHeader a b c)
    (λ h, (num_required_signatures h, num_readonly_signed_accounts h, num_readonly_unsigned_accounts h))
    _ _ (c_pair (c_pair c_u8 c_u8) c_u8)); [by intros []|by intros [[]]].
Defined.
Definition c_compiled : Codec CompiledInstruction.
Proof.
  refine (c_iso (λ '(p, a, d), MkCompiled p a d)
    (λ c, (cx_program_id_index c, cx_accounts c, cx_data c)) _ _
    (c_pair (c_pair c_u8 (c_vec c_u8)) (c_vec c_byte))); [by intros []|by intros [[]]].
Defined.
Definition c_message : Codec Message.
Proof.
  refine (c_iso (λ '(h, (k, b, i)), MkMessage h k b i)
    (λ m, (header m, (account_keys m, recent_blockhash m, msg_instructions m))) _ _
    (c_pair c_header (c_pair (c_pair (c_vec (c_array 32)) (c_array 32)) (c_vec c_compiled))));
    [by intros []|by intros [? [[]]]].
Defined.
Definition c_lookup : Codec MessageAddressTableLookup.
Proof.
  refine (c_iso (λ '(k, w, r), MkLookup k w r)
    (λ l, (lk_account_key l, lk_writable_indexes l, lk_readonly_indexes l)) _ _
    (c_pair (c_pair (c_array 32) (c_vec c_u8)) (c_vec c_u8))); [by intros []|by intros [[]]].
Defined.
Definition c_message_v0 : Codec MessageV0.
Proof.
  refine (c_iso (λ '(h, (k, b, i, a)), MkMessageV0 h k b i a)
    (λ m, (v0_header m, (v0_account_keys m, v0_recent_blockhash m, v0_instructions m, v0_lookups m))) _ _
    (c_pair c_header (c_pair (c_pair (c_pair (c_vec (c_array 32)) (c_array 32)) (c_vec c_compiled))
       (c_vec c_lookup)))); [by intros []|by intros [? [[[]]]]].
Defined.

(** A whole slice, and only what can be read back is written. *)
Definition all_of {A} (r : option (A * list byte)) : Result string A :=
  match r with Some (a, []) => Ok a | _ => Err "unexpected end of file" end.
Definition read_tx (bs : list byte) : option (Transaction * list byte) :=
  '(sigs, r) ← dec c_signatures bs;
  '(m, r) ← dec c_message r;
  Some (MkTransaction sigs m, r).
Definition write_tx (tx : Transaction) : list byte :=
  enc c_signatures (signatures tx) ++ enc c_message (message tx).

(** The first bit of a message is set for version 0. *)
Definition read_message (bs : list byte) : option (VersionedMessage * list byte) :=
  '(first, rest) ← dec c_u8 bs;
  if 128 <=? first then '(m, r) ← dec c_message_v0 rest; Some (V0Message m, r)
  else '(m, r) ← dec c_message bs; Some (LegacyMessage m, r).
Definition write_message (m : VersionedMessage) : list byte :=
  match m with
  | LegacyMessage m => enc c_message m
  | V0Message m => byte_of 128 :: enc c_message_v0 m
  end.
Definition read_vtx (bs : list byte) : option (VersionedTransaction * list byte) :=
  '(sigs, r) ← dec c_signatures bs;
  '(m, r) ← read_message r;
  Some (MkVersioned sigs m, r).

Definition written {A} `{EqDecision A} (read : list byte → Result string A) (bs : list byte) (a : A) :
    Result string (list byte) :=
  match read bs with
  | Ok a' => if bool_decide (a' = a) then Ok bs else Err "invalid value"
  | Err e => Err e
  end.
#[local] Instance lookup_eq_dec : EqDecision MessageAddressTableLookup.
Proof. solve_decision. Defined.
#[local] Instance message_v0_eq_dec : EqDecision MessageV0.
Proof. solve_decision. Defined.
#[local] Instance versioned_message_eq_dec : EqDecision VersionedMessage.
Proof. solve_decision. Defined.
#[local] Instance versioned_eq_dec : EqDecision VersionedTransaction.
Proof. solve_decision. Defined.

(** ** Messages *)
Definition position (keys : list Pubkey) (k : Pubkey) : Z :=
  match list_find (λ k', k' = k) keys with Some (i, _) => Z.of_nat i | None => 0 end.
Definition compile_ix (keys : list Pubkey) (ix : Instruction) : CompiledInstruction :=
  MkCompiled (position keys (ix_program_id ix))
    (map (λ a, position keys (meta_key a)) (ix_accounts ix)) (ix_data ix).
(** The payer comes first. *)
Definition ordered_keys (ixs : list Instruction) (payer : option Pubkey) : list Pubkey :=
  option_list payer ++ List.filter (λ k, negb (bool_decide (Some k = payer))) (keys_of ixs payer).
Definition compile_message (ixs : list Instruction) (payer : option Pubkey) : Message :=
  let keys := ordered_keys ixs payer in
  MkMessage (MkHeader (match payer with Some _ => 1 | None => 0 end) 0 0) keys
    (replicate 32 (byte_of 0)) (map (compile_ix keys) ixs).

Lemma ordered_keys_elem ixs payer k : k ∈ ordered_keys ixs payer ↔ k ∈ keys_of ixs payer.
Proof.
  unfold ordered_keys. rewrite elem_of_app, (list_elem_of_In (List.filter _ _) k), filter_In,
    <- list_elem_of_In, negb_true_iff, bool_decide_eq_false.
  split; [|destruct (base.decide (Some k = payer)) as [<-|]; [left; by left|by right]].
  intros [Hk|[? _]]; [|done]. unfold keys_of. rewrite elem_of_remove_dups. apply elem_of_app. by left.
Qed.

Lemma position_spec keys k : k ∈ keys → key_at keys (position keys k) = Some k.
Proof.
  intros Hk. unfold position, key_at. destruct (list_find _ keys) as [[i k']|] eqn:Hf.
  - apply list_find_Some in Hf as (Hi & -> & _). by rewrite Nat2Z.id.
  - apply list_find_None in Hf. rewrite Forall_forall in Hf. by destruct (Hf k).
Qed.

Lemma compiled_resolves keys ix :
  (∀ k, k ∈ ix_program_id ix :: map meta_key (ix_accounts ix) → k ∈ keys) →
  resolve keys (compile_ix keys ix) = resolved_of ix.
Proof.
  intros Hk. unfold resolve, compile_ix, resolved_of. cbn.
  rewrite position_spec by (apply Hk; by left). f_equal. rewrite map_map. apply map_ext_in.
  intros a Ha. apply position_spec, Hk. right. apply list_elem_of_In. by apply in_map.
Qed.

(** ** Keys and signatures *)
Definition model_budget_id : Pubkey := replicate 32 (byte_of 66).
Definition sign_bytes (key : Pubkey) (bs : list byte) : Signature :=
  take 64 (key ++ bs ++ replicate 64 (byte_of 1)).
Definition required_keys (tx : Transaction) : list Pubkey :=
  take (Z.to_nat (num_required_signatures (header (message tx)))) (account_keys (message tx)).
Definition sign_partially (key : Pubkey) (tx : Transaction) : option Transaction :=
  '(i, _) ← list_find (λ k, k = key) (required_keys tx);
  Some (MkTransaction (<[i := sign_bytes key (write_message (LegacyMessage (message tx)))]> (signatures tx))
          (message tx)).

#[local] Instance sdk_model : Sdk := {
  tx_from_bytes bs := all_of (read_tx bs);
  tx_to_bytes tx := written (λ bs, all_of (read_tx bs)) (write_tx tx) tx;
  vtx_from_bytes bs := all_of (read_vtx bs);
  vtx_to_bytes tx := written (λ bs, all_of (read_vtx bs))
    (enc c_signatures (vt_signatures tx) ++ write_message (vt_message tx)) tx;
  message_new := compile_message;
  msg_is_signer m i := (Z.of_nat i <? num_required_signatures (header m));
  msg_is_maybe_writable _ _ := true;
  message_bytes := write_message;
  set_compute_unit_limit n := MkInstruction model_budget_id [] (byte_of 2 :: to_le 4 n);
  set_compute_unit_price n := MkInstruction model_budget_id [] (byte_of 3 :: to_le 8 n);
  compute_budget_id := model_budget_id;
  sign_message := sign_bytes;
  sig_verify s k bs := bool_decide (s = sign_bytes k bs);
  partial_sign := sign_partially;
  show_pubkey k := bytes_str (take 1 k);
  parse_pubkey s := match str_bytes s with b :: _ => Ok (replicate 32 b) | [] => Err "empty" end;
  show_signature s := bytes_str (take 4 s)
}.

Lemma dec_pair {A B} (ca : Codec A) (cb : Codec B) bs a b r : dec (c_pair ca cb) bs = Some ((a, b), r) →
  ∃ r', dec ca bs = Some (a, r') ∧ dec cb r' = Some (b, r).
Proof.
  unfold c_pair. cbn [dec]. destruct (dec ca bs) as [[a' r']|]; cbn [mbind option_bind]; [|done].
  destruct (dec cb r') as [[b' r'']|] eqn:Hb; cbn [mbind option_bind]; [|done].
  intros [= <- <- <-]. by exists r'.
Qed.
Lemma dec_iso {A B} (f : A → B) g H1 H2 (ca : Codec A) bs b r : dec (c_iso f g H1 H2 ca) bs = Some (b, r) →
  ∃ a, dec ca bs = Some (a, r) ∧ b = f a.
Proof.
  unfold c_iso. cbn [dec]. destruct (dec ca bs) as [[a r']|]; cbn [mbind option_bind]; [|done].
  intros [= <- <-]. by exists a.
Qed.
Lemma first_of_message r m r' first rest : dec c_message r = Some (m, r') →
  dec c_u8 r = Some (first, rest) → num_required_signatures (header m) = first.
Proof.
  intros Hm Hf. apply dec_iso in Hm as ([h [[ks bh] ixs]] & Hm & ->).
  apply dec_pair in Hm as (r1 & Hh & _). apply dec_iso in Hh as ([[a b] c] & Hh & ->).
  apply dec_pair in Hh as (r2 & Hh & _). apply dec_pair in Hh as (r3 & Hh & _).
  rewrite Hf in Hh. by injection Hh as -> _.
Qed.

Lemma written_spec {A} `{EqDecision A} (read : list byte → Result string A) bs a out :
  written read bs a = Ok out → out = bs ∧ read out = Ok a.
Proof.
  unfold written. destruct (read bs) as [a'|e] eqn:Hr; [|done]. case_bool_decide; [|done].
  intros [= <-]. by subst.
Qed.

#[local] Instance sdk_model_laws : SdkLaws.
Proof.
  split.
  - intros tx bs Hw. cbn [tx_to_bytes sdk_model] in Hw. by apply written_spec in Hw as [_ ?].
  - intros tx bs vtx Hw Hn Hv. cbn [tx_to_bytes sdk_model] in Hw. apply written_spec in Hw as [_ Hr].
    cbn [vtx_from_bytes sdk_model] in Hv. unfold all_of, read_tx, read_vtx in *.
    destruct (dec c_signatures bs) as [[sigs r]|]; cbn [mbind option_bind] in *; [|done].
    unfold read_message in Hv.
    destruct (dec c_u8 r) as [[first rest]|] eqn:Hf; cbn [mbind option_bind] in Hv; [|done].
    destruct (dec c_message r) as [[m r']|] eqn:Hm; cbn [mbind option_bind] in *; [|done].
    destruct r' as [|]; [|done]. injection Hr as <-. cbn [message] in Hn.
    rewrite (first_of_message _ _ _ _ _ Hm Hf) in Hn.
    destruct (Z.leb_spec 128 first); [lia|]. by injection Hv as <-.
  - intros ixs payer k _. apply ordered_keys_elem.
  - intros ixs payer _. unfold resolved. cbn. rewrite map_map. apply map_ext_in.
    intros ix Hix%list_elem_of_In. apply compiled_resolves. intros k Hk. apply ordered_keys_elem. unfold keys_of.
    rewrite elem_of_remove_dups. apply elem_of_app. right. apply list_elem_of_join.
    eexists. split; [exact Hk|]. apply list_elem_of_In, in_map_iff. exists ix.
    split; [done|by apply list_elem_of_In].
  - done.
  - done.
  - intros n. cbn. by rewrite length_to_le.
  - done.
  - done.
  - intros key bs. by apply bool_decide_eq_true.
  - intros key tx tx' Hs. cbn in Hs. unfold sign_partially in Hs.
    destruct (list_find _ _) as [[i k]|] eqn:Hf; [|done]. cbn in Hs. injection Hs as <-.
    split; [done|]. exists i. by apply list_find_Some in Hf as (Hi & -> & _).
Qed.

(** * The runs *)

#[local] Existing Instances sdk_model sdk_model_laws.
#[local] Instance run_chrono : PolicyEngine.Chrono := {|
  PolicyEngine.DateTime := unit; PolicyEngine.FixedOffset := unit; PolicyEngine.utc := tt;
  PolicyEngine.east_opt _ := None; PolicyEngine.local_hour _ _ := 12;
  PolicyEngine.local_weekday _ _ := 1 |}.
#[local] Instance run_sha256 : Sha256 := λ bs, take 32 bs.
#[local] Instance run_system : SystemDecode := λ data,
  if bool_decide (take 4 data = to_le 4 2) then Some (Transfer (from_le (drop 4 data))) else None.
#[local] Instance run_calendar : Calendar := λ now s, Some (now + 1000 * s).
#[local] Instance run_uuid : UuidText := λ u, fmt (Z.of_N u).
#[local] Instance run_base64 : Base64 := λ s, Ok (str_bytes s).
#[local] Instance run_base64_encode : Base64Encode := λ bs, bytes_str bs.
#[local] Instance run_signature_text : SignatureText := λ s, Some (str_bytes s).

(** ** Schedules *)
Inductive Act :=
| Start (n : nat) (p : SProg unit)
| Go (n child fuel : nat) (env : nat → SignEnv).

Definition env_fresh_b (env : SignEnv) (l : SignLog) : bool :=
  forallb (λ x, match x with
                | XUuid id => negb (bool_decide (id = se_uuid env))
                | XParked _ _ ch => negb (ch =? se_channel env)%nat
                | _ => true
                end) l.

Section schedules.
Context (cfg : SigningConfig).

(** A thread runs until it ends, has to wait or its fuel is spent. *)
Fixpoint go (n child fuel : nat) (env : nat → SignEnv) (pl : SignPool) : option SignPool :=
  match fuel with
  | O => Some pl
  | S fuel =>
      match sp_threads pl !! n, sp_threads pl !! child with
      | Some (Vis e k), None =>
          if env_fresh_b (env fuel) (ss_log (sp_state pl)) then
            match sign_event (env fuel) e (sp_state pl) with
            | Some (a, s) =>
                go n child fuel env (MkSignPool (spawned cfg e child (<[n := k a]> (sp_threads pl))) s)
            | None => Some pl
            end
          else None
      | _, _ => Some pl
      end
  end.
Definition act (a : Act) (pl : SignPool) : option SignPool :=
  match a with
  | Start n p =>
      match sp_threads pl !! n with
      | None => Some (MkSignPool (<[n := p]> (sp_threads pl)) (sp_state pl))
      | Some _ => None
      end
  | Go n child fuel env => go n child fuel env pl
  end.
Fixpoint acts (l : list Act) (pl : SignPool) : option SignPool :=
  match l with [] => Some pl | a :: l => pl ← act a pl; acts l pl end.

Definition allowed (a : Act) : Prop :=
  match a with Start _ p => signing_program cfg p | Go _ _ _ _ => True end.

Lemma env_fresh_b_spec env l : env_fresh_b env l = true → env_fresh env l.
Proof.
  unfold env_fresh_b. rewrite forallb_forall. intros Hl. split.
  - intros Hin%list_elem_of_In%Hl. cbn in Hin. by rewrite bool_decide_eq_true_2 in Hin.
  - intros id p Hin%list_elem_of_In%Hl. cbn in Hin. by rewrite Nat.eqb_refl in Hin.
Qed.

Lemma go_reachable n child fuel env pl pl' :
  go n child fuel env pl = Some pl' → sign_reachable cfg pl → sign_reachable cfg pl'.
Proof.
  revert pl. induction fuel as [|fuel IH]; intros [ts s]; cbn [go sp_threads sp_state];
    [by intros [= <-]|].
  destruct (ts !! n) as [[u|e k]|] eqn:Hn; [by intros [= <-]| |by intros [= <-]].
  destruct (ts !! child) eqn:Hm; [by intros [= <-]|].
  destruct (env_fresh_b _ _) eqn:Hf; [|done].
  destruct (sign_event _ e s) as [[a s']|] eqn:He; [|by intros [= <-]].
  intros Hgo Hr. eapply IH; [exact Hgo|]. eapply sign_more; [exact Hr|].
  eapply sign_thread; [done|done|by apply env_fresh_b_spec|done].
Qed.

Lemma acts_reachable l pl pl' : Forall allowed l → acts l pl = Some pl' →
  sign_reachable cfg pl → sign_reachable cfg pl'.
Proof.
  intros Hl. revert pl. induction Hl as [|a l Ha Hl IH]; intros pl; cbn [acts]; [by intros [= <-]|].
  destruct (act a pl) as [pl1|] eqn:H1; [|done]. cbn [mbind option_bind]. intros Hacts Hr.
  eapply IH; [exact Hacts|]. destruct a as [n p|n child fuel env]; cbn in H1.
  - destruct pl as [ts s]. cbn in H1. destruct (ts !! n) eqn:Hn; [done|]. injection H1 as <-.
    eapply sign_more; [exact Hr|]. by constructor.
  - by eapply go_reachable.
Qed.
End schedules.

(** ** A gateway *)
Definition wallet : Pubkey := replicate 32 (byte_of 87).
Definition payee : Pubkey := replicate 32 (byte_of 80).
Definition transfer (lamports : Z) : Instruction :=
  MkInstruction system_program_id [meta_new wallet true; meta_new payee false]
    (to_le 4 2 ++ to_le 8 lamports).
Definition agent_tx (lamports : Z) : Transaction :=
  MkTransaction [default_signature] (message_new [transfer lamports] (Some wallet)).
Definition base64_of (tx : Transaction) : string :=
  match tx_to_bytes tx with Ok bs => bytes_str bs | Err _ => "" end.

Definition rules : PolicySet :=
  PolicyEngine.MkPolicySet
    [PolicyEngine.MkPolicyRule "large" "" (PolicyEngine.AmountExceedsLamports 1000)
       (PolicyEngine.RequireApprovalChain "large transfer" [PolicyEngine.MkStage "risk" "" 1]);
     PolicyEngine.MkPolicyRule "small" "" PolicyEngine.Always PolicyEngine.Approve] [] [].
Definition config : SigningConfig :=
  MkSigningConfig NoFee [ExternalWalletAdapter; LocalWalletAdapter wallet] rules
    PolicyEngine.Devnet ∅ true 3600 true.
Definition env (base : N) (bound : bool) (i : nat) : SignEnv :=
  MkSignEnv (base + N.of_nat i)%N (N.to_nat base + i)%nat 1000 1000 tt "2026-01-01" (λ _ _, Ok 0) (λ _, Ok 0)
    (λ _, Ok []) (Ok (replicate 32 (byte_of 7), 99)) (λ _, Ok (MkSimulationValue None None None))
    (λ bs, Ok (bytes_str (take 3 bs))) (Ok 50) (Ok tt) (λ _, None) (λ _ _, bound)
    (λ k, bool_decide (k = wallet)) false.
Definition call (lamports : Z) : SProg unit :=
  task (SigningTool.execute config (MkInput 1%N (Some (base64_of (agent_tx lamports))) None (Some "W"))).
Definition start : SignPool := MkSignPool ∅ (MkSign new_store ∅ ∅ ∅ ∅ []).

(** A small transfer: the local key signs and the gateway sends. *)
Definition small : list Act := [Start 0 (call 10); Go 0 1 60 (env 100 false)].
Definition log_after (l : list Act) : SignLog :=
  match acts config l start with Some pl => ss_log (sp_state pl) | None => [] end.
Definition parked_id (l : SignLog) : Uuid :=
  default 0%N (head (omap (λ x, match x with XParked id _ _ => Some id | _ => None end) l)).
Definition asked (l : SignLog) : option (Uuid * list byte) :=
  head (omap (λ x, match x with
                   | XPending id en => Some (id, sq_finalized_tx_bytes (pn_request en))
                   | _ => None end) l).

(** A large transfer is parked; one operator of the stage approves; the task asks the
    external wallet, which signs; the gateway sends. *)
Definition parked : list Act := [Start 0 (call 5000); Go 0 1 60 (env 100 true)].
Definition operator : ApprovalDecision :=
  MkDecision (parked_id (log_after parked)) true None (Some "risk") (Some "ann") 1000.
Definition approved : list Act :=
  parked ++ [Start 2 (task (handle_decision (E := Empty_set) operator)); Go 2 3 60 (env 200 true);
             Go 1 4 60 (env 300 true)].
Definition wallet_signed : string :=
  match asked (log_after approved) with
  | Some (_, bs) =>
      match tx_from_bytes bs with
      | Ok tx => match partial_sign wallet tx with Some tx => base64_of tx | None => "" end
      | Err _ => ""
      end
  | None => ""
  end.
Definition returned : list Act :=
  approved ++ [Start 5 (task (submit_signed_tx config 1%N
                 (default 0%N (fst <$> asked (log_after approved))) wallet_signed));
               Go 5 6 60 (env 400 true)].
(** A local key signs after the approval. *)
Definition locally : list Act :=
  parked ++ [Start 2 (task (handle_decision (E := Empty_set) operator)); Go 2 3 60 (env 200 false);
             Go 1 4 60 (env 300 false)].

Definition pool_after (l : list Act) : SignPool := default start (acts config l start).

Lemma pool_reachable l : Forall (allowed config) l → sign_reachable config (pool_after l).
Proof.
  intros Hl. unfold pool_after. destruct (acts config l start) as [pl|] eqn:Ha; [|constructor].
  eapply acts_reachable; [done|exact Ha|]. constructor.
Qed.
Lemma small_allowed : Forall (allowed config) small.
Proof. repeat constructor. Qed.
Lemma parked_allowed : Forall (allowed config) parked.
Proof. repeat constructor. Qed.
Lemma locally_allowed : Forall (allowed config) locally.
Proof. apply Forall_app. split; [apply parked_allowed|]. repeat constructor. Qed.
Lemma approved_allowed : Forall (allowed config) approved.
Proof. apply Forall_app. split; [apply parked_allowed|]. repeat constructor. Qed.
Lemma returned_allowed : Forall (allowed config) returned.
Proof. apply Forall_app. split; [apply approved_allowed|]. repeat constructor. Qed.

Lemma head_suffix {A} (l : list A) x : head l = Some x → x :: tail l `suffix_of` l.
Proof. destruct l as [|y l]; intros [= <-]. reflexivity. Qed.

(** The last entry of each run. *)
Definition log_of (l : list Act) : SignLog := ss_log (sp_state (pool_after l)).
Definition signed_message (l : SignLog) : list byte :=
  match l with XKeyUsed _ m :: _ => m | _ => [] end.
Definition asked_entry (l : SignLog) : Uuid * PendingEntry :=
  match l with
  | XPending id en :: _ => (id, en)
  | _ => (0%N, MkPendingEntry (MkSignatureRequest 0%N 0%N 0%N [] [] "") "")
  end.
Definition sent_bytes (l : SignLog) : list byte := match l with XSent bs :: _ => bs | _ => [] end.

Lemma locally_log : head (log_of locally) = Some (XKeyUsed wallet (signed_message (log_of locally))).
Proof. by vm_compute. Qed.
Lemma approved_log : head (log_of approved) =
  Some (XPending (asked_entry (log_of approved)).1 (asked_entry (log_of approved)).2).
Proof. by vm_compute. Qed.
Lemma returned_log : head (log_of returned) = Some (XSent (sent_bytes (log_of returned))).
Proof. by vm_compute. Qed.

Lemma key_signs_only_reviewed_witness :
  LocalWalletAdapter wallet ∈ sc_adapters config ∧
  ∃ p tx sim v, reviewed config (tail (log_of locally)) p tx sim v ∧
    humans_agreed config (tail (log_of locally)) p v ∧
    message_signed tx (signed_message (log_of locally)).
Proof.
  apply (key_signs_only_reviewed config (pool_after locally) wallet).
  - apply pool_reachable, locally_allowed.
  - apply head_suffix, locally_log.
Defined.

Lemma wallet_asked_only_for_reviewed_witness :
  ∃ p tx sim v, reviewed config (tail (log_of approved)) p tx sim v ∧
    humans_agreed config (tail (log_of approved)) p v ∧
    tx_to_bytes tx = Ok (sq_finalized_tx_bytes (pn_request (asked_entry (log_of approved)).2)) ∧
    parse_pubkey (PolicyEngine.tp_wallet_pubkey p) =
      Ok (sq_expected_signer (pn_request (asked_entry (log_of approved)).2)) ∧
    sq_session_id (pn_request (asked_entry (log_of approved)).2) = PolicyEngine.tp_session_id p.
Proof.
  apply (wallet_asked_only_for_reviewed config (pool_after approved) (asked_entry (log_of approved)).1).
  - apply pool_reachable, approved_allowed.
  - apply head_suffix, approved_log.
Defined.

Lemma sent_only_reviewed_witness :
  ∃ p tx sim v bytes, reviewed config (tail (log_of returned)) p tx sim v ∧
    humans_agreed config (tail (log_of returned)) p v ∧ tx_to_bytes tx = Ok bytes ∧
    (locally_signed config (tail (log_of returned)) bytes (sent_bytes (log_of returned)) ∨
     externally_signed (tail (log_of returned)) bytes (sent_bytes (log_of returned))).
Proof.
  apply (sent_only_reviewed config (pool_after returned)).
  - apply pool_reachable, returned_allowed.
  - apply head_suffix, returned_log.
Defined.

(** What the local key signed was on record as reviewed. *)
Lemma locally_reviewed : ∃ l p tx sim v, reviewed config l p tx sim v.
Proof.
  destruct (sign_reachable_ok config _ (pool_reachable _ locally_allowed)) as (Hl & _).
  destruct (Hl _ _ (head_suffix _ _ locally_log)) as (_ & p & bytes & Ha & _).
  destruct (authorized_reviewed _ _ _ _ Ha) as (tx & sim & v & Hrev & _). by eexists _, p, tx, sim, v.
Qed.
Lemma reviewed_keeps_instructions_witness : ∃ p (tx agent : Transaction), proposed p agent ∧
  ((length (remove_dups (compute_budget_id :: account_keys (message agent))) ≤ 256)%nat →
   payload tx = payload agent).
Proof.
  destruct locally_reviewed as (l & p & tx & sim & v & Hrev).
  destruct (reviewed_keeps_instructions config l p tx sim v Hrev) as (agent & Hp & Heq).
  by exists p, tx, agent.
Defined.

(** ** What the path does that its comments rule out *)
Definition key_used (l : SignLog) : bool :=
  existsb (λ x, match x with XKeyUsed _ _ => true | _ => false end) l.

(** Two local wallets, W's rules rejecting everything. *)
Definition two_wallets : SigningConfig :=
  MkSigningConfig NoFee [ExternalWalletAdapter; LocalWalletAdapter wallet] rules PolicyEngine.Devnet
    {["W" := [PolicyEngine.MkPolicyRule "frozen" "" PolicyEngine.Always (PolicyEngine.Reject "frozen")]]}
    false 3600 true.
Definition both_keys (i : nat) : SignEnv :=
  let e := env 100 false i in
  MkSignEnv (se_uuid e) (se_channel e) (se_now e) (se_now' e) (se_clock e) (se_today e) (se_daily e)
    (se_session_spend e) (se_fees e) (se_blockhash e) (se_simulate e) (se_send e) (se_height e)
    (se_db e) (se_rules e) (se_bound e) (λ _, true) false.
Definition call_as (name : string) : SignLog :=
  match acts two_wallets
          [Start 0 (task (SigningTool.execute two_wallets
             (MkInput 1%N (Some (base64_of (agent_tx 10))) None (Some name))));
           Go 0 1 60 both_keys] start with
  | Some pl => ss_log (sp_state pl)
  | None => []
  end.

(** The agent names the wallet whose rules are applied, and the local adapter signs with
    the key it was built with: naming the other wallet, a transaction of W is signed
    by W's key although W's rules reject it. *)
Lemma rules_of_another_wallet : key_used (call_as "W") = false ∧ key_used (call_as "V") = true.
Proof. split; by vm_compute. Qed.

(** The second simulation of a tighter limit fails. *)
Definition no_tighter_limit (i : nat) : SignEnv :=
  let e := env 100 false i in
  MkSignEnv (se_uuid e) (se_channel e) (se_now e) (se_now' e) (se_clock e) (se_today e) (se_daily e)
    (se_session_spend e) (se_fees e) (Ok (replicate 32 (byte_of (Z.of_nat i)), 99))
    (λ tx, Ok (MkSimulationValue
       (if existsb (λ ix, bool_decide (cx_data ix = ix_data (set_compute_unit_limit 200000)))
             (msg_instructions (message tx)) then None else Some "limit")
       (Some ["Program consumed 1000 of 200000 compute units"]) None))
    (se_send e) (se_height e) (se_db e) (se_rules e) (se_bound e) (se_keys e) false.
Definition fallen_back : SignLog :=
  match acts config [Start 0 (call 10); Go 0 1 60 no_tighter_limit] start with
  | Some pl => ss_log (sp_state pl)
  | None => []
  end.

(** Then what is signed was never simulated: it has a blockhash of its own. *)
Lemma signed_without_simulation : key_used fallen_back = true ∧
  forallb (λ x, match x with
                | XSimulated tx _ =>
                    negb (existsb (λ y, match y with
                                        | XKeyUsed _ m => bool_decide (m = message_of tx)
                                        | _ => false end) fallen_back)
                | _ => true
                end) fallen_back = true.
Proof. split; by vm_compute. Qed.
