(* ===== verification/TxLifecycle.v ===== *)
(** * The life cycle of a submitted transaction

    solana-core/tx_lifecycle.rs: the pure state machine that turns what an RPC node
    reports about a signature into a state, and what a whole history of reports
    amounts to. *)
From S2P Require Import Prelude WatcherBase.
From S2P Require Approval.
#[local] Open Scope string_scope.
#[local] Open Scope Z_scope.

Notation Uuid := Approval.Uuid.

Inductive TxState :=
| Submitted
| Dropped
| Confirmed (slot : Z)
| Finalized (slot : Z)
| Failed (err : string)
| Expired.
#[export] Instance tx_state_eq_dec : EqDecision TxState.
Proof. solve_decision. Defined.

Definition precedence (s : TxState) : Z :=
  match s with
  | Submitted => 0
  | Dropped | Expired => 1
  | Confirmed _ => 2
  | Failed _ => 3
  | Finalized _ => 4
  end.
Definition is_terminal (s : TxState) : bool :=
  match s with Finalized _ | Failed _ | Expired => true | _ => false end.
Definition is_success (s : TxState) : bool := match s with Finalized _ => true | _ => false end.
Definition is_failure (s : TxState) : bool := match s with Failed _ | Expired => true | _ => false end.
Definition slot_of (s : TxState) : option Z :=
  match s with Confirmed slot | Finalized slot => Some slot | _ => None end.
Definition show_tx_state (s : TxState) : string :=
  match s with
  | Submitted => "submitted"
  | Dropped => "dropped"
  | Confirmed slot => "confirmed(slot=" +:+ fmt slot +:+ ")"
  | Finalized slot => "finalized(slot=" +:+ fmt slot +:+ ")"
  | Failed err => "failed(" +:+ err +:+ ")"
  | Expired => "expired"
  end.

Record RpcObservation := MkObservation {
  ob_status : option string;
  ob_err : option string;
  ob_slot : option Z
}.
Definition is_null (o : RpcObservation) : bool := bool_decide (ob_status o = None).
Definition has_error (o : RpcObservation) : bool := bool_decide (is_Some (ob_err o)).

Record TrackingRecord := MkTracking {
  tk_signature : string;
  tk_transaction_id : Uuid;
  tk_request_id : Uuid;
  tk_session_id : string;
  tk_wallet_pubkey : string;
  tk_state : TxState;
  tk_last_valid_block_height : Z;
  tk_submission_block_height : Z;
  tk_slot : option Z;
  tk_err : option string;
  tk_confirmed_emitted : bool;
  tk_finalized_emitted : bool;
  tk_failed_emitted : bool;
  tk_dropped_emitted : bool;
  tk_expired_emitted : bool;
  tk_signed_tx_bytes : option (list byte);
  tk_retry_count : Z
}.
Definition with_bytes (signature : string) (transaction_id request_id : Uuid)
    (session_id wallet_pubkey : string) (last_valid submission : Z)
    (signed_tx_bytes : option (list byte)) : TrackingRecord :=
  MkTracking signature transaction_id request_id session_id wallet_pubkey Submitted last_valid
    submission None None false false false false false signed_tx_bytes 0.

Definition DROPPED_GRACE_BLOCKS : Z := 50.
Definition EXPIRY_TRACKING_BUFFER : Z := 32.

(** ** Transitions *)
Definition calculate_next_state (current : TxState) (observation : RpcObservation)
    (current_block_height submission_height last_valid_height : Z) : TxState :=
  match current with
  | Finalized _ | Failed _ => current
  | _ =>
      match ob_err observation with
      | Some err => Failed err
      | None =>
          match ob_status observation with
          | Some status =>
              if bool_decide (status = "finalized") then Finalized (default 0 (ob_slot observation))
              else if bool_decide (status = "confirmed") then
                if (precedence current <? precedence (Confirmed 0)) ||
                   match current with Expired => true | _ => false end
                then Confirmed (default 0 (ob_slot observation))
                else current
              else current
          | None =>
              match current with
              | Confirmed _ => current
              | _ =>
                  if last_valid_height <? current_block_height then Expired
                  else if DROPPED_GRACE_BLOCKS <=? Z.max 0 (current_block_height - submission_height)
                  then match current with Submitted => Dropped | _ => current end
                  else current
              end
          end
      end
  end.

(** The sum of two u64 wraps. *)
Definition should_continue_tracking (record : TrackingRecord) (current_block_height : Z) : bool :=
  match tk_state record with
  | Finalized _ | Failed _ => false
  | Expired =>
      current_block_height <=? wrap 64 (tk_last_valid_block_height record + EXPIRY_TRACKING_BUFFER)
  | Submitted | Dropped | Confirmed _ => true
  end.

Inductive LifecycleEventKind :=
| KConfirmed (slot : Z) | KFinalized (slot : Z) | KFailed (err : string) | KDropped | KExpired.

Definition pending_events (record : TrackingRecord) : list LifecycleEventKind :=
  let unless (emitted : bool) (e : LifecycleEventKind) := if emitted then [] else [e] in
  match tk_state record with
  | Confirmed slot => unless (tk_confirmed_emitted record) (KConfirmed slot)
  | Finalized slot =>
      (unless (tk_confirmed_emitted record) (KConfirmed slot) ++
       unless (tk_finalized_emitted record) (KFinalized slot))%list
  | Failed err => unless (tk_failed_emitted record) (KFailed err)
  | Dropped => unless (tk_dropped_emitted record) KDropped
  | Expired => unless (tk_expired_emitted record) KExpired
  | Submitted => []
  end.

(** ** Histories of reports *)

(** What was reported, and the block height at that time, oldest first. *)
Definition Report : Type := RpcObservation * Z.
Section history.
Context (submission last_valid : Z).
Implicit Types (r : Report) (l : list Report) (s : TxState).

Definition step_report s r : TxState := calculate_next_state s r.1 r.2 submission last_valid.
Definition replay l : TxState := foldl step_report Submitted l.

(** A report that decides, with its outcome; one that sees the transaction voted on;
    and those that do not know it. *)
Definition decides r : option TxState :=
  match ob_err r.1 with
  | Some err => Some (Failed err)
  | None => if bool_decide (ob_status r.1 = Some "finalized")
            then Some (Finalized (default 0 (ob_slot r.1))) else None
  end.
Definition confirms r : option TxState :=
  if bool_decide (ob_status r.1 = Some "confirmed")
  then Some (Confirmed (default 0 (ob_slot r.1))) else None.
Definition unknown r : bool := bool_decide (ob_status r.1 = None).
Definition too_late r : bool := unknown r && (last_valid <? r.2).
Definition overdue r : bool := unknown r && (DROPPED_GRACE_BLOCKS <=? Z.max 0 (r.2 - submission)).

(** The first report that decides; else the first that confirms; else what the
    reports that do not know the transaction amount to. *)
Definition outcome l : TxState :=
  match head (omap decides l), head (omap confirms l) with
  | Some s, _ => s
  | None, Some s => s
  | None, None => if existsb too_late l then Expired else if existsb overdue l then Dropped else Submitted
  end.

Lemma head_snoc {A B} (f : A → option B) (l : list A) x :
  head (omap f (l ++ [x])%list) = match head (omap f l) with Some y => Some y | None => f x end.
Proof.
  induction l as [|a l IH]; simpl; [by destruct (f x)|]. by destruct (f a).
Qed.
Lemma existsb_snoc {A} (f : A → bool) (l : list A) x : existsb f (l ++ [x])%list = existsb f l || f x.
Proof. by rewrite existsb_app; simpl; rewrite orb_false_r. Qed.

Lemma head_decides l s : head (omap decides l) = Some s →
  (∃ e, s = Failed e) ∨ (∃ n, s = Finalized n).
Proof.
  induction l as [|r l IH]; simpl; [done|]. unfold decides at 1.
  destruct (ob_err r.1); [intros [= <-]; eauto|]. case_bool_decide; [intros [= <-]; eauto|done].
Qed.
Lemma head_confirms l s : head (omap confirms l) = Some s → ∃ n, s = Confirmed n.
Proof.
  induction l as [|r l IH]; simpl; [done|]. unfold confirms at 1.
  case_bool_decide; [intros [= <-]; eauto|done].
Qed.

(** One more report. *)
Lemma outcome_snoc l r : outcome (l ++ [r])%list = step_report (outcome l) r.
Proof.
  unfold outcome. rewrite !head_snoc, !existsb_snoc.
  destruct (head (omap decides l)) as [s|] eqn:Hd.
  { by destruct (head_decides _ _ Hd) as [[e ->]|[n ->]]. }
  destruct (head (omap confirms l)) as [s|] eqn:Hc.
  - destruct (head_confirms _ _ Hc) as [n ->]. clear Hc Hd.
    unfold step_report, calculate_next_state, decides, confirms, precedence.
    destruct (ob_err r.1); [done|]. destruct (ob_status r.1) as [st|];
      repeat case_bool_decide; simplify_eq; done.
  - clear Hc Hd. generalize (existsb too_late l) (existsb overdue l). intros late over.
    unfold step_report, calculate_next_state, decides, confirms, too_late, overdue, unknown, precedence.
    destruct (ob_err r.1), (ob_status r.1) as [st|], late, over; simpl;
      repeat case_bool_decide; simplify_eq; simpl; try done; by repeat case_match.
Qed.

(** The state is what the reports amount to.  Whatever a node reports, and in whatever
    order, the machine's state is that of the first report of an error or of
    finality, if there is one; else that of the first confirmation; else it is
    expired exactly when some report that did not know the transaction came after
    its blockhash, dropped exactly when one came after the grace period, and
    submitted otherwise. *)
Theorem lifecycle_reference l : replay l = outcome l.
Proof.
  induction l as [|r l IH] using rev_ind; [done|].
  unfold replay in *. by rewrite foldl_app, IH, outcome_snoc.
Qed.

(** The order in which states are passed. *)
Definition rank s : Z :=
  match s with
  | Submitted => 0 | Dropped => 1 | Expired => 2 | Confirmed _ => 3 | Failed _ | Finalized _ => 4
  end.
Lemma step_rank s r : step_report s r = s ∨ rank s < rank (step_report s r).
Proof.
  unfold step_report, calculate_next_state, precedence.
  destruct s; try (by left); destruct (ob_err r.1); try (by right); destruct (ob_status r.1);
    repeat case_match; simpl in *; first [by left|by right|lia].
Qed.
Lemma replay_rank l r : rank (replay l) ≤ rank (replay (l ++ [r])%list).
Proof.
  unfold replay. rewrite foldl_app. simpl.
  destruct (step_rank (foldl step_report Submitted l) r) as [->|]; lia.
Qed.
End history.

(** A record without a validity window, as recovery makes it, expires at the first
    report that does not know the transaction, whatever its submission height. *)
Lemma no_window_expires submission height slot : 0 < height →
  calculate_next_state Submitted (MkObservation None None slot) height submission 0 = Expired.
Proof. intros Hh. unfold calculate_next_state. simpl. by rewrite (proj2 (Z.ltb_lt _ _) Hh). Qed.

(** A confirmed record that the node no longer knows is tracked at any height. *)
Lemma confirmed_never_closed record slot height :
  tk_state record = Confirmed slot →
  calculate_next_state (tk_state record) (MkObservation None None None) height
    (tk_submission_block_height record) (tk_last_valid_block_height record) = tk_state record ∧
  should_continue_tracking record height = true.
Proof. intros Hs. unfold should_continue_tracking. by rewrite Hs. Qed.

(** A confirmation, a late unknown, an error: the reports of a rolled back block. *)
Lemma lifecycle_run :
  replay 100 250 [(MkObservation None None None, 160); (MkObservation None None None, 260);
                  (MkObservation (Some "confirmed") None (Some 7), 255);
                  (MkObservation None None None, 400);
                  (MkObservation (Some "finalized") None (Some 9), 500);
                  (MkObservation (Some "confirmed") (Some "e") (Some 9), 501)] = Finalized 9.
Proof. by vm_compute. Qed.
