(* ===== verification/TxTracker.v ===== *)
(** * The tracker of submitted transactions

    solana-core/tracker.rs, gateway/lifecycle_persister.rs, state-store/tracking.rs and
    the recovery in daemon.rs: a loop polls the node and drives the life cycle of
    every signature, a second task writes each change to the database and announces
    it, and handlers of wallet signatures add transactions meanwhile. *)
From S2P Require Import Prelude Interaction WatcherBase Solana SdkTypes TxLifecycle.
From S2P Require RuleStore Approval ApprovalStore.
#[local] Open Scope string_scope.
#[local] Open Scope Z_scope.

(** ** Polling *)
Inductive PollTier := Hot | Warm | Cool | ExpiryWatch.
Definition from_block_distance (distance : Z) : PollTier :=
  if distance <=? 30 then Hot else if distance <=? 100 then Warm
  else if distance <=? 300 then Cool else ExpiryWatch.
Definition skip_ticks (t : PollTier) : Z :=
  match t with Hot => 0 | Warm => 1 | Cool => 4 | ExpiryWatch => 14 end.
Definition MAX_BATCH_SIZE : nat := 256.

Record RetryPolicy := MkRetry { max_retries : Z }.
Definition default_retry_policy : RetryPolicy := MkRetry 3.

(** A state change on its way to the persister. *)
Record StateChange := MkChange {
  sc_signature : string;
  sc_transaction_id : Uuid;
  sc_request_id : Uuid;
  sc_session_id : string;
  sc_wallet_pubkey : string;
  sc_from : TxState;
  sc_to : TxState;
  sc_block_height : Z
}.

(** What the node answers about a signature. *)
Inductive Commitment := Processed | AtConfirmed | AtFinalized.
Record NodeStatus := MkStatus {
  ns_confirmation_status : option Commitment;
  ns_err : option string;
  ns_slot : Z
}.
Definition commitment_text (c : Commitment) : string :=
  match c with Processed => "processed" | AtConfirmed => "confirmed" | AtFinalized => "finalized" end.
Definition status_to_observation (status : option NodeStatus) : RpcObservation :=
  match status with
  | None => MkObservation None None None
  | Some s => MkObservation (commitment_text <$> ns_confirmation_status s) (ns_err s) (Some (ns_slot s))
  end.

(** [slice.chunks(n)] *)
Fixpoint chunks_fuel {A} (fuel n : nat) (l : list A) : list (list A) :=
  match fuel, l with
  | S fuel, _ :: _ => take n l :: chunks_fuel fuel n (drop n l)
  | _, _ => []
  end.
Definition chunks {A} (n : nat) (l : list A) : list (list A) := chunks_fuel (length l) n l.

(** ** The table (state-store/tracking.rs), without its timestamps *)
Record TrackRow := MkRow {
  rw_signature : string;
  rw_transaction_id : string;
  rw_request_id : string;
  rw_session_id : string;
  rw_wallet_pubkey : string;
  rw_state : string;
  rw_last_valid_block_height : Z;
  rw_submission_block_height : Z;
  rw_slot : option Z;
  rw_err : option string;
  rw_emitted : list string
}.
Notation TrackTable := (gmap string TrackRow).

Definition submitted_row (signature transaction_id request_id session_id wallet_pubkey : string)
    (last_valid submission : Z) : TrackRow :=
  MkRow signature transaction_id request_id session_id wallet_pubkey "submitted"
    (RuleStore.as_i64 last_valid) (RuleStore.as_i64 submission) None None [].
(** INSERT OR IGNORE *)
Definition insert_row (row : TrackRow) (rows : TrackTable) : TrackTable :=
  match rows !! rw_signature row with Some _ => rows | None => <[rw_signature row := row]> rows end.

Definition set_row_state (state : string) (slot : option Z) (err : option string) (r : TrackRow) :
    TrackRow :=
  MkRow (rw_signature r) (rw_transaction_id r) (rw_request_id r) (rw_session_id r)
    (rw_wallet_pubkey r) state (rw_last_valid_block_height r) (rw_submission_block_height r)
    (match slot with Some s => Some (RuleStore.as_i64 s) | None => rw_slot r end)
    (match err with Some e => Some e | None => rw_err r end) (rw_emitted r).
(** The UPDATE has no guard on the state that was there. *)
Definition update_state (signature new_state : string) (slot : option Z) (err : option string)
    (rows : TrackTable) : bool * TrackTable :=
  match rows !! signature with
  | Some r => (true, <[signature := set_row_state new_state slot err r]> rows)
  | None => (false, rows)
  end.

Definition event_columns : list string :=
  ["confirmed_emitted"; "finalized_emitted"; "failed_emitted"; "dropped_emitted"; "expired_emitted"].
Definition set_flag (column : string) (r : TrackRow) : TrackRow :=
  MkRow (rw_signature r) (rw_transaction_id r) (rw_request_id r) (rw_session_id r)
    (rw_wallet_pubkey r) (rw_state r) (rw_last_valid_block_height r) (rw_submission_block_height r)
    (rw_slot r) (rw_err r) (column :: rw_emitted r).
Definition mark_event_emitted (signature event_column : string) (rows : TrackTable) :
    Result string unit * TrackTable :=
  if negb (bool_decide (event_column ∈ event_columns))
  then (Err ("invalid event column: " +:+ event_column), rows)
  else (Ok tt, alter (set_flag event_column) signature rows).

Definition load_active (rows : TrackTable) : list TrackRow :=
  List.filter (λ r, bool_decide (rw_state r ∈ ["submitted"; "confirmed"; "dropped"]))
    (map snd (map_to_list rows)).
Definition mark_expired (signature : string) (rows : TrackTable) : TrackTable :=
  alter (λ r, MkRow (rw_signature r) (rw_transaction_id r) (rw_request_id r) (rw_session_id r)
    (rw_wallet_pubkey r) "expired" (rw_last_valid_block_height r) (rw_submission_block_height r)
    (rw_slot r) (rw_err r) (rw_emitted r)) signature rows.

(** ** Announcements *)
Inductive TrackedEvent :=
| TransactionConfirmed (session transaction : Uuid) (wallet signature : string)
| TransactionFinalized (session transaction : Uuid) (wallet signature : string)
| TransactionExecutionFailed (session transaction : Uuid) (wallet error : string)
| TransactionDropped (session transaction : Uuid) (wallet signature : string)
| TransactionExpired (session transaction : Uuid) (wallet signature : string).

(** ** Events of the tasks *)
Notation TrackMap := (gmap (list byte) TrackingRecord).
Inductive TrackEvent :=
(* the node *)
| FetchHeight
| FetchStatuses (sigs : list Signature)
| SendTx (sig : Signature) (tx : Transaction)
| GetSlot
(* the map of records *)
| NothingTracked
| CollectEligible (counter height : Z)
| Observe (sig : Signature) (obs : RpcObservation) (height : Z)
| CollectDropped (height : Z)
| Resent (sig : Signature) (height : Z)
| ResendFailed (sig : Signature)
| CollectFinished (height : Z)
| Forget (sig : Signature)
| ContainsSig (sig : Signature)
| InsertRecord (sig : Signature) (record : TrackingRecord)
(* the table *)
| RowInsert (row : TrackRow)
| RowUpdate (signature new_state : string) (slot : option Z) (err : option string)
| RowMark (signature event_column : string)
| RowLoad
| RowExpire (signature : string)
(* announcements *)
| AuditTx (session : string) (transaction : Uuid) (event_type : string)
    (payload : ApprovalStore.Payload) (severity : ApprovalStore.Severity)
| PublishTx (signature : string) (x : TrackedEvent).

Definition TrackAnswer (e : TrackEvent) : Type :=
  match e with
  | FetchHeight => option Z
  | FetchStatuses _ => option (list (option NodeStatus))
  | SendTx _ _ => Result string unit
  | GetSlot => Result string Z
  | NothingTracked | ContainsSig _ => bool
  | CollectEligible _ _ | CollectFinished _ => list Signature
  | CollectDropped _ => list (Signature * list byte)
  | RowInsert _ | RowMark _ _ | RowExpire _ => Result string unit
  | RowUpdate _ _ _ _ => Result string bool
  | RowLoad => Result string (list TrackRow)
  | _ => unit
  end.
Notation TProg := (Prog TrackAnswer).

(** The texts of signatures and ids, and their parsers. *)
Class TrackTexts := {
  sig_text : Signature → string;
  sig_parse : string → option Signature;
  id_text : Uuid → string;
  id_parse : string → option Uuid
}.

Section tasks.
Context `{Sdk, TrackTexts}.

(** ** Adding a transaction *)
Definition track (signature : Signature) (transaction_id request_id : Uuid)
    (session_id wallet_pubkey : string) (last_valid submission : Z)
    (signed_tx_bytes : option (list byte)) : TProg unit :=
  there ← ask (ContainsSig signature);
  if (there : bool) then Ret tt
  else ask (InsertRecord signature
              (with_bytes (sig_text signature) transaction_id request_id session_id wallet_pubkey
                 last_valid submission signed_tx_bytes)).

(** The handler of a wallet's signature, after the broadcast: the row comes first. *)
Definition track_submitted (signature : Signature) (transaction_id request_id : Uuid)
    (session_id wallet_pubkey : string) (last_valid submission : Z) (bytes : list byte) :
    TProg unit :=
  r ← ask (RowInsert (submitted_row (sig_text signature) (id_text transaction_id)
                        (id_text request_id) session_id wallet_pubkey last_valid submission));
  match r with
  | Ok _ => track signature transaction_id request_id session_id wallet_pubkey last_valid
              submission (Some bytes)
  | Err _ => Ret tt
  end.

(** ** One round of the polling loop *)
Fixpoint observe_all (height : Z) (l : list (Signature * option NodeStatus)) : TProg unit :=
  match l with
  | [] => Ret tt
  | (sig, status) :: l =>
      _ ← ask (Observe sig (status_to_observation status) height); observe_all height l
  end.
Definition poll_batch (height : Z) (sigs : list Signature) : TProg unit :=
  r ← ask (FetchStatuses sigs);
  match r with
  | None => Ret tt
  | Some statuses => observe_all height (imap (λ i sig, (sig, mjoin (statuses !! i))) sigs)
  end.
Fixpoint poll_all (height : Z) (batches : list (list Signature)) : TProg unit :=
  match batches with
  | [] => Ret tt
  | b :: batches => _ ← poll_batch height b; poll_all height batches
  end.

Definition rebroadcast (sig : Signature) (signed_tx_bytes : list byte) : TProg (Result string unit) :=
  match tx_from_bytes signed_tx_bytes with
  | Err e => Ret (Err ("failed to deserialize tx for rebroadcast: " +:+ e))
  | Ok tx => ask (SendTx sig tx)
  end.
Fixpoint resend_all (height : Z) (candidates : list (Signature * list byte)) : TProg unit :=
  match candidates with
  | [] => Ret tt
  | (sig, tx_bytes) :: candidates =>
      r ← rebroadcast sig tx_bytes;
      _ ← match r with Ok _ => ask (Resent sig height) | Err _ => ask (ResendFailed sig) end;
      resend_all height candidates
  end.
Fixpoint forget_all (l : list Signature) : TProg unit :=
  match l with [] => Ret tt | sig :: l => _ ← ask (Forget sig); forget_all l end.

Definition tick (tick_counter : Z) : TProg unit :=
  idle ← ask NothingTracked;
  if (idle : bool) then Ret tt else
  h ← ask FetchHeight;
  match h with
  | None => Ret tt
  | Some current_height =>
      eligible ← ask (CollectEligible tick_counter current_height);
      match (eligible : list Signature) with
      | [] => Ret tt
      | _ =>
          _ ← poll_all current_height (chunks MAX_BATCH_SIZE eligible);
          candidates ← ask (CollectDropped current_height);
          _ ← resend_all current_height candidates;
          to_remove ← ask (CollectFinished current_height);
          forget_all to_remove
      end
  end.

(** *** What the loop does to the records *)
Definition eligible (counter height : Z) (record : TrackingRecord) : bool :=
  let distance := Z.max 0 (height - tk_submission_block_height record) in
  counter mod (skip_ticks (from_block_distance distance) + 1) =? 0.

Definition next_state (obs : RpcObservation) (height : Z) (record : TrackingRecord) : TxState :=
  calculate_next_state (tk_state record) obs height (tk_submission_block_height record)
    (tk_last_valid_block_height record).
Definition change_of (new_state : TxState) (height : Z) (record : TrackingRecord) : StateChange :=
  MkChange (tk_signature record) (tk_transaction_id record) (tk_request_id record)
    (tk_session_id record) (tk_wallet_pubkey record) (tk_state record) new_state height.
Definition set_state (new_state : TxState) (r : TrackingRecord) : TrackingRecord :=
  MkTracking (tk_signature r) (tk_transaction_id r) (tk_request_id r) (tk_session_id r)
    (tk_wallet_pubkey r) new_state (tk_last_valid_block_height r) (tk_submission_block_height r)
    (match slot_of new_state with Some slot => Some slot | None => tk_slot r end)
    (match new_state with Failed err => Some err | _ => tk_err r end)
    (tk_confirmed_emitted r) (tk_finalized_emitted r) (tk_failed_emitted r) (tk_dropped_emitted r)
    (tk_expired_emitted r) (tk_signed_tx_bytes r) (tk_retry_count r).

Definition resendable (policy : RetryPolicy) (height : Z) (r : TrackingRecord) : bool :=
  bool_decide (tk_state r = Dropped) && (tk_retry_count r <? max_retries policy) &&
  bool_decide (is_Some (tk_signed_tx_bytes r)) && (height <=? tk_last_valid_block_height r).

(** [record.retry_count += 1], with the state and the height it is submitted at. *)
Definition retried (state : TxState) (submission : Z) (r : TrackingRecord) : TrackingRecord :=
  MkTracking (tk_signature r) (tk_transaction_id r) (tk_request_id r) (tk_session_id r)
    (tk_wallet_pubkey r) state (tk_last_valid_block_height r) submission (tk_slot r) (tk_err r)
    (tk_confirmed_emitted r) (tk_finalized_emitted r) (tk_failed_emitted r) (tk_dropped_emitted r)
    (tk_expired_emitted r) (tk_signed_tx_bytes r) (wrap 32 (tk_retry_count r + 1)).

(** ** The persister *)
Definition tx_state_to_str (s : TxState) : string :=
  match s with
  | Submitted => "submitted" | Dropped => "dropped" | Confirmed _ => "confirmed"
  | Finalized _ => "finalized" | Failed _ => "failed" | Expired => "expired"
  end.

(** The flag is written, not read: whatever it was, the event goes out. *)
Definition emit (change : StateChange) (column event_type : string)
    (extra : string * ApprovalStore.PayloadValue) (severity : ApprovalStore.Severity)
    (x : TrackedEvent) : TProg unit :=
  r ← ask (RowMark (sc_signature change) column);
  match r with
  | Err _ => Ret tt
  | Ok _ =>
      _ ← ask (AuditTx (sc_session_id change) (sc_transaction_id change) event_type
                 [("signature", ApprovalStore.PText (sc_signature change));
                  ("transaction_id", ApprovalStore.PId (sc_transaction_id change));
                  ("wallet_pubkey", ApprovalStore.PText (sc_wallet_pubkey change)); extra] severity);
      ask (PublishTx (sc_signature change) x)
  end.

Definition emit_confirmed (change : StateChange) (session : Uuid) (slot : Z) : TProg unit :=
  emit change "confirmed_emitted" "transaction_confirmed" ("slot", ApprovalStore.PNumber slot)
    ApprovalStore.SevInfo
    (TransactionConfirmed session (sc_transaction_id change) (sc_wallet_pubkey change)
       (sc_signature change)).
Definition emit_finalized (change : StateChange) (session : Uuid) (slot : Z) : TProg unit :=
  emit change "finalized_emitted" "transaction_finalized" ("slot", ApprovalStore.PNumber slot)
    ApprovalStore.SevInfo
    (TransactionFinalized session (sc_transaction_id change) (sc_wallet_pubkey change)
       (sc_signature change)).
Definition emit_execution_failed (change : StateChange) (session : Uuid) (err : string) :
    TProg unit :=
  emit change "failed_emitted" "transaction_execution_failed" ("error", ApprovalStore.PText err)
    ApprovalStore.SevWarning
    (TransactionExecutionFailed session (sc_transaction_id change) (sc_wallet_pubkey change) err).
Definition emit_dropped (change : StateChange) (session : Uuid) : TProg unit :=
  emit change "dropped_emitted" "transaction_dropped"
    ("block_height", ApprovalStore.PNumber (sc_block_height change)) ApprovalStore.SevWarning
    (TransactionDropped session (sc_transaction_id change) (sc_wallet_pubkey change)
       (sc_signature change)).
Definition emit_expired (change : StateChange) (session : Uuid) : TProg unit :=
  emit change "expired_emitted" "transaction_expired"
    ("block_height", ApprovalStore.PNumber (sc_block_height change)) ApprovalStore.SevWarning
    (TransactionExpired session (sc_transaction_id change) (sc_wallet_pubkey change)
       (sc_signature change)).

Definition handle_change (change : StateChange) : TProg unit :=
  let err := match sc_to change with Failed err => Some err | _ => None end in
  r ← ask (RowUpdate (sc_signature change) (tx_state_to_str (sc_to change))
             (slot_of (sc_to change)) err);
  match r with
  | Err _ => Ret tt
  | Ok _ =>
      let session := default 0%N (id_parse (sc_session_id change)) in
      match sc_to change with
      | Confirmed slot => emit_confirmed change session slot
      | Finalized slot => _ ← emit_confirmed change session slot; emit_finalized change session slot
      | Failed err => emit_execution_failed change session err
      | Dropped => emit_dropped change session
      | Expired => emit_expired change session
      | Submitted => Ret tt
      end
  end.

(** ** Recovery at startup (daemon.rs) *)
Definition recover_row (startup_height : Z) (row : TrackRow) : TProg unit :=
  let lvbh := RuleStore.as_u64 (rw_last_valid_block_height row) in
  let sbh := RuleStore.as_u64 (rw_submission_block_height row) in
  if (0 <? startup_height) && (wrap 64 (lvbh + 32) <? startup_height)
  then _ ← ask (RowExpire (rw_signature row)); Ret tt
  else match sig_parse (rw_signature row), id_parse (rw_transaction_id row), id_parse (rw_request_id row) with
       | Some sig, Some tx_id, Some req_id =>
           track sig tx_id req_id (rw_session_id row) (rw_wallet_pubkey row) lvbh sbh None
       | _, _, _ => Ret tt
       end.
Fixpoint recover_rows (startup_height : Z) (rows : list TrackRow) : TProg unit :=
  match rows with
  | [] => Ret tt
  | row :: rows => _ ← recover_row startup_height row; recover_rows startup_height rows
  end.
(** The slot is taken for the block height. *)
Definition recover : TProg unit :=
  r ← ask RowLoad;
  match r with
  | Err _ => Ret tt
  | Ok rows =>
      h ← ask GetSlot;
      recover_rows (match h with Ok h => h | Err _ => 0 end) rows
  end.
End tasks.
