(* ===== verification/TxTrackerFacts.v ===== *)
(** * The tracker at work

    The polling loop, the persister and the handlers that add transactions, over the
    records in memory, the queue between the tasks and the table; interleaved at
    every await and restarted at any time.  What comes out: a record's state is what
    the node reported since the last broadcast, an announcement rests on a report
    about that very transaction, resends stay within the policy, and nothing is
    tracked without a row.  Concrete runs are at the end. *)
From S2P Require Import Prelude Interaction Solana WatcherBase RustText SdkTypes TxLifecycle.
From S2P Require Import TxTracker.
From S2P Require RuleStore ApprovalStore SigningRuns.
#[local] Open Scope string_scope.
#[local] Open Scope Z_scope.

(** ** The history, newest first *)
Inductive TrackEntry :=
| XRow (signature : string)
| XTracked (key : Signature) (record : TrackingRecord)
| XHeight (height : Z)
| XStatuses (sigs : list Signature) (statuses : list (option NodeStatus))
| XObserved (key : Signature) (obs : RpcObservation) (height : Z) (change : option StateChange)
| XTried (key : Signature)
| XResent (key : Signature) (height : Z)
| XResendFailed (key : Signature)
| XForgotten (key : Signature)
| XPublished (signature : string) (x : TrackedEvent)
| XRestart.
Notation TrackLog := (list TrackEntry).

(** What the loop makes of a record, and the change it sends. *)
Definition observe (obs : RpcObservation) (height : Z) (r : TrackingRecord) : TrackingRecord :=
  let new_state := next_state obs height r in
  if bool_decide (new_state = tk_state r) then r else set_state new_state r.
Definition change_on (obs : RpcObservation) (height : Z) (r : TrackingRecord) : option StateChange :=
  let new_state := next_state obs height r in
  if bool_decide (new_state = tk_state r) then None else Some (change_of new_state height r).

(** The record of a key, as the history tells it. *)
Fixpoint tracked_record (key : Signature) (l : TrackLog) : option TrackingRecord :=
  match l with
  | [] => None
  | x :: l =>
      match x with
      | XTracked k r => if bool_decide (k = key) then Some r else tracked_record key l
      | XObserved k obs h _ =>
          if bool_decide (k = key) then observe obs h <$> tracked_record key l
          else tracked_record key l
      | XResent k h =>
          if bool_decide (k = key) then retried Submitted h <$> tracked_record key l
          else tracked_record key l
      | XResendFailed k =>
          if bool_decide (k = key)
          then (λ r, retried (tk_state r) (tk_submission_block_height r) r) <$> tracked_record key l
          else tracked_record key l
      | XForgotten k => if bool_decide (k = key) then None else tracked_record key l
      | XRestart => None
      | _ => tracked_record key l
      end
  end.

(** The reports on a key since it was last broadcast. *)
Fixpoint reports_since (key : Signature) (l : TrackLog) : list Report :=
  match l with
  | [] => []
  | x :: l =>
      match x with
      | XTracked k _ | XResent k _ => if bool_decide (k = key) then [] else reports_since key l
      | XObserved k obs h _ =>
          if bool_decide (k = key) then (reports_since key l ++ [(obs, h)])%list
          else reports_since key l
      | XRestart => []
      | _ => reports_since key l
      end
  end.

(** How often it was broadcast again since it was first tracked. *)
Fixpoint sends_since (key : Signature) (l : TrackLog) : Z :=
  match l with
  | [] => 0
  | x :: l =>
      match x with
      | XTracked k _ => if bool_decide (k = key) then 0 else sends_since key l
      | XTried k => if bool_decide (k = key) then 1 + sends_since key l else sends_since key l
      | XRestart => 0
      | _ => sends_since key l
      end
  end.

(** ** State and events *)
Record TrackState := MkTrack {
  tr_records : TrackMap;
  tr_queue : list StateChange;
  tr_rows : TrackTable;
  tr_log : TrackLog
}.

(** What the environment decides: the node, the database, and the order in which the
    records and the rows are met, where an iteration may miss records. *)
Record TrackEnv := MkTrackEnv {
  te_height : option Z;
  te_statuses : list Signature → option (list (option NodeStatus));
  te_send : Result string unit;
  te_slot : Result string Z;
  te_fault : option string;
  te_seen : list Signature;
  te_order : list TrackRow → list TrackRow
}.
Definition env_fair (env : TrackEnv) : Prop :=
  NoDup (te_seen env) ∧ ∀ rows, te_order env rows ≡ₚ rows.

Section semantics.
Context `{Sdk, TrackTexts}.
Context (policy : RetryPolicy).
Implicit Types (l : TrackLog) (st : TrackState) (env : TrackEnv) (key : Signature).

Definition with_records (m : TrackMap) st : TrackState := MkTrack m (tr_queue st) (tr_rows st) (tr_log st).
Definition with_rows (rows : TrackTable) st : TrackState :=
  MkTrack (tr_records st) (tr_queue st) rows (tr_log st).

(** The keys met whose record satisfies a test. *)
Definition met env (test : TrackingRecord → bool) st : list Signature :=
  List.filter (λ k, match tr_records st !! k with Some r => test r | None => false end) (te_seen env).
Definition bytes_of (r : TrackingRecord) : list byte := default [] (tk_signed_tx_bytes r).
Definition met_bytes env (test : TrackingRecord → bool) st : list (Signature * list byte) :=
  map (λ k, (k, default [] (bytes_of <$> tr_records st !! k))) (met env test st).

(** The entries are those of records that exist. *)
Definition if_tracked key (x : TrackEntry) st : TrackLog :=
  match tr_records st !! key with Some _ => [x] | None => [] end.

Definition observe_event key (obs : RpcObservation) (height : Z) st : TrackLog * TrackState :=
  match tr_records st !! key with
  | Some r =>
      let change := change_on obs height r in
      ([XObserved key obs height change],
       MkTrack (<[key := observe obs height r]> (tr_records st))
         (tr_queue st ++ option_list change)%list (tr_rows st) (tr_log st))
  | None => ([], st)
  end.

Definition or_fault {A} env (a : A) : Result string A :=
  match te_fault env with Some m => Err m | None => Ok a end.
(** A statement that the database refuses leaves the table alone. *)
Definition rows_unless_fault env (rows : TrackTable) st : TrackState :=
  match te_fault env with Some _ => st | None => with_rows rows st end.
Definition entries_unless_fault env (l : TrackLog) : TrackLog :=
  match te_fault env with Some _ => [] | None => l end.

Definition track_answer env (e : TrackEvent) st : TrackAnswer e * TrackLog * TrackState :=
  match e return TrackAnswer e * TrackLog * TrackState with
  | FetchHeight => (te_height env, match te_height env with Some h => [XHeight h] | None => [] end, st)
  | FetchStatuses sigs =>
      (te_statuses env sigs,
       match te_statuses env sigs with Some s => [XStatuses sigs s] | None => [] end, st)
  | SendTx key tx => (te_send env, [XTried key], st)
  | GetSlot => (te_slot env, [], st)
  | NothingTracked => (bool_decide (map_to_list (tr_records st) = []), [], st)
  | CollectEligible counter height => (met env (eligible counter height) st, [], st)
  | Observe key obs height => let '(es, st) := observe_event key obs height st in (tt, es, st)
  | CollectDropped height => (met_bytes env (resendable policy height) st, [], st)
  | Resent key height =>
      (tt, if_tracked key (XResent key height) st,
       with_records (alter (retried Submitted height) key (tr_records st)) st)
  | ResendFailed key =>
      (tt, if_tracked key (XResendFailed key) st,
       with_records (alter (λ r, retried (tk_state r) (tk_submission_block_height r) r) key
                       (tr_records st)) st)
  | CollectFinished height => (met env (λ r, negb (should_continue_tracking r height)) st, [], st)
  | Forget key => (tt, [XForgotten key], with_records (delete key (tr_records st)) st)
  | ContainsSig key => (bool_decide (is_Some (tr_records st !! key)), [], st)
  | InsertRecord key r => (tt, [XTracked key r], with_records (<[key := r]> (tr_records st)) st)
  | RowInsert row =>
      (or_fault env tt, entries_unless_fault env [XRow (rw_signature row)],
       rows_unless_fault env (insert_row row (tr_rows st)) st)
  | RowUpdate sig state slot err =>
      let '(b, rows) := update_state sig state slot err (tr_rows st) in
      (or_fault env b, [], rows_unless_fault env rows st)
  | RowMark sig column =>
      match te_fault env with
      | Some m => (Err m, [], st)
      | None => let '(r, rows) := mark_event_emitted sig column (tr_rows st) in (r, [], with_rows rows st)
      end
  | RowLoad => (or_fault env (te_order env (load_active (tr_rows st))), [], st)
  | RowExpire sig => (or_fault env tt, [], rows_unless_fault env (mark_expired sig (tr_rows st)) st)
  | AuditTx _ _ _ _ _ => (tt, [], st)
  | PublishTx sig x => (tt, [XPublished sig x], st)
  end.

Definition logged (es : TrackLog) st : TrackState :=
  MkTrack (tr_records st) (tr_queue st) (tr_rows st) (es ++ tr_log st).
Definition track_event env (e : TrackEvent) st : TrackAnswer e * TrackState :=
  let '(a, es, st) := track_answer env e st in (a, logged es st).

(** One program alone, to its end. *)
Fixpoint run_track {A} env (p : TProg A) st : A * TrackState :=
  match p with
  | Ret a => (a, st)
  | Vis e k => let '(a, st) := track_event env e st in run_track env (k a) st
  end.

(** ** Interleaving *)

(** The loop's round, the persister's change, and the handlers. *)
Record TrackPool := MkPool {
  tp_loop : TProg unit;
  tp_persister : TProg unit;
  tp_handlers : gmap nat (TProg unit);
  tp_state : TrackState
}.

(** After a restart only the table is left. *)
Definition restarted st : TrackState := MkTrack ∅ [] (tr_rows st) (XRestart :: tr_log st).

Inductive track_step : TrackPool → TrackPool → Prop :=
| tick_starts pe hs st counter :
    track_step (MkPool (Ret tt) pe hs st) (MkPool (tick counter) pe hs st)
| loop_runs e k pe hs st env a st' :
    env_fair env → track_event env e st = (a, st') →
    track_step (MkPool (Vis e k) pe hs st) (MkPool (k a) pe hs st')
| change_received lo hs m change queue rows l :
    track_step (MkPool lo (Ret tt) hs (MkTrack m (change :: queue) rows l))
      (MkPool lo (handle_change change) hs (MkTrack m queue rows l))
| persister_runs lo e k hs st env a st' :
    env_fair env → track_event env e st = (a, st') →
    track_step (MkPool lo (Vis e k) hs st) (MkPool lo (k a) hs st')
| handler_starts lo pe hs st n signature transaction_id request_id session_id wallet last_valid
    submission bytes :
    hs !! n = None →
    track_step (MkPool lo pe hs st)
      (MkPool lo pe (<[n := track_submitted signature transaction_id request_id session_id wallet
                              last_valid submission bytes]> hs) st)
| handler_runs lo pe hs st n e k env a st' :
    hs !! n = Some (Vis e k) → env_fair env → track_event env e st = (a, st') →
    track_step (MkPool lo pe hs st) (MkPool lo pe (<[n := k a]> hs) st')
| handler_stops lo pe hs st n :
    track_step (MkPool lo pe hs st) (MkPool lo pe (delete n hs) st)
| restarts lo pe hs st :
    track_step (MkPool lo pe hs st) (MkPool recover (Ret tt) ∅ (restarted st)).

Inductive track_reachable : TrackPool → Prop :=
| track_begins : track_reachable (MkPool recover (Ret tt) ∅ (MkTrack ∅ [] ∅ []))
| track_more pl pl' : track_reachable pl → track_step pl pl' → track_reachable pl'.
End semantics.

(** ** Reading the history *)
Section readings.
Implicit Types (l : TrackLog) (key : Signature).

Definition fresh_record (r : TrackingRecord) : Prop :=
  tk_state r = Submitted ∧ tk_retry_count r = 0.

(** What the handlers and the persister add. *)
Definition foreign (x : TrackEntry) : Prop :=
  match x with
  | XRow _ | XPublished _ _ | XHeight _ | XStatuses _ _ => True
  | XTracked _ r => fresh_record r
  | _ => False
  end.
Definition rely_loop l l' : Prop := ∃ es, l' = (es ++ l)%list ∧ Forall foreign es.
#[export] Instance rely_loop_preorder : PreOrder rely_loop.
Proof.
  split; [by exists []|]. intros l1 l2 l3 (e1 & -> & H1) (e2 & -> & H2). exists (e2 ++ e1)%list.
  rewrite <- app_assoc. split; [done|]. by apply Forall_app.
Qed.
Lemma rely_suffix l l' : rely_loop l l' → l `suffix_of` l'.
Proof. intros (es & -> & _). by exists es. Qed.

(** For the loop a record is what it was, or new. *)
Lemma rely_key key l l' : rely_loop l l' →
  (tracked_record key l' = tracked_record key l ∧ sends_since key l' = sends_since key l) ∨
  (∃ r, tracked_record key l' = Some r ∧ fresh_record r ∧ sends_since key l' = 0).
Proof.
  intros (es & -> & Hes). induction Hes as [|x es Hx Hes IH]; [by left|].
  destruct x; try done; cbn [app tracked_record sends_since]; try exact IH.
  case_bool_decide as Hk; [|exact IH]. right. by exists record.
Qed.

(** A key that may be broadcast again, and one that has just been. *)
Definition resend_state (s : TxState) : Prop := s = Submitted ∨ s = Dropped.
Definition sendable (limit : Z) (extra : Z) key l : Prop :=
  ∃ r, tracked_record key l = Some r ∧ resend_state (tk_state r) ∧
    0 ≤ tk_retry_count r < limit ∧ sends_since key l ≤ tk_retry_count r + extra.

Lemma sendable_rely limit extra key l l' :
  0 ≤ extra → rely_loop l l' → sendable limit extra key l → sendable limit extra key l'.
Proof.
  intros He Hl (r & Hr & Hs & Hn & Hc). destruct (rely_key key _ _ Hl) as [[E1 E2]|(r' & Hr' & [Hs' Hn'] & Hc')].
  - exists r. by rewrite E1, E2.
  - exists r'. split_and!; [done|by left|lia..].
Qed.
End readings.

Ltac on_keys := repeat (case_bool_decide; simplify_eq/=).

Section safety.
Context `{Sdk, TrackTexts} (policy : RetryPolicy).
Implicit Types (l : TrackLog) (key : Signature).
Notation limit := (max_retries policy).

(** ** What stands behind an entry *)

(** The node's answer for a key, with the height read before it. *)
Definition reported l key (obs : RpcObservation) (height : Z) : Prop :=
  XHeight height ∈ l ∧ ∃ sigs statuses i, XStatuses sigs statuses ∈ l ∧
    sigs !! i = Some key ∧ obs = status_to_observation (mjoin (statuses !! i)).

(** The announcements of a change. *)
Definition announcements (c : StateChange) : list TrackedEvent :=
  let session := default 0%N (id_parse (sc_session_id c)) in
  let id := sc_transaction_id c in let wallet := sc_wallet_pubkey c in
  match sc_to c with
  | Submitted => []
  | Dropped => [TransactionDropped session id wallet (sc_signature c)]
  | Expired => [TransactionExpired session id wallet (sc_signature c)]
  | Failed err => [TransactionExecutionFailed session id wallet err]
  | Confirmed _ => [TransactionConfirmed session id wallet (sc_signature c)]
  | Finalized _ => [TransactionConfirmed session id wallet (sc_signature c);
                    TransactionFinalized session id wallet (sc_signature c)]
  end.
Definition observed l (c : StateChange) : Prop :=
  ∃ key obs height, XObserved key obs height (Some c) ∈ l.
Definition announced l (signature : string) (x : TrackedEvent) : Prop :=
  ∃ c, observed l c ∧ sc_signature c = signature ∧ x ∈ announcements c.

Definition justified l (x : TrackEntry) : Prop :=
  match x with
  | XTracked key r => XRow (sig_text key) ∈ l ∧ tk_signature r = sig_text key ∧ fresh_record r
  | XObserved key obs height change =>
      reported l key obs height ∧ ∃ r, tracked_record key l = Some r ∧ change = change_on obs height r
  | XTried key => sendable limit 0 key l
  | XResent key _ | XResendFailed key => sendable limit 1 key l
  | XPublished signature x => announced l signature x
  | _ => True
  end.
Notation log_ok := (Interaction.log_ok justified).

(** ** What a task must know, and what an answer tells it *)
Definition pre (loop : bool) l (e : TrackEvent) : Prop :=
  match e with
  | InsertRecord key r => XRow (sig_text key) ∈ l ∧ tk_signature r = sig_text key ∧ fresh_record r
  | PublishTx signature x => announced l signature x
  | Observe key obs height => loop = true ∧ reported l key obs height
  | SendTx key _ => loop = true ∧ sendable limit 0 key l
  | Resent key _ | ResendFailed key => loop = true ∧ sendable limit 1 key l
  | Forget _ => loop = true
  | _ => True
  end.
Definition if_there (r : option TrackingRecord) (x : TrackEntry) : TrackLog :=
  match r with Some _ => [x] | None => [] end.
Definition told l (e : TrackEvent) : TrackAnswer e → TrackLog → Prop :=
  match e return TrackAnswer e → TrackLog → Prop with
  | FetchHeight => λ a es, es = match a with Some h => [XHeight h] | None => [] end
  | FetchStatuses sigs => λ a es, es = match a with Some s => [XStatuses sigs s] | None => [] end
  | CollectDropped height => λ a es, es = [] ∧ NoDup a.*1 ∧
      ∀ key, key ∈ a.*1 → ∃ r, tracked_record key l = Some r ∧ resendable policy height r = true
  | Observe key obs height => λ a es, es = [] ∨ ∃ change, es = [XObserved key obs height change]
  | SendTx key _ => λ a es, es = [XTried key]
  | Resent key height => λ a es, es = if_there (tracked_record key l) (XResent key height)
  | ResendFailed key => λ a es, es = if_there (tracked_record key l) (XResendFailed key)
  | Forget key => λ a es, es = [XForgotten key]
  | InsertRecord key r => λ a es, es = [XTracked key r]
  | RowInsert row => λ a es, es = match a with Ok _ => [XRow (rw_signature row)] | Err _ => [] end
  | RowLoad => λ a es, es = [] ∧
      ∀ rows row, a = Ok rows → row ∈ rows → XRow (rw_signature row) ∈ l
  | PublishTx signature x => λ a es, es = [XPublished signature x]
  | _ => λ a es, es = []
  end.

(** Between rounds every broadcast has been counted. *)
Definition counted key l : Prop :=
  ∀ r, tracked_record key l = Some r → 0 ≤ tk_retry_count r ∧ sends_since key l ≤ tk_retry_count r.
Definition balanced l : Prop := ∀ key, counted key l.

Notation loop_guards := (guards rely_loop (pre true) told).
Notation task_guards := (guards suffix (pre false) told).

Lemma counted_rely key l l' : rely_loop l l' → counted key l → counted key l'.
Proof.
  intros Hl Hb r Hr. destruct (rely_key key _ _ Hl) as [[E1 E2]|(r' & Hr' & [_ Hn] & Hc)].
  - rewrite E2. apply Hb. by rewrite <- E1.
  - rewrite Hr in Hr'. injection Hr' as ->. lia.
Qed.
Lemma balanced_rely l l' : rely_loop l l' → balanced l → balanced l'.
Proof. intros Hl Hb key. by eapply counted_rely. Qed.
Lemma reported_mono l l' key obs h : l `suffix_of` l' → reported l key obs h → reported l' key obs h.
Proof.
  intros Hl (? & sigs & sts & i & ? & ? & ?). split; [by eapply elem_of_suffix|].
  exists sigs, sts, i. split_and!; try done. by eapply elem_of_suffix.
Qed.

Lemma tracked_retries obs h r :
  tk_retry_count (observe obs h r) = tk_retry_count r.
Proof. unfold observe. by case_bool_decide. Qed.

Lemma counted_observed k key obs h ch l : counted k l → counted k (XObserved key obs h ch :: l).
Proof.
  intros Hb r. cbn. case_bool_decide; [|apply Hb].
  destruct (tracked_record k l) as [r0|] eqn:Hr; [|done]. intros [= <-].
  rewrite tracked_retries. by apply Hb.
Qed.
Lemma counted_forgotten k key l : counted k l → counted k (XForgotten key :: l).
Proof. intros Hb r. cbn. case_bool_decide; [done|apply Hb]. Qed.

(** ** The loop *)
Lemma observe_all_guards Q height statuses l :
  balanced l → (∀ key status, (key, status) ∈ statuses → reported l key (status_to_observation status) height) →
  (∀ l', l `suffix_of` l' → balanced l' → Q tt l') →
  loop_guards Q l (observe_all height statuses).
Proof.
  revert l. induction statuses as [|[key status] statuses IH]; intros l Hb Hr HQ; simpl.
  - intros l' Hl. apply HQ; [by apply rely_suffix|by eapply balanced_rely].
  - intros l' Hl. pose proof (rely_suffix _ _ Hl) as Hs.
    split; [split; [done|]; eapply reported_mono; [exact Hs|apply Hr; by left]|].
    intros a es Hes. assert (balanced (es ++ l')%list) as Hb'.
    { intros k. destruct Hes as [->|[ch ->]]; [|apply counted_observed]; by eapply counted_rely. }
    assert (l `suffix_of` (es ++ l')%list) as Hsuf by (etransitivity; [exact Hs|by exists es]).
    apply IH; [done|..].
    + intros key' st' Hin. eapply reported_mono; [exact Hsuf|]. apply Hr. by right.
    + intros l'' Hl''. apply HQ. by etransitivity.
Qed.

Lemma poll_all_guards Q height batches l :
  balanced l → XHeight height ∈ l → (∀ l', l `suffix_of` l' → balanced l' → Q tt l') →
  loop_guards Q l (poll_all height batches).
Proof.
  revert l. induction batches as [|sigs batches IH]; intros l Hb Hh HQ; cbn [poll_all].
  - intros l' Hl. apply HQ; [by apply rely_suffix|by eapply balanced_rely].
  - apply guards_bind; [apply _|]. intros l' Hl. split; [done|].
    intros a es ->. pose proof (rely_suffix _ _ Hl) as Hs. pose proof (balanced_rely _ _ Hl Hb) as Hb'.
    assert (∀ l'', l' `suffix_of` l'' → balanced l'' →
      loop_guards Q l'' (poll_all height batches)) as Hrest.
    { intros l'' Hl'' Hb''. apply IH; [done|..].
      - eapply elem_of_suffix; [exact Hh|]. by etransitivity.
      - intros l3 Hl3. apply HQ. etransitivity; [exact Hs|]. by etransitivity. }
    destruct a as [statuses|]; [|intros l'' Hl''; apply Hrest; [by apply rely_suffix|by eapply balanced_rely]].
    apply observe_all_guards.
    + intros k. by apply Hb'.
    + intros key status (i & y & [= -> ->] & Hi)%elem_of_lookup_imap_1. split.
      * right. by eapply elem_of_suffix.
      * exists sigs, statuses, i. split_and!; [by left|done..].
    + intros l'' Hl''. apply Hrest. etransitivity; [|exact Hl'']. by apply suffix_cons_r.
Qed.

(** Broadcasting one key leaves the others as they were. *)
Lemma sendable_other extra key k x l : 0 ≤ extra →
  (x = XTried k ∨ (∃ h, x = XResent k h) ∨ x = XResendFailed k) → k ≠ key →
  sendable limit extra key l → sendable limit extra key (x :: l).
Proof.
  intros He Hx Hk (r & Hr & Hs & Hn & Hc). exists r.
  destruct Hx as [->|[[h ->]| ->]]; cbn [tracked_record sends_since];
    rewrite ?bool_decide_eq_false_2 by done; split_and!; first [done|lia].
Qed.
Lemma counted_other key k x l :
  (x = XTried k ∨ (∃ h, x = XResent k h) ∨ x = XResendFailed k) → k ≠ key →
  counted key l → counted key (x :: l).
Proof.
  intros Hx Hk Hb r. destruct Hx as [->|[[h ->]| ->]]; cbn;
    rewrite ?bool_decide_eq_false_2 by done; apply Hb.
Qed.
Lemma tried_sendable key l : sendable limit 0 key l → sendable limit 1 key (XTried key :: l).
Proof.
  intros (r & Hr & Hs & Hn & Hc). exists r. cbn. rewrite bool_decide_eq_true_2 by done.
  split_and!; first [done|lia].
Qed.
(** A broadcast is counted, and the count does not wrap. *)
Lemma resend_counted key l x : limit < 2 ^ 32 → sendable limit 1 key l →
  (∃ h, x = XResent key h) ∨ x = XResendFailed key → counted key (x :: l).
Proof.
  intros Hlim (r & Hr & Hs & Hn & Hc) Hx r'.
  assert (wrap 32 (tk_retry_count r + 1) = tk_retry_count r + 1) as Hw by (apply wrap_small; unfold is_u; lia).
  destruct Hx as [[h ->]| ->]; cbn; rewrite bool_decide_eq_true_2 by done; rewrite Hr; intros [= <-];
    cbn; rewrite Hw; lia.
Qed.

Lemma resend_all_guards Q height candidates l : limit < 2 ^ 32 →
  balanced l → NoDup candidates.*1 → (∀ key, key ∈ candidates.*1 → sendable limit 0 key l) →
  (∀ l', l `suffix_of` l' → balanced l' → Q tt l') →
  loop_guards Q l (resend_all height candidates).
Proof.
  intros Hlim. revert l. induction candidates as [|[key bytes] candidates IH]; intros l Hb Hnd Hs HQ;
    cbn [resend_all].
  - intros l' Hl. apply HQ; [by apply rely_suffix|by eapply balanced_rely].
  - cbn in Hnd. apply NoDup_cons in Hnd as [Hk Hnd].
    (* counting the broadcast, sent or not *)
    assert (∀ l1 l2 x, l `suffix_of` l1 → rely_loop l1 l2 → sendable limit 1 key l1 →
      (∀ k, k ≠ key → counted k l1) → (∀ k, k ∈ candidates.*1 → sendable limit 0 k l1) →
      (∃ h, x = XResent key h) ∨ x = XResendFailed key →
      loop_guards Q (if_there (tracked_record key l2) x ++ l2)%list (resend_all height candidates)) as Hnext.
    { intros l1 l2 x Hl1 Hl2 Hs1 Hb1 Hr1 Hx. pose proof (rely_suffix _ _ Hl2) as Hsuf.
      assert (sendable limit 1 key l2) as Hs2 by (eapply sendable_rely; [lia|done..]).
      assert (tracked_record key l2 = Some (default (with_bytes "" 0%N 0%N "" "" 0 0 None) (tracked_record key l2)))
        as Ht by (destruct Hs2 as (r & -> & _); done).
      rewrite Ht. cbn [if_there app].
      assert (∀ k, k ≠ key → (x = XTried key ∨ (∃ h, x = XResent key h) ∨ x = XResendFailed key)) as Hx' by tauto.
      apply IH; [|done|..].
      - intros k. destruct (base.decide (k = key)) as [->|Hne]; [by apply resend_counted|].
        eapply counted_other; [by apply (Hx' k)|done|]. eapply counted_rely; [exact Hl2|by apply Hb1].
      - intros k Hin. assert (k ≠ key) as Hne by (by intros ->).
        eapply sendable_other; [lia|by apply (Hx' k)|done|]. eapply sendable_rely; [lia|exact Hl2|by apply Hr1].
      - intros l3 Hl3. apply HQ. etransitivity; [exact Hl1|]. etransitivity; [exact Hsuf|].
        etransitivity; [|exact Hl3]. by apply suffix_cons_r. }
    assert (∀ k, k ∈ candidates.*1 → k ≠ key) as Hne by (intros k Hin ->; done).
    apply guards_bind; [apply _|]. unfold rebroadcast. destruct (tx_from_bytes bytes) as [tx|e].
    + intros l1 Hl1. assert (sendable limit 0 key l1) as Hs1 by (eapply sendable_rely; [lia|exact Hl1|apply Hs; by left]).
      split; [done|]. intros a es ->. cbn [app].
      pose proof (rely_suffix _ _ Hl1) as Hsuf.
      assert (l `suffix_of` XTried key :: l1) as Hsuf1 by (by apply suffix_cons_r).
      assert (∀ l2 x, rely_loop (XTried key :: l1) l2 → (∃ h, x = XResent key h) ∨ x = XResendFailed key →
        loop_guards Q (if_there (tracked_record key l2) x ++ l2)%list (resend_all height candidates)) as Hn.
      { intros l2 x Hl2 Hx. eapply Hnext; [exact Hsuf1|exact Hl2|by apply tried_sendable|..|done].
        - intros k Hk'. eapply counted_other; [by left|done|]. by eapply counted_rely.
        - intros k Hin. eapply sendable_other; [lia|by left|by apply not_eq_sym, Hne|].
          eapply sendable_rely; [lia|exact Hl1|]. apply Hs. by right. }
      intros l2 Hl2. apply guards_bind; [apply _|]. destruct a as [|e]; intros l3 Hl3;
        (assert (rely_loop (XTried key :: l1) l3) as Hl23 by (by etransitivity));
        (split; [split; [done|eapply sendable_rely; [lia|exact Hl23|by apply tried_sendable]]|]);
        intros _ es -> l4 Hl4; (eapply guards_mono; [apply _|exact Hl4|]); apply Hn; eauto.
    + intros l1 Hl1. apply guards_bind; [apply _|]. intros l2 Hl2.
      assert (rely_loop l l2) as Hl12 by (by etransitivity).
      assert (sendable limit 0 key l2) as Hs1 by (eapply sendable_rely; [lia|exact Hl12|apply Hs; by left]).
      assert (sendable limit 1 key l2) as Hs2.
      { destruct Hs1 as (r & ? & ? & ? & ?). exists r. split_and!; first [done|lia]. }
      split; [done|]. intros _ es -> l3 Hl3. eapply guards_mono; [apply _|exact Hl3|].
      eapply Hnext; [by apply rely_suffix|reflexivity|exact Hs2|..|by right].
      * intros k _. by eapply counted_rely.
      * intros k Hin. eapply sendable_rely; [lia|exact Hl12|]. apply Hs. by right.
Qed.

Lemma forget_all_guards Q keys l : balanced l →
  (∀ l', l `suffix_of` l' → balanced l' → Q tt l') → loop_guards Q l (forget_all keys).
Proof.
  revert l. induction keys as [|key keys IH]; intros l Hb HQ; cbn [forget_all].
  - intros l' Hl. apply HQ; [by apply rely_suffix|by eapply balanced_rely].
  - intros l' Hl. split; [done|]. intros [] es ->. apply IH.
    + intros k. apply counted_forgotten. by eapply counted_rely.
    + intros l'' Hl''. apply HQ. etransitivity; [by apply rely_suffix|].
      etransitivity; [|exact Hl'']. by apply suffix_cons_r.
Qed.

Lemma resendable_sendable height key l : balanced l →
  (∃ r, tracked_record key l = Some r ∧ resendable policy height r = true) → sendable limit 0 key l.
Proof.
  intros Hb (r & Hr & Ht). destruct (Hb _ _ Hr) as [Hn Hc]. unfold resendable in Ht.
  rewrite !andb_true_iff, bool_decide_eq_true, Z.ltb_lt in Ht. destruct Ht as [[[Hs Hlim] _] _].
  exists r. split_and!; first [done|by right|lia].
Qed.

Lemma tick_guards counter l : limit < 2 ^ 32 → balanced l →
  loop_guards (λ _ l', balanced l') l (tick counter).
Proof.
  intros Hlim Hb. unfold tick. intros l1 Hl1. split; [done|]. intros idle es ->. cbn [app].
  assert (∀ l l', rely_loop l l' → balanced l → balanced l') as Hrely by apply balanced_rely.
  apply (Hrely _ _ Hl1) in Hb. destruct idle; [by intros l2 Hl2; eapply Hrely|].
  intros l2 Hl2. split; [done|]. intros h es ->. apply (Hrely _ _ Hl2) in Hb.
  destruct h as [height|]; cbn [app]; [|by intros l3 Hl3; eapply Hrely].
  intros l3 Hl3. split; [done|]. intros keys es ->. cbn [app].
  assert (balanced (XHeight height :: l2)) as Hb2 by apply Hb.
  apply (Hrely _ _ Hl3) in Hb2.
  assert (XHeight height ∈ l3) as Hh by (eapply elem_of_suffix; [by left|by apply rely_suffix]).
  destruct keys as [|key keys]; [by intros l4 Hl4; eapply Hrely|].
  apply guards_bind; [apply _|]. apply poll_all_guards; [done..|]. intros l4 _ Hb4.
  intros l5 Hl5. split; [done|]. intros candidates es (-> & Hnd & Hc). cbn [app].
  apply (Hrely _ _ Hl5) in Hb4.
  apply guards_bind; [apply _|]. apply resend_all_guards; [done..| |].
  - intros k Hk. apply (resendable_sendable height); [done|by apply Hc].
  - intros l6 _ Hb6 l7 Hl7. split; [done|]. intros gone es ->. cbn [app].
    apply (Hrely _ _ Hl7) in Hb6. apply forget_all_guards; [done|]. by intros l8 _ Hb8.
Qed.

(** ** Adding a transaction *)
Section tracking.
Context (rely : list TrackEntry → list TrackEntry → Prop) `{!PreOrder rely}.
Context (Hrely : ∀ l l', rely l l' → l `suffix_of` l') (loop : bool).

Lemma track_guards Q key transaction_id request_id session_id wallet last_valid submission bytes l :
  XRow (sig_text key) ∈ l → (∀ l', rely l l' → Q tt l') →
  (∀ l' r, rely l l' → fresh_record r → Q tt (XTracked key r :: l')) →
  (∀ a l' l'', Q a l' → rely l' l'' → Q a l'') →
  guards rely (pre loop) told Q l
    (track key transaction_id request_id session_id wallet last_valid submission bytes).
Proof.
  intros Hrow HQ HQ' Hst. unfold track. intros l1 Hl1. split; [done|]. intros there es ->. cbn [app].
  destruct there; [intros l2 Hl2; apply HQ; by etransitivity|].
  intros l2 Hl2. split.
  - split; [eapply elem_of_suffix; [exact Hrow|etransitivity; by apply Hrely]|done].
  - intros [] es -> l3 Hl3. eapply Hst; [|exact Hl3]. apply HQ'; [by etransitivity|done].
Qed.
End tracking.

Lemma track_submitted_guards signature transaction_id request_id session_id wallet last_valid
    submission bytes l :
  task_guards (λ _ _, True) l
    (track_submitted signature transaction_id request_id session_id wallet last_valid submission bytes).
Proof.
  intros l1 Hl1. split; [done|]. intros r es ->. destruct r as [u|e]; [|done].
  apply track_guards; try done; [apply _|by left].
Qed.

(** ** Recovery *)
Section recovery.
Context (Hparse : ∀ text key, sig_parse text = Some key → text = sig_text key).

Lemma recover_rows_guards height rows l : balanced l →
  (∀ row, row ∈ rows → XRow (rw_signature row) ∈ l) →
  loop_guards (λ _ l', balanced l') l (recover_rows height rows).
Proof.
  revert l. induction rows as [|row rows IH]; intros l Hb Hrows; cbn [recover_rows].
  - intros l' Hl. by eapply balanced_rely.
  - assert (∀ l', l `suffix_of` l' → balanced l' →
      loop_guards (λ _ l', balanced l') l' (recover_rows height rows)) as Hnext.
    { intros l' Hl Hb'. apply IH; [done|]. intros row' Hin. eapply elem_of_suffix; [|exact Hl].
      apply Hrows. by right. }
    assert (XRow (rw_signature row) ∈ l) as Hrow by (apply Hrows; by left).
    apply guards_bind; [apply _|]. unfold recover_row. case_match.
    + intros l1 Hl1. split; [done|]. intros a es -> l2 Hl2. cbn [app] in Hl2.
      assert (rely_loop l l2) as Hl by (by etransitivity).
      apply Hnext; [by apply rely_suffix|by eapply balanced_rely].
    + destruct (sig_parse (rw_signature row)) as [key|] eqn:Hkey;
        [|intros l' Hl; apply Hnext; [by apply rely_suffix|by eapply balanced_rely]].
      destruct (id_parse (rw_transaction_id row)) as [tx_id|], (id_parse (rw_request_id row)) as [req_id|];
        try (intros l' Hl; apply Hnext; [by apply rely_suffix|by eapply balanced_rely]).
      apply track_guards; try apply rely_suffix; [apply _|by rewrite <- (Hparse _ _ Hkey)|..].
      * intros l' Hl. apply Hnext; [by apply rely_suffix|by eapply balanced_rely].
      * intros l' r Hl Hr. assert (rely_loop l (XTracked key r :: l')) as Hl'.
        { etransitivity; [exact Hl|]. exists [XTracked key r]. split; [done|by apply Forall_singleton]. }
        apply Hnext; [by apply rely_suffix|by eapply balanced_rely].
      * intros a l' l'' HQ Hl. by eapply guards_mono; [apply _|..].
Qed.

Lemma recover_guards l : balanced l → loop_guards (λ _ l', balanced l') l recover.
Proof.
  intros Hb. unfold recover. intros l1 Hl1. split; [done|]. intros r es [-> Hrows]. cbn [app].
  apply (balanced_rely _ _ Hl1) in Hb. destruct r as [rows|e]; [|by intros l2 Hl2; eapply balanced_rely].
  intros l2 Hl2. split; [done|]. intros h es ->. cbn [app]. apply recover_rows_guards.
  - by eapply balanced_rely.
  - intros row Hin. eapply elem_of_suffix; [by eapply Hrows|by apply rely_suffix].
Qed.
End recovery.

(** ** The persister *)
Lemma announced_mono l l' sig x : l `suffix_of` l' → announced l sig x → announced l' sig x.
Proof.
  intros Hl (c & (key & obs & h & Hc) & Hx). exists c. split; [|done]. exists key, obs, h.
  by eapply elem_of_suffix.
Qed.
Lemma emit_guards change column event_type extra severity x Q l :
  observed l change → x ∈ announcements change →
  (∀ l', l `suffix_of` l' → Q tt l') →
  task_guards Q l (emit change column event_type extra severity x).
Proof.
  intros Hc Hx HQ. unfold emit. intros l1 Hl1. split; [done|]. intros r es ->. cbn [app].
  destruct r; [|intros l2 Hl2; apply HQ; by etransitivity].
  intros l2 Hl2. split; [done|]. intros [] es ->. cbn [app]. intros l3 Hl3. split.
  - eapply announced_mono; [|by exists change]. etransitivity; [exact Hl1|]. by etransitivity.
  - intros [] es -> l4 Hl4. apply HQ. repeat (etransitivity; [eassumption|]).
    etransitivity; [|exact Hl4]. by apply suffix_cons_r.
Qed.

Lemma handle_change_guards change l : observed l change →
  task_guards (λ _ _, True) l (handle_change change).
Proof.
  intros Hc. unfold handle_change. intros l1 Hl1. split; [done|]. intros r es ->. cbn [app].
  assert (observed l1 change) as Hc1.
  { destruct Hc as (key & obs & h & Hc). exists key, obs, h. by eapply elem_of_suffix. }
  destruct r; [|done].
  destruct (sc_to change) eqn:Hto; try done;
    try (apply emit_guards; [done|unfold announcements; rewrite Hto; by left|done]).
  apply guards_bind; [apply _|]. apply emit_guards; [done|unfold announcements; rewrite Hto; by left|].
  intros l2 Hl2. apply emit_guards; [|unfold announcements; rewrite Hto; by right; left|done].
  destruct Hc1 as (key & obs & h & Hc1). exists key, obs, h. by eapply elem_of_suffix.
Qed.

(** ** The invariant *)
Record stores_ok (st : TrackState) (l : TrackLog) : Prop := {
  sto_records key : tr_records st !! key = tracked_record key l;
  sto_queue c : c ∈ tr_queue st → observed l c;
  sto_rows signature : XRow signature ∈ l ↔ is_Some (tr_rows st !! signature);
  sto_keys signature row : tr_rows st !! signature = Some row → rw_signature row = signature
}.

(** Entries that no reading of the history depends on. *)
Definition quiet (x : TrackEntry) : Prop :=
  match x with XHeight _ | XStatuses _ _ | XTried _ | XPublished _ _ => True | _ => False end.
Lemma track_stores_quiet st l x : quiet x → stores_ok st l → stores_ok st (x :: l).
Proof.
  intros Hx [Hr Hq Hrow Hk]. split; try done.
  - intros key. rewrite Hr. by destruct x.
  - intros c (key & obs & h & Hc)%Hq. exists key, obs, h. by right.
  - intros s. rewrite <- Hrow, elem_of_cons. split; [intros [<-|]; done|by right].
Qed.

Lemma met_spec env test st l key : stores_ok st l → key ∈ met env test st →
  ∃ r, tracked_record key l = Some r ∧ test r = true.
Proof.
  intros Hs (Hin & Ht)%list_elem_of_In%filter_In. rewrite (sto_records _ _ Hs) in Ht.
  destruct (tracked_record key l) as [r|]; [by exists r|done].
Qed.
Lemma met_nodup env test st : NoDup (te_seen env) → NoDup (met env test st).
Proof. intros Hn. unfold met. apply NoDup_ListNoDup. apply List.NoDup_filter. by apply NoDup_ListNoDup. Qed.
Lemma met_bytes_keys env test st : (met_bytes env test st).*1 = met env test st.
Proof. unfold met_bytes. rewrite <- list_fmap_compose. apply list_fmap_id. Qed.

Lemma track_told_ok env e st l a es st' : env_fair env → stores_ok st l →
  track_answer policy env e st = (a, es, st') → told l e a es.
Proof.
  intros [Hnd Hperm] Hs Ha. destruct e; cbn [told]; cbn [track_answer] in Ha; try (by injection Ha as <- <- <-).
  - unfold observe_event in Ha. destruct (tr_records st !! sig); injection Ha as <- <- <-; eauto.
  - injection Ha as <- <- <-. rewrite met_bytes_keys. split_and!; [done|by apply met_nodup|].
    intros key Hin. by eapply met_spec.
  - injection Ha as <- <- <-. unfold if_tracked. by rewrite (sto_records _ _ Hs).
  - injection Ha as <- <- <-. unfold if_tracked. by rewrite (sto_records _ _ Hs).
  - injection Ha as <- <- <-. unfold or_fault, entries_unless_fault. by destruct (te_fault env).
  - destruct (update_state _ _ _ _ _) as [b rows]. by injection Ha as <- <- <-.
  - destruct (te_fault env); [by injection Ha as <- <- <-|]. destruct (mark_event_emitted _ _ _).
    by injection Ha as <- <- <-.
  - injection Ha as <- <- <-. split; [done|]. unfold or_fault. destruct (te_fault env); [done|].
    intros rows row [= <-] Hin. rewrite Hperm in Hin. unfold load_active in Hin.
    apply list_elem_of_In, filter_In in Hin as [Hin _].
    apply list_elem_of_In, list_elem_of_fmap in Hin as ([s r] & -> & Hin%elem_of_map_to_list).
    cbn [snd]. rewrite (sto_keys _ _ Hs _ _ Hin). apply (sto_rows _ _ Hs). by exists r.
Qed.

(** *** Changes of the records and of the table *)
Lemma records_step st l x m : stores_ok st l →
  (∀ key, m !! key = tracked_record key (x :: l)) → (∀ s, x ≠ XRow s) →
  stores_ok (with_records m st) (x :: l).
Proof.
  intros [_ Hq Hrow Hk] Hm Hx. split; cbn; try done.
  - intros c (key & obs & h & Hc)%Hq. exists key, obs, h. by right.
  - intros s. rewrite <- Hrow, elem_of_cons. split; [intros [E|]; [by destruct (Hx s)|done]|by right].
Qed.
Lemma alter_step f key x st l : stores_ok st l → (∀ s, x ≠ XRow s) →
  (∀ k, tracked_record k (x :: l) =
     if bool_decide (key = k) then f <$> tracked_record k l else tracked_record k l) →
  stores_ok (with_records (alter f key (tr_records st)) st) (if_tracked key x st ++ l).
Proof.
  intros Hs Hx Hread. unfold if_tracked. destruct (tr_records st !! key) as [r|] eqn:Hr.
  - apply records_step; [done| |done]. intros k. rewrite Hread. case_bool_decide as Hk.
    + subst. by rewrite lookup_alter_eq, (sto_records _ _ Hs).
    + by rewrite lookup_alter_ne, (sto_records _ _ Hs).
  - cbn [app]. destruct Hs as [Hm ? ? ?]. split; cbn; try done. intros k. rewrite <- Hm.
    destruct (base.decide (key = k)) as [->|]; [by rewrite lookup_alter_eq, Hr|by rewrite lookup_alter_ne].
Qed.

Lemma observe_step key obs height st l : stores_ok st l →
  let '(es, st') := observe_event key obs height st in stores_ok st' (es ++ l).
Proof.
  intros [Hm Hq Hrow Hk]. unfold observe_event. destruct (tr_records st !! key) as [r|] eqn:Hr; [|by split].
  split; cbn.
  - intros k. case_bool_decide as Hkey.
    + subst. by rewrite lookup_insert_eq, <- Hm, Hr.
    + by rewrite lookup_insert_ne.
  - intros c [Hc|Hc]%elem_of_app.
    + destruct (Hq _ Hc) as (k & o & h & Hin). exists k, o, h. by right.
    + exists key, obs, height. destruct (change_on obs height r) as [c'|]; [|by apply not_elem_of_nil in Hc].
      apply list_elem_of_singleton in Hc as ->. by left.
  - intros s. rewrite <- Hrow, elem_of_cons. split; [by intros [|]|by right].
  - done.
Qed.

Lemma rows_step st l rows : stores_ok st l →
  (∀ s, is_Some (rows !! s) ↔ is_Some (tr_rows st !! s)) →
  (∀ s row, rows !! s = Some row → rw_signature row = s) → stores_ok (with_rows rows st) l.
Proof. intros [? ? Hrow ?] Hsome Hkeys. split; cbn; try done. intros s. by rewrite Hrow, Hsome. Qed.
Lemma alter_rows f sig st l : stores_ok st l → (∀ r, rw_signature (f r) = rw_signature r) →
  stores_ok (with_rows (alter f sig (tr_rows st)) st) l.
Proof.
  intros Hs Hf. apply rows_step; [done|..].
  - intros s. destruct (base.decide (sig = s)) as [->|]; [rewrite lookup_alter_eq|by rewrite lookup_alter_ne].
    by rewrite fmap_is_Some.
  - intros s row. rewrite lookup_alter_Some. intros [(-> & r & Hr & ->)|[_ Hr]]; [rewrite Hf|];
      by eapply sto_keys.
Qed.
Lemma insert_row_step row st l : stores_ok st l →
  stores_ok (with_rows (insert_row row (tr_rows st)) st) (XRow (rw_signature row) :: l).
Proof.
  intros [Hm Hq Hrow Hk]. split; cbn.
  - done.
  - intros c (key & obs & h & Hc)%Hq. exists key, obs, h. by right.
  - intros s. rewrite elem_of_cons, Hrow. unfold insert_row.
    destruct (tr_rows st !! rw_signature row) eqn:Hr.
    + split; [intros [[= ->]|]; [by rewrite Hr|done]|by right].
    + destruct (base.decide (rw_signature row = s)) as [<-|Hne].
      * rewrite lookup_insert_eq. split; [done|by left].
      * rewrite lookup_insert_ne by done. split; [by intros [[= ->]|]|by right].
  - intros s r. unfold insert_row. destruct (tr_rows st !! rw_signature row); [by apply Hk|].
    intros [[<- <-]|[_ ?]]%lookup_insert_Some; [done|by apply Hk].
Qed.

Lemma fault_step env rows st l : stores_ok st l → stores_ok (with_rows rows st) l →
  stores_ok (rows_unless_fault env rows st) l.
Proof. unfold rows_unless_fault. by destruct (te_fault env). Qed.

Lemma track_stores_step loop env e st l a es st' : stores_ok st l → pre loop l e →
  track_answer policy env e st = (a, es, st') → stores_ok st' (es ++ l).
Proof.
  intros Hs Hpre Ha. destruct e; cbn [track_answer] in Ha; try (injection Ha as <- <- <-; exact Hs).
  - injection Ha as <- <- <-. destruct (te_height env); [by apply track_stores_quiet|done].
  - injection Ha as <- <- <-. destruct (te_statuses env sigs); [by apply track_stores_quiet|done].
  - injection Ha as <- <- <-. by apply track_stores_quiet.
  - pose proof (observe_step sig obs height st l Hs) as Ho.
    destruct (observe_event sig obs height st). by injection Ha as <- <- <-.
  - injection Ha as <- <- <-. by apply alter_step.
  - injection Ha as <- <- <-. by apply alter_step.
  - injection Ha as <- <- <-. apply records_step; [done| |done]. intros k. cbn. case_bool_decide.
    + subst. by rewrite lookup_delete_eq.
    + rewrite lookup_delete_ne by done. apply (sto_records _ _ Hs).
  - injection Ha as <- <- <-. apply records_step; [done| |done]. intros k. cbn. case_bool_decide.
    + subst. by rewrite lookup_insert_eq.
    + rewrite lookup_insert_ne by done. apply (sto_records _ _ Hs).
  - injection Ha as <- <- <-. unfold entries_unless_fault, rows_unless_fault.
    destruct (te_fault env); [done|]. by apply insert_row_step.
  - unfold update_state in Ha. destruct (tr_rows st !! signature) as [r|] eqn:Hr; injection Ha as <- <- <-.
    + apply fault_step; [done|]. apply rows_step; [done|..].
      * intros s. destruct (base.decide (signature = s)) as [<-|]; [by rewrite lookup_insert_eq, Hr|].
        by rewrite lookup_insert_ne.
      * intros s row [[<- <-]|[_ ?]]%lookup_insert_Some; cbn [set_row_state rw_signature]; by eapply sto_keys.
    + apply fault_step; [done|]. by destruct Hs.
  - destruct (te_fault env); [by injection Ha as <- <- <-|]. unfold mark_event_emitted in Ha.
    destruct (negb _); injection Ha as <- <- <-; [by destruct Hs|]. by apply alter_rows.
  - injection Ha as <- <- <-. apply fault_step; [done|]. by apply alter_rows.
  - injection Ha as <- <- <-. by apply track_stores_quiet.
Qed.

Lemma track_log_step loop env e st l a es st' : log_ok l → stores_ok st l → pre loop l e →
  track_answer policy env e st = (a, es, st') → log_ok (es ++ l).
Proof.
  intros Hl Hs Hpre Ha. destruct e; cbn [track_answer] in Ha; try (injection Ha as <- <- <-; exact Hl);
    try (injection Ha as <- <- <-; apply log_ok_cons; [done|exact Hpre || exact I]).
  - injection Ha as <- <- <-. destruct (te_height env); [by apply log_ok_cons|done].
  - injection Ha as <- <- <-. destruct (te_statuses env sigs); [by apply log_ok_cons|done].
  - injection Ha as <- <- <-. apply log_ok_cons; [done|apply Hpre].
  - unfold observe_event in Ha. destruct (tr_records st !! sig) as [r|] eqn:Hr; injection Ha as <- <- <-; [|done].
    apply log_ok_cons; [done|]. destruct Hpre as [_ Hrep]. split; [done|]. exists r.
    by rewrite <- (sto_records _ _ Hs).
  - injection Ha as <- <- <-. unfold if_tracked. destruct (tr_records st !! sig); [|done].
    apply log_ok_cons; [done|apply Hpre].
  - injection Ha as <- <- <-. unfold if_tracked. destruct (tr_records st !! sig); [|done].
    apply log_ok_cons; [done|apply Hpre].
  - injection Ha as <- <- <-. unfold entries_unless_fault. destruct (te_fault env); [done|by apply log_ok_cons].
  - destruct (update_state _ _ _ _ _). by injection Ha as <- <- <-.
  - destruct (te_fault env); [by injection Ha as <- <- <-|]. destruct (mark_event_emitted _ _ _).
    by injection Ha as <- <- <-.
Qed.

(** ** The pool *)
Section pool.
Context (Hlim : is_u 32 limit).
Context (Hparse : ∀ text key, sig_parse text = Some key → text = sig_text key).

Record pool_ok (pl : TrackPool) : Prop := {
  po_log : log_ok (tr_log (tp_state pl));
  po_stores : stores_ok (tp_state pl) (tr_log (tp_state pl));
  po_loop : loop_guards (λ _ l, balanced l) (tr_log (tp_state pl)) (tp_loop pl);
  po_persister : task_guards (λ _ _, True) (tr_log (tp_state pl)) (tp_persister pl);
  po_handlers n p : tp_handlers pl !! n = Some p →
    task_guards (λ _ _, True) (tr_log (tp_state pl)) p
}.

Lemma told_foreign l e a es : pre false l e → told l e a es → Forall foreign es.
Proof.
  destruct e; cbn [pre told]; intros Hp Ht; try (by destruct Hp); try (by destruct Ht as [-> _]);
    subst; try done; try (by case_match; repeat constructor); by repeat constructor; try apply Hp.
Qed.

Lemma event_ok loop env e st a st' : env_fair env →
  log_ok (tr_log st) → stores_ok st (tr_log st) → pre loop (tr_log st) e →
  track_event policy env e st = (a, st') →
  ∃ es, tr_log st' = (es ++ tr_log st)%list ∧ told (tr_log st) e a es ∧
    log_ok (tr_log st') ∧ stores_ok st' (tr_log st').
Proof.
  intros Hf Hl Hs Hp Hev. unfold track_event in Hev.
  destruct (track_answer policy env e st) as [[a' es] s1] eqn:Ha. injection Hev as <- <-.
  assert (tr_log s1 = tr_log st) as Hlog.
  { destruct e; cbn [track_answer] in Ha; try (by injection Ha as <- <- <-).
    - unfold observe_event in Ha. destruct (tr_records st !! sig); by injection Ha as <- <- <-.
    - injection Ha as <- <- <-. unfold rows_unless_fault. by destruct (te_fault env).
    - destruct (update_state _ _ _ _ _). injection Ha as <- <- <-. unfold rows_unless_fault.
      by destruct (te_fault env).
    - destruct (te_fault env); [by injection Ha as <- <- <-|]. destruct (mark_event_emitted _ _ _).
      by injection Ha as <- <- <-.
    - injection Ha as <- <- <-. unfold rows_unless_fault. by destruct (te_fault env). }
  exists es. cbn [logged tr_log]. rewrite Hlog. split_and!; [done|by eapply track_told_ok|by eapply track_log_step|].
  by destruct (track_stores_step _ _ _ _ _ _ _ _ Hs Hp Ha).
Qed.

Lemma task_grows l l' (p : TProg unit) : l `suffix_of` l' → task_guards (λ _ _, True) l p → task_guards (λ _ _, True) l' p.
Proof. intros. by eapply guards_mono; [apply _|..]. Qed.
Lemma loop_grows l es (p : TProg unit) : Forall foreign es → loop_guards (λ _ l, balanced l) l p →
  loop_guards (λ _ l, balanced l) (es ++ l)%list p.
Proof. intros Hes. eapply guards_mono; [apply _|]. by exists es. Qed.

Lemma balanced_restart l : balanced (XRestart :: l).
Proof. by intros key r. Qed.

Lemma track_reachable_ok pl : track_reachable policy pl → pool_ok pl.
Proof.
  induction 1 as [|pl pl' _ [Hl Hs Hlo Hpe Hhs] Hstep].
  { split; cbn [tp_loop tp_persister tp_handlers tp_state tr_log].
    - apply log_ok_nil.
    - split; cbn; try done; [by intros c ?%not_elem_of_nil|].
      intros s. split; [by intros ?%not_elem_of_nil|intros [? Hx]; by rewrite lookup_empty in Hx].
    - by apply recover_guards.
    - done.
    - intros n p Hn. by rewrite lookup_empty in Hn. }
  destruct Hstep as [pe hs st counter|e k pe hs st env a st' Hf Hev|lo hs m change queue rows l|
    lo e k hs st env a st' Hf Hev|lo pe hs st n sg tid rid sid w lv sub bs Hn|
    lo pe hs st n e k env a st' Hn Hf Hev|lo pe hs st n|lo pe hs st];
    cbn [tp_loop tp_persister tp_handlers tp_state] in *.
  - split; try done. cbn. apply tick_guards; [by destruct Hlim|]. apply (Hlo _ ltac:(reflexivity)).
  - destruct (Hlo (tr_log st) ltac:(reflexivity)) as [Hpre Hk].
    destruct (event_ok _ _ _ _ _ _ Hf Hl Hs Hpre Hev) as (es & Hlog & Ht & Hl' & Hs').
    assert (tr_log st `suffix_of` tr_log st') as Hsuf by (rewrite Hlog; by exists es).
    split; cbn; try done; [rewrite Hlog; by apply Hk|by eapply task_grows|].
    intros n p Hn. eapply task_grows; [exact Hsuf|by eapply Hhs].
  - cbn in *. split; cbn; try done.
    + destruct Hs as [Hr Hq Hrow Hk]. split; cbn; try done. intros c Hc. apply Hq. by right.
    + apply handle_change_guards. apply (sto_queue _ _ Hs). by left.
  - destruct (Hpe (tr_log st) ltac:(reflexivity)) as [Hpre Hk].
    destruct (event_ok _ _ _ _ _ _ Hf Hl Hs Hpre Hev) as (es & Hlog & Ht & Hl' & Hs').
    assert (tr_log st `suffix_of` tr_log st') as Hsuf by (rewrite Hlog; by exists es).
    split; cbn; try done.
    + rewrite Hlog. apply loop_grows; [by eapply told_foreign|done].
    + rewrite Hlog. by apply Hk.
    + intros n p Hn. eapply task_grows; [exact Hsuf|by eapply Hhs].
  - split; try done. cbn. intros n' p [[<- <-]|[_ Hp]]%lookup_insert_Some; [|by eapply Hhs].
    apply track_submitted_guards.
  - destruct (Hhs _ _ Hn (tr_log st) ltac:(reflexivity)) as [Hpre Hk].
    destruct (event_ok _ _ _ _ _ _ Hf Hl Hs Hpre Hev) as (es & Hlog & Ht & Hl' & Hs').
    assert (tr_log st `suffix_of` tr_log st') as Hsuf by (rewrite Hlog; by exists es).
    split; cbn; try done.
    + rewrite Hlog. apply loop_grows; [by eapply told_foreign|done].
    + by eapply task_grows.
    + intros n' p [[<- <-]|[_ Hp]]%lookup_insert_Some; [rewrite Hlog; by apply Hk|].
      eapply task_grows; [exact Hsuf|by eapply Hhs].
  - split; try done. cbn. intros n' p [_ Hp]%lookup_delete_Some. by eapply Hhs.
  - split; cbn.
    + by apply log_ok_cons.
    + destruct Hs as [Hr Hq Hrow Hk]. split; cbn; [done|by intros c ?%not_elem_of_nil| |done].
      intros s. rewrite <- Hrow, elem_of_cons. split; [by intros [|]|by right].
    + apply recover_guards, balanced_restart. done.
    + done.
    + intros n p Hn. by rewrite lookup_empty in Hn.
Qed.

(** ** Properties *)
Implicit Types (pl : TrackPool).

(** What a record was tracked with does not change. *)
Definition same_terms (r0 r : TrackingRecord) : Prop :=
  tk_signature r = tk_signature r0 ∧ tk_transaction_id r = tk_transaction_id r0 ∧
  tk_request_id r = tk_request_id r0 ∧ tk_session_id r = tk_session_id r0 ∧
  tk_wallet_pubkey r = tk_wallet_pubkey r0 ∧
  tk_last_valid_block_height r = tk_last_valid_block_height r0.
Lemma tracked_terms key l r : tracked_record key l = Some r →
  ∃ r0, XTracked key r0 ∈ l ∧ same_terms r0 r.
Proof.
  revert r. induction l as [|x l IH]; [done|]. intros r.
  assert (∀ r, tracked_record key l = Some r → ∃ r0, XTracked key r0 ∈ x :: l ∧ same_terms r0 r) as IH'.
  { intros r' (r0 & ? & ?)%IH. exists r0. split; [by right|done]. }
  assert (∀ f, (∀ r, same_terms r (f r)) → f <$> tracked_record key l = Some r →
    ∃ r0, XTracked key r0 ∈ x :: l ∧ same_terms r0 r) as IHf.
  { intros f Hf (r' & Hr' & ->)%fmap_Some. destruct (IH' _ Hr') as (r0 & Hin & Hst).
    exists r0. split; [done|]. pose proof (Hf r') as Hf'. unfold same_terms in *. intuition congruence. }
  destruct x; cbn [tracked_record]; try exact (IH' r); try done; case_bool_decide; try exact (IH' r); try done.
  - intros [= <-]. subst. exists record. split; [by left|done].
  - apply IHf. intros r'. unfold observe. by case_bool_decide.
  - by apply IHf.
  - by apply IHf.
Qed.

Lemma observe_terms obs h r : same_terms r (observe obs h r).
Proof. unfold observe. by case_bool_decide. Qed.
Lemma observe_submission obs h r :
  tk_submission_block_height (observe obs h r) = tk_submission_block_height r.
Proof. unfold observe. by case_bool_decide. Qed.
Lemma observe_state obs h r : tk_state (observe obs h r) = next_state obs h r.
Proof. unfold observe. by case_bool_decide. Qed.

Definition state_reported key l : Prop := ∀ r, tracked_record key l = Some r →
  tk_state r = outcome (tk_submission_block_height r) (tk_last_valid_block_height r) (reports_since key l).
Lemma log_state_reported l key : log_ok l → state_reported key l.
Proof.
  induction l as [|x l IH]; intros Hl; [done|]. specialize (IH (log_ok_tail _ _ _ Hl)).
  pose proof (log_ok_head _ _ _ Hl) as Hx. intros r.
  destruct x; cbn [tracked_record reports_since]; try exact (IH r); try done;
    case_bool_decide as Hk; try exact (IH r); try done.
  - intros [= <-]. by destruct Hx as (_ & _ & -> & _).
  - intros (r' & Hr' & ->)%fmap_Some. destruct (observe_terms obs height r') as (_ & _ & _ & _ & _ & ->).
    rewrite observe_submission, observe_state, outcome_snoc, <- (IH _ Hr'). done.
  - by intros (r' & Hr' & ->)%fmap_Some.
  - intros (r' & Hr' & ->)%fmap_Some. apply (IH _ Hr').
Qed.

(** C17: the state of a transaction is what the node reported.  Whatever the loop, the
    persister, the handlers, the node, the database and restarts do, in whatever
    order, the state kept for a signature is what the reports on it amount to that
    came in since it was last broadcast: the first error or finality among them,
    else the first confirmation, else expiry or a drop by the heights of the reports
    that did not know it. *)
Theorem tracked_state_reported pl key r :
  track_reachable policy pl → tr_records (tp_state pl) !! key = Some r →
  tk_state r = outcome (tk_submission_block_height r) (tk_last_valid_block_height r)
                 (reports_since key (tr_log (tp_state pl))).
Proof.
  intros Hpl Hr. destruct (track_reachable_ok _ Hpl) as [Hl Hs _ _ _].
  rewrite (sto_records _ _ Hs) in Hr. by apply log_state_reported.
Qed.

Lemma tracked_submission key l r : tracked_record key l = Some r →
  (∃ r0, XTracked key r0 ∈ l ∧ same_terms r0 r ∧
     (tk_submission_block_height r = tk_submission_block_height r0 ∨
      XResent key (tk_submission_block_height r) ∈ l)).
Proof.
  revert r. induction l as [|x l IH]; [done|]. intros r.
  assert (∀ f, (∀ r, same_terms r (f r) ∧ (tk_submission_block_height (f r) = tk_submission_block_height r ∨
      XResent key (tk_submission_block_height (f r)) ∈ x :: l)) →
    f <$> tracked_record key l = Some r →
    ∃ r0, XTracked key r0 ∈ x :: l ∧ same_terms r0 r ∧
     (tk_submission_block_height r = tk_submission_block_height r0 ∨
      XResent key (tk_submission_block_height r) ∈ x :: l)) as IHf.
  { intros f Hf (r' & Hr' & ->)%fmap_Some. destruct (IH _ Hr') as (r0 & Hin & Hst & Hsub).
    exists r0. destruct (Hf r') as [Ht Hfs]. split_and!; [by right| |].
    - unfold same_terms in *. intuition congruence.
    - destruct Hfs as [->|]; [|by right]. destruct Hsub as [|]; [by left|right; by right]. }
  assert (tracked_record key l = Some r → ∃ r0, XTracked key r0 ∈ x :: l ∧ same_terms r0 r ∧
     (tk_submission_block_height r = tk_submission_block_height r0 ∨
      XResent key (tk_submission_block_height r) ∈ x :: l)) as IH'.
  { intros Hr. apply (IHf id); [by split; [|left]|]. by rewrite option_fmap_id. }
  destruct x; cbn [tracked_record]; try exact IH'; try done; case_bool_decide; try exact IH'; try done.
  - intros [= <-]. subst. exists record. split; [by left|by split; [|left]].
  - apply IHf. intros r'. split; [apply observe_terms|left; apply observe_submission].
  - apply IHf. intros r'. split; [done|right]. subst. by apply elem_of_cons; left.
  - apply IHf. intros r'. by split; [|left].
Qed.

(** *** Announcements *)

(** The announcement names the transaction, its wallet and its session. *)
Definition about (r : TrackingRecord) (x : TrackedEvent) : Prop :=
  let session := default 0%N (id_parse (tk_session_id r)) in
  let id := tk_transaction_id r in let wallet := tk_wallet_pubkey r in
  match x with
  | TransactionConfirmed s i w g | TransactionFinalized s i w g | TransactionDropped s i w g
  | TransactionExpired s i w g => (s, i, w, g) = (session, id, wallet, tk_signature r)
  | TransactionExecutionFailed s i w _ => (s, i, w) = (session, id, wallet)
  end.
(** And the node's answer, read at a height, says so. *)
Definition unseen (status : option NodeStatus) : Prop :=
  ∀ s, status = Some s → ns_confirmation_status s = None ∧ ns_err s = None.
Definition borne_out l key (r : TrackingRecord) (height : Z) (status : option NodeStatus)
    (x : TrackedEvent) : Prop :=
  match x with
  | TransactionConfirmed _ _ _ _ => ∃ s c, status = Some s ∧ ns_err s = None ∧
      ns_confirmation_status s = Some c ∧ c ∈ [AtConfirmed; AtFinalized]
  | TransactionFinalized _ _ _ _ => ∃ s, status = Some s ∧ ns_err s = None ∧
      ns_confirmation_status s = Some AtFinalized
  | TransactionExecutionFailed _ _ _ e => ∃ s, status = Some s ∧ ns_err s = Some e
  | TransactionDropped _ _ _ _ => unseen status ∧ height ≤ tk_last_valid_block_height r ∧
      ∃ sent, (sent = tk_submission_block_height r ∨ XResent key sent ∈ l) ∧
        DROPPED_GRACE_BLOCKS ≤ height - sent
  | TransactionExpired _ _ _ _ => unseen status ∧ tk_last_valid_block_height r < height
  end.

Lemma observation_unseen status :
  ob_status (status_to_observation status) = None → ob_err (status_to_observation status) = None →
  unseen status.
Proof. intros Hs He s ->. cbn in *. by destruct (ns_confirmation_status s). Qed.
Lemma observation_seen status t : ob_status (status_to_observation status) = Some t →
  ∃ s c, status = Some s ∧ ns_confirmation_status s = Some c ∧ t = commitment_text c ∧
    ns_err s = ob_err (status_to_observation status).
Proof.
  destruct status as [s|]; [|done]. cbn. destruct (ns_confirmation_status s) as [c|] eqn:Hc; [|done].
  intros [= <-]. by exists s, c.
Qed.

(** What a change to each state takes. *)
Lemma next_state_spec r status height s :
  next_state (status_to_observation status) height r = s → s ≠ tk_state r →
  match s with
  | Submitted => False
  | Confirmed _ => ∃ st, status = Some st ∧ ns_err st = None ∧ ns_confirmation_status st = Some AtConfirmed
  | Finalized _ => ∃ st, status = Some st ∧ ns_err st = None ∧ ns_confirmation_status st = Some AtFinalized
  | Failed e => ∃ st, status = Some st ∧ ns_err st = Some e
  | Dropped => unseen status ∧ height ≤ tk_last_valid_block_height r ∧
      DROPPED_GRACE_BLOCKS ≤ height - tk_submission_block_height r
  | Expired => unseen status ∧ tk_last_valid_block_height r < height
  end.
Proof.
  intros <-. unfold next_state, calculate_next_state.
  destruct (match tk_state r with Finalized _ | Failed _ => true | _ => false end) eqn:Hset.
  { by destruct (tk_state r). }
  destruct (ob_err (status_to_observation status)) as [e|] eqn:He.
  { intros _. assert (∃ st, status = Some st ∧ ns_err st = Some e) as Hst
      by (destruct status as [st|]; [by exists st|done]). by destruct (tk_state r). }
  destruct (ob_status (status_to_observation status)) as [t|] eqn:Ht.
  - apply observation_seen in Ht as (st & c & -> & Hc & -> & Herr). rewrite He in Herr.
    assert (ns_confirmation_status st = Some c) as Hc' by done.
    destruct c; cbn [commitment_text]; repeat rewrite ?bool_decide_eq_true_2, ?bool_decide_eq_false_2 by done;
      destruct (tk_state r); cbn; try done; intros _; by exists st.
  - pose proof (observation_unseen _ Ht He) as Hu. unfold DROPPED_GRACE_BLOCKS.
    destruct (tk_state r); try done; destruct (Z.ltb_spec (tk_last_valid_block_height r) height); try done;
      destruct (Z.leb_spec 50 (Z.max 0 (height - tk_submission_block_height r))); try done;
      intros _; split_and!; first [done|lia].
Qed.

(** C16: an announcement rests on the node's word about that transaction.  When the
    persister publishes that a transaction was confirmed, finalized, failed, was
    dropped or expired, then on record are: the transaction tracked under the wallet,
    session and id that the announcement names; a block height read from the node;
    and the node's answer to a question about this signature that says so, at that
    height. *)
Theorem announcement_reported pl signature x l0 :
  track_reachable policy pl → XPublished signature x :: l0 `suffix_of` tr_log (tp_state pl) →
  ∃ key r height sigs statuses i, sig_text key = signature ∧ XTracked key r ∈ l0 ∧ about r x ∧
    XHeight height ∈ l0 ∧ XStatuses sigs statuses ∈ l0 ∧ sigs !! i = Some key ∧
    borne_out l0 key r height (mjoin (statuses !! i)) x.
Proof.
  intros Hpl Hs. destruct (track_reachable_ok _ Hpl) as [Hl _ _ _ _].
  destruct (Hl _ _ Hs) as (c & (key & obs & height & Hc) & Hsig & Hx).
  assert (log_ok l0) as Hl0 by (intros y l1 Hy; apply Hl; etransitivity; [exact Hy|];
    etransitivity; [|exact Hs]; by apply suffix_cons_r).
  destruct (log_before _ _ _ Hl0 Hc) as (l1 & Hs1 & (Hh & sigs & statuses & i & Hst & Hi & ->) & r & Hr & Hch).
  assert (l1 `suffix_of` l0) as Hsuf by (etransitivity; [|exact Hs1]; by apply suffix_cons_r).
  destruct (tracked_submission _ _ _ Hr) as (r0 & Hr0 & Hterms & Hsub).
  destruct (log_before _ _ _ Hl0 (elem_of_suffix _ _ _ Hr0 Hsuf)) as (l2 & _ & _ & Hname & _).
  unfold change_on in Hch. case_bool_decide as Hne; [done|]. injection Hch as ->.
  exists key, r0, height, sigs, statuses, i.
  pose proof (next_state_spec _ _ _ _ eq_refl Hne) as Hspec.
  destruct Hterms as (E1 & E2 & E3 & E4 & E5 & E6). cbn [sc_signature change_of] in Hsig. subst signature.
  split_and!; [congruence|by eapply elem_of_suffix| |by eapply elem_of_suffix..|done|].
  - unfold announcements in Hx. cbn [change_of sc_to sc_session_id sc_transaction_id sc_wallet_pubkey sc_signature] in Hx.
    destruct (next_state _ _ _); rewrite ?elem_of_cons, ?elem_of_nil in Hx; destruct_or? Hx; try done;
      subst x; cbn [about]; by rewrite ?E1, ?E2, ?E4, ?E5.
  - unfold announcements in Hx. cbn [change_of sc_to sc_session_id sc_transaction_id sc_wallet_pubkey sc_signature] in Hx.
    destruct (next_state _ _ _); rewrite ?elem_of_cons, ?elem_of_nil in Hx; destruct_or? Hx; try done;
      subst x; cbn [borne_out]; rewrite <- ?E6; try done.
    + destruct Hspec as (? & ? & ?). split_and!; try done. exists (tk_submission_block_height r).
      split; [|done]. destruct Hsub as [->|]; [by left|right; by eapply elem_of_suffix].
    + destruct Hspec as (st & ? & ? & ?). exists st, AtConfirmed. split_and!; try done. by left.
    + destruct Hspec as (st & ? & ? & ?). exists st, AtFinalized. split_and!; try done. right. by left.
Qed.

(** C18: A transaction is broadcast again at most as often as the policy allows.  Since
    its signature was last added to the tracker, at most [max_retries] broadcasts of
    it were attempted, whether or not they succeeded. *)
Theorem broadcasts_bounded pl key :
  track_reachable policy pl → sends_since key (tr_log (tp_state pl)) ≤ max_retries policy.
Proof.
  intros Hpl. destruct (track_reachable_ok _ Hpl) as [Hl _ _ _ _]. destruct Hlim as [Hpos _].
  induction (tr_log (tp_state pl)) as [|x l IH]; [done|]. specialize (IH (log_ok_tail _ _ _ Hl)).
  pose proof (log_ok_head _ _ _ Hl) as Hx. destruct x; cbn [sends_since]; try done; case_bool_decide; try done.
  subst. destruct Hx as (r & _ & _ & Hn & Hc). lia.
Qed.

(** Nothing is tracked that a restart would lose: a signature that the tracker holds
    in memory has its row in the table, under the text that the record carries. *)
Theorem tracked_has_row pl key r :
  track_reachable policy pl → tr_records (tp_state pl) !! key = Some r →
  tk_signature r = sig_text key ∧ is_Some (tr_rows (tp_state pl) !! tk_signature r).
Proof.
  intros Hpl Hr. destruct (track_reachable_ok _ Hpl) as [Hl Hs _ _ _].
  rewrite (sto_records _ _ Hs) in Hr. destruct (tracked_terms _ _ _ Hr) as (r0 & Hr0 & Hsig & _).
  destruct (log_before _ _ _ Hl Hr0) as (l1 & Hs1 & Hrow & Hname & _). rewrite Hsig, Hname.
  split; [done|]. apply (sto_rows _ _ Hs). eapply elem_of_suffix; [exact Hrow|].
  etransitivity; [|exact Hs1]. by apply suffix_cons_r.
Qed.

(** A transaction that failed or is final is left alone: no report changes it, and it
    is not broadcast again. *)
Lemma settled_untouched pl x l0 key r :
  track_reachable policy pl → x :: l0 `suffix_of` tr_log (tp_state pl) →
  tracked_record key l0 = Some r → is_terminal (tk_state r) = true → tk_state r ≠ Expired →
  x ≠ XTried key ∧ (∀ h, x ≠ XResent key h) ∧ (∀ obs h c, x ≠ XObserved key obs h (Some c)).
Proof.
  intros Hpl Hs Hr Hterm Hexp. destruct (track_reachable_ok _ Hpl) as [Hl _ _ _ _].
  pose proof (Hl _ _ Hs) as Hx. split_and!.
  - intros ->. destruct Hx as (r' & Hr' & Hst & _). rewrite Hr in Hr'. injection Hr' as <-.
    by destruct Hst as [E|E]; rewrite E in Hterm.
  - intros h ->. destruct Hx as (r' & Hr' & Hst & _). rewrite Hr in Hr'. injection Hr' as <-.
    by destruct Hst as [E|E]; rewrite E in Hterm.
  - intros obs h c ->. destruct Hx as (_ & r' & Hr' & Hc). rewrite Hr in Hr'. injection Hr' as <-.
    unfold change_on, next_state, calculate_next_state in Hc.
    destruct (tk_state r); try done; by rewrite bool_decide_eq_true_2 in Hc.
Qed.
End pool.
End safety.

(** * Runs of the tracker

    A transaction that is dropped, broadcast again, confirmed and finalized; the
    witnesses of the tracker's properties; and what restarts and repeated changes do. *)

#[local] Existing Instance SigningRuns.sdk_model.
#[local] Instance run_texts : TrackTexts := {|
  sig_text s := bytes_str s;
  sig_parse t := Some (str_bytes t);
  id_text u := fmt (Z.of_N u);
  id_parse t := match parse_u64 t with Ok n => Some (Z.to_N n) | Err _ => None end
|}.

(** ** Schedules *)
Inductive Act :=
| Tick (counter : Z)
| Receive
| Submit (n : nat) (signature : Signature) (id : Uuid) (last_valid submission : Z) (bytes : list byte)
| Loop (fuel : nat) (env : TrackEnv)
| Persist (fuel : nat) (env : TrackEnv)
| Handle (n fuel : nat) (env : TrackEnv)
| Crash.

Section schedules.
Context (policy : RetryPolicy).

(** A program runs until it ends or its fuel is spent. *)
Fixpoint go (fuel : nat) (env : TrackEnv) (p : TProg unit) (st : TrackState) : TProg unit * TrackState :=
  match fuel, p with
  | S fuel, Vis e k => let '(a, st) := track_event policy env e st in go fuel env (k a) st
  | _, _ => (p, st)
  end.
Definition act (a : Act) (pl : TrackPool) : TrackPool :=
  let '(MkPool lo pe hs st) := pl in
  match a with
  | Tick counter => match lo with Ret tt => MkPool (tick counter) pe hs st | _ => pl end
  | Receive =>
      match pe, st with
      | Ret tt, MkTrack m (c :: queue) rows l => MkPool lo (handle_change c) hs (MkTrack m queue rows l)
      | _, _ => pl
      end
  | Submit n signature id last_valid submission bytes =>
      match hs !! n with
      | None => MkPool lo pe (<[n := track_submitted signature id id "7" "W" last_valid submission bytes]> hs) st
      | Some _ => pl
      end
  | Loop fuel env => let '(p, st) := go fuel env lo st in MkPool p pe hs st
  | Persist fuel env => let '(p, st) := go fuel env pe st in MkPool lo p hs st
  | Handle n fuel env =>
      match hs !! n with
      | Some p => let '(p, st) := go fuel env p st in MkPool lo pe (<[n := p]> hs) st
      | None => pl
      end
  | Crash => MkPool recover (Ret tt) ∅ (restarted st)
  end.
Definition fair (a : Act) : Prop :=
  match a with Loop _ env | Persist _ env | Handle _ _ env => env_fair env | _ => True end.

Lemma track_go_reachable fuel env p st (f : TProg unit → TrackState → TrackPool) :
  (∀ e k st a st', track_event policy env e st = (a, st') →
     track_step policy (f (Vis e k) st) (f (k a) st')) →
  track_reachable policy (f p st) →
  track_reachable policy (f (go fuel env p st).1 (go fuel env p st).2).
Proof.
  intros Hf. revert p st. induction fuel as [|fuel IH]; intros p st Hr; [done|].
  destruct p as [u|e k]; cbn [go]; [done|].
  destruct (track_event policy env e st) as [a st'] eqn:He. apply IH.
  eapply track_more; [exact Hr|by apply Hf].
Qed.

Lemma act_reachable a pl : fair a → track_reachable policy pl → track_reachable policy (act a pl).
Proof.
  intros Hf Hr. destruct pl as [lo pe hs st]. destruct a; cbn [act].
  - destruct lo as [[]|]; [|done]. eapply track_more; [exact Hr|constructor].
  - destruct pe as [[]|], st as [m [|c queue] rows l]; try done. eapply track_more; [exact Hr|constructor].
  - destruct (hs !! n) eqn:Hn; [done|]. eapply track_more; [exact Hr|by constructor].
  - pose proof (track_go_reachable fuel env lo st (λ p st, MkPool p pe hs st)) as Hgo.
    destruct (go fuel env lo st). apply Hgo; [|done]. intros. by econstructor.
  - pose proof (track_go_reachable fuel env pe st (λ p st, MkPool lo p hs st)) as Hgo.
    destruct (go fuel env pe st). apply Hgo; [|done]. intros. by econstructor.
  - destruct (hs !! n) as [p|] eqn:Hn; [|done].
    pose proof (track_go_reachable fuel env p st (λ p st, MkPool lo pe (<[n := p]> hs) st)) as Hgo.
    destruct (go fuel env p st). apply Hgo; [|by rewrite insert_id].
    intros e k s a s' He.
    replace (<[n := k a]> hs) with (<[n := k a]> (<[n := Vis e k]> hs)) by apply insert_insert_eq.
    eapply handler_runs; [by rewrite lookup_insert_eq|done|done].
  - eapply track_more; [exact Hr|constructor].
Qed.

Definition begun : TrackPool := MkPool recover (Ret tt) ∅ (MkTrack ∅ [] ∅ []).
Definition acts (l : list Act) : TrackPool := foldl (λ pl a, act a pl) begun l.
Lemma track_acts_reachable l : Forall fair l → track_reachable policy (acts l).
Proof.
  intros Hl. unfold acts. assert (track_reachable policy begun) as Hb by constructor.
  revert Hb. generalize begun. induction Hl as [|a l Ha Hl IH]; intros pl Hpl; [done|].
  cbn [foldl]. apply IH. by apply act_reachable.
Qed.
End schedules.

(** ** The runs *)
Definition signature : Signature := replicate 64 (byte_of 83).
Definition tx_bytes : list byte :=
  match tx_to_bytes (SigningRuns.agent_tx 10) with Ok bs => bs | Err _ => [] end.
Definition node (height : Z) (status : option NodeStatus) : TrackEnv :=
  MkTrackEnv (Some height) (λ sigs, Some (map (λ _, status) sigs)) (Ok tt) (Ok height) None
    [signature] (λ rows, rows).
Definition at_level (c : Commitment) (slot : Z) : option NodeStatus := Some (MkStatus (Some c) None slot).

Definition submitted : list Act :=
  [Loop 10 (node 100 None); Submit 0 signature 5%N 250 100 tx_bytes; Handle 0 10 (node 100 None)].
(** Not seen for fifty blocks: dropped, and broadcast again. *)
Definition resent : list Act :=
  submitted ++ [Tick 30; Loop 40 (node 160 None); Receive; Persist 10 (node 160 None)].
(** Then confirmed, and final. *)
Definition finalized : list Act :=
  resent ++ [Tick 60; Loop 40 (node 165 (at_level AtConfirmed 9)); Receive; Persist 10 (node 165 None);
             Tick 90; Loop 12 (node 170 (at_level AtFinalized 9)); Receive; Persist 10 (node 170 None)].

Lemma node_fair height status : env_fair (node height status).
Proof. split; [by repeat constructor; intros ?%not_elem_of_nil|done]. Qed.
Ltac fair := repeat (apply Forall_cons_2; [first [apply node_fair|exact I]|]); apply Forall_nil_2.
Lemma submitted_fair : Forall fair submitted.
Proof. fair. Qed.
Lemma resent_fair : Forall fair resent.
Proof. apply Forall_app; split; [apply submitted_fair|]. fair. Qed.
Lemma finalized_fair : Forall fair finalized.
Proof. apply Forall_app; split; [apply resent_fair|]. fair. Qed.

Definition pool_after (l : list Act) : TrackPool := acts default_retry_policy l.
Definition log_after (l : list Act) : TrackLog := tr_log (tp_state (pool_after l)).
Definition published (l : TrackLog) : list TrackedEvent :=
  rev (omap (λ x, match x with XPublished _ x => Some x | _ => None end) l).

(** The text of a signature determines it. *)
Lemma texts_parse text key : sig_parse text = Some key → text = sig_text key.
Proof. intros [= <-]. symmetry. apply String.string_of_list_byte_of_string. Qed.
Lemma default_policy_u32 : is_u 32 (max_retries default_retry_policy).
Proof. done. Qed.
Lemma run_reachable l : Forall fair l → track_reachable default_retry_policy (pool_after l).
Proof. apply track_acts_reachable. Qed.

Definition tracked_after (l : list Act) : TrackingRecord :=
  default (with_bytes "" 0%N 0%N "" "" 0 0 None) (tr_records (tp_state (pool_after l)) !! signature).
Lemma resent_tracked :
  tr_records (tp_state (pool_after resent)) !! signature = Some (tracked_after resent).
Proof. by vm_compute. Qed.
Lemma finalized_log : head (log_after finalized) =
  Some (XPublished (sig_text signature) (TransactionFinalized 7%N 5%N "W" (sig_text signature))).
Proof. by vm_compute. Qed.

Lemma tracked_state_reported_witness :
  track_reachable default_retry_policy (pool_after resent) ∧
  tk_retry_count (tracked_after resent) = 1 ∧
  tk_state (tracked_after resent) =
    outcome (tk_submission_block_height (tracked_after resent))
      (tk_last_valid_block_height (tracked_after resent))
      (reports_since signature (tr_log (tp_state (pool_after resent)))).
Proof.
  split; [apply run_reachable, resent_fair|]. split; [by vm_compute|].
  eapply (tracked_state_reported default_retry_policy default_policy_u32 texts_parse);
    [apply run_reachable, resent_fair|exact resent_tracked].
Defined.

Lemma announcement_reported_witness :
  track_reachable default_retry_policy (pool_after finalized) ∧
  ∃ key r height sigs statuses i, sig_text key = sig_text signature ∧
    XTracked key r ∈ tail (log_after finalized) ∧
    about r (TransactionFinalized 7%N 5%N "W" (sig_text signature)) ∧
    XHeight height ∈ tail (log_after finalized) ∧ XStatuses sigs statuses ∈ tail (log_after finalized) ∧
    sigs !! i = Some key ∧
    borne_out (tail (log_after finalized)) key r height (mjoin (statuses !! i))
      (TransactionFinalized 7%N 5%N "W" (sig_text signature)).
Proof.
  split; [apply run_reachable, finalized_fair|].
  eapply (announcement_reported default_retry_policy default_policy_u32 texts_parse (pool_after finalized));
    [apply run_reachable, finalized_fair|]. apply SigningRuns.head_suffix. exact finalized_log.
Defined.

Lemma broadcasts_bounded_witness :
  track_reachable default_retry_policy (pool_after resent) ∧
  sends_since signature (log_after resent) = 1 ∧ sends_since signature (log_after resent) ≤ 3.
Proof.
  split; [apply run_reachable, resent_fair|]. split; [by vm_compute|].
  apply (broadcasts_bounded default_retry_policy default_policy_u32 texts_parse (pool_after resent)).
  apply run_reachable, resent_fair.
Defined.

Lemma tracked_has_row_witness :
  track_reachable default_retry_policy (pool_after resent) ∧
  tk_signature (tracked_after resent) = sig_text signature ∧
  is_Some (tr_rows (tp_state (pool_after resent)) !! tk_signature (tracked_after resent)).
Proof.
  split; [apply run_reachable, resent_fair|].
  apply (tracked_has_row default_retry_policy default_policy_u32 texts_parse);
    [apply run_reachable, resent_fair|exact resent_tracked].
Defined.

(** ** What the runs show *)

(** A transaction that is confirmed and then final is announced as confirmed twice: the
    flag in the table is written before each announcement, never read. *)
Lemma confirmed_announced_twice : published (log_after finalized) =
  let named (f : Uuid → Uuid → string → string → TrackedEvent) := f 7%N 5%N "W" (sig_text signature) in
  [named TransactionDropped; named TransactionConfirmed; named TransactionConfirmed;
   named TransactionFinalized].
Proof. by vm_compute. Qed.

(** The return to submitted is not written to the table. *)
Definition row_state (l : list Act) : option string :=
  rw_state <$> tr_rows (tp_state (pool_after l)) !! sig_text signature.
Lemma resent_row_stale :
  tk_state (tracked_after resent) = Submitted ∧ row_state resent = Some "dropped".
Proof. by vm_compute. Qed.

(** Recovery compares slots with block heights: a transaction sent at block height 100
    and valid up to 250 is written off when the node is at slot 5000, though its
    height may be 101; a confirmed one too. *)
Definition confirmed_row : list Act :=
  submitted ++ [Tick 30; Loop 40 (node 101 (at_level AtConfirmed 9)); Receive; Persist 10 (node 101 None)].
Definition recovered (l : list Act) (slot : Z) : list Act := l ++ [Crash; Loop 20 (node slot None)].
Lemma live_row_expired :
  row_state submitted = Some "submitted" ∧ row_state (recovered submitted 5000) = Some "expired" ∧
  tr_records (tp_state (pool_after (recovered submitted 5000))) = ∅ ∧
  row_state confirmed_row = Some "confirmed" ∧ row_state (recovered confirmed_row 5000) = Some "expired".
Proof. by vm_compute. Qed.
(** Within the window it is tracked again, without the bytes to broadcast. *)
Lemma recovered_tracked :
  tr_records (tp_state (pool_after (recovered submitted 120))) !! signature =
    Some (with_bytes (sig_text signature) 5%N 5%N "7" "W" 250 100 None).
Proof. by vm_compute. Qed.
