(* ===== verification/LendingPolicy.v ===== *)
(** * The policy of lending actions

    gateway/lending: the snapshot of an obligation with its reserves and oracle feeds,
    the gate on its owner and protocol, the five rules in their order, and the
    budget of deposits with its decimal amounts. *)
From S2P Require Import Prelude WatcherBase RustText Solana OrderDraft DraftFacts.
#[local] Open Scope string_scope.
#[local] Open Scope Z_scope.

(** ** The snapshot (types.rs, snapshot.rs), units by their constructors *)
Record UnderlyingAmount := MkUnderlying { underlying_raw : Z }.
Record CollateralTokenAmount := MkCollateral { collateral_raw : Z }.
Record WadAmount := MkWad { wad_raw : Z }.
Record ChainSlot := MkSlot { slot_raw : Z }.
Record DurationMs := MkDuration { duration_raw : Z }.
Definition slots_since (later earlier : ChainSlot) : Z := Z.max 0 (slot_raw later - slot_raw earlier).

Inductive ProtocolTag := Solend.
Inductive StaleMarker := Fresh | Stale.
Inductive OracleProvider := PythSolanaReceiver | SwitchboardOnDemand | UnknownProvider.
Inductive FeedPublishFreshness := KnownSlot (s : ChainSlot) | UnknownPublish.
#[export] Instance protocol_tag_eq_dec : EqDecision ProtocolTag.
Proof. solve_decision. Defined.
#[export] Instance stale_marker_eq_dec : EqDecision StaleMarker.
Proof. solve_decision. Defined.

Record OracleFeed := MkFeed {
  of_identifier : Pubkey;
  of_provider : OracleProvider;
  of_publish : FeedPublishFreshness;
  of_fetch : ChainSlot
}.
Record OracleFeedSet := MkFeedSet { fs_priced_asset : Pubkey; fs_feeds : list OracleFeed }.
Record ObligationDeposit := MkDeposit { od_reserve : Pubkey; od_deposited : CollateralTokenAmount }.
Record ObligationBorrow := MkBorrow { ob_reserve : Pubkey; ob_borrowed_wads : WadAmount }.
Record Obligation := MkObligation {
  ol_identifier : Pubkey;
  ol_owner : Pubkey;
  ol_protocol_last_updated_slot : ChainSlot;
  ol_protocol_native_stale : StaleMarker;
  ol_deposits : list ObligationDeposit;
  ol_borrows : list ObligationBorrow;
  ol_freshness : ChainSlot
}.
Record Reserve := MkReserve {
  rv_identifier : Pubkey;
  rv_mint : Pubkey;
  rv_mint_decimals : Z;
  rv_protocol_last_updated_slot : ChainSlot;
  rv_protocol_native_stale : StaleMarker;
  rv_freshness : ChainSlot;
  rv_liquidity_supply_pubkey : Pubkey;
  rv_collateral_mint_pubkey : Pubkey;
  rv_collateral_supply_pubkey : Pubkey;
  rv_available_underlying : UnderlyingAmount
}.
Record LendingSnapshot := MkSnapshot {
  sn_protocol_tag : ProtocolTag;
  sn_session_wallet : Pubkey;
  sn_fetched_at : ChainSlot;
  sn_obligation : Obligation;
  sn_reserves : list Reserve;
  sn_oracles : list OracleFeedSet
}.

(** ** Actions and configuration (policy.rs) *)
Inductive ProposedAction :=
| Deposit (protocol : ProtocolTag) (reserve_mint : Pubkey) (amount : UnderlyingAmount)
| Repay (protocol : ProtocolTag) (reserve_mint : Pubkey) (amount : UnderlyingAmount)
| Withdraw (protocol : ProtocolTag) (reserve_mint : Pubkey) (collateral : CollateralTokenAmount).
Inductive ActionKind := KDeposit | KRepay | KWithdraw.

Definition protocol (a : ProposedAction) : ProtocolTag :=
  match a with Deposit p _ _ | Repay p _ _ | Withdraw p _ _ => p end.
Definition reserve_mint (a : ProposedAction) : Pubkey :=
  match a with Deposit _ m _ | Repay _ m _ | Withdraw _ m _ => m end.
Definition amount_underlying (a : ProposedAction) : option UnderlyingAmount :=
  match a with Deposit _ _ n | Repay _ _ n => Some n | Withdraw _ _ _ => None end.
Definition collateral_amount (a : ProposedAction) : option CollateralTokenAmount :=
  match a with Withdraw _ _ n => Some n | _ => None end.
Definition amount_raw (a : ProposedAction) : Z :=
  match a with
  | Deposit _ _ n | Repay _ _ n => underlying_raw n
  | Withdraw _ _ n => collateral_raw n
  end.
Definition kind (a : ProposedAction) : ActionKind :=
  match a with Deposit _ _ _ => KDeposit | Repay _ _ _ => KRepay | Withdraw _ _ _ => KWithdraw end.

Record EvaluationContext := MkContext { session_wallet : Pubkey }.
Record MaxActionInputAmountConfig := MkCaps {
  per_mint_caps : list (Pubkey * UnderlyingAmount);
  per_mint_collateral_caps : list (Pubkey * CollateralTokenAmount)
}.
Record LendingRuleConfig := MkRules {
  max_fetch_age : DurationMs;
  max_publish_age : DurationMs;
  protocol_allowlist : list ProtocolTag;
  mint_allowlist : list Pubkey;
  max_action_input : MaxActionInputAmountConfig
}.

Inductive SystemInvariantSubreason := OwnerMismatch | ProtocolTagMismatch.
Inductive ScopeBoundarySubreason : Set := .
Inductive RuleKind :=
| RequireFreshState | MaxOracleStalenessMs | AllowedLendingProtocols | AllowedMints
| MaxActionInputAmount.
Inductive RuleRejectionDetail :=
| ProtocolNativeStale | FetchAgeExceeded | OracleFeedSetEmpty | OraclePublishFreshnessUnknown
| OraclePublishAgeExceeded | ProtocolNotAllowed | MintNotAllowed | ReserveNotInSnapshot
| RepayWithoutDebt | WithdrawWithoutDeposit | WithdrawWithDebt | NoCapConfigured | AmountOverCap.
Inductive HardBlockReason :=
| SystemInvariantFailed (s : SystemInvariantSubreason)
| ScopeBoundary (s : ScopeBoundarySubreason)
| RuleRejected (k : RuleKind) (d : RuleRejectionDetail).
Inductive LendingPolicyVerdict := Pass | HardBlock (r : HardBlockReason).

(** ** The gate (gate.rs) *)
Inductive SystemInvariantError :=
| GateOwnerMismatch (snapshot_owner session_wallet : Pubkey)
| GateProtocolTagMismatch (snapshot expected : ProtocolTag).
Definition check_system_invariants (snapshot : LendingSnapshot) (expected_session_wallet : Pubkey)
    (expected_protocol : ProtocolTag) : Result SystemInvariantError unit :=
  _ ← throw_if (bool_decide (sn_protocol_tag snapshot ≠ expected_protocol))
        (GateProtocolTagMismatch (sn_protocol_tag snapshot) expected_protocol);
  throw_if (bool_decide (ol_owner (sn_obligation snapshot) ≠ expected_session_wallet))
    (GateOwnerMismatch (ol_owner (sn_obligation snapshot)) expected_session_wallet).
Definition subreason_of (e : SystemInvariantError) : SystemInvariantSubreason :=
  match e with
  | GateOwnerMismatch _ _ => OwnerMismatch
  | GateProtocolTagMismatch _ _ => ProtocolTagMismatch
  end.

(** ** The rules *)
Definition CONSERVATIVE_SLOT_MS : Z := 400.
Definition max_slots (d : DurationMs) : Z := duration_raw d / CONSERVATIVE_SLOT_MS.

(** [for x in l { f(x)?; }] *)
Fixpoint each {A E} (f : A → Result E unit) (l : list A) : Result E unit :=
  match l with [] => Ok tt | x :: l => _ ← f x; each f l end.

Definition require_fresh_state (snapshot : LendingSnapshot) (max_age : DurationMs) :
    Result RuleRejectionDetail unit :=
  _ ← throw_if (bool_decide (ol_protocol_native_stale (sn_obligation snapshot) = Stale)) ProtocolNativeStale;
  _ ← each (λ r, throw_if (bool_decide (rv_protocol_native_stale r = Stale)) ProtocolNativeStale)
        (sn_reserves snapshot);
  let snapshot_slot := sn_fetched_at snapshot in
  let obl_age := slots_since snapshot_slot (ol_freshness (sn_obligation snapshot)) in
  _ ← throw_if (max_slots max_age <? obl_age) FetchAgeExceeded;
  each (λ r, throw_if (max_slots max_age <? slots_since snapshot_slot (rv_freshness r)) FetchAgeExceeded)
    (sn_reserves snapshot).

Definition fresh_feed (snapshot_slot : ChainSlot) (max_age : DurationMs) (feed : OracleFeed) :
    Result RuleRejectionDetail unit :=
  match of_publish feed with
  | KnownSlot s => throw_if (max_slots max_age <? slots_since snapshot_slot s) OraclePublishAgeExceeded
  | UnknownPublish => Err OraclePublishFreshnessUnknown
  end.
Definition max_oracle_staleness (snapshot : LendingSnapshot) (action : ProposedAction)
    (max_age : DurationMs) : Result RuleRejectionDetail unit :=
  set ← ok_or (find (λ s, bool_decide (fs_priced_asset s = reserve_mint action)) (sn_oracles snapshot))
          OracleFeedSetEmpty;
  _ ← throw_if (bool_decide (length (fs_feeds set) = 0%nat)) OracleFeedSetEmpty;
  each (fresh_feed (sn_fetched_at snapshot) max_age) (fs_feeds set).

Definition allowed_lending_protocols (action : ProposedAction) (allowlist : list ProtocolTag) :
    Result RuleRejectionDetail unit :=
  if bool_decide (protocol action ∈ allowlist) then Ok tt else Err ProtocolNotAllowed.

Definition has_debt (o : Obligation) (reserve : Pubkey) : bool :=
  existsb (λ b, bool_decide (ob_reserve b = reserve)) (ol_borrows o).
Definition has_deposit (o : Obligation) (reserve : Pubkey) : bool :=
  existsb (λ d, bool_decide (od_reserve d = reserve) && (0 <? collateral_raw (od_deposited d))) (ol_deposits o).
Definition has_any_borrow (o : Obligation) : bool :=
  existsb (λ b, 0 <? wad_raw (ob_borrowed_wads b)) (ol_borrows o).
Definition allowed_mints (snapshot : LendingSnapshot) (action : ProposedAction) (allowlist : list Pubkey) :
    Result RuleRejectionDetail unit :=
  let mint := reserve_mint action in
  _ ← throw_if (negb (bool_decide (mint ∈ allowlist))) MintNotAllowed;
  reserve ← ok_or (find (λ r, bool_decide (rv_mint r = mint)) (sn_reserves snapshot)) ReserveNotInSnapshot;
  match kind action with
  | KDeposit => Ok tt
  | KRepay => throw_if (negb (has_debt (sn_obligation snapshot) (rv_identifier reserve))) RepayWithoutDebt
  | KWithdraw =>
      _ ← throw_if (negb (has_deposit (sn_obligation snapshot) (rv_identifier reserve))) WithdrawWithoutDeposit;
      throw_if (has_any_borrow (sn_obligation snapshot)) WithdrawWithDebt
  end.

Definition max_action_input_amount (action : ProposedAction) (config : MaxActionInputAmountConfig) :
    Result RuleRejectionDetail unit :=
  let mint := reserve_mint action in
  match action with
  | Deposit _ _ amount | Repay _ _ amount =>
      match find (λ c, bool_decide (c.1 = mint)) (per_mint_caps config) with
      | None => Err NoCapConfigured
      | Some (_, cap) => throw_if (underlying_raw cap <? underlying_raw amount) AmountOverCap
      end
  | Withdraw _ _ collateral =>
      match find (λ c, bool_decide (c.1 = mint)) (per_mint_collateral_caps config) with
      | None => Err NoCapConfigured
      | Some (_, cap) => throw_if (collateral_raw cap <? collateral_raw collateral) AmountOverCap
      end
  end.

(** [if let Err(detail) = rule { return HardBlock(..); }] *)
Definition or_block (k : RuleKind) (r : Result RuleRejectionDetail unit) (next : LendingPolicyVerdict) :
    LendingPolicyVerdict :=
  match r with Err detail => HardBlock (RuleRejected k detail) | Ok _ => next end.
Definition evaluate_lending_policy (snapshot : LendingSnapshot) (action : ProposedAction)
    (config : LendingRuleConfig) (context : EvaluationContext) : LendingPolicyVerdict :=
  match check_system_invariants snapshot (session_wallet context) (protocol action) with
  | Err e => HardBlock (SystemInvariantFailed (subreason_of e))
  | Ok _ =>
      or_block RequireFreshState (require_fresh_state snapshot (max_fetch_age config)) (
      or_block MaxOracleStalenessMs (max_oracle_staleness snapshot action (max_publish_age config)) (
      or_block AllowedLendingProtocols (allowed_lending_protocols action (protocol_allowlist config)) (
      or_block AllowedMints (allowed_mints snapshot action (mint_allowlist config)) (
      or_block MaxActionInputAmount (max_action_input_amount action (max_action_input config)) Pass))))
  end.

(** ** The budget of deposits (risk_budget.rs) *)
Inductive RiskBudgetParseError :=
| EmptyAmountString
| InvalidCharacter (c : Char)
| MultipleDecimalPoints (s : string)
| TooManyFractionalDigits (got : Z) (max : Z)
| RiskOverflow (ui : string) (decimals : Z).

Definition char_digit (c : Char) : bool := (48 <=? c.1) && (c.1 <=? 57).
(** [ui.matches('.').count()] and [ui.splitn(2, '.')] *)
Definition count_dots (l : list byte) : nat := length (List.filter (λ b, bool_decide (b = Byte.x2e)) l).
Fixpoint split_once_dot (piece l : list byte) : list byte * list byte :=
  match l with
  | [] => (piece, [])
  | b :: l => if bool_decide (b = Byte.x2e) then (piece, l) else split_once_dot (piece ++ [b])%list l
  end.
(** [while s.len() < n { s.push('0'); }] *)
Definition pad_zeros (n : nat) (l : list byte) : list byte := (l ++ replicate (n - length l) Byte.x30)%list.
(** A decimal number of 128 bits; nothing is zero. *)
Definition u128_or_zero (l : list byte) : Result IntErrorKind Z :=
  match l with [] => Ok 0 | _ => from_str_radix 128 10 l end.

Definition parse_ui_decimal_to_raw (ui : string) (decimals : Z) : Result RiskBudgetParseError Z :=
  let l := str_bytes ui in
  let overflow := RiskOverflow ui decimals in
  _ ← throw_if (bool_decide (l = [])) EmptyAmountString;
  _ ← throw_if (1 <? count_dots l)%nat (MultipleDecimalPoints ui);
  let '(int_part, frac_part) := split_once_dot [] l in
  _ ← each (λ c, throw_if (negb (char_digit c)) (InvalidCharacter c)) (chars int_part ++ chars frac_part);
  _ ← throw_if (decimals <? Z.of_nat (length frac_part))
        (TooManyFractionalDigits (Z.of_nat (length frac_part)) decimals);
  let padded_frac := pad_zeros (Z.to_nat decimals) frac_part in
  int_value ← map_err (λ _, overflow) (u128_or_zero int_part);
  frac_value ← map_err (λ _, overflow) (u128_or_zero padded_frac);
  factor ← ok_or (checked_u 128 (10 ^ decimals)) overflow;
  scaled ← ok_or (checked_u 128 (int_value * factor)) overflow;
  raw ← ok_or (checked_u 128 (scaled + frac_value)) overflow;
  _ ← throw_if (2 ^ 64 - 1 <? raw) overflow;
  Ok raw.

(** [{:0width$}] *)
Definition fmt_width (width : nat) (n : Z) : string :=
  bytes_str (replicate (width - length (str_bytes (fmt n))) Byte.x30 ++ str_bytes (fmt n)).
(** The power wraps, and a division by zero panics. *)
Definition raw_to_ui_decimal (raw decimals : Z) : option string :=
  if decimals =? 0 then Some (fmt raw)
  else
    let factor := wrap 128 (10 ^ decimals) in
    if factor =? 0 then None
    else Some (fmt (raw / factor) +:+ "." +:+ fmt_width (Z.to_nat decimals) (raw mod factor)).

Record SolendDepositRiskBudgetConfig := MkBudget {
  profile_name : string;
  max_deposit_amount_ui : string;
  asset : string;
  decimals : Z
}.
Definition DEMO_PROFILE_NAME : string := "demo".
Definition POLICY_RULE_NAME : string := "solend-deposit-risk-budget".
Definition demo : SolendDepositRiskBudgetConfig := MkBudget DEMO_PROFILE_NAME "5" "USDC" 6.
Definition max_deposit_amount_raw (c : SolendDepositRiskBudgetConfig) : Result RiskBudgetParseError Z :=
  parse_ui_decimal_to_raw (max_deposit_amount_ui c) (decimals c).
Definition max_deposit_amount_ui_padded (c : SolendDepositRiskBudgetConfig) : option string :=
  match max_deposit_amount_raw c with
  | Ok raw => raw_to_ui_decimal raw (decimals c)
  | Err _ => Some (max_deposit_amount_ui c)
  end.

(** ** What passes *)
Lemma each_Ok {A E} (f : A → Result E unit) l u : each f l = Ok u ↔ Forall (λ x, f x = Ok tt) l.
Proof.
  destruct u. induction l as [|x l IH]; cbn [each]; [by split; [constructor|]|].
  rewrite bind_Ok, Forall_cons. split.
  - intros ([] & Hx & Hl). by rewrite <- IH.
  - intros [Hx Hl]. exists tt. by rewrite IH.
Qed.
Lemma each_throw_if {A E} (b : A → bool) (e : A → E) l u :
  each (λ x, throw_if (b x) (e x)) l = Ok u ↔ Forall (λ x, b x = false) l.
Proof. rewrite each_Ok. apply Forall_proper; [|done]. intros x. apply throw_if_Ok. Qed.

(** Ages are compared in slots, which is exact in milliseconds. *)
Lemma within_slots d age : 0 ≤ duration_raw d →
  (max_slots d <? age) = false ↔ age * CONSERVATIVE_SLOT_MS ≤ duration_raw d.
Proof.
  intros Hd. rewrite Z.ltb_ge. unfold max_slots, CONSERVATIVE_SLOT_MS.
  pose proof (Z_div_mod_eq_full (duration_raw d) 400). pose proof (Z.mod_pos_bound (duration_raw d) 400). lia.
Qed.

(** The snapshot is of the session's own obligation, on the protocol of the action. *)
Definition own_obligation (sn : LendingSnapshot) (a : ProposedAction) (c : EvaluationContext) : Prop :=
  ol_owner (sn_obligation sn) = session_wallet c ∧ sn_protocol_tag sn = protocol a.
(** Nothing is marked stale, and everything was read at most [max_age] before. *)
Definition fresh_snapshot (sn : LendingSnapshot) (max_age : DurationMs) : Prop :=
  let recent slot := slots_since (sn_fetched_at sn) slot * CONSERVATIVE_SLOT_MS ≤ duration_raw max_age in
  ol_protocol_native_stale (sn_obligation sn) = Fresh ∧ recent (ol_freshness (sn_obligation sn)) ∧
  ∀ r, r ∈ sn_reserves sn → rv_protocol_native_stale r = Fresh ∧ recent (rv_freshness r).
(** The asset is priced, by feeds that all were published at most [max_age] before. *)
Definition priced (sn : LendingSnapshot) (a : ProposedAction) (max_age : DurationMs) : Prop :=
  ∃ set, find (λ s, bool_decide (fs_priced_asset s = reserve_mint a)) (sn_oracles sn) = Some set ∧
    fs_feeds set ≠ [] ∧ ∀ feed, feed ∈ fs_feeds set → ∃ slot, of_publish feed = KnownSlot slot ∧
      slots_since (sn_fetched_at sn) slot * CONSERVATIVE_SLOT_MS ≤ duration_raw max_age.
(** The reserve is there; what is repaid was borrowed, what is withdrawn was deposited
    by someone who owes nothing at all. *)
Definition applicable (sn : LendingSnapshot) (a : ProposedAction) : Prop :=
  ∃ r, find (λ r, bool_decide (rv_mint r = reserve_mint a)) (sn_reserves sn) = Some r ∧
    match kind a with
    | KDeposit => True
    | KRepay => ∃ b, b ∈ ol_borrows (sn_obligation sn) ∧ ob_reserve b = rv_identifier r
    | KWithdraw =>
        (∃ d, d ∈ ol_deposits (sn_obligation sn) ∧ od_reserve d = rv_identifier r ∧
           0 < collateral_raw (od_deposited d)) ∧
        ∀ b, b ∈ ol_borrows (sn_obligation sn) → wad_raw (ob_borrowed_wads b) ≤ 0
    end.
(** The cap of the mint, in the unit of the action. *)
Definition cap_of (c : MaxActionInputAmountConfig) (a : ProposedAction) : option Z :=
  let of_mint {A} (l : list (Pubkey * A)) := find (λ x, bool_decide (x.1 = reserve_mint a)) l in
  match kind a with
  | KWithdraw => (λ x, collateral_raw x.2) <$> of_mint (per_mint_collateral_caps c)
  | _ => (λ x, underlying_raw x.2) <$> of_mint (per_mint_caps c)
  end.

Lemma check_system_invariants_Ok sn a c u :
  check_system_invariants sn (session_wallet c) (protocol a) = Ok u ↔ own_obligation sn a c.
Proof.
  destruct u. unfold check_system_invariants, own_obligation. rewrite bind_Ok. split.
  - intros (? & H1%throw_if_Ok & H2%throw_if_Ok).
    rewrite bool_decide_eq_false in H1, H2. split; by apply dec_stable.
  - intros [-> ->]. exists tt. by rewrite !bool_decide_eq_false_2 by (intros Hne; by apply Hne).
Qed.

Lemma require_fresh_state_Ok sn max_age u : 0 ≤ duration_raw max_age →
  require_fresh_state sn max_age = Ok u ↔ fresh_snapshot sn max_age.
Proof.
  intros Hd. destruct u. unfold require_fresh_state, fresh_snapshot.
  assert (∀ m, bool_decide (m = Stale) = false ↔ m = Fresh) as Hm.
  { intros m. rewrite bool_decide_eq_false. by destruct m. }
  split.
  - intros Hok. inv_ok Hok. rename select (each _ _ = _) into H1. destruct a0. split_and!.
    + by apply Hm.
    + by apply within_slots.
    + intros r Hr. rewrite each_throw_if, Forall_forall in *. split; [by apply Hm; auto|by apply within_slots; auto].
  - intros (H1 & H2 & H3). rewrite (proj2 (Hm _) H1). cbn [throw_if mbind result_bind].
    rewrite (proj2 (each_throw_if (λ r, bool_decide (rv_protocol_native_stale r = Stale))
      (λ _, ProtocolNativeStale) _ tt)) by (apply Forall_forall; intros r Hr; apply Hm; by apply H3).
    cbn [mbind result_bind]. rewrite (proj2 (within_slots _ _ Hd) H2). cbn [throw_if mbind result_bind].
    apply each_throw_if. rewrite Forall_forall. intros r Hr. apply within_slots; [done|]. by apply H3.
Qed.

Lemma fresh_feed_Ok slot max_age feed : 0 ≤ duration_raw max_age →
  fresh_feed slot max_age feed = Ok tt ↔ ∃ s, of_publish feed = KnownSlot s ∧
    slots_since slot s * CONSERVATIVE_SLOT_MS ≤ duration_raw max_age.
Proof.
  intros Hd. unfold fresh_feed. destruct (of_publish feed) as [s|].
  - rewrite throw_if_Ok, within_slots by done. split; [by exists s|by intros (? & [= <-] & ?)].
  - split; [done|by intros (? & ? & _)].
Qed.
Lemma max_oracle_staleness_Ok sn a max_age u : 0 ≤ duration_raw max_age →
  max_oracle_staleness sn a max_age = Ok u ↔ priced sn a max_age.
Proof.
  intros Hd. destruct u. unfold max_oracle_staleness, priced. rewrite bind_Ok.
  apply exist_proper. intros set. rewrite ok_or_Ok, bind_Ok. apply and_iff_compat_l.
  split.
  - intros (? & Hne%throw_if_Ok & Hf). rewrite bool_decide_eq_false in Hne.
    split; [by intros Hnil; rewrite Hnil in Hne|]. rewrite each_Ok, Forall_forall in Hf.
    intros feed Hin. by apply fresh_feed_Ok; auto.
  - intros [Hne Hf]. exists tt. rewrite bool_decide_eq_false_2.
    + split; [done|]. rewrite each_Ok, Forall_forall. intros feed Hin. by apply fresh_feed_Ok; auto.
    + by intros Hnil%length_zero_iff_nil.
Qed.

Lemma existsb_elem {A} (p : A → bool) l : existsb p l = true ↔ ∃ x, x ∈ l ∧ p x = true.
Proof.
  rewrite existsb_exists. split; intros (x & Hx & Hp); exists x; (split; [|done]); by apply list_elem_of_In.
Qed.
Lemma allowed_mints_Ok sn a allowlist u :
  allowed_mints sn a allowlist = Ok u ↔ reserve_mint a ∈ allowlist ∧ applicable sn a.
Proof.
  destruct u. unfold allowed_mints, applicable.
  assert (∀ r, (match kind a with
      | KDeposit => Ok tt
      | KRepay => throw_if (negb (has_debt (sn_obligation sn) (rv_identifier r))) RepayWithoutDebt
      | KWithdraw =>
          _ ← throw_if (negb (has_deposit (sn_obligation sn) (rv_identifier r))) WithdrawWithoutDeposit;
          throw_if (has_any_borrow (sn_obligation sn)) WithdrawWithDebt
      end : Result RuleRejectionDetail unit) = Ok tt ↔
    match kind a with
    | KDeposit => True
    | KRepay => ∃ b, b ∈ ol_borrows (sn_obligation sn) ∧ ob_reserve b = rv_identifier r
    | KWithdraw =>
        (∃ d, d ∈ ol_deposits (sn_obligation sn) ∧ od_reserve d = rv_identifier r ∧
           0 < collateral_raw (od_deposited d)) ∧
        ∀ b, b ∈ ol_borrows (sn_obligation sn) → wad_raw (ob_borrowed_wads b) ≤ 0
    end) as Hk.
  { intros r. destruct (kind a); [done|..].
    - rewrite throw_if_Ok, negb_false_iff. unfold has_debt. rewrite existsb_elem.
      apply exist_proper. intros b. by rewrite bool_decide_eq_true.
    - rewrite bind_Ok. unfold has_deposit, has_any_borrow. split.
      + intros (? & Hd%throw_if_Ok & Hb%throw_if_Ok). split.
        * rewrite negb_false_iff in Hd. apply existsb_elem in Hd as (d & Hin & Hd). exists d. by b2p.
        * intros b Hin. apply Z.nlt_ge. intros Hlt. apply not_true_iff_false in Hb. apply Hb, existsb_elem.
          exists b. split; [done|by apply Z.ltb_lt].
      + intros [(d & Hin & Heq & Hpos) Hb]. exists tt. rewrite !throw_if_Ok, negb_false_iff. split.
        * apply existsb_elem. exists d. split; [done|]. by rewrite bool_decide_eq_true_2, (proj2 (Z.ltb_lt _ _) Hpos).
        * apply not_true_iff_false. intros (b & Hin' & Hlt%Z.ltb_lt)%existsb_elem. specialize (Hb b Hin'). lia. }
  split.
  - intros Hok. rewrite bind_Ok in Hok. destruct Hok as ([] & Hin%throw_if_Ok & Hok).
    rewrite bind_Ok in Hok. destruct Hok as (r & Hr%ok_or_Ok & Hok). apply Hk in Hok.
    b2p. split; [done|]. by exists r.
  - intros (Hin & r & Hr & Hok). apply Hk in Hok. rewrite bool_decide_eq_true_2 by done.
    cbn [negb throw_if mbind result_bind]. by rewrite Hr.
Qed.

Lemma max_action_input_amount_Ok a config u :
  max_action_input_amount a config = Ok u ↔ ∃ cap, cap_of config a = Some cap ∧ amount_raw a ≤ cap.
Proof.
  destruct u. unfold max_action_input_amount, cap_of, amount_raw. destruct a as [p m n|p m n|p m n]; cbn [kind reserve_mint];
    (destruct (find _ _) as [[k cap]|]; cbn;
     [rewrite throw_if_Ok, Z.ltb_ge; split; [by eexists|by intros (? & [= <-] & ?)]
     |split; [done|by intros (? & ? & _)]]).
Qed.

Lemma or_block_Pass k r next : or_block k r next = Pass ↔ r = Ok tt ∧ next = Pass.
Proof. unfold or_block. destruct r as [[]|]; naive_solver. Qed.

(** C27: A lending action passes exactly when all of this holds: the snapshot is of the
    session's own obligation on the protocol of the action, which is allowed; no
    component is marked stale or was read too long ago; the asset is priced, and
    every feed of its price published recently enough; the mint is allowed and its
    reserve known; a repayment is of a debt, and a withdrawal of a deposit of someone
    without any debt; and the amount is within the cap configured for the mint in the
    unit of the action. *)
Theorem lending_passes_iff sn a config c :
  0 ≤ duration_raw (max_fetch_age config) → 0 ≤ duration_raw (max_publish_age config) →
  evaluate_lending_policy sn a config c = Pass ↔
  own_obligation sn a c ∧ protocol a ∈ protocol_allowlist config ∧
  fresh_snapshot sn (max_fetch_age config) ∧ priced sn a (max_publish_age config) ∧
  reserve_mint a ∈ mint_allowlist config ∧ applicable sn a ∧
  ∃ cap, cap_of (max_action_input config) a = Some cap ∧ amount_raw a ≤ cap.
Proof.
  intros Hf Hp. unfold evaluate_lending_policy.
  rewrite <- (check_system_invariants_Ok sn a c tt). destruct (check_system_invariants _ _ _) as [[]|]; [|naive_solver].
  rewrite !or_block_Pass, require_fresh_state_Ok, max_oracle_staleness_Ok, allowed_mints_Ok,
    max_action_input_amount_Ok by done.
  assert (allowed_lending_protocols a (protocol_allowlist config) = Ok tt ↔ protocol a ∈ protocol_allowlist config) as ->.
  { unfold allowed_lending_protocols. by case_bool_decide. }
  naive_solver.
Qed.

(** A withdrawal that passes leaves nothing owed unsecured: there is no debt. *)
Lemma withdrawal_without_debt sn p m n config c :
  evaluate_lending_policy sn (Withdraw p m n) config c = Pass →
  ∀ b, b ∈ ol_borrows (sn_obligation sn) → wad_raw (ob_borrowed_wads b) ≤ 0.
Proof.
  unfold evaluate_lending_policy. destruct (check_system_invariants _ _ _); [|done].
  rewrite !or_block_Pass, (allowed_mints_Ok _ _ _ tt). by intros (_ & _ & _ & [_ (r & _ & _ & Hb)] & _).
Qed.

(** A borrow that was paid back still counts as a debt for a repayment, not for a
    withdrawal. *)
Lemma paid_borrow_repayable r :
  let o := MkObligation r r (MkSlot 0) Fresh [] [MkBorrow r (MkWad 0)] (MkSlot 0) in
  has_debt o r = true ∧ has_any_borrow o = false.
Proof. split; [|done]. unfold has_debt. cbn. by rewrite bool_decide_eq_true_2. Qed.

(** ** Decimal amounts *)
Lemma chars_digits l : forallb char_digit (chars l) = all_digits l.
Proof.
  induction l as [|b l IH]; [done|]. cbn [all_digits forallb].
  destruct (byte_val b <? 128) eqn:Hb.
  - cbn [chars]. rewrite Hb. cbn [forallb]. by rewrite IH.
  - apply Z.ltb_ge in Hb. assert (is_ascii_digit b = false) as ->.
    { unfold is_ascii_digit, between. apply andb_false_iff. right. apply Z.leb_gt. lia. }
    cbn [andb]. cbn [chars]. rewrite (proj2 (Z.ltb_ge _ _) Hb).
    assert (∀ x, 0 ≤ low6 x) as Hlow by (intros x; unfold low6; apply Z.mod_pos_bound; lia).
    assert (∀ n bs cs, 128 ≤ n ∨ n = -1 → forallb char_digit ((n, bs) :: cs) = false) as Hno.
    { intros n bs cs Hn. cbn [forallb]. unfold char_digit. cbn [fst]. apply andb_false_iff. left.
      apply andb_false_iff. rewrite !Z.leb_gt. lia. }
    destruct l as [|x l]; [apply Hno; by right|]. destruct (between 194 223 b && cont x) eqn:H2.
    { apply Hno. left. unfold between in H2. b2p. specialize (Hlow x). lia. }
    destruct l as [|y l]; [apply Hno; by right|]. destruct (between 224 239 b && second3 b x && cont y) eqn:H3.
    { apply Hno. left. rewrite !andb_true_iff in H3. destruct H3 as [[Hb3 Hs] _]. unfold between in Hb3. b2p.
      pose proof (Hlow x). pose proof (Hlow y). destruct (Z.eqb_spec (byte_val b) 224) as [E|E]; [|lia].
      unfold second3, between in Hs. rewrite (proj2 (Z.eqb_eq _ _) E) in Hs. b2p. unfold low6 in *.
      pose proof (Z.mod_eq (byte_val x) 64 ltac:(lia)). rewrite E.
      assert (byte_val x / 64 = 2) as Hdiv by (symmetry; apply (Z.div_unique _ _ _ (byte_val x - 128)); lia).
      lia. }
    destruct l as [|z l]; [apply Hno; by right|].
    destruct (between 240 244 b && second4 b x && cont y && cont z) eqn:H4; [|apply Hno; by right].
    apply Hno. left. rewrite !andb_true_iff in H4. destruct H4 as [[[Hb4 Hs] _] _]. unfold between in Hb4. b2p.
    pose proof (Hlow x). pose proof (Hlow y). pose proof (Hlow z).
    destruct (Z.eqb_spec (byte_val b) 240) as [E|E]; [|lia].
    unfold second4, between in Hs. rewrite (proj2 (Z.eqb_eq _ _) E) in Hs. b2p. unfold low6 in *.
    pose proof (Z.mod_eq (byte_val x) 64 ltac:(lia)). rewrite E.
    assert (byte_val x / 64 = 2) as Hdiv by (symmetry; apply (Z.div_unique _ _ _ (byte_val x - 128)); lia).
    lia.
Qed.

Lemma split_once_digits piece l : all_digits l = true → split_once_dot piece l = ((piece ++ l)%list, []).
Proof.
  revert piece. induction l as [|b l IH]; intros piece; [by rewrite app_nil_r|].
  cbn [all_digits forallb split_once_dot]. intros [Hb Hl]%andb_true_iff.
  rewrite bool_decide_eq_false_2 by (by intros ->). rewrite IH by done. by rewrite <- app_assoc.
Qed.
Lemma split_once_point piece l rest : all_digits l = true →
  split_once_dot piece (l ++ Byte.x2e :: rest) = ((piece ++ l)%list, rest).
Proof.
  revert piece. induction l as [|b l IH]; intros piece; [by rewrite app_nil_r|].
  cbn [all_digits forallb split_once_dot app]. intros [Hb Hl]%andb_true_iff.
  rewrite bool_decide_eq_false_2 by (by intros ->). rewrite IH by done. by rewrite <- app_assoc.
Qed.
Lemma split_once_join piece l ip frac : split_once_dot piece l = (ip, frac) →
  (piece ++ l)%list = ip ∧ frac = [] ∨ (piece ++ l)%list = (ip ++ Byte.x2e :: frac)%list.
Proof.
  revert piece. induction l as [|b l IH]; intros piece; cbn [split_once_dot].
  { intros [= <- <-]. left. by rewrite app_nil_r. }
  case_bool_decide as Hb; [intros [= <- <-]; right; by subst|].
  intros [[H1 H2]|H1]%IH; [left|right]; by rewrite <- H1, <- app_assoc.
Qed.
Lemma count_dots_digits l : all_digits l = true → count_dots l = 0%nat.
Proof.
  induction l as [|b l IH]; [done|]. cbn [all_digits forallb]. intros [Hb Hl]%andb_true_iff.
  unfold count_dots in *. cbn [List.filter]. rewrite bool_decide_eq_false_2 by (by intros ->). by apply IH.
Qed.
Lemma count_dots_app a b : count_dots (a ++ b) = (count_dots a + count_dots b)%nat.
Proof. unfold count_dots. by rewrite List.filter_app, length_app. Qed.

(** What an amount of [d] decimals is worth. *)
Definition ui_value (d : Z) (int_part frac : list byte) : Z :=
  dec_value 0 int_part * 10 ^ d + dec_value 0 frac * 10 ^ (d - Z.of_nat (length frac)).

Lemma u128_or_zero_Ok l z : all_digits l = true →
  u128_or_zero l = Ok z ↔ z = dec_value 0 l ∧ dec_value 0 l < 2 ^ 128.
Proof.
  intros Hl. pose proof (dec_value_bounds l Hl). unfold u128_or_zero. destruct l as [|b l].
  - cbn [dec_value foldl]. split; [by intros [= <-]|by intros [-> _]].
  - rewrite from_str_radix_digits by done. unfold is_u. split.
    + intros (_ & -> & ?). split; [done|lia].
    + intros [-> ?]. split_and!; [done|done|lia|lia].
Qed.

Lemma scale_fits d : 0 ≤ d → is_u 128 (10 ^ d) ↔ d ≤ 38.
Proof.
  intros Hd. unfold is_u. split.
  - intros [_ Hlt]. apply Z.nlt_ge. intros Hgt.
    assert (10 ^ 39 ≤ 10 ^ d) by (apply Z.pow_le_mono_r; lia). vm_compute (2 ^ 128) in Hlt.
    vm_compute (10 ^ 39) in H. lia.
  - intros Hle. assert (10 ^ d ≤ 10 ^ 38) by (apply Z.pow_le_mono_r; lia).
    assert (0 < 10 ^ d) by (apply Z.pow_pos_nonneg; lia).
    assert (10 ^ 38 < 2 ^ 128) by done. lia.
Qed.

(** An amount is accepted exactly when it is digits with at most one point and at most
    [d] decimals, and its value, scaled without rounding, fits 64 bits. *)
Lemma parse_ui_exact ui d raw : 0 ≤ d →
  parse_ui_decimal_to_raw ui d = Ok raw ↔
  ∃ int_part frac, decimal_text (str_bytes ui) int_part frac ∧ Z.of_nat (length frac) ≤ d ≤ 38 ∧
    raw = ui_value d int_part frac ∧ raw < 2 ^ 64.
Proof.
  intros Hd. unfold parse_ui_decimal_to_raw. generalize (str_bytes ui). intros l.
  assert (∀ ip frac, all_digits ip = true → all_digits frac = true → Z.of_nat (length frac) ≤ d →
    (int_value ← map_err (λ _, RiskOverflow ui d) (u128_or_zero ip);
     frac_value ← map_err (λ _, RiskOverflow ui d) (u128_or_zero (pad_zeros (Z.to_nat d) frac));
     factor ← ok_or (checked_u 128 (10 ^ d)) (RiskOverflow ui d);
     scaled ← ok_or (checked_u 128 (int_value * factor)) (RiskOverflow ui d);
     raw ← ok_or (checked_u 128 (scaled + frac_value)) (RiskOverflow ui d);
     _ ← throw_if (2 ^ 64 - 1 <? raw) (RiskOverflow ui d);
     Ok raw) = Ok raw ↔ d ≤ 38 ∧ raw = ui_value d ip frac ∧ raw < 2 ^ 64) as Hcore.
  { intros ip frac Hi Hf Hlen.
    destruct (padded_value (Z.to_nat d) frac) as (Hpd & Hpv & Hpb); [lia|done|].
    rewrite Z2Nat.id in Hpv, Hpb by lia. pose proof (dec_value_bounds ip Hi) as Hib.
    unfold pad_zeros, ui_value. split.
    - intros Hok. inv_ok Hok. repeat match goal with
        | H : u128_or_zero _ = Ok _ |- _ => apply u128_or_zero_Ok in H as [-> ?]; [|done]
        | H : checked_u _ _ = Some _ |- _ => apply checked_u_Some in H as [-> ?]
        end. rewrite Hpv in *. split_and!; [by apply scale_fits|done|].
      match goal with H : (_ <? _) = false |- _ => apply Z.ltb_ge in H; lia end.
    - intros (H38 & -> & H64). pose proof (proj2 (scale_fits d Hd) H38) as [Hpos Hfac].
      assert (0 < 10 ^ d) by (apply Z.pow_pos_nonneg; lia).
      assert (dec_value 0 ip < 2 ^ 64) by nia.
      assert (2 ^ 64 < 2 ^ 128) by done.
      rewrite (proj2 (u128_or_zero_Ok ip _ Hi)) by (split; [done|lia]). cbn [map_err mbind result_bind].
      rewrite (proj2 (u128_or_zero_Ok _ _ Hpd)) by (split; [done|lia]). cbn [map_err mbind result_bind].
      rewrite checked_u_ok by done. cbn [ok_or mbind result_bind].
      rewrite checked_u_ok by (unfold is_u; nia). cbn [ok_or mbind result_bind].
      rewrite ?Hpv, checked_u_ok by (unfold is_u; nia). cbn [ok_or mbind result_bind].
      by rewrite throw_if_false by (apply Z.ltb_ge; lia). }
  split.
  - intros Hok. rewrite bind_Ok in Hok. destruct Hok as (? & Hne%throw_if_Ok & Hok).
    rewrite bind_Ok in Hok. destruct Hok as (? & Hdots%throw_if_Ok & Hok).
    destruct (split_once_dot [] l) as [ip frac] eqn:Hsplit.
    rewrite bind_Ok in Hok. destruct Hok as (? & Hdig & Hok).
    rewrite bind_Ok in Hok. destruct Hok as (? & Hlen%throw_if_Ok & Hok). apply Z.ltb_ge in Hlen.
    rewrite each_throw_if, Forall_app in Hdig. destruct Hdig as [Hi Hf].
    assert (∀ k, Forall (λ c, negb (char_digit c) = false) (chars k) → all_digits k = true) as Hall.
    { intros k Hk. rewrite <- chars_digits. apply forallb_forall. intros c Hc%list_elem_of_In.
      rewrite Forall_forall in Hk. by apply negb_false_iff, Hk. }
    apply Hall in Hi, Hf. apply Hcore in Hok as (H38 & -> & H64); [|done..].
    exists ip, frac. split_and!; [|lia|done|done|done]. apply split_once_join in Hsplit.
    rewrite bool_decide_eq_false in Hne. by split_and!.
  - intros (ip & frac & (Hi & Hf & Hne & Hl) & [Hlen H38] & Hraw & H64).
    rewrite bool_decide_eq_false_2 by done. cbn [throw_if mbind result_bind].
    assert (split_once_dot [] l = (ip, frac) ∧ (count_dots l ≤ 1)%nat) as [-> Hdots].
    { destruct Hl as [[-> ->]| ->].
      - rewrite split_once_digits by done. by rewrite count_dots_digits by done; split; [|lia].
      - rewrite split_once_point by done. split; [done|].
        rewrite count_dots_app, (count_dots_digits ip) by done. unfold count_dots. cbn [List.filter].
        rewrite bool_decide_eq_true_2 by done. cbn [length]. fold (count_dots frac).
        rewrite count_dots_digits by done. lia. }
    rewrite throw_if_false by (apply Nat.ltb_ge; lia).
    rewrite (proj2 (each_throw_if _ _ _ tt)).
    + cbn [mbind result_bind]. rewrite throw_if_false by (apply Z.ltb_ge; lia). by apply Hcore.
    + rewrite Forall_app. split; apply Forall_forall; intros c Hc%list_elem_of_In; apply negb_false_iff;
        revert c Hc; apply forallb_forall; by rewrite chars_digits.
Qed.

Lemma pretty_N_go_length k n s : (n < 10 ^ N.of_nat k)%N →
  (String.length (pretty_N_go n s) ≤ k + String.length s)%nat.
Proof.
  revert n s. induction k as [|k IH]; intros n s Hn.
  - assert (n = 0)%N as -> by lia. by rewrite pretty_N_go_0.
  - destruct (decide (n = 0)%N) as [->|Hn0]; [rewrite pretty_N_go_0; lia|].
    rewrite pretty_N_go_step by lia. etransitivity; [apply IH|cbn; lia].
    rewrite Nat2N.inj_succ, N.pow_succ_r' in Hn. apply N.Div0.div_lt_upper_bound; lia.
Qed.
Lemma str_bytes_length s : length (str_bytes s) = String.length s.
Proof. induction s as [|c s IH]; [done|]. rewrite str_bytes_cons. cbn [length String.length]. by rewrite IH. Qed.
Lemma fmt_length n (k : nat) : 0 ≤ n < 10 ^ Z.of_nat k → (1 ≤ k)%nat → (length (str_bytes (fmt n)) ≤ k)%nat.
Proof.
  intros Hn Hk. rewrite str_bytes_length. assert (fmt n = pretty (Z.to_N n)) as ->.
  { unfold fmt. destruct n; [done|done|lia]. }
  unfold pretty, pretty_N. case_decide; [cbn; lia|].
  pose proof (pretty_N_go_length k (Z.to_N n) "") as Hlen. cbn in Hlen. rewrite Nat.add_0_r in Hlen. apply Hlen.
  apply N2Z.inj_lt. rewrite Z2N.id, N2Z.inj_pow, nat_N_Z by lia. apply Hn.
Qed.

Lemma fmt_width_spec (k : nat) n : 0 ≤ n < 10 ^ Z.of_nat k → (1 ≤ k)%nat →
  all_digits (str_bytes (fmt_width k n)) = true ∧ length (str_bytes (fmt_width k n)) = k ∧
  dec_value 0 (str_bytes (fmt_width k n)) = n.
Proof.
  intros Hn Hk. pose proof (fmt_length n k Hn Hk) as Hlen. destruct (fmt_digits n) as (Hd & Hv & _); [lia|].
  unfold fmt_width. rewrite String.list_byte_of_string_of_list_byte.
  rewrite all_digits_app, all_digits_zeros, Hd, length_app, length_replicate, dec_value_app, dec_value_zeros.
  split_and!; [done|lia|]. by rewrite Z.mul_0_l.
Qed.

(** An amount that is shown can be read back: for every 64-bit amount and up to 38
    decimals the text of the amount exists, and parsing it with the same decimals
    gives the amount. *)
Theorem ui_decimal_roundtrip raw d : is_u 64 raw → 0 ≤ d ≤ 38 →
  ∃ s, raw_to_ui_decimal raw d = Some s ∧ parse_ui_decimal_to_raw s d = Ok raw.
Proof.
  intros Hraw Hd. unfold raw_to_ui_decimal. destruct (Z.eqb_spec d 0) as [->|Hd0].
  - eexists. split; [done|]. apply parse_ui_exact; [lia|].
    destruct (fmt_digits raw) as (Ha & Hv & Hne); [apply Hraw|]. exists (str_bytes (fmt raw)), [].
    split_and!; [split_and!; [done..|by left]|cbn; lia|lia| |apply Hraw].
    unfold ui_value. rewrite Hv. cbn. lia.
  - rewrite wrap_small by (apply scale_fits; lia). assert (0 < 10 ^ d) as Hpos by (apply Z.pow_pos_nonneg; lia).
    rewrite (proj2 (Z.eqb_neq _ _)) by lia. eexists. split; [done|]. apply parse_ui_exact; [lia|].
    assert (0 ≤ raw / 10 ^ d) as Hq by (apply Z.div_pos; [apply Hraw|lia]).
    destruct (fmt_digits (raw / 10 ^ d) Hq) as (Ha & Hv & Hne).
    destruct (fmt_width_spec (Z.to_nat d) (raw mod 10 ^ d)) as (Hfa & Hfl & Hfv); [|lia|].
    { rewrite Z2Nat.id by lia. apply Z.mod_pos_bound. lia. }
    exists (str_bytes (fmt (raw / 10 ^ d))), (str_bytes (fmt_width (Z.to_nat d) (raw mod 10 ^ d))).
    split_and!; [|lia|lia| |apply Hraw].
    + split_and!; [done|done| |right].
      * rewrite str_bytes_app. intros [? _]%app_eq_nil. done.
      * rewrite !str_bytes_app. done.
    + unfold ui_value. rewrite Hv, Hfv, Hfl, Z2Nat.id, Z.sub_diag by lia.
      pose proof (Z_div_mod_eq_full raw (10 ^ d)). lia.
Qed.
Lemma ui_decimal_roundtrip_witness :
  raw_to_ui_decimal 5000001 6 = Some "5.000001" ∧
  ∃ s, raw_to_ui_decimal 5000001 6 = Some s ∧ parse_ui_decimal_to_raw s 6 = Ok 5000001.
Proof. split; [by vm_compute|]. apply (ui_decimal_roundtrip 5000001 6); [done|lia]. Defined.

(** A point alone is zero, and the padded text of the demo budget. *)
Lemma amount_edges :
  parse_ui_decimal_to_raw "." 6 = Ok 0 ∧ parse_ui_decimal_to_raw "5." 6 = Ok 5000000 ∧
  max_deposit_amount_raw demo = Ok 5000000 ∧ max_deposit_amount_ui_padded demo = Some "5.000000" ∧
  parse_ui_decimal_to_raw "5,0" 6 = Err (InvalidCharacter (44, [Byte.x2c])).
Proof. by vm_compute. Qed.

(** *** A deposit within the caps *)
Definition key_example (n : Z) : Pubkey := replicate 32 (byte_of n).
Definition sn_example : LendingSnapshot := MkSnapshot Solend (key_example 1) (MkSlot 100)
  (MkObligation (key_example 2) (key_example 1) (MkSlot 99) Fresh [] [] (MkSlot 98))
  [MkReserve (key_example 3) (key_example 4) 6 (MkSlot 99) Fresh (MkSlot 98) (key_example 5) (key_example 6) (key_example 7) (MkUnderlying 0)]
  [MkFeedSet (key_example 4) [MkFeed (key_example 8) PythSolanaReceiver (KnownSlot (MkSlot 90)) (MkSlot 98)]].
Definition rules_example : LendingRuleConfig := MkRules (MkDuration 1000) (MkDuration 4000) [Solend] [key_example 4]
  (MkCaps [(key_example 4, MkUnderlying 5000000)] []).

Lemma lending_passes_iff_witness :
  evaluate_lending_policy sn_example (Deposit Solend (key_example 4) (MkUnderlying 5000000)) rules_example (MkContext (key_example 1)) = Pass ∧
  ∃ cap, cap_of (max_action_input rules_example) (Deposit Solend (key_example 4) (MkUnderlying 5000000)) = Some cap ∧
    5000000 ≤ cap.
Proof.
  assert (evaluate_lending_policy sn_example (Deposit Solend (key_example 4) (MkUnderlying 5000000)) rules_example
    (MkContext (key_example 1)) = Pass) as Hpass by by vm_compute.
  split; [exact Hpass|]. by apply (lending_passes_iff _ _ _ _) in Hpass as (_ & _ & _ & _ & _ & _ & Hcap).
Defined.
