(* ===== verification/SubmitStores.v ===== *)
(** * Solend submission: the data and the stores

    integrations/solend_signing.rs, solend_submit.rs, solend_lifecycle.rs and
    solend_confirmation.rs: what is parked for a user's signature, what becomes of a
    submission, and what the confirmation tracker keeps; with the checks and the
    updates that are pure. *)
From S2P Require Import Prelude Interaction WatcherBase RustText Solana SdkTypes TxLifecycle.
From S2P Require Import TxTracker.
From S2P Require IntentProgram CanonicalIntent RuleStore ApprovalStore LendingPolicy.
#[local] Open Scope string_scope.
#[local] Open Scope Z_scope.

(** A session id is a [Uuid] with the same text. *)
Notation SessionId := Uuid (only parsing).

(** Functions of the crates that only this part uses. *)
Class SubmitCrates := {
  message_hash : Message → list byte;
  new_unsigned : Message → Transaction;
  (** with the pair of a key, at a blockhash *)
  try_partial_sign : Pubkey → list byte → Transaction → Result string Transaction
}.
(** Documented behaviour: neither changes what the message says, except that signing
    sets the blockhash. *)
Class SubmitCratesLaws `{SubmitCrates} : Prop := {
  unsigned_message m : message (new_unsigned m) = m;
  partial_sign_message key h tx tx' :
    try_partial_sign key h tx = Ok tx' → message tx' = message (set_blockhash h tx)
}.

(** ** The plans *)

(** [SolendDepositAccountsSummary], [SolendWithdrawAccountsSummary] *)
Record AccountsSummary := MkAccounts {
  as_reserve_pubkey : Pubkey;
  as_reserve_mint : Pubkey;
  as_obligation_pubkey : Pubkey;
  as_source_liquidity_ata : Pubkey;
  as_user_collateral_ata : Pubkey;
  as_source_ata_exists : bool;
  as_collateral_ata_exists : bool;
  as_obligation_exists : bool
}.
Record SolendDepositTxPlan := MkDepositPlan {
  dp_request_id : Uuid;
  dp_intent_id : Uuid;
  dp_session_id : SessionId;
  dp_session_wallet : Pubkey;
  dp_verified_slot : Z;
  dp_action : LendingPolicy.ProposedAction;
  dp_setup_instructions : list Instruction;
  dp_refresh_instructions : list Instruction;
  dp_deposit_instructions : list Instruction;
  dp_transient_obligation_pubkey : option Pubkey;
  dp_obligation_signer_required : bool;
  dp_accounts_summary : AccountsSummary;
  dp_planning_rent_exempt_lamports : Z
}.
Record SolendWithdrawTxPlan := MkWithdrawPlan {
  wp_request_id : Uuid;
  wp_intent_id : Uuid;
  wp_session_id : SessionId;
  wp_session_wallet : Pubkey;
  wp_verified_slot : Z;
  wp_action : LendingPolicy.ProposedAction;
  wp_setup_instructions : list Instruction;
  wp_refresh_instructions : list Instruction;
  wp_withdraw_instructions : list Instruction;
  wp_obligation_signer_required : bool;
  wp_transient_obligation_pubkey : option Pubkey;
  wp_accounts_summary : AccountsSummary
}.
Inductive SolendPreflightOutcome :=
| Passed (verified_slot : Z) (simulation_slot units_consumed : option Z) (logs : list string)
    (rent_updated_for_preflight : bool) (planning_rent_lamports fresh_rent_lamports : option Z)
    (sig_verify replace_recent_blockhash : bool)
| PreflightFailed (error_type : string) (instruction_index custom_code : option Z)
    (logs : list string) (units_consumed : option Z) (sig_verify replace_recent_blockhash : bool)
| ConfigError (error_type message : string)
| TooLargeNeedsChunking (message : string).

Definition replace_pubkey_in_instructions (instructions : list Instruction) (from to : Pubkey) :
    list Instruction :=
  map (λ ix, MkInstruction (ix_program_id ix)
         (map (λ a, MkMeta (if bool_decide (meta_key a = from) then to else meta_key a)
                      (meta_signer a) (meta_writable a)) (ix_accounts ix))
         (ix_data ix)) instructions.

(** ** Signing handoffs *)
Inductive SigningHandoffError :=
| MissingTransientObligation
| UnexpectedTransientObligation
| BlockhashFetchFailed (e : string)
| SerializationFailed (e : string)
| PartialSignFailed (e : string)
| HandoffIntentExpired (current_slot expires_at_slot : Z) (intent_id_hex : string)
| TxTooLargeWithRecordIntent (serialized_len limit : Z).

(** The pair of the obligation is given by its public key: the secret half signs
    through the crate and goes nowhere else. *)
Record ParkedSolendSigning := MkSigning {
  pk_intent_id : Uuid;
  pk_session_id : SessionId;
  pk_session_wallet : Pubkey;
  pk_action : LendingPolicy.ProposedAction;
  pk_verified_slot : Z;
  pk_simulation_slot : option Z;
  pk_units_consumed : option Z;
  pk_tx_bytes : list byte;
  pk_recent_blockhash : list byte;
  pk_last_valid_block_height : Z;
  obligation_keypair : option Pubkey;
  parked_obligation_signature : option Signature;
  pk_proposed_at : Z;
  pk_expires_at : Z
}.
Definition obligation_pubkey (p : ParkedSolendSigning) : option Pubkey := obligation_keypair p.
Definition requires_backend_obligation_signature (p : ParkedSolendSigning) : bool :=
  bool_decide (is_Some (obligation_keypair p)).

Record SigningHandoffSummary := MkHandoff {
  hs_signing_request_id : Uuid;
  hs_intent_id : Uuid;
  hs_session_id : SessionId;
  hs_session_wallet : Pubkey;
  hs_verified_slot : Z;
  hs_simulation_slot : option Z;
  hs_units_consumed : option Z;
  hs_obligation_signer_backend_partial : bool;
  hs_last_valid_block_height : Z;
  hs_expires_at : Z
}.
Definition summary_of (request_id : Uuid) (p : ParkedSolendSigning) : SigningHandoffSummary :=
  MkHandoff request_id (pk_intent_id p) (pk_session_id p) (pk_session_wallet p) (pk_verified_slot p)
    (pk_simulation_slot p) (pk_units_consumed p) (requires_backend_obligation_signature p)
    (pk_last_valid_block_height p) (pk_expires_at p).

Record RecordIntentHandoffOptions := MkIntentOptions {
  ro_demo_program_id : Pubkey;
  ro_canonical_metadata : CanonicalIntent.CanonicalIntentMetadata;
  ro_canonical_intent_bytes : list byte;
  ro_current_slot_for_gate : Z
}.
Definition PACKET_DATA_SIZE : Z := 1232.

(** ** Outcomes of a submission *)
Inductive RecordedSubmitOutcome :=
| RSubmitted (tx_signature : string) (intent_id : Uuid) (session_wallet : Pubkey)
    (verified_slot last_valid_block_height : Z)
| RConfirming (tx_signature : string) (slot : Z) (intent_id : Uuid) (session_wallet : Pubkey)
    (last_valid_block_height : Z)
| RFinalized (tx_signature : string) (slot : Z) (intent_id : Uuid) (session_wallet : Pubkey)
    (last_valid_block_height : Z)
| RExecutionFailed (tx_signature : string) (intent_id : Uuid) (session_wallet : Pubkey) (err : string)
| RConfirmationTimeout (tx_signature : string) (last_valid_block_height current_block_height : Z)
    (reason : string)
| RExpired (reason : string)
| RRejected (error_type message : string)
| RBroadcastFailed (error_type message : string).

(** [precedence], [is_terminal], [is_success], [tx_signature] *)
Definition outcome_precedence (o : RecordedSubmitOutcome) : Z :=
  match o with
  | RSubmitted _ _ _ _ _ => 10
  | RConfirming _ _ _ _ _ => 20
  | RFinalized _ _ _ _ _ | RExecutionFailed _ _ _ _ | RConfirmationTimeout _ _ _ _ => 90
  | RExpired _ | RRejected _ _ | RBroadcastFailed _ _ => 100
  end.
Definition outcome_terminal (o : RecordedSubmitOutcome) : bool :=
  match o with
  | RFinalized _ _ _ _ _ | RExecutionFailed _ _ _ _ | RConfirmationTimeout _ _ _ _
  | RExpired _ | RRejected _ _ | RBroadcastFailed _ _ => true
  | _ => false
  end.
Definition outcome_success (o : RecordedSubmitOutcome) : bool :=
  match o with RFinalized _ _ _ _ _ => true | _ => false end.
Definition outcome_signature (o : RecordedSubmitOutcome) : option string :=
  match o with
  | RSubmitted s _ _ _ _ | RConfirming s _ _ _ _ | RFinalized s _ _ _ _
  | RExecutionFailed s _ _ _ | RConfirmationTimeout s _ _ _ => Some s
  | RExpired _ | RRejected _ _ | RBroadcastFailed _ _ => None
  end.

Record RecordedSubmission := MkRecorded {
  rs_session_id : SessionId;
  rs_outcome : RecordedSubmitOutcome;
  rs_recorded_at : Z;
  rs_expires_at : Z
}.
Record RecoveredSubmission := MkRecovered {
  rv_signing_request_id : Uuid;
  rv_outcome : RecordedSubmitOutcome;
  rv_recorded_at : Z
}.
Notation LifecycleMap := (gmap Uuid RecordedSubmission).
Notation SigningMap := (gmap Uuid ParkedSolendSigning).

(** [entry(..).or_insert_with(..)] and [transition], each under one lock of its shard. *)
Definition or_insert (id : Uuid) (r : RecordedSubmission) (m : LifecycleMap) : bool * LifecycleMap :=
  match m !! id with Some _ => (false, m) | None => (true, <[id := r]> m) end.
Definition transition (id : Uuid) (session_id : SessionId) (new_outcome : RecordedSubmitOutcome)
    (m : LifecycleMap) : bool * LifecycleMap :=
  match m !! id with
  | None => (false, m)
  | Some e =>
      if negb (bool_decide (rs_session_id e = session_id)) then (false, m)
      else if outcome_terminal (rs_outcome e) then (false, m)
      else if outcome_precedence new_outcome <=? outcome_precedence (rs_outcome e) then (false, m)
      else (true, <[id := MkRecorded (rs_session_id e) new_outcome (rs_recorded_at e) (rs_expires_at e)]> m)
  end.
Definition outcome_is_terminal (id : Uuid) (m : LifecycleMap) : bool :=
  match m !! id with Some e => outcome_terminal (rs_outcome e) | None => false end.

(** [DateTime + Duration::seconds(secs as i64)] in milliseconds, within chrono's range. *)
Definition after_seconds (now secs : Z) : Z := now + 1000 * RuleStore.as_i64 secs.

(** ** The confirmation tracker *)
Record SolendSignatureStatus := MkSigStatus {
  st_confirmation_status : option string;
  st_err : option string;
  st_slot : option Z
}.
Record SolendTrackedContext := MkContext {
  cx_signing_request_id : Uuid;
  cx_intent_id : Uuid;
  cx_session_id : SessionId;
  cx_session_wallet : Pubkey;
  cx_last_valid_block_height : Z;
  cx_submission_block_height : Z;
  cx_tx_signature : Signature;
  cx_state : TxState;
  cx_signed_bytes : option (list byte);
  cx_enqueued_at : Z;
  cx_rebroadcast_attempts : Z;
  cx_last_rebroadcast_at : option Z;
  cx_blockhash_guard_audited : bool
}.
(** [new_submitted] and [new_submitted_with_bytes] *)
Definition new_submitted (id intent : Uuid) (session : SessionId) (wallet : Pubkey)
    (last_valid submission : Z) (sig : Signature) (bytes : option (list byte)) (now : Z) :
    SolendTrackedContext :=
  MkContext id intent session wallet last_valid submission sig Submitted bytes now 0 None false.

Definition set_cx_state (s : TxState) (c : SolendTrackedContext) : SolendTrackedContext :=
  MkContext (cx_signing_request_id c) (cx_intent_id c) (cx_session_id c) (cx_session_wallet c)
    (cx_last_valid_block_height c) (cx_submission_block_height c) (cx_tx_signature c) s
    (cx_signed_bytes c) (cx_enqueued_at c) (cx_rebroadcast_attempts c) (cx_last_rebroadcast_at c)
    (cx_blockhash_guard_audited c).
Definition set_cx_guard (c : SolendTrackedContext) : SolendTrackedContext :=
  MkContext (cx_signing_request_id c) (cx_intent_id c) (cx_session_id c) (cx_session_wallet c)
    (cx_last_valid_block_height c) (cx_submission_block_height c) (cx_tx_signature c) (cx_state c)
    (cx_signed_bytes c) (cx_enqueued_at c) (cx_rebroadcast_attempts c) (cx_last_rebroadcast_at c) true.
Definition set_cx_attempts (n now : Z) (c : SolendTrackedContext) : SolendTrackedContext :=
  MkContext (cx_signing_request_id c) (cx_intent_id c) (cx_session_id c) (cx_session_wallet c)
    (cx_last_valid_block_height c) (cx_submission_block_height c) (cx_tx_signature c) (cx_state c)
    (cx_signed_bytes c) (cx_enqueued_at c) n (Some now) (cx_blockhash_guard_audited c).

Definition to_observation (status : option SolendSignatureStatus) : RpcObservation :=
  match status with
  | None => MkObservation None None None
  | Some s => MkObservation (st_confirmation_status s) (st_err s) (st_slot s)
  end.
(** The adapter's reading of the node's answer. *)
Definition node_status (s : NodeStatus) : SolendSignatureStatus :=
  MkSigStatus (commitment_text <$> ns_confirmation_status s) (ns_err s) (Some (ns_slot s)).

Definition MAX_CONFIRMATION_REBROADCAST_ATTEMPTS : Z := 6.
Definition CONFIRMATION_REBROADCAST_INTERVAL : Z := 2000.
Definition BLOCKHASH_GUARD_BUFFER_BLOCKS : Z := 5.

(** What the rebroadcast pass does with an entry at a height, before it looks at the
    clock. *)
Inductive ResendVerdict := SkipResend | TripGuard | TryResend (signed_bytes : list byte).
Definition resend_verdict (current_height : Z) (c : SolendTrackedContext) : ResendVerdict :=
  if is_terminal (cx_state c) then SkipResend
  else match cx_signed_bytes c with
       | None => SkipResend
       | Some bytes =>
           if MAX_CONFIRMATION_REBROADCAST_ATTEMPTS <=? cx_rebroadcast_attempts c then SkipResend
           else if cx_last_valid_block_height c <=?
                   Z.min (2 ^ 64 - 1) (current_height + BLOCKHASH_GUARD_BUFFER_BLOCKS)
           then TripGuard else TryResend bytes
       end.
Definition interval_due (now : Z) (c : SolendTrackedContext) : bool :=
  CONFIRMATION_REBROADCAST_INTERVAL <=?
    Z.max 0 (now - default (cx_enqueued_at c) (cx_last_rebroadcast_at c)).

(** ** Verification of what the user signed

    A refusal: its type, the message of the audit, the message of the answer. *)
Record Refusal := MkRefusal { rf_type : string; rf_audit : string; rf_message : string }.

Section verify.
Context `{Sdk, SubmitCrates}.

(** C *)
Definition same_message (parked_tx signed_tx : Transaction) : Result Refusal unit :=
  throw_if (negb (bool_decide (message_hash (message parked_tx) = message_hash (message signed_tx))))
    (MkRefusal "MessageHashMismatch" "signed_tx.message.hash() != parked_tx.message.hash()"
       "signed tx message hash differs from parked message hash").

(** D *)
Definition required_sigs (tx : Transaction) : Z := num_required_signatures (header (message tx)).
Definition zero_key : Pubkey := replicate 32 (byte_of 0).
Definition well_shaped (p : ParkedSolendSigning) (tx : Transaction) : Result Refusal unit :=
  _ ← throw_if (negb (bool_decide (Z.of_nat (length (signatures tx)) = required_sigs tx)))
        (MkRefusal "SignaturesLengthMismatch"
           ("signatures.len()=" +:+ fmt (Z.of_nat (length (signatures tx))) +:+
            " != num_required_signatures=" +:+ fmt (required_sigs tx))
           "signatures vector length does not match header.num_required_signatures");
  throw_if (negb (bool_decide (default zero_key (head (account_keys (message tx))) = pk_session_wallet p)))
    (MkRefusal "FeePayerMismatch" "fee payer in signed tx differs from session_wallet"
       "fee payer changed away from session_wallet").

(** E *)
Definition message_data (tx : Transaction) : list byte := message_bytes (LegacyMessage (message tx)).
Definition wallet_signed (p : ParkedSolendSigning) (tx : Transaction) (session_sig : Signature) :
    Result Refusal unit :=
  _ ← throw_if (bool_decide (session_sig = default_signature))
        (MkRefusal "SessionWalletSignatureMissing" "session-wallet signature slot is default"
           "session wallet signature slot is default (unsigned)");
  throw_if (negb (sig_verify session_sig (pk_session_wallet p) (message_data tx)))
    (MkRefusal "SessionWalletSignatureInvalid"
       "ed25519 verify(session_wallet, signed_tx.message_data()) failed"
       "session wallet signature is not valid ed25519 over the message").

(** F.  The index is below the number of signatures, which D has fixed. *)
Fixpoint position (k : Pubkey) (keys : list Pubkey) : option nat :=
  match keys with
  | [] => None
  | k' :: keys => if bool_decide (k' = k) then Some 0%nat else S <$> position k keys
  end.
Definition obligation_signed (p : ParkedSolendSigning) (tx : Transaction) : Result Refusal unit :=
  if negb (requires_backend_obligation_signature p) then Ok tt else
  obligation_pk ← ok_or (obligation_pubkey p)
    (MkRefusal "InternalMissingObligationPubkey" "custody invariant violated"
       "obligation pubkey missing despite signer-required flag");
  i ← ok_or (position obligation_pk (account_keys (message tx)))
    (MkRefusal "ObligationNotInAccountKeys" "obligation pubkey missing from signed tx account_keys"
       "obligation pubkey missing from signed tx account_keys");
  _ ← throw_if (negb (Z.of_nat i <? required_sigs tx))
        (MkRefusal "ObligationNotInSignerSlots" "obligation pubkey present but outside signer slots"
           "obligation pubkey present in account_keys but not in signer slots");
  let signed := default [] (signatures tx !! i) in
  parked ← ok_or (parked_obligation_signature p)
    (MkRefusal "InternalMissingParkedSignature" "custody invariant violated"
       "parked_obligation_signature missing despite signer-required flag");
  _ ← throw_if (negb (bool_decide (signed = parked)))
        (MkRefusal "ObligationSignatureChanged"
           "obligation signature bit-unequal to parked partial signature"
           "obligation signature in returned tx differs from parked partial signature");
  throw_if (negb (sig_verify signed obligation_pk (message_data tx)))
    (MkRefusal "ObligationSignatureInvalid"
       "ed25519 verify(obligation_pk, signed_tx.message_data()) failed"
       "obligation signature is not valid ed25519 over the message").

(** C to F, with the wallet's signature; [None] is the panic of [signatures[0]] when
    the header asks for no signature at all. *)
Definition verify (p : ParkedSolendSigning) (parked_tx tx : Transaction) :
    option (Result Refusal Signature) :=
  match (_ ← same_message parked_tx tx; well_shaped p tx) with
  | Err r => Some (Err r)
  | Ok _ =>
      session_sig ← head (signatures tx);
      Some (_ ← wallet_signed p tx session_sig; _ ← obligation_signed p tx; Ok session_sig)
  end.
End verify.
