(* ===== verification/SubmitFlow.v ===== *)
(** * Solend submission: the handlers and the tracker

    The handoff of a plan for the user's signature, the submission of what the user
    signed, what the API asks for, and the rounds of the confirmation tracker, as
    programs over the stores they share, the node, the clocks and the audit log. *)
From S2P Require Import Prelude Interaction WatcherBase RustText Solana SdkTypes TxLifecycle.
From S2P Require Import TxTracker SubmitStores.
From S2P Require IntentProgram CanonicalIntent ApprovalStore LendingPolicy SigningTool.
#[local] Open Scope string_scope.
#[local] Open Scope Z_scope.

(** ** What the API answers *)
Inductive SolendRetrievalResult :=
| GFound (signing_request_id intent_id : Uuid) (session_wallet unsigned_tx_b64 : string)
    (obligation_signer_backend_partial : bool) (last_valid_block_height expires_at_unix_ms verified_slot : Z)
    (simulation_slot units_consumed : option Z)
| GSubmitted (signing_request_id intent_id : Uuid) (tx_signature : string) (last_valid_block_height : Z)
| GConfirming (signing_request_id intent_id : Uuid) (tx_signature : string)
    (slot last_valid_block_height : Z)
| GFinalized (signing_request_id intent_id : Uuid) (tx_signature : string) (slot : Z)
| GFailed (signing_request_id intent_id : Uuid) (tx_signature err : string)
| GConfirmationTimeout (signing_request_id : Uuid) (tx_signature : string)
    (last_valid_block_height current_block_height : Z) (requires_reproposal : bool) (reason : string)
| GRejected (signing_request_id : Uuid) (error_type message : string)
| GBroadcastFailed (signing_request_id : Uuid) (error_type message : string)
| GPreSubmitExpired (reason : string)
| GNotFound
| GExpired.
Inductive SolendSubmitResult :=
| PSubmitted (signing_request_id intent_id : Uuid) (session_wallet tx_signature : string)
    (verified_slot last_valid_block_height : Z)
| PRecovered (signing_request_id : Uuid) (tx_signature : string) (recorded_at_unix_ms : Z)
| PNotFound
| PExpired (reason : string)
| PRejected (error_type message : string)
| PBroadcastFailed (signing_request_id : Uuid) (error_type message : string).
Inductive Reply := RetrieveReply (r : SolendRetrievalResult) | SubmitReply (r : SolendSubmitResult).

(** [SolendSubmitOutcome] *)
Inductive SolendSubmitOutcome :=
| OSubmitted (tx_signature : string) (intent_id : Uuid) (session_wallet : Pubkey)
    (verified_slot last_valid_block_height : Z) (signed_bytes : list byte)
| ONotFound
| OExpired (reason : string)
| ORejected (error_type message : string)
| OBroadcastFailed (error_type message : string).

(** ** Events *)
Inductive SubmitEvent :=
(* clocks, in milliseconds, and random values *)
| UtcNow | InstantNow | Sleep | NewKeypair
(* the signing store; an insertion draws its fresh id *)
| SignGet (id : Uuid) | SignRemove (id : Uuid) | SignInsert (p : ParkedSolendSigning)
| SignExpired (now : Z) | SignOwned (session : SessionId)
(* the lifecycle store *)
| LcGet (id : Uuid) | LcRemove (id : Uuid) | LcTerminal (id : Uuid)
| LcInsert (id : Uuid) (r : RecordedSubmission)
| LcTransition (id : Uuid) (session : SessionId) (o : RecordedSubmitOutcome)
| LcOpen (now : Z) | LcExpired (now : Z)
(* the tracker's map *)
| TrEmpty | TrKeys | TrGet (sig : Signature) | TrInsert (c : SolendTrackedContext)
| TrState (sig : Signature) (s : TxState) | TrGuard (sig : Signature)
| TrAttempts (sig : Signature) (n now : Z) | TrTerminal | TrRemove (sig : Signature)
(* the node; a submission is named after its request, a rebroadcast after its signature *)
| LatestBlockhash | BlockHeight | FinalHeight | Statuses (sigs : list Signature)
| SendTx (id : Uuid) (bytes : list byte) | Resend (sig : Signature) (bytes : list byte)
(* what a client sends with a submission; the audit log, appended to at once or by a
   task of its own; and the answer *)
| Receive (session : SessionId) (id : Uuid) (signed_tx_b64 : string)
| AuditSolend (event correlation : string) (session : option string)
    (severity : ApprovalStore.Severity) (payload : ApprovalStore.Payload)
| SpawnAudit (event correlation : string) (session : option string)
    (severity : ApprovalStore.Severity) (payload : ApprovalStore.Payload)
| Answer (session : SessionId) (id : Uuid) (r : Reply).

Definition SubmitAnswer (e : SubmitEvent) : Type :=
  match e with
  | UtcNow | InstantNow => Z
  | NewKeypair => Pubkey
  | SignGet _ | SignRemove _ => option ParkedSolendSigning
  | SignInsert _ => Uuid
  | SignExpired _ | LcExpired _ => list Uuid
  | SignOwned _ => list (Uuid * ParkedSolendSigning)
  | LcGet _ => option RecordedSubmission
  | LcTerminal _ | LcInsert _ _ | LcTransition _ _ _ => bool
  | LcOpen _ => list (Uuid * SessionId * RecordedSubmitOutcome)
  | TrEmpty | TrInsert _ => bool
  | TrKeys | TrTerminal => list Signature
  | TrGet _ => option SolendTrackedContext
  | LatestBlockhash => Result string (list byte * Z)
  | BlockHeight | FinalHeight => Result string Z
  | Statuses _ => Result string (list (option NodeStatus))
  | SendTx _ _ | Resend _ _ => Result string string
  | _ => unit
  end.
Notation SProg := (Prog SubmitAnswer).
#[local] Notation ask e := (Interaction.ask (Answer := SubmitAnswer) e).

(** The adapters word the node's errors. *)
Definition rpc_failure (what e : string) : string := "RPC failure: " +:+ what +:+ ": " +:+ e.
Definition send_what : string := "send_raw_transaction (legacy, skip_preflight=true)".
Definition send_raw_transaction (id : Uuid) (bytes : list byte) : SProg (Result string string) :=
  r ← ask (SendTx id bytes); Ret (map_err (rpc_failure send_what) r).
Definition rebroadcast (sig : Signature) (bytes : list byte) : SProg (Result string string) :=
  r ← ask (Resend sig bytes); Ret (map_err (rpc_failure send_what) r).
Definition current_block_height : SProg (Result string Z) :=
  r ← ask BlockHeight; Ret (map_err (rpc_failure "get_block_height") r).

(** The status provider, over the pool of clients: the reasons are the adapter's. *)
Definition finalized_height : SProg (Result string Z) :=
  r ← ask FinalHeight; Ret (map_err (λ e, "rpc failure: " +:+ e) r).
Definition get_signature_statuses (sigs : list Signature) :
    SProg (Result string (list (option SolendSignatureStatus))) :=
  r ← ask (Statuses sigs);
  Ret (match r with
       | Ok l => Ok (map (option_map node_status) l)
       | Err e => Err ("rpc failure: " +:+ e)
       end).

Section programs.
Context `{Sdk, SubmitCrates, TrackTexts, SigningTool.Base64, SigningTool.Base64Encode}.
Context (rt : Runtime).
Notation PText := ApprovalStore.PText.
Notation PId := ApprovalStore.PId.
Notation PNumber := ApprovalStore.PNumber.
Notation POptNumber := ApprovalStore.POptNumber.
Notation POptText := ApprovalStore.POptText.
Notation PBool := ApprovalStore.PBool.

(** ** The stores' operations *)

(** An expired entry is dropped and not returned. *)
Definition consume (id : Uuid) : SProg (option ParkedSolendSigning) :=
  now ← ask UtcNow;
  e ← ask (SignGet id);
  if match (e : option ParkedSolendSigning) with Some p => pk_expires_at p <=? now | None => true end
  then _ ← ask (SignRemove id); Ret None
  else ask (SignRemove id).

(** [tx_bytes_for_session]; its summary alone is [summary_for_session]. *)
Definition parked_for_session (session : SessionId) (id : Uuid) : SProg (option ParkedSolendSigning) :=
  now ← ask UtcNow;
  e ← ask (SignGet id);
  match (e : option ParkedSolendSigning) with
  | None => Ret None
  | Some p =>
      if pk_expires_at p <=? now then _ ← ask (SignRemove id); Ret None
      else if negb (bool_decide (pk_session_id p = session)) then Ret None
      else Ret (Some p)
  end.
Definition tx_bytes_for_session (session : SessionId) (id : Uuid) :
    SProg (option (SigningHandoffSummary * list byte)) :=
  p ← parked_for_session session id;
  Ret (match p with Some p => Some (summary_of id p, pk_tx_bytes p) | None => None end).
Definition summary_for_session (session : SessionId) (id : Uuid) : SProg (option SigningHandoffSummary) :=
  p ← parked_for_session session id;
  Ret (match p with Some p => Some (summary_of id p) | None => None end).

(** [summary] reads the entry twice. *)
Definition summary (id : Uuid) : SProg (option SigningHandoffSummary) :=
  now ← ask UtcNow;
  e ← ask (SignGet id);
  if match (e : option ParkedSolendSigning) with Some p => pk_expires_at p <=? now | None => true end
  then _ ← ask (SignRemove id); Ret None
  else e ← ask (SignGet id);
       Ret (match (e : option ParkedSolendSigning) with Some p => Some (summary_of id p) | None => None end).
Definition remove (id : Uuid) : SProg unit := _ ← ask (SignRemove id); Ret tt.
Fixpoint sweep (drop : Uuid → SProg unit) (ids : list Uuid) : SProg unit :=
  match ids with [] => Ret tt | id :: ids => _ ← drop id; sweep drop ids end.
(** [cleanup_expired] of the signing store; the listing sweeps first, as it does. *)
Definition cleanup_signing : SProg Z :=
  now ← ask UtcNow;
  ids ← ask (SignExpired now);
  _ ← sweep remove ids;
  Ret (Z.of_nat (length (ids : list Uuid))).
Definition pending_for_session (session : SessionId) : SProg (list SigningHandoffSummary) :=
  _ ← cleanup_signing;
  l ← ask (SignOwned session);
  Ret (map (λ x : Uuid * ParkedSolendSigning, summary_of x.1 x.2) l).

Definition record (recovery_ttl_seconds : Z) (id : Uuid) (session : SessionId)
    (o : RecordedSubmitOutcome) : SProg bool :=
  now ← ask UtcNow;
  ask (LcInsert id (MkRecorded session o now (after_seconds now recovery_ttl_seconds))).
Definition lookup_for_session (session : SessionId) (id : Uuid) : SProg (option RecoveredSubmission) :=
  now ← ask UtcNow;
  e ← ask (LcGet id);
  match (e : option RecordedSubmission) with
  | None => Ret None
  | Some r =>
      if rs_expires_at r <=? now then _ ← ask (LcRemove id); Ret None
      else if negb (bool_decide (rs_session_id r = session)) then Ret None
      else Ret (Some (MkRecovered id (rs_outcome r) (rs_recorded_at r)))
  end.

(** [cleanup_expired] of the lifecycle store *)
Definition cleanup_lifecycle : SProg Z :=
  now ← ask UtcNow;
  ids ← ask (LcExpired now);
  _ ← sweep (λ id, ask (LcRemove id)) ids;
  Ret (Z.of_nat (length (ids : list Uuid))).

(** ** Handoffs *)
Definition handoff_audit (id intent : Uuid) (session : SessionId) (fields : ApprovalStore.Payload) :
    SProg unit :=
  ask (AuditSolend "solend_signing_handoff_created" (id_text id) (Some (id_text session))
         ApprovalStore.SevInfo
         ([("signing_request_id", PId id); ("intent_id", PId intent);
           ("session_id", PText (id_text session))] ++ fields)).

(** Setup, refresh and deposit, with the placeholder replaced by the real key; before
    them, where it is configured, the record of the canonical intent. *)
Definition deposit_instructions (plan : SolendDepositTxPlan) (obligation : option Pubkey)
    (opts : option RecordIntentHandoffOptions) : list Instruction :=
  let real ixs := match dp_transient_obligation_pubkey plan, obligation with
                  | Some placeholder, Some key => replace_pubkey_in_instructions ixs placeholder key
                  | _, _ => ixs
                  end in
  let recorded := match opts with
                  | None => []
                  | Some o =>
                      let m := ro_canonical_metadata o in
                      [IntentProgram.record_intent_instruction rt (ro_demo_program_id o)
                         (dp_session_wallet plan)
                         (IntentProgram.MkRecordIntentArgs (CanonicalIntent.cm_schema_version m)
                            (CanonicalIntent.cm_intent_id m) (CanonicalIntent.cm_canonical_intent_hash m) 1
                            (CanonicalIntent.cm_expires_at_slot m) (ro_canonical_intent_bytes o))]
                  end in
  (recorded ++ real (dp_setup_instructions plan) ++ real (dp_refresh_instructions plan) ++
   real (dp_deposit_instructions plan))%list.
Definition withdraw_instructions (plan : SolendWithdrawTxPlan) : list Instruction :=
  (wp_setup_instructions plan ++ wp_refresh_instructions plan ++ wp_withdraw_instructions plan)%list.

Definition intent_gate (opts : option RecordIntentHandoffOptions) : Result SigningHandoffError unit :=
  match opts with
  | None => Ok tt
  | Some o =>
      match CanonicalIntent.check_intent_expiry (Some (ro_canonical_metadata o)) (ro_current_slot_for_gate o) with
      | Ok _ => Ok tt
      | Err (CanonicalIntent.IntentExpired current expires hex) =>
          Err (HandoffIntentExpired current expires (bytes_str hex))
      end
  end.
Definition consistent_plan (plan : SolendDepositTxPlan) : Result SigningHandoffError unit :=
  match dp_obligation_signer_required plan, dp_transient_obligation_pubkey plan with
  | true, None => Err MissingTransientObligation
  | false, Some _ => Err UnexpectedTransientObligation
  | _, _ => Ok tt
  end.
Definition preflight_passed (preflight : SolendPreflightOutcome) :
    Result SigningHandoffError (option Z * option Z) :=
  match preflight with
  | Passed _ simulation_slot units_consumed _ _ _ _ _ _ => Ok (simulation_slot, units_consumed)
  | _ => Err (PartialSignFailed "create_signing_handoff called with non-Passed preflight")
  end.

(** Signed with the obligation's pair where there is one, else only given its
    blockhash; with the obligation's signature. *)
Definition partially_signed (obligation : option Pubkey) (blockhash : list byte) (tx : Transaction) :
    Result SigningHandoffError (Transaction * option Signature) :=
  match obligation with
  | Some key =>
      tx ← map_err PartialSignFailed (try_partial_sign key blockhash tx);
      i ← ok_or (position key (account_keys (message tx)))
            (PartialSignFailed "obligation pubkey missing from account_keys after partial sign");
      Ok (tx, Some (default [] (signatures tx !! i)))
  | None => Ok (set_blockhash blockhash tx, None)
  end.

(** The transaction of a handoff, and what is parked of it. *)
Definition handoff_tx (ixs : list Instruction) (wallet : Pubkey) (obligation : option Pubkey)
    (blockhash : list byte) : Result SigningHandoffError (list byte * option Signature) :=
  '(tx, sig) ← partially_signed obligation blockhash (new_unsigned (message_new ixs (Some wallet)));
  bytes ← map_err (λ e, SerializationFailed ("bincode serialize: " +:+ e)) (tx_to_bytes tx);
  Ok (bytes, sig).

Definition fits (opts : option RecordIntentHandoffOptions) (bytes : list byte) :
    Result SigningHandoffError unit :=
  match opts with
  | Some _ => throw_if (PACKET_DATA_SIZE <? Z.of_nat (length bytes))
                (TxTooLargeWithRecordIntent (Z.of_nat (length bytes)) PACKET_DATA_SIZE)
  | None => Ok tt
  end.

Definition latest_blockhash : SProg (Result SigningHandoffError (list byte * Z)) :=
  r ← ask LatestBlockhash;
  Ret (map_err (λ e, BlockhashFetchFailed ("blockhash fetch failed: " +:+ e)) r).

(** Steps 2 to 7, with the pair of the obligation. *)
Definition park_deposit (plan : SolendDepositTxPlan) (simulation_slot units_consumed : option Z)
    (signing_lease_seconds : Z) (opts : option RecordIntentHandoffOptions) (obligation : option Pubkey) :
    SProg (Result SigningHandoffError SigningHandoffSummary) :=
  b ← latest_blockhash;
  match b with
  | Err e => Ret (Err e)
  | Ok (blockhash, last_valid) =>
      match ('(bytes, sig) ← handoff_tx (deposit_instructions plan obligation opts)
                               (dp_session_wallet plan) obligation blockhash;
             _ ← fits opts bytes; Ok (bytes, sig)) with
      | Err e => Ret (Err e)
      | Ok (bytes, sig) =>
          now ← ask UtcNow;
          let parked := MkSigning (dp_intent_id plan) (dp_session_id plan) (dp_session_wallet plan)
            (dp_action plan) (dp_verified_slot plan) simulation_slot units_consumed bytes blockhash
            last_valid obligation sig now (after_seconds now signing_lease_seconds) in
          id ← ask (SignInsert parked);
          _ ← handoff_audit id (dp_intent_id plan) (dp_session_id plan)
                [("session_wallet", PText (show_pubkey (dp_session_wallet plan)));
                 ("protocol", PText "Solend"); ("action", PText "Deposit"); ("asset", PText "USDC");
                 ("amount_raw", PNumber (LendingPolicy.amount_raw (dp_action plan)));
                 ("verified_slot", PNumber (dp_verified_slot plan));
                 ("simulation_slot", POptNumber simulation_slot);
                 ("last_valid_block_height", PNumber last_valid);
                 ("obligation_signer_backend_partial",
                   PBool (requires_backend_obligation_signature parked))];
          Ret (Ok (summary_of id parked))
      end
  end.
Definition create_signing_handoff (plan : SolendDepositTxPlan) (preflight : SolendPreflightOutcome)
    (signing_lease_seconds : Z) (opts : option RecordIntentHandoffOptions) :
    SProg (Result SigningHandoffError SigningHandoffSummary) :=
  match (_ ← intent_gate opts; _ ← consistent_plan plan; preflight_passed preflight) with
  | Err e => Ret (Err e)
  | Ok (simulation_slot, units_consumed) =>
      if dp_obligation_signer_required plan then
        key ← ask NewKeypair;
        park_deposit plan simulation_slot units_consumed signing_lease_seconds opts (Some key)
      else park_deposit plan simulation_slot units_consumed signing_lease_seconds opts None
  end.

Definition create_withdraw_signing_handoff (plan : SolendWithdrawTxPlan) (signing_lease_seconds : Z) :
    SProg (Result SigningHandoffError SigningHandoffSummary) :=
  if wp_obligation_signer_required plan || bool_decide (is_Some (wp_transient_obligation_pubkey plan))
  then Ret (Err UnexpectedTransientObligation) else
  b ← latest_blockhash;
  match b with
  | Err e => Ret (Err e)
  | Ok (blockhash, last_valid) =>
      match handoff_tx (withdraw_instructions plan) (wp_session_wallet plan) None blockhash with
      | Err e => Ret (Err e)
      | Ok (bytes, sig) =>
          now ← ask UtcNow;
          let parked := MkSigning (wp_intent_id plan) (wp_session_id plan) (wp_session_wallet plan)
            (wp_action plan) (wp_verified_slot plan) None None bytes blockhash last_valid None sig now
            (after_seconds now signing_lease_seconds) in
          id ← ask (SignInsert parked);
          _ ← handoff_audit id (wp_intent_id plan) (wp_session_id plan)
                [("session_wallet", PText (show_pubkey (wp_session_wallet plan)));
                 ("protocol", PText "Solend"); ("action", PText "Withdraw"); ("asset", PText "USDC");
                 ("collateral_amount_raw", PNumber (LendingPolicy.amount_raw (wp_action plan)));
                 ("obligation_pubkey", PText (show_pubkey (as_obligation_pubkey (wp_accounts_summary plan))));
                 ("reserve_pubkey", PText (show_pubkey (as_reserve_pubkey (wp_accounts_summary plan))));
                 ("verified_slot", PNumber (wp_verified_slot plan));
                 ("last_valid_block_height", PNumber last_valid);
                 ("obligation_signer_backend_partial", PBool false)];
          Ret (Ok (summary_of id parked))
      end
  end.

(** ** Submission *)
Definition MAX_BROADCAST_ATTEMPTS : nat := 4.
Definition SIGNED_TX_REJECTED : string := "solend_signed_tx_rejected".

(** The action is always called a deposit, a withdrawal's too. *)
Definition parked_fields (p : ParkedSolendSigning) : ApprovalStore.Payload :=
  [("intent_id", PId (pk_intent_id p)); ("session_wallet", PText (show_pubkey (pk_session_wallet p)));
   ("protocol", PText "Solend"); ("action", PText "Deposit"); ("asset", PText "USDC");
   ("amount_raw", PNumber (LendingPolicy.amount_raw (pk_action p)));
   ("verified_slot", PNumber (pk_verified_slot p));
   ("last_valid_block_height", PNumber (pk_last_valid_block_height p))].
Definition audit_rejected (id : Uuid) (parked : option ParkedSolendSigning)
    (error_type message : string) : SProg unit :=
  ask (AuditSolend SIGNED_TX_REJECTED (id_text id) (id_text ∘ pk_session_id <$> parked)
         ApprovalStore.SevWarning
         ([("signing_request_id", PId id); ("error_type", PText error_type); ("message", PText message)] ++
          default [] (parked_fields <$> parked))).
Definition submission_fields (id : Uuid) (p : ParkedSolendSigning) : ApprovalStore.Payload :=
  ([("signing_request_id", PId id); ("session_id", PText (id_text (pk_session_id p)))] ++
   parked_fields p ++ [("simulation_slot", POptNumber (pk_simulation_slot p))])%list.
Definition handoff_safe_payload (id : Uuid) (p : ParkedSolendSigning) (height : option Z) :
    ApprovalStore.Payload :=
  (submission_fields id p ++
   [("obligation_signer_backend_partial", PBool (requires_backend_obligation_signature p))] ++
   match height with Some h => [("current_block_height", PNumber h)] | None => [] end)%list.
Definition audit_parked (event : string) (id : Uuid) (p : ParkedSolendSigning)
    (severity : ApprovalStore.Severity) (payload : ApprovalStore.Payload) : SProg unit :=
  ask (AuditSolend event (id_text id) (Some (id_text (pk_session_id p))) severity payload).

Inductive BroadcastAttemptOutcome :=
| AttemptOk | SendError (m : string) | BlockhashExpired (m : string) | HeightFetchError (m : string).
Definition emit_broadcast_attempt_audit (id : Uuid) (p : ParkedSolendSigning) (tx_signature : string)
    (attempt_n : Z) (current remaining : option Z) (o : BroadcastAttemptOutcome) : SProg unit :=
  let '(severity, rpc_outcome, error) :=
    match o with
    | AttemptOk => (ApprovalStore.SevInfo, "ok", None)
    | SendError m => (ApprovalStore.SevWarning, "error", Some ("SendError", m))
    | BlockhashExpired m => (ApprovalStore.SevWarning, "error", Some ("BlockhashExpired", m))
    | HeightFetchError m => (ApprovalStore.SevWarning, "error", Some ("HeightFetchError", m))
    end in
  audit_parked "solend_transaction_broadcast_attempt" id p severity
    ([("signing_request_id", PId id); ("intent_id", PId (pk_intent_id p));
      ("session_id", PText (id_text (pk_session_id p))); ("wallet", PText (show_pubkey (pk_session_wallet p)));
      ("tx_signature", PText tx_signature); ("attempt_n", PNumber attempt_n);
      ("max_attempts", PNumber (Z.of_nat MAX_BROADCAST_ATTEMPTS)); ("current_block_height", POptNumber current);
      ("last_valid_block_height", PNumber (pk_last_valid_block_height p));
      ("remaining_block_budget", POptNumber remaining); ("rpc_outcome", PText rpc_outcome)] ++
     match error with
     | Some (k, m) => [("error_kind", PText k); ("error_message", PText m)]
     | None => []
     end).

(** The loop, with the attempts that are left: the signature the node gave and the
    number of the attempt, or why the last one failed.  The first attempt reuses the
    height of the freshness check. *)
Fixpoint broadcast (left : nat) (id : Uuid) (p : ParkedSolendSigning) (tx_signature : string)
    (bytes : list byte) (current_height : Z) (last_send_err : option string) :
    SProg (Result string (string * Z)) :=
  match left with
  | O => Ret (Err (default "solend rebroadcast loop ended without attempting" last_send_err))
  | S left' =>
      let attempt_n := Z.of_nat (MAX_BROADCAST_ATTEMPTS - left') in
      let last_valid := pk_last_valid_block_height p in
      h ← (if bool_decide (attempt_n = 1) then Ret (Ok current_height)
           else _ ← ask Sleep; current_block_height);
      match h with
      | Err msg =>
          _ ← emit_broadcast_attempt_audit id p tx_signature attempt_n None None (HeightFetchError msg);
          Ret (Err (default ("block height fetch: " +:+ msg) last_send_err))
      | Ok attempt_height =>
          if last_valid <? attempt_height then
            let msg := "blockhash expired before attempt " +:+ fmt attempt_n +:+ " of " +:+
              fmt (Z.of_nat MAX_BROADCAST_ATTEMPTS) +:+ ": current=" +:+ fmt attempt_height +:+
              ", last_valid=" +:+ fmt last_valid in
            _ ← emit_broadcast_attempt_audit id p tx_signature attempt_n (Some attempt_height) (Some 0)
                  (BlockhashExpired msg);
            Ret (Err (default msg last_send_err))
          else
            let remaining := Z.max 0 (last_valid - attempt_height) in
            r ← send_raw_transaction id bytes;
            match r with
            | Ok signature =>
                _ ← emit_broadcast_attempt_audit id p signature attempt_n (Some attempt_height)
                      (Some remaining) AttemptOk;
                Ret (Ok (signature, attempt_n))
            | Err msg =>
                _ ← emit_broadcast_attempt_audit id p tx_signature attempt_n (Some attempt_height)
                      (Some remaining) (SendError msg);
                broadcast left' id p tx_signature bytes current_height (Some msg)
            end
      end
  end.

Definition broadcast_verified (id : Uuid) (p : ParkedSolendSigning) (session_sig : Signature)
    (bytes : list byte) (current_height : Z) : SProg SolendSubmitOutcome :=
  _ ← audit_parked "solend_signed_tx_verified" id p ApprovalStore.SevInfo
        (handoff_safe_payload id p (Some current_height));
  r ← broadcast MAX_BROADCAST_ATTEMPTS id p (show_signature session_sig) bytes current_height None;
  match r with
  | Ok (signature, attempt_n) =>
      _ ← audit_parked "solend_transaction_submitted" id p ApprovalStore.SevInfo
            (submission_fields id p ++
             [("tx_signature", PText signature); ("broadcast_attempts_used", PNumber attempt_n);
              ("max_broadcast_attempts", PNumber (Z.of_nat MAX_BROADCAST_ATTEMPTS))])%list;
      Ret (OSubmitted signature (pk_intent_id p) (pk_session_wallet p) (pk_verified_slot p)
             (pk_last_valid_block_height p) bytes)
  | Err msg =>
      _ ← audit_parked "solend_transaction_submit_failed" id p ApprovalStore.SevError
            [("signing_request_id", PId id); ("intent_id", PId (pk_intent_id p));
             ("session_wallet", PText (show_pubkey (pk_session_wallet p)));
             ("error_type", PText "RpcBroadcastError"); ("message", PText msg);
             ("max_broadcast_attempts", PNumber (Z.of_nat MAX_BROADCAST_ATTEMPTS))];
      Ret (OBroadcastFailed "RpcBroadcastError" msg)
  end.

(** G, and the broadcast. *)
Definition check_fresh_and_send (id : Uuid) (p : ParkedSolendSigning) (session_sig : Signature)
    (bytes : list byte) : SProg SolendSubmitOutcome :=
  h ← current_block_height;
  match h with
  | Err e =>
      _ ← audit_rejected id (Some p) "BlockHeightFetchFailed" e;
      Ret (ORejected "BlockHeightFetchFailed" e)
  | Ok current_height =>
      let last_valid := pk_last_valid_block_height p in
      if last_valid <? current_height then
        let msg := "current_block_height " +:+ fmt current_height +:+ " > last_valid_block_height " +:+
                   fmt last_valid in
        _ ← audit_parked SIGNED_TX_REJECTED id p ApprovalStore.SevWarning
              [("signing_request_id", PId id); ("intent_id", PId (pk_intent_id p));
               ("session_wallet", PText (show_pubkey (pk_session_wallet p)));
               ("error_type", PText "BlockhashExpired"); ("message", PText msg);
               ("last_valid_block_height", PNumber last_valid);
               ("current_block_height", PNumber current_height)];
        Ret (OExpired msg)
      else broadcast_verified id p session_sig bytes current_height
  end.

Definition refuse (id : Uuid) (p : option ParkedSolendSigning) (error_type audited message : string) :
    SProg (option SolendSubmitOutcome) :=
  _ ← audit_rejected id p error_type audited; Ret (Some (ORejected error_type message)).

(** [submit_signed_solend_transaction]; no outcome when it panics. *)
Definition submit_signed_solend_transaction (id : Uuid) (signed_tx_b64 : string) :
    SProg (option SolendSubmitOutcome) :=
  match SigningTool.base64_bytes signed_tx_b64 with
  | Err e => let m := "base64 decode: " +:+ e in refuse id None "MalformedBase64" m m
  | Ok bytes =>
      match tx_from_bytes bytes with
      | Err e => let m := "bincode deserialize: " +:+ e in refuse id None "MalformedTransaction" m m
      | Ok tx =>
          parked ← consume id;
          match (parked : option ParkedSolendSigning) with
          | None =>
              _ ← ask (AuditSolend SIGNED_TX_REJECTED (id_text id) None ApprovalStore.SevWarning
                         [("signing_request_id", PId id); ("error_type", PText "NotFound");
                          ("message", PText "signing request missing or expired at consume")]);
              Ret (Some ONotFound)
          | Some p =>
              _ ← audit_parked "solend_signed_tx_received" id p ApprovalStore.SevInfo
                    (handoff_safe_payload id p None);
              match tx_from_bytes (pk_tx_bytes p) with
              | Err e => refuse id (Some p) "InternalParkedTxCorrupted" e e
              | Ok parked_tx =>
                  match verify p parked_tx tx with
                  | None => Ret None
                  | Some (Err r) => refuse id (Some p) (rf_type r) (rf_audit r) (rf_message r)
                  | Some (Ok session_sig) =>
                      o ← check_fresh_and_send id p session_sig bytes; Ret (Some o)
                  end
              end
          end
      end
  end.

(** ** The tracker's entry *)
Inductive TrackResult := Started | AlreadyTracked | AlreadyTerminal.
Definition enqueue (c : SolendTrackedContext) : SProg TrackResult :=
  terminal ← ask (LcTerminal (cx_signing_request_id c));
  if (terminal : bool) then Ret AlreadyTerminal else
  vacant ← ask (TrInsert c);
  if (vacant : bool) then
    _ ← ask (SpawnAudit "solend_transaction_confirmation_started" (id_text (cx_signing_request_id c))
               (Some (id_text (cx_session_id c))) ApprovalStore.SevInfo
               [("signing_request_id", PId (cx_signing_request_id c)); ("intent_id", PId (cx_intent_id c));
                ("session_id", PText (id_text (cx_session_id c)));
                ("session_wallet", PText (show_pubkey (cx_session_wallet c)));
                ("tx_signature", PText (sig_text (cx_tx_signature c)));
                ("last_valid_block_height", PNumber (cx_last_valid_block_height c));
                ("submission_block_height", PNumber (cx_submission_block_height c))]);
    Ret Started
  else Ret AlreadyTracked.

(** ** The handler behind the API *)
Definition recovered_to_retrieval_result (r : RecoveredSubmission) : SolendRetrievalResult :=
  let id := rv_signing_request_id r in
  match rv_outcome r with
  | RSubmitted s intent _ _ lv => GSubmitted id intent s lv
  | RConfirming s slot intent _ lv => GConfirming id intent s slot lv
  | RFinalized s slot intent _ _ => GFinalized id intent s slot
  | RExecutionFailed s intent _ err => GFailed id intent s err
  | RConfirmationTimeout s lv current reason => GConfirmationTimeout id s lv current true reason
  | RRejected t m => GRejected id t m
  | RBroadcastFailed t m => GBroadcastFailed id t m
  | RExpired reason => GPreSubmitExpired reason
  end.
Definition recovered_to_submit_result (r : RecoveredSubmission) : SolendSubmitResult :=
  let id := rv_signing_request_id r in
  match rv_outcome r with
  | RSubmitted s _ _ _ _ | RConfirming s _ _ _ _ | RFinalized s _ _ _ _ | RExecutionFailed s _ _ _
  | RConfirmationTimeout s _ _ _ => PRecovered id s (rv_recorded_at r)
  | RExpired reason => PExpired reason
  | RRejected t m => PRejected t m
  | RBroadcastFailed t m => PBroadcastFailed id t m
  end.

Definition retrieve (session : SessionId) (id : Uuid) : SProg SolendRetrievalResult :=
  found ← tx_bytes_for_session session id;
  match found with
  | Some (s, bytes) =>
      Ret (GFound (hs_signing_request_id s) (hs_intent_id s) (show_pubkey (hs_session_wallet s))
             (SigningTool.base64_text bytes) (hs_obligation_signer_backend_partial s)
             (hs_last_valid_block_height s) (hs_expires_at s) (hs_verified_slot s) (hs_simulation_slot s)
             (hs_units_consumed s))
  | None =>
      r ← lookup_for_session session id;
      Ret (match r with Some r => recovered_to_retrieval_result r | None => GNotFound end)
  end.

(** ** The rounds of the tracker *)
Definition POLL_ERROR : string := "solend_transaction_confirmation_poll_error".
Definition poll_error (fields : ApprovalStore.Payload) : SProg unit :=
  ask (AuditSolend POLL_ERROR "unknown" None ApprovalStore.SevWarning fields).

Definition commitment_of (s : TxState) : string :=
  match s with
  | Confirmed _ => "confirmed" | Finalized _ => "finalized" | Failed _ => "failed"
  | Expired => "expired" | _ => "other"
  end.
(** The outcome a state stands for, with its event. *)
Definition outcome_of_state (c : SolendTrackedContext) (current_height : Z) (s : TxState) :
    option (RecordedSubmitOutcome * string * ApprovalStore.Severity) :=
  let sig := sig_text (cx_tx_signature c) in
  let lv := cx_last_valid_block_height c in
  match s with
  | Submitted | Dropped => None
  | Confirmed slot =>
      Some (RConfirming sig slot (cx_intent_id c) (cx_session_wallet c) lv,
            "solend_transaction_confirmed", ApprovalStore.SevInfo)
  | Finalized slot =>
      Some (RFinalized sig slot (cx_intent_id c) (cx_session_wallet c) lv,
            "solend_transaction_finalized", ApprovalStore.SevInfo)
  | Failed err =>
      Some (RExecutionFailed sig (cx_intent_id c) (cx_session_wallet c) err,
            "solend_transaction_failed", ApprovalStore.SevWarning)
  | Expired =>
      Some (RConfirmationTimeout sig lv current_height
              ("current_block_height " +:+ fmt current_height +:+ " > last_valid_block_height " +:+
               fmt lv +:+ " without finalized observation"),
            "solend_transaction_confirmation_timeout", ApprovalStore.SevWarning)
  end.
Definition on_state_change (c : SolendTrackedContext) (new_state : TxState) (current_height : Z) :
    SProg unit :=
  match outcome_of_state c current_height new_state with
  | None => Ret tt
  | Some (outcome, event, severity) =>
      moved ← ask (LcTransition (cx_signing_request_id c) (cx_session_id c) outcome);
      if negb moved then Ret tt else
      ask (AuditSolend event (id_text (cx_signing_request_id c)) (Some (id_text (cx_session_id c))) severity
             [("signing_request_id", PId (cx_signing_request_id c)); ("intent_id", PId (cx_intent_id c));
              ("session_id", PText (id_text (cx_session_id c)));
              ("session_wallet", PText (show_pubkey (cx_session_wallet c)));
              ("tx_signature", PText (sig_text (cx_tx_signature c)));
              ("last_valid_block_height", PNumber (cx_last_valid_block_height c));
              ("current_block_height", PNumber current_height);
              ("slot", POptNumber (slot_of new_state));
              ("err", POptText (match new_state with Failed err => Some err | _ => None end));
              ("commitment", PText (commitment_of new_state))])
  end.

Definition next_cx_state (obs : RpcObservation) (height : Z) (c : SolendTrackedContext) : TxState :=
  calculate_next_state (cx_state c) obs height (cx_submission_block_height c) (cx_last_valid_block_height c).
Definition observe_status (height : Z) (sig : Signature) (status : option SolendSignatureStatus) : SProg unit :=
  c ← ask (TrGet sig);
  match (c : option SolendTrackedContext) with
  | None => Ret tt
  | Some c =>
      let new_state := next_cx_state (to_observation status) height c in
      if bool_decide (new_state = cx_state c) then Ret tt else
      _ ← ask (TrState sig new_state);
      on_state_change c new_state height
  end.
Fixpoint observe_statuses (height : Z) (l : list (Signature * option SolendSignatureStatus)) : SProg unit :=
  match l with
  | [] => Ret tt
  | (sig, status) :: l => _ ← observe_status height sig status; observe_statuses height l
  end.

Definition resend_fields (c : SolendTrackedContext) (height : Z) : ApprovalStore.Payload :=
  [("signing_request_id", PId (cx_signing_request_id c)); ("intent_id", PId (cx_intent_id c));
   ("session_id", PText (id_text (cx_session_id c))); ("wallet", PText (show_pubkey (cx_session_wallet c)));
   ("tx_signature", PText (sig_text (cx_tx_signature c))); ("current_block_height", PNumber height);
   ("last_valid_block_height", PNumber (cx_last_valid_block_height c))].
Definition audit_context (event : string) (c : SolendTrackedContext) (severity : ApprovalStore.Severity)
    (fields : ApprovalStore.Payload) : SProg unit :=
  ask (AuditSolend event (id_text (cx_signing_request_id c)) (Some (id_text (cx_session_id c))) severity fields).
Definition resend_one (height : Z) (sig : Signature) : SProg unit :=
  c ← ask (TrGet sig);
  match (c : option SolendTrackedContext) with
  | None => Ret tt
  | Some c =>
      match resend_verdict height c with
      | SkipResend => Ret tt
      | TripGuard =>
          if cx_blockhash_guard_audited c then Ret tt else
          _ ← audit_context "solend_transaction_blockhash_expired_during_confirmation" c
                ApprovalStore.SevWarning
                (resend_fields c height ++
                 [("guard_buffer_blocks", PNumber BLOCKHASH_GUARD_BUFFER_BLOCKS);
                  ("rebroadcast_attempts", PNumber (cx_rebroadcast_attempts c))])%list;
          ask (TrGuard sig)
      | TryResend bytes =>
          now ← ask InstantNow;
          if negb (interval_due now c) then Ret tt else
          let attempt_n := cx_rebroadcast_attempts c + 1 in
          r ← rebroadcast sig bytes;
          _ ← ask (TrAttempts sig attempt_n now);
          let fields := (resend_fields c height ++
            [("attempt_n", PNumber attempt_n); ("max_attempts", PNumber MAX_CONFIRMATION_REBROADCAST_ATTEMPTS);
             ("remaining_block_budget", PNumber (Z.max 0 (cx_last_valid_block_height c - height)))])%list in
          match r with
          | Ok _ => audit_context "solend_transaction_rebroadcast_attempt" c ApprovalStore.SevInfo
                      (fields ++ [("rpc_outcome", PText "ok")])%list
          | Err e => audit_context "solend_transaction_rebroadcast_attempt" c ApprovalStore.SevWarning
                       (fields ++ [("rpc_outcome", PText "error"); ("error_kind", PText "SendError");
                                   ("error_message", PText e)])%list
          end
      end
  end.
Fixpoint resend_pass (height : Z) (observed : list Signature) (sigs : list Signature) : SProg unit :=
  match sigs with
  | [] => Ret tt
  | sig :: sigs =>
      _ ← (if bool_decide (sig ∈ observed) then Ret tt else resend_one height sig);
      resend_pass height observed sigs
  end.
Fixpoint prune (sigs : list Signature) : SProg unit :=
  match sigs with [] => Ret tt | sig :: sigs => _ ← ask (TrRemove sig); prune sigs end.

(** The signatures the node knows. *)
Definition observed_non_null (l : list (Signature * option SolendSignatureStatus)) : list Signature :=
  omap (λ x, match x.2 with Some _ => Some x.1 | None => None end) l.
Definition tick_once : SProg unit :=
  h ← finalized_height;
  match h with
  | Err e => poll_error [("error", PText e); ("phase", PText "current_block_height")]
  | Ok height =>
      sigs ← ask TrKeys;
      if bool_decide ((sigs : list Signature) = []) then Ret tt else
      r ← get_signature_statuses sigs;
      match r with
      | Err e => poll_error [("error", PText e); ("phase", PText "get_signature_statuses");
                             ("batch_size", PNumber (Z.of_nat (length (sigs : list Signature))))]
      | Ok statuses =>
          let zipped := zip sigs statuses in
          _ ← observe_statuses height zipped;
          _ ← resend_pass height (observed_non_null zipped) sigs;
          terminal ← ask TrTerminal;
          prune terminal
      end
  end.
Definition run_round : SProg unit :=
  idle ← ask TrEmpty; if (idle : bool) then Ret tt else tick_once.

(** *** Recovery when the tracker is wired *)
Definition recovered_terms (o : RecordedSubmitOutcome) : option (string * Uuid * Pubkey * Z) :=
  match o with
  | RSubmitted s intent wallet _ lv | RConfirming s _ intent wallet lv => Some (s, intent, wallet, lv)
  | _ => None
  end.
Definition recover_one (id : Uuid) (session : SessionId) (o : RecordedSubmitOutcome) : SProg unit :=
  match recovered_terms o with
  | None => Ret tt
  | Some (s, intent, wallet, lv) =>
      match sig_parse s with
      | None => Ret tt
      | Some sig =>
          now ← ask InstantNow;
          _ ← enqueue (new_submitted id intent session wallet lv 0 sig None now);
          Ret tt
      end
  end.
Fixpoint recover_all (l : list (Uuid * SessionId * RecordedSubmitOutcome)) : SProg unit :=
  match l with
  | [] => Ret tt
  | (id, session, o) :: l => _ ← recover_one id session o; recover_all l
  end.
Definition wire_solend_confirmation_tracker : SProg unit :=
  now ← ask UtcNow;
  l ← ask (LcOpen now);
  recover_all l.

Context (recovery_ttl_seconds : Z).

Definition recover_submission (session : SessionId) (id : Uuid) : SProg SolendSubmitResult :=
  r ← lookup_for_session session id;
  Ret (match r with Some r => recovered_to_submit_result r | None => PNotFound end).

(** Handing a broadcast transaction to the tracker; the audit's text of the parser's
    error is left out. *)
Definition track_submission (id : Uuid) (session : SessionId) (intent : Uuid) (wallet : Pubkey)
    (last_valid : Z) (tx_signature : string) (bytes : list byte) : SProg unit :=
  h ← current_block_height;
  let submission_height := match h with Ok h => h | Err _ => last_valid end in
  match sig_parse tx_signature with
  | Some sig =>
      now ← ask InstantNow;
      _ ← enqueue (new_submitted id intent session wallet last_valid submission_height sig (Some bytes) now);
      Ret tt
  | None =>
      ask (AuditSolend POLL_ERROR (id_text id) (Some (id_text session))
             ApprovalStore.SevWarning
             [("signing_request_id", PId id); ("tx_signature", PText tx_signature);
              ("phase", PText "enqueue_parse_signature")])
  end.

(** No result when the submission panics. *)
Definition submit (session : SessionId) (id : Uuid) (signed_tx_b64 : string) :
    SProg (option SolendSubmitResult) :=
  peek ← summary_for_session session id;
  match peek with
  | None => r ← recover_submission session id; Ret (Some r)
  | Some _ =>
      outcome ← submit_signed_solend_transaction id signed_tx_b64;
      match outcome with
      | None => Ret None
      | Some (OSubmitted s intent wallet verified_slot lv bytes) =>
          _ ← record recovery_ttl_seconds id session (RSubmitted s intent wallet verified_slot lv);
          _ ← track_submission id session intent wallet lv s bytes;
          Ret (Some (PSubmitted id intent (show_pubkey wallet) s verified_slot lv))
      | Some ONotFound => r ← recover_submission session id; Ret (Some r)
      | Some (OExpired reason) =>
          _ ← record recovery_ttl_seconds id session (RExpired reason); Ret (Some (PExpired reason))
      | Some (ORejected t m) =>
          _ ← record recovery_ttl_seconds id session (RRejected t m); Ret (Some (PRejected t m))
      | Some (OBroadcastFailed t m) =>
          _ ← record recovery_ttl_seconds id session (RBroadcastFailed t m);
          Ret (Some (PBroadcastFailed id t m))
      end
  end.
End programs.
