(* ===== verification/SubmitLogic.v ===== *)
(** * Solend submission: handlers over the shared stores

    Handlers and the tracker's loop, interleaved at every await over the two stores and
    the tracker's map; what stands behind an entry of their history; and that the
    handlers respect it. *)
From S2P Require Import Prelude Interaction WatcherBase Solana SdkTypes TxLifecycle TxTracker.
From S2P Require Import SubmitStores SubmitFlow.
From S2P Require IntentProgram SigningTool.
#[local] Open Scope string_scope.
#[local] Open Scope Z_scope.

(** ** The history, newest first *)
Inductive SubmitEntry :=
| XBlockhash (hash : list byte) (last_valid : Z)
| XParked (id : Uuid) (p : ParkedSolendSigning)
| XTaken (id : Uuid) (p : ParkedSolendSigning)
| XReceived (session : SessionId) (id : Uuid) (signed_tx_b64 : string)
| XHeight (height : Z)
| XNoHeight (e : string)
| XSent (id : Uuid) (bytes : list byte) (r : Result string string)
| XTracked (key : Signature) (c : SolendTrackedContext)
| XState (key : Signature) (s : TxState)
| XGuard (key : Signature)
| XAttempts (key : Signature) (n now : Z)
| XUntracked (key : Signature)
| XFinalHeight (height : Z)
| XStatuses (sigs : list Signature) (statuses : list (option NodeStatus))
| XResent (key : Signature) (bytes : list byte)
| XAnswered (session : SessionId) (id : Uuid) (r : Reply)
| XWired.
Notation SubmitLog := (list SubmitEntry).

(** The tracker's entry of a signature, as the history tells it. *)
Fixpoint ctx_of (key : Signature) (l : SubmitLog) : option SolendTrackedContext :=
  match l with
  | [] => None
  | x :: l =>
      match x with
      | XTracked k c => if bool_decide (k = key) then Some c else ctx_of key l
      | XState k s => if bool_decide (k = key) then set_cx_state s <$> ctx_of key l else ctx_of key l
      | XGuard k => if bool_decide (k = key) then set_cx_guard <$> ctx_of key l else ctx_of key l
      | XAttempts k n now =>
          if bool_decide (k = key) then set_cx_attempts n now <$> ctx_of key l else ctx_of key l
      | XUntracked k => if bool_decide (k = key) then None else ctx_of key l
      | XWired => None
      | _ => ctx_of key l
      end
  end.

(** How often a request was submitted, and how often a signature was broadcast again
    since it was last added to the tracker. *)
Fixpoint sends (id : Uuid) (l : SubmitLog) : nat :=
  match l with
  | [] => 0
  | XSent i _ _ :: l => if bool_decide (i = id) then S (sends id l) else sends id l
  | _ :: l => sends id l
  end.
Fixpoint resends_since (key : Signature) (l : SubmitLog) : Z :=
  match l with
  | [] => 0
  | x :: l =>
      match x with
      | XTracked k _ => if bool_decide (k = key) then 0 else resends_since key l
      | XResent k _ => if bool_decide (k = key) then 1 + resends_since key l else resends_since key l
      | _ => resends_since key l
      end
  end.

(** What an event adds. *)
Definition submit_entries (e : SubmitEvent) : SubmitAnswer e → SubmitLog :=
  match e return SubmitAnswer e → SubmitLog with
  | LatestBlockhash => λ a, match a with Ok (h, lv) => [XBlockhash h lv] | Err _ => [] end
  | SignInsert p => λ id, [XParked id p]
  | SignRemove id => λ a, match a with Some p => [XTaken id p] | None => [] end
  | BlockHeight => λ a, match a with Ok h => [XHeight h] | Err e => [XNoHeight e] end
  | Receive session id b64 => λ _, [XReceived session id b64]
  | FinalHeight => λ a, match a with Ok h => [XFinalHeight h] | Err _ => [] end
  | Statuses sigs => λ a, match a with Ok s => [XStatuses sigs s] | Err _ => [] end
  | SendTx id bytes => λ r, [XSent id bytes r]
  | Resend key bytes => λ _, [XResent key bytes]
  | TrInsert c => λ vacant : bool, if vacant then [XTracked (cx_tx_signature c) c] else []
  | TrState key s => λ _, [XState key s]
  | TrGuard key => λ _, [XGuard key]
  | TrAttempts key n now => λ _, [XAttempts key n now]
  | TrRemove key => λ _, [XUntracked key]
  | Answer session id r => λ _, [XAnswered session id r]
  | _ => λ _, []
  end.

(** ** State and events *)
Record SubmitState := MkSubmit {
  sb_signing : SigningMap;
  sb_lifecycle : LifecycleMap;
  sb_tracked : gmap Signature SolendTrackedContext;
  sb_log : SubmitLog
}.

(** What the environment decides: clocks, random values, the node, and what an
    iteration over a map meets. *)
Record SubmitEnv := MkSubmitEnv {
  sv_utc : Z;
  sv_instant : Z;
  sv_uuid : Uuid;
  sv_keypair : Pubkey;
  sv_blockhash : Result string (list byte * Z);
  sv_height : Result string Z;
  sv_final_height : Result string Z;
  sv_statuses : list Signature → Result string (list (option NodeStatus));
  sv_send : Result string string;
  sv_keys : list Signature;
  sv_ids : list Uuid
}.

Section semantics.
Implicit Types (st : SubmitState) (env : SubmitEnv).

Definition with_signing (m : SigningMap) st : SubmitState :=
  MkSubmit m (sb_lifecycle st) (sb_tracked st) (sb_log st).
Definition with_lifecycle (m : LifecycleMap) st : SubmitState :=
  MkSubmit (sb_signing st) m (sb_tracked st) (sb_log st).
Definition with_tracked m st : SubmitState :=
  MkSubmit (sb_signing st) (sb_lifecycle st) m (sb_log st).
Definition on_tracked (f : SolendTrackedContext → SolendTrackedContext) (key : Signature) st : SubmitState :=
  with_tracked (alter f key (sb_tracked st)) st.

(** [non_terminal_snapshot] *)
Definition open_records (ids : list Uuid) (now : Z) (m : LifecycleMap) :
    list (Uuid * SessionId * RecordedSubmitOutcome) :=
  omap (λ id, match m !! id with
              | Some r => if (now <? rs_expires_at r) && negb (outcome_terminal (rs_outcome r))
                          then Some (id, rs_session_id r, rs_outcome r) else None
              | None => None
              end) ids.

Definition submit_answer env (e : SubmitEvent) st : SubmitAnswer e * SubmitState :=
  match e return SubmitAnswer e * SubmitState with
  | UtcNow => (sv_utc env, st)
  | InstantNow => (sv_instant env, st)
  | NewKeypair => (sv_keypair env, st)
  | SignGet id => (sb_signing st !! id, st)
  | SignRemove id => (sb_signing st !! id, with_signing (delete id (sb_signing st)) st)
  | SignExpired now =>
      (List.filter (λ id, match sb_signing st !! id with Some p => pk_expires_at p <=? now | None => false end)
         (sv_ids env), st)
  | SignOwned session =>
      (omap (λ id, match sb_signing st !! id with
                   | Some p => if bool_decide (pk_session_id p = session) then Some (id, p) else None
                   | None => None
                   end) (sv_ids env), st)
  | LcExpired now =>
      (List.filter (λ id, match sb_lifecycle st !! id with Some r => rs_expires_at r <=? now | None => false end)
         (sv_ids env), st)
  | SignInsert p => (sv_uuid env, with_signing (<[sv_uuid env := p]> (sb_signing st)) st)
  | LcGet id => (sb_lifecycle st !! id, st)
  | LcRemove id => (tt, with_lifecycle (delete id (sb_lifecycle st)) st)
  | LcTerminal id => (outcome_is_terminal id (sb_lifecycle st), st)
  | LcInsert id r => let '(b, m) := or_insert id r (sb_lifecycle st) in (b, with_lifecycle m st)
  | LcTransition id session o =>
      let '(b, m) := transition id session o (sb_lifecycle st) in (b, with_lifecycle m st)
  | LcOpen now => (open_records (sv_ids env) now (sb_lifecycle st), st)
  | TrEmpty => (bool_decide (sb_tracked st = ∅), st)
  | TrKeys => (List.filter (λ k, bool_decide (is_Some (sb_tracked st !! k))) (sv_keys env), st)
  | TrGet key => (sb_tracked st !! key, st)
  | TrInsert c =>
      match sb_tracked st !! cx_tx_signature c with
      | Some _ => (false, st)
      | None => (true, with_tracked (<[cx_tx_signature c := c]> (sb_tracked st)) st)
      end
  | TrState key s => (tt, on_tracked (set_cx_state s) key st)
  | TrGuard key => (tt, on_tracked set_cx_guard key st)
  | TrAttempts key n now => (tt, on_tracked (set_cx_attempts n now) key st)
  | TrTerminal =>
      (List.filter (λ k, match sb_tracked st !! k with Some c => is_terminal (cx_state c) | None => false end)
         (sv_keys env), st)
  | TrRemove key => (tt, with_tracked (delete key (sb_tracked st)) st)
  | LatestBlockhash => (sv_blockhash env, st)
  | BlockHeight => (sv_height env, st)
  | FinalHeight => (sv_final_height env, st)
  | Statuses sigs => (sv_statuses env sigs, st)
  | SendTx _ _ | Resend _ _ => (sv_send env, st)
  | Sleep | AuditSolend _ _ _ _ _ | SpawnAudit _ _ _ _ _ | Receive _ _ _ | Answer _ _ _ => (tt, st)
  end.
Definition logged (es : SubmitLog) st : SubmitState :=
  MkSubmit (sb_signing st) (sb_lifecycle st) (sb_tracked st) (es ++ sb_log st).
Definition submit_event env (e : SubmitEvent) st : SubmitAnswer e * SubmitState :=
  let '(a, st') := submit_answer env e st in (a, logged (submit_entries e a) st').

(** A fresh id has not been used. *)
Definition env_fresh env (l : SubmitLog) : Prop := ∀ p, XParked (sv_uuid env) p ∉ l.
End semantics.

Section pools.
Context `{Sdk, SubmitCrates, TrackTexts, SigningTool.Base64, SigningTool.Base64Encode}.
Context (rt : Runtime) (recovery_ttl_seconds : Z).

(** What clients and operators may start: the handoff of a plan, a question for a
    request, a submission; and the upkeep of the stores. *)
Definition respond (session : SessionId) (id : Uuid) (r : Reply) : SProg unit :=
  Interaction.ask (Answer := SubmitAnswer) (Answer session id r).
Definition discard {A} (p : SProg A) : SProg unit := _ ← p; Ret tt.
Definition answering {A} (session : SessionId) (id : Uuid) (reply : A → Reply) (p : SProg A) : SProg unit :=
  r ← p; respond session id (reply r).
Definition answering_opt {A} (session : SessionId) (id : Uuid) (reply : A → Reply) (p : SProg (option A)) :
    SProg unit :=
  r ← p; match r with Some r => respond session id (reply r) | None => Ret tt end.
(** A submission, from what the client sends to what it is answered. *)
Definition posting (session : SessionId) (id : Uuid) (b64 : string) : SProg unit :=
  _ ← Interaction.ask (Answer := SubmitAnswer) (Receive session id b64);
  answering_opt session id SubmitReply (submit recovery_ttl_seconds session id b64).
Inductive submit_program : SProg unit → Prop :=
| DepositHandoff plan preflight lease opts :
    submit_program (discard (create_signing_handoff rt plan preflight lease opts))
| WithdrawHandoff plan lease : submit_program (discard (create_withdraw_signing_handoff plan lease))
| Retrieving session id : submit_program (answering session id RetrieveReply (retrieve session id))
| Submitting session id b64 : submit_program (posting session id b64)
| Summarizing id : submit_program (discard (summary id))
| Listing session : submit_program (discard (pending_for_session session))
| Removing id : submit_program (discard (remove id))
| Sweeping : submit_program (discard cleanup_signing)
| SweepingRecords : submit_program (discard cleanup_lifecycle).

(** ** Interleaving *)
Record SubmitPool := MkPool {
  sp_loop : SProg unit;
  sp_handlers : gmap nat (SProg unit);
  sp_state : SubmitState
}.
Definition rewired (st : SubmitState) : SubmitState :=
  MkSubmit (sb_signing st) (sb_lifecycle st) ∅ (XWired :: sb_log st).

(** The tracker can be wired anew, to the same stores, when no handler runs. *)
Inductive submit_step : SubmitPool → SubmitPool → Prop :=
| round_starts hs st : submit_step (MkPool (Ret tt) hs st) (MkPool run_round hs st)
| loop_runs e k hs st env a st' :
    env_fresh env (sb_log st) → submit_event env e st = (a, st') →
    submit_step (MkPool (Vis e k) hs st) (MkPool (k a) hs st')
| handler_starts lo hs st n p :
    hs !! n = None → submit_program p → submit_step (MkPool lo hs st) (MkPool lo (<[n := p]> hs) st)
| handler_runs lo hs st n e k env a st' :
    hs !! n = Some (Vis e k) → env_fresh env (sb_log st) → submit_event env e st = (a, st') →
    submit_step (MkPool lo hs st) (MkPool lo (<[n := k a]> hs) st')
| handler_stops lo hs st n : submit_step (MkPool lo hs st) (MkPool lo (delete n hs) st)
| tracker_wired lo st :
    submit_step (MkPool lo ∅ st) (MkPool wire_solend_confirmation_tracker ∅ (rewired st)).

Inductive submit_reachable : SubmitPool → Prop :=
| submit_begins : submit_reachable (MkPool wire_solend_confirmation_tracker ∅ (MkSubmit ∅ ∅ ∅ []))
| submit_more pl pl' : submit_reachable pl → submit_step pl pl' → submit_reachable pl'.
End pools.

(** What was in a history is in its extensions. *)
Ltac kept := match goal with
  | Hs : ?l `suffix_of` ?l', Hx : _ ∈ ?l |- _ ∈ ?l' => exact (elem_of_suffix _ _ _ Hx Hs)
  end.

(** The request a handler has taken, and how often it submitted it. *)
Notation Taken := (option (Uuid * ParkedSolendSigning * nat)).

(** ** What stands behind an entry *)
Section logic.
Context `{Sdk, SubmitCrates, TrackTexts, SigningTool.Base64, SigningTool.Base64Encode}.
Context (rt : Runtime) (recovery_ttl_seconds : Z).
Implicit Types (l : SubmitLog) (key : Signature) (p : ParkedSolendSigning) (c : SolendTrackedContext).

(** *** What is parked *)

(** The instructions of a plan whose wallet, session and action the entry carries. *)
Definition planned p (ixs : list Instruction) : Prop :=
  (∃ plan opts, ixs = deposit_instructions rt plan (obligation_keypair p) opts ∧
     intent_gate opts = Ok tt ∧ consistent_plan plan = Ok tt ∧
     (is_Some (obligation_keypair p) ↔ dp_obligation_signer_required plan = true) ∧
     (pk_session_wallet p, pk_session_id p, pk_intent_id p, pk_action p) =
     (dp_session_wallet plan, dp_session_id plan, dp_intent_id plan, dp_action plan)) ∨
  (∃ plan, ixs = withdraw_instructions plan ∧ obligation_keypair p = None ∧
     (pk_session_wallet p, pk_session_id p, pk_intent_id p, pk_action p) =
     (wp_session_wallet plan, wp_session_id plan, wp_intent_id plan, wp_action plan)).
Definition with_blockhash (h : list byte) (m : Message) : Message :=
  MkMessage (header m) (account_keys m) h (msg_instructions m).
(** Its message is compiled from them, for the wallet to pay, at a blockhash of the node. *)
Definition plan_message p (ixs : list Instruction) : Message :=
  with_blockhash (pk_recent_blockhash p) (message_new ixs (Some (pk_session_wallet p))).
Definition prepared l p : Prop :=
  XBlockhash (pk_recent_blockhash p) (pk_last_valid_block_height p) ∈ l ∧
  ∃ ixs tx, planned p ixs ∧ tx_to_bytes tx = Ok (pk_tx_bytes p) ∧ message tx = plan_message p ixs ∧
    parked_obligation_signature p =
      (key ← obligation_keypair p; i ← position key (account_keys (message tx));
       Some (default [] (signatures tx !! i))).

(** *** What may be submitted *)
Definition accepted p (tx : Transaction) : Prop :=
  (∃ parked_tx, tx_from_bytes (pk_tx_bytes p) = Ok parked_tx ∧
     message_hash (message tx) = message_hash (message parked_tx)) ∧
  (∃ sig, head (signatures tx) = Some sig ∧ sig_verify sig (pk_session_wallet p) (message_data tx) = true) ∧
  (∀ key, obligation_keypair p = Some key → ∃ i sig,
     account_keys (message tx) !! i = Some key ∧ parked_obligation_signature p = Some sig ∧
     signatures tx !! i = Some sig ∧ sig_verify sig key (message_data tx) = true).
Definition submittable l p (bytes : list byte) : Prop :=
  (∃ tx, tx_from_bytes bytes = Ok tx ∧ accepted p tx) ∧
  ∃ height, XHeight height ∈ l ∧ height ≤ pk_last_valid_block_height p.

(** *** What an outcome rests on *)
Definition sent_as l (id : Uuid) (text : string) : Prop := ∃ bytes, XSent id bytes (Ok text) ∈ l.
(** The node's answer to a question about a signature that the request was sent as. *)
Definition answered l (id : Uuid) (text : string) (status : option NodeStatus) : Prop :=
  ∃ key sigs statuses i, text = sig_text key ∧ sent_as l id text ∧ XStatuses sigs statuses ∈ l ∧
    sigs !! i = Some key ∧ statuses !! i = Some status.
Definition silent (status : option NodeStatus) : Prop :=
  ∀ s, status = Some s → ns_confirmation_status s = None ∧ ns_err s = None.
(** Why a refusal of what the user returned is right, for each of its names. *)
Inductive flawed p (parked_tx tx : Transaction) : string → Prop :=
| other_message :
    message_hash (message parked_tx) ≠ message_hash (message tx) → flawed p parked_tx tx "MessageHashMismatch"
| other_count :
    Z.of_nat (length (signatures tx)) ≠ num_required_signatures (header (message tx)) →
    flawed p parked_tx tx "SignaturesLengthMismatch"
| other_payer :
    head (account_keys (message tx)) ≠ Some (pk_session_wallet p) → flawed p parked_tx tx "FeePayerMismatch"
| wallet_missing :
    head (signatures tx) = Some default_signature → flawed p parked_tx tx "SessionWalletSignatureMissing"
| wallet_invalid sig :
    head (signatures tx) = Some sig → sig_verify sig (pk_session_wallet p) (message_data tx) = false →
    flawed p parked_tx tx "SessionWalletSignatureInvalid"
| obligation_unlisted key :
    obligation_keypair p = Some key → key ∉ account_keys (message tx) →
    flawed p parked_tx tx "ObligationNotInAccountKeys"
| obligation_not_signer key i :
    obligation_keypair p = Some key → account_keys (message tx) !! i = Some key →
    num_required_signatures (header (message tx)) ≤ Z.of_nat i →
    flawed p parked_tx tx "ObligationNotInSignerSlots"
| obligation_unsigned key :
    obligation_keypair p = Some key → parked_obligation_signature p = None →
    flawed p parked_tx tx "InternalMissingParkedSignature"
| obligation_changed key i sig :
    obligation_keypair p = Some key → account_keys (message tx) !! i = Some key →
    parked_obligation_signature p = Some sig → signatures tx !! i ≠ Some sig →
    flawed p parked_tx tx "ObligationSignatureChanged"
| obligation_invalid key i sig :
    obligation_keypair p = Some key → account_keys (message tx) !! i = Some key →
    signatures tx !! i = Some sig → sig_verify sig key (message_data tx) = false →
    flawed p parked_tx tx "ObligationSignatureInvalid".

(** Why a submission is on record as rejected: the owner sent a text that holds no
    transaction; or the transaction was taken, and what was parked cannot be read, what
    the owner sent is not what may be returned, or the node gave no height. *)
Inductive rejected l (id : Uuid) p : string → string → Prop :=
| undecodable text e :
    XReceived (pk_session_id p) id text ∈ l → SigningTool.base64_bytes text = Err e →
    rejected l id p "MalformedBase64" ("base64 decode: " +:+ e)
| no_transaction text bytes e :
    XReceived (pk_session_id p) id text ∈ l → SigningTool.base64_bytes text = Ok bytes →
    tx_from_bytes bytes = Err e →
    rejected l id p "MalformedTransaction" ("bincode deserialize: " +:+ e)
| parked_unreadable e :
    XTaken id p ∈ l → tx_from_bytes (pk_tx_bytes p) = Err e → rejected l id p "InternalParkedTxCorrupted" e
| unacceptable text bytes tx parked_tx r :
    XTaken id p ∈ l → XReceived (pk_session_id p) id text ∈ l →
    SigningTool.base64_bytes text = Ok bytes → tx_from_bytes bytes = Ok tx →
    tx_from_bytes (pk_tx_bytes p) = Ok parked_tx →
    verify p parked_tx tx = Some (Err r) → flawed p parked_tx tx (rf_type r) →
    rejected l id p (rf_type r) (rf_message r)
| no_height e :
    XTaken id p ∈ l → XNoHeight e ∈ l →
    rejected l id p "BlockHeightFetchFailed" (rpc_failure "get_block_height" e).
Definition borne_out l (id : Uuid) p (o : RecordedSubmitOutcome) : Prop :=
  match o with
  | RSubmitted text intent wallet slot lv =>
      (intent, wallet, slot, lv) =
        (pk_intent_id p, pk_session_wallet p, pk_verified_slot p, pk_last_valid_block_height p) ∧
      sent_as l id text
  | RConfirming text slot intent wallet lv =>
      (intent, wallet, lv) = (pk_intent_id p, pk_session_wallet p, pk_last_valid_block_height p) ∧
      ∃ s, answered l id text (Some s) ∧ ns_err s = None ∧
        ns_confirmation_status s = Some AtConfirmed ∧ slot = ns_slot s
  | RFinalized text slot intent wallet lv =>
      (intent, wallet, lv) = (pk_intent_id p, pk_session_wallet p, pk_last_valid_block_height p) ∧
      ∃ s, answered l id text (Some s) ∧ ns_err s = None ∧
        ns_confirmation_status s = Some AtFinalized ∧ slot = ns_slot s
  | RExecutionFailed text intent wallet err =>
      (intent, wallet) = (pk_intent_id p, pk_session_wallet p) ∧
      ∃ s, answered l id text (Some s) ∧ ns_err s = Some err
  | RConfirmationTimeout text lv current _ =>
      lv = pk_last_valid_block_height p ∧ lv < current ∧ XFinalHeight current ∈ l ∧
      ∃ status, answered l id text status ∧ silent status
  | RExpired _ => XTaken id p ∈ l ∧ ∃ height, XHeight height ∈ l ∧ pk_last_valid_block_height p < height
  | RRejected error_type message => rejected l id p error_type message
  | RBroadcastFailed _ _ => XTaken id p ∈ l ∧ ∃ bytes e, XSent id bytes (Err e) ∈ l
  end.
Definition owned_by l (id : Uuid) (session : SessionId) p : Prop :=
  XParked id p ∈ l ∧ pk_session_id p = session.
Definition recorded_ok l (id : Uuid) (r : RecordedSubmission) : Prop :=
  ∃ p, owned_by l id (rs_session_id r) p ∧ borne_out l id p (rs_outcome r).

(** *** The tracker's entries *)
Definition ctx_ok l key c : Prop :=
  cx_tx_signature c = key ∧ sent_as l (cx_signing_request_id c) (sig_text key) ∧
  (∀ bytes, cx_signed_bytes c = Some bytes →
     XSent (cx_signing_request_id c) bytes (Ok (sig_text key)) ∈ l) ∧
  ∃ p, XParked (cx_signing_request_id c) p ∈ l ∧
    (cx_intent_id c, cx_session_wallet c, cx_last_valid_block_height c) =
    (pk_intent_id p, pk_session_wallet p, pk_last_valid_block_height p).
Definition fresh_ctx c : Prop := cx_state c = Submitted ∧ cx_rebroadcast_attempts c = 0.

(** *** Whom an answer is for *)
(** What an answer says of the recorded outcome. *)
Definition answers_outcome (id : Uuid) (r : Reply) (o : RecordedSubmitOutcome) : Prop :=
  match r with
  | RetrieveReply (GSubmitted id' intent text lv) =>
      id' = id ∧ ∃ wallet slot, o = RSubmitted text intent wallet slot lv
  | RetrieveReply (GConfirming id' intent text slot lv) =>
      id' = id ∧ ∃ wallet, o = RConfirming text slot intent wallet lv
  | RetrieveReply (GFinalized id' intent text slot) =>
      id' = id ∧ ∃ wallet lv, o = RFinalized text slot intent wallet lv
  | RetrieveReply (GFailed id' intent text err) => id' = id ∧ ∃ wallet, o = RExecutionFailed text intent wallet err
  | RetrieveReply (GConfirmationTimeout id' text lv current again reason) =>
      id' = id ∧ again = true ∧ o = RConfirmationTimeout text lv current reason
  | RetrieveReply (GRejected id' t m) => id' = id ∧ o = RRejected t m
  | RetrieveReply (GBroadcastFailed id' t m) => id' = id ∧ o = RBroadcastFailed t m
  | RetrieveReply (GPreSubmitExpired reason) => o = RExpired reason
  | SubmitReply (PRecovered id' text _) => id' = id ∧ outcome_signature o = Some text
  | SubmitReply (PExpired reason) => o = RExpired reason
  | SubmitReply (PRejected t m) => o = RRejected t m
  | SubmitReply (PBroadcastFailed id' t m) => id' = id ∧ o = RBroadcastFailed t m
  | _ => False
  end.
Definition answer_ok l (session : SessionId) (id : Uuid) (r : Reply) : Prop :=
  match r with
  | RetrieveReply GNotFound | SubmitReply PNotFound => True
  | RetrieveReply (GFound _ _ _ b64 _ _ _ _ _ _) =>
      ∃ p, owned_by l id session p ∧ b64 = SigningTool.base64_text (pk_tx_bytes p)
  | SubmitReply (PSubmitted _ _ _ text _ _) => ∃ p, owned_by l id session p ∧ sent_as l id text
  | _ => ∃ p o, owned_by l id session p ∧ borne_out l id p o ∧ answers_outcome id r o
  end.

Definition justified l (x : SubmitEntry) : Prop :=
  match x with
  | XParked id p => (∀ p', XParked id p' ∉ l) ∧ prepared l p
  | XTaken id p => XParked id p ∈ l ∧ ∀ p', XTaken id p' ∉ l
  | XSent id bytes _ => (sends id l < 4)%nat ∧ ∃ p, XTaken id p ∈ l ∧ submittable l p bytes
  | XTracked key c => fresh_ctx c ∧ ctx_ok l key c
  | XResent key bytes =>
      resends_since key l < MAX_CONFIRMATION_REBROADCAST_ATTEMPTS ∧
      ∃ c, ctx_ok l key c ∧ cx_signed_bytes c = Some bytes
  | XAnswered session id r => answer_ok l session id r
  | _ => True
  end.

(** *** What holds goes on holding *)
Lemma prepared_mono l l' p : l `suffix_of` l' → prepared l p → prepared l' p.
Proof. intros Hs [? ?]. split; [kept|done]. Qed.
Lemma submittable_mono l l' p bytes : l `suffix_of` l' → submittable l p bytes → submittable l' p bytes.
Proof. intros Hs [? (h & ? & ?)]. split; [done|]. exists h. split; [kept|done]. Qed.
Lemma sent_as_mono l l' id text : l `suffix_of` l' → sent_as l id text → sent_as l' id text.
Proof. intros Hs [b ?]. exists b. kept. Qed.
Lemma answered_mono l l' id text status :
  l `suffix_of` l' → answered l id text status → answered l' id text status.
Proof.
  intros Hs (key & sigs & sts & i & ? & ? & ? & ? & ?). exists key, sigs, sts, i.
  split_and!; [done|by eapply sent_as_mono|kept|done|done].
Qed.
Lemma rejected_mono l l' id p t m : l `suffix_of` l' → rejected l id p t m → rejected l' id p t m.
Proof. intros Hs []; econstructor; try done; kept. Qed.
Lemma borne_out_mono l l' id p o : l `suffix_of` l' → borne_out l id p o → borne_out l' id p o.
Proof.
  intros Hs. destruct o; cbn [borne_out].
  - intros [? ?]. split; [done|by eapply sent_as_mono].
  - intros (? & s & ? & ?). split; [done|]. exists s. split; [by eapply answered_mono|done].
  - intros (? & s & ? & ?). split; [done|]. exists s. split; [by eapply answered_mono|done].
  - intros (? & s & ? & ?). split; [done|]. exists s. split; [by eapply answered_mono|done].
  - intros (? & ? & ? & s & ? & ?). split_and!; [done|done|kept|]. exists s.
    split; [by eapply answered_mono|done].
  - intros (? & h & ? & ?). split; [kept|]. exists h. split; [kept|done].
  - by apply rejected_mono.
  - intros (? & b & e & ?). split; [kept|]. exists b, e. kept.
Qed.
Lemma recorded_ok_mono l l' id r : l `suffix_of` l' → recorded_ok l id r → recorded_ok l' id r.
Proof.
  intros Hs (p & [? ?] & ?). exists p. split; [split; [kept|done]|by eapply borne_out_mono].
Qed.
Lemma ctx_ok_mono l l' key c : l `suffix_of` l' → ctx_ok l key c → ctx_ok l' key c.
Proof.
  intros Hs (? & ? & Hb & p & ? & ?). split_and!; [done|by eapply sent_as_mono| |].
  - intros b Hc%Hb. kept.
  - exists p. split; [kept|done].
Qed.

(** ** The logic of the handlers *)

Definition taken_after (G : Taken) (e : SubmitEvent) : SubmitAnswer e → Taken :=
  match e return SubmitAnswer e → Taken with
  | SignRemove id => λ a, match a with Some p => Some (id, p, 0%nat) | None => G end
  | SendTx _ _ => λ _, match G with Some (id, p, n) => Some (id, p, S n) | None => None end
  | _ => λ _, G
  end.
Definition handler_pre (G : Taken) l (e : SubmitEvent) : Prop :=
  match e with
  | SignInsert p => prepared l p
  | LcInsert id r => recorded_ok l id r
  | TrInsert c => fresh_ctx c ∧ ctx_ok l (cx_tx_signature c) c
  | SendTx id bytes => ∃ p n, G = Some (id, p, n) ∧ (n < 4)%nat ∧ submittable l p bytes
  | Answer session id r => answer_ok l session id r
  | LcTransition _ _ _ | TrState _ _ | TrGuard _ | TrAttempts _ _ _ | TrRemove _ | Resend _ _ => False
  | _ => True
  end.
Definition submit_told l (e : SubmitEvent) : SubmitAnswer e → Prop :=
  match e return SubmitAnswer e → Prop with
  | SignGet id => λ a, ∀ p, a = Some p → XParked id p ∈ l
  | SignRemove id => λ a, ∀ p, a = Some p → XParked id p ∈ l ∧ ∀ p', XParked id p' ∈ l → p' = p
  | LcGet id => λ a, ∀ r, a = Some r → recorded_ok l id r
  | LcOpen _ => λ a, ∀ id session o, (id, session, o) ∈ a →
      ∃ r, recorded_ok l id r ∧ rs_session_id r = session ∧ rs_outcome r = o
  | TrGet key => λ a, a = ctx_of key l ∧ ∀ c, a = Some c → ctx_ok l key c
  | _ => λ _, True
  end.
Notation hsafe := (Interaction.safe handler_pre submit_told taken_after submit_entries).

(** Events that tell nothing and leave nothing. *)
Definition quiet (e : SubmitEvent) : bool :=
  match e with
  | UtcNow | InstantNow | Sleep | NewKeypair | LcTerminal _ | LcRemove _ | LcGet _ | SignGet _
  | SignExpired _ | SignOwned _ | LcExpired _
  | AuditSolend _ _ _ _ _ | SpawnAudit _ _ _ _ _ => true
  | _ => false
  end.
Lemma quiet_safe {B} (Q : B → Taken → SubmitLog → Prop) G l e (f : SubmitAnswer e → SProg B) :
  quiet e = true → (∀ a, hsafe Q G l (f a)) → hsafe Q G l (Interaction.ask e ≫= f).
Proof.
  intros Hq Hf l1 Hl1. destruct e; try done; (split; [done|]); intros a _; cbn;
    (eapply safe_mono; [exact Hl1|apply Hf]).
Qed.

Section combinators.
Context {B : Type} (Q : B → Taken → SubmitLog → Prop) (G : Taken) (l : SubmitLog).

Lemma consume_safe id (f : option ParkedSolendSigning → SProg B) :
  (∀ G' l', l `suffix_of` l' → hsafe Q G' l' (f None)) →
  (∀ p l', l `suffix_of` l' → XTaken id p ∈ l' → XParked id p ∈ l' →
     (∀ p', XParked id p' ∈ l' → p' = p) → hsafe Q (Some (id, p, 0%nat)) l' (f (Some p))) →
  hsafe Q G l (consume id ≫= f).
Proof.
  intros Hn Hp. apply quiet_safe; [done|]. intros now l1 Hl1. split; [done|]. intros e _. cbn [app submit_entries].
  assert (hsafe Q G l1 ((_ ← Interaction.ask (Answer := SubmitAnswer) (SignRemove id); Ret None) ≫= f)) as Hgone.
  { intros l2 Hl2. split; [done|]. intros a _. destruct a; apply Hn; (etransitivity; [exact Hl1|]);
      (etransitivity; [exact Hl2|]); [by eexists [_]|done]. }
  destruct e as [p|]; [|exact Hgone]. cbn. destruct (pk_expires_at p <=? now); [exact Hgone|].
  intros l2 Hl2. split; [done|]. intros a Ha. destruct a as [p'|]; [|apply Hn; by etransitivity].
  destruct (Ha p' eq_refl) as [Hin Hu].
  apply Hp; [etransitivity; [exact Hl1|]; by apply suffix_cons_r|by left|by right|].
  intros q [?|Hin']%elem_of_cons; [done|by apply Hu].
Qed.
Lemma parked_safe session id (f : option ParkedSolendSigning → SProg B) :
  (∀ G' l', l `suffix_of` l' → hsafe Q G' l' (f None)) →
  (∀ p l', l `suffix_of` l' → owned_by l' id session p → hsafe Q G l' (f (Some p))) →
  hsafe Q G l (parked_for_session session id ≫= f).
Proof.
  intros Hn Hp. apply quiet_safe; [done|]. intros now l1 Hl1. split; [done|]. intros e He. cbn [app submit_entries].
  destruct e as [p|]; [|by apply Hn]. cbn. destruct (pk_expires_at p <=? now).
  - intros l2 Hl2. split; [done|]. intros a _. destruct a; apply Hn; (etransitivity; [exact Hl1|]);
      (etransitivity; [exact Hl2|]); [by eexists [_]|done].
  - case_bool_decide as Hs; [|by apply Hn]. apply Hp; [done|]. split; [by apply He|done].
Qed.
Lemma lookup_safe session id (f : option RecoveredSubmission → SProg B) :
  (∀ l', l `suffix_of` l' → hsafe Q G l' (f None)) →
  (∀ v p l', l `suffix_of` l' → owned_by l' id session p → borne_out l' id p (rv_outcome v) →
     rv_signing_request_id v = id → hsafe Q G l' (f (Some v))) →
  hsafe Q G l (lookup_for_session session id ≫= f).
Proof.
  intros Hn Hp. apply quiet_safe; [done|]. intros now l1 Hl1. split; [done|]. intros e He. cbn [app submit_entries].
  destruct e as [r|]; [|by apply Hn]. cbn. destruct (rs_expires_at r <=? now).
  - intros l2 Hl2. split; [done|]. intros a _. apply Hn. by etransitivity.
  - case_bool_decide as Hs; [|by apply Hn]. destruct (He r eq_refl) as (p & [? ?] & ?).
    apply Hp with p; [done|split; [done|congruence]|done|done].
Qed.
Lemma height_safe (f : Result string Z → SProg B) :
  (∀ e l', l `suffix_of` l' → XNoHeight e ∈ l' → hsafe Q G l' (f (Err (rpc_failure "get_block_height" e)))) →
  (∀ h l', l `suffix_of` l' → XHeight h ∈ l' → hsafe Q G l' (f (Ok h))) →
  hsafe Q G l (current_block_height ≫= f).
Proof.
  intros He Ho l1 Hl1. split; [done|]. intros r _. destruct r as [h|e]; cbn.
  - apply Ho; [by apply suffix_cons_r|by left].
  - apply He; [by apply suffix_cons_r|by left].
Qed.
Lemma record_safe id session o ttl (f : bool → SProg B) :
  (∃ p, owned_by l id session p ∧ borne_out l id p o) → (∀ b, hsafe Q G l (f b)) →
  hsafe Q G l (record ttl id session o ≫= f).
Proof.
  intros Hr Hf. apply quiet_safe; [done|]. intros now l1 Hl1. split.
  - eapply recorded_ok_mono; [exact Hl1|exact Hr].
  - intros b _. eapply safe_mono; [exact Hl1|apply Hf].
Qed.
End combinators.

(** ** Submission *)
Lemma position_lookup key keys i : position key keys = Some i → keys !! i = Some key.
Proof.
  revert i. induction keys as [|k keys IH]; intros i; simpl; [done|]. case_bool_decide as Hk.
  - intros [= <-]. by subst.
  - intros (j & Hj & ->)%fmap_Some. by apply IH.
Qed.
(** What the user may return, exactly: the message has the hash of the parked one, as
    many signatures as it asks for, the wallet to pay and its valid signature first,
    and where an obligation was to sign, the parked signature in its slot. *)
Definition returnable p (parked_tx tx : Transaction) (sig : Signature) : Prop :=
  message_hash (message parked_tx) = message_hash (message tx) ∧
  Z.of_nat (length (signatures tx)) = required_sigs tx ∧
  default zero_key (head (account_keys (message tx))) = pk_session_wallet p ∧
  head (signatures tx) = Some sig ∧ sig ≠ default_signature ∧
  sig_verify sig (pk_session_wallet p) (message_data tx) = true ∧
  ∀ key, obligation_keypair p = Some key → ∃ i s,
    position key (account_keys (message tx)) = Some i ∧ parked_obligation_signature p = Some s ∧
    signatures tx !! i = Some s ∧ sig_verify s key (message_data tx) = true.
Lemma obligation_signed_iff p tx : Z.of_nat (length (signatures tx)) = required_sigs tx →
  obligation_signed p tx = Ok tt ↔ ∀ key, obligation_keypair p = Some key → ∃ i s,
    position key (account_keys (message tx)) = Some i ∧ parked_obligation_signature p = Some s ∧
    signatures tx !! i = Some s ∧ sig_verify s key (message_data tx) = true.
Proof.
  intros Hlen. unfold obligation_signed, requires_backend_obligation_signature, obligation_pubkey.
  destruct (obligation_keypair p) as [k|]; [|by split]. cbn. split.
  - intros Ho ? [= <-].
    apply bind_Ok in Ho as (i & Hi & Ho). apply ok_or_Ok in Hi.
    apply bind_Ok in Ho as (? & Hslot & Ho). apply throw_if_Ok, negb_false_iff, Z.ltb_lt in Hslot.
    apply bind_Ok in Ho as (parked & Hparked & Ho). apply ok_or_Ok in Hparked.
    apply bind_Ok in Ho as (? & Heq & Ho). apply throw_if_Ok, negb_false_iff, bool_decide_eq_true in Heq.
    apply throw_if_Ok, negb_false_iff in Ho.
    destruct (lookup_lt_is_Some_2 (signatures tx) i) as [s Hsi]; [lia|]. rewrite Hsi in *. cbn in *. subst s.
    by exists i, parked.
  - intros Hk. destruct (Hk k eq_refl) as (i & s & -> & -> & Hsi & Hv). cbn.
    pose proof (lookup_lt_Some _ _ _ Hsi) as Hi. rewrite Hsi. cbn.
    rewrite (proj2 (Z.ltb_lt _ _)) by lia. cbn. rewrite bool_decide_eq_true_2 by done. cbn. by rewrite Hv.
Qed.
Theorem verify_iff p parked_tx tx sig :
  verify p parked_tx tx = Some (Ok sig) ↔ returnable p parked_tx tx sig.
Proof.
  unfold verify, returnable. split.
  - destruct (_ ≫= _) as [u|r] eqn:Hcd; [|done].
    apply bind_Ok in Hcd as (? & Hsame & Hshape). apply throw_if_Ok in Hsame.
    apply bind_Ok in Hshape as (? & Hlen & Hpayer). apply throw_if_Ok in Hlen, Hpayer.
    apply negb_false_iff, bool_decide_eq_true in Hsame, Hlen, Hpayer.
    destruct (head (signatures tx)) as [s|] eqn:Hs; [|done]. cbn. intros [= Hef].
    apply bind_Ok in Hef as (? & Hw & Hef). apply bind_Ok in Hef as ([] & Ho & Heq). injection Heq as ->.
    apply bind_Ok in Hw as (? & Hd & Hw). apply throw_if_Ok, bool_decide_eq_false in Hd.
    apply throw_if_Ok, negb_false_iff in Hw. split_and!; [done..|]. by apply obligation_signed_iff.
  - intros (Hm & Hlen & Hpayer & Hs & Hd & Hw & Ho%obligation_signed_iff); [|done].
    unfold same_message, well_shaped, wallet_signed. rewrite Hs, !bool_decide_eq_true_2 by done. cbn.
    rewrite bool_decide_eq_false_2, Hw by done. cbn. by rewrite Ho.
Qed.
Lemma verify_accepted p parked_tx tx sig :
  tx_from_bytes (pk_tx_bytes p) = Ok parked_tx → verify p parked_tx tx = Some (Ok sig) → accepted p tx.
Proof.
  intros Hb (Hm & _ & _ & Hs & _ & Hw & Ho)%verify_iff. split_and!; [by exists parked_tx|by exists sig|].
  intros key Hkey. destruct (Ho key Hkey) as (i & s & Hi & ? & ? & ?). exists i, s.
  split_and!; [by apply position_lookup|done..].
Qed.

Lemma position_first key keys : position key keys = None → key ∉ keys.
Proof.
  induction keys as [|k keys IH]; [by intros _ ?%not_elem_of_nil|]. cbn. case_bool_decide as Hk; [done|].
  destruct (position key keys); [done|]. intros _ [->|Hin]%elem_of_cons; [done|by apply IH].
Qed.
Lemma obligation_flawed p parked_tx tx r : Z.of_nat (length (signatures tx)) = required_sigs tx →
  obligation_signed p tx = Err r → flawed p parked_tx tx (rf_type r).
Proof.
  intros Hlen. unfold obligation_signed, requires_backend_obligation_signature, obligation_pubkey.
  destruct (obligation_keypair p) as [k|] eqn:Hk; [|done]. cbn. intros Ho.
  destruct (position k (account_keys (message tx))) as [i|] eqn:Hi; cbn in Ho;
    [|injection Ho as <-; by eapply obligation_unlisted, position_first].
  pose proof (position_lookup _ _ _ Hi) as Hki.
  apply bind_Err in Ho as [Hslot|(? & Hslot & Ho)].
  { apply throw_if_Err in Hslot as [Hb%negb_true_iff%Z.ltb_ge ->]. by eapply obligation_not_signer. }
  apply throw_if_Ok, negb_false_iff, Z.ltb_lt in Hslot.
  destruct (lookup_lt_is_Some_2 (signatures tx) i) as [s Hsi]; [lia|]. rewrite Hsi in Ho. cbn in Ho.
  destruct (parked_obligation_signature p) as [parked|] eqn:Hp; cbn in Ho;
    [|injection Ho as <-; by eapply obligation_unsigned].
  apply bind_Err in Ho as [Ho|(? & _ & Ho)]; apply throw_if_Err in Ho as [Hb%negb_true_iff ->].
  - apply bool_decide_eq_false in Hb. eapply obligation_changed; [done..|]. congruence.
  - by eapply obligation_invalid.
Qed.
Lemma verify_flawed p parked_tx tx r :
  verify p parked_tx tx = Some (Err r) → flawed p parked_tx tx (rf_type r).
Proof.
  unfold verify. destruct (_ ≫= _) as [u|r'] eqn:Hcd.
  - apply bind_Ok in Hcd as (? & _ & Hshape). apply bind_Ok in Hshape as (? & Hlen & _).
    apply throw_if_Ok, negb_false_iff, bool_decide_eq_true in Hlen.
    destruct (head (signatures tx)) as [s|] eqn:Hs; [|done]. cbn. intros [= Hef].
    apply bind_Err in Hef as [Hw|(? & _ & Ho)].
    + apply bind_Err in Hw as [Hw|(? & _ & Hw)]; apply throw_if_Err in Hw as [Hb ->].
      * apply bool_decide_eq_true in Hb as ->. by constructor.
      * apply negb_true_iff in Hb. by econstructor.
    + apply bind_Err in Ho as [Ho|(? & _ & [=])]. by apply obligation_flawed.
  - intros [= <-]. apply bind_Err in Hcd as [Hm|(? & _ & Hd)].
    + apply throw_if_Err in Hm as [Hb%negb_true_iff%bool_decide_eq_false ->]. by constructor.
    + apply bind_Err in Hd as [Hd|(? & _ & Hd)]; apply throw_if_Err in Hd as [Hb%negb_true_iff%bool_decide_eq_false ->].
      * by constructor.
      * constructor. intros Hh. apply Hb. by rewrite Hh.
Qed.

(** The loop of attempts, once the first freshness check has passed. *)
Lemma broadcast_safe left id p text bytes current last l :
  (left ≤ 4)%nat → (∃ tx, tx_from_bytes bytes = Ok tx ∧ accepted p tx) →
  XHeight current ∈ l → current ≤ pk_last_valid_block_height p →
  (left = 4%nat ∨ ∃ e, XSent id bytes (Err e) ∈ l) →
  hsafe (λ r _ l', match r with
                   | Ok (s, _) => XSent id bytes (Ok s) ∈ l'
                   | Err _ => ∃ e, XSent id bytes (Err e) ∈ l'
                   end)
    (Some (id, p, (4 - left)%nat)) l (broadcast left id p text bytes current last).
Proof.
  intros Hleft Hacc. revert last l. induction left as [|left IH]; intros last l Hcur Hle Hsent.
  { intros l' Hl. destruct Hsent as [|[e ?]]; [done|]. exists e. kept. }
  assert (∀ h l', l `suffix_of` l' → XHeight h ∈ l' → h ≤ pk_last_valid_block_height p →
    ∀ remaining, hsafe (λ r _ l', match r with
                   | Ok (s, _) => XSent id bytes (Ok s) ∈ l'
                   | Err _ => ∃ e, XSent id bytes (Err e) ∈ l'
                   end) (Some (id, p, (4 - S left)%nat)) l'
      (r ← send_raw_transaction id bytes;
       match r with
       | Ok signature =>
           _ ← emit_broadcast_attempt_audit id p signature (Z.of_nat (MAX_BROADCAST_ATTEMPTS - left))
                 (Some h) (Some remaining) AttemptOk;
           Ret (Ok (signature, Z.of_nat (MAX_BROADCAST_ATTEMPTS - left)))
       | Err msg =>
           _ ← emit_broadcast_attempt_audit id p text (Z.of_nat (MAX_BROADCAST_ATTEMPTS - left))
                 (Some h) (Some remaining) (SendError msg);
           broadcast left id p text bytes current (Some msg)
       end)) as Hsend.
  { intros h l' Hl Hh Hhv remaining l1 Hl1. split.
    - exists p, (4 - S left)%nat. split_and!; [done|lia|]. split; [done|]. exists h. split; [kept|done].
    - intros r _. cbn [taken_after submit_entries app].
      assert (l `suffix_of` XSent id bytes r :: l1) as Hs by (apply suffix_cons_r; by etransitivity).
      destruct r as [s|e]; (apply quiet_safe; [done|]); intros [].
      + intros l2 Hl2. eapply elem_of_suffix; [by left|done].
      + replace (S (4 - S left)) with (4 - left)%nat by lia. apply IH; [lia|kept|done|].
        right. exists e. by left. }
  cbn [broadcast]. case_bool_decide as Hn.
  - cbn. rewrite (proj2 (Z.ltb_ge _ _)) by done. by apply Hsend.
  - assert (∃ e, XSent id bytes (Err e) ∈ l) as [e He].
    { destruct Hsent as [Hf|]; [|done]. exfalso. apply Hn. by injection Hf as ->. }
    intros l1 Hl1. split; [done|]. intros [] _ l2 Hl2. split; [done|].
    assert (l `suffix_of` l2) as Hl2' by (by etransitivity).
    intros [h|m] _; cbn.
    + assert (l `suffix_of` XHeight h :: l2) as Hs by (by apply suffix_cons_r).
      destruct (Z.ltb_spec (pk_last_valid_block_height p) h) as [|Hh].
      * intros l3 Hl3. split; [done|]. intros [] _ l4 Hl4. exists e. eapply elem_of_suffix; [exact He|].
        etransitivity; [exact Hs|]. by etransitivity.
      * by apply Hsend; [|left|].
    + assert (l `suffix_of` XNoHeight m :: l2) as Hs by (by apply suffix_cons_r).
      intros l3 Hl3. split; [done|]. intros [] _ l4 Hl4. exists e. eapply elem_of_suffix; [exact He|].
      etransitivity; [exact Hs|]. by etransitivity.
Qed.

(** What an outcome of the pipeline rests on. *)
Definition outcome_ok l (id : Uuid) p (o : option SolendSubmitOutcome) : Prop :=
  match o with
  | Some (OSubmitted s intent wallet slot lv bytes) =>
      (intent, wallet, slot, lv) =
        (pk_intent_id p, pk_session_wallet p, pk_verified_slot p, pk_last_valid_block_height p) ∧
      XSent id bytes (Ok s) ∈ l
  | Some (OExpired reason) => borne_out l id p (RExpired reason)
  | Some (ORejected t m) => borne_out l id p (RRejected t m)
  | Some (OBroadcastFailed t m) => borne_out l id p (RBroadcastFailed t m)
  | Some ONotFound | None => True
  end.
Lemma outcome_ok_mono l l' id p o : l `suffix_of` l' → outcome_ok l id p o → outcome_ok l' id p o.
Proof.
  intros Hs. destruct o as [[]|]; try done; cbn [outcome_ok]; try (by apply borne_out_mono).
  intros [? ?]. split; [done|kept].
Qed.

Lemma refuse_safe G l id p0 (op : option ParkedSolendSigning) t a m : outcome_ok l id p0 (Some (ORejected t m)) →
  hsafe (λ o _ l', outcome_ok l' id p0 o) G l (refuse id op t a m).
Proof. intros Ho. apply quiet_safe; [done|]. intros _ l' Hl. by eapply outcome_ok_mono. Qed.

Lemma check_fresh_and_send_safe l id p tx sig bytes :
  XTaken id p ∈ l → tx_from_bytes bytes = Ok tx → accepted p tx →
  hsafe (λ o _ l', outcome_ok l' id p (Some o)) (Some (id, p, 0%nat)) l
    (check_fresh_and_send id p sig bytes).
Proof.
  intros Ht Htx Hacc. apply height_safe.
  - intros e l1 Hl1 He. apply quiet_safe; [done|]. intros _ l2 Hl2. eapply borne_out_mono; [exact Hl2|].
    apply no_height; [kept|done].
  - intros h l1 Hl1 Hh. assert (XTaken id p ∈ l1) as Ht1 by kept.
    cbv beta iota zeta. destruct (Z.ltb_spec (pk_last_valid_block_height p) h) as [Hlate|Hle].
    + apply quiet_safe; [done|]. intros _ l2 Hl2. split; [kept|]. exists h. split; [kept|done].
    + unfold broadcast_verified. apply quiet_safe; [done|]. intros _. apply safe_bind.
      eapply safe_conseq; [|apply (broadcast_safe 4)].
      * intros [[s n]|m] G' l2 Hl2 Hr; cbv beta iota; (apply quiet_safe; [done|]); intros _ l3 Hl3.
        -- split; [done|kept].
        -- destruct Hr as [e ?]. split; [|exists bytes, e; kept]. eapply elem_of_suffix; [exact Ht1|].
           by etransitivity.
      * done.
      * by exists tx.
      * done.
      * done.
      * by left.
Qed.

Lemma submit_signed_safe G l id p0 b64 : XParked id p0 ∈ l → XReceived (pk_session_id p0) id b64 ∈ l →
  hsafe (λ o _ l', outcome_ok l' id p0 o) G l (submit_signed_solend_transaction id b64).
Proof.
  intros Hp0 Hpost. unfold submit_signed_solend_transaction.
  destruct (SigningTool.base64_bytes b64) as [bytes|e] eqn:Hb64; [|by eapply refuse_safe, undecodable].
  destruct (tx_from_bytes bytes) as [tx|e] eqn:Htx; [|by eapply refuse_safe, no_transaction].
  apply consume_safe.
  - intros G' l1 Hl1. apply quiet_safe; [done|]. by intros [] l2 Hl2.
  - intros p l1 Hl1 Ht Hp Hu. assert (p0 = p) as <- by (apply Hu; kept).
    apply quiet_safe; [done|]. intros [].
    destruct (tx_from_bytes (pk_tx_bytes p0)) as [parked_tx|e] eqn:Hb; [|by apply refuse_safe, parked_unreadable].
    destruct (verify p0 parked_tx tx) as [[sig|r]|] eqn:Hv; [| |by intros l2 Hl2].
    2:{ apply refuse_safe. eapply unacceptable; [done|kept|done..|]. by apply verify_flawed. }
    apply safe_bind. eapply safe_conseq; [|by eapply check_fresh_and_send_safe, verify_accepted].
    intros o G' l2 Hl2 Ho l3 Hl3. by eapply outcome_ok_mono.
Qed.

(** ** The handlers *)
Context (Hparse : ∀ text key, sig_parse text = Some key → text = sig_text key).

Lemma enqueue_safe {B} (Q : B → Taken → SubmitLog → Prop) G l c (f : TrackResult → SProg B) :
  fresh_ctx c → ctx_ok l (cx_tx_signature c) c → (∀ r l', l `suffix_of` l' → hsafe Q G l' (f r)) →
  hsafe Q G l (enqueue c ≫= f).
Proof.
  intros Hf Hc Hn. apply quiet_safe; [done|]. intros terminal. cbv beta. destruct terminal; [by apply Hn|].
  intros l1 Hl1. split; [split; [done|by eapply ctx_ok_mono]|]. intros vacant _. cbn [taken_after submit_entries].
  destruct vacant; [|by apply Hn]. intros l2 Hl2. split; [done|]. intros [] _. apply Hn.
  etransitivity; [exact Hl1|]. etransitivity; [|exact Hl2]. by apply suffix_cons_r.
Qed.

Lemma track_submission_safe {B} (Q : B → Taken → SubmitLog → Prop) G l id session p text bytes
    (f : unit → SProg B) :
  XParked id p ∈ l → XSent id bytes (Ok text) ∈ l → (∀ l', l `suffix_of` l' → hsafe Q G l' (f tt)) →
  hsafe Q G l (track_submission id session (pk_intent_id p) (pk_session_wallet p)
                 (pk_last_valid_block_height p) text bytes ≫= f).
Proof.
  intros Hp Hs Hn. unfold track_submission.
  assert (∀ h l', l `suffix_of` l' → hsafe Q G l'
    (match sig_parse text with
     | Some sig =>
         now ← Interaction.ask (Answer := SubmitAnswer) InstantNow;
         _ ← enqueue (new_submitted id (pk_intent_id p) session (pk_session_wallet p)
                        (pk_last_valid_block_height p) h sig (Some bytes) now);
         Ret tt
     | None =>
         Interaction.ask (AuditSolend POLL_ERROR (id_text id) (Some (id_text session)) ApprovalStore.SevWarning
           [("signing_request_id", ApprovalStore.PId id); ("tx_signature", ApprovalStore.PText text);
            ("phase", ApprovalStore.PText "enqueue_parse_signature")])
     end ≫= f)) as Hnext.
  { intros h l1 Hl1. destruct (sig_parse text) as [key|] eqn:Hk.
    - apply Hparse in Hk. apply safe_bind. apply quiet_safe; [done|]. intros now. cbv beta.
      apply enqueue_safe.
      + done.
      + split_and!; [done|exists bytes; cbn; rewrite <- Hk; kept| |exists p; split; [kept|done]].
        intros bs [= <-]. cbn. rewrite <- Hk. kept.
      + intros _ l2 Hl2 l3 Hl3. eapply safe_mono; [exact Hl3|]. apply Hn. by etransitivity.
    - apply quiet_safe; [done|]. intros []. by apply Hn. }
  intros l1 Hl1. split; [done|]. intros h _. destruct h; cbn [submit_entries app]; apply Hnext; by apply suffix_cons_r.
Qed.

Lemma owned_mono l l' id session p : l `suffix_of` l' → owned_by l id session p → owned_by l' id session p.
Proof. intros Hs [? ?]. split; [kept|done]. Qed.

Lemma submit_recovered_ok l session id v p :
  owned_by l id session p → borne_out l id p (rv_outcome v) → rv_signing_request_id v = id →
  answer_ok l session id (SubmitReply (recovered_to_submit_result v)).
Proof.
  intros Hp Hb Hid. unfold recovered_to_submit_result. rewrite Hid. by destruct (rv_outcome v) eqn:Ho; exists p, (rv_outcome v);
    rewrite Ho.
Qed.
Definition answered_in (session : SessionId) (id : Uuid) (r : option SolendSubmitResult) (G : Taken) l : Prop :=
  ∀ r', r = Some r' → answer_ok l session id (SubmitReply r').
Lemma answer_ok_mono l l' session id r :
  l `suffix_of` l' → answer_ok l session id r → answer_ok l' session id r.
Proof.
  intros Hs. assert (∀ r, (∃ p o, owned_by l id session p ∧ borne_out l id p o ∧ answers_outcome id r o) →
    ∃ p o, owned_by l' id session p ∧ borne_out l' id p o ∧ answers_outcome id r o) as Hrec.
  { intros r' (p & o & ? & ? & ?). exists p, o. split_and!; [by eapply owned_mono|by eapply borne_out_mono|done]. }
  destruct r as [[]|[]]; try done; try (by apply Hrec); intros (p & ? & ?); exists p;
    (split; [by eapply owned_mono|first [done|by eapply sent_as_mono]]).
Qed.

Lemma recover_submission_safe G l session id :
  hsafe (answered_in session id) G l (r ← recover_submission session id; Ret (Some r)).
Proof.
  apply safe_bind. apply lookup_safe.
  - intros l1 Hl1 l2 Hl2 l3 Hl3 r [= <-]. done.
  - intros v p l1 Hl1 Hp Hb Hid l2 Hl2 l3 Hl3 r [= <-]. eapply answer_ok_mono; [|by eapply submit_recovered_ok].
    by etransitivity.
Qed.

Lemma post_safe G l session id b64 : XReceived session id b64 ∈ l →
  hsafe (answered_in session id) G l (submit recovery_ttl_seconds session id b64).
Proof.
  intros Hpost. unfold submit. apply safe_bind. apply parked_safe.
  - intros G' l1 Hl1 l2 Hl2. apply recover_submission_safe.
  - intros p l1 Hl1 Hp l2 Hl2. apply safe_bind. apply (owned_mono _ _ _ _ _ Hl2) in Hp. pose proof Hp as [Hpl Hps].
    eapply safe_conseq; [|apply submit_signed_safe; [done|rewrite Hps; eapply elem_of_suffix; [exact Hpost|by etransitivity]]]. intros o G' l3 Hl3 Ho.
    apply (owned_mono _ _ _ _ _ Hl3) in Hp.
    assert (∀ o r, borne_out l3 id p o →
      (∀ l', owned_by l' id session p ∧ borne_out l' id p o → answer_ok l' session id (SubmitReply r)) →
      hsafe (answered_in session id) G' l3
        (_ ← record recovery_ttl_seconds id session o; Ret (Some r))) as Hrec.
    { intros o' r Hb Hr. apply record_safe; [by exists p|]. intros b l4 Hl4 r' [= <-]. apply Hr.
      split; [by eapply owned_mono|by eapply borne_out_mono]. }
    destruct o as [[s intent wallet slot lv bytes| |reason|t m|t m]|].
    + destruct Ho as [[= -> -> -> ->] Hs]. apply record_safe.
      * exists p. split; [done|]. split; [done|by exists bytes].
      * intros b. apply track_submission_safe; [apply Hp|done|]. intros l4 Hl4 l5 Hl5 r [= <-].
        assert (l3 `suffix_of` l5) as Hl35 by (by etransitivity).
        exists p. split; [by eapply owned_mono|]. exists bytes. kept.
    + apply recover_submission_safe.
    + apply Hrec; [done|]. intros l' [? ?]. by eexists p, _.
    + apply Hrec; [done|]. intros l' [? ?]. by eexists p, _.
    + apply Hrec; [done|]. intros l' [? ?]. by eexists p, _.
    + by intros l4 Hl4.
Qed.

Lemma retrieve_safe G l session id :
  hsafe (λ r _ l', answer_ok l' session id (RetrieveReply r)) G l (retrieve session id).
Proof.
  unfold retrieve. apply safe_bind. apply parked_safe.
  - intros G' l1 Hl1 l2 Hl2. apply lookup_safe.
    + by intros l3 Hl3 l4 Hl4.
    + intros v p l3 Hl3 Hp Hb Hid l4 Hl4. apply (owned_mono _ _ _ _ _ Hl4) in Hp.
      apply (borne_out_mono _ _ _ _ _ Hl4) in Hb. unfold recovered_to_retrieval_result. rewrite Hid.
      destruct (rv_outcome v) eqn:Ho; (exists p, (rv_outcome v); split; [done|]; split; [by rewrite Ho|];
        rewrite Ho; cbn; by eauto 6).
  - intros p l1 Hl1 Hp l2 Hl2 l3 Hl3. exists p. split; [|done]. eapply owned_mono; [|exact Hp]. by etransitivity.
Qed.

(** *** Handoffs *)
Context `{!SubmitCratesLaws}.

Lemma handoff_tx_prepared ixs wallet obligation h bytes sig :
  handoff_tx ixs wallet obligation h = Ok (bytes, sig) →
  ∃ tx, tx_to_bytes tx = Ok bytes ∧ message tx = with_blockhash h (message_new ixs (Some wallet)) ∧
    sig = (key ← obligation; i ← position key (account_keys (message tx)); Some (default [] (signatures tx !! i))).
Proof.
  intros Ht. apply bind_Ok in Ht as ([tx s] & Hp & Ht). apply bind_Ok in Ht as (bs & Hb & [= <- <-]).
  assert (tx_to_bytes tx = Ok bs) as Hbs.
  { by destruct (tx_to_bytes tx); [injection Hb as ->|]. }
  exists tx. split; [done|]. unfold partially_signed in Hp. destruct obligation as [key|].
  - apply bind_Ok in Hp as (tx' & Hsign & Hp). apply bind_Ok in Hp as (i & Hi & [= -> <-]).
    apply ok_or_Ok in Hi. cbn. rewrite Hi. split; [|done].
    destruct (try_partial_sign _ _ _) as [tx'|e] eqn:Hps; [|done]. injection Hsign as ->.
    apply partial_sign_message in Hps as ->. unfold set_blockhash. cbn. by rewrite unsigned_message.
  - injection Hp as <- <-. split; [|done]. cbn. by rewrite unsigned_message.
Qed.

Lemma latest_blockhash_safe {B} (Q : B → Taken → SubmitLog → Prop) G l
    (f : Result SigningHandoffError (list byte * Z) → SProg B) :
  (∀ e, hsafe Q G l (f (Err e))) →
  (∀ h lv l', XBlockhash h lv ∈ l' → hsafe Q G l' (f (Ok (h, lv)))) →
  hsafe Q G l (latest_blockhash ≫= f).
Proof.
  intros He Ho l1 Hl1. split; [done|]. intros [[h lv]|e] _; cbn.
  - apply Ho. by left.
  - eapply safe_mono; [exact Hl1|apply He].
Qed.
Notation any := (λ _ _ _, True).
Lemma park_safe {B} G l p (f : Uuid → SProg B) :
  prepared l p → (∀ id l', hsafe any G l' (f id)) →
  hsafe any G l (Interaction.ask (Answer := SubmitAnswer) (SignInsert p) ≫= f).
Proof. intros Hp Hf l1 Hl1. split; [by eapply prepared_mono|]. intros id _. apply Hf. Qed.

Lemma park_deposit_safe G l plan slot units lease opts obligation :
  intent_gate opts = Ok tt → consistent_plan plan = Ok tt →
  (is_Some obligation ↔ dp_obligation_signer_required plan = true) →
  hsafe any G l (park_deposit rt plan slot units lease opts obligation).
Proof.
  intros Hgate Hc Hkey. apply latest_blockhash_safe; [by intros e l2 Hl2|]. intros h lv l2 Hh.
  cbv beta iota. destruct (_ ≫= _) as [[bytes sig]|e] eqn:Ht; [|by intros l3 Hl3].
  apply bind_Ok in Ht as ([bs s] & Ht & Hfit). apply bind_Ok in Hfit as (? & _ & [= -> ->]).
  apply handoff_tx_prepared in Ht as (tx & Hb & Hm & Hsig).
  apply quiet_safe; [done|]. intros now. apply park_safe.
  - split; [done|]. eexists _, tx. split; [|by split]. left. exists plan, opts. by split_and!.
  - intros id l3. apply quiet_safe; [done|]. by intros [] l4 Hl4.
Qed.
Lemma deposit_handoff_safe G l plan preflight lease opts :
  hsafe any G l (create_signing_handoff rt plan preflight lease opts).
Proof.
  unfold create_signing_handoff.
  destruct (_ ≫= _) as [[slot units]|e] eqn:Hgate; [|by intros l1 Hl1].
  apply bind_Ok in Hgate as ([] & Hgate & Hc). apply bind_Ok in Hc as ([] & Hc & _).
  destruct (dp_obligation_signer_required plan) eqn:Hreq.
  - apply quiet_safe; [done|]. intros k. by apply park_deposit_safe.
  - apply park_deposit_safe; [done..|]. rewrite Hreq. split; [by intros [? [=]]|done].
Qed.
Lemma withdraw_handoff_safe G l plan lease :
  hsafe any G l (create_withdraw_signing_handoff plan lease).
Proof.
  unfold create_withdraw_signing_handoff. case_match; [by intros l1 Hl1|].
  apply latest_blockhash_safe; [by intros e l2 Hl2|]. intros h lv l2 Hh. cbv beta iota.
  destruct (handoff_tx _ _ _ _) as [[bytes sig]|e] eqn:Ht; [|by intros l3 Hl3].
  apply handoff_tx_prepared in Ht as (tx & Hb & Hm & Hsig).
  apply quiet_safe; [done|]. intros now. apply park_safe.
  - split; [done|]. eexists _, tx. split; [|by split]. right. by exists plan.
  - intros id l3. apply quiet_safe; [done|]. by intros [] l4 Hl4.
Qed.

(** *** Upkeep

    Reading and dropping entries asks for nothing. *)
Fixpoint harmless {A} (prog : SProg A) : Prop :=
  match prog with
  | Ret _ => True
  | Vis e k => match e with SignRemove _ => True | _ => quiet e = true end ∧ ∀ a, harmless (k a)
  end.
Lemma harmless_bind {A B} (prog : SProg A) (f : A → SProg B) :
  harmless prog → (∀ a, harmless (f a)) → harmless (prog ≫= f).
Proof.
  intros Hp Hf. induction prog as [a|e k IH]; [apply Hf|]. destruct Hp as [He Hk].
  split; [done|]. intros a. by apply IH.
Qed.
Lemma harmless_safe {A} G l (prog : SProg A) : harmless prog → hsafe any G l prog.
Proof.
  revert G l. induction prog as [a|e k IH]; intros G l Hp; [by intros l1 Hl1|]. destruct Hp as [He Hk].
  intros l1 Hl1. split; [by destruct e|]. intros a _. by apply IH.
Qed.
Lemma sweep_harmless drop ids : (∀ id, harmless (drop id)) → harmless (sweep drop ids).
Proof. intros Hd. induction ids as [|id ids IH]; [done|]. by apply harmless_bind. Qed.
Lemma upkeep_harmless {A} (prog : SProg A) : harmless prog → harmless (discard prog).
Proof. intros Hp. by apply harmless_bind. Qed.
Lemma cleanup_signing_harmless : harmless cleanup_signing.
Proof.
  split; [done|]. intros now. split; [done|]. intros ids. apply harmless_bind; [|done].
  apply sweep_harmless. by repeat split.
Qed.

Lemma submit_program_safe G l prog : submit_program rt recovery_ttl_seconds prog → hsafe any G l prog.
Proof.
  destruct 1.
  - apply safe_bind. eapply safe_conseq; [|apply deposit_handoff_safe]. by intros r G' l1 _ _ l2 _.
  - apply safe_bind. eapply safe_conseq; [|apply withdraw_handoff_safe]. by intros r G' l1 _ _ l2 _.
  - apply safe_bind. eapply safe_conseq; [|apply retrieve_safe]. intros r G' l1 _ Hr l2 Hl2.
    split; [by eapply answer_ok_mono|]. by intros [] _ l3 _.
  - intros l1 Hl1. split; [done|]. intros [] _. apply safe_bind.
    eapply safe_conseq; [|apply post_safe; by left]. intros [r|] G' l2 _ Hr l3 Hl3; [|done].
    split; [eapply answer_ok_mono; [exact Hl3|by apply Hr]|]. by intros [] _ l4 _.
  - apply harmless_safe, upkeep_harmless. split; [done|]. intros now. split; [done|]. intros e. simpl.
    destruct e as [p|]; [destruct (pk_expires_at p <=? now)|]; by repeat split.
  - apply harmless_safe, upkeep_harmless, harmless_bind; [apply cleanup_signing_harmless|]. by repeat split.
  - apply harmless_safe, upkeep_harmless. by repeat split.
  - apply harmless_safe, upkeep_harmless, cleanup_signing_harmless.
  - apply harmless_safe, upkeep_harmless. split; [done|]. intros now. split; [done|]. intros ids.
    apply harmless_bind; [|done]. apply sweep_harmless. by repeat split.
Qed.
End logic.
