(* ===== verification/SubmitSafety.v ===== *)
(** * Solend submission: what is broadcast, recorded and answered

    The tracker's loop, the invariant of the pool and what it gives: what is broadcast
    is what was parked, signed by its wallet and in time; how often; what a recorded
    outcome rests on; and to whom the API answers. *)
From stdpp Require Import functions.
From S2P Require Import Prelude Interaction WatcherBase Solana SdkTypes TxLifecycle TxTracker.
From S2P Require Import SubmitStores SubmitFlow SubmitLogic.
From S2P Require SigningTool TxTrackerFacts.
#[local] Open Scope string_scope.
#[local] Open Scope Z_scope.

Section safety.
Context `{Sdk, SubmitCrates, TrackTexts, SigningTool.Base64, SigningTool.Base64Encode}.
Context (rt : Runtime) (recovery_ttl_seconds : Z).
Context (Hparse : ∀ text key, sig_parse text = Some key → text = sig_text key).
Context `{!SubmitCratesLaws}.
Implicit Types (l : SubmitLog) (key : Signature) (p : ParkedSolendSigning) (c : SolendTrackedContext).
Notation any := (λ _ _ _, True).
Notation prepared := (prepared rt).
Notation justified := (justified rt).
Notation log_ok := (Interaction.log_ok justified).
Notation hsafe := (Interaction.safe (handler_pre rt) submit_told taken_after submit_entries).

(** ** The logic of the loop

    Beside it an entry of the tracker may appear, and none changes. *)
Definition rely_loop l l' : Prop := l `suffix_of` l' ∧ ∀ key,
  (∀ c, ctx_of key l = Some c →
     ctx_of key l' = Some c ∧ resends_since key l' = resends_since key l) ∧
  (ctx_of key l = None → ∀ c, ctx_of key l' = Some c →
     cx_rebroadcast_attempts c = 0 ∧ resends_since key l' = 0).
#[export] Instance rely_loop_preorder : PreOrder rely_loop.
Proof.
  split.
  - intros l. split; [done|]. intros key. split; [done|]. by intros -> c.
  - intros l1 l2 l3 [Hs1 Hk1] [Hs2 Hk2]. split; [by etransitivity|]. intros key.
    destruct (Hk1 key) as [S1 N1], (Hk2 key) as [S2 N2]. split.
    + intros c [Hc Hr]%S1. destruct (S2 c Hc) as [-> ->]. done.
    + intros Hn c Hc. destruct (ctx_of key l2) as [c2|] eqn:E2; [|by apply N2].
      destruct (S2 c2 eq_refl) as [Hc2 ->]. rewrite Hc2 in Hc. injection Hc as ->. by apply N1.
Qed.
Lemma loop_rely_suffix l l' : rely_loop l l' → l `suffix_of` l'.
Proof. by intros [? _]. Qed.

Definition loop_pre l (e : SubmitEvent) : Prop :=
  match e with
  | LcTransition id _ o => ∃ p, XParked id p ∈ l ∧ borne_out l id p o
  | TrInsert c => fresh_ctx c ∧ ctx_ok l (cx_tx_signature c) c
  | Resend key bytes => resends_since key l < MAX_CONFIRMATION_REBROADCAST_ATTEMPTS ∧
      ∃ c, ctx_ok l key c ∧ cx_signed_bytes c = Some bytes
  | SignInsert _ | SignRemove _ | LcInsert _ _ | SendTx _ _ | Answer _ _ _ => False
  | _ => True
  end.
Definition loop_told l (e : SubmitEvent) (a : SubmitAnswer e) (es : SubmitLog) : Prop :=
  es = submit_entries e a ∧ submit_told l e a.
Notation lguards := (guards rely_loop loop_pre loop_told).

(** Between rounds every rebroadcast has been counted. *)
Definition counted key l : Prop :=
  ∀ c, ctx_of key l = Some c → resends_since key l = cx_rebroadcast_attempts c.
Definition balanced l : Prop := ∀ key, counted key l.
Lemma loop_counted_rely key l l' : rely_loop l l' → counted key l → counted key l'.
Proof.
  intros [_ Hr] Hb c Hc. destruct (Hr key) as [Hs Hn].
  destruct (ctx_of key l) as [c0|] eqn:E; [|by destruct (Hn eq_refl _ Hc) as [-> ->]].
  destruct (Hs c0 eq_refl) as [Hc0 ->]. rewrite Hc0 in Hc. injection Hc as ->. by apply Hb.
Qed.
Lemma loop_balanced_rely l l' : rely_loop l l' → balanced l → balanced l'.
Proof. intros Hl Hb key. by eapply loop_counted_rely. Qed.
Definition uncounted (x : SubmitEntry) : Prop :=
  match x with
  | XResent _ _ | XAttempts _ _ _ => False
  | XTracked _ c => fresh_ctx c
  | _ => True
  end.
Lemma balanced_cons l x : uncounted x → balanced l → balanced (x :: l).
Proof.
  intros Hx Hb key c. destruct x; try done; cbn; try (by apply Hb); try case_bool_decide; try (by apply Hb); try done.
  - intros [= <-]. by destruct Hx as [_ ->].
  - intros (c0 & Hc & ->)%fmap_Some. by apply Hb in Hc as ->.
  - intros (c0 & Hc & ->)%fmap_Some. by apply Hb in Hc as ->.
Qed.

Notation rest := (λ (_ : unit) l', balanced l').
Lemma loop_event {A} (Q : A → SubmitLog → Prop) l e (f : SubmitAnswer e → SProg A) :
  balanced l → (∀ l', rely_loop l l' → loop_pre l' e) → (∀ a, Forall uncounted (submit_entries e a)) →
  (∀ a l', rely_loop l l' → submit_told l' e a → balanced (submit_entries e a ++ l')%list →
     lguards Q (submit_entries e a ++ l')%list (f a)) →
  lguards Q l (Interaction.ask e ≫= f).
Proof.
  intros Hb Hpre Hu Hf l1 Hl1. split; [by apply Hpre|]. intros a es [-> Ht]. apply Hf; [done|done|].
  pose proof (loop_balanced_rely _ _ Hl1 Hb) as Hb1. specialize (Hu a). revert Hu.
  induction (submit_entries e a) as [|x es IH]; intros Hu; [done|]. apply Forall_cons in Hu as [? ?].
  apply balanced_cons; [done|by apply IH].
Qed.
Lemma loop_quiet {A} (Q : A → SubmitLog → Prop) l e (f : SubmitAnswer e → SProg A) :
  quiet e = true → balanced l → (∀ a, lguards Q l (f a)) → lguards Q l (Interaction.ask e ≫= f).
Proof.
  intros He Hb Hf l1 Hl1. destruct e; try done; (split; [done|]); intros a es [-> _];
    (eapply guards_mono; [apply _|exact Hl1|apply Hf]).
Qed.
Lemma loop_done l : balanced l → lguards rest l (Ret tt).
Proof. intros Hb l' Hl. by eapply loop_balanced_rely. Qed.
Lemma loop_last l e (k : SubmitAnswer e → SProg unit) :
  balanced l → quiet e = true → (∀ a, k a = Ret tt) → lguards rest l (Vis e k).
Proof.
  intros Hb Hq Hk l1 Hl1. destruct e; try done; (split; [done|]); intros a es [-> _]; rewrite Hk;
    by apply loop_done, (loop_balanced_rely _ _ Hl1).
Qed.

Ltac last_event := apply loop_last; [done|done|by intros []].

(** *** Observations *)
Definition seen l key (height : Z) (status : option SolendSignatureStatus) : Prop :=
  XFinalHeight height ∈ l ∧ ∃ sigs statuses i st, XStatuses sigs statuses ∈ l ∧ sigs !! i = Some key ∧
    statuses !! i = Some st ∧ status = option_map node_status st.
Lemma seen_mono l l' key h status : l `suffix_of` l' → seen l key h status → seen l' key h status.
Proof.
  intros Hs (? & sigs & sts & i & st & ? & ? & ? & ?). split; [kept|].
  exists sigs, sts, i, st. split_and!; [kept|done..].
Qed.
Definition record_of c : TrackingRecord :=
  MkTracking "" 0%N 0%N "" "" (cx_state c) (cx_last_valid_block_height c) (cx_submission_block_height c)
    None None false false false false false None 0.
Lemma next_slot c s height slot :
  (next_cx_state (status_to_observation (Some s)) height c = Confirmed slot ∨
   next_cx_state (status_to_observation (Some s)) height c = Finalized slot) →
  next_cx_state (status_to_observation (Some s)) height c ≠ cx_state c → slot = ns_slot s.
Proof.
  unfold next_cx_state, calculate_next_state. cbn. intros Hs Hne.
  destruct (cx_state c), (ns_err s), (ns_confirmation_status s) as [[]|]; cbn in *;
    repeat case_match; destruct_or!; simplify_eq; done.
Qed.
Lemma state_outcome_borne l key c height status o ev sev :
  ctx_ok l key c → seen l key height status →
  next_cx_state (to_observation status) height c ≠ cx_state c →
  outcome_of_state c height (next_cx_state (to_observation status) height c) = Some (o, ev, sev) →
  ∃ p, XParked (cx_signing_request_id c) p ∈ l ∧ borne_out l (cx_signing_request_id c) p o.
Proof.
  intros (Hkey & Hsent & _ & p & Hp & [= Hi Hw Hlv]) (Hh & sigs & sts & i & st & Hst & Hk & Hi' & ->) Hne Ho.
  exists p. split; [done|]. assert (to_observation (option_map node_status st) = status_to_observation st) as Hobs
    by (by destruct st). rewrite Hobs in *.
  pose proof (TxTrackerFacts.next_state_spec (record_of c) st height _ eq_refl Hne) as Hspec.
  pose proof (λ s slot Hst, next_slot c s height slot Hst) as Hslot.
  assert (answered l (cx_signing_request_id c) (sig_text (cx_tx_signature c)) st) as Ha.
  { exists key, sigs, sts, i. rewrite Hkey. by split_and!. }
  change (TxTracker.next_state (status_to_observation st) height (record_of c))
    with (next_cx_state (status_to_observation st) height c) in Hspec.
  destruct (next_cx_state _ _ _) as [| |slot|slot|err|] eqn:Hs; try done; injection Ho as <- <- <-; cbn.
  - destruct Hspec as (s & -> & ? & Hc). split; [congruence|]. exists s. split_and!; [done..|].
    eapply Hslot; rewrite Hs; [by left|done].
  - destruct Hspec as (s & -> & ? & Hc). split; [congruence|]. exists s. split_and!; [done..|].
    eapply Hslot; rewrite Hs; [by right|done].
  - destruct Hspec as (s & -> & ?). split; [congruence|]. by exists s.
  - destruct Hspec as [? ?]. split_and!; [done..|]. by exists st.
Qed.

Lemma observe_status_guards l key height status : balanced l → seen l key height status →
  lguards rest l (observe_status height key status).
Proof.
  intros Hb Hs. apply loop_event; [done|done|by intros a; constructor|]. intros a l1 Hl1 [-> Hc] Hb1.
  cbn [submit_entries app] in *. pose proof (loop_rely_suffix _ _ Hl1) as Hsuf.
  destruct (ctx_of key l1) as [c|] eqn:Hctx; [|by apply loop_done]. specialize (Hc c eq_refl). cbv zeta.
  case_bool_decide as Hne; [by apply loop_done|].
  apply loop_event; [done|done|by intros a; constructor|]. intros [] l2 Hl2 _ Hb2. cbn [submit_entries app] in *.
  assert (l1 `suffix_of` XState key (next_cx_state (to_observation status) height c) :: l2) as Hs2
    by (by apply suffix_cons_r, loop_rely_suffix).
  unfold on_state_change. destruct (outcome_of_state _ _ _) as [[[o ev] sev]|] eqn:Ho; [|by apply loop_done].
  apply loop_event; [done| |by intros a; constructor|].
  - intros l3 Hl3. eapply state_outcome_borne; [..|exact Hne|exact Ho].
    + eapply ctx_ok_mono; [|exact Hc]. etransitivity; [exact Hs2|by apply loop_rely_suffix].
    + eapply seen_mono; [|exact Hs]. etransitivity; [exact Hsuf|]. etransitivity; [exact Hs2|by apply loop_rely_suffix].
  - intros moved l3 Hl3 _ Hb3. destruct moved; cbv beta iota delta [negb]; [|by apply loop_done].
    by last_event.
Qed.
Lemma then_rest l (first next : SProg unit) : lguards rest l first →
  (∀ l', l `suffix_of` l' → balanced l' → lguards rest l' next) → lguards rest l (_ ← first; next).
Proof.
  intros Hp Hq. apply guards_bind; [apply _|]. revert l Hp Hq.
  induction first as [[]|e k IH]; intros l Hp Hq; simpl in *.
  - intros l' Hl. apply Hq; [by apply loop_rely_suffix|by apply Hp].
  - intros l' Hl. destruct (Hp l' Hl) as [Hpre Hk]. split; [done|]. intros a es Hes. apply IH; [by apply Hk|].
    intros l2 Hl2. apply Hq. transitivity l'; [by apply loop_rely_suffix|]. etransitivity; [|exact Hl2].
    by apply suffix_app_r.
Qed.
Lemma observe_statuses_guards l height statuses : balanced l →
  (∀ key status, (key, status) ∈ statuses → seen l key height status) →
  lguards rest l (observe_statuses height statuses).
Proof.
  revert l. induction statuses as [|[key status] statuses IH]; intros l Hb Hs; cbn [observe_statuses];
    [by apply loop_done|].
  apply then_rest; [apply observe_status_guards; [done|apply Hs; by left]|]. intros l' Hl Hb'. apply IH; [done|].
  intros key' st' Hin. eapply seen_mono; [exact Hl|]. apply Hs. by right.
Qed.

(** *** Rebroadcasts *)
Lemma verdict_within height c bytes : resend_verdict height c = TryResend bytes →
  cx_signed_bytes c = Some bytes ∧ cx_rebroadcast_attempts c < MAX_CONFIRMATION_REBROADCAST_ATTEMPTS.
Proof.
  unfold resend_verdict. destruct (is_terminal _); [done|]. destruct (cx_signed_bytes c) as [b|]; [|done].
  destruct (Z.leb_spec MAX_CONFIRMATION_REBROADCAST_ATTEMPTS (cx_rebroadcast_attempts c)); [done|].
  case_match; [done|]. by intros [= ->].
Qed.
Lemma resend_one_guards l height key : balanced l → lguards rest l (resend_one height key).
Proof.
  intros Hb. apply loop_event; [done|done|by intros a; constructor|]. intros a l1 Hl1 [-> Hc] Hb1.
  cbn [submit_entries app] in *. destruct (ctx_of key l1) as [c|] eqn:Hctx; [|by apply loop_done].
  specialize (Hc c eq_refl). cbv zeta beta iota. destruct (resend_verdict height c) as [| |bytes] eqn:Hv.
  - by apply loop_done.
  - destruct (cx_blockhash_guard_audited c); [by apply loop_done|].
    apply loop_quiet; [done|done|]. intros []. apply loop_event; [done|done|by intros a; repeat constructor|].
    intros [] l2 _ _ Hb2. by apply loop_done.
  - apply verdict_within in Hv as [Hbytes Hn]. apply loop_quiet; [done|done|]. intros now. cbv beta.
    destruct (negb _); [by apply loop_done|]. cbv zeta.
    intros l2 Hl2. pose proof Hl2 as [Hs2 Hk2]. destruct (Hk2 key) as [Hsame _].
    destruct (Hsame c Hctx) as [Hctx2 Hr2]. rewrite (Hb1 _ _ Hctx) in Hr2. split.
    + split; [lia|]. exists c. split; [by eapply ctx_ok_mono|done].
    + intros r es [-> _]. cbn [submit_entries app].
      assert (∀ l3, rely_loop (XResent key bytes :: l2) l3 →
        balanced (XAttempts key (cx_rebroadcast_attempts c + 1) now :: l3)) as Hb3.
      { intros l3 Hl3 key' c'. destruct (base.decide (key = key')) as [<-|Hne].
        - destruct Hl3 as [_ Hk3]. destruct (Hk3 key) as [Hs3 _]. cbn in Hs3. rewrite !bool_decide_eq_true_2 in Hs3 by done.
          destruct (Hs3 c Hctx2) as [Hctx3 Hr3]. cbn. rewrite bool_decide_eq_true_2 by done. rewrite Hctx3.
          intros [= <-]. cbn. lia.
        - cbn. rewrite bool_decide_eq_false_2 by done. apply (loop_counted_rely _ _ _ Hl3). intros c2. cbn.
          rewrite bool_decide_eq_false_2 by done. by apply (loop_balanced_rely _ _ Hl2). }
      intros l3 Hl3. split; [done|]. intros [] es [-> _]. cbn [submit_entries app]. apply Hb3 in Hl3.
      destruct r; by last_event.
Qed.
Lemma resend_pass_guards l height observed sigs : balanced l → lguards rest l (resend_pass height observed sigs).
Proof.
  revert l. induction sigs as [|key sigs IH]; intros l Hb; cbn [resend_pass]; [by apply loop_done|].
  apply then_rest; [|by intros l' _ Hb'; apply IH].
  case_bool_decide; [by apply loop_done|by apply resend_one_guards].
Qed.
Lemma prune_guards l sigs : balanced l → lguards rest l (prune sigs).
Proof.
  revert l. induction sigs as [|key sigs IH]; intros l Hb; cbn [prune]; [by apply loop_done|].
  apply loop_event; [done|done|by intros a; repeat constructor|]. intros [] l1 _ _ Hb1. by apply IH.
Qed.

(** *** Rounds and wiring *)
Lemma zipped_seen l height sigs statuses key status :
  XFinalHeight height ∈ l → XStatuses sigs statuses ∈ l →
  (key, status) ∈ zip sigs (map (option_map node_status) statuses) → seen l key height status.
Proof.
  intros Hh Hs (i & Hi)%list_elem_of_lookup. apply lookup_zip_Some in Hi as [Hk Hst].
  rewrite list_lookup_fmap in Hst. apply fmap_Some in Hst as (st & ? & ->).
  split; [done|]. by exists sigs, statuses, i, st.
Qed.
Lemma tick_once_guards l : balanced l → lguards rest l tick_once.
Proof.
  intros Hb. apply loop_event; [done|done|by intros []; repeat constructor|].
  intros [height|e] l1 _ _ Hb1; cbn [submit_entries app] in *; [|by last_event].
  apply loop_event; [done|done|by intros a; constructor|]. intros sigs l2 Hl2 _ Hb2.
  cbn [submit_entries app] in *. cbv beta. case_bool_decide; [by apply loop_done|].
  apply loop_event; [done|done|by intros []; repeat constructor|].
  intros [statuses|e] l3 Hl3 _ Hb3; cbn [submit_entries app] in *; [|by last_event].
  cbv beta zeta. apply then_rest; [|intros l4 _ Hb4; apply then_rest; [by apply resend_pass_guards|]].
  - apply observe_statuses_guards; [done|]. intros key status Hin. eapply zipped_seen; [|by left|exact Hin].
    right. eapply elem_of_suffix; [by left|]. etransitivity; by apply loop_rely_suffix.
  - intros l5 _ Hb5. apply loop_event; [done|done|by intros a; constructor|]. intros gone l6 _ _ Hb6.
    by apply prune_guards.
Qed.
Lemma run_round_guards l : balanced l → lguards rest l run_round.
Proof.
  intros Hb. apply loop_event; [done|done|by intros a; constructor|]. intros idle l1 _ _ Hb1. cbv beta.
  destruct idle; [by apply loop_done|by apply tick_once_guards].
Qed.

Lemma enqueue_guards l c : balanced l → fresh_ctx c → ctx_ok l (cx_tx_signature c) c →
  lguards rest l (_ ← enqueue c; Ret tt).
Proof.
  intros Hb Hf Hc. apply guards_bind; [apply _|]. apply loop_quiet; [done|done|]. intros terminal. cbv beta.
  destruct terminal; [by intros l1 Hl1; apply loop_done, (loop_balanced_rely _ _ Hl1)|].
  apply loop_event; [done| |by intros [|]; [apply Forall_singleton|constructor]|].
  - intros l1 Hl1. split; [done|]. eapply ctx_ok_mono; [by apply loop_rely_suffix|done].
  - intros vacant l1 _ _ Hb1. cbv beta. destruct vacant; cbn [submit_entries app] in *.
    + apply loop_quiet; [done|done|]. intros [] l2 Hl2. by apply loop_done, (loop_balanced_rely _ _ Hl2).
    + intros l2 Hl2. by apply loop_done, (loop_balanced_rely _ _ Hl2).
Qed.
Lemma recover_one_guards l id r : balanced l → recorded_ok l id r →
  lguards rest l (recover_one id (rs_session_id r) (rs_outcome r)).
Proof.
  intros Hb (p & [Hp _] & Ho). unfold recover_one.
  destruct (recovered_terms (rs_outcome r)) as [[[[text intent] wallet] lv]|] eqn:Hterms; [|by apply loop_done].
  assert ((intent, wallet, lv) = (pk_intent_id p, pk_session_wallet p, pk_last_valid_block_height p) ∧
    sent_as l id text) as [Heq Hsent].
  { destruct (rs_outcome r); try done; injection Hterms as -> -> -> ->; cbn in Ho.
    - destruct Ho as [[= -> -> -> ->] ?]. done.
    - destruct Ho as [? (s & (k & sigs & sts & i & ? & ? & _) & _)]. done. }
  destruct (sig_parse text) as [key|] eqn:Hkey; [|by apply loop_done]. apply Hparse in Hkey. subst text.
  apply loop_quiet; [done|done|]. intros now. cbv beta. apply enqueue_guards; [done|done|].
  split_and!; [done|done|done|]. exists p. split; [done|]. by rewrite <- Heq.
Qed.
Lemma recover_all_guards l records : balanced l →
  (∀ id session o, (id, session, o) ∈ records →
     ∃ r, recorded_ok l id r ∧ rs_session_id r = session ∧ rs_outcome r = o) →
  lguards rest l (recover_all records).
Proof.
  revert l. induction records as [|[[id session] o] records IH]; intros l Hb Hr; cbn [recover_all];
    [by apply loop_done|].
  apply then_rest.
  - destruct (Hr id session o) as (r & Hok & <- & <-); [by left|]. by apply recover_one_guards.
  - intros l' Hl Hb'. apply IH; [done|]. intros id' session' o' Hin.
    destruct (Hr id' session' o') as (r & Hok & ? & ?); [by right|]. exists r.
    split; [by eapply recorded_ok_mono|done].
Qed.
Lemma wire_guards l : balanced l → lguards rest l wire_solend_confirmation_tracker.
Proof.
  intros Hb. apply loop_quiet; [done|done|]. intros now. cbv beta.
  apply loop_event; [done|done|by intros a; constructor|]. intros records l1 _ Hr Hb1.
  by apply recover_all_guards.
Qed.

(** ** The invariant of the pool *)
Lemma suffix_tail (x : SubmitEntry) l0 l : x :: l0 `suffix_of` l → l0 `suffix_of` l.
Proof. intros Hs. etransitivity; [|exact Hs]. by apply suffix_cons_r. Qed.
Lemma parked_at_most_once l id p p' : log_ok l → XParked id p ∈ l → XParked id p' ∈ l → p' = p.
Proof.
  induction l as [|x l IH]; intros Hl; [by intros ?%not_elem_of_nil|].
  pose proof (log_ok_tail _ _ _ Hl) as Hl'. pose proof (log_ok_head _ _ _ Hl) as Hx.
  intros [<-|Hp]%elem_of_cons [E|Hp']%elem_of_cons; [by injection E|..|by apply IH].
  - by destruct Hx as [Hno _]; apply Hno in Hp'.
  - subst x. by destruct Hx as [Hno _]; apply Hno in Hp.
Qed.
Lemma ctx_log_ok l key c : log_ok l → ctx_of key l = Some c → ctx_ok l key c.
Proof.
  revert c. induction l as [|x l IH]; intros c Hl; [done|]. specialize (λ c, IH c (log_ok_tail _ _ _ Hl)) as IH'.
  assert (∀ f, (∀ c l, ctx_ok l key c → ctx_ok l key (f c)) → f <$> ctx_of key l = Some c →
    ctx_ok (x :: l) key c) as Hmap.
  { intros f Hf (c0 & Hc & ->)%fmap_Some. apply Hf. eapply ctx_ok_mono; [|by apply IH'].
    by apply suffix_cons_r. }
  assert (ctx_of key l = Some c → ctx_ok (x :: l) key c) as Hsame.
  { intros Hc. eapply (Hmap id); [done|by rewrite option_fmap_id]. }
  pose proof (log_ok_head _ _ _ Hl) as Hx.
  destruct x; cbn [ctx_of]; try exact Hsame; try done; case_bool_decide; try exact Hsame; try done;
    try (by apply Hmap).
  intros [= <-]. subst. eapply ctx_ok_mono; [|by apply Hx]. by apply suffix_cons_r.
Qed.
Lemma sends_taken l id : log_ok l → (∀ p, XTaken id p ∉ l) → sends id l = 0%nat.
Proof.
  induction l as [|x l IH]; intros Hl Hno; [done|].
  assert (sends id l = 0%nat) as Hs by (apply IH; [by eapply log_ok_tail|]; intros p Hp; apply (Hno p); by right).
  pose proof (log_ok_head _ _ _ Hl) as Hx. destruct x; cbn; try done. case_bool_decide; [|done]. subst.
  destruct Hx as (_ & p & Hp & _). exfalso. apply (Hno p). by right.
Qed.

Record stores_ok (st : SubmitState) l : Prop := {
  sto_signing id p : sb_signing st !! id = Some p → XParked id p ∈ l ∧ ∀ p', XTaken id p' ∉ l;
  sto_lifecycle id r : sb_lifecycle st !! id = Some r → recorded_ok l id r;
  sto_tracked key : sb_tracked st !! key = ctx_of key l
}.
(** What either logic asks for before an event. *)
Definition base l (e : SubmitEvent) : Prop :=
  match e with
  | SignInsert p => prepared l p
  | LcInsert id r => recorded_ok l id r
  | LcTransition id _ o => ∃ p, XParked id p ∈ l ∧ borne_out l id p o
  | TrInsert c => fresh_ctx c ∧ ctx_ok l (cx_tx_signature c) c
  | SendTx id bytes => (sends id l < 4)%nat ∧ ∃ p, XTaken id p ∈ l ∧ submittable l p bytes
  | Resend key bytes => resends_since key l < MAX_CONFIRMATION_REBROADCAST_ATTEMPTS ∧
      ∃ c, ctx_ok l key c ∧ cx_signed_bytes c = Some bytes
  | Answer session id r => answer_ok l session id r
  | _ => True
  end.
Lemma loop_base l e : loop_pre l e → base l e.
Proof. by destruct e. Qed.

Lemma submit_told_ok env e st a st' l :
  log_ok l → stores_ok st l → submit_answer env e st = (a, st') → submit_told l e a.
Proof.
  intros Hl [Hs Hc Ht] Ha. destruct e; cbn [submit_told]; try exact I; cbn [submit_answer] in Ha;
    injection Ha as <- _.
  - intros p Hp. by apply Hs.
  - intros p [Hp _]%Hs. split; [done|]. intros p' Hp'. by eapply parked_at_most_once.
  - intros r Hr. by apply Hc.
  - intros id session o Hin. unfold open_records in Hin.
    apply list_elem_of_omap in Hin as (id' & _ & Hin). destruct (sb_lifecycle st !! id') as [r|] eqn:Hr; [|done].
    case_match; [|done]. injection Hin as -> <- <-. exists r. split; [by apply Hc|done].
  - split; [done|]. intros c Hc'. apply ctx_log_ok; [done|]. by rewrite <- Ht.
Qed.

Lemma submit_log_step env e st a st' l :
  log_ok l → stores_ok st l → env_fresh env l → base l e → submit_answer env e st = (a, st') →
  log_ok (submit_entries e a ++ l).
Proof.
  intros Hl [Hs Hc Ht] Hfresh Hb Ha.
  destruct e; cbn [submit_entries app]; try done; cbn [submit_answer] in Ha; try (injection Ha as <- _).
  - destruct (sb_signing st !! id) as [p|] eqn:Hp; [|done]. apply log_ok_cons; [done|]. by apply Hs.
  - apply log_ok_cons; [done|]. by split.
  - destruct (sb_tracked st !! _); injection Ha as <- _; [done|]. by apply log_ok_cons.
  - by apply log_ok_cons.
  - by apply log_ok_cons.
  - by apply log_ok_cons.
  - by apply log_ok_cons.
  - destruct (sv_blockhash env) as [[]|]; [by apply log_ok_cons|done].
  - destruct (sv_height env); by apply log_ok_cons.
  - destruct (sv_final_height env); [by apply log_ok_cons|done].
  - destruct (sv_statuses env sigs); [by apply log_ok_cons|done].
  - by apply log_ok_cons.
  - by apply log_ok_cons.
  - by apply log_ok_cons.
  - by apply log_ok_cons.
Qed.

(** Entries that concern neither store, nor the map. *)
Definition foreign (x : SubmitEntry) : Prop :=
  match x with
  | XTaken _ _ | XTracked _ _ | XState _ _ | XGuard _ | XAttempts _ _ _ | XUntracked _ | XWired => False
  | _ => True
  end.
Lemma stores_foreign st l x : foreign x → stores_ok st l → stores_ok st (x :: l).
Proof.
  intros Hx [Hs Hc Ht]. assert (l `suffix_of` x :: l) as Hsuf by (by apply suffix_cons_r). split.
  - intros id p [Hp Hno]%Hs. split; [by right|]. intros p' [E|Hin]%elem_of_cons; [by subst x|by eapply Hno].
  - intros id r Hr%Hc. by eapply recorded_ok_mono.
  - intros key. rewrite Ht. by destruct x.
Qed.
Lemma tracked_step st l x m : stores_ok st l →
  match x with XTracked _ _ | XState _ _ | XGuard _ | XAttempts _ _ _ | XUntracked _ | XWired => True | _ => False end →
  (∀ key, m !! key = ctx_of key (x :: l)) → stores_ok (with_tracked m st) (x :: l).
Proof.
  intros [Hs Hc Ht] Hx Hm. assert (l `suffix_of` x :: l) as Hsuf by (by apply suffix_cons_r). split; cbn.
  - intros id p [Hp Hno]%Hs. split; [by right|]. intros p' [E|Hin]%elem_of_cons; [by subst x|by eapply Hno].
  - intros id r Hr%Hc. by eapply recorded_ok_mono.
  - done.
Qed.
Lemma on_tracked_step st l x f key : stores_ok st l →
  match x with XTracked _ _ | XState _ _ | XGuard _ | XAttempts _ _ _ | XUntracked _ | XWired => True | _ => False end →
  (∀ k, ctx_of k (x :: l) = if bool_decide (key = k) then f <$> ctx_of k l else ctx_of k l) →
  stores_ok (on_tracked f key st) (x :: l).
Proof.
  intros Hst Hx Hf. apply tracked_step; [done|done|]. intros k. rewrite Hf, <- (sto_tracked _ _ Hst).
  case_bool_decide; [subst; apply lookup_alter_eq|by apply lookup_alter_ne].
Qed.
Lemma lifecycle_step st l m : stores_ok st l →
  (∀ id r, m !! id = Some r → recorded_ok l id r) → stores_ok (with_lifecycle m st) l.
Proof. intros [Hs Hc Ht] Hm. by split. Qed.

Lemma transition_ok st l id session o b m : log_ok l → stores_ok st l →
  (∃ p, XParked id p ∈ l ∧ borne_out l id p o) →
  transition id session o (sb_lifecycle st) = (b, m) → stores_ok (with_lifecycle m st) l.
Proof.
  intros Hl Hst (p & Hp & Hb) Ht. apply lifecycle_step; [done|]. intros id' r. unfold transition in Ht.
  destruct (sb_lifecycle st !! id) as [e|] eqn:He; [|injection Ht as _ <-; by apply Hst].
  repeat (case_match; [injection Ht as _ <-; by apply Hst|]). injection Ht as _ <-.
  intros [[<- <-]|[_ Hr]]%lookup_insert_Some; [|by apply Hst].
  apply (sto_lifecycle _ _ Hst) in He as (p' & [Hp' Hsess] & _).
  rewrite (parked_at_most_once _ _ _ _ Hl Hp Hp') in *. by exists p.
Qed.

Lemma submit_stores_step env e st a st' l :
  log_ok l → stores_ok st l → env_fresh env l → base l e → submit_answer env e st = (a, st') →
  stores_ok st' (submit_entries e a ++ l).
Proof.
  intros Hl Hst Hfresh Hb Ha. pose proof Hst as [Hs Hc Ht].
  destruct e; cbn [submit_entries app]; cbn [submit_answer] in Ha;
    try (injection Ha as <- <-; try done; try (by apply stores_foreign)).
  - destruct (sb_signing st !! id) as [p|] eqn:Hp.
    + split; cbn.
      * intros id' p' [Hne Hp']%lookup_delete_Some. destruct (Hs _ _ Hp') as [? Hno]. split; [by right|].
        intros q [E|Hin]%elem_of_cons; [by injection E as ->|by eapply Hno].
      * intros id' r Hr%Hc. eapply recorded_ok_mono; [|done]. by apply suffix_cons_r.
      * done.
    + by rewrite delete_id; destruct st.
  - apply stores_foreign with (x := XParked (sv_uuid env) p) in Hst as [Hs' Hc' Ht']; [|done]. split; cbn; try done.
    intros id' p' [[<- <-]|[_ Hp']]%lookup_insert_Some; [|by apply Hs']. split; [by left|].
    intros q [|Hin]%elem_of_cons; [done|]. destruct (log_before _ _ _ Hl Hin) as (l0 & Hs0 & Hpk & _).
    eapply Hfresh, elem_of_suffix; [exact Hpk|by eapply suffix_tail].
  - apply lifecycle_step; [done|]. intros id' r [_ Hr]%lookup_delete_Some. by apply Hc.
  - unfold or_insert in Ha. destruct (sb_lifecycle st !! id) as [e|] eqn:He; injection Ha as <- <-.
    + by destruct st.
    + apply lifecycle_step; [done|]. intros id' r' [[<- <-]|[_ Hr]]%lookup_insert_Some; [done|by apply Hc].
  - destruct (transition id session o (sb_lifecycle st)) as [b m] eqn:Htr. injection Ha as <- <-.
    by eapply transition_ok.
  - destruct (sb_tracked st !! cx_tx_signature c) as [c'|] eqn:Hk; injection Ha as <- <-; [done|].
    apply tracked_step; [done|done|]. intros key. cbn. rewrite <- Ht.
    case_bool_decide; [subst; apply lookup_insert_eq|by apply lookup_insert_ne].
  - by apply on_tracked_step.
  - by apply on_tracked_step.
  - by apply on_tracked_step.
  - apply tracked_step; [done|done|]. intros key. cbn. rewrite <- Ht.
    case_bool_decide; [subst; apply lookup_delete_eq|by apply lookup_delete_ne].
  - destruct (sv_blockhash env) as [[]|]; [by apply stores_foreign|done].
  - destruct (sv_height env); by apply stores_foreign.
  - destruct (sv_final_height env); [by apply stores_foreign|done].
  - destruct (sv_statuses env sigs); [by apply stores_foreign|done].
Qed.

(** *** Who has taken what *)
Record ghosts_ok (Gs : nat → Taken) l : Prop := {
  gh_taken n id p k : Gs n = Some (id, p, k) → XTaken id p ∈ l ∧ sends id l = k;
  gh_disjoint n m id p p' k k' : Gs n = Some (id, p, k) → Gs m = Some (id, p', k') → n = m
}.
Lemma ghosts_entries Gs l es : (∀ id bytes r, XSent id bytes r ∉ es) → ghosts_ok Gs l → ghosts_ok Gs (es ++ l).
Proof.
  intros Hes [Ht Hd]. split; [|done]. intros n id p k [Hp Hk]%Ht.
  split; [apply elem_of_app; by right|]. rewrite <- Hk. clear -Hes.
  induction es as [|x es IH]; [done|]. cbn.
  rewrite IH by (intros i b r Hin; apply (Hes i b r); by right).
  destruct x; try done. exfalso. eapply Hes. by left.
Qed.
Lemma quiet_entries e (a : SubmitAnswer e) id bytes r :
  match e with SendTx _ _ => False | _ => True end → XSent id bytes r ∉ submit_entries e a.
Proof.
  intros He. destruct e; try done; cbn; try destruct a as [[]|]; try destruct a;
    rewrite ?elem_of_cons, ?elem_of_nil; naive_solver.
Qed.

Lemma submit_ghosts_step Gs n env e st a st' l :
  log_ok l → stores_ok st l → ghosts_ok Gs l → handler_pre rt (Gs n) l e →
  submit_answer env e st = (a, st') →
  ghosts_ok (<[n := taken_after (Gs n) e a]> Gs) (submit_entries e a ++ l).
Proof.
  intros Hl Hst Hg Hpre Ha.
  assert (∀ G, G = Gs n → ghosts_ok Gs (submit_entries e a ++ l) →
    ghosts_ok (<[n := G]> Gs) (submit_entries e a ++ l)) as Hsame.
  { intros G -> [Ht Hd]. assert (∀ m, (<[n := Gs n]> Gs) m = Gs m) as Heq.
    { intros m. destruct (base.decide (n = m)) as [<-|]; [by rewrite fn_lookup_insert|by rewrite fn_lookup_insert_ne]. }
    split; [intros m id p k; rewrite Heq; apply Ht|intros m m' id p p' k k'; rewrite !Heq; apply Hd]. }
  destruct e; try (apply Hsame; [done|]; apply ghosts_entries; [intros; by apply quiet_entries|done]).
  - cbn [submit_answer] in Ha. injection Ha as <- _. cbn [taken_after submit_entries app].
    destruct (sb_signing st !! id) as [p|] eqn:Hp.
    + apply (sto_signing _ _ Hst) in Hp as [_ Hno]. destruct Hg as [Ht Hd]. split.
      * intros m id' p' k. destruct (base.decide (n = m)) as [<-|Hne].
        -- rewrite fn_lookup_insert. intros [= <- <- <-]. split; [by left|]. cbn. by apply sends_taken.
        -- rewrite fn_lookup_insert_ne by done. intros [Hp' Hk]%Ht. split; [by right|done].
      * intros m m' id' p1 p2 k1 k2. destruct (base.decide (n = m)) as [<-|Hne], (base.decide (n = m')) as [<-|Hne'];
          rewrite ?fn_lookup_insert, ?fn_lookup_insert_ne by done; [done|..|by apply Hd].
        -- intros [= <- _ _] [Hin _]%Ht. exfalso. by eapply Hno.
        -- intros [Hin _]%Ht [= <- _ _]. exfalso. by eapply Hno.
    + apply Hsame; [done|]. cbn [submit_answer submit_entries app]. exact Hg.
  - destruct Hpre as (p & k & HG & Hk & _). cbn [taken_after submit_entries app]. rewrite HG.
    destruct Hg as [Ht Hd]. destruct (Ht _ _ _ _ HG) as [Hp Hs]. split.
    + intros m id' p' k'. destruct (base.decide (n = m)) as [<-|Hne].
      * rewrite fn_lookup_insert. intros [= <- <- <-]. split; [by right|]. cbn.
        by rewrite bool_decide_eq_true_2, Hs.
      * rewrite fn_lookup_insert_ne by done. intros Hm. destruct (Ht _ _ _ _ Hm) as [Hp' Hs'].
        split; [by right|]. cbn. rewrite bool_decide_eq_false_2; [done|]. intros <-. by apply Hne, (Hd _ _ _ _ _ _ _ HG Hm).
    + intros m m' id' p1 p2 k1 k2. destruct (base.decide (n = m)) as [<-|Hne], (base.decide (n = m')) as [<-|Hne'];
        rewrite ?fn_lookup_insert, ?fn_lookup_insert_ne by done; [done|..|by apply Hd].
      * intros [= <- _ _] Hm. by apply (Hd _ _ _ _ _ _ _ HG Hm).
      * intros Hm [= <- _ _]. by rewrite (Hd _ _ _ _ _ _ _ HG Hm).
Qed.
Lemma handler_base Gs n l e : ghosts_ok Gs l → handler_pre rt (Gs n) l e → base l e.
Proof.
  intros Hg. destruct e; try done. intros (p & k & HG & Hk & Hs).
  destruct (gh_taken _ _ Hg _ _ _ _ HG) as [Hp Hsends]. split; [lia|]. by exists p.
Qed.

(** A handler leaves the loop's entries alone. *)
Lemma handler_rely G l e env st a st' : stores_ok st l → handler_pre rt G l e →
  submit_answer env e st = (a, st') → rely_loop l (submit_entries e a ++ l).
Proof.
  intros Hst Hpre Ha. split; [by apply suffix_app_r|]. intros key.
  assert (ctx_of key (submit_entries e a ++ l) = ctx_of key l ∧
    resends_since key (submit_entries e a ++ l) = resends_since key l →
    (∀ c, ctx_of key l = Some c → ctx_of key (submit_entries e a ++ l) = Some c ∧
       resends_since key (submit_entries e a ++ l) = resends_since key l) ∧
    (ctx_of key l = None → ∀ c, ctx_of key (submit_entries e a ++ l) = Some c →
       cx_rebroadcast_attempts c = 0 ∧ resends_since key (submit_entries e a ++ l) = 0)) as Heq.
  { intros [-> ->]. split; [done|]. by intros -> c. }
  destruct e; try done; try (by apply Heq); cbn [submit_answer] in Ha; try (injection Ha as <- _);
    cbn [submit_entries app] in *; try (by apply Heq); try (by case_match; apply Heq).
  2: by destruct (sv_blockhash env) as [[]|]; apply Heq.
  destruct (sb_tracked st !! cx_tx_signature c) as [c'|] eqn:Hk; injection Ha as <- _; [by apply Heq|].
  rewrite (sto_tracked _ _ Hst) in Hk. clear Heq. cbn. case_bool_decide as Hkey; [|split; [done|by intros ->]].
  subst. split; [by rewrite Hk|]. intros _ c0 [= <-]. by destruct Hpre as [[_ ?] _].
Qed.

Record pool_ok (pl : SubmitPool) : Prop := {
  po_log : log_ok (sb_log (sp_state pl));
  po_stores : stores_ok (sp_state pl) (sb_log (sp_state pl));
  po_loop : guards rely_loop loop_pre loop_told (λ _ l, balanced l) (sb_log (sp_state pl)) (sp_loop pl);
  po_handlers : ∃ Gs, ghosts_ok Gs (sb_log (sp_state pl)) ∧
    ∀ n prog, sp_handlers pl !! n = Some prog → hsafe any (Gs n) (sb_log (sp_state pl)) prog
}.
Lemma log_of_submit env e st a st' : submit_answer env e st = (a, st') → sb_log st' = sb_log st.
Proof.
  destruct e; cbn [submit_answer]; intros Ha; try (by injection Ha as _ <-).
  - by destruct (or_insert _ _ _); injection Ha as _ <-.
  - by destruct (transition _ _ _ _); injection Ha as _ <-.
  - by destruct (sb_tracked st !! _); injection Ha as _ <-.
Qed.
Lemma submit_stores_logged st l es : stores_ok st l → stores_ok (logged es st) l.
Proof. by intros []. Qed.

Lemma submit_reachable_ok pl : submit_reachable rt recovery_ttl_seconds pl → pool_ok pl.
Proof.
  induction 1 as [|pl pl' _ IH Hstep].
  - split; cbn.
    + by apply log_ok_nil.
    + by split.
    + by apply wire_guards.
    + exists (λ _, None). by repeat split.
  - destruct IH as [Hl Hs Hloop (Gs & Hg & Hsafe)].
    destruct Hstep as [hs st|e k hs st env a st' Hfresh Hev|lo hs st n prog Hn Hprog
      |lo hs st n e k env a st' Hn Hfresh Hev|lo hs st n|lo st]; cbn [sp_loop sp_handlers sp_state] in *.
    + split; cbn; [done|done| |by exists Gs]. apply run_round_guards, Hloop. reflexivity.
    + unfold submit_event in Hev. destruct (submit_answer env e st) as [a' s1] eqn:Ha. injection Hev as <- <-.
      destruct (Hloop (sb_log st) ltac:(reflexivity)) as [Hpre Hk]. pose proof (log_of_submit _ _ _ _ _ Ha) as Hlog.
      pose proof (loop_base _ _ Hpre) as Hb. split; cbn; rewrite ?Hlog.
      * by eapply submit_log_step.
      * eapply submit_stores_logged, submit_stores_step; [exact Hl|done..].
      * apply Hk. split; [done|by eapply submit_told_ok].
      * exists Gs. split; [|intros n prog Hn; eapply safe_mono; [|by apply Hsafe]; by apply suffix_app_r].
        apply ghosts_entries; [|done]. intros id bytes r. apply quiet_entries. by destruct e.
    + split; cbn; [done|done|done|]. exists Gs. split; [done|].
      intros n' prog' [[<- <-]|[_ Hp]]%lookup_insert_Some; [by eapply submit_program_safe|by apply Hsafe].
    + unfold submit_event in Hev. destruct (submit_answer env e st) as [a' s1] eqn:Ha. injection Hev as <- <-.
      destruct (Hsafe n _ Hn (sb_log st) ltac:(reflexivity)) as [Hpre Hk]. pose proof (log_of_submit _ _ _ _ _ Ha) as Hlog.
      pose proof (handler_base _ _ _ _ Hg Hpre) as Hb. split; cbn; rewrite ?Hlog.
      * by eapply submit_log_step.
      * eapply submit_stores_logged, submit_stores_step; [exact Hl|done..].
      * eapply guards_mono; [apply _|by eapply handler_rely|done].
      * exists (<[n := taken_after (Gs n) e a']> Gs). split; [by eapply submit_ghosts_step|].
        intros n' prog [[<- <-]|[Hne Hp]]%lookup_insert_Some.
        -- rewrite fn_lookup_insert. apply Hk. by eapply submit_told_ok.
        -- rewrite fn_lookup_insert_ne by done. eapply safe_mono; [|by apply Hsafe]. by apply suffix_app_r.
    + split; cbn; [done|done|done|]. exists Gs. split; [done|]. intros n' prog [_ Hp]%lookup_delete_Some. by apply Hsafe.
    + split; cbn.
      * by apply log_ok_cons.
      * apply submit_stores_logged with (es := [XWired]), (tracked_step _ _ XWired ∅) in Hs; [by destruct Hs|done|done].
      * apply wire_guards. by intros key c.
      * exists Gs. split; [|by intros n prog]. by apply (ghosts_entries _ _ [XWired]); [intros ? ? ? ?%list_elem_of_singleton|].
Qed.

(** ** Properties *)
Implicit Types (pl : SubmitPool).
Notation reachable := (submit_reachable rt recovery_ttl_seconds).
Notation log_of pl := (sb_log (sp_state pl)).

(** C12: whatever is broadcast is what the plan said, signed by its wallet, in time.  When
    a handler submits bytes for a request, or the tracker broadcasts them again, on
    record are: the transaction parked under that request, made at a blockhash of the
    node from the instructions of a plan of this wallet, and taken out of the store; and
    the bytes are those of a transaction whose message has the hash of the parked one,
    whose first signature verifies under the wallet's key, and which carries the
    signature of the fresh obligation where the plan needs one.  A handler submits it
    only after the node gave a height at which the blockhash was valid. *)
Theorem broadcast_is_planned pl x l0 bytes :
  reachable pl → x :: l0 `suffix_of` log_of pl →
  (∃ id r, x = XSent id bytes r) ∨ (∃ key, x = XResent key bytes) →
  ∃ id p ixs tx, XParked id p ∈ l0 ∧ XTaken id p ∈ l0 ∧ planned rt p ixs ∧
    XBlockhash (pk_recent_blockhash p) (pk_last_valid_block_height p) ∈ l0 ∧
    tx_from_bytes bytes = Ok tx ∧ accepted p tx ∧
    (∃ parked, tx_to_bytes parked = Ok (pk_tx_bytes p) ∧ message parked = plan_message p ixs) ∧
    ∃ height, XHeight height ∈ l0 ∧ height ≤ pk_last_valid_block_height p.
Proof.
  intros [Hl _ _ _]%submit_reachable_ok Hs Hx.
  assert (∃ id r l1, XSent id bytes r :: l1 `suffix_of` x :: l0) as (id & r & l1 & Hs1).
  { destruct Hx as [(id & r & ->)|[key ->]]; [by exists id, r, l0|].
    destruct (Hl _ _ Hs) as (_ & c & (_ & _ & Hb & _) & Hc). apply Hb in Hc.
    assert (log_ok l0) as Hl0 by (eapply log_ok_tail, log_ok_suffix; [exact Hs|done]).
    destruct (log_before _ _ _ Hl0 Hc) as (l1 & Hs1 & _). eexists _, _, l1. etransitivity; [exact Hs1|].
    by apply suffix_cons_r. }
  assert (XSent id bytes r :: l1 `suffix_of` log_of pl) as Hs2 by (by etransitivity).
  destruct (Hl _ _ Hs2) as (_ & p & Ht & (tx & Htx & Hacc) & height & Hh & Hle).
  assert (l1 `suffix_of` l0) as Hl10.
  { destruct Hs1 as [[|y k] Heq]; [injection Heq as _ ->; done|]. injection Heq as _ ->.
    exists (k ++ [XSent id bytes r])%list. by rewrite <- app_assoc. }
  assert (log_ok l1) as Hl1 by (eapply log_ok_tail, log_ok_suffix; [exact Hs2|done]).
  destruct (log_before _ _ _ Hl1 Ht) as (l2 & Hs3 & Hp & _).
  assert (log_ok l2) as Hl2 by (eapply log_ok_tail, log_ok_suffix; [exact Hs3|done]).
  destruct (log_before _ _ _ Hl2 Hp) as (l3 & Hs4 & _ & Hbh & ixs & parked & Hplan & Hb & Hm & _).
  assert (l2 `suffix_of` l0) as Hl20 by (etransitivity; [by eapply suffix_tail|done]).
  assert (l3 `suffix_of` l0) as Hl30 by (etransitivity; [by eapply suffix_tail|done]).
  exists id, p, ixs, tx. split_and!; [kept|kept|done|kept|done|done|by exists parked|].
  exists height. split; [kept|done].
Qed.

(** C13: nothing is broadcast more often than it should be.  A request is submitted at
    most four times, however often and by however many handlers it is posted, since
    its transaction is taken out of the store at most once; and since a signature was
    last added to the tracker it was broadcast again at most six times. *)
Theorem submissions_bounded pl id key :
  reachable pl →
  (sends id (log_of pl) ≤ 4)%nat ∧ resends_since key (log_of pl) ≤ 6 ∧
  ∀ p l1 p' l2, XTaken id p :: l1 `suffix_of` log_of pl → XTaken id p' :: l2 `suffix_of` log_of pl → l1 = l2.
Proof.
  intros [Hl _ _ _]%submit_reachable_ok. split_and!.
  - induction (log_of pl) as [|x l IH]; [by cbn; lia|]. specialize (IH (log_ok_tail _ _ _ Hl)).
    pose proof (log_ok_head _ _ _ Hl) as Hx. destruct x; cbn; try done. case_bool_decide; [|done]. subst.
    destruct Hx as [Hx _]. lia.
  - induction (log_of pl) as [|x l IH]; [done|]. specialize (IH (log_ok_tail _ _ _ Hl)).
    pose proof (log_ok_head _ _ _ Hl) as Hx. destruct x; cbn; try done; case_bool_decide; try done.
    destruct Hx as [Hx _]. unfold MAX_CONFIRMATION_REBROADCAST_ATTEMPTS in Hx. subst. lia.
  - induction (log_of pl) as [|x l IH]; intros p l1 p' l2 Hp Hp'; [by destruct Hp as [[] ?]|].
    pose proof (log_ok_head _ _ _ Hl) as Hx. specialize (IH (log_ok_tail _ _ _ Hl)).
    apply suffix_cons_inv in Hp as [E1|Hp], Hp' as [E2|Hp']; [by simplify_eq| | |by eapply IH].
    + injection E1 as <- ->. destruct Hx as [_ Hno]. exfalso. eapply Hno. eapply elem_of_suffix; [by left|exact Hp'].
    + injection E2 as <- ->. destruct Hx as [_ Hno]. exfalso. eapply Hno. eapply elem_of_suffix; [by left|exact Hp].
Qed.

(** C14: a recorded outcome is the request's own and has its ground.  Whatever handlers,
    rounds and clocks do, the record kept of a request belongs to the session it was
    parked for, and: if it names a signature, the node gave that signature when the
    request was submitted; if it says confirmed, finalized or failed, the node
    answered so about this signature, with that slot or error; if it says timed out,
    the node did not know the signature and gave a later height than the blockhash
    allows; if it says expired or not broadcast, that is what happened to the
    transaction taken from the store; and if it says rejected, then for the reason it
    gives: the owner sent a text that is not base64 or holds no transaction, which is
    recorded while the transaction stays parked, and can still be submitted; or the
    transaction was taken, and the parked bytes could not be read, what the owner had
    sent differs from what may be returned in the way the refusal says, or the node gave
    no block height. *)
Theorem outcomes_borne_out pl id r :
  reachable pl → sb_lifecycle (sp_state pl) !! id = Some r →
  ∃ p, XParked id p ∈ log_of pl ∧ pk_session_id p = rs_session_id r ∧ borne_out (log_of pl) id p (rs_outcome r).
Proof.
  intros [_ Hs _ _]%submit_reachable_ok Hr. destruct (sto_lifecycle _ _ Hs _ _ Hr) as (p & [? ?] & ?). by exists p.
Qed.

(** A recorded outcome only moves forward: while a request has a record, each step
    leaves it as it is or replaces an outcome that was not terminal by one that ranks
    higher, for the same session and with the same time to live. *)
Theorem outcome_progress pl pl' id r r' :
  submit_step rt recovery_ttl_seconds pl pl' →
  sb_lifecycle (sp_state pl) !! id = Some r → sb_lifecycle (sp_state pl') !! id = Some r' →
  r' = r ∨ (outcome_terminal (rs_outcome r) = false ∧
            outcome_precedence (rs_outcome r) < outcome_precedence (rs_outcome r') ∧
            rs_session_id r' = rs_session_id r ∧ rs_recorded_at r' = rs_recorded_at r ∧
            rs_expires_at r' = rs_expires_at r).
Proof.
  assert (∀ env e st a st', submit_event env e st = (a, st') → sb_lifecycle st !! id = Some r →
    sb_lifecycle st' !! id = Some r' →
    r' = r ∨ (outcome_terminal (rs_outcome r) = false ∧
            outcome_precedence (rs_outcome r) < outcome_precedence (rs_outcome r') ∧
            rs_session_id r' = rs_session_id r ∧ rs_recorded_at r' = rs_recorded_at r ∧
            rs_expires_at r' = rs_expires_at r)) as Hev.
  { intros env e st a st' He Hr Hr'. unfold submit_event in He.
    destruct (submit_answer env e st) as [a' s1] eqn:Ha. injection He as <- <-. cbn in Hr'.
    destruct e; cbn [submit_answer] in Ha; try (injection Ha as <- <-; cbn in Hr'; left; by simplify_eq).
    - injection Ha as <- <-. cbn in Hr'. apply lookup_delete_Some in Hr' as [_ Hr']. left. by simplify_eq.
    - unfold or_insert in Ha. destruct (sb_lifecycle st !! id0) as [e|] eqn:Hi; injection Ha as <- <-; cbn in Hr'.
      + left. by simplify_eq.
      + apply lookup_insert_Some in Hr' as [[-> _]|[_ Hr']]; [congruence|]. left. by simplify_eq.
    - unfold transition in Ha. destruct (sb_lifecycle st !! id0) as [e|] eqn:Hi.
      + destruct (negb _); [injection Ha as <- <-; cbn in Hr'; left; by simplify_eq|].
        destruct (outcome_terminal _) eqn:Hterm; [injection Ha as <- <-; cbn in Hr'; left; by simplify_eq|].
        destruct (Z.leb_spec (outcome_precedence o) (outcome_precedence (rs_outcome e)));
          injection Ha as <- <-; cbn in Hr'; [left; by simplify_eq|]. apply lookup_insert_Some in Hr' as [[-> <-]|[_ Hr']]; [|left; by simplify_eq].
        simplify_eq. right. split_and!; try done.
      + injection Ha as <- <-. cbn in Hr'. left. by simplify_eq.
    - destruct (sb_tracked st !! _); injection Ha as <- <-; cbn in Hr'; left; by simplify_eq. }
  intros Hstep Hr Hr'. destruct Hstep; cbn in *; try (left; by simplify_eq); by eapply Hev.
Qed.

(** C15: a session learns of its own requests only.  Every answer that says more than that
    nothing was found is to the session that the request was parked for; the bytes it
    gives to sign are those parked, a submission it reports was broadcast under that
    signature, and any other answer reports, under the request's id and field by field,
    an outcome that is borne out. *)
Theorem answers_to_owner pl session id r l0 :
  reachable pl → XAnswered session id r :: l0 `suffix_of` log_of pl →
  r = RetrieveReply GNotFound ∨ r = SubmitReply PNotFound ∨
  ∃ p, XParked id p ∈ l0 ∧ pk_session_id p = session ∧
    match r with
    | RetrieveReply (GFound _ _ _ b64 _ _ _ _ _ _) => b64 = SigningTool.base64_text (pk_tx_bytes p)
    | SubmitReply (PSubmitted _ _ _ text _ _) => sent_as l0 id text
    | _ => ∃ o, borne_out l0 id p o ∧ answers_outcome id r o
    end.
Proof.
  intros [Hl _ _ _]%submit_reachable_ok Hs. pose proof (Hl _ _ Hs) as Hr. cbn in Hr.
  assert ((∃ p o, owned_by l0 id session p ∧ borne_out l0 id p o ∧ answers_outcome id r o) →
    ∃ p, XParked id p ∈ l0 ∧ pk_session_id p = session ∧ ∃ o, borne_out l0 id p o ∧ answers_outcome id r o) as Hrec.
  { intros (p & o & [? ?] & ? & ?). exists p. split_and!; [done|done|by exists o]. }
  destruct r as [[]|[]]; try (by left); try (by right; left); right; right; try (by apply Hrec);
    destruct Hr as (p & [? ?] & ?); by exists p.
Qed.
End safety.
