(* ===== verification/SubmitRuns.v ===== *)
(** * Runs of the Solend submission

    A deposit that opens an obligation, from its plan to finality; the witnesses of the
    properties; and what a malformed submission and a tracker wired anew lead to. *)
From S2P Require Import Prelude Interaction WatcherBase RustText Solana SdkTypes TxLifecycle.
From S2P Require Import TxTracker SubmitStores SubmitFlow SubmitLogic SubmitSafety.
From S2P Require DemoRuntime LendingPolicy SigningTool SigningRuns TxTrackerFacts.
#[local] Open Scope string_scope.
#[local] Open Scope Z_scope.

(** ** The crates of the runs

    Those of the signing runs, with messages whose signers are the payer and the
    accounts that sign. *)
#[local] Existing Instances SigningRuns.run_base64 SigningRuns.run_base64_encode TxTrackerFacts.run_texts.
Definition signer_keys (ixs : list Instruction) (payer : option Pubkey) : list Pubkey :=
  let signers := remove_dups (mjoin (map (λ ix, map meta_key (List.filter meta_signer (ix_accounts ix))) ixs)) in
  option_list payer ++ List.filter (λ k, negb (bool_decide (Some k = payer))) signers.
Definition compile (ixs : list Instruction) (payer : option Pubkey) : Message :=
  let signers := signer_keys ixs payer in
  let keys := (signers ++ List.filter (λ k, negb (bool_decide (k ∈ signers))) (keys_of ixs payer))%list in
  MkMessage (MkHeader (Z.of_nat (length signers)) 0 0) keys (replicate 32 (byte_of 0))
    (map (SigningRuns.compile_ix keys) ixs).
#[local] Instance run_sdk : Sdk :=
  let m := SigningRuns.sdk_model in {|
  tx_from_bytes := @tx_from_bytes m; tx_to_bytes := @tx_to_bytes m;
  vtx_from_bytes := @vtx_from_bytes m; vtx_to_bytes := @vtx_to_bytes m;
  message_new := compile;
  msg_is_signer := @msg_is_signer m; msg_is_maybe_writable := @msg_is_maybe_writable m;
  message_bytes := @message_bytes m;
  set_compute_unit_limit := @set_compute_unit_limit m; set_compute_unit_price := @set_compute_unit_price m;
  compute_budget_id := @compute_budget_id m;
  sign_message := @sign_message m; sig_verify := @sig_verify m; partial_sign := @partial_sign m;
  show_pubkey := @show_pubkey m; parse_pubkey := @parse_pubkey m; show_signature := @show_signature m |}.
#[local] Instance run_crates : SubmitCrates := {|
  message_hash m := message_bytes (LegacyMessage m);
  new_unsigned m :=
    MkTransaction (replicate (Z.to_nat (num_required_signatures (header m))) default_signature) m;
  try_partial_sign key h tx :=
    match partial_sign key (set_blockhash h tx) with Some tx => Ok tx | None => Err "keypair-pubkey mismatch" end
|}.
#[local] Instance run_crates_laws : SubmitCratesLaws.
Proof.
  split; [done|]. intros key h tx tx' Hs. cbn in Hs.
  destruct (SigningRuns.sign_partially key (set_blockhash h tx)) as [tx1|] eqn:Hp; [|done]. injection Hs as ->.
  unfold SigningRuns.sign_partially in Hp. destruct (list_find _ _) as [[i k]|]; [|done]. cbn in Hp.
  by injection Hp as <-.
Qed.
#[local] Notation rt := (DemoRuntime.demo_runtime DemoRuntime.demo_program).
#[local] Notation ttl := 900.

(** ** Schedules *)
Inductive Request :=
| Prepare (plan : SolendDepositTxPlan) (preflight : SolendPreflightOutcome) (lease : Z)
| Ask (session : SessionId) (id : Uuid)
| Post (session : SessionId) (id : Uuid) (signed_tx_b64 : string).
Definition program_of (q : Request) : SProg unit :=
  match q with
  | Prepare plan preflight lease => discard (create_signing_handoff rt plan preflight lease None)
  | Ask session id => answering session id RetrieveReply (retrieve session id)
  | Post session id b64 => posting ttl session id b64
  end.
Inductive Act :=
| Begin (n : nat) (q : Request)
| Serve (n fuel : nat) (env : SubmitEnv)
| Round
| Poll (fuel : nat) (env : SubmitEnv)
| Rewire.
Definition fresh_b (env : SubmitEnv) (l : SubmitLog) : bool :=
  forallb (λ x, match x with XParked id _ => negb (bool_decide (id = sv_uuid env)) | _ => true end) l.
Lemma fresh_b_fresh env l : fresh_b env l = true → env_fresh env l.
Proof.
  unfold fresh_b. rewrite forallb_forall. intros Hf p Hin%list_elem_of_In%Hf.
  by apply negb_true_iff, bool_decide_eq_false in Hin.
Qed.

(** A program runs until it ends, the id to draw is not fresh or its fuel is spent. *)
Fixpoint go (fuel : nat) (env : SubmitEnv) (p : SProg unit) (st : SubmitState) : SProg unit * SubmitState :=
  match fuel, p with
  | S fuel, Vis e k =>
      if fresh_b env (sb_log st)
      then let '(a, st) := submit_event env e st in go fuel env (k a) st else (p, st)
  | _, _ => (p, st)
  end.
Definition act (a : Act) (pl : SubmitPool) : SubmitPool :=
  let '(MkPool lo hs st) := pl in
  match a with
  | Begin n q => match hs !! n with None => MkPool lo (<[n := program_of q]> hs) st | Some _ => pl end
  | Serve n fuel env =>
      match hs !! n with
      | Some p => let '(p, st) := go fuel env p st in
                  MkPool lo (match p with Ret _ => delete n hs | _ => <[n := p]> hs end) st
      | None => pl
      end
  | Round => match lo with Ret tt => MkPool run_round hs st | _ => pl end
  | Poll fuel env => let '(p, st) := go fuel env lo st in MkPool p hs st
  | Rewire => if bool_decide (hs = ∅) then MkPool wire_solend_confirmation_tracker ∅ (rewired st) else pl
  end.
Notation reachable := (submit_reachable rt ttl).
Lemma submit_go_reachable fuel env p st (f : SProg unit → SubmitState → SubmitPool) :
  (∀ e k st a st', env_fresh env (sb_log st) → submit_event env e st = (a, st') →
     submit_step rt ttl (f (Vis e k) st) (f (k a) st')) →
  reachable (f p st) → reachable (f (go fuel env p st).1 (go fuel env p st).2).
Proof.
  intros Hf. revert p st. induction fuel as [|fuel IH]; intros p st Hr; [done|].
  destruct p as [u|e k]; cbn [go]; [done|]. destruct (fresh_b env (sb_log st)) eqn:Hfr; [|done].
  apply fresh_b_fresh in Hfr. destruct (submit_event env e st) as [a st'] eqn:He. apply IH.
  eapply submit_more; [exact Hr|by apply Hf].
Qed.
Lemma submit_act_reachable a pl : reachable pl → reachable (act a pl).
Proof.
  intros Hr. destruct pl as [lo hs st]. destruct a; cbn [act].
  - destruct (hs !! n) eqn:Hn; [done|]. eapply submit_more; [exact Hr|]. constructor; [done|].
    destruct q; constructor.
  - destruct (hs !! n) as [p|] eqn:Hn; [|done].
    pose proof (submit_go_reachable fuel env p st (λ p st, MkPool lo (<[n := p]> hs) st)) as Hgo.
    destruct (go fuel env p st) as [p' st']. cbn in Hgo. rewrite insert_id in Hgo by done.
    assert (reachable (MkPool lo (<[n := p']> hs) st')) as Hr'.
    { apply Hgo; [|done]. intros e k s a s' Hfr He.
      replace (<[n := k a]> hs) with (<[n := k a]> (<[n := Vis e k]> hs)) by apply insert_insert_eq.
      eapply handler_runs; [by rewrite lookup_insert_eq|done|done]. }
    destruct p'; [|done]. eapply submit_more; [exact Hr'|].
    replace (delete n hs) with (delete n (<[n := Ret a]> hs)) by apply delete_insert_eq. constructor.
  - destruct lo as [[]|]; [|done]. eapply submit_more; [exact Hr|constructor].
  - pose proof (submit_go_reachable fuel env lo st (λ p st, MkPool p hs st)) as Hgo.
    destruct (go fuel env lo st). apply Hgo; [|done]. intros. by econstructor.
  - case_bool_decide; [|done]. subst. eapply submit_more; [exact Hr|constructor].
Qed.
Definition begun : SubmitPool := MkPool wire_solend_confirmation_tracker ∅ (MkSubmit ∅ ∅ ∅ []).
Definition acts (l : list Act) : SubmitPool := foldl (λ pl a, act a pl) begun l.
Lemma submit_acts_reachable l : reachable (acts l).
Proof.
  unfold acts. assert (reachable begun) as Hb by constructor. revert Hb. generalize begun.
  induction l as [|a l IH]; intros pl Hpl; [done|]. cbn [foldl]. by apply IH, submit_act_reachable.
Qed.

(** ** A deposit *)
Definition key (n : Z) : Pubkey := replicate 32 (byte_of n).
Definition wallet : Pubkey := key 87.
Definition placeholder : Pubkey := key 48.
Definition obligation : Pubkey := key 75.
Definition program : Pubkey := key 83.
Definition plan : SolendDepositTxPlan :=
  MkDepositPlan 1%N 2%N 7%N wallet 40
    (LendingPolicy.Deposit LendingPolicy.Solend (key 49) (LendingPolicy.MkUnderlying 1000000))
    [MkInstruction system_program_id [meta_new wallet true; meta_new placeholder true] (to_le 4 0)]
    [MkInstruction program [meta_new (key 82) false] [byte_of 3]]
    [MkInstruction program [meta_new wallet true; meta_new (key 82) false; meta_new placeholder false] [byte_of 14]]
    (Some placeholder) true
    (MkAccounts (key 82) (key 49) placeholder (key 50) (key 51) true true false) 9000000.
Definition passed : SolendPreflightOutcome :=
  Passed 40 (Some 41) (Some 90000) [] false None None false true.

Definition env_at (now height : Z) (send : Result string string) (status : option NodeStatus) : SubmitEnv :=
  MkSubmitEnv now now 5%N obligation (Ok (replicate 32 (byte_of 9), 300)) (Ok height) (Ok height)
    (λ sigs, Ok (map (λ _, status) sigs)) send [] [].
Definition with_keys (keys : list Signature) (ids : list Uuid) (env : SubmitEnv) : SubmitEnv :=
  MkSubmitEnv (sv_utc env) (sv_instant env) (sv_uuid env) (sv_keypair env) (sv_blockhash env) (sv_height env)
    (sv_final_height env) (sv_statuses env) (sv_send env) keys ids.
Definition with_uuid (id : Uuid) (env : SubmitEnv) : SubmitEnv :=
  MkSubmitEnv (sv_utc env) (sv_instant env) id (sv_keypair env) (sv_blockhash env) (sv_height env)
    (sv_final_height env) (sv_statuses env) (sv_send env) (sv_keys env) (sv_ids env).

Definition prepared_run : list Act :=
  [Poll 10 (env_at 0 100 (Err "") None); Begin 0 (Prepare plan passed 600);
   Serve 0 20 (env_at 1000 100 (Err "") None); Serve 0 20 (with_uuid 6%N (env_at 1000 100 (Err "") None))].
Definition parked (l : list Act) : option ParkedSolendSigning := sb_signing (sp_state (acts l)) !! 5%N.
(** What the wallet returns. *)
Definition signed_by_wallet : Transaction :=
  match parked prepared_run with
  | Some p => match tx_from_bytes (pk_tx_bytes p) with
              | Ok tx => default tx (partial_sign wallet tx)
              | Err _ => MkTransaction [] (compile [] None)
              end
  | None => MkTransaction [] (compile [] None)
  end.
Definition signature : Signature := default [] (head (signatures signed_by_wallet)).
Definition bytes_of (tx : Transaction) : list byte := match tx_to_bytes tx with Ok bs => bs | Err _ => [] end.
Definition node (now height : Z) (status : option NodeStatus) : SubmitEnv :=
  with_uuid 6%N (with_keys [signature] [5%N] (env_at now height (Ok (bytes_str signature)) status)).
Definition posted (n : nat) (b64 : string) (now : Z) : list Act :=
  [Begin n (Post 7%N 5%N b64); Serve n 40 (node now 110 None)].
Definition good : string := bytes_str (bytes_of signed_by_wallet).
Definition submitted_run : list Act := prepared_run ++ posted 1 good 2000.
Definition round (now height : Z) (status : option NodeStatus) : list Act := [Round; Poll 60 (node now height status)].
Definition at_level (c : Commitment) (slot : Z) : option NodeStatus := Some (MkStatus (Some c) None slot).
Definition resent_run : list Act := submitted_run ++ round 5000 120 None.
Definition finalized_run : list Act :=
  resent_run ++ round 6000 130 (at_level AtConfirmed 77) ++ round 7000 140 (at_level AtFinalized 77).
Definition asked (n : nat) (session : SessionId) : list Act :=
  [Begin n (Ask session 5%N); Serve n 20 (node 8000 150 None)].

Definition log_after (l : list Act) : SubmitLog := sb_log (sp_state (acts l)).
Definition outcome_after (l : list Act) : option RecordedSubmitOutcome :=
  rs_outcome <$> sb_lifecycle (sp_state (acts l)) !! 5%N.
Definition answers (l : SubmitLog) : list Reply :=
  omap (λ x, match x with XAnswered _ _ r => Some r | _ => None end) l.

(** *** The whole run *)
Lemma deposit_run :
  outcome_signature <$> outcome_after submitted_run = Some (Some (bytes_str signature)) ∧
  resends_since signature (log_after resent_run) = 1 ∧
  outcome_success <$> outcome_after finalized_run = Some true ∧
  sb_tracked (sp_state (acts finalized_run)) = ∅ ∧
  answers (log_after (finalized_run ++ asked 3 7%N ++ asked 4 8%N)) =
    [RetrieveReply GNotFound; RetrieveReply (GFinalized 5%N 2%N (bytes_str signature) 77);
     SubmitReply (PSubmitted 5%N 2%N "W" (bytes_str signature) 40 300)].
Proof. by vm_compute. Qed.

(** ** Witnesses *)
Definition entries_from (test : SubmitEntry → bool) : SubmitLog → SubmitLog :=
  fix go l := match l with [] => [] | x :: l => if test x then x :: l else go l end.
Lemma entries_suffix test l x : head (entries_from test l) = Some x →
  x :: tail (entries_from test l) `suffix_of` l.
Proof.
  intros Hx. assert (entries_from test l `suffix_of` l) as Hs.
  { clear Hx. induction l as [|y l IH]; [done|]. cbn. destruct (test y); [done|]. by apply suffix_cons_r. }
  by destruct (entries_from test l) as [|y l']; [|injection Hx as ->].
Qed.
Definition is_resent (x : SubmitEntry) : bool := match x with XResent _ _ => true | _ => false end.
Definition is_answer (x : SubmitEntry) : bool := match x with XAnswered _ _ _ => true | _ => false end.

Lemma broadcast_is_planned_witness :
  submit_reachable rt ttl (acts resent_run) ∧
  ∃ id p ixs tx, let l0 := tail (entries_from is_resent (log_after resent_run)) in
    XParked id p ∈ l0 ∧ XTaken id p ∈ l0 ∧ planned rt p ixs ∧
    XBlockhash (pk_recent_blockhash p) (pk_last_valid_block_height p) ∈ l0 ∧
    tx_from_bytes (bytes_of signed_by_wallet) = Ok tx ∧ accepted p tx ∧
    (∃ parked, tx_to_bytes parked = Ok (pk_tx_bytes p) ∧ message parked = plan_message p ixs) ∧
    ∃ height, XHeight height ∈ l0 ∧ height ≤ pk_last_valid_block_height p.
Proof.
  split; [apply submit_acts_reachable|].
  apply (broadcast_is_planned rt ttl TxTrackerFacts.texts_parse (acts resent_run)
           (XResent signature (bytes_of signed_by_wallet))).
  - apply submit_acts_reachable.
  - apply entries_suffix. by vm_compute.
  - right. by exists signature.
Defined.

Lemma submissions_bounded_witness :
  submit_reachable rt ttl (acts resent_run) ∧ sends 5%N (log_after resent_run) = 1%nat ∧
  (sends 5%N (log_after resent_run) ≤ 4)%nat ∧ resends_since signature (log_after resent_run) ≤ 6.
Proof.
  split; [apply submit_acts_reachable|]. split; [by vm_compute|].
  destruct (submissions_bounded rt ttl TxTrackerFacts.texts_parse (acts resent_run) 5%N signature) as (? & ? & _);
    [apply submit_acts_reachable|]. by split.
Defined.

Definition finalized_record : RecordedSubmission :=
  default (MkRecorded 0%N (RExpired "") 0 0) (sb_lifecycle (sp_state (acts finalized_run)) !! 5%N).
Lemma outcomes_borne_out_witness :
  submit_reachable rt ttl (acts finalized_run) ∧
  rs_outcome finalized_record = RFinalized (bytes_str signature) 77 2%N wallet 300 ∧
  ∃ p, XParked 5%N p ∈ log_after finalized_run ∧ pk_session_id p = rs_session_id finalized_record ∧
    borne_out (log_after finalized_run) 5%N p (rs_outcome finalized_record).
Proof.
  split; [apply submit_acts_reachable|]. split; [by vm_compute|].
  apply (outcomes_borne_out rt ttl TxTrackerFacts.texts_parse (acts finalized_run)); [apply submit_acts_reachable|].
  by vm_compute.
Defined.

Definition answered_run : list Act := finalized_run ++ asked 3 7%N.
Lemma answers_to_owner_witness :
  submit_reachable rt ttl (acts answered_run) ∧
  let r := RetrieveReply (GFinalized 5%N 2%N (bytes_str signature) 77) in
  let l0 := tail (entries_from is_answer (log_after answered_run)) in
  r = RetrieveReply GNotFound ∨ r = SubmitReply PNotFound ∨
  ∃ p, XParked 5%N p ∈ l0 ∧ pk_session_id p = 7%N ∧
    ∃ o, borne_out l0 5%N p o ∧ answers_outcome 5%N r o.
Proof.
  split; [apply submit_acts_reachable|].
  apply (answers_to_owner rt ttl TxTrackerFacts.texts_parse (acts answered_run) 7%N 5%N
           (RetrieveReply (GFinalized 5%N 2%N (bytes_str signature) 77))); [apply submit_acts_reachable|].
  apply entries_suffix. by vm_compute.
Defined.

(** ** What the runs show *)

(** A malformed submission is refused before the transaction is taken from the store,
    and recorded as rejected for good.  The transaction can still be submitted: it is
    broadcast, and the client is told so; but the record goes on saying rejected, and
    the tracker is not asked to follow the transaction. *)
Definition malformed_run : list Act := prepared_run ++ posted 1 "x" 2000.
Definition malformed_then_good : list Act := malformed_run ++ posted 2 good 3000.
Lemma malformed_locks_record :
  (∃ m, outcome_after malformed_run = Some (RRejected "MalformedTransaction" m)) ∧
  is_Some (parked malformed_run) ∧
  sends 5%N (log_after malformed_then_good) = 1%nat ∧
  head (answers (log_after malformed_then_good)) =
    Some (SubmitReply (PSubmitted 5%N 2%N "W" (bytes_str signature) 40 300)) ∧
  outcome_after malformed_then_good = outcome_after malformed_run ∧
  sb_tracked (sp_state (acts malformed_then_good)) = ∅ ∧
  (∃ m, head (answers (log_after (malformed_then_good ++ asked 3 7%N))) =
    Some (RetrieveReply (GRejected 5%N "MalformedTransaction" m))).
Proof. vm_compute. split_and!; try done; by eexists. Qed.

(** Broadcasting is tried four times, each attempt an answer of the node apart. *)
Definition refused : SubmitEnv := with_uuid 6%N (env_at 2000 110 (Err "node is behind") None).
Definition refused_run : list Act := prepared_run ++ [Begin 1 (Post 7%N 5%N good); Serve 1 40 refused].
Lemma four_attempts :
  sends 5%N (log_after refused_run) = 4%nat ∧
  (∃ m, outcome_after refused_run = Some (RBroadcastFailed "RpcBroadcastError" m)) ∧
  parked refused_run = None.
Proof. vm_compute. split_and!; try done. by eexists. Qed.

(** An entry whose time to live has passed is not found, not expired. *)
Definition late_run : list Act := prepared_run ++ posted 1 good 700000.
Lemma expired_entry_not_found :
  answers (log_after late_run) = [SubmitReply PNotFound] ∧ parked late_run = None.
Proof. by vm_compute. Qed.

(** A tracker wired anew starts a confirmed transaction over: the node's silence then
    turns the record into a timeout, where the same tracker would have kept it. *)
Definition confirmed_run : list Act := resent_run ++ round 6000 130 (at_level AtConfirmed 77).
Definition rewired_run : list Act := confirmed_run ++ [Rewire; Poll 20 (node 6500 140 None)].
Lemma confirmed_times_out_after_rewiring :
  outcome_after (confirmed_run ++ round 7000 400 None) = outcome_after confirmed_run ∧
  (∃ reason, outcome_after (rewired_run ++ round 7000 400 None) =
     Some (RConfirmationTimeout (bytes_str signature) 300 400 reason)).
Proof. vm_compute. split; [done|by eexists]. Qed.
